(* ===== verification/_CoqProject ===== *)
-Q . S2P
Prelude.v
OrdMap.v
EventQueue.v
HeapQueue.v
PriorityQueue.v
CalendarQueue.v
Simulator.v
KernelProps.v
Messages.v
Repository.v
RepositoryFacts.v
RepositoryProps.v
World.v
RlLm.v
RlLmProps.v
MoniLm.v
LogicModule.v
RicE2Term.v
NearRtRic.v
RicFacts.v
Reporters.v
E2Node.v
WorldExamples.v
RicProps.v
QueryProps.v
E2Props.v
NodeProps.v
System.v
Invariant.v
InvariantFacts.v
SystemProps.v
InvariantProps.v
Clocks.v
ClocksFacts.v
ClocksProps.v
Amc.v
AmcProps.v
DlUe.v
CqiManagement.v
CqiProps.v
UlScheduler.v
UlFacts.v
UlProps.v
DlScheduler.v
DlFacts.v
Dci.v
DlProps.v
DciProps.v
LogicalChannels.v
LcProps.v
Harq.v
Srs.v
SfnSf.v
MacScheduler.v
Reshape.v
ResourceMatrix.v
UlSlot.v
DlSlot.v
SlotLayout.v
UlTiling.v
HarqFacts.v
MacFacts.v
UlGrant.v
UlSlotFacts.v
UlData.v
UlSlotProps.v
DlGrant.v
DlSlotFacts.v
DlHarq.v
DlData.v
DlSlotProps.v
DlMacProps.v
MacInvariant.v
MacRequests.v
CqiRequests.v
MacReach.v
MacProps.v
MacExamples.v
DlMacExamples.v
EndToEnd.v
