(* ===== verification/Prelude.v ===== *)
(** * O-RAN on ns-3: a verification development

    ** The program

    The repository is ns-3 with the NR module and an O-RAN model (src/oran), the part this
    project adds.  A Near-RT RIC keeps a SQLite database of what E2 nodes report, runs logic
    modules on it in cycles and sends their commands back to the nodes; two of the modules
    ask a reinforcement-learning agent how to share 533 resource block groups (RBGs) of the
    uplink, and a scheduler of the NR module enforces the answer.  Everything is driven by
    the discrete-event kernel of ns-3: each message is a method call scheduled after a
    transmission delay.

    One cycle: QueryLms starts a run of every logic module; the end of a run (FinishRun,
    after a processing delay) hands its commands to NotifyLmFinished; when all modules have
    answered, or the window closes, ProcessLmQueryCommands passes the commands through the
    conflict mitigation module to the RIC's E2 terminator, which schedules ReceiveCommand on
    the node's terminator.  The other way, triggers make reporters generate reports, a
    terminator keeps them and sends them at intervals, and the RIC saves them.  Nodes
    register at intervals; CheckForInactivity deregisters those that have stopped.

    ** The model, file by file

    Prelude: integers of the machine (wrap, swrap, fits), the result monad [res] whose
    [Abort] is NS_ABORT, NS_ASSERT or the use of a null pointer.  OrdMap: std::map, with the
    order its iterators give.

    EventQueue (core/model/scheduler.h, list- and map-scheduler.cc): the interface
    ns3::Scheduler as the class [EventQueue] and its contract as [EventQueueLaws]: a queue
    represents the list of its events sorted by time and uid, for clients that never insert
    anything earlier than the event they were given last. HeapQueue, PriorityQueue,
    CalendarQueue (heap-, priority-queue- and calendar-scheduler.cc): the other three
    implementations. Simulator (default-simulator-impl.cc, event-id.cc, event-impl.cc):
    Schedule, Cancel, Remove, Run, Stop, Destroy, SetScheduler over any queue; EventImpl
    objects live in a store because EventIds share them. KernelProps: its theorems.

    Messages: doubles as binary64 SpecFloat values; reports and commands, one constructor per
    class.  Repository
    (oran-nr-data-repository-sqlite.cc): a table is a list of rows, an SQL statement a
    function on the tables named after its enum constant, a method binds, runs, and reads
    the columns back at the widths of the source.  RepositoryFacts, RepositoryProps: which
    nodes are registered, ids, round trips, truncations.

    World: one record per C++ class, a store per kind of object, [None] a null pointer; the
    planned events are the constructors of [OranEvent]; then the [plan] of a world, the live
    events still to come, and what scheduling does to it.

    RlLm (oran-lm-nr-rl-qlearn.cc, oran-lm-nr-rl-dqn.cc), MoniLm (oran-lm-nr-2-nr-moni.cc),
    LogicModule (oran-lm.cc, oran-lm-noop.cc, oran-cmm*.cc): the modules; RlLmProps,
    RicFacts: the target allocation and the runs.

    RicE2Term (oran-nr-near-rt-ric-e2terminator.cc), NearRtRic (oran-nr-near-rt-ric.cc):
    the RIC; RicFacts, RicProps, QueryProps, E2Props: its theorems.  Reporters
    (oran-reporter*.cc, oran-report-trigger*.cc), E2Node (oran-e2-node-terminator*.cc):
    the nodes; NodeProps: theirs.

    System: [handle] dispatches each event to its method, [step] is one iteration of
    Simulator::Run.  SystemProps: what is planned is what runs.  Invariant, InvariantFacts,
    InvariantProps: the invariant of the whole system and the worlds it reaches.  Clocks,
    ClocksFacts, ClocksProps: the events that plan themselves again (queries,
    inactivity checks, registrations), with triples for the operations and a frame rule for
    the quiet ones, which leave every such clock as it is.

    Amc (nr-amc.cc, with the tables of nr-lte-mi-error-model.cc): the MCS of a CQI, the
    feedback of a transmission, the size of a transport block.  DlUe
    (nr-mac-scheduler-ue-info.cc and its round-robin subclass) and CqiManagement
    (nr-mac-scheduler-cqi-management.cc): a UE in the downlink and its CQI reports.  AmcProps,
    CqiProps: their theorems.

    UlScheduler (nr-mac-scheduler-ofdma-ul-target.cc, over nr-mac-scheduler-ofdma.cc,
    -ofdma-symbol-per-beam.cc, -ue-info.cc): the uplink allocation; UlFacts, UlProps: its
    theorems.  DlScheduler (nr-mac-scheduler-ofdma.cc, -ofdma-rr.cc): the downlink allocation
    with the round-robin policy, and Dci: the DCIs made from both.  DlFacts says when a state
    of a beam represents who holds which RBG and takes the loops through it, DlProps and
    DciProps have the theorems.  EndToEnd: from the agent's answer to the RBGs of each UE.

    The MAC scheduler around the two allocations. LogicalChannels (nr-mac-scheduler-lcg.cc,
    -lc-rr.cc, nr-mac-short-bsr-ce.cc), Harq (nr-mac-harq-vector.cc), Srs
    (nr-mac-scheduler-srs-default.cc) and SfnSf (sfnsf.cc): the parts a UE and a slot are
    made of; LcProps and the ends of the other files: their theorems. MacScheduler
    (nr-mac-scheduler-ns3.cc): the state and the requests that configure it. ResourceMatrix
    (resource-assignment-matrix.cc): the check of a finished slot. UlSlot and DlSlot
    (nr-mac-scheduler-ns3.cc, -harq-rr.cc): the uplink and the downlink slot, from
    DoSchedUlTriggerReq and DoSchedDlTriggerReq to the allocations they hand to
    SchedConfigInd. SlotLayout says when the allocations of a slot are compatible and that
    the check of the matrix then passes, UlTiling when they fill a part of it; HarqFacts,
    MacFacts: the feedback and the tables both directions share. UlGrant, UlSlotFacts,
    UlData, UlSlotProps take the steps of an uplink slot through its invariant [slot_wf],
    one lemma per step of DoScheduleUl; DlGrant, DlSlotFacts, DlHarq, DlData, DlSlotProps do
    it for the downlink, with [resending] for the retransmissions and [dl_group] for the
    data of a beam. Reshape (nr-mac-scheduler-tdma.cc): the reshaping of retransmissions.
    MacInvariant, MacRequests, CqiRequests (with the requests that carry CQI reports),
    MacReach: the invariant of the scheduler between requests, that every handler keeps it in
    either direction, and the states that sound requests reach. MacProps, DlMacProps: the
    theorems, MacExamples, DlMacExamples: small cells they apply to.

    A method of a C++ class is a function of the same name from a world to a [res] world, in
    the order of the source; where two classes share a method name, a prefix tells them apart
    (LmActivate, RicActivate, TermActivate).  Members keep their names as record fields.

    ** What the theorems show

    - Kernel: events run in the order of time and scheduling, a cancelled event does not run,
      and the queue behind the interface cannot be observed by handlers that do not call Remove.  The calendar queue answers every
      sequence of calls as a sorted list would, whatever widths its resizing computes.
      HeapScheduler keeps the contract as long as Remove is not used; Remove can break it.
    - Repository: registration and deregistration, fresh ids, the agreement of the queries
      on who is registered, the window of CQI samples, and where 64-bit values are cut.
    - Logic modules: the target loops end; targets are at least 1 and sum to 533.
    - RIC: a query starts every module, the commands are processed exactly when every module
      has reported and all are sent; inactivity deregisters exactly the silent nodes.
    - Nodes: reports are sent once and in order, samples add up.
    - Whole system: [reachable] closes a fresh system under events, script calls and trace
      callbacks that switch no terminator off before it has a node id; every world in it
      satisfies [system_inv], so no message is for a null terminator.  A terminator that is
      switched off too early can end the program.
      [runs_to] closes a system that was set up under the same, without switching the RIC
      other than by Start and Stop: in every world in it the kernel is sound, an EventId an
      object keeps names an event of that object, and each clock that is on has exactly one
      event to come, within the longest delay; a clock that is off has none.
    - Uplink scheduler: no UE exceeds its target, RBGs are exclusive, targets that fit are met
      exactly, and without targets the base class is unchanged.
    - Downlink scheduler: the allocation of a slot ends and trips no assertion, RBGs are
      exclusive, a UE holds RBGs only for a block of at least 10 bytes, an RBG is left over only
      when every UE is satisfied or turned it down, and each UE's DCI carries its RBGs.
    - CQI and MCS: a report leaves the UE well formed, a MCS is the highest its CQI or its
      channel bears, a transport block fits the payload.
    - Uplink slot: a slot is always laid out, its allocations fill the end of the slot and
      do not overlap, the targets hold for what is sent, every grant waits in a HARQ process
      of its own, negative feedback is answered or kept, and a process without an answer
      expires; what was sent can be reported on, and the report leaves the record.
    - Downlink slot: if the feedback of a slot is all of one beam and no other beam has ever
      sent anything again, the slot is laid out next to what the uplink has taken of it, its
      allocations are compatible, every grant waits in a process of its own, sub-PDUs fill
      their block and negative feedback is answered or kept.
      In a flexible slot the two directions do not overlap while the record of the uplink is
      as it was.  Feedback of several beams is where the code fails: a theorem says how for a
      second beam alone, an example for two beams in one slot.
    - Reshaping: retransmissions of UEs without sub-bands, or small ones, are placed side by
      side with the resources they had; otherwise the loop can run forever.
    - MAC requests: [mac_reach] closes an empty scheduler under the sound requests
      ([req_ok]); in every state in it the next sound request, a slot or a CQI report of
      either direction included, is answered without an assertion, and no two UEs sound in
      the same slot. Releasing a UE with a pending request is not sound: the program stops
      in the next slot.
    - The split of a block among logical channels ends and is fair; the levels of a buffer
      status report and the encoded slot numbers are read back as they were written.
    - Errors: the theorems of kind error state what the code does where it fails.

    ** Bounds, fuel and parameters

    Time is an int64 and uids are uint32: theorems that schedule assume [room], that the
    clock plus the delays stays below 2^63 and the uids below 2^32 ([in_bounds] says it of
    the world a run ends in, which is enough for all of the run).  [Run fuel] answers None
    when more than [fuel] events remain; the statements about the system use [steps n], and
    each gives the n.  The target loops of RlLm run with the distance of the sum to 533 as
    fuel, and every iteration moves the sum by one ([shrink_ends], [grow_ends]).  The sift
    loops of the heap have its length as fuel ([TopDown_loop_ok], [BottomUp_loop_ok]), the
    scan of the calendar queue its number of buckets ([scan_ok]) and the loop of SetScheduler
    the number of events ([move_events_ok]).  Destroy is bounded by the fuel it is given.  In
    the downlink [fill] has the number of RBGs left, [reap] the RBGs of the UE and [reaping]
    one more than the UEs ([dl_allocation_returns]); [sb_size] doubles 16 times, enough for a
    16-bit bandwidth ([sb_size_spec]).  [give_rounds] has the size of the block: every round
    hands out at least one byte ([rr_split_fair]).  [msg3_loop] has the available symbols.
    [match_resources] has 255 plus the RBGs, enough when the loop ends at all
    ([match_resources_ends], [match_resources_diverges]).

    Parameters, which stand for what is not in src/ or is left open by the language:
    [Platform] (Seconds and the text of a time), [Sqlite] (the row of a bare column next to
    MAX, the scan order), [RlAgent] (the answer over gRPC), [CppImpl] (the iteration of an
    unordered_map, llround out of range), [StdSort] (the order std::sort gives equal keys),
    [CppStableSort] (the comparisons std::stable_sort makes first), [CppReduce] (the grouping
    of std::reduce), [LibM] (log, log2 and pow), the block error rate of an [NrErrorModel], and
    [QueryTriggers] (a user's class).  The uplink allocation has the transport block size as
    its parameter [NrAmc]; that it fits 32 bits is [NrAmcLaws].  The uplink slot also has the
    order of the unordered maps ([CppHash], a permutation by [CppHashLaws]), std::shuffle
    ([CppShuffle], likewise) and the policy that shares out the symbols ([SymbolPolicy], whose
    laws the round-robin policy is shown to satisfy).  A random variable is a stream of
    values and a counter.

    ** Not modelled

    Helpers, tests and examples (configuration); the gRPC code and the Python agents (the
    answer is a parameter); logging; destructors other than DoDispose; the text of reports.
    Of the NR module the slots of both directions with their allocation, DCIs, HARQ processes
    and logical channels, the CQI reports and the choice of the MCS are modelled: not the
    proportional-fair and the other policies, the fronthaul control, the MIMO feedback or the
    error models other than the default.  The reshaping of retransmissions is modelled on its
    own: the slots have ConsolidateHarqRetx false, its default.  The theorems on the downlink slot are for at most three
    downlink channels per UE, whose buffer reports are empty or of at least 3 bytes: with more
    or smaller ones the assertion on the share of a channel can fail (see DoScheduleDlData).
    In the uplink an RBG index is a Z, where the code has uint16_t; the bitmask bounds it.
    The other ns-3 modules are stock code. *)
From Stdlib Require Import ZArith Lia Sorting.Sorted.
From stdpp Require Import base list gmap strings.
Open Scope Z_scope.

(** * Machine integers *)

(** An unsigned [w]-bit C++ integer is a [Z]; storing a value reduces it modulo 2^w. *)
Definition wrap (w x : Z) : Z := x mod 2 ^ w.

(** Conversion to a signed [w]-bit integer (two's complement). *)
Definition swrap (w x : Z) : Z :=
  let y := x mod 2 ^ w in if y <? 2 ^ (w - 1) then y else y - 2 ^ w.

Abbreviation u8 := (wrap 8).
Abbreviation u16 := (wrap 16).
Abbreviation u32 := (wrap 32).
Abbreviation u64 := (wrap 64).
Abbreviation i32 := (swrap 32).
Abbreviation i64 := (swrap 64).

(** A value that fits an unsigned [w]-bit integer. *)
Definition fits (w x : Z) : Prop := 0 <= x < 2 ^ w.

#[export] Instance fits_dec w x : Decision (fits w x).
Proof. unfold fits. apply _. Defined.

(** * Results: a computation that may hit NS_ABORT / NS_ASSERT *)

Inductive res (A : Type) : Type :=
| Ok (a : A)
| Abort (msg : string).
Arguments Ok {A} a.
Arguments Abort {A} msg.

Definition res_bind {A B : Type} (m : res A) (f : A -> res B) : res B :=
  match m with
  | Ok a => f a
  | Abort msg => Abort msg
  end.

(** NS_ABORT_MSG_IF (c, msg) and NS_ASSERT_MSG (!c, msg). *)
Definition abort_if (c : bool) (msg : string) : res unit :=
  if c then Abort msg else Ok tt.

Fixpoint res_fold {A S : Type} (f : A -> S -> res S) (l : list A) (s : S) : res S :=
  match l with
  | [] => Ok s
  | a :: l => res_bind (f a s) (res_fold f l)
  end.

(** [v.at (i)] of a vector; an index out of range ends the program, thrown or undefined. *)
Definition vec_at {A : Type} (v : list A) (i : Z) : res A :=
  match v !! Z.to_nat i with Some a => Ok a | None => Abort "std::out_of_range" end.

Fixpoint res_map {A B : Type} (f : A -> res B) (l : list A) : res (list B) :=
  match l with
  | [] => Ok []
  | a :: l => res_bind (f a) (fun b => res_bind (res_map f l) (fun bs => Ok (b :: bs)))
  end.

Definition is_ok {A : Type} (m : res A) : bool :=
  match m with Ok _ => true | Abort _ => false end.

Declare Scope res_scope.
Delimit Scope res_scope with res.
Notation "'let*' p ':=' c1 'in' c2" := (res_bind c1 (fun p => c2))
  (at level 10, p pattern, c1 at level 100, c2 at level 200) : res_scope.
Open Scope res_scope.

(** * Sorting *)

(** std::sort with a comparison of integer keys; the order it gives equal keys is left open. *)
Class StdSort : Type := {
  sort_by_key : forall {A : Type}, (A -> Z) -> list A -> list A
}.

Class StdSortLaws `{StdSort} : Prop := {
  sort_perm : forall {A} (key : A -> Z) l, sort_by_key key l ≡ₚ l;
  sort_sorted : forall {A} (key : A -> Z) l,
    StronglySorted (fun a b => key a <= key b) (sort_by_key key l)
}.

(** * Unordered containers *)

(** The order in which an unordered_map or unordered_set iterates over its elements: some
    permutation of them. *)
Class CppHash : Type := { hashed : forall {A : Type}, list A -> list A }.

Class CppHashLaws `{CppHash} : Prop := { hashed_perm : forall {A : Type} (l : list A), hashed l ≡ₚ l }.

(** * Automation *)

Create HintDb oran.
Create Rewrite HintDb oran_rw.

(** Case analysis on the scrutinee of a match in the goal or in a hypothesis. *)
Ltac break_match :=
  match goal with
  | |- context [match ?e with _ => _ end] =>
      lazymatch e with context [match _ with _ => _ end] => fail | _ => destruct e eqn:? end
  | H : context [match ?e with _ => _ end] |- _ =>
      lazymatch e with context [match _ with _ => _ end] => fail | _ => destruct e eqn:? end
  end.

(** Inverts hypotheses that equate results. *)
Ltac inv_res :=
  repeat match goal with
  | H : Ok _ = Ok _ |- _ => injection H as H; subst
  | H : Ok _ = Abort _ |- _ => discriminate H
  | H : Abort _ = Ok _ |- _ => discriminate H
  | H : abort_if ?c _ = Ok _ |- _ => unfold abort_if in H; destruct c eqn:?
  | H : res_bind ?m _ = Ok _ |- _ =>
      let E := fresh "E" in destruct m eqn:E; cbn [res_bind] in H
  | H : res_bind ?m _ = Abort _ |- _ =>
      let E := fresh "E" in destruct m eqn:E; cbn [res_bind] in H
  end.

(** Turns boolean comparisons into propositions and calls [lia]. *)
Ltac zb :=
  repeat match goal with
  | H : (_ && _) = true |- _ => apply andb_true_iff in H as [? ?]
  | H : (_ || _) = false |- _ => apply orb_false_iff in H as [? ?]
  | H : (_ <? _) = true |- _ => apply Z.ltb_lt in H
  | H : (_ <? _) = false |- _ => apply Z.ltb_ge in H
  | H : (_ <=? _) = true |- _ => apply Z.leb_le in H
  | H : (_ <=? _) = false |- _ => apply Z.leb_gt in H
  | H : (_ =? _) = true |- _ => apply Z.eqb_eq in H
  | H : (_ =? _) = false |- _ => apply Z.eqb_neq in H
  end.

Ltac zlia := zb; lia.

(** * Lemmas on machine integers *)

Lemma wrap_fits (w x : Z) : 0 <= w -> fits w (wrap w x).
Proof. intros Hw. unfold fits, wrap. apply Z.mod_pos_bound. lia. Qed.

Lemma wrap_small (w x : Z) : fits w x -> wrap w x = x.
Proof. unfold fits, wrap. intros H. by apply Z.mod_small. Qed.

Lemma swrap_small (w x : Z) : 0 < w -> - 2 ^ (w - 1) <= x < 2 ^ (w - 1) -> swrap w x = x.
Proof.
  intros Hw Hx. unfold swrap.
  assert (E : 2 ^ w = 2 * 2 ^ (w - 1)) by (rewrite <- Z.pow_succ_r by lia; f_equal; lia).
  destruct (Z_le_gt_dec 0 x) as [Hp|Hn].
  - rewrite (Z.mod_small x) by lia. destruct (Z.ltb_spec x (2 ^ (w - 1))); lia.
  - assert (Em : x mod 2 ^ w = x + 2 ^ w).
    { symmetry. apply Z.mod_unique with (q := -1); lia. }
    rewrite Em. destruct (Z.ltb_spec (x + 2 ^ w) (2 ^ (w - 1))); lia.
Qed.

(** Writing an unsigned value through a signed column of the same width and reading it back. *)
Lemma wrap_swrap (w x : Z) : 0 < w -> wrap w (swrap w x) = wrap w x.
Proof.
  intros Hw. unfold wrap, swrap. destruct (_ <? _).
  - by rewrite Z.mod_mod by lia.
  - pose proof (Z.mod_pos_bound x (2 ^ w) ltac:(lia)).
    symmetry. apply Z.mod_unique with (q := -1); lia.
Qed.

Lemma wrap_wrap_le (w v x : Z) : 0 <= w <= v -> wrap w (wrap v x) = wrap w x.
Proof.
  intros Hw. unfold wrap. apply Z.mod_mod_divide.
  exists (2 ^ (v - w)). rewrite <- Z.pow_add_r by lia. f_equal. lia.
Qed.

#[export] Hint Resolve wrap_fits wrap_small : oran.

(** * Lemmas on results *)

Lemma res_bind_assoc {A B C : Type} (m : res A) (f : A -> res B) (g : B -> res C) :
  res_bind (res_bind m f) g = res_bind m (fun a => res_bind (f a) g).
Proof. by destruct m. Qed.

Lemma res_fold_app {A S : Type} (f : A -> S -> res S) (l1 l2 : list A) (s : S) :
  res_fold f (l1 ++ l2) s = res_bind (res_fold f l1 s) (res_fold f l2).
Proof.
  revert s. induction l1 as [|a l1 IH]; intros s; cbn; [done|].
  destruct (f a s); cbn; [apply IH | done].
Qed.

(** An invariant of every step of a loop is an invariant of the loop. *)
Lemma res_fold_inv {A S : Type} (P : S -> Prop) (f : A -> S -> res S) (l : list A) (s s' : S) :
  (forall a s s', a ∈ l -> P s -> f a s = Ok s' -> P s') ->
  P s -> res_fold f l s = Ok s' -> P s'.
Proof.
  revert s. induction l as [|a l IH]; intros s Hf Hs E; cbn in E; inv_res; [done|].
  apply (IH _) in E; [done | | ].
  - intros b t t' Hb. apply Hf. by right.
  - eapply Hf; [by left | exact Hs | done].
Qed.

(** A loop whose steps succeed and keep an invariant succeeds and keeps it. *)
Lemma res_fold_keeps {A S : Type} (P : S -> Prop) (f : A -> S -> res S) (l : list A) (s : S) :
  P s -> (forall a s, a ∈ l -> P s -> exists s', f a s = Ok s' /\ P s') -> exists s', res_fold f l s = Ok s' /\ P s'.
Proof.
  intros Ps F. revert s Ps. induction l as [|a l IH]; intros s Ps; cbn [res_fold]; [by exists s|].
  destruct (F a s ltac:(by left) Ps) as (s1 & -> & P1). cbn [res_bind]. apply IH; [|done]. intros b t Hb. apply F. by right.
Qed.

Lemma vec_at_ok {A : Type} (v : list A) (i : Z) :
  0 <= i < Z.of_nat (length v) -> exists a, vec_at v i = Ok a /\ a ∈ v.
Proof.
  intros Hi. unfold vec_at. destruct (lookup_lt_is_Some_2 v (Z.to_nat i)) as [a Ha]; [lia|].
  rewrite Ha. exists a. split; [done|]. by eapply list_elem_of_lookup_2.
Qed.

Lemma res_map_ok {A B : Type} (f : A -> res B) (P : B -> Prop) (l : list A) :
  (forall a, a ∈ l -> exists b, f a = Ok b /\ P b) ->
  exists bs, res_map f l = Ok bs /\ length bs = length l /\ Forall P bs.
Proof.
  induction l as [|a l IH]; intros F; cbn [res_map]; [by exists []|].
  destruct (F a ltac:(by left)) as (b & -> & Pb). cbn [res_bind].
  destruct IH as (bs & -> & L & Ps); [intros c Hc; apply F; by right|]. cbn [res_bind].
  exists (b :: bs). split; [done|]. split; [cbn; by rewrite L|by constructor].
Qed.

(** * Lemmas on lists *)

Lemma filter_all {A : Type} (P : A -> Prop) `{forall x, Decision (P x)} (l : list A) :
  Forall P l -> filter P l = l.
Proof.
  induction 1 as [|x l Hx Hl IH]; [done|]. by rewrite filter_cons_True, IH.
Qed.

Lemma filter_none {A : Type} (P : A -> Prop) `{forall x, Decision (P x)} (l : list A) :
  Forall (fun x => ~ P x) l -> filter P l = [].
Proof.
  induction 1 as [|x l Hx Hl IH]; [done|]. by rewrite filter_cons_False, IH.
Qed.
