(* ===== verification/OrdMap.v ===== *)
(** std::map: a map kept sorted by its key order, with the C++ iteration order.

    The source iterates over std::map containers (logic modules, query triggers,
    collected commands, samples, the event queue), so the order of the keys is
    part of the behaviour.  A map is a list of bindings; [smap_wf] says that the
    keys are strictly increasing, which every operation preserves. *)
From Stdlib Require Import ZArith Lia Ascii.
From stdpp Require Import base list strings sets.
From S2P Require Import Prelude.
Open Scope Z_scope.

(** The strict weak order std::less gives to a key type. *)
Class KeyOrder (K : Type) : Type := key_ltb : K -> K -> bool.

Class KeyOrderLaws (K : Type) `{KeyOrder K} : Prop := {
  key_irrefl : forall a : K, key_ltb a a = false;
  key_trans : forall a b c : K, key_ltb a b = true -> key_ltb b c = true -> key_ltb a c = true;
  key_total : forall a b : K, key_ltb a b = false -> key_ltb b a = false -> a = b
}.

(** std::less on integers, on strings (by unsigned character), on pairs and on bool. *)
#[export] Instance Z_order : KeyOrder Z := Z.ltb.
#[export] Instance bool_order : KeyOrder bool := fun a b => negb a && b.

Fixpoint string_ltb (a b : string) : bool :=
  match a, b with
  | _, EmptyString => false
  | EmptyString, String _ _ => true
  | String x a, String y b =>
      (N_of_ascii x <? N_of_ascii y)%N || ((N_of_ascii x =? N_of_ascii y)%N && string_ltb a b)
  end.

#[export] Instance string_order : KeyOrder string := string_ltb.

#[export] Instance prod_order {A B : Type} `{KeyOrder A} `{KeyOrder B} : KeyOrder (A * B) :=
  fun p q => key_ltb p.1 q.1 || (negb (key_ltb q.1 p.1) && key_ltb p.2 q.2).

Section smap.
Context {K V : Type} `{KeyOrder K} `{EqDecision K}.

(** find *)
Fixpoint smap_lookup (k : K) (m : list (K * V)) : option V :=
  match m with
  | [] => None
  | (k', v) :: m => if decide (k = k') then Some v else smap_lookup k m
  end.

(** operator[] followed by an assignment *)
Fixpoint smap_insert (k : K) (v : V) (m : list (K * V)) : list (K * V) :=
  match m with
  | [] => [(k, v)]
  | (k', v') :: m' =>
      if decide (k = k') then (k, v) :: m'
      else if key_ltb k k' then (k, v) :: m
      else (k', v') :: smap_insert k v m'
  end.

(** erase by key *)
Definition smap_erase (k : K) (m : list (K * V)) : list (K * V) :=
  filter (fun p => p.1 <> k) m.

(** operator[] on a possibly absent key: the default value is inserted first *)
Definition smap_update (k : K) (d : V) (f : V -> V) (m : list (K * V)) : list (K * V) :=
  smap_insert k (f (default d (smap_lookup k m))) m.

Fixpoint smap_wf (m : list (K * V)) : Prop :=
  match m with
  | [] => True
  | (k, _) :: m => Forall (fun p => key_ltb k p.1 = true) m /\ smap_wf m
  end.

Lemma smap_lookup_insert_eq (k : K) (v : V) (m : list (K * V)) :
  smap_lookup k (smap_insert k v m) = Some v.
Proof.
  induction m as [|[k' v'] m IH]; cbn.
  - by rewrite decide_True.
  - destruct (decide (k = k')); cbn; [by rewrite decide_True|].
    destruct (key_ltb k k'); cbn; [by rewrite decide_True|]. by rewrite decide_False.
Qed.

Lemma smap_lookup_insert_ne (k k' : K) (v : V) (m : list (K * V)) :
  k <> k' -> smap_lookup k' (smap_insert k v m) = smap_lookup k' m.
Proof.
  intros Hne. induction m as [|[a b] m IH]; cbn.
  - by rewrite decide_False by congruence.
  - destruct (decide (k = a)); cbn.
    + subst. by rewrite !decide_False by congruence.
    + destruct (key_ltb k a); cbn; [by rewrite (decide_False (P := k' = k)) by congruence|].
      by rewrite IH.
Qed.

Lemma smap_lookup_erase_eq (k : K) (m : list (K * V)) : smap_lookup k (smap_erase k m) = None.
Proof.
  unfold smap_erase. induction m as [|[a b] m IH]; [done|].
  rewrite filter_cons. cbn. case_decide; cbn; [|done]. by rewrite decide_False by congruence.
Qed.

Lemma smap_lookup_erase_ne (k k' : K) (m : list (K * V)) :
  k <> k' -> smap_lookup k' (smap_erase k m) = smap_lookup k' m.
Proof.
  unfold smap_erase. intros Hne. induction m as [|[a b] m IH]; [done|].
  rewrite filter_cons. cbn. case_decide as Ha; cbn; [by rewrite IH|].
  subst a. by rewrite IH, decide_False by congruence.
Qed.

Lemma smap_lookup_Some_elem (k : K) (v : V) (m : list (K * V)) :
  smap_lookup k m = Some v -> (k, v) ∈ m.
Proof.
  induction m as [|[a b] m IH]; cbn; [done|]. case_decide; intros E.
  - simplify_eq. by left.
  - right. auto.
Qed.

Lemma smap_lookup_None (k : K) (m : list (K * V)) :
  smap_lookup k m = None <-> k ∉ m.*1.
Proof.
  induction m as [|[a b] m IH]; cbn; [set_solver|].
  rewrite not_elem_of_cons. case_decide; subst; [split; [done|tauto]|tauto].
Qed.

Lemma smap_insert_length_fresh (k : K) (v : V) (m : list (K * V)) :
  smap_lookup k m = None -> length (smap_insert k v m) = S (length m).
Proof.
  induction m as [|[a b] m IH]; cbn; [done|]. case_decide; [done|]. intros E.
  destruct (key_ltb k a); cbn; [done|]. by rewrite IH.
Qed.

Lemma smap_insert_length_old (k : K) (v w : V) (m : list (K * V)) :
  smap_lookup k m = Some w -> smap_wf m -> KeyOrderLaws K ->
  length (smap_insert k v m) = length m.
Proof.
  intros E W L. induction m as [|[a b] m IH]; cbn in *; [done|].
  destruct W as [W1 W2]. case_decide; [done|].
  destruct (key_ltb k a) eqn:Hlt; cbn.
  - exfalso. apply smap_lookup_Some_elem in E. rewrite Forall_forall in W1.
    specialize (W1 _ E). cbn in W1. pose proof (key_trans _ _ _ Hlt W1) as Hkk.
    by rewrite key_irrefl in Hkk.
  - by rewrite IH.
Qed.

Lemma smap_insert_elem (k : K) (v : V) (m : list (K * V)) p :
  p ∈ smap_insert k v m -> p = (k, v) \/ p ∈ m.
Proof.
  induction m as [|[a b] m IH]; cbn.
  - rewrite list_elem_of_singleton. tauto.
  - case_decide; [rewrite !elem_of_cons; tauto|].
    destruct (key_ltb k a); rewrite !elem_of_cons; tauto.
Qed.

Lemma smap_wf_insert (k : K) (v : V) (m : list (K * V)) :
  KeyOrderLaws K -> smap_wf m -> smap_wf (smap_insert k v m).
Proof.
  intros L. induction m as [|[a b] m IH]; cbn; [done|]. intros [W1 W2].
  case_decide as Hd; [by subst|].
  destruct (key_ltb k a) eqn:Hlt; cbn.
  - split_and!; [|done|done]. constructor; [done|].
    eapply Forall_impl; [exact W1|]. cbn. intros x. by apply key_trans.
  - split; [|auto]. apply Forall_forall. intros p Hp.
    apply smap_insert_elem in Hp as [->|Hp]; cbn.
    + destruct (key_ltb a k) eqn:Hlt'; [done|]. exfalso. by apply Hd, key_total.
    + by rewrite Forall_forall in W1; apply W1.
Qed.

Lemma smap_wf_erase (k : K) (m : list (K * V)) : smap_wf m -> smap_wf (smap_erase k m).
Proof.
  unfold smap_erase. induction m as [|[a b] m IH]; [done|]. intros [W1 W2].
  rewrite filter_cons. destruct (decide _); [|auto]. split; [|auto].
  apply Forall_forall. intros p [_ Hp]%list_elem_of_filter. rewrite Forall_forall in W1.
  by apply W1.
Qed.

Lemma smap_wf_NoDup (m : list (K * V)) : KeyOrderLaws K -> smap_wf m -> NoDup m.*1.
Proof.
  intros L. induction m as [|[a b] m IH]; cbn; [constructor|]. intros [W1 W2].
  constructor; [|auto]. intros [[a' b'] [-> Hp]]%list_elem_of_fmap.
  rewrite Forall_forall in W1. specialize (W1 _ Hp). cbn in W1. by rewrite key_irrefl in W1.
Qed.

Lemma smap_elem_lookup (k : K) (v : V) (m : list (K * V)) :
  NoDup m.*1 -> (k, v) ∈ m -> smap_lookup k m = Some v.
Proof.
  induction m as [|[a b] m IH]; cbn; [set_solver|]. rewrite NoDup_cons.
  intros [N1 N2] [E|E]%elem_of_cons.
  - simplify_eq. by rewrite decide_True.
  - rewrite decide_False; [auto|]. intros ->. apply N1. apply list_elem_of_fmap. by exists (a, v).
Qed.

Lemma smap_insert_insert (k : K) (v w : V) (m : list (K * V)) :
  smap_insert k v (smap_insert k w m) = smap_insert k v m.
Proof.
  induction m as [|[a b] m IH]; cbn; [by rewrite decide_True|].
  destruct (decide (k = a)) as [->|N]; cbn; [by rewrite decide_True|].
  destruct (key_ltb k a) eqn:L; cbn; [by rewrite decide_True|].
  by rewrite decide_False, L, IH.
Qed.

Lemma smap_insert_keys (k k' : K) (v : V) (m : list (K * V)) :
  k' ∈ (smap_insert k v m).*1 <-> k' = k \/ k' ∈ m.*1.
Proof.
  induction m as [|[a b] m IH]; cbn; [by rewrite list_elem_of_singleton, elem_of_nil; tauto|].
  destruct (decide (k = a)) as [->|N]; cbn; [rewrite !elem_of_cons; tauto|].
  destruct (key_ltb k a); cbn; rewrite !elem_of_cons, ?IH; tauto.
Qed.

End smap.

#[export] Hint Rewrite @smap_lookup_insert_eq @smap_lookup_erase_eq : oran_rw.
#[export] Hint Resolve smap_wf_insert smap_wf_erase : oran.

#[export] Instance Z_order_laws : KeyOrderLaws Z.
Proof. split; unfold key_ltb, Z_order; intros; zlia. Qed.

#[export] Instance bool_order_laws : KeyOrderLaws bool.
Proof. split; unfold key_ltb, bool_order; [intros []|intros [] [] []|intros [] []]; done. Qed.

Lemma string_ltb_cases x a y b :
  string_ltb (String x a) (String y b) = true <->
  (N_of_ascii x < N_of_ascii y)%N \/ x = y /\ string_ltb a b = true.
Proof.
  cbn. rewrite orb_true_iff, andb_true_iff, N.ltb_lt, N.eqb_eq. split.
  - intros [?|[E ?]]; [by left|]. right. split; [|done].
    by rewrite <- (ascii_N_embedding x), <- (ascii_N_embedding y), E.
  - intros [?|[-> ?]]; [by left|by right].
Qed.

#[export] Instance string_order_laws : KeyOrderLaws string.
Proof.
  split; unfold key_ltb, string_order.
  - induction a as [|x a IH]; [done|]. cbn. by rewrite IH, N.ltb_irrefl, N.eqb_refl.
  - induction a as [|x a IH]; intros [|y b] [|z c]; try done.
    rewrite !string_ltb_cases. intros [?|[-> ?]] [?|[-> ?]]; [left; lia|by left|by left|].
    right. eauto.
  - induction a as [|x a IH]; intros [|y b]; try done. intros E1 E2.
    apply not_true_iff_false in E1, E2. rewrite string_ltb_cases in E1, E2.
    assert (x = y) as ->.
    { rewrite <- (ascii_N_embedding x), <- (ascii_N_embedding y). f_equal.
      destruct (N.lt_trichotomy (N_of_ascii x) (N_of_ascii y)) as [?|[?|?]]; [|done|];
        exfalso; [apply E1|apply E2]; by left. }
    f_equal. apply IH; apply not_true_iff_false; [contradict E1|contradict E2]; by right.
Qed.

#[export] Instance prod_order_laws {A B : Type} `{KeyOrderLaws A} `{KeyOrderLaws B} :
  KeyOrderLaws (A * B).
Proof.
  split.
  - intros [a b]. unfold key_ltb, prod_order. cbn. by rewrite !key_irrefl.
  - intros [a1 b1] [a2 b2] [a3 b3]. unfold key_ltb at 1 2 3, prod_order. cbn.
    rewrite !orb_true_iff, !andb_true_iff, !negb_true_iff.
    intros [L1|[N1 L1]] [L2|[N2 L2]].
    + left. eauto using key_trans.
    + left. destruct (key_ltb a2 a3) eqn:E; [eauto using key_trans|].
      by rewrite <- (key_total _ _ E N2).
    + left. destruct (key_ltb a1 a2) eqn:E; [eauto using key_trans|].
      by rewrite (key_total _ _ E N1).
    + destruct (key_ltb a1 a2) eqn:E1; [|destruct (key_ltb a2 a3) eqn:E2].
      * left. destruct (key_ltb a2 a3) eqn:E; [eauto using key_trans|].
        by rewrite <- (key_total _ _ E N2).
      * left. by rewrite (key_total _ _ E1 N1).
      * right. rewrite (key_total _ _ E1 N1), (key_total _ _ E2 N2).
        split; [apply key_irrefl|eauto using key_trans].
  - intros [a1 b1] [a2 b2]. unfold key_ltb at 1 2, prod_order. cbn.
    rewrite !orb_false_iff. intros [L1 N1] [L2 N2].
    pose proof (key_total _ _ L1 L2) as ->. rewrite key_irrefl in *. cbn in *.
    by rewrite (key_total _ _ N1 N2).
Qed.
