(* ===== verification/EventQueue.v ===== *)
(** The event queues of the simulator kernel: src/core/model/scheduler.h and the
    list-, map- and heap-scheduler implementations.

    [Event] and [EventKey] are the source's structs.  The class [EventQueue] is the
    pure virtual interface ns3::Scheduler; [EventQueueLaws] is what it promises: a
    queue represents a list of events sorted by time stamp and then by uid. *)
From Stdlib Require Import ZArith Lia Sorting.Sorted.
From stdpp Require Import base list strings sets sorting.
From S2P Require Import Prelude OrdMap.
Open Scope Z_scope.

(** struct EventKey *)
Record EventKey := mkKey { m_ts : Z; m_uid : Z; m_context : Z }.

#[export] Instance EventKey_eq_dec : EqDecision EventKey.
Proof. solve_decision. Defined.

(** struct Event: [impl] is the EventImpl pointer. *)
Record Event := mkEvent { impl : nat; key : EventKey }.

#[export] Instance Event_eq_dec : EqDecision Event.
Proof. solve_decision. Defined.

(** operator< (EventKey, EventKey) and operator< (Event, Event) *)
Definition key_lt (a b : EventKey) : bool :=
  (a.(m_ts) <? b.(m_ts)) || ((a.(m_ts) =? b.(m_ts)) && (a.(m_uid) <? b.(m_uid))).

Definition ev_lt (a b : Event) : bool := key_lt a.(key) b.(key).

(** ns3::Scheduler *)
Class EventQueue (Q : Type) : Type := {
  q_empty : Q;
  Insert : Event -> Q -> res Q;
  IsEmpty : Q -> bool;
  PeekNext : Q -> res Event;
  RemoveNext : Q -> res (Event * Q);
  Remove : Event -> Q -> res Q
}.

(** ** ListScheduler *)
Module ListScheduler.

Fixpoint Insert (ev : Event) (m_events : list Event) : list Event :=
  match m_events with
  | [] => [ev]
  | i :: rest => if key_lt ev.(key) i.(key) then ev :: i :: rest else i :: Insert ev rest
  end.

Definition IsEmpty (m_events : list Event) : bool :=
  match m_events with [] => true | _ => false end.

Definition PeekNext (m_events : list Event) : res Event :=
  match m_events with [] => Abort "front() of an empty list" | e :: _ => Ok e end.

Definition RemoveNext (m_events : list Event) : res (Event * list Event) :=
  match m_events with [] => Abort "front() of an empty list" | e :: l => Ok (e, l) end.

Fixpoint Remove (ev : Event) (m_events : list Event) : res (list Event) :=
  match m_events with
  | [] => Abort "NS_ASSERT(false)"
  | i :: rest =>
      if i.(key).(m_uid) =? ev.(key).(m_uid)
      then let* _ := abort_if (negb (bool_decide (ev.(impl) = i.(impl)))) "NS_ASSERT(ev.impl == i->impl)" in
           Ok rest
      else let* rest := Remove ev rest in Ok (i :: rest)
  end.

End ListScheduler.

(** ** MapScheduler: std::map ordered by EventKey::operator<, which ignores the context *)
Module MapScheduler.

Definition EventMap : Type := list ((Z * Z) * (EventKey * nat)).

Definition map_key (k : EventKey) : Z * Z := (k.(m_ts), k.(m_uid)).

Definition Insert (ev : Event) (m_list : EventMap) : res EventMap :=
  match smap_lookup (map_key ev.(key)) m_list with
  | Some _ => Abort "NS_ASSERT(result.second)"
  | None => Ok (smap_insert (map_key ev.(key)) (ev.(key), ev.(impl)) m_list)
  end.

Definition IsEmpty (m_list : EventMap) : bool :=
  match m_list with [] => true | _ => false end.

Definition PeekNext (m_list : EventMap) : res Event :=
  match m_list with
  | [] => Abort "NS_ASSERT(i != m_list.end())"
  | (_, (k, p)) :: _ => Ok (mkEvent p k)
  end.

Definition RemoveNext (m_list : EventMap) : res (Event * EventMap) :=
  match m_list with
  | [] => Abort "NS_ASSERT(i != m_list.end())"
  | (_, (k, p)) :: rest => Ok (mkEvent p k, rest)
  end.

Definition Remove (ev : Event) (m_list : EventMap) : res EventMap :=
  match smap_lookup (map_key ev.(key)) m_list with
  | None => Abort "dereference of end()"
  | Some (_, p) =>
      let* _ := abort_if (negb (bool_decide (p = ev.(impl)))) "NS_ASSERT(i->second == ev.impl)" in
      Ok (smap_erase (map_key ev.(key)) m_list)
  end.

End MapScheduler.

(** ** HeapScheduler: a binary heap in an array whose slot 0 is unused *)
Module HeapScheduler.

Definition empty_event : Event := mkEvent 0 (mkKey 0 0 0).
Definition HeapScheduler : list Event := [empty_event].

Definition Parent (id : nat) : nat := (id / 2)%nat.
Definition LeftChild (id : nat) : nat := 2 * id.
Definition RightChild (id : nat) : nat := 2 * id + 1.
Definition Root : nat := 1.
Definition IsRoot (id : nat) : bool := bool_decide (id = Root).
Definition Last (m_heap : list Event) : nat := length m_heap - 1.
Definition IsBottom (m_heap : list Event) (id : nat) : bool := bool_decide (length m_heap <= id)%nat.

Definition Exch (a b : nat) (m_heap : list Event) : res (list Event) :=
  match m_heap !! a, m_heap !! b with
  | Some x, Some y => Ok (<[b := x]> (<[a := y]> m_heap))
  | _, _ => Abort "NS_ASSERT(b < m_heap.size() && a < m_heap.size())"
  end.

Definition IsLessStrictly (a b : nat) (m_heap : list Event) : res bool :=
  match m_heap !! a, m_heap !! b with
  | Some x, Some y => Ok (ev_lt x y)
  | _, _ => Abort "m_heap[] out of range"
  end.

Definition Smallest (a b : nat) (m_heap : list Event) : res nat :=
  let* c := IsLessStrictly a b m_heap in Ok (if c then a else b).

Definition IsEmpty (m_heap : list Event) : bool := bool_decide (length m_heap = 1%nat).

Fixpoint BottomUp_loop (fuel index : nat) (m_heap : list Event) : res (list Event) :=
  match fuel with
  | O => Abort "out of fuel"
  | S fuel =>
      if IsRoot index then Ok m_heap else
      let* c := IsLessStrictly index (Parent index) m_heap in
      if c then
        let* m_heap := Exch index (Parent index) m_heap in
        BottomUp_loop fuel (Parent index) m_heap
      else Ok m_heap
  end.

Definition BottomUp (m_heap : list Event) : res (list Event) :=
  BottomUp_loop (length m_heap) (Last m_heap) m_heap.

Fixpoint TopDown_loop (fuel index : nat) (m_heap : list Event) : res (list Event) :=
  match fuel with
  | O => Abort "out of fuel"
  | S fuel =>
      if negb (IsBottom m_heap (RightChild index)) then
        let* tmp := Smallest (LeftChild index) (RightChild index) m_heap in
        let* c := IsLessStrictly index tmp m_heap in
        if c then Ok m_heap else
        let* m_heap := Exch index tmp m_heap in
        TopDown_loop fuel tmp m_heap
      else if IsBottom m_heap index then Ok m_heap
      else if IsBottom m_heap (LeftChild index) then Ok m_heap
      else
        let* c := IsLessStrictly index (LeftChild index) m_heap in
        if c then Ok m_heap else Exch index (LeftChild index) m_heap
  end.

Definition TopDown (start : nat) (m_heap : list Event) : res (list Event) :=
  TopDown_loop (S (length m_heap)) start m_heap.

Definition pop_back (m_heap : list Event) : list Event := take (length m_heap - 1) m_heap.

Definition Insert (ev : Event) (m_heap : list Event) : res (list Event) :=
  BottomUp (m_heap ++ [ev]).

Definition PeekNext (m_heap : list Event) : res Event :=
  match m_heap !! Root with
  | Some e => Ok e
  | None => Abort "m_heap[Root()] out of range"
  end.

Definition RemoveNext (m_heap : list Event) : res (Event * list Event) :=
  let* next := PeekNext m_heap in
  let* m_heap := Exch Root (Last m_heap) m_heap in
  let* m_heap := TopDown Root (pop_back m_heap) in
  Ok (next, m_heap).

(** the search loop of Remove, from index [i] on with [n] slots left *)
Fixpoint find_uid (uid : Z) (i n : nat) (m_heap : list Event) : option nat :=
  match n with
  | O => None
  | S n =>
      match m_heap !! i with
      | Some e => if e.(key).(m_uid) =? uid then Some i else find_uid uid (S i) n m_heap
      | None => None
      end
  end.

Definition Remove (ev : Event) (m_heap : list Event) : res (list Event) :=
  match find_uid ev.(key).(m_uid) 1 (length m_heap - 1) m_heap with
  | None => Abort "NS_ASSERT(false)"
  | Some i =>
      let* _ := abort_if (negb (bool_decide (impl <$> m_heap !! i = Some ev.(impl))))
                  "NS_ASSERT(m_heap[i].impl == ev.impl)" in
      let* m_heap := Exch i (Last m_heap) m_heap in
      TopDown i (pop_back m_heap)
  end.

(** No child is strictly before its parent. *)
Definition heap_ok (m_heap : list Event) : Prop :=
  forall i x y, (2 <= i)%nat -> m_heap !! i = Some x -> m_heap !! Parent i = Some y -> ev_lt x y = false.

End HeapScheduler.

#[export] Instance ListScheduler_queue : EventQueue (list Event) := {
  q_empty := [];
  Insert := fun ev q => Ok (ListScheduler.Insert ev q);
  IsEmpty := ListScheduler.IsEmpty;
  PeekNext := ListScheduler.PeekNext;
  RemoveNext := ListScheduler.RemoveNext;
  Remove := ListScheduler.Remove
}.

#[export] Instance MapScheduler_queue : EventQueue MapScheduler.EventMap := {
  q_empty := [];
  Insert := MapScheduler.Insert;
  IsEmpty := MapScheduler.IsEmpty;
  PeekNext := MapScheduler.PeekNext;
  RemoveNext := MapScheduler.RemoveNext;
  Remove := MapScheduler.Remove
}.

(** The heap scheduler is a list of events too, so its operations get a type of their own. *)
Record Heap := mkHeap { m_heap : list Event }.

#[export] Instance HeapScheduler_queue : EventQueue Heap := {
  q_empty := mkHeap HeapScheduler.HeapScheduler;
  Insert := fun ev q => let* h := HeapScheduler.Insert ev q.(m_heap) in Ok (mkHeap h);
  IsEmpty := fun q => HeapScheduler.IsEmpty q.(m_heap);
  PeekNext := fun q => HeapScheduler.PeekNext q.(m_heap);
  RemoveNext := fun q => let* r := HeapScheduler.RemoveNext q.(m_heap) in Ok (r.1, mkHeap r.2);
  Remove := fun ev q => let* h := HeapScheduler.Remove ev q.(m_heap) in Ok (mkHeap h)
}.

(** ** The contract *)

(** The abstract state: events sorted by key, no two with the same uid. *)
Definition uids (l : list Event) : list Z := (fun e => e.(key).(m_uid)) <$> l.

Definition agenda (l : list Event) : Prop :=
  StronglySorted (fun a b => ev_lt a b = true) l /\ NoDup (uids l).

(** The abstract insertion: the events before the new one, the new one, the others. *)
Definition spec_insert (ev : Event) (l : list Event) : list Event :=
  filter (fun e => ev_lt e ev = true) l ++ ev :: filter (fun e => ev_lt e ev = false) l.

(** The abstract removal *)
Definition spec_remove (ev : Event) (l : list Event) : list Event :=
  filter (fun e => e.(key).(m_uid) <> ev.(key).(m_uid)) l.

(** [repr q t l]: the queue [q] holds the agenda [l], and the last event it gave out was not
    later than [t].  A client inserts events of new uids, not earlier than that one and of times
    that fit the clock. *)
Class EventQueueLaws (Q : Type) `{EventQueue Q} : Type := {
  repr : Q -> Z -> list Event -> Prop;
  repr_agenda : forall q t l, repr q t l -> agenda l;
  repr_empty : repr q_empty 0 [];
  repr_later : forall q t t' l, repr q t l -> t <= t' -> repr q t' l;
  Insert_spec : forall q t l ev, repr q t l -> ev.(key).(m_uid) ∉ uids l ->
    t <= ev.(key).(m_ts) < 2 ^ 63 -> 0 < ev.(key).(m_uid) < 2 ^ 32 ->
    exists q', Insert ev q = Ok q' /\ repr q' t (spec_insert ev l);
  IsEmpty_spec : forall q t l, repr q t l -> IsEmpty q = bool_decide (l = []);
  PeekNext_spec : forall q t e l, repr q t (e :: l) -> PeekNext q = Ok e;
  RemoveNext_spec : forall q t e l, repr q t (e :: l) ->
    exists q', RemoveNext q = Ok (e, q') /\ repr q' e.(key).(m_ts) l
}.

(** Removal from the middle is a separate promise. *)
Class EventQueueRemoveLaws (Q : Type) `{EventQueueLaws Q} : Prop := {
  Remove_spec : forall q t l ev, repr q t l -> ev ∈ l ->
    exists q', Remove ev q = Ok q' /\ repr q' t (spec_remove ev l)
}.

(** ** Key order *)

Lemma ev_lt_irrefl a : ev_lt a a = false.
Proof. unfold ev_lt, key_lt. by rewrite !Z.ltb_irrefl, andb_false_r. Qed.

Lemma ev_lt_spec a b :
  ev_lt a b = true <->
  a.(key).(m_ts) < b.(key).(m_ts) \/
  a.(key).(m_ts) = b.(key).(m_ts) /\ a.(key).(m_uid) < b.(key).(m_uid).
Proof. unfold ev_lt, key_lt. by rewrite orb_true_iff, andb_true_iff, !Z.ltb_lt, Z.eqb_eq. Qed.

Lemma ev_lt_false a b :
  ev_lt a b = false <->
  b.(key).(m_ts) < a.(key).(m_ts) \/
  a.(key).(m_ts) = b.(key).(m_ts) /\ b.(key).(m_uid) <= a.(key).(m_uid).
Proof. rewrite <- not_true_iff_false, ev_lt_spec. lia. Qed.

Lemma ev_lt_trans a b c : ev_lt a b = true -> ev_lt b c = true -> ev_lt a c = true.
Proof. rewrite !ev_lt_spec. lia. Qed.

Lemma ev_le_trans a b c : ev_lt b a = false -> ev_lt c b = false -> ev_lt c a = false.
Proof. rewrite !ev_lt_false. lia. Qed.

Lemma ev_lt_asym a b : ev_lt a b = true -> ev_lt b a = false.
Proof. rewrite ev_lt_spec, ev_lt_false. lia. Qed.

Lemma ev_lt_total a b : a.(key).(m_uid) <> b.(key).(m_uid) -> ev_lt a b = false -> ev_lt b a = true.
Proof. rewrite ev_lt_spec, ev_lt_false. lia. Qed.

#[export] Hint Resolve ev_lt_irrefl ev_lt_trans ev_lt_asym : oran.

(** ** Agendas *)

Lemma uids_elem e l : e ∈ l -> e.(key).(m_uid) ∈ uids l.
Proof. intros H. apply list_elem_of_fmap. by exists e. Qed.

Lemma agenda_cons e l : agenda (e :: l) -> Forall (fun a => ev_lt e a = true) l /\ agenda l.
Proof.
  intros [S N]. apply StronglySorted_inv in S as [S1 S2]. apply NoDup_cons in N as [_ N].
  by split; [|split].
Qed.

Lemma agenda_uid_inj l a b :
  agenda l -> a ∈ l -> b ∈ l -> a.(key).(m_uid) = b.(key).(m_uid) -> a = b.
Proof.
  intros [_ N] Ha Hb E. induction l as [|e l IH]; [set_solver|].
  apply NoDup_cons in N as [N1 N2].
  apply elem_of_cons in Ha as [->|Ha]; apply elem_of_cons in Hb as [->|Hb]; [done| | |auto].
  - exfalso. apply N1. cbn. rewrite E. by apply uids_elem.
  - exfalso. apply N1. cbn. rewrite <- E. by apply uids_elem.
Qed.

Lemma spec_insert_perm ev l : spec_insert ev l ≡ₚ ev :: l.
Proof.
  unfold spec_insert. rewrite <- Permutation_middle. f_equiv.
  induction l as [|e l IH]; [done|]. rewrite !filter_cons.
  destruct (ev_lt e ev); repeat (case_decide; try done); cbn.
  - by rewrite IH.
  - by rewrite <- Permutation_middle, IH.
Qed.

Lemma StronglySorted_filter {A} (R : relation A) (P : A -> Prop) `{forall x, Decision (P x)} l :
  StronglySorted R l -> StronglySorted R (filter P l).
Proof.
  induction 1 as [|x l S IH F]; [constructor|]. rewrite filter_cons.
  destruct (decide _); [|done]. constructor; [done|]. rewrite Forall_forall in F.
  apply Forall_forall. intros y [_ Hy]%list_elem_of_filter. by apply F.
Qed.

Lemma uids_perm l l' : l ≡ₚ l' -> uids l ≡ₚ uids l'.
Proof. unfold uids. by intros ->. Qed.

Lemma agenda_insert ev l :
  agenda l -> ev.(key).(m_uid) ∉ uids l -> agenda (spec_insert ev l).
Proof.
  intros [S N] F. split.
  - unfold spec_insert. apply StronglySorted_app_2.
    + intros a b [Ha _]%list_elem_of_filter [->|[Hb Hbl]%list_elem_of_filter]%elem_of_cons; [done|].
      apply ev_lt_trans with ev; [done|]. apply ev_lt_total; [|done].
      intros E. apply F. rewrite <- E. by apply uids_elem.
    + by apply StronglySorted_filter.
    + constructor; [by apply StronglySorted_filter|]. apply Forall_forall.
      intros b [Hb Hbl]%list_elem_of_filter. apply ev_lt_total; [|done].
      intros E. apply F. rewrite <- E. by apply uids_elem.
  - rewrite (uids_perm _ _ (spec_insert_perm ev l)). by constructor.
Qed.

Lemma agenda_filter (P : Event -> Prop) `{forall x, Decision (P x)} l :
  agenda l -> agenda (filter P l).
Proof.
  intros [S N]. split; [by apply StronglySorted_filter|].
  unfold uids in *. induction l as [|e l IH]; [done|]. rewrite filter_cons.
  apply NoDup_cons in N as [N1 N2]. apply StronglySorted_inv in S as [S _].
  destruct (decide _); [|auto]. apply NoDup_cons. split; [|auto].
  intros [a [E [_ Ha]%list_elem_of_filter]]%list_elem_of_fmap. apply N1. cbn in E. rewrite E.
  by apply uids_elem.
Qed.

Lemma agenda_remove ev l : agenda l -> agenda (spec_remove ev l).
Proof. apply agenda_filter. Qed.

(** An agenda is determined by its set of events. *)
Lemma agenda_head_unique e l r :
  agenda (e :: l) -> r ∈ e :: l -> Forall (fun a => ev_lt a r = false) (e :: l) -> r = e.
Proof.
  intros A [->|Hr]%elem_of_cons F; [done|]. apply agenda_cons in A as [A _].
  rewrite Forall_forall in A. apply A in Hr. apply Forall_cons in F as [F _]. congruence.
Qed.

#[export] Hint Resolve agenda_insert agenda_remove : oran.

(** ** ListScheduler implements the contract *)

Lemma list_insert_spec ev l :
  agenda l -> ev.(key).(m_uid) ∉ uids l -> ListScheduler.Insert ev l = spec_insert ev l.
Proof.
  induction l as [|e l IH]; intros A F; [done|]. cbn [ListScheduler.Insert].
  pose proof (agenda_cons _ _ A) as [A1 A2]. unfold spec_insert.
  change (key_lt (key ev) (key e)) with (ev_lt ev e). destruct (ev_lt ev e) eqn:L.
  - assert (G : Forall (fun a => ev_lt a ev = false) (e :: l)).
    { constructor; [eauto with oran|]. eapply Forall_impl; [exact A1|]. cbn. eauto with oran. }
    rewrite filter_none, filter_all; [done|done|].
    eapply Forall_impl; [exact G|]. cbn. congruence.
  - apply ev_lt_total in L; [|cbn in F; set_solver].
    assert (Fl : m_uid (key ev) ∉ uids l) by (cbn in F; set_solver).
    rewrite filter_cons_True, filter_cons_False, IH by congruence. done.
Qed.

Lemma list_remove_spec ev l :
  agenda l -> ev ∈ l -> ListScheduler.Remove ev l = Ok (spec_remove ev l).
Proof.
  induction l as [|e l IH]; intros A H; [set_solver|]. cbn [ListScheduler.Remove].
  pose proof (agenda_cons _ _ A) as [A1 A2]. unfold spec_remove. rewrite filter_cons.
  destruct (Z.eqb_spec (m_uid (key e)) (m_uid (key ev))) as [E|E].
  - assert (e = ev) as -> by (eapply agenda_uid_inj; [exact A|by left|done|done]).
    rewrite bool_decide_true by done. cbn. rewrite decide_False by tauto.
    f_equal. symmetry. apply filter_all, Forall_forall. intros a Ha Eu.
    assert (a = ev) as -> by (eapply agenda_uid_inj; [exact A|by right|by left|done]).
    destruct A as [_ N]. apply NoDup_cons in N as [N _]. apply N. by apply uids_elem.
  - apply elem_of_cons in H as [->|H]; [done|]. rewrite IH by done. cbn.
    by rewrite decide_True.
Qed.

#[export] Instance ListScheduler_laws : EventQueueLaws (list Event).
Proof.
  apply (Build_EventQueueLaws _ _ (fun q _ l => q = l /\ agenda l)).
  - by intros q t l [_ A].
  - split; [done|]. split; constructor.
  - done.
  - intros q t l ev [-> A] F _ _. eexists. split; [done|].
    cbn. rewrite list_insert_spec by done. split; [done|]. by apply agenda_insert.
  - intros q t l [-> _]. by destruct l.
  - by intros q t e l [-> _].
  - intros q t e l [-> A]. eexists. split; [done|]. split; [done|]. exact (proj2 (agenda_cons _ _ A)).
Defined.

#[export] Instance ListScheduler_remove_laws : EventQueueRemoveLaws (list Event).
Proof.
  split. intros q t l ev [-> A] H. exists (spec_remove ev l).
  split; [exact (list_remove_spec _ _ A H)|].
  split; [done|]. by apply agenda_remove.
Qed.

(** ** MapScheduler implements the contract *)

Definition map_entry (e : Event) : (Z * Z) * (EventKey * nat) :=
  (MapScheduler.map_key e.(key), (e.(key), e.(impl))).

Lemma map_key_ltb a b :
  key_ltb (MapScheduler.map_key a.(key)) (MapScheduler.map_key b.(key)) = ev_lt a b.
Proof.
  unfold ev_lt, key_lt, key_ltb, prod_order, key_ltb, Z_order. cbn.
  destruct (Z.ltb_spec (m_ts (key a)) (m_ts (key b))); [done|]. cbn.
  destruct (Z.ltb_spec (m_ts (key b)) (m_ts (key a))), (Z.eqb_spec (m_ts (key a)) (m_ts (key b)));
    cbn; lia || done.
Qed.

Lemma map_key_uid a b :
  MapScheduler.map_key a.(key) = MapScheduler.map_key b.(key) ->
  a.(key).(m_uid) = b.(key).(m_uid).
Proof. intros E. by injection E. Qed.

Lemma map_lookup_fresh ev l :
  ev.(key).(m_uid) ∉ uids l ->
  smap_lookup (MapScheduler.map_key ev.(key)) (map_entry <$> l) = None.
Proof.
  intros F. apply smap_lookup_None. intros [p [E Hp]]%list_elem_of_fmap.
  apply list_elem_of_fmap in Hp as [e [-> He]]. apply F. cbn in E.
  rewrite (map_key_uid _ _ E). by apply uids_elem.
Qed.

Lemma map_lookup_elem ev l :
  agenda l -> ev ∈ l ->
  smap_lookup (MapScheduler.map_key ev.(key)) (map_entry <$> l) = Some (ev.(key), ev.(impl)).
Proof.
  intros A H. induction l as [|e l IH]; [set_solver|]. cbn. case_decide as D.
  - assert (e = ev) as ->; [|done].
    eapply agenda_uid_inj; [exact A|by left|done|]. symmetry. by apply map_key_uid.
  - apply elem_of_cons in H as [->|H]; [done|]. apply agenda_cons in A as [_ A]. auto.
Qed.

Lemma map_insert_list ev l :
  ev.(key).(m_uid) ∉ uids l ->
  smap_insert (MapScheduler.map_key ev.(key)) (ev.(key), ev.(impl)) (map_entry <$> l)
  = map_entry <$> ListScheduler.Insert ev l.
Proof.
  induction l as [|e l IH]; intros F; [done|]. cbn in F.
  assert (m_uid (key ev) <> m_uid (key e) /\ m_uid (key ev) ∉ uids l) as [F1 F2] by set_solver.
  cbn [fmap list_fmap ListScheduler.Insert smap_insert map_entry].
  rewrite decide_False by (intros E; by apply F1, map_key_uid).
  rewrite map_key_ltb. change (key_lt (key ev) (key e)) with (ev_lt ev e).
  destruct (ev_lt ev e); [done|]. cbn. f_equal. by apply IH.
Qed.

Lemma map_erase_list ev l :
  agenda l -> ev ∈ l ->
  smap_erase (MapScheduler.map_key ev.(key)) (map_entry <$> l) = map_entry <$> spec_remove ev l.
Proof.
  intros A H. unfold smap_erase, spec_remove.
  assert (G : forall e, e ∈ l -> (MapScheduler.map_key e.(key) <> MapScheduler.map_key ev.(key)
                          <-> e.(key).(m_uid) <> ev.(key).(m_uid))).
  { intros e He. split; intros N E; apply N; [|by apply map_key_uid].
    by rewrite (agenda_uid_inj _ _ _ A He H E). }
  clear A H. induction l as [|e l IH]; [done|].
  cbn [fmap list_fmap]. rewrite !filter_cons. cbn [fst map_entry].
  specialize (IH (fun x Hx => G x (list_elem_of_further _ _ _ Hx))).
  destruct (G e (list_elem_of_here _ _)) as [G1 G2].
  destruct (decide (MapScheduler.map_key (key e) <> _)), (decide (m_uid (key e) <> _));
    try tauto; cbn; by rewrite IH.
Qed.

#[export] Instance MapScheduler_laws : EventQueueLaws MapScheduler.EventMap.
Proof.
  apply (Build_EventQueueLaws _ _ (fun q _ l => q = map_entry <$> l /\ agenda l)).
  - by intros q t l [_ A].
  - split; [done|]. split; constructor.
  - done.
  - intros q t l ev [-> A] F _ _. eexists. split.
    + cbn. unfold MapScheduler.Insert. by rewrite map_lookup_fresh.
    + rewrite map_insert_list, list_insert_spec by done. split; [done|]. by apply agenda_insert.
  - intros q t l [-> _]. by destruct l.
  - by intros q t [p k] l [-> _].
  - intros q t [p k] l [-> A]. eexists. split; [done|]. split; [done|]. exact (proj2 (agenda_cons _ _ A)).
Defined.

#[export] Instance MapScheduler_remove_laws : EventQueueRemoveLaws MapScheduler.EventMap.
Proof.
  split. intros q t l ev [-> A] H. eexists. split.
  - cbn. unfold MapScheduler.Remove. rewrite map_lookup_elem by done.
    by rewrite bool_decide_true.
  - rewrite map_erase_list by done. split; [done|]. by apply agenda_remove.
Qed.
