(* ===== verification/HeapQueue.v ===== *)
(** HeapScheduler: insertion and removal of the next event implement the event-queue
    contract of EventQueue.v; Remove of an arbitrary event does not. *)
From Stdlib Require Import ZArith Lia ZifyNat Sorting.Sorted.
From stdpp Require Import base list strings sets sorting.
From S2P Require Import Prelude OrdMap EventQueue.
Import HeapScheduler.
Open Scope nat_scope.

Ltac hlia :=
  unfold Parent, LeftChild, RightChild, Root in *; zify; Z.to_euclidean_division_equations; lia.

Lemma Exch_ok a b (h : list Event) x y :
  h !! a = Some x -> h !! b = Some y -> Exch a b h = Ok (<[b := x]> (<[a := y]> h)).
Proof. intros Ha Hb. unfold Exch. by rewrite Ha, Hb. Qed.

Lemma swap_lookup a b (h : list Event) x y i :
  h !! a = Some x -> h !! b = Some y ->
  <[b := x]> (<[a := y]> h) !! i
  = if decide (i = b) then Some x else if decide (i = a) then Some y else h !! i.
Proof.
  intros Ha%lookup_lt_Some Hb%lookup_lt_Some. case_decide; [|case_decide]; subst.
  - by rewrite list_lookup_insert_eq by (by rewrite length_insert).
  - rewrite list_lookup_insert_ne by done. by apply list_lookup_insert_eq.
  - by rewrite !list_lookup_insert_ne by done.
Qed.

Lemma IsLessStrictly_ok a b (h : list Event) x y :
  h !! a = Some x -> h !! b = Some y -> IsLessStrictly a b h = Ok (ev_lt x y).
Proof. intros Ha Hb. unfold IsLessStrictly. by rewrite Ha, Hb. Qed.

(** What the two sifting loops keep: the events and the unused slot. *)
Definition same_events (h h' : list Event) : Prop := h' ≡ₚ h /\ h' !! 0 = h !! 0.

Lemma same_events_refl h : same_events h h.
Proof. by split. Qed.

Lemma same_events_trans h1 h2 h3 : same_events h1 h2 -> same_events h2 h3 -> same_events h1 h3.
Proof. intros [P1 Z1] [P2 Z2]. split; [by rewrite P2|congruence]. Qed.

Lemma same_events_swap a b (h : list Event) x y :
  1 <= a -> 1 <= b -> h !! a = Some x -> h !! b = Some y ->
  same_events h (<[b := x]> (<[a := y]> h)).
Proof.
  intros La Lb Ha Hb. split; [by apply Permutation_insert_swap|].
  by rewrite !list_lookup_insert_ne by lia.
Qed.

Lemma same_events_length h h' : same_events h h' -> length h' = length h.
Proof. intros [P _]. by rewrite P. Qed.

Lemma lookup_in (h : list Event) i : i < length h -> exists x, h !! i = Some x.
Proof. intros [x Hx]%lookup_lt_is_Some. by exists x. Qed.

(** Case analysis on a lookup after an exchange. *)
Ltac swap_cases H :=
  rewrite swap_lookup in H by eassumption;
  repeat (case_decide; simplify_eq); try hlia.

(** *** Sifting up *)

Definition up_inv (h : list Event) (k : nat) : Prop :=
  (forall i x y, 2 <= i -> i <> k -> h !! i = Some x -> h !! Parent i = Some y -> ev_lt x y = false) /\
  (forall i x y, 2 <= k -> 2 <= i -> Parent i = k -> h !! i = Some x -> h !! Parent k = Some y ->
     ev_lt x y = false).

Lemma up_inv_done h k :
  up_inv h k -> (forall x y, 2 <= k -> h !! k = Some x -> h !! Parent k = Some y -> ev_lt x y = false) ->
  heap_ok h.
Proof.
  intros [U _] D i x y Hi Hx Hy. destruct (decide (i = k)) as [->|]; eauto.
Qed.

Lemma up_inv_swap h k x p :
  2 <= k -> h !! k = Some x -> h !! Parent k = Some p -> ev_lt x p = true -> up_inv h k ->
  up_inv (<[Parent k := x]> (<[k := p]> h)) (Parent k).
Proof.
  intros Hk Hx Hp L [U1 U2]. split.
  - intros i a b Hi Hne Ha Hb.
    rewrite swap_lookup in Ha, Hb by eassumption.
    destruct (decide (i = Parent k)) as [|_]; [done|].
    destruct (decide (i = k)) as [->|Hik].
    + rewrite decide_True in Hb by done. simplify_eq. by apply ev_lt_asym.
    + destruct (decide (Parent i = Parent k)) as [E|_].
      * simplify_eq. rewrite E in U1 || idtac.
        apply ev_le_trans with p; [by apply ev_lt_asym|].
        apply (U1 i); [done|done|done|]. by rewrite E.
      * destruct (decide (Parent i = k)) as [E|_]; [|by apply (U1 i)].
        simplify_eq. by apply (U2 i).
  - intros i a b Hk' Hi Hpi Ha Hb.
    rewrite swap_lookup in Ha, Hb by eassumption.
    rewrite !decide_False in Hb by hlia.
    rewrite (decide_False (P := i = Parent k)) in Ha by hlia.
    assert (G : ev_lt p b = false) by (apply (U1 (Parent k)); [hlia|hlia|done|done]).
    destruct (decide (i = k)) as [->|Hik]; [by simplify_eq|].
    apply ev_le_trans with p; [done|]. apply (U1 i); [done|done|done|]. by rewrite Hpi.
Qed.

Lemma BottomUp_loop_ok fuel k h :
  k < fuel -> 1 <= k < length h -> up_inv h k ->
  exists h', BottomUp_loop fuel k h = Ok h' /\ heap_ok h' /\ same_events h h'.
Proof.
  revert k h. induction fuel as [|fuel IH]; intros k h F Hk U; [lia|]. cbn.
  unfold IsRoot. case_bool_decide as R.
  { exists h. split_and!; [done| |apply same_events_refl].
    apply (up_inv_done h k U). intros. hlia. }
  destruct (lookup_in h k) as [x Hx]; [lia|].
  destruct (lookup_in h (Parent k)) as [p Hp]; [hlia|].
  erewrite IsLessStrictly_ok by eassumption. cbn. destruct (ev_lt x p) eqn:L.
  - erewrite Exch_ok by eassumption. cbn.
    destruct (IH (Parent k) (<[Parent k := x]> (<[k := p]> h))) as (h' & E & O & S).
    + hlia.
    + rewrite !length_insert. hlia.
    + apply up_inv_swap; try done. hlia.
    + exists h'. split_and!; [done|done|]. eapply same_events_trans; [|exact S].
      apply same_events_swap; try done; hlia.
  - exists h. split_and!; [done| |apply same_events_refl].
    apply (up_inv_done h k U). intros. by simplify_eq.
Qed.

(** *** Sifting down *)

Definition down_inv (h : list Event) (k : nat) : Prop :=
  (forall i x y, 2 <= i -> Parent i <> k -> h !! i = Some x -> h !! Parent i = Some y ->
     ev_lt x y = false) /\
  (forall i x y, 2 <= k -> 2 <= i -> Parent i = k -> h !! i = Some x -> h !! Parent k = Some y ->
     ev_lt x y = false).

Lemma down_inv_done h k :
  down_inv h k ->
  (forall i x y, 2 <= i -> Parent i = k -> h !! i = Some x -> h !! k = Some y -> ev_lt x y = false) ->
  heap_ok h.
Proof.
  intros [U _] D i x y Hi Hx Hy. destruct (decide (Parent i = k)) as [E|]; [|eauto].
  rewrite E in Hy. eauto.
Qed.

Lemma down_inv_swap h k c x y :
  1 <= k -> 2 <= c -> Parent c = k -> h !! k = Some x -> h !! c = Some y -> ev_lt x y = false ->
  (forall s z, 2 <= s -> Parent s = k -> h !! s = Some z -> ev_lt z y = false) ->
  down_inv h k -> down_inv (<[c := x]> (<[k := y]> h)) c.
Proof.
  intros Hk Hc Hpc Hx Hy L Sib [U1 U2]. split.
  - intros i a b Hi Hne Ha Hb.
    rewrite swap_lookup in Ha, Hb by eassumption.
    rewrite (decide_False (P := Parent i = c)) in Hb by done.
    destruct (decide (i = c)) as [->|Hic].
    + rewrite decide_True in Hb by done. by simplify_eq.
    + destruct (decide (i = k)) as [->|Hik].
      * rewrite decide_False in Hb by hlia. simplify_eq.
        by apply (U2 c).
      * destruct (decide (Parent i = k)) as [E|]; [|by apply (U1 i)].
        simplify_eq. by apply (Sib i).
  - intros i a b Hc2 Hi Hpi Ha Hb.
    rewrite swap_lookup in Ha, Hb by eassumption.
    rewrite !decide_False in Ha by hlia.
    rewrite decide_False, decide_True in Hb by hlia. simplify_eq.
    apply (U1 i); [done|hlia|done|done].
Qed.

(** The tail of TopDown: at most a left child is left to compare with. *)
Lemma TopDown_tail_ok fuel k h :
  1 <= k -> length h <= RightChild k -> down_inv h k ->
  exists h', TopDown_loop (S fuel) k h = Ok h' /\ heap_ok h' /\ same_events h h'.
Proof.
  intros Hk R U. cbn [TopDown_loop]. unfold IsBottom. rewrite bool_decide_true by done. cbn [negb].
  assert (D : h !! LeftChild k = None -> heap_ok h).
  { intros Hn. apply (down_inv_done h k U). intros i x y Hi Hp Hx _.
    apply lookup_lt_Some in Hx. apply lookup_ge_None in Hn. exfalso. hlia. }
  case_bool_decide as B.
  { exists h. split_and!; [done|apply D, lookup_ge_None; hlia|apply same_events_refl]. }
  case_bool_decide as B2.
  { exists h. split_and!; [done|by apply D, lookup_ge_None|apply same_events_refl]. }
  destruct (lookup_in h k) as [x Hx]; [lia|].
  destruct (lookup_in h (LeftChild k)) as [y Hy]; [lia|].
  assert (Only : forall s z, 2 <= s -> Parent s = k -> h !! s = Some z -> s = LeftChild k).
  { intros s z Hs Hp Hz%lookup_lt_Some. hlia. }
  erewrite IsLessStrictly_ok by eassumption. cbn [res_bind]. destruct (ev_lt x y) eqn:L.
  - exists h. split_and!; [done| |apply same_events_refl].
    apply (down_inv_done h k U). intros i a b Hi Hp Ha Hb.
    rewrite (Only i a) in Ha by done. simplify_eq. by apply ev_lt_asym.
  - erewrite Exch_ok by eassumption. eexists. split_and!; [done| |].
    + eapply down_inv_done; [apply (down_inv_swap h k (LeftChild k) x y); try done; try hlia|].
      { intros s z Hs Hp Hz. rewrite (Only s z) in Hz by done. simplify_eq. apply ev_lt_irrefl. }
      intros i a b Hi Hp Ha _. apply lookup_lt_Some in Ha. rewrite !length_insert in Ha.
      exfalso. hlia.
    + apply same_events_swap; try done; hlia.
Qed.

(** The child the loop continues with is before both children. *)
Lemma Smallest_ok h k l r :
  h !! LeftChild k = Some l -> h !! RightChild k = Some r ->
  exists tmp y, Smallest (LeftChild k) (RightChild k) h = Ok tmp /\ h !! tmp = Some y /\
    (tmp = LeftChild k \/ tmp = RightChild k) /\
    (forall s z, 2 <= s -> Parent s = k -> h !! s = Some z -> ev_lt z y = false).
Proof.
  intros Hl Hr. unfold Smallest. erewrite IsLessStrictly_ok by eassumption. cbn [res_bind].
  exists (if ev_lt l r then LeftChild k else RightChild k), (if ev_lt l r then l else r).
  split_and!; [done|by destruct (ev_lt l r)|destruct (ev_lt l r); tauto|].
  intros s z Hs Hp Hz. assert (s = LeftChild k \/ s = RightChild k) as [-> | ->] by hlia;
    simplify_eq; destruct (ev_lt l r) eqn:L; eauto using ev_lt_irrefl, ev_lt_asym.
Qed.

Lemma TopDown_loop_ok fuel k h :
  length h < fuel + k -> 0 < fuel -> 1 <= k -> down_inv h k ->
  exists h', TopDown_loop fuel k h = Ok h' /\ heap_ok h' /\ same_events h h'.
Proof.
  revert k h. induction fuel as [|fuel IH]; intros k h F F0 Hk U; [lia|].
  destruct (decide (length h <= RightChild k)) as [R|R]; [by apply TopDown_tail_ok|].
  cbn [TopDown_loop]. unfold IsBottom. rewrite bool_decide_false by done. cbn [negb].
  destruct (lookup_in h k) as [x Hx]; [hlia|].
  destruct (lookup_in h (LeftChild k)) as [l Hl]; [hlia|].
  destruct (lookup_in h (RightChild k)) as [r Hr]; [hlia|].
  destruct (Smallest_ok h k l r Hl Hr) as (tmp & y & -> & Hy & Ht & Sib). cbn [res_bind].
  assert (2 <= tmp /\ Parent tmp = k /\ k < tmp < length h) as (Ht1 & Ht2 & Ht3).
  { destruct Ht as [-> | ->]; hlia. }
  erewrite IsLessStrictly_ok by eassumption. cbn [res_bind]. destruct (ev_lt x y) eqn:L.
  - exists h. split_and!; [done| |apply same_events_refl].
    apply (down_inv_done h k U). intros i a b Hi Hp Ha Hb. simplify_eq.
    apply ev_le_trans with y; [by apply ev_lt_asym|eauto].
  - erewrite Exch_ok by eassumption. cbn [res_bind].
    destruct (IH tmp (<[tmp := x]> (<[k := y]> h))) as (h' & E & O & S);
      [rewrite !length_insert; lia|lia|lia|by apply down_inv_swap|].
    exists h'. split_and!; [done|done|]. eapply same_events_trans; [|exact S].
    apply same_events_swap; try done; lia.
Qed.

(** *** The operations *)

(** The root is before every other event. *)
Lemma heap_root_min h r i x :
  heap_ok h -> h !! Root = Some r -> 1 <= i -> h !! i = Some x -> ev_lt x r = false.
Proof.
  intros O Hr. revert x. induction (lt_wf i) as [i _ IH]. intros x Hi Hx.
  destruct (decide (i = 1)) as [->|]; [unfold Root in Hr; simplify_eq; apply ev_lt_irrefl|].
  destruct (lookup_in h (Parent i)) as [y Hy]; [apply lookup_lt_Some in Hx; hlia|].
  apply ev_le_trans with y.
  - apply (IH (Parent i)); [hlia|hlia|done].
  - apply (O i); [lia|done|done].
Qed.

Definition heap_repr (h l : list Event) : Prop :=
  heap_ok h /\ (exists d rest, h = d :: rest /\ rest ≡ₚ l) /\ agenda l.

Lemma same_events_tail d rest h' :
  same_events (d :: rest) h' -> exists rest', h' = d :: rest' /\ rest' ≡ₚ rest.
Proof.
  intros [P Z]. destruct h' as [|d' rest']; [done|]. cbn in Z. simplify_eq.
  exists rest'. split; [done|]. by apply Permutation_cons_inv in P.
Qed.

Lemma heap_insert_ok h l ev :
  heap_repr h l -> m_uid (key ev) ∉ uids l ->
  exists h', HeapScheduler.Insert ev h = Ok h' /\ heap_repr h' (spec_insert ev l).
Proof.
  intros (O & (d & rest & -> & P) & A) F. unfold HeapScheduler.Insert, BottomUp.
  set (h := (d :: rest) ++ [ev]).
  assert (Len : length h = S (S (length rest))).
  { unfold h. rewrite length_app. cbn. lia. }
  destruct (BottomUp_loop_ok (length h) (Last h) h) as (h' & E & O' & S).
  - unfold Last. lia.
  - unfold Last. lia.
  - unfold Last. rewrite Len. split.
    + intros i x y Hi Hne Hx Hy. pose proof (lookup_lt_Some _ _ _ Hx) as Hl. rewrite Len in Hl.
      assert (Hi' : i < length (d :: rest)) by (cbn; lia).
      assert (Hp' : Parent i < length (d :: rest)) by hlia.
      unfold h in Hx, Hy. rewrite lookup_app_l in Hx, Hy by done. by apply (O i).
    + intros i x y Hk Hi Hp Hx Hy. apply lookup_lt_Some in Hx. rewrite Len in Hx. hlia.
  - exists h'. split; [done|]. destruct (same_events_tail d (rest ++ [ev]) h' S) as (r' & -> & P').
    split; [done|]. split; [|by apply agenda_insert]. exists d, r'. split; [done|].
    rewrite P', spec_insert_perm, P. by rewrite Permutation_app_comm.
Qed.

Lemma heap_root h e l : heap_repr h (e :: l) -> h !! Root = Some e.
Proof.
  intros (O & (d & rest & -> & P) & A). destruct rest as [|r rest].
  { by apply Permutation_nil_cons in P. }
  cbn. f_equal. apply agenda_head_unique with l; [done| |].
  - rewrite <- P. by left.
  - rewrite <- P. apply Forall_forall. intros a [i Hi]%list_elem_of_lookup.
    apply (heap_root_min (d :: r :: rest) r (S i)); [done|done|lia|done].
Qed.

(** Exchanging the root with the last slot and dropping the last slot. *)
Lemma swap_pop_last d r rest (x : Event) :
  last (r :: rest) = Some x ->
  exists rest', pop_back (<[length (r :: rest) := r]> (<[1 := x]> (d :: r :: rest))) = d :: rest' /\
    r :: rest' ≡ₚ r :: rest /\
    (forall i, 2 <= i -> is_Some ((d :: rest') !! i) -> (d :: rest') !! i = (d :: r :: rest) !! i).
Proof.
  intros [init E]%last_Some. unfold pop_back. rewrite !length_insert.
  replace (length (d :: r :: rest) - 1) with (length (r :: rest)) by (cbn; lia).
  rewrite take_insert_ge by lia.
  destruct init as [|a init]; cbn in E; simplify_eq.
  - exists []. split_and!; [done|done|]. intros i Hi [? H]. destruct i as [|[|]]; [lia|lia|done].
  - exists (x :: init). cbn. rewrite length_app. cbn.
    replace (length init + 1) with (S (length init)) by lia. cbn. rewrite take_app_length.
    split_and!; [done|by rewrite Permutation_app_comm|].
    intros i Hi [y Hy]. destruct i as [|[|i]]; [lia|lia|]. cbn in *.
    symmetry. apply lookup_app_l. by apply lookup_lt_Some in Hy.
Qed.

Lemma down_inv_root h h' :
  heap_ok h -> (forall i, 2 <= i -> is_Some (h' !! i) -> h' !! i = h !! i) -> down_inv h' 1.
Proof.
  intros O Same. split; [|lia]. intros i x y Hi Hp Hx Hy.
  rewrite Same in Hx by eauto. destruct (decide (i <= 3)); [hlia|].
  rewrite Same in Hy by (eauto || hlia). eauto.
Qed.

Lemma heap_remove_next_ok h e l :
  heap_repr h (e :: l) ->
  exists h', HeapScheduler.RemoveNext h = Ok (e, h') /\ heap_repr h' l.
Proof.
  intros R. pose proof (heap_root _ _ _ R) as Hr.
  destruct R as (O & (d & rest & -> & P) & A).
  destruct rest as [|r rest]; [by apply Permutation_nil_cons in P|].
  unfold Root in Hr. cbn in Hr. simplify_eq.
  destruct (last (e :: rest)) as [x|] eqn:Lx; [|by apply last_None in Lx].
  destruct (swap_pop_last d e rest x Lx) as (rest' & Ep & Pm & Same).
  unfold HeapScheduler.RemoveNext. cbn [PeekNext lookup list_lookup Root]. cbn [res_bind].
  assert (Hlast : (d :: e :: rest) !! length (e :: rest) = Some x).
  { rewrite last_lookup in Lx. exact Lx. }
  replace (Last (d :: e :: rest)) with (length (e :: rest)) by (unfold Last; cbn; lia).
  unfold Root. erewrite Exch_ok by (done || eassumption). cbn [res_bind].
  rewrite Ep. unfold TopDown.
  destruct (TopDown_loop_ok (S (length (d :: rest'))) 1 (d :: rest')) as (h' & E & O' & S);
    [lia|lia|lia|by eapply down_inv_root|].
  rewrite E. cbn [res_bind]. exists h'. split; [done|].
  destruct (same_events_tail _ _ _ S) as (r' & -> & P').
  split; [done|]. split; [|exact (proj2 (agenda_cons _ _ A))].
  exists d, r'. split; [done|]. rewrite P'.
  apply (Permutation_cons_inv (a := e)). by rewrite Pm.
Qed.

Lemma heap_is_empty h l : heap_repr h l -> HeapScheduler.IsEmpty h = bool_decide (l = []).
Proof.
  intros (_ & (d & rest & -> & P) & _). unfold HeapScheduler.IsEmpty. cbn.
  apply bool_decide_ext. split.
  - intros E. destruct rest; [|done]. by apply Permutation_nil_l in P.
  - intros ->. apply Permutation_nil_r in P. by rewrite P.
Qed.

#[export] Instance HeapScheduler_laws : EventQueueLaws Heap.
Proof.
  apply (Build_EventQueueLaws _ _ (fun q _ l => heap_repr q.(m_heap) l)).
  - by intros q t l (_ & _ & A).
  - split; [|split; [|split; constructor]].
    + intros i x y Hi Hx. apply lookup_lt_Some in Hx. cbn in Hx. lia.
    + by exists empty_event, [].
  - done.
  - intros [h] t l ev R F _ _. destruct (heap_insert_ok h l ev R F) as (h' & E & R').
    exists (mkHeap h'). split; [|done].
    cbv beta iota delta [EventQueue.Insert HeapScheduler_queue m_heap] in *. by rewrite E.
  - intros [h] t l R. by apply heap_is_empty.
  - intros [h] t e l R. cbn. unfold HeapScheduler.PeekNext. by rewrite (heap_root h e l R).
  - intros [h] t e l R. destruct (heap_remove_next_ok h e l R) as (h' & E & R').
    exists (mkHeap h'). split; [|done].
    cbv beta iota delta [EventQueue.RemoveNext HeapScheduler_queue m_heap] in *. by rewrite E.
Defined.
