(* ===== verification/PriorityQueue.v ===== *)
(** PriorityQueueScheduler (src/core/model/priority-queue-scheduler.{h,cc}) keeps the
    event-queue contract.

    std::priority_queue over std::greater is known by what the standard promises: push adds an
    element, top is an element no other one comes before, pop takes it out.  The order of its
    vector is not observable, because the keys are distinct; here it is the order of the calls. *)
From Stdlib Require Import ZArith Lia Sorting.Sorted.
From stdpp Require Import base list strings sets sorting.
From S2P Require Import Prelude OrdMap EventQueue.
Open Scope Z_scope.

Module PriorityQueueScheduler.

Record PriorityQueueScheduler := mkQueue { m_queue : list Event }.

(** The least element, the first of equal ones *)
Definition top (c : list Event) : option Event :=
  foldr (fun e best => match best with
                       | None => Some e
                       | Some b => if ev_lt b e then Some b else Some e
                       end) None c.

(** erase (find_if (begin (), end (), f)) *)
Fixpoint erase_first (f : Event -> bool) (c : list Event) : list Event :=
  match c with
  | [] => []
  | e :: c => if f e then c else e :: erase_first f c
  end.

Definition Insert (ev : Event) (q : PriorityQueueScheduler) : PriorityQueueScheduler :=
  mkQueue (q.(m_queue) ++ [ev]).

Definition IsEmpty (q : PriorityQueueScheduler) : bool :=
  match q.(m_queue) with [] => true | _ => false end.

Definition PeekNext (q : PriorityQueueScheduler) : res Event :=
  match top q.(m_queue) with Some e => Ok e | None => Abort "top() of an empty queue" end.

Definition RemoveNext (q : PriorityQueueScheduler) : res (Event * PriorityQueueScheduler) :=
  match top q.(m_queue) with
  | Some ev => Ok (ev, mkQueue (erase_first (fun e => bool_decide (e = ev)) q.(m_queue)))
  | None => Abort "top() of an empty queue"
  end.

(** EventPriorityQueue::remove: std::find compares the uids; make_heap restores the order. *)
Definition remove (ev : Event) (c : list Event) : bool * list Event :=
  let same e := e.(key).(m_uid) =? ev.(key).(m_uid) in
  if existsb same c then (true, erase_first same c) else (false, c).

Definition Remove (ev : Event) (q : PriorityQueueScheduler) : PriorityQueueScheduler :=
  mkQueue (remove ev q.(m_queue)).2.

End PriorityQueueScheduler.
Import PriorityQueueScheduler.

#[export] Instance PriorityQueueScheduler_queue : EventQueue PriorityQueueScheduler :=
  {| q_empty := mkQueue [];
     EventQueue.Insert := fun ev q => Ok (Insert ev q);
     EventQueue.IsEmpty := IsEmpty;
     EventQueue.PeekNext := PeekNext;
     EventQueue.RemoveNext := RemoveNext;
     EventQueue.Remove := fun ev q => Ok (Remove ev q) |}.

(** ** The contract *)

Lemma top_least c :
  match top c with
  | None => c = []
  | Some h => h ∈ c /\ Forall (fun x => ev_lt x h = false) c
  end.
Proof.
  induction c as [|e c IH]; [done|]. cbn. fold (top c). destruct (top c) as [h|].
  - destruct IH as [Hin F]. destruct (ev_lt h e) eqn:L.
    + split; [by right|]. constructor; [by apply ev_lt_asym|done].
    + split; [by left|]. constructor; [apply ev_lt_irrefl|]. eapply Forall_impl; [exact F|].
      intros x Hx. by apply ev_le_trans with h.
  - subst. split; [by left|]. by repeat constructor; apply ev_lt_irrefl.
Qed.

Lemma erase_first_ok f c e :
  e ∈ c -> f e = true -> (forall x, x ∈ c -> f x = true -> x = e) -> c ≡ₚ e :: erase_first f c.
Proof.
  induction c as [|x c IH]; intros Hin Fe U; [by apply elem_of_nil in Hin|]. cbn.
  destruct (f x) eqn:Fx; [by rewrite (U x (list_elem_of_here _ _) Fx)|].
  apply elem_of_cons in Hin as [->|Hin]; [congruence|].
  rewrite (IH Hin Fe) at 1; [apply Permutation_swap|]. intros y Hy. apply U. by right.
Qed.

Definition priority_repr (q : PriorityQueueScheduler) (l : list Event) : Prop :=
  q.(m_queue) ≡ₚ l /\ agenda l.

Lemma top_agenda q e l : priority_repr q (e :: l) -> top q.(m_queue) = Some e.
Proof.
  intros [P A]. pose proof (top_least q.(m_queue)) as T. destruct (top (m_queue q)) as [h|].
  - destruct T as [Hin F]. rewrite P in Hin, F. f_equal. by apply agenda_head_unique with l.
  - rewrite T in P. by apply Permutation_nil_cons in P.
Qed.

#[export] Instance PriorityQueueScheduler_laws : EventQueueLaws PriorityQueueScheduler.
Proof.
  apply (Build_EventQueueLaws _ _ (fun q _ l => priority_repr q l)).
  - by intros q t l [_ A].
  - split; [done|]. split; constructor.
  - done.
  - intros q t l ev [P A] F _ _. eexists. split; [done|]. split; [|by apply agenda_insert].
    cbn. by rewrite P, spec_insert_perm, Permutation_app_comm.
  - intros q t l [P _]. cbn. unfold IsEmpty. apply Permutation_length in P as Ln.
    destruct (m_queue q), l; done.
  - intros q t e l R. cbn. unfold PeekNext. by rewrite (top_agenda _ _ _ R).
  - intros q t e l R. cbn. unfold RemoveNext. rewrite (top_agenda _ _ _ R). eexists. split; [done|].
    destruct R as [P A]. split; [|by apply agenda_cons in A as [_ A]].
    cbn. apply (Permutation_cons_inv (a := e)). rewrite <- P. symmetry. apply erase_first_ok.
    + rewrite P. by left.
    + by apply bool_decide_eq_true.
    + by intros x _ E%bool_decide_eq_true.
Defined.

#[export] Instance PriorityQueueScheduler_remove_laws : EventQueueRemoveLaws PriorityQueueScheduler.
Proof.
  split. intros q t l ev [P A] Hin. eexists. split; [reflexivity|]. split; [|by apply agenda_remove].
  cbn. unfold remove. rewrite (proj2 (existsb_exists _ _)).
  2:{ exists ev. split; [|apply Z.eqb_refl]. apply list_elem_of_In. by rewrite P. }
  cbn [snd]. set (f := fun e : Event => _). assert (m_queue q ≡ₚ ev :: erase_first f (m_queue q)) as E.
  { apply erase_first_ok; [by rewrite P|apply Z.eqb_refl|]. intros x Hx Ex%Z.eqb_eq.
    rewrite P in Hx. by apply (agenda_uid_inj l). }
  assert (agenda l) as [_ N] by done. unfold spec_remove. rewrite <- P. rewrite E at 2.
  rewrite filter_cons_False by tauto. rewrite filter_all; [done|]. apply Forall_forall. intros x Hx Eu.
  rewrite <- (uids_perm _ _ P), (uids_perm _ _ E) in N. cbn in N. apply NoDup_cons in N as [N _].
  apply N. rewrite <- Eu. by apply uids_elem.
Qed.
