(* ===== verification/CalendarQueue.v ===== *)
(** The calendar queue: src/core/model/calendar-scheduler.{h,cc}.

    Events are hashed by their time into the buckets of a "year" of m_nBuckets * m_width
    time units; the queue is resized, and its width computed anew from the next events, when
    it grows or shrinks.  The buckets are std::lists sorted by key; with Reverse they are
    sorted the other way round.  An array index out of bounds is an [Abort].

    After the definitions: CalendarScheduler keeps the event-queue contract, with and without
    Reverse, whatever width its resizing computes. *)
From Stdlib Require Import ZArith Lia Sorting.Sorted.
From stdpp Require Import base list strings sets sorting.
From S2P Require Import Prelude OrdMap EventQueue.
Open Scope Z_scope.
Module CalendarScheduler.

Record CalendarScheduler := mkCal {
  m_buckets : list (list Event);
  m_nBuckets : Z;
  m_width : Z;
  m_lastBucket : Z;
  m_bucketTop : Z;
  m_lastPrio : Z;
  m_qSize : Z;
  m_reverse : bool
}.

(** NextEvent, Order and Pop as SetReverse sets them; front () and back () need an element. *)
Definition NextEvent (m_reverse : bool) (bucket : list Event) : option Event :=
  if m_reverse then last bucket else head bucket.
Definition Order (m_reverse : bool) (a b : EventKey) : bool :=
  if m_reverse then key_lt b a else key_lt a b.
Definition Pop (m_reverse : bool) (bucket : list Event) : list Event :=
  if m_reverse then take (length bucket - 1) bucket else drop 1 bucket.

(** The remainder of a uint32_t fits one. *)
Definition Hash (c : CalendarScheduler) (ts : Z) : Z := (ts / c.(m_width)) mod c.(m_nBuckets).

Definition set_cursor (lastBucket bucketTop lastPrio : Z) (c : CalendarScheduler) : CalendarScheduler :=
  mkCal c.(m_buckets) c.(m_nBuckets) c.(m_width) lastBucket bucketTop lastPrio c.(m_qSize) c.(m_reverse).
Definition set_buckets (b : list (list Event)) (c : CalendarScheduler) : CalendarScheduler :=
  mkCal b c.(m_nBuckets) c.(m_width) c.(m_lastBucket) c.(m_bucketTop) c.(m_lastPrio) c.(m_qSize) c.(m_reverse).
Definition set_qSize (n : Z) (c : CalendarScheduler) : CalendarScheduler :=
  mkCal c.(m_buckets) c.(m_nBuckets) c.(m_width) c.(m_lastBucket) c.(m_bucketTop) c.(m_lastPrio) n c.(m_reverse).

(** (prio / width + 1) * width in uint64_t *)
Definition top_of (prio width : Z) : Z := u64 (u64 (prio / width + 1) * width).

Definition Init (nBuckets width startPrio : Z) (c : CalendarScheduler) : CalendarScheduler :=
  let c := mkCal (replicate (Z.to_nat nBuckets) []) nBuckets width 0 0 startPrio c.(m_qSize) c.(m_reverse) in
  set_cursor (Hash c startPrio) (top_of startPrio width) startPrio c.

(** CalendarScheduler::CalendarScheduler () with the attribute Reverse *)
Definition new_CalendarScheduler (reverse : bool) : CalendarScheduler :=
  Init 2 1 0 (mkCal [] 0 0 0 0 0 0 reverse).

Fixpoint insert_bucket (m_reverse : bool) (ev : Event) (bucket : list Event) : list Event :=
  match bucket with
  | [] => [ev]
  | i :: rest =>
      if Order m_reverse ev.(key) i.(key) then ev :: i :: rest else i :: insert_bucket m_reverse ev rest
  end.

(** Hash is an index of m_buckets, which has m_nBuckets elements. *)
Definition DoInsert (ev : Event) (c : CalendarScheduler) : CalendarScheduler :=
  set_buckets (alter (insert_bucket c.(m_reverse) ev) (Z.to_nat (Hash c ev.(key).(m_ts))) c.(m_buckets)) c.

Definition IsEmpty (c : CalendarScheduler) : bool := c.(m_qSize) =? 0.

(** The loop of PeekNext and of DoRemoveNext: it stops at the first bucket whose next event is
    of the current year ([inl]: the bucket, its top and the event), or comes back to
    m_lastBucket with the least key seen ([inr], and what [reading] made of its event). *)
Fixpoint scan {A : Type} (reading : Z -> Event -> A) (fuel : nat) (c : CalendarScheduler)
    (i bucketTop : Z) (minKey : EventKey) (min : A) : res ((Z * Z * Event) + (EventKey * A)) :=
  match fuel with
  | O => Abort "out of fuel"
  | S fuel =>
      match c.(m_buckets) !! Z.to_nat i with
      | None => Abort "m_buckets out of bounds"
      | Some bucket =>
          let continue minKey min :=
            let i := (i + 1) mod c.(m_nBuckets) in
            let bucketTop := u64 (bucketTop + c.(m_width)) in
            if i =? c.(m_lastBucket) then Ok (inr (minKey, min))
            else scan reading fuel c i bucketTop minKey min in
          match NextEvent c.(m_reverse) bucket with
          | None => continue minKey min
          | Some next =>
              if next.(key).(m_ts) <? bucketTop then Ok (inl (i, bucketTop, next))
              else if key_lt next.(key) minKey then continue next.(key) (reading i next)
              else continue minKey min
          end
      end
  end.

(** One bucket per iteration *)
Definition scan_year {A} (reading : Z -> Event -> A) (minKey : EventKey) (min : A) (c : CalendarScheduler) :=
  scan reading (Z.to_nat c.(m_nBuckets)) c c.(m_lastBucket) c.(m_bucketTop) minKey min.

Definition UINT64_MAX : Z := 2 ^ 64 - 1.
Definition UINT32_MAX : Z := 2 ^ 32 - 1.

(** The null EventImpl of minEvent is never returned; any pointer stands for it. *)
Definition PeekNext (c : CalendarScheduler) : res Event :=
  let* _ := abort_if (IsEmpty c) "NS_ASSERT(!IsEmpty())" in
  let minEvent := mkEvent 0 (mkKey UINT64_MAX UINT32_MAX 0) in
  let* r := scan_year (fun _ next => next) minEvent.(key) minEvent c in
  match r with
  | inl (_, _, next) => Ok next
  | inr (_, minEvent) => Ok minEvent
  end.

(** NextEvent and Pop on m_buckets[i] *)
Definition take_from (i : Z) (c : CalendarScheduler) : res (Event * CalendarScheduler) :=
  if i <? 0 then Abort "m_buckets out of bounds" else
  match c.(m_buckets) !! Z.to_nat i with
  | None => Abort "m_buckets out of bounds"
  | Some bucket =>
      match NextEvent c.(m_reverse) bucket with
      | None => Abort "front() of an empty list"
      | Some next => Ok (next, set_buckets (alter (Pop c.(m_reverse)) (Z.to_nat i) c.(m_buckets)) c)
      end
  end.

Definition DoRemoveNext (c : CalendarScheduler) : res (Event * CalendarScheduler) :=
  let* _ := abort_if (IsEmpty c) "NS_ASSERT(!IsEmpty())" in
  let* r := scan_year (fun i _ => i) (mkKey UINT64_MAX 0 UINT32_MAX) (-1) c in
  match r with
  | inl (i, bucketTop, next) => take_from i (set_cursor i bucketTop next.(key).(m_ts) c)
  | inr (minKey, minBucket) =>
      take_from minBucket
        (set_cursor (Hash c minKey.(m_ts)) (top_of minKey.(m_ts) c.(m_width)) minKey.(m_ts) c)
  end.

(** The first [n] events, removed one by one *)
Fixpoint gather (n : nat) (c : CalendarScheduler) : res (list Event * CalendarScheduler) :=
  match n with
  | O => Ok ([], c)
  | S n =>
      let* r := DoRemoveNext c in
      let* rs := gather n r.2 in
      Ok (r.1 :: rs.1, rs.2)
  end.

(** The sum of the separations of consecutive samples that [keep] accepts *)
Fixpoint separation (keep : Z -> bool) (samples : list Event) (totalSeparation : Z) : Z :=
  match samples with
  | cur :: (next :: _) as rest =>
      let diff := u64 (next.(key).(m_ts) - cur.(key).(m_ts)) in
      separation keep rest (if keep diff then u64 (totalSeparation + diff) else totalSeparation)
  | _ => totalSeparation
  end.

Definition n_samples (m_qSize : Z) : Z :=
  let nSamples := if m_qSize <=? 5 then m_qSize else u32 (5 + m_qSize / 10) in
  if 25 <? nSamples then 25 else nSamples.

Definition CalculateNewWidth (c : CalendarScheduler) : res (Z * CalendarScheduler) :=
  if c.(m_qSize) <? 2 then Ok (1, c) else
  let nSamples := n_samples c.(m_qSize) in
  let* r := gather (Z.to_nat nSamples) c in
  let '(samples, c') := r in
  let c' := foldl (fun c ev => DoInsert ev c) c' samples in
  let c' := set_cursor c.(m_lastBucket) c.(m_bucketTop) c.(m_lastPrio) c' in
  let twiceAvg := u64 (separation (fun _ => true) samples 0 / (nSamples - 1) * 2) in
  let totalSeparation := u64 (separation (fun diff => diff <=? twiceAvg) samples 0 * 3) in
  Ok (Z.max totalSeparation 1, c').

Definition DoResize (newSize newWidth : Z) (c : CalendarScheduler) : CalendarScheduler :=
  foldl (fun c ev => DoInsert ev c) (Init newSize newWidth c.(m_lastPrio) c) (concat c.(m_buckets)).

Definition Resize (newSize : Z) (c : CalendarScheduler) : res CalendarScheduler :=
  let* r := CalculateNewWidth c in Ok (DoResize newSize r.1 r.2).

Definition ResizeUp (c : CalendarScheduler) : res CalendarScheduler :=
  if (u32 (c.(m_nBuckets) * 2) <? c.(m_qSize)) && (c.(m_nBuckets) <? 32768)
  then Resize (u32 (c.(m_nBuckets) * 2)) c else Ok c.

Definition ResizeDown (c : CalendarScheduler) : res CalendarScheduler :=
  if c.(m_qSize) <? c.(m_nBuckets) / 2 then Resize (c.(m_nBuckets) / 2) c else Ok c.

Definition Insert (ev : Event) (c : CalendarScheduler) : res CalendarScheduler :=
  let c := DoInsert ev c in ResizeUp (set_qSize (u32 (c.(m_qSize) + 1)) c).

Definition RemoveNext (c : CalendarScheduler) : res (Event * CalendarScheduler) :=
  let* _ := abort_if (IsEmpty c) "NS_ASSERT(!IsEmpty())" in
  let* r := DoRemoveNext c in
  let* c := ResizeDown (set_qSize (u32 (r.2.(m_qSize) - 1)) r.2) in
  Ok (r.1, c).

(** The loop over the bucket is the one of ListScheduler::Remove. *)
Definition Remove (ev : Event) (c : CalendarScheduler) : res CalendarScheduler :=
  let* _ := abort_if (IsEmpty c) "NS_ASSERT(!IsEmpty())" in
  let i := Z.to_nat (Hash c ev.(key).(m_ts)) in
  match c.(m_buckets) !! i with
  | None => Abort "m_buckets out of bounds"
  | Some bucket =>
      let* bucket := ListScheduler.Remove ev bucket in
      let c := set_buckets (<[i := bucket]> c.(m_buckets)) c in
      ResizeDown (set_qSize (u32 (c.(m_qSize) - 1)) c)
  end.

End CalendarScheduler.

(** The queue with and without Reverse *)
Definition CalendarScheduler_queue (reverse : bool) : EventQueue CalendarScheduler.CalendarScheduler :=
  {| q_empty := CalendarScheduler.new_CalendarScheduler reverse;
     Insert := CalendarScheduler.Insert;
     IsEmpty := CalendarScheduler.IsEmpty;
     PeekNext := CalendarScheduler.PeekNext;
     RemoveNext := CalendarScheduler.RemoveNext;
     Remove := CalendarScheduler.Remove |}.

Import CalendarScheduler.
Open Scope Z_scope.

Implicit Types (c : CalendarScheduler) (r : bool) (b : list Event).

(** ** Buckets *)

Definition sorted_bucket r b : Prop :=
  StronglySorted (fun x y => Order r x.(key) y.(key) = true) b.

Lemma Order_trans r x y z :
  Order r x.(key) y.(key) = true -> Order r y.(key) z.(key) = true -> Order r x.(key) z.(key) = true.
Proof. destruct r; cbn; intros A B; [exact (ev_lt_trans z y x B A)|exact (ev_lt_trans x y z A B)]. Qed.

Lemma Order_total r x y :
  x.(key).(m_uid) <> y.(key).(m_uid) -> Order r x.(key) y.(key) = false -> Order r y.(key) x.(key) = true.
Proof. destruct r; cbn; intros N F; apply ev_lt_total; unfold ev_lt; congruence. Qed.

Lemma insert_bucket_perm r ev b : insert_bucket r ev b ≡ₚ ev :: b.
Proof.
  induction b as [|i b IH]; [done|]. cbn. destruct (Order r _ _); [done|].
  rewrite IH. apply Permutation_swap.
Qed.

Lemma insert_bucket_sorted r ev b :
  sorted_bucket r b -> ev.(key).(m_uid) ∉ uids b -> sorted_bucket r (insert_bucket r ev b).
Proof.
  unfold sorted_bucket. induction b as [|i b IH]; intros S N; cbn; [by repeat constructor|].
  apply StronglySorted_inv in S as [S F]. destruct (Order r (key ev) (key i)) eqn:O.
  - constructor; [by constructor|]. constructor; [done|]. eapply Forall_impl; [exact F|].
    intros x Hx. by eapply (Order_trans r ev i x).
  - cbn in N. apply not_elem_of_cons in N as [N1 N2]. constructor; [by apply IH|].
    rewrite insert_bucket_perm. constructor; [|done]. by apply Order_total.
Qed.

(** The next event of a bucket is its least. *)
Lemma NextEvent_least r b h :
  sorted_bucket r b -> NextEvent r b = Some h -> h ∈ b /\ Forall (fun x => ev_lt x h = false) b.
Proof.
  unfold sorted_bucket, NextEvent. intros S E. destruct r.
  - apply last_Some in E as [b' ->]. split; [apply elem_of_app; right; by left|].
    apply Forall_app. split; [|by repeat constructor; apply ev_lt_irrefl].
    apply Forall_forall. intros x Hx. apply ev_lt_asym.
    exact (StronglySorted_app_1_elem_of _ _ _ x h S Hx (list_elem_of_here _ _)).
  - destruct b as [|h' b]; [done|]. injection E as ->. split; [by left|].
    apply StronglySorted_inv in S as [_ F]. constructor; [apply ev_lt_irrefl|].
    eapply Forall_impl; [exact F|]. intros x Hx. by apply ev_lt_asym.
Qed.

Lemma Pop_ok r b h :
  NextEvent r b = Some h -> b ≡ₚ h :: Pop r b /\ (sorted_bucket r b -> sorted_bucket r (Pop r b)).
Proof.
  unfold NextEvent, Pop, sorted_bucket. intros E. destruct r.
  - apply last_Some in E as [b' ->]. rewrite length_app. cbn.
    replace (length b' + 1 - 1)%nat with (length b') by lia. rewrite take_app_length.
    split; [by rewrite Permutation_app_comm|]. apply StronglySorted_app_1_l.
  - destruct b as [|h' b]; [done|]. injection E as ->. split; [done|]. by intros [? _]%StronglySorted_inv.
Qed.

Lemma NextEvent_None r b : NextEvent r b = None -> b = [].
Proof. unfold NextEvent. destruct r; [apply last_None|by destruct b]. Qed.

(** One bucket and the others *)
Lemma concat_alter (bs : list (list Event)) i b :
  bs !! i = Some b -> exists rest, concat bs ≡ₚ b ++ rest /\
    forall f, concat (alter f i bs) ≡ₚ f b ++ rest.
Proof.
  revert i. induction bs as [|b0 bs IH]; intros [|i] Hi; try done; cbn in Hi |- *.
  - injection Hi as ->. by exists (concat bs).
  - destruct (IH i Hi) as (rest & P & F). exists (b0 ++ rest). split; [|intros f; rewrite (F f)];
      rewrite ?P; rewrite !app_assoc; f_equiv; apply Permutation_app_comm.
Qed.

Lemma alter_bucket f (bs : list (list Event)) i j b :
  alter f i bs !! j = Some b -> (j = i /\ exists b0, bs !! i = Some b0 /\ b = f b0) \/ (j <> i /\ bs !! j = Some b).
Proof.
  destruct (decide (j = i)) as [->|N].
  - rewrite list_lookup_alter_eq. intros (b0 & Hb & ->)%fmap_Some. left. eauto.
  - rewrite list_lookup_alter_ne by done. by right.
Qed.

Definition events c : list Event := concat c.(m_buckets).

Lemma elem_of_events c x : x ∈ events c <-> exists i b, c.(m_buckets) !! i = Some b /\ x ∈ b.
Proof.
  unfold events. rewrite list_elem_of_In, in_concat. setoid_rewrite <- list_elem_of_In. split.
  - intros (b & [i Hi]%list_elem_of_lookup & Hx). by exists i, b.
  - intros (i & b & Hi & Hx). exists b. split; [by eapply list_elem_of_lookup_2|done].
Qed.

(** ** The invariant *)

(** Every event is in the bucket of its time, and every bucket is sorted. *)
Record buckets_ok c : Prop := {
  bo_n : 1 <= c.(m_nBuckets) <= 65536;
  bo_width : 1 <= c.(m_width) < 2 ^ 64;
  bo_length : length c.(m_buckets) = Z.to_nat c.(m_nBuckets);
  bo_sorted : forall i b, c.(m_buckets) !! i = Some b -> sorted_bucket c.(m_reverse) b;
  bo_home : forall i b x, c.(m_buckets) !! i = Some b -> x ∈ b -> Z.to_nat (Hash c x.(key).(m_ts)) = i;
  bo_uids : NoDup (uids (events c))
}.

(** The cursor stands in the year and the bucket of m_lastPrio, and no event is before it. *)
Record cursor_ok c : Prop := {
  cu_prio : 0 <= c.(m_lastPrio);
  cu_bucket : c.(m_lastBucket) = Hash c c.(m_lastPrio);
  cu_top : c.(m_bucketTop) = top_of c.(m_lastPrio) c.(m_width);
  cu_first : Forall (fun x => c.(m_lastPrio) <= x.(key).(m_ts) < 2 ^ 63) (events c)
}.

(** The fields that only resizing changes *)
Definition same_shape c c' : Prop :=
  c'.(m_nBuckets) = c.(m_nBuckets) /\ c'.(m_width) = c.(m_width) /\ c'.(m_qSize) = c.(m_qSize) /\
  c'.(m_reverse) = c.(m_reverse).

#[export] Instance same_shape_refl : Reflexive same_shape.
Proof. by intros c. Qed.
#[export] Instance same_shape_trans : Transitive same_shape.
Proof. intros c1 c2 c3 (?&?&?&?) (?&?&?&?). split_and!; congruence. Qed.

Lemma Hash_range c ts : buckets_ok c -> 0 <= Hash c ts < c.(m_nBuckets).
Proof. intros B. apply Z.mod_pos_bound. pose proof (bo_n _ B). lia. Qed.

Lemma Hash_bucket c ts : buckets_ok c -> exists b, c.(m_buckets) !! Z.to_nat (Hash c ts) = Some b.
Proof.
  intros B. apply lookup_lt_is_Some. rewrite (bo_length _ B). pose proof (Hash_range c ts B). lia.
Qed.

(** ** Insertion *)

Lemma DoInsert_ok c ev :
  buckets_ok c -> ev.(key).(m_uid) ∉ uids (events c) ->
  buckets_ok (DoInsert ev c) /\ events (DoInsert ev c) ≡ₚ ev :: events c.
Proof.
  intros B N. destruct (Hash_bucket c ev.(key).(m_ts) B) as [b Hb].
  destruct (concat_alter _ _ _ Hb) as (rest & P & F).
  assert (events (DoInsert ev c) ≡ₚ ev :: events c) as E.
  { unfold events, DoInsert. cbn. by rewrite F, insert_bucket_perm, P. }
  split; [|exact E]. split; try apply B.
  - cbn. rewrite length_alter. apply B.
  - intros i b' Hi. cbn in *. apply alter_bucket in Hi as [[-> (b0 & Hi & ->)]|[_ Hi]];
      [|by eapply bo_sorted].
    apply insert_bucket_sorted; [by eapply bo_sorted|]. intros U. apply N.
    apply list_elem_of_fmap in U as (x & Ex & Hx). rewrite Ex. apply uids_elem.
    apply elem_of_events. by exists (Z.to_nat (Hash c (m_ts (key ev)))), b0.
  - intros i b' x Hi Hx. change (Hash (DoInsert ev c)) with (Hash c). cbn in Hi.
    apply alter_bucket in Hi as [[-> (b0 & Hi & ->)]|[_ Hi]]; [|by eapply bo_home].
    rewrite insert_bucket_perm in Hx. apply elem_of_cons in Hx as [->|Hx]; [done|]. by eapply bo_home.
  - rewrite (uids_perm _ _ E). apply NoDup_cons. split; [done|apply B].
Qed.

Definition inserts (es : list Event) c : CalendarScheduler := foldl (fun c ev => DoInsert ev c) c es.

Lemma inserts_frame es c :
  same_shape c (inserts es c) /\ (inserts es c).(m_lastPrio) = c.(m_lastPrio) /\
  (inserts es c).(m_lastBucket) = c.(m_lastBucket) /\ (inserts es c).(m_bucketTop) = c.(m_bucketTop).
Proof.
  revert c. induction es as [|ev es IH]; intros c; cbn; [done|]. exact (IH (DoInsert ev c)).
Qed.

Lemma inserts_ok es c :
  buckets_ok c -> NoDup (uids (es ++ events c)) ->
  buckets_ok (inserts es c) /\ events (inserts es c) ≡ₚ es ++ events c.
Proof.
  revert c. induction es as [|ev es IH]; intros c B N; cbn; [done|].
  cbn in N. apply NoDup_cons in N as [N1 N2].
  assert (m_uid (key ev) ∉ uids (events c)) as N3.
  { intros U. apply N1. unfold uids. rewrite fmap_app. apply elem_of_app. by right. }
  destruct (DoInsert_ok c ev B N3) as [B1 P1]. destruct (IH (DoInsert ev c) B1) as [B2 P2].
  { rewrite (uids_perm _ (ev :: es ++ events c)); [by apply NoDup_cons|]. rewrite P1. by rewrite Permutation_middle. }
  split; [done|]. unfold inserts in *. rewrite P2, P1. by rewrite Permutation_middle.
Qed.

(** ** The scan of a year finds the least event *)

Lemma u64_add_l x y : u64 (u64 x + y) = u64 (x + y).
Proof. unfold wrap. apply Zplus_mod_idemp_l. Qed.

Lemma mod_ne a k n : 0 < k < n -> (a + k) mod n <> a mod n.
Proof.
  intros Hk E. assert ((a + k - a) mod n = 0) as D.
  { rewrite Zminus_mod, E, Z.sub_diag. apply Z.mod_0_l. lia. }
  replace (a + k - a) with k in D by lia. rewrite Z.mod_small in D; lia.
Qed.

Section scan.
Context (c : CalendarScheduler) (e : Event) (l : list Event).
Context (B : buckets_ok c) (C : cursor_ok c) (P : events c ≡ₚ e :: l) (A : agenda (e :: l)).

Let n := c.(m_nBuckets).
Let w := c.(m_width).
Let q0 := c.(m_lastPrio) / w.
Let hash (x : Event) := Hash c x.(key).(m_ts).

Local Lemma n_pos : 1 <= n.
Proof. apply (bo_n _ B). Qed.
Local Lemma w_pos : 1 <= w < 2 ^ 64.
Proof. apply (bo_width _ B). Qed.

Lemma e_elem : e ∈ events c.
Proof. rewrite P. by left. Qed.

Lemma e_time : c.(m_lastPrio) <= e.(key).(m_ts) < 2 ^ 63.
Proof. pose proof (cu_first _ C) as F. rewrite Forall_forall in F. apply F, e_elem. Qed.

Lemma e_least x : x ∈ events c -> x = e \/ ev_lt e x = true.
Proof.
  rewrite P. intros [->|Hx]%elem_of_cons; [by left|right].
  apply agenda_cons in A as [F _]. rewrite Forall_forall in F. by apply F.
Qed.

Lemma e_least_time x : x ∈ events c -> e.(key).(m_ts) <= x.(key).(m_ts).
Proof. intros [->|L%ev_lt_spec]%e_least; lia. Qed.

Lemma e_year : q0 <= e.(key).(m_ts) / w /\ (e.(key).(m_ts) / w) * w <= e.(key).(m_ts) < (e.(key).(m_ts) / w + 1) * w.
Proof.
  pose proof e_time. pose proof w_pos. split; [apply Z.div_le_mono; lia|].
  pose proof (Z.div_mod (m_ts (key e)) w ltac:(lia)). pose proof (Z.mod_pos_bound (m_ts (key e)) w ltac:(lia)). nia.
Qed.

(** The top of the year of the least event does not overflow. *)
Lemma e_top : (e.(key).(m_ts) / w + 1) * w < 2 ^ 64.
Proof.
  pose proof e_time. pose proof w_pos. destruct e_year as [_ Y]. pose proof (cu_prio _ C).
  pose proof (Z.div_pos (m_ts (key e)) w ltac:(lia) ltac:(lia)).
  destruct (decide (m_ts (key e) / w = 0)) as [->|N]; [lia|]. nia.
Qed.

Lemma e_top_of : top_of e.(key).(m_ts) w = (e.(key).(m_ts) / w + 1) * w.
Proof.
  pose proof e_top as T. pose proof w_pos. pose proof e_time. pose proof (cu_prio _ C).
  pose proof (Z.div_pos (m_ts (key e)) w ltac:(lia) ltac:(lia)) as D. unfold top_of.
  revert T D. generalize (m_ts (key e) / w). intros q T D.
  assert (q + 1 <= (q + 1) * w) by nia. rewrite (wrap_small 64 (q + 1)) by (unfold fits; lia).
  apply wrap_small. unfold fits. lia.
Qed.

(** In a bucket: its elements, and the least of it *)
Lemma bucket_elem i b x : c.(m_buckets) !! Z.to_nat i = Some b -> 0 <= i -> x ∈ b -> x ∈ events c /\ hash x = i.
Proof.
  intros Hb Hi Hx. split; [apply elem_of_events; by exists (Z.to_nat i), b|].
  pose proof (bo_home _ B _ _ _ Hb Hx). pose proof (Hash_range c x.(key).(m_ts) B). unfold hash. lia.
Qed.

Lemma e_in_bucket b : c.(m_buckets) !! Z.to_nat (hash e) = Some b -> e ∈ b.
Proof.
  intros Hb. pose proof e_elem as (i & b' & Hi & Hx)%elem_of_events.
  pose proof (bo_home _ B _ _ _ Hi Hx) as <-. unfold hash in Hb. rewrite Hi in Hb. by injection Hb as <-.
Qed.

Lemma next_is_e b h :
  c.(m_buckets) !! Z.to_nat (hash e) = Some b -> NextEvent c.(m_reverse) b = Some h -> h = e.
Proof.
  intros Hb Hh. pose proof (e_in_bucket b Hb) as He. pose proof (Hash_range c e.(key).(m_ts) B) as R.
  destruct (NextEvent_least _ _ _ (bo_sorted _ B _ _ Hb) Hh) as [Hin F].
  rewrite Forall_forall in F. specialize (F e He).
  apply (bucket_elem (hash e)) in Hin as [Hin _]; [|done|unfold hash; lia].
  destruct (e_least h Hin) as [->|L]; [done|congruence].
Qed.

(** The buckets visited before step [k] hold no event of the years passed. *)
Definition passed (k : Z) : Prop :=
  forall x j, x ∈ events c -> 0 <= j < k -> hash x = (q0 + j) mod n -> (q0 + j + 1) * w <= x.(key).(m_ts).

Definition visited (k : Z) : Prop := exists j, 0 <= j < k /\ hash e = (q0 + j) mod n.

Lemma passed_before_e k : passed k -> 0 <= k -> k <= e.(key).(m_ts) / w - q0.
Proof.
  intros Pk Hk. destruct (Z.le_gt_cases k (m_ts (key e) / w - q0)) as [|Gt]; [done|]. exfalso.
  destruct e_year as [Y1 Y2].
  specialize (Pk e (m_ts (key e) / w - q0) e_elem ltac:(lia)).
  replace (q0 + (m_ts (key e) / w - q0)) with (m_ts (key e) / w) in Pk by lia.
  specialize (Pk eq_refl). lia.
Qed.

(** What the scan has found after [k] buckets *)
Definition best {T} (reading : Z -> Event -> T) (k : Z) (minKey : EventKey) (min : T) : Prop :=
  (visited k /\ minKey = e.(key) /\ min = reading (hash e) e) \/
  (~ visited k /\ key_lt e.(key) minKey = true).

Lemma visited_step k : 0 <= k -> visited (k + 1) <-> visited k \/ hash e = (q0 + k) mod n.
Proof.
  intros Hk. unfold visited. split.
  - intros (j & Hj & E). destruct (decide (j = k)) as [->|]; [by right|]. left. exists j. split; [lia|done].
  - intros [(j & Hj & E)|E]; [exists j|exists k]; (split; [lia|done]).
Qed.

Lemma visited_all : visited n.
Proof.
  pose proof n_pos. exists ((m_ts (key e) / w - q0) mod n). split; [apply Z.mod_pos_bound; lia|].
  rewrite Zplus_mod_idemp_r. unfold hash, Hash. fold w n. f_equal. lia.
Qed.

Lemma passed_step k b :
  passed k -> 0 <= k -> c.(m_buckets) !! Z.to_nat ((q0 + k) mod n) = Some b ->
  Forall (fun x => (q0 + k + 1) * w <= x.(key).(m_ts)) b -> passed (k + 1).
Proof.
  intros Pk Hk Hb F x j Hx Hj E. destruct (decide (j = k)) as [->|]; [|apply Pk; [done|lia|done]].
  pose proof (proj1 (elem_of_events c x) Hx) as (i & b' & Hi & Hx').
  pose proof (bo_home _ B _ _ _ Hi Hx') as Ei. unfold hash in E. rewrite E in Ei. subst i.
  rewrite Hb in Hi. injection Hi as <-. rewrite Forall_forall in F. by apply F.
Qed.

(** An event that is not the least one leaves the best as it was. *)
Lemma best_step {T} (reading : Z -> Event -> T) k b minKey (min : T) :
  0 <= k -> c.(m_buckets) !! Z.to_nat ((q0 + k) mod n) = Some b -> best reading k minKey min ->
  match NextEvent c.(m_reverse) b with
  | None => best reading (k + 1) minKey min
  | Some h =>
      if key_lt h.(key) minKey then best reading (k + 1) h.(key) (reading ((q0 + k) mod n) h)
      else best reading (k + 1) minKey min
  end.
Proof.
  intros Hk Hb Bk. pose proof (Z.mod_pos_bound (q0 + k) n ltac:(pose proof n_pos; lia)) as Ri.
  destruct (NextEvent (m_reverse c) b) as [h|] eqn:Hh.
  - destruct (NextEvent_least _ _ _ (bo_sorted _ B _ _ Hb) Hh) as [Hin _].
    destruct (bucket_elem _ _ _ Hb (proj1 Ri) Hin) as [He Eh].
    destruct (decide (hash e = (q0 + k) mod n)) as [E|N].
    + assert (h = e) as -> by (apply (next_is_e b); [by rewrite E|done]).
      assert (visited (k + 1)) as V by (apply visited_step; auto).
      destruct Bk as [(_ & -> & ->)|[_ ->]]; [|left; by rewrite E].
      change (key_lt (key e) (key e)) with (ev_lt e e). rewrite ev_lt_irrefl. by left.
    + assert (h <> e) as Ne by (intros ->; done).
      destruct (e_least h He) as [->|L]; [done|].
      assert (visited (k + 1) <-> visited k) as V by (rewrite visited_step by done; tauto).
      destruct Bk as [(Vk & -> & ->)|[NV Kl]].
      * change (key_lt (key h) (key e)) with (ev_lt h e). rewrite (ev_lt_asym e h L).
        left. by split; [apply V|].
      * destruct (key_lt (key h) minKey); right; by split; [intros ?%V|].
  - apply NextEvent_None in Hh as ->.
    assert (visited (k + 1) <-> visited k) as V.
    { rewrite visited_step by done. split; [|by left]. intros [|E]; [done|].
      rewrite <- E in Hb. by apply e_in_bucket, elem_of_nil in Hb. }
    destruct Bk as [[Vk Bk]|[NV Kl]]; [left; by split; [apply V|]|right; by split; [intros ?%V|]].
Qed.

(** What the scan may answer *)
Definition found {T} (reading : Z -> Event -> T) (r : res ((Z * Z * Event) + (EventKey * T))) : Prop :=
  r = Ok (inl (hash e, top_of e.(key).(m_ts) w, e)) \/ r = Ok (inr (e.(key), reading (hash e) e)).

Lemma found_now k b h :
  passed k -> 0 <= k -> c.(m_buckets) !! Z.to_nat ((q0 + k) mod n) = Some b ->
  NextEvent c.(m_reverse) b = Some h -> h.(key).(m_ts) < (q0 + k + 1) * w ->
  h = e /\ (q0 + k) mod n = hash e /\ (q0 + k + 1) * w = (e.(key).(m_ts) / w + 1) * w.
Proof.
  intros Pk Hk Hb Hh Lt. pose proof (Z.mod_pos_bound (q0 + k) n ltac:(pose proof n_pos; lia)) as Ri.
  destruct (NextEvent_least _ _ _ (bo_sorted _ B _ _ Hb) Hh) as [Hin _].
  destruct (bucket_elem _ _ _ Hb (proj1 Ri) Hin) as [He Eh].
  pose proof (e_least_time h He). pose proof (passed_before_e k Pk Hk). destruct e_year as [Y1 Y2].
  pose proof w_pos. assert (m_ts (key e) / w = q0 + k) as E by nia.
  assert (hash e = (q0 + k) mod n) as Ei by (unfold hash, Hash; fold w n; by rewrite E).
  rewrite <- Ei in Hb. rewrite E, Ei. split; [by eapply next_is_e|done].
Qed.

Lemma top_here k : passed k -> 0 <= k -> u64 ((q0 + 1 + k) * w) = (q0 + k + 1) * w.
Proof.
  intros Pk Hk. pose proof (passed_before_e k Pk Hk). pose proof e_top. pose proof w_pos.
  pose proof (cu_prio _ C). assert (0 <= q0) by (apply Z.div_pos; lia).
  rewrite wrap_small; [lia|]. unfold fits. nia.
Qed.

Lemma scan_ok {T} (reading : Z -> Event -> T) fuel : forall k minKey (min : T),
  0 <= k < n -> Z.of_nat fuel = n - k -> passed k -> best reading k minKey min ->
  found reading (scan reading fuel c ((q0 + k) mod n) (u64 ((q0 + 1 + k) * w)) minKey min).
Proof.
  induction fuel as [|fuel IH]; intros k minKey min Hk Hf Pk Bk; [lia|]. cbn [scan].
  assert (exists b, c.(m_buckets) !! Z.to_nat ((q0 + k) mod n) = Some b) as [b Hb].
  { apply lookup_lt_is_Some. rewrite (bo_length _ B). fold n.
    pose proof (Z.mod_pos_bound (q0 + k) n ltac:(lia)). lia. }
  rewrite Hb, u64_add_l, Zplus_mod_idemp_l. fold n w.
  set (rest := fun minKey min => if (q0 + k + 1) mod n =? m_lastBucket c then Ok (inr (minKey, min))
    else scan reading fuel c ((q0 + k + 1) mod n) (u64 ((q0 + 1 + k) * w + w)) minKey min).
  assert (forall minKey min, passed (k + 1) -> best reading (k + 1) minKey min -> found reading (rest minKey min)) as Rest.
  { intros mk m Pk' Bk'. unfold rest. rewrite (cu_bucket _ C). unfold Hash. fold n w q0.
    destruct (decide (k + 1 = n)) as [En|Nn].
    - replace (q0 + k + 1) with (q0 + 1 * n) by lia. rewrite Z.mod_add by lia. rewrite Z.eqb_refl.
      right. rewrite En in Bk'. destruct Bk' as [(_ & -> & ->)|[NV _]]; [done|by destruct NV; apply visited_all].
    - rewrite (proj2 (Z.eqb_neq _ _)) by (rewrite <- Z.add_assoc; apply mod_ne; lia).
      replace (q0 + k + 1) with (q0 + (k + 1)) by lia.
      replace ((q0 + 1 + k) * w + w) with ((q0 + 1 + (k + 1)) * w) by lia. apply IH; [lia|lia|done|done]. }
  pose proof (best_step reading k b minKey min (proj1 Hk) Hb Bk) as St. rewrite top_here by (done || lia).
  destruct (NextEvent (m_reverse c) b) as [h|] eqn:Hh.
  - destruct (Z.ltb_spec (m_ts (key h)) ((q0 + k + 1) * w)) as [Lt|Ge].
    + destruct (found_now k b h Pk (proj1 Hk) Hb Hh Lt) as (-> & -> & ->). left. do 4 f_equal.
      symmetry. apply e_top_of.
    + assert (passed (k + 1)) as Pk'.
      { apply (passed_step k b); [done|lia|done|].
        destruct (NextEvent_least _ _ _ (bo_sorted _ B _ _ Hb) Hh) as [_ F].
        eapply Forall_impl; [exact F|]. intros x Hx%ev_lt_false. lia. }
      destruct (key_lt (key h) minKey); by apply Rest.
  - apply NextEvent_None in Hh as ->. apply Rest; [|done].
    apply (passed_step k []); [done|lia|done|constructor].
Qed.

Lemma scan_year_ok {T} (reading : Z -> Event -> T) minKey (min : T) :
  key_lt e.(key) minKey = true -> found reading (scan_year reading minKey min c).
Proof.
  intros K. pose proof n_pos. pose proof (scan_ok reading (Z.to_nat n) 0 minKey min) as S.
  unfold scan_year. rewrite (cu_bucket _ C), (cu_top _ C). unfold Hash. fold n w q0.
  assert (top_of c.(m_lastPrio) w = u64 ((q0 + 1 + 0) * w)) as ->.
  { unfold top_of. fold q0. unfold wrap. rewrite Z.mul_mod_idemp_l by lia. do 2 f_equal. lia. }
  rewrite Z.add_0_r in S. apply S; [lia|lia| |].
  - intros x j _ Hj. lia.
  - right. split; [|done]. intros (j & Hj & _). lia.
Qed.

End scan.

(** ** Removal *)

Lemma Pop_buckets c i b h :
  buckets_ok c -> c.(m_buckets) !! i = Some b -> NextEvent c.(m_reverse) b = Some h ->
  let c' := set_buckets (alter (Pop c.(m_reverse)) i c.(m_buckets)) c in
  buckets_ok c' /\ events c ≡ₚ h :: events c'.
Proof.
  intros B Hb Hh c'. destruct (concat_alter _ _ _ Hb) as (rest & P & F).
  destruct (Pop_ok _ _ _ Hh) as [Pb _].
  assert (events c ≡ₚ h :: events c') as E.
  { unfold events, c'. cbn. by rewrite F, P, Pb at 1. }
  split; [|exact E]. split; try apply B.
  - cbn. rewrite length_alter. apply B.
  - intros j b' Hj. cbn in *. apply alter_bucket in Hj as [[-> (b0 & Hj & ->)]|[_ Hj]]; [|by eapply bo_sorted].
    rewrite Hb in Hj. injection Hj as <-. apply (Pop_ok _ _ _ Hh). by eapply bo_sorted.
  - intros j b' x Hj Hx. change (Hash c') with (Hash c). cbn in Hj.
    apply alter_bucket in Hj as [[-> (b0 & Hj & ->)]|[_ Hj]]; [|by eapply bo_home].
    rewrite Hb in Hj. injection Hj as <-. eapply bo_home; [done|exact Hb|]. rewrite Pb. by right.
  - pose proof (bo_uids _ B) as N. rewrite (uids_perm _ _ E) in N. by apply NoDup_cons in N as [_ N].
Qed.

Lemma set_cursor_buckets i top prio c : buckets_ok c -> buckets_ok (set_cursor i top prio c).
Proof. intros []. by split. Qed.

Lemma DoRemoveNext_ok c e l :
  buckets_ok c -> cursor_ok c -> IsEmpty c = false -> events c ≡ₚ e :: l -> agenda (e :: l) ->
  exists c', DoRemoveNext c = Ok (e, c') /\ buckets_ok c' /\ cursor_ok c' /\ events c' ≡ₚ l /\
    c'.(m_lastPrio) = e.(key).(m_ts) /\ same_shape c c'.
Proof.
  intros B C Em P A. pose proof (e_time c e l C P) as T. pose proof (cu_prio _ C).
  set (i := Hash c e.(key).(m_ts)). set (top := top_of e.(key).(m_ts) c.(m_width)).
  set (c1 := set_cursor i top e.(key).(m_ts) c).
  assert (DoRemoveNext c = take_from i c1) as ->.
  { unfold DoRemoveNext. rewrite Em. cbn [abort_if res_bind].
    destruct (scan_year_ok c e l B C P A (fun i _ => i) (mkKey UINT64_MAX 0 UINT32_MAX) (-1)) as [-> | ->];
      [|done|done].
    unfold key_lt, UINT64_MAX. cbn. rewrite (proj2 (Z.ltb_lt _ _)); [done|lia]. }
  pose proof (Hash_range c e.(key).(m_ts) B) as R. fold i in R.
  destruct (Hash_bucket c e.(key).(m_ts) B) as [b Hb]. fold i in Hb.
  destruct (NextEvent c.(m_reverse) b) as [h|] eqn:Hh.
  2:{ apply NextEvent_None in Hh as ->. by apply (e_in_bucket c e l B P), elem_of_nil in Hb. }
  assert (h = e) as -> by exact (next_is_e c e l B P A b h Hb Hh).
  destruct (Pop_buckets c1 (Z.to_nat i) b e (set_cursor_buckets _ _ _ c B) Hb Hh) as [B2 P2].
  unfold take_from. rewrite (proj2 (Z.ltb_ge i 0)) by lia. change (m_buckets c1) with (m_buckets c) at 1.
  rewrite Hb. change (m_reverse c1) with (m_reverse c) at 1. rewrite Hh.
  eexists. split; [reflexivity|]. change (events c1) with (events c) in P2. rewrite P in P2.
  apply Permutation_cons_inv in P2. split; [exact B2|]. split; [|done]. split; [cbn; lia|done|done|].
  apply Forall_forall. intros x Hx. assert (x ∈ events c) as Hx' by (rewrite P, P2; by right).
  pose proof (cu_first _ C) as F. rewrite Forall_forall in F. specialize (F x Hx').
  pose proof (e_least_time c e l P A x Hx'). cbn. lia.
Qed.

Lemma gather_ok k : forall c l,
  buckets_ok c -> cursor_ok c -> (k = 0%nat \/ IsEmpty c = false) -> events c ≡ₚ l -> agenda l -> (k <= length l)%nat ->
  exists c', gather k c = Ok (take k l, c') /\ buckets_ok c' /\ events c' ≡ₚ drop k l /\ same_shape c c'.
Proof.
  induction k as [|k IH]; intros c l B C Em P A Hk; cbn [gather]; [by exists c|].
  destruct l as [|e l]; [cbn in Hk; lia|]. destruct Em as [|Em]; [done|].
  destruct (DoRemoveNext_ok c e l B C Em P A) as (c1 & -> & B1 & C1 & P1 & _ & S1). cbn [res_bind fst snd].
  destruct (IH c1 l B1 C1) as (c2 & -> & B2 & P2 & S2);
    [right; unfold IsEmpty; by rewrite (proj1 (proj2 (proj2 S1)))|done|by apply agenda_cons in A as [_ A]|cbn in Hk; lia|].
  cbn [res_bind fst snd]. exists c2. split; [done|]. split; [done|]. split; [done|by etrans].
Qed.

(** ** Resizing *)

Lemma n_samples_range q : 2 <= q < 2 ^ 32 -> 2 <= n_samples q <= q.
Proof.
  intros Hq. unfold n_samples. pose proof (Z.div_pos q 10 ltac:(lia) ltac:(lia)).
  pose proof (Z.div_mod q 10 ltac:(lia)). pose proof (Z.mod_pos_bound q 10 ltac:(lia)).
  destruct (Z.leb_spec q 5).
  - destruct (Z.ltb_spec 25 q); lia.
  - rewrite wrap_small by (unfold fits; lia). destruct (Z.ltb_spec 25 (5 + q / 10)); lia.
Qed.

Lemma CalculateNewWidth_ok c l :
  buckets_ok c -> cursor_ok c -> events c ≡ₚ l -> agenda l -> c.(m_qSize) = Z.of_nat (length l) ->
  c.(m_qSize) < 2 ^ 32 ->
  exists width c', CalculateNewWidth c = Ok (width, c') /\ 1 <= width < 2 ^ 64 /\ buckets_ok c' /\
    cursor_ok c' /\ events c' ≡ₚ l /\ c'.(m_lastPrio) = c.(m_lastPrio) /\ same_shape c c'.
Proof.
  intros B C P A Sz Bd. unfold CalculateNewWidth. destruct (Z.ltb_spec (m_qSize c) 2) as [|G].
  { exists 1, c. split_and!; try done; lia. }
  pose proof (n_samples_range (m_qSize c) ltac:(lia)) as Ns. set (k := Z.to_nat (n_samples (m_qSize c))).
  destruct (gather_ok k c l B C) as (c1 & -> & B1 & P1 & S1);
    [right; unfold IsEmpty; by apply Z.eqb_neq; lia|done|done|unfold k; lia|].
  cbn [res_bind]. destruct (inserts_ok (take k l) c1 B1) as [B2 P2].
  { rewrite (uids_perm _ l); [apply A|]. by rewrite P1, take_drop. }
  destruct (inserts_frame (take k l) c1) as (S2 & _). fold (inserts (take k l) c1).
  rewrite P1, take_drop in P2. assert (same_shape c (inserts (take k l) c1)) as S by by etrans.
  eexists _, _. split; [reflexivity|]. split.
  { match goal with |- context [Z.max (u64 ?x) 1] => pose proof (wrap_fits 64 x ltac:(lia)) as F end.
    unfold fits in F. lia. }
  split; [by apply set_cursor_buckets|]. split; [|done].
  destruct S as (Sn & Sw & _). split; try apply C.
  - change (m_lastBucket c = Hash (inserts (take k l) c1) (m_lastPrio c)). unfold Hash. rewrite Sn, Sw. apply C.
  - change (m_bucketTop c = top_of (m_lastPrio c) (m_width (inserts (take k l) c1))). rewrite Sw. apply C.
  - change (events (set_cursor (m_lastBucket c) (m_bucketTop c) (m_lastPrio c) (inserts (take k l) c1)))
      with (events (inserts (take k l) c1)). pose proof (cu_first _ C) as F. rewrite P in F. by rewrite P2.
Qed.

Lemma Init_ok n width prio c :
  1 <= n <= 65536 -> 1 <= width < 2 ^ 64 ->
  buckets_ok (Init n width prio c) /\ events (Init n width prio c) = [].
Proof.
  intros Hn Hw. assert (events (Init n width prio c) = []) as E.
  { unfold events. cbn. by induction (Z.to_nat n). }
  split; [|exact E]. split; cbn; try done.
  - apply length_replicate.
  - intros i b [-> _]%lookup_replicate. constructor.
  - intros i b x [-> _]%lookup_replicate Hx. by apply elem_of_nil in Hx.
  - change (NoDup (uids (events (Init n width prio c)))). rewrite E. constructor.
Qed.

(** A resized queue holds the same events. *)
Definition resized c c' : Prop :=
  buckets_ok c' /\ cursor_ok c' /\ events c' ≡ₚ events c /\ c'.(m_lastPrio) = c.(m_lastPrio) /\
  c'.(m_qSize) = c.(m_qSize).

Lemma DoResize_ok n width c :
  buckets_ok c -> cursor_ok c -> 1 <= n <= 65536 -> 1 <= width < 2 ^ 64 -> resized c (DoResize n width c).
Proof.
  intros B C Hn Hw. unfold DoResize. fold (inserts (concat c.(m_buckets)) (Init n width c.(m_lastPrio) c)).
  destruct (Init_ok n width c.(m_lastPrio) c Hn Hw) as [B0 E0]. set (c0 := Init n width (m_lastPrio c) c) in *.
  destruct (inserts_ok (concat c.(m_buckets)) c0 B0) as [B1 P1].
  { rewrite E0, app_nil_r. apply B. }
  rewrite E0, app_nil_r in P1.
  destruct (inserts_frame (concat c.(m_buckets)) c0) as ((Sn & Sw & Sq & _) & Lp & Lb & Lt).
  split; [done|]. split; [|done]. split.
  - rewrite Lp. apply C.
  - rewrite Lb, Lp. unfold Hash. by rewrite Sn, Sw.
  - rewrite Lt, Lp, Sw. done.
  - rewrite Lp, P1. apply C.
Qed.

Lemma Resize_ok n c l :
  buckets_ok c -> cursor_ok c -> events c ≡ₚ l -> agenda l -> c.(m_qSize) = Z.of_nat (length l) ->
  c.(m_qSize) < 2 ^ 32 -> 1 <= n <= 65536 ->
  exists c', Resize n c = Ok c' /\ resized c c'.
Proof.
  intros B C P A Sz Bd Hn. unfold Resize.
  destruct (CalculateNewWidth_ok c l B C P A Sz Bd) as (w & c1 & -> & Hw & B1 & C1 & P1 & L1 & S1).
  cbn [res_bind fst snd]. exists (DoResize n w c1). split; [done|].
  destruct (DoResize_ok n w c1 B1 C1 Hn Hw) as (B2 & C2 & P2 & L2 & Q2).
  split; [done|]. split; [done|]. split; [by rewrite P2, P1, P|]. split; [congruence|].
  rewrite Q2. apply S1.
Qed.

(** ** The contract *)

(** The queue holds the agenda [l], and its last event was not later than [t]. *)
Record calendar_repr c (t : Z) (l : list Event) : Prop := {
  cr_buckets : buckets_ok c;
  cr_cursor : cursor_ok c;
  cr_time : c.(m_lastPrio) <= t;
  cr_events : events c ≡ₚ l;
  cr_agenda : agenda l;
  cr_size : c.(m_qSize) = Z.of_nat (length l);
  cr_uids : Forall (fun x => 0 < x.(key).(m_uid) < 2 ^ 32) l
}.

(** There are fewer events than uids. *)
Lemma agenda_length l : agenda l -> Forall (fun x => 0 < x.(key).(m_uid) < 2 ^ 32) l -> Z.of_nat (length l) < 2 ^ 32.
Proof.
  intros [_ N] F. assert (uids l ⊆+ seqZ 1 (2 ^ 32 - 1)) as S.
  { apply NoDup_submseteq; [done|]. intros u (x & -> & Hx)%list_elem_of_fmap. apply elem_of_seqZ.
    rewrite Forall_forall in F. specialize (F x Hx). lia. }
  apply submseteq_length in S. unfold uids in S. rewrite length_fmap, length_seqZ in S. lia.
Qed.

Lemma repr_resized c c' t l : calendar_repr c t l -> resized c c' -> calendar_repr c' t l.
Proof.
  intros [] (B & C & P & L & Q). split; try done; [lia|by rewrite P|congruence].
Qed.

Lemma ResizeUp_ok c t l : calendar_repr c t l -> exists c', ResizeUp c = Ok c' /\ calendar_repr c' t l.
Proof.
  intros R. pose proof (agenda_length l (cr_agenda _ _ _ R) (cr_uids _ _ _ R)) as Ln.
  pose proof (bo_n _ (cr_buckets _ _ _ R)) as Hn. unfold ResizeUp.
  destruct (Z.ltb_spec (m_nBuckets c) 32768) as [G|]; [|rewrite andb_false_r; by exists c].
  rewrite (wrap_small 32 (m_nBuckets c * 2)) by (unfold fits; lia).
  destruct (_ <? _); cbn [andb]; [|by exists c].
  destruct (Resize_ok (m_nBuckets c * 2) c l) as (c' & -> & Rs); try apply R; [by rewrite (cr_size _ _ _ R)|lia|].
  exists c'. split; [done|]. by eapply repr_resized.
Qed.

Lemma ResizeDown_ok c t l : calendar_repr c t l -> exists c', ResizeDown c = Ok c' /\ calendar_repr c' t l.
Proof.
  intros R. pose proof (agenda_length l (cr_agenda _ _ _ R) (cr_uids _ _ _ R)) as Ln.
  pose proof (bo_n _ (cr_buckets _ _ _ R)) as Hn. unfold ResizeDown.
  destruct (Z.ltb_spec (m_qSize c) (m_nBuckets c / 2)) as [G|]; [|by exists c].
  rewrite (cr_size _ _ _ R) in G. pose proof (Z.div_le_upper_bound (m_nBuckets c) 2 65536 ltac:(lia) ltac:(lia)).
  destruct (Resize_ok (m_nBuckets c / 2) c l) as (c' & -> & Rs); try apply R; [by rewrite (cr_size _ _ _ R)|lia|].
  exists c'. split; [done|]. by eapply repr_resized.
Qed.

Lemma calendar_IsEmpty c t l : calendar_repr c t l -> IsEmpty c = bool_decide (l = []).
Proof. intros R. unfold IsEmpty. rewrite (cr_size _ _ _ R). by destruct l. Qed.

Lemma calendar_empty r : calendar_repr (new_CalendarScheduler r) 0 [].
Proof.
  unfold new_CalendarScheduler. set (c := mkCal _ _ _ _ _ _ _ _).
  destruct (Init_ok 2 1 0 c) as [B E]; [lia|lia|].
  split; [exact B| |done|by rewrite E|split; constructor|done|constructor].
  split; [done|done|done|]. by rewrite E.
Qed.

Lemma set_qSize_buckets q c : buckets_ok c -> buckets_ok (set_qSize q c).
Proof. intros []. by split. Qed.
Lemma set_qSize_cursor q c : cursor_ok c -> cursor_ok (set_qSize q c).
Proof. intros []. by split. Qed.

Lemma calendar_Insert c t l ev :
  calendar_repr c t l -> ev.(key).(m_uid) ∉ uids l -> t <= ev.(key).(m_ts) < 2 ^ 63 ->
  0 < ev.(key).(m_uid) < 2 ^ 32 ->
  exists c', Insert ev c = Ok c' /\ calendar_repr c' t (spec_insert ev l).
Proof.
  intros R N T U. unfold Insert. apply ResizeUp_ok.
  assert (agenda (spec_insert ev l)) as A by (apply agenda_insert; [apply R|done]).
  assert (Forall (fun x => 0 < x.(key).(m_uid) < 2 ^ 32) (spec_insert ev l)) as Us.
  { rewrite spec_insert_perm. constructor; [done|apply R]. }
  pose proof (agenda_length _ A Us) as Ln. rewrite spec_insert_perm in Ln. cbn [length] in Ln.
  destruct (DoInsert_ok c ev (cr_buckets _ _ _ R)) as [B1 P1].
  { by rewrite (uids_perm _ _ (cr_events _ _ _ R)). }
  split; try done; [by apply set_qSize_buckets| |apply R| |].
  - destruct (cr_cursor _ _ _ R) as [C1 C2 C3 C4]. apply set_qSize_cursor. split; try done.
    rewrite P1. constructor; [|done]. cbn. pose proof (cr_time _ _ _ R). lia.
  - change (events (set_qSize _ (DoInsert ev c))) with (events (DoInsert ev c)).
    by rewrite P1, spec_insert_perm, (cr_events _ _ _ R).
  - cbn. rewrite (cr_size _ _ _ R), spec_insert_perm. cbn [length].
    rewrite wrap_small by (unfold fits; lia). lia.
Qed.

Lemma calendar_PeekNext c t e l : calendar_repr c t (e :: l) -> PeekNext c = Ok e.
Proof.
  intros R. unfold PeekNext. rewrite (calendar_IsEmpty _ _ _ R). cbn [abort_if res_bind bool_decide].
  destruct (scan_year_ok c e l (cr_buckets _ _ _ R) (cr_cursor _ _ _ R) (cr_events _ _ _ R) (cr_agenda _ _ _ R)
    (fun _ next => next) (mkKey UINT64_MAX UINT32_MAX 0) (mkEvent 0 (mkKey UINT64_MAX UINT32_MAX 0)))
    as [E|E].
  - pose proof (e_time c e l (cr_cursor _ _ _ R) (cr_events _ _ _ R)) as T.
    unfold key_lt, UINT64_MAX. cbn. rewrite (proj2 (Z.ltb_lt _ _)); [done|lia].
  - rewrite bool_decide_false by done. cbn [abort_if res_bind]. cbn [key]. by rewrite E.
  - rewrite bool_decide_false by done. cbn [abort_if res_bind]. cbn [key]. by rewrite E.
Qed.

Lemma calendar_RemoveNext c t e l :
  calendar_repr c t (e :: l) ->
  exists c', RemoveNext c = Ok (e, c') /\ calendar_repr c' e.(key).(m_ts) l.
Proof.
  intros R. pose proof (calendar_IsEmpty _ _ _ R) as Em. rewrite bool_decide_false in Em by done.
  destruct (DoRemoveNext_ok c e l (cr_buckets _ _ _ R) (cr_cursor _ _ _ R) Em (cr_events _ _ _ R) (cr_agenda _ _ _ R))
    as (c1 & E & B1 & C1 & P1 & L1 & S1).
  pose proof (cr_agenda _ _ _ R) as A. apply agenda_cons in A as [_ A].
  pose proof (cr_uids _ _ _ R) as U. pose proof (agenda_length _ (cr_agenda _ _ _ R) U) as Ln.
  apply Forall_cons in U as [_ U]. cbn [length] in Ln.
  destruct (ResizeDown_ok (set_qSize (u32 (c1.(m_qSize) - 1)) c1) e.(key).(m_ts) l) as (c2 & E2 & R2).
  { split; try done; [by apply set_qSize_buckets|by apply set_qSize_cursor|cbn; lia|].
    cbn. rewrite (proj1 (proj2 (proj2 S1))), (cr_size _ _ _ R). cbn [length].
    rewrite wrap_small by (unfold fits; lia). lia. }
  unfold RemoveNext. rewrite Em. cbn [abort_if res_bind]. rewrite E. cbn [res_bind fst snd].
  rewrite E2. cbn [res_bind]. by exists c2.
Qed.

(** Removing by uid takes the event out and keeps the order of the others. *)
Lemma remove_bucket ev b :
  NoDup (uids b) -> ev ∈ b ->
  exists b', ListScheduler.Remove ev b = Ok b' /\ b ≡ₚ ev :: b' /\ sublist b' b.
Proof.
  induction b as [|x b IH]; intros N Hin; [by apply elem_of_nil in Hin|]. cbn in N.
  apply NoDup_cons in N as [N1 N2]. cbn [ListScheduler.Remove].
  destruct (Z.eqb_spec (m_uid (key x)) (m_uid (key ev))) as [E|E].
  - apply elem_of_cons in Hin as [<-|Hin]; [|exfalso; apply N1; rewrite E; by apply uids_elem].
    rewrite bool_decide_true by done. cbn. exists b. split; [done|]. split; [done|]. by constructor.
  - apply elem_of_cons in Hin as [->|Hin]; [done|]. destruct (IH N2 Hin) as (b' & -> & P & S).
    cbn [res_bind]. exists (x :: b'). split; [done|]. split; [by rewrite P; apply Permutation_swap|by constructor].
Qed.

Lemma sorted_sublist r b b' : sublist b' b -> sorted_bucket r b -> sorted_bucket r b'.
Proof.
  unfold sorted_bucket. induction 1 as [|x l k S IH|x l k S IH]; intros So; [constructor|..];
    apply StronglySorted_inv in So as [So F]; [|auto]. constructor; [auto|].
  apply Forall_forall. intros y Hy. rewrite Forall_forall in F. apply F.
  by eapply elem_of_sublist.
Qed.

Lemma bucket_uids c i b : buckets_ok c -> c.(m_buckets) !! i = Some b -> NoDup (uids b).
Proof.
  intros B Hb. destruct (concat_alter _ _ _ Hb) as (rest & P & _). pose proof (bo_uids _ B) as N.
  unfold events in N. rewrite (uids_perm _ _ P) in N. unfold uids in *. rewrite fmap_app in N.
  by apply NoDup_app in N as [N _].
Qed.

(** The bucket [b] without the event [ev] *)
Lemma remove_buckets c i b b' ev :
  buckets_ok c -> c.(m_buckets) !! i = Some b -> b ≡ₚ ev :: b' -> sublist b' b ->
  let c' := set_buckets (<[i := b']> c.(m_buckets)) c in
  buckets_ok c' /\ events c ≡ₚ ev :: events c'.
Proof.
  intros B Hb Pb S c'. destruct (concat_alter _ _ _ Hb) as (rest & P & F).
  assert (events c ≡ₚ ev :: events c') as E.
  { unfold events, c'. cbn. rewrite list_insert_alter, F, P. by rewrite Pb. }
  split; [|exact E]. split; try apply B.
  - cbn. rewrite length_insert. apply B.
  - intros j x Hj. cbn in *. rewrite list_insert_alter in Hj.
    apply alter_bucket in Hj as [[-> (b0 & Hj & ->)]|[_ Hj]]; [|by eapply bo_sorted].
    eapply sorted_sublist; [exact S|by eapply bo_sorted].
  - intros j x y Hj Hy. change (Hash c') with (Hash c). cbn in Hj. rewrite list_insert_alter in Hj.
    apply alter_bucket in Hj as [[-> (b0 & Hj & ->)]|[_ Hj]]; [|by eapply bo_home].
    eapply bo_home; [done|exact Hb|]. rewrite Pb. by right.
  - pose proof (bo_uids _ B) as N. rewrite (uids_perm _ _ E) in N. by apply NoDup_cons in N as [_ N].
Qed.

Lemma spec_remove_perm ev l k : agenda l -> l ≡ₚ ev :: k -> spec_remove ev l ≡ₚ k.
Proof.
  intros [_ N] P. unfold spec_remove. rewrite (uids_perm _ _ P) in N. cbn in N.
  apply NoDup_cons in N as [N _]. rewrite P, filter_cons_False by tauto.
  rewrite filter_all; [done|]. apply Forall_forall. intros x Hx E. apply N. rewrite <- E. by apply uids_elem.
Qed.

Lemma calendar_Remove c t l ev :
  calendar_repr c t l -> ev ∈ l ->
  exists c', Remove ev c = Ok c' /\ calendar_repr c' t (spec_remove ev l).
Proof.
  intros R Hev. pose proof (calendar_IsEmpty _ _ _ R) as Em.
  rewrite bool_decide_false in Em by (intros ->; by apply elem_of_nil in Hev).
  pose proof (cr_buckets _ _ _ R) as B. pose proof (cr_agenda _ _ _ R) as A.
  rewrite <- (cr_events _ _ _ R) in Hev. apply elem_of_events in Hev as (i & b & Hb & Hin).
  pose proof (bo_home _ B _ _ _ Hb Hin) as Ei.
  destruct (remove_bucket ev b (bucket_uids c i b B Hb) Hin) as (b' & Er & Pb & S).
  destruct (remove_buckets c i b b' ev B Hb Pb S) as [B1 P1].
  unfold Remove. rewrite Em. cbn [abort_if res_bind]. rewrite Ei, Hb, Er. cbn [res_bind].
  set (c1 := set_buckets (<[i := b']> c.(m_buckets)) c) in *. rewrite (cr_events _ _ _ R) in P1.
  apply ResizeDown_ok. pose proof (spec_remove_perm ev l (events c1) A P1) as P2.
  pose proof (agenda_length _ A (cr_uids _ _ _ R)) as Ln. rewrite P1 in Ln. cbn [length] in Ln.
  split; [by apply set_qSize_buckets| |apply R|by rewrite P2|by apply agenda_remove| |].
  - destruct (cr_cursor _ _ _ R) as [C1 C2 C3 C4]. apply set_qSize_cursor. split; try done.
    rewrite (cr_events _ _ _ R), P1 in C4. by apply Forall_cons in C4 as [_ C4].
  - cbn. rewrite (cr_size _ _ _ R), P2, P1. cbn [length]. rewrite wrap_small by (unfold fits; lia). lia.
  - pose proof (cr_uids _ _ _ R) as U. rewrite P1 in U. apply Forall_cons in U as [_ U]. by rewrite P2.
Qed.

Definition CalendarScheduler_laws (r : bool) :
  @EventQueueLaws CalendarScheduler (CalendarScheduler_queue r).
Proof.
  apply (Build_EventQueueLaws _ (CalendarScheduler_queue r) calendar_repr).
  - intros q t l R. apply R.
  - apply calendar_empty.
  - intros q t t' l [] T. split; try done. lia.
  - intros q t l ev. apply calendar_Insert.
  - apply calendar_IsEmpty.
  - apply calendar_PeekNext.
  - intros q t e l. apply calendar_RemoveNext.
Defined.

Lemma CalendarScheduler_remove_laws (r : bool) :
  @EventQueueRemoveLaws CalendarScheduler (CalendarScheduler_queue r) (CalendarScheduler_laws r).
Proof. split. intros q t l ev. apply calendar_Remove. Qed.
