(* ===== verification/Simulator.v ===== *)
(** The simulator kernel: src/core/model/default-simulator-impl.cc, event-id.cc and
    event-impl.cc.

    The kernel is written over the event-queue interface of EventQueue.v.  EventImpl
    objects live in a store indexed by their address, because an EventId shares its
    EventImpl with the queue: cancelling through the id is seen when the event is run. *)
From Stdlib Require Import ZArith Lia.
From stdpp Require Import base list gmap strings sorting.
From S2P Require Import Prelude OrdMap EventQueue.
Open Scope Z_scope.

(** class EventId; the EventImpl pointer is [None] when null. *)
Record EventId := mkEventId { m_eventImpl : option nat; id_ts : Z; id_context : Z; id_uid : Z }.

#[export] Instance EventId_eq_dec : EqDecision EventId.
Proof. solve_decision. Defined.

(** EventId::EventId () *)
Definition EventId_default : EventId := mkEventId None 0 0 0.

(** enum EventId::UID *)
Definition UID_INVALID : Z := 0.
Definition UID_NOW : Z := 1.
Definition UID_DESTROY : Z := 2.
Definition UID_RESERVED : Z := 3.
Definition UID_VALID : Z := 4.

Definition NO_CONTEXT : Z := 0xffffffff.

(** class EventImpl: what Notify () runs, and the cancel flag. *)
Record EventImpl (E : Type) := mkImpl { payload : E; m_cancel : bool }.
Arguments mkImpl {E} _ _.
Arguments payload {E} _.
Arguments m_cancel {E} _.

(** EventImpl::Cancel *)
Definition impl_Cancel {E} (i : EventImpl E) : EventImpl E := mkImpl i.(payload) true.

(** struct EventWithContext *)
Record EventWithContext := mkEwc { ewc_context : Z; ewc_timestamp : Z; ewc_event : nat }.

Record Sim (Q E : Type) := mkSim {
  m_events : Q;
  m_stop : bool;
  m_uid : Z;
  m_currentUid : Z;
  m_currentTs : Z;
  m_currentContext : Z;
  m_unscheduledEvents : Z;
  m_eventCount : Z;
  m_destroyEvents : list EventId;
  m_eventsWithContext : list EventWithContext;
  impls : gmap nat (EventImpl E);
  next_impl : nat
}.
Arguments mkSim {Q E}.
Arguments m_events {Q E}.
Arguments m_stop {Q E}.
Arguments m_uid {Q E}.
Arguments m_currentUid {Q E}.
Arguments m_currentTs {Q E}.
Arguments m_currentContext {Q E}.
Arguments m_unscheduledEvents {Q E}.
Arguments m_eventCount {Q E}.
Arguments m_destroyEvents {Q E}.
Arguments m_eventsWithContext {Q E}.
Arguments impls {Q E}.
Arguments next_impl {Q E}.

Section kernel.
Context {Q E : Type} `{EventQueue Q}.

(** DefaultSimulatorImpl::DefaultSimulatorImpl, then SetScheduler on an empty kernel *)
Definition DefaultSimulatorImpl : Sim Q E :=
  mkSim q_empty false UID_VALID UID_INVALID 0 NO_CONTEXT 0 0 [] [] ∅ 0.

(** A setter per field that the operations assign. *)
Definition set_events (q : Q) (s : Sim Q E) : Sim Q E :=
  mkSim q s.(m_stop) s.(m_uid) s.(m_currentUid) s.(m_currentTs) s.(m_currentContext)
    s.(m_unscheduledEvents) s.(m_eventCount) s.(m_destroyEvents) s.(m_eventsWithContext)
    s.(impls) s.(next_impl).

Definition set_impls (m : gmap nat (EventImpl E)) (s : Sim Q E) : Sim Q E :=
  mkSim s.(m_events) s.(m_stop) s.(m_uid) s.(m_currentUid) s.(m_currentTs) s.(m_currentContext)
    s.(m_unscheduledEvents) s.(m_eventCount) s.(m_destroyEvents) s.(m_eventsWithContext)
    m s.(next_impl).

Definition set_stop (b : bool) (s : Sim Q E) : Sim Q E :=
  mkSim s.(m_events) b s.(m_uid) s.(m_currentUid) s.(m_currentTs) s.(m_currentContext)
    s.(m_unscheduledEvents) s.(m_eventCount) s.(m_destroyEvents) s.(m_eventsWithContext)
    s.(impls) s.(next_impl).

Definition set_destroy (l : list EventId) (s : Sim Q E) : Sim Q E :=
  mkSim s.(m_events) s.(m_stop) s.(m_uid) s.(m_currentUid) s.(m_currentTs) s.(m_currentContext)
    s.(m_unscheduledEvents) s.(m_eventCount) l s.(m_eventsWithContext) s.(impls) s.(next_impl).

Definition set_withContext (l : list EventWithContext) (s : Sim Q E) : Sim Q E :=
  mkSim s.(m_events) s.(m_stop) s.(m_uid) s.(m_currentUid) s.(m_currentTs) s.(m_currentContext)
    s.(m_unscheduledEvents) s.(m_eventCount) s.(m_destroyEvents) l s.(impls) s.(next_impl).

(** MakeEvent: a new EventImpl that is not cancelled. *)
Definition MakeEvent (e : E) (s : Sim Q E) : nat * Sim Q E :=
  (s.(next_impl),
   mkSim s.(m_events) s.(m_stop) s.(m_uid) s.(m_currentUid) s.(m_currentTs) s.(m_currentContext)
     s.(m_unscheduledEvents) s.(m_eventCount) s.(m_destroyEvents) s.(m_eventsWithContext)
     (<[s.(next_impl) := mkImpl e false]> s.(impls)) (S s.(next_impl))).

Definition Now (s : Sim Q E) : Z := s.(m_currentTs).

Definition IsCancelled (p : nat) (s : Sim Q E) : bool :=
  match s.(impls) !! p with Some i => i.(m_cancel) | None => false end.

(** The statements Schedule, ScheduleWithContext and ProcessEventsWithContext share:
    take the next uid, count the event and insert it. *)
Definition insert_event (p : nat) (ts context : Z) (s : Sim Q E) : res (EventId * Sim Q E) :=
  let ev := mkEvent p (mkKey ts s.(m_uid) context) in
  let* q := Insert ev s.(m_events) in
  Ok (mkEventId (Some p) ts context s.(m_uid),
      mkSim q s.(m_stop) (u32 (s.(m_uid) + 1)) s.(m_currentUid) s.(m_currentTs)
        s.(m_currentContext) (s.(m_unscheduledEvents) + 1) s.(m_eventCount) s.(m_destroyEvents)
        s.(m_eventsWithContext) s.(impls) s.(next_impl)).

(** DefaultSimulatorImpl::Schedule (delay, MakeEvent (e)) *)
Definition Schedule (delay : Z) (e : E) (s : Sim Q E) : res (EventId * Sim Q E) :=
  let* _ := abort_if (delay <? 0) "DefaultSimulatorImpl::Schedule(): Negative delay" in
  let '(p, s) := MakeEvent e s in
  insert_event p (u64 (i64 (delay + i64 s.(m_currentTs)))) s.(m_currentContext) s.

Definition ScheduleNow (e : E) (s : Sim Q E) : res (EventId * Sim Q E) := Schedule 0 e s.

(** DefaultSimulatorImpl::ScheduleWithContext; [main] tells whether the caller is the main thread. *)
Definition ScheduleWithContext (main : bool) (context delay : Z) (e : E) (s : Sim Q E) : res (Sim Q E) :=
  let '(p, s) := MakeEvent e s in
  if main then
    let* r := insert_event p (u64 (i64 (delay + i64 s.(m_currentTs)))) context s in Ok r.2
  else Ok (set_withContext (s.(m_eventsWithContext) ++ [mkEwc context delay p]) s).

Definition ScheduleDestroy (e : E) (s : Sim Q E) : EventId * Sim Q E :=
  let '(p, s) := MakeEvent e s in
  let id := mkEventId (Some p) s.(m_currentTs) 0xffffffff UID_DESTROY in
  (id, mkSim s.(m_events) s.(m_stop) (u32 (s.(m_uid) + 1)) s.(m_currentUid) s.(m_currentTs)
         s.(m_currentContext) s.(m_unscheduledEvents) s.(m_eventCount)
         (s.(m_destroyEvents) ++ [id]) s.(m_eventsWithContext) s.(impls) s.(next_impl)).

Definition IsExpired (id : EventId) (s : Sim Q E) : bool :=
  match id.(m_eventImpl) with
  | None => true
  | Some p =>
      if id.(id_uid) =? UID_DESTROY then
        IsCancelled p s || negb (bool_decide (id ∈ s.(m_destroyEvents)))
      else
        (id.(id_ts) <? s.(m_currentTs)) ||
        ((id.(id_ts) =? s.(m_currentTs)) && (id.(id_uid) <=? s.(m_currentUid))) ||
        IsCancelled p s
  end.

(** EventId::IsPending *)
Definition IsPending (id : EventId) (s : Sim Q E) : bool := negb (IsExpired id s).

Definition GetDelayLeft (id : EventId) (s : Sim Q E) : Z :=
  if IsExpired id s then 0 else id.(id_ts) - s.(m_currentTs).

Definition cancel_impl (p : nat) (s : Sim Q E) : Sim Q E :=
  set_impls (alter impl_Cancel p s.(impls)) s.

(** DefaultSimulatorImpl::Cancel *)
Definition Cancel (id : EventId) (s : Sim Q E) : Sim Q E :=
  if negb (IsExpired id s) then
    match id.(m_eventImpl) with Some p => cancel_impl p s | None => s end
  else s.

Fixpoint remove_first (id : EventId) (l : list EventId) : list EventId :=
  match l with
  | [] => []
  | i :: l => if decide (i = id) then l else i :: remove_first id l
  end.

(** DefaultSimulatorImpl::Remove *)
Definition RemoveId (id : EventId) (s : Sim Q E) : res (Sim Q E) :=
  if id.(id_uid) =? UID_DESTROY then Ok (set_destroy (remove_first id s.(m_destroyEvents)) s)
  else if IsExpired id s then Ok s
  else
    match id.(m_eventImpl) with
    | None => Ok s
    | Some p =>
        let* q := Remove (mkEvent p (mkKey id.(id_ts) id.(id_uid) id.(id_context))) s.(m_events) in
        let s := cancel_impl p (set_events q s) in
        Ok (mkSim s.(m_events) s.(m_stop) s.(m_uid) s.(m_currentUid) s.(m_currentTs)
              s.(m_currentContext) (s.(m_unscheduledEvents) - 1) s.(m_eventCount)
              s.(m_destroyEvents) s.(m_eventsWithContext) s.(impls) s.(next_impl))
    end.

(** DefaultSimulatorImpl::ProcessEventsWithContext *)
Definition ProcessEventsWithContext (s : Sim Q E) : res (Sim Q E) :=
  res_fold (fun ev s =>
      let* r := insert_event ev.(ewc_event) (u64 (s.(m_currentTs) + ev.(ewc_timestamp)))
                  ev.(ewc_context) s in
      Ok r.2)
    s.(m_eventsWithContext) (set_withContext [] s).

Definition IsFinished (s : Sim Q E) : bool := IsEmpty s.(m_events) || s.(m_stop).

Definition Stop (s : Sim Q E) : Sim Q E := set_stop true s.

(** The first half of ProcessOneEvent: take the next event and move the clock to it. *)
Definition take_next (s : Sim Q E) : res (Event * Sim Q E) :=
  let* r := RemoveNext s.(m_events) in
  let '(next, q) := r in
  let k := next.(key) in
  let* _ := abort_if (k.(m_ts) <? s.(m_currentTs)) "NS_ASSERT(next.key.m_ts >= m_currentTs)" in
  Ok (next,
      mkSim q s.(m_stop) s.(m_uid) k.(EventQueue.m_uid) k.(m_ts) k.(m_context)
        (s.(m_unscheduledEvents) - 1) (u64 (s.(m_eventCount) + 1)) s.(m_destroyEvents)
        s.(m_eventsWithContext) s.(impls) s.(next_impl)).

Context {U : Type} (Notify : E -> Sim Q E * U -> res (Sim Q E * U)).

(** EventImpl::Invoke *)
Definition Invoke (p : nat) (w : Sim Q E * U) : res (Sim Q E * U) :=
  match w.1.(impls) !! p with
  | Some i => if negb i.(m_cancel) then Notify i.(payload) w else Ok w
  | None => Abort "dangling EventImpl"
  end.

Definition ProcessOneEvent (w : Sim Q E * U) : res (Sim Q E * U) :=
  let* r := take_next w.1 in
  let '(next, s) := r in
  let* w := Invoke next.(impl) (s, w.2) in
  let* s := ProcessEventsWithContext w.1 in
  Ok (s, w.2).

(** The loop of Run, bounded by [fuel] events; [None] when the bound is reached first. *)
Fixpoint Run_loop (fuel : nat) (w : Sim Q E * U) : res (option (Sim Q E * U)) :=
  if IsEmpty w.1.(m_events) || w.1.(m_stop) then Ok (Some w)
  else match fuel with
       | O => Ok None
       | S fuel => let* w := ProcessOneEvent w in Run_loop fuel w
       end.

(** DefaultSimulatorImpl::Run *)
Definition Run (fuel : nat) (w : Sim Q E * U) : res (option (Sim Q E * U)) :=
  let* s := ProcessEventsWithContext w.1 in
  let* r := Run_loop fuel (set_stop false s, w.2) in
  match r with
  | None => Ok None
  | Some w =>
      let* _ := abort_if (IsEmpty w.1.(m_events) && negb (w.1.(m_unscheduledEvents) =? 0))
                  "NS_ASSERT(!m_events->IsEmpty() || m_unscheduledEvents == 0)" in
      Ok (Some w)
  end.

(** DefaultSimulatorImpl::Destroy *)
Fixpoint Destroy_loop (fuel : nat) (w : Sim Q E * U) : res (Sim Q E * U) :=
  match fuel, w.1.(m_destroyEvents) with
  | _, [] => Ok w
  | O, _ => Abort "out of fuel"
  | S fuel, id :: rest =>
      let w := (set_destroy rest w.1, w.2) in
      let* w := match id.(m_eventImpl) with
                | Some p => if negb (IsCancelled p w.1) then Invoke p w else Ok w
                | None => Ok w
                end in
      Destroy_loop fuel w
  end.

End kernel.

(** The loop of SetScheduler *)
Fixpoint move_events {Q1 Q2} `{EventQueue Q1} `{EventQueue Q2} (fuel : nat) (m_events : Q1)
    (scheduler : Q2) : res Q2 :=
  if IsEmpty m_events then Ok scheduler else
  match fuel with
  | O => Abort "out of fuel"
  | S fuel =>
      let* r := RemoveNext m_events in
      let* scheduler := Insert r.1 scheduler in
      move_events fuel r.2 scheduler
  end.

(** SetScheduler: the new queue is of another class; m_unscheduledEvents counts the events. *)
Definition SetScheduler {Q1 Q2 E} `{EventQueue Q1} `{EventQueue Q2} (s : Sim Q1 E) : res (Sim Q2 E) :=
  let* q := move_events (Z.to_nat s.(m_unscheduledEvents)) s.(m_events) q_empty in
  Ok (mkSim q s.(m_stop) s.(m_uid) s.(m_currentUid) s.(m_currentTs) s.(m_currentContext)
        s.(m_unscheduledEvents) s.(m_eventCount) s.(m_destroyEvents) s.(m_eventsWithContext)
        s.(impls) s.(next_impl)).

(** ** The kernel invariant *)

(** [e] is after the point the clock has reached. *)
Definition in_future (ts uid : Z) (e : Event) : Prop :=
  ts < e.(key).(m_ts) \/ ts = e.(key).(m_ts) /\ uid < e.(key).(EventQueue.m_uid).

Record kernel_inv {Q E} `{EventQueueLaws Q} (s : Sim Q E) (l : list Event) : Prop := {
  inv_repr : repr s.(m_events) s.(m_currentTs) l;
  inv_future : Forall (in_future s.(m_currentTs) s.(m_currentUid)) l;
  inv_bounds : Forall (fun e =>
    UID_VALID <= e.(key).(EventQueue.m_uid) < s.(m_uid) /\ e.(key).(m_ts) < 2 ^ 63) l;
  inv_uid : 0 <= s.(m_currentUid) < s.(m_uid) /\ UID_VALID <= s.(m_uid) < 2 ^ 32;
  inv_count : s.(m_unscheduledEvents) = Z.of_nat (length l);
  inv_live : Forall (fun e => is_Some (s.(impls) !! e.(impl))) l;
  inv_fresh : forall p, is_Some (s.(impls) !! p) -> (p < s.(next_impl))%nat;
  inv_clock : 0 <= s.(m_currentTs) < 2 ^ 63;
  inv_main : s.(m_eventsWithContext) = []
}.

(** The event Schedule creates. *)
Definition scheduled {Q E} (delay : Z) (s : Sim Q E) : Event :=
  mkEvent s.(next_impl) (mkKey (s.(m_currentTs) + delay) s.(m_uid) s.(m_currentContext)).

Definition event_id (e : Event) : EventId :=
  mkEventId (Some e.(impl)) e.(key).(m_ts) e.(key).(EventQueue.m_context) e.(key).(EventQueue.m_uid).

(** An EventId the kernel has handed out. *)
Definition id_valid {Q E} (id : EventId) (s : Sim Q E) : Prop :=
  match id.(m_eventImpl) with Some p => is_Some (s.(impls) !! p) | None => True end.

Section kernel_facts.
Context {Q E : Type} `{EventQueueLaws Q}.
Implicit Types (s : Sim Q E) (l : list Event).

Lemma Forall_perm {A} (P : A -> Prop) (l l' : list A) : l ≡ₚ l' -> Forall P l' -> Forall P l.
Proof. by intros ->. Qed.

Lemma schedule_ts s delay :
  0 <= delay -> 0 <= s.(m_currentTs) -> s.(m_currentTs) + delay < 2 ^ 63 ->
  u64 (i64 (delay + i64 s.(m_currentTs))) = s.(m_currentTs) + delay.
Proof.
  intros Hd Hz Hb. rewrite (swrap_small 64 (m_currentTs s)) by (cbn; lia).
  rewrite (swrap_small 64) by (cbn; lia). rewrite wrap_small by (unfold fits; lia). lia.
Qed.

Lemma kernel_inv_init : kernel_inv (DefaultSimulatorImpl (Q := Q) (E := E)) [].
Proof.
  split; cbn; try done; try apply Forall_nil_2; try (unfold UID_VALID, UID_INVALID; lia).
  - apply repr_empty.
  - intros p [x Hx]. by rewrite lookup_empty in Hx.
Qed.

Lemma Schedule_ok s l delay e :
  kernel_inv s l -> 0 <= delay -> s.(m_currentTs) + delay < 2 ^ 63 -> s.(m_uid) + 1 < 2 ^ 32 ->
  exists s', Schedule delay e s = Ok (event_id (scheduled delay s), s') /\
    kernel_inv s' (spec_insert (scheduled delay s) l) /\
    s'.(impls) = <[s.(next_impl) := mkImpl e false]> s.(impls) /\
    s'.(next_impl) = S s.(next_impl) /\ s'.(m_uid) = s.(m_uid) + 1 /\
    s'.(m_currentTs) = s.(m_currentTs) /\ s'.(m_currentUid) = s.(m_currentUid) /\
    s'.(m_currentContext) = s.(m_currentContext) /\ s'.(m_stop) = s.(m_stop) /\
    s'.(m_destroyEvents) = s.(m_destroyEvents) /\ s'.(m_eventCount) = s.(m_eventCount).
Proof.
  intros [] Hd Hb Hu. unfold Schedule. rewrite (proj2 (Z.ltb_ge delay 0)) by lia. cbn.
  unfold insert_event. cbn. rewrite schedule_ts by lia.
  destruct (Insert_spec (m_events s) (m_currentTs s) l (scheduled delay s)) as (q' & Eq & R);
    [done| |cbn; lia|cbn; unfold UID_VALID in *; lia|].
  { intros (x & Ex & Hx)%list_elem_of_fmap. rewrite Forall_forall in inv_bounds0.
    apply inv_bounds0 in Hx. cbn in *. lia. }
  unfold scheduled in Eq. rewrite Eq. cbn. eexists. split; [done|].
  rewrite wrap_small by (unfold fits; lia). split; [|done].
  split; cbn; try done; try lia.
  - eapply Forall_perm; [apply spec_insert_perm|]. constructor; [|done].
    unfold in_future; cbn. lia.
  - eapply Forall_perm; [apply spec_insert_perm|]. constructor; [cbn; lia|].
    eapply Forall_impl; [exact inv_bounds0|]. cbn. lia.
  - rewrite spec_insert_perm. cbn. lia.
  - eapply Forall_perm; [apply spec_insert_perm|]. constructor.
    + cbn. rewrite lookup_insert_eq. eauto.
    + eapply Forall_impl; [exact inv_live0|]. cbn. intros x Hx.
      destruct (decide (next_impl s = impl x)) as [<-|N];
        [rewrite lookup_insert_eq; eauto|by rewrite lookup_insert_ne].
  - intros p. destruct (decide (next_impl s = p)) as [<-|N]; [lia|].
    rewrite lookup_insert_ne by done. intros Hp%inv_fresh0. lia.
Qed.

(** The context of a new event does not matter to the kernel: ScheduleWithContext is Schedule from
    another context. *)
Definition in_context (context : Z) s : Sim Q E :=
  mkSim s.(m_events) s.(m_stop) s.(m_uid) s.(m_currentUid) s.(m_currentTs) context
    s.(m_unscheduledEvents) s.(m_eventCount) s.(m_destroyEvents) s.(m_eventsWithContext)
    s.(impls) s.(next_impl).

Lemma kernel_inv_context context s l : kernel_inv s l -> kernel_inv (in_context context s) l.
Proof. by intros []. Qed.

Lemma ScheduleWithContext_Schedule context delay e s :
  0 <= delay ->
  ScheduleWithContext true context delay e s =
    (let* r := Schedule delay e (in_context context s) in Ok (in_context s.(m_currentContext) r.2)).
Proof.
  intros Hd. unfold ScheduleWithContext, Schedule. rewrite (proj2 (Z.ltb_ge delay 0)) by lia.
  cbn. unfold insert_event. cbn. by destruct (Insert _ _).
Qed.

Lemma ScheduleDestroy_ok s l e :
  kernel_inv s l -> s.(m_uid) + 1 < 2 ^ 32 ->
  kernel_inv (ScheduleDestroy e s).2 l /\ (ScheduleDestroy e s).2.(m_uid) = s.(m_uid) + 1.
Proof.
  intros [] Hu. unfold UID_VALID in *. cbn. rewrite wrap_small by (unfold fits; lia). split; [|done].
  split; cbn; unfold UID_VALID; try done; try lia.
  - eapply Forall_impl; [exact inv_bounds0|]. cbn. lia.
  - eapply Forall_impl; [exact inv_live0|]. cbn. intros x Hx.
    destruct (decide (next_impl s = impl x)) as [<-|N]; [rewrite lookup_insert_eq; eauto|by rewrite lookup_insert_ne].
  - intros p. destruct (decide (next_impl s = p)) as [<-|N]; [lia|].
    rewrite lookup_insert_ne by done. intros Hp%inv_fresh0. lia.
Qed.

Lemma kernel_inv_cancel_impl s l p : kernel_inv s l -> kernel_inv (cancel_impl p s) l.
Proof.
  intros []. split; cbn; try done.
  - eapply Forall_impl; [exact inv_live0|]. cbn. intros x Hx. rewrite lookup_alter.
    case_decide; [subst p; by apply fmap_is_Some|done].
  - intros q. rewrite lookup_alter. case_decide; [subst p|auto]. intros Hq%fmap_is_Some. auto.
Qed.

Lemma kernel_inv_cancel s l id : kernel_inv s l -> kernel_inv (Cancel id s) l.
Proof.
  intros Hi. unfold Cancel. destruct (IsExpired id s); cbn; [done|].
  destruct (m_eventImpl id); [|done]. by apply kernel_inv_cancel_impl.
Qed.

Lemma take_next_ok s l e :
  kernel_inv s (e :: l) ->
  exists s', take_next s = Ok (e, s') /\ kernel_inv s' l /\
    s'.(m_currentTs) = e.(key).(m_ts) /\ s'.(m_currentUid) = e.(key).(EventQueue.m_uid) /\
    s'.(m_currentContext) = e.(key).(EventQueue.m_context) /\
    s'.(impls) = s.(impls) /\ s'.(next_impl) = s.(next_impl) /\ s'.(m_uid) = s.(m_uid) /\
    s'.(m_stop) = s.(m_stop) /\ s'.(m_destroyEvents) = s.(m_destroyEvents) /\
    s'.(m_eventCount) = u64 (s.(m_eventCount) + 1).
Proof.
  intros []. unfold take_next.
  destruct (RemoveNext_spec _ _ _ _ inv_repr0) as (q' & -> & R). cbn [res_bind].
  apply Forall_cons in inv_future0 as [F1 F2]. apply Forall_cons in inv_bounds0 as [U1 U2].
  apply Forall_cons in inv_live0 as [L1 L2]. apply repr_agenda in inv_repr0 as A.
  apply agenda_cons in A as [A _]. unfold in_future in F1.
  rewrite (proj2 (Z.ltb_ge _ _)) by lia. cbn. eexists. split; [done|]. split; [|done].
  cbn in inv_count0. unfold UID_VALID in *. split; cbn; try done; try (unfold UID_VALID; lia).
  eapply Forall_impl; [exact A|]. intros x Hx%ev_lt_spec. unfold in_future. cbn. lia.
Qed.

Lemma expired_current s e :
  s.(m_currentTs) = e.(key).(m_ts) -> s.(m_currentUid) = e.(key).(EventQueue.m_uid) ->
  e.(key).(EventQueue.m_uid) <> UID_DESTROY -> IsExpired (event_id e) s = true.
Proof.
  intros E1 E2 N. unfold IsExpired. cbn. rewrite (proj2 (Z.eqb_neq _ _)) by done.
  rewrite E1, E2, Z.ltb_irrefl, Z.eqb_refl, Z.leb_refl. done.
Qed.

Lemma cancel_expired s id : id_valid id s -> IsExpired id (Cancel id s) = true.
Proof.
  unfold id_valid, Cancel. destruct (IsExpired id s) eqn:X; cbn; [done|].
  destruct (m_eventImpl id) as [p|] eqn:P; [|unfold IsExpired in X; by rewrite P in X].
  intros [i Hi]. unfold IsExpired. rewrite P.
  assert (C : IsCancelled p (cancel_impl p s) = true).
  { unfold IsCancelled. cbn. by rewrite lookup_alter_eq, Hi. }
  rewrite C. destruct (_ =? UID_DESTROY); [done|]. by rewrite !orb_true_r.
Qed.

(** An operation that touches another EventImpl leaves an id as it was. *)
Lemma IsExpired_ext (id : EventId) (s s' : Sim Q E) :
  s'.(m_currentTs) = s.(m_currentTs) -> s'.(m_currentUid) = s.(m_currentUid) ->
  s'.(m_destroyEvents) = s.(m_destroyEvents) ->
  (forall p, m_eventImpl id = Some p -> m_cancel <$> s'.(impls) !! p = m_cancel <$> s.(impls) !! p) ->
  IsExpired id s' = IsExpired id s.
Proof.
  intros E1 E2 E3 E4. unfold IsExpired. destruct (m_eventImpl id) as [p|]; [|done].
  assert (C : IsCancelled p s' = IsCancelled p s).
  { specialize (E4 p eq_refl). unfold IsCancelled.
    destruct (impls s' !! p), (impls s !! p); cbn in E4; by simplify_eq. }
  by rewrite E1, E2, E3, C.
Qed.

End kernel_facts.

(** ** Handlers as programs over the kernel, and independence of the event queue *)

(** What an event handler does to the kernel: a sequence of calls of its public
    operations, each continuing with the value the call returns.  Remove is not among them: it is
    only the queues other than the heap that keep their order under it. *)
Inductive Prog (E A : Type) : Type :=
| PRet (a : A)
| PSchedule (delay : Z) (e : E) (k : EventId -> Prog E A)
| PScheduleWithContext (context delay : Z) (e : E) (k : Prog E A)
| PScheduleDestroy (e : E) (k : EventId -> Prog E A)
| PCancel (id : EventId) (k : Prog E A)
| PIsExpired (id : EventId) (k : bool -> Prog E A)
| PGetDelayLeft (id : EventId) (k : Z -> Prog E A)
| PNow (k : Z -> Prog E A)
| PStop (k : Prog E A).
Arguments PRet {E A}.
Arguments PSchedule {E A}.
Arguments PScheduleWithContext {E A}.
Arguments PScheduleDestroy {E A}.
Arguments PCancel {E A}.
Arguments PIsExpired {E A}.
Arguments PGetDelayLeft {E A}.
Arguments PNow {E A}.
Arguments PStop {E A}.

Fixpoint exec {Q E A} `{EventQueue Q} (p : Prog E A) (s : Sim Q E) : res (A * Sim Q E) :=
  match p with
  | PRet a => Ok (a, s)
  | PSchedule delay e k => let* r := Schedule delay e s in exec (k r.1) r.2
  | PScheduleWithContext context delay e k =>
      let* s := ScheduleWithContext true context delay e s in exec k s
  | PScheduleDestroy e k => let r := ScheduleDestroy e s in exec (k r.1) r.2
  | PCancel id k => exec k (Cancel id s)
  | PIsExpired id k => exec (k (IsExpired id s)) s
  | PGetDelayLeft id k => exec (k (GetDelayLeft id s)) s
  | PNow k => exec (k (Now s)) s
  | PStop k => exec k (Stop s)
  end.

(** The handler of a program: the user state [U] is threaded through. *)
Definition prog_notify {Q E U} `{EventQueue Q} (h : E -> U -> Prog E U) (e : E)
    (w : Sim Q E * U) : res (Sim Q E * U) :=
  let* r := exec (h e w.2) w.1 in Ok (r.2, r.1).

(** At most [n] events are scheduled, each with a delay in [0, D] or for Destroy. *)
Inductive bounded {E A} (D : Z) : nat -> Prog E A -> Prop :=
| b_ret n a : bounded D n (PRet a)
| b_schedule n delay e k :
    0 <= delay <= D -> (forall id, bounded D n (k id)) -> bounded D (S n) (PSchedule delay e k)
| b_context n context delay e k :
    0 <= delay <= D -> bounded D n k -> bounded D (S n) (PScheduleWithContext context delay e k)
| b_destroy n e k : (forall id, bounded D n (k id)) -> bounded D (S n) (PScheduleDestroy e k)
| b_cancel n id k : bounded D n k -> bounded D n (PCancel id k)
| b_expired n id k : (forall b, bounded D n (k b)) -> bounded D n (PIsExpired id k)
| b_delay n id k : (forall d, bounded D n (k d)) -> bounded D n (PGetDelayLeft id k)
| b_now n k : (forall t, bounded D n (k t)) -> bounded D n (PNow k)
| b_stop n k : bounded D n k -> bounded D n (PStop k).

(** Two kernels over different queues in the same state. *)
Definition same_kernel {Q1 Q2 E} `{EventQueueLaws Q1} `{EventQueueLaws Q2}
    (l : list Event) (s1 : Sim Q1 E) (s2 : Sim Q2 E) : Prop :=
  kernel_inv s1 l /\ kernel_inv s2 l /\
  s1.(m_stop) = s2.(m_stop) /\ s1.(m_uid) = s2.(m_uid) /\
  s1.(m_currentUid) = s2.(m_currentUid) /\ s1.(m_currentTs) = s2.(m_currentTs) /\
  s1.(m_currentContext) = s2.(m_currentContext) /\ s1.(m_eventCount) = s2.(m_eventCount) /\
  s1.(m_destroyEvents) = s2.(m_destroyEvents) /\ s1.(impls) = s2.(impls) /\
  s1.(next_impl) = s2.(next_impl).

Section independence.
Context {Q1 Q2 E : Type} `{EventQueueLaws Q1} `{EventQueueLaws Q2}.
Implicit Types (s : Sim Q1 E) (t : Sim Q2 E).

Lemma same_expired l s t id : same_kernel l s t -> IsExpired id s = IsExpired id t.
Proof.
  intros (_ & _ & Es & Eu & Ecu & Et & Ec & En & Ed & Ei & Ex).
  unfold IsExpired, IsCancelled. by rewrite Ecu, Et, Ed, Ei.
Qed.

Lemma same_cancel l s t id :
  same_kernel l s t -> same_kernel l (Cancel id s) (Cancel id t).
Proof.
  intros S. pose proof (same_expired _ _ _ id S) as X.
  destruct S as (I1 & I2 & Es & Eu & Ecu & Et & Ec & En & Ed & Ei & Ex).
  repeat (split; [by apply kernel_inv_cancel|]).
  unfold Cancel. rewrite X. destruct (IsExpired id t); cbn; [done|].
  destruct (m_eventImpl id); cbn; [by rewrite Ei|done].
Qed.

Lemma kernel_inv_stop {Q} `{EventQueueLaws Q} (s : Sim Q E) l b :
  kernel_inv s l -> kernel_inv (set_stop b s) l.
Proof. by intros []. Qed.

Lemma same_set_stop l s t b :
  same_kernel l s t -> same_kernel l (set_stop b s) (set_stop b t).
Proof.
  intros (I1 & I2 & Es & S). split; [by apply kernel_inv_stop|].
  split; [by apply kernel_inv_stop|]. by split.
Qed.

(** Moving the events one by one keeps their order. *)
Lemma move_events_ok l : forall fuel (q1 : Q1) (q2 : Q2) now1 l2,
  repr q1 now1 l -> repr q2 0 l2 -> agenda (l2 ++ l) -> (length l <= fuel)%nat ->
  Forall (fun e => 0 <= e.(key).(m_ts) < 2 ^ 63 /\ 0 < e.(key).(EventQueue.m_uid) < 2 ^ 32) l ->
  exists q, move_events fuel q1 q2 = Ok q /\ repr q 0 (l2 ++ l).
Proof.
  induction l as [|e l IH]; intros fuel q1 q2 now1 l2 R1 R2 A Hf F.
  - destruct fuel; cbn [move_events]; rewrite (IsEmpty_spec _ _ _ R1); exists q2; by rewrite app_nil_r.
  - destruct fuel as [|fuel]; [cbn in Hf; lia|]. cbn [move_events].
    rewrite (IsEmpty_spec _ _ _ R1), bool_decide_false by done. apply Forall_cons in F as [[Ft Fu] F].
    destruct (RemoveNext_spec _ _ _ _ R1) as (q1' & -> & R1'). cbn [res_bind fst snd].
    pose proof A as [So N]. unfold uids in N. rewrite fmap_app in N. apply NoDup_app in N as (_ & N & _).
    destruct (Insert_spec q2 0 l2 e R2) as (q2' & -> & R2'); [|done|done|].
    { intros U. by apply (N _ U), list_elem_of_here. }
    cbn [res_bind]. assert (spec_insert e l2 = l2 ++ [e]) as Es.
    { assert (Forall (fun x => ev_lt x e = true) l2) as L.
      { apply Forall_forall. intros x Hx. by apply (StronglySorted_app_1_elem_of _ _ _ x e So Hx), list_elem_of_here. }
      unfold spec_insert. rewrite filter_all by done. rewrite filter_none; [done|].
      eapply Forall_impl; [exact L|]. cbn. congruence. }
    rewrite Es in R2'. change (l2 ++ e :: l) with (l2 ++ [e] ++ l) in *. rewrite app_assoc in *.
    apply (IH fuel q1' q2' (m_ts (key e))); [done|done|done|cbn in Hf; lia|done].
Qed.

(** Changing the SchedulerType of a kernel leaves everything else as it was. *)
Lemma SetScheduler_ok l s :
  kernel_inv s l -> exists t : Sim Q2 E, SetScheduler s = Ok t /\ same_kernel l s t.
Proof.
  intros I. unfold SetScheduler. pose proof (inv_clock _ _ I) as Ck.
  destruct (move_events_ok l (Z.to_nat (m_unscheduledEvents s)) (m_events s) (q_empty (Q := Q2)) (m_currentTs s) [])
    as (q & -> & R).
  - exact (inv_repr _ _ I).
  - apply repr_empty.
  - exact (repr_agenda _ _ _ (inv_repr _ _ I)).
  - rewrite (inv_count _ _ I). lia.
  - pose proof (inv_bounds _ _ I) as Bd. pose proof (inv_future _ _ I) as Fu. pose proof (inv_uid _ _ I).
    unfold UID_VALID in *. rewrite Forall_forall in Bd, Fu. apply Forall_forall.
    intros x Hx. specialize (Bd x Hx). specialize (Fu x Hx). unfold in_future in Fu. lia.
  - cbn [res_bind]. eexists. split; [reflexivity|]. destruct I. split; [by split|]. split; [|done].
    split; try done. cbn. eapply repr_later; [exact R|lia].
Qed.

(** Scheduling the same event in both *)
Lemma same_schedule l s t delay e :
  same_kernel l s t -> 0 <= delay -> s.(m_currentTs) + delay < 2 ^ 63 -> s.(m_uid) + 1 < 2 ^ 32 ->
  exists s' t', Schedule delay e s = Ok (event_id (scheduled delay s), s') /\
    Schedule delay e t = Ok (event_id (scheduled delay s), t') /\
    same_kernel (spec_insert (scheduled delay s) l) s' t' /\
    s'.(m_currentTs) = s.(m_currentTs) /\ s'.(m_uid) = s.(m_uid) + 1.
Proof.
  intros (I1 & I2 & Es & Eu & Ecu & Et & Ec & En & Ed & Ei & Ex) Hd HT HU.
  destruct (Schedule_ok s l delay e I1) as (s' & -> & J1 & F1); [lia|lia|lia|].
  destruct (Schedule_ok t l delay e I2) as (t' & -> & J2 & F2); [lia|lia|lia|].
  assert (scheduled delay s = scheduled delay t) as Esch.
  { unfold scheduled. by rewrite Ex, Et, Eu, Ec. }
  rewrite <- Esch in *. exists s', t'. split; [done|]. split; [done|]. split.
  - split; [exact J1|]. split; [exact J2|]. naive_solver congruence.
  - split; apply F1.
Qed.

Lemma same_context l s t c1 c2 :
  same_kernel l s t -> c1 = c2 -> same_kernel l (in_context c1 s) (in_context c2 t).
Proof.
  intros (I1 & I2 & Es & Eu & Ecu & Et & Ec & S) ->. split; [by apply kernel_inv_context|].
  split; [by apply kernel_inv_context|]. by repeat (split; [done|]).
Qed.

Lemma same_destroy l s t e :
  same_kernel l s t -> s.(m_uid) + 1 < 2 ^ 32 ->
  (ScheduleDestroy e s).1 = (ScheduleDestroy e t).1 /\ same_kernel l (ScheduleDestroy e s).2 (ScheduleDestroy e t).2.
Proof.
  intros (I1 & I2 & Es & Eu & Ecu & Et & Ec & En & Ed & Ei & Ex) HU.
  destruct (ScheduleDestroy_ok s l e I1 HU) as [J1 _]. destruct (ScheduleDestroy_ok t l e I2) as [J2 _]; [lia|].
  split; [cbn; by rewrite Ex, Et|]. split; [done|]. split; [done|]. cbn. by rewrite Es, Eu, Ecu, Et, Ec, En, Ed, Ei, Ex.
Qed.

(** The clock and the uid counter stay clear of overflow for [n] more calls of Schedule. *)
Definition headroom {Q} (D : Z) (n : nat) (s : Sim Q E) : Prop :=
  s.(m_currentTs) + D < 2 ^ 63 /\ s.(m_uid) + Z.of_nat n < 2 ^ 32.

(** What holds after the rest of a program holds after scheduling an event and the rest. *)
Lemma exec_scheduled {A} D n delay s (ev : Event) l l0 s' (r1 : res (A * Sim Q1 E)) (r2 : res (A * Sim Q2 E)) :
  0 <= delay <= D -> l0 = spec_insert ev l -> ev.(key).(m_ts) = s.(m_currentTs) + delay ->
  s'.(m_currentTs) = s.(m_currentTs) -> s'.(m_uid) = s.(m_uid) + 1 ->
  (exists a u1 u2 l', r1 = Ok (a, u1) /\ r2 = Ok (a, u2) /\ same_kernel l' u1 u2 /\
     u1.(m_currentTs) = s'.(m_currentTs) /\ u1.(m_uid) <= s'.(m_uid) + Z.of_nat n /\
     Forall (fun e => e ∈ l0 \/ e.(key).(m_ts) <= s'.(m_currentTs) + D) l') ->
  exists a u1 u2 l', r1 = Ok (a, u1) /\ r2 = Ok (a, u2) /\ same_kernel l' u1 u2 /\
     u1.(m_currentTs) = s.(m_currentTs) /\ u1.(m_uid) <= s.(m_uid) + Z.of_nat (S n) /\
     Forall (fun e => e ∈ l \/ e.(key).(m_ts) <= s.(m_currentTs) + D) l'.
Proof.
  intros Hd -> Ev Ts Us (a & u1 & u2 & l' & X1 & X2 & S' & ET & EU & EF).
  exists a, u1, u2, l'. split_and!; try done; [congruence|lia|].
  eapply Forall_impl; [exact EF|]. cbn. intros x [Hx|Hx]; [|right; lia].
  rewrite spec_insert_perm in Hx. apply elem_of_cons in Hx as [->|Hx]; [right; lia|by left].
Qed.

Lemma exec_same {A} D n (p : Prog E A) l s t :
  bounded D n p -> same_kernel l s t -> headroom D n s ->
  exists a s' t' l',
    exec p s = Ok (a, s') /\ exec p t = Ok (a, t') /\ same_kernel l' s' t' /\
    s'.(m_currentTs) = s.(m_currentTs) /\ s'.(m_uid) <= s.(m_uid) + Z.of_nat n /\
    Forall (fun e => e ∈ l \/ e.(key).(m_ts) <= s.(m_currentTs) + D) l'.
Proof.
  intros B. revert l s t.
  induction B as [n a|n delay e k Hd B IH|n c delay e k Hd B IH|n e k B IH|n id k B IH|n id k B IH|n id k B IH|n k B IH|n k B IH];
    intros l s t S [HT HU]; cbn [exec].
  - exists a, s, t, l. split_and!; try done; [lia|]. apply Forall_forall. by left.
  - destruct (same_schedule l s t delay e S) as (s' & t' & -> & -> & S' & Ts & Us); [lia..|]. cbn [res_bind fst snd].
    apply (exec_scheduled D n delay s (scheduled delay s) l (spec_insert (scheduled delay s) l) s'); try done.
    apply IH; [done|split; lia].
  - rewrite !ScheduleWithContext_Schedule by lia.
    destruct (same_schedule l (in_context c s) (in_context c t) delay e) as (s' & t' & -> & -> & S' & Ts & Us);
      [by apply same_context|cbn; lia..|]. cbn [res_bind fst snd].
    apply (exec_scheduled D n delay s (scheduled delay (in_context c s)) l
      (spec_insert (scheduled delay (in_context c s)) l) (in_context (m_currentContext s) s')); try done.
    apply IH; [apply same_context; [done|apply S]|]. cbn in *. split; cbn; lia.
  - cbv zeta. destruct (same_destroy l s t e S) as [<- S']; [lia|].
    destruct (ScheduleDestroy_ok s l e (proj1 S)) as [_ Us]; [lia|].
    destruct (IH (ScheduleDestroy e s).1 l _ _ S') as (a & u1 & u2 & l' & X1 & X2 & R1 & R2 & R3 & R4); [split; [exact HT|lia]|].
    exists a, u1, u2, l'. split_and!; try done. lia.
  - destruct (IH _ _ _ (same_cancel _ _ _ id S)) as (a & u1 & u2 & l' & R).
    { unfold Cancel. destruct (IsExpired id s), (m_eventImpl id); done. }
    exists a, u1, u2, l'. revert R. unfold Cancel at 3 4 5.
    destruct (IsExpired id s), (m_eventImpl id); done.
  - rewrite <- (same_expired _ _ _ id S). by apply IH.
  - unfold GetDelayLeft. rewrite <- (same_expired _ _ _ id S). replace (m_currentTs t) with (m_currentTs s) by apply S. by apply IH.
  - unfold Now. replace (m_currentTs t) with (m_currentTs s) by apply S. by apply IH.
  - destruct (IH _ _ _ (same_set_stop _ _ _ true S)) as (a & u1 & u2 & l' & R); [done|].
    by exists a, u1, u2, l'.
Qed.

Lemma process_ewc_nil {Q} `{EventQueueLaws Q} (s : Sim Q E) l :
  kernel_inv s l -> ProcessEventsWithContext s = Ok s.
Proof.
  intros I. unfold ProcessEventsWithContext. destruct s. destruct I. cbn in *.
  by rewrite inv_main0.
Qed.

(** Every queued event and the clock are at most [B]. *)
Definition before (B : Z) (ts : Z) (l : list Event) : Prop :=
  ts <= B /\ Forall (fun e => e.(key).(m_ts) <= B) l.

Lemma process_same {U} D n (h : E -> U -> Prog E U) B e l s t u :
  0 <= D -> (forall e u, bounded D n (h e u)) ->
  same_kernel (e :: l) s t -> before B s.(m_currentTs) (e :: l) ->
  B + D < 2 ^ 63 -> s.(m_uid) + Z.of_nat n < 2 ^ 32 ->
  exists s' t' u' l',
    ProcessOneEvent (prog_notify h) (s, u) = Ok (s', u') /\
    ProcessOneEvent (prog_notify h) (t, u) = Ok (t', u') /\
    same_kernel l' s' t' /\ before (B + D) s'.(m_currentTs) l' /\
    s'.(m_uid) <= s.(m_uid) + Z.of_nat n.
Proof.
  intros HD Hb S [B1 B2] HB HU. apply Forall_cons in B2 as [B2 B3].
  destruct S as (I1 & I2 & Es & Eu & Ecu & Et & Ec & En & Ed & Ei & Ex).
  pose proof (inv_live _ _ I1) as Live. apply Forall_cons in Live as [[i Hi] _].
  destruct (take_next_ok s l e I1) as (s1 & T1 & J1 & F1).
  destruct (take_next_ok t l e I2) as (t1 & T2 & J2 & F2).
  assert (S1 : same_kernel l s1 t1).
  { split; [done|]. split; [done|]. naive_solver congruence. }
  unfold ProcessOneEvent. cbn [fst snd]. rewrite T1, T2. cbn [res_bind fst snd].
  destruct F1 as (C1 & C2 & C3 & C4 & C5 & C6 & _).
  destruct F2 as (_ & _ & _ & D4 & _).
  unfold Invoke. cbn [fst]. rewrite D4, C4, <- Ei, Hi. destruct (m_cancel i); cbn [negb].
  - cbn [res_bind fst snd]. rewrite (process_ewc_nil _ _ J1), (process_ewc_nil _ _ J2).
    exists s1, t1, u, l. split_and!; try done; [|lia]. split; [lia|].
    eapply Forall_impl; [exact B3|]. cbn. lia.
  - destruct (exec_same D n (h (payload i) u) l s1 t1) as (a & u1 & u2 & l' & X1 & X2 & S' & Y);
      [done|done|split; lia|].
    unfold prog_notify. cbn [fst snd]. rewrite X1, X2. cbn [res_bind fst snd].
    destruct S' as (K1 & K2 & S'). rewrite (process_ewc_nil _ _ K1), (process_ewc_nil _ _ K2).
    destruct Y as (Y1 & Y2 & Y3). exists u1, u2, a, l'. split_and!; try done; [|lia].
    split; [lia|]. eapply Forall_impl; [exact Y3|]. cbn. intros x [Hx|Hx]; [|lia].
    rewrite Forall_forall in B3. specialize (B3 _ Hx). lia.
Qed.

(** How two bounded runs compare: both run out of fuel, or both end, in the same state. *)
Definition same_outcome {U} (r1 : res (option (Sim Q1 E * U))) (r2 : res (option (Sim Q2 E * U))) : Prop :=
  match r1, r2 with
  | Ok None, Ok None => True
  | Ok (Some (s, u)), Ok (Some (t, v)) => u = v /\ exists l, same_kernel l s t
  | _, _ => False
  end.

Lemma run_loop_same {U} D n (h : E -> U -> Prog E U) fuel B l s t u :
  0 <= D -> (forall e u, bounded D n (h e u)) ->
  same_kernel l s t -> before B s.(m_currentTs) l ->
  B + Z.of_nat fuel * D < 2 ^ 63 -> s.(m_uid) + Z.of_nat fuel * Z.of_nat n < 2 ^ 32 ->
  same_outcome (Run_loop (prog_notify h) fuel (s, u)) (Run_loop (prog_notify h) fuel (t, u)).
Proof.
  intros HD Hb. revert B l s t u. induction fuel as [|fuel IH]; intros B l s t u S HB HT HU.
  all: cbn [Run_loop fst snd].
  all: rewrite (IsEmpty_spec _ _ _ (inv_repr _ _ (proj1 S))),
    (IsEmpty_spec _ _ _ (inv_repr _ _ (proj1 (proj2 S)))).
  all: replace (m_stop t) with (m_stop s) by apply S.
  all: destruct (bool_decide (l = []) || m_stop s) eqn:F; [by split; [|exists l]|].
  - done.
  - destruct l as [|e l]; [done|].
    destruct (process_same D n h B e l s t u) as (s' & t' & u' & l' & -> & -> & S' & B' & U');
      [done|done|done|done|nia|nia|].
    cbn [res_bind]. apply (IH (B + D) l'); [done|done|nia|nia].
Qed.

(** Running the same handlers over two queues that keep the contract gives the same
    user state, clock, counters and agenda: the choice of SchedulerType is not observable. *)
Theorem run_queue_independent {U} D n (h : E -> U -> Prog E U) fuel B l s t u :
  0 <= D -> (forall e u, bounded D n (h e u)) ->
  same_kernel l s t -> before B s.(m_currentTs) l ->
  B + Z.of_nat fuel * D < 2 ^ 63 -> s.(m_uid) + Z.of_nat fuel * Z.of_nat n < 2 ^ 32 ->
  same_outcome (Run (prog_notify h) fuel (s, u)) (Run (prog_notify h) fuel (t, u)).
Proof.
  intros HD Hb S HB HT HU. unfold Run. cbn [fst snd].
  rewrite (process_ewc_nil _ _ (proj1 S)), (process_ewc_nil _ _ (proj1 (proj2 S))).
  cbn [res_bind].
  pose proof (run_loop_same D n h fuel B l _ _ u HD Hb (same_set_stop _ _ _ false S)
                HB HT HU) as O.
  destruct (Run_loop _ fuel (set_stop false s, u)) as [[[s' u1]|]|],
    (Run_loop _ fuel (set_stop false t, u)) as [[[t' u2]|]|]; try done.
  destruct O as (-> & l' & S'). cbn [res_bind fst].
  assert (G : forall Q (EQ : EventQueue Q) (EQL : EventQueueLaws Q) (k : Sim Q E), kernel_inv k l' ->
    IsEmpty (m_events k) && negb (m_unscheduledEvents k =? 0) = false).
  { intros Q EQ EQL k [R _ _ _ C _ _ _ _]. rewrite (IsEmpty_spec _ _ _ R), C.
    destruct l'; [done|]. by rewrite bool_decide_false. }
  destruct S' as (K1 & K2 & S'). rewrite (G _ _ _ _ K1), (G _ _ _ _ K2). cbn.
  split; [done|]. by exists l'.
Qed.

End independence.

(** ** Pending ids *)

Section facts.
Context {Q E : Type} `{EventQueueLaws Q}.
Implicit Types (s : Sim Q E) (l : list Event).

(** The id of a new event is pending: its uid is larger than the current one. *)
Lemma scheduled_pending s l delay e s' :
  kernel_inv s l -> 0 <= delay ->
  s'.(impls) = <[s.(next_impl) := mkImpl e false]> s.(impls) ->
  s'.(m_currentTs) = s.(m_currentTs) -> s'.(m_currentUid) = s.(m_currentUid) ->
  IsPending (event_id (scheduled delay s)) s' = true.
Proof.
  intros I Hd Ei Et Eu. destruct (inv_uid _ _ I) as [U1 U2]. unfold UID_VALID in *.
  unfold IsPending, IsExpired, IsCancelled. cbn.
  rewrite (proj2 (Z.eqb_neq _ _)) by (unfold UID_DESTROY; lia).
  rewrite Ei, lookup_insert_eq, Et, Eu. cbn.
  rewrite (proj2 (Z.ltb_ge _ _)), (proj2 (Z.leb_gt _ _)) by lia. by rewrite andb_false_r.
Qed.

(** Scheduling leaves the ids the kernel has handed out as they were. *)
Lemma schedule_other s l e s' id :
  kernel_inv s l -> id_valid id s ->
  s'.(impls) = <[s.(next_impl) := mkImpl e false]> s.(impls) ->
  s'.(m_currentTs) = s.(m_currentTs) -> s'.(m_currentUid) = s.(m_currentUid) ->
  s'.(m_destroyEvents) = s.(m_destroyEvents) ->
  IsPending id s' = IsPending id s.
Proof.
  intros I V Ei Et Eu Ed. unfold IsPending. f_equal. apply IsExpired_ext; [done..|].
  intros p Hp. unfold id_valid in V. rewrite Hp in V. apply (inv_fresh _ _ I) in V.
  rewrite Ei, lookup_insert_ne by lia. done.
Qed.

(** Cancelling an event leaves the ids of other events as they were. *)
Lemma cancel_other s id id' :
  m_eventImpl id <> m_eventImpl id' -> IsPending id' (Cancel id s) = IsPending id' s.
Proof.
  intros N. unfold IsPending, Cancel. f_equal. destruct (IsExpired id s); cbn; [done|].
  destruct (m_eventImpl id) as [p|] eqn:P; [|done]. apply IsExpired_ext; [done..|].
  intros q Hq. cbn. rewrite lookup_alter_ne; [done|]. congruence.
Qed.

End facts.

#[export] Hint Resolve scheduled_pending schedule_other : oran.
