(* ===== verification/KernelProps.v ===== *)
(** The properties of the simulator kernel. *)
From Stdlib Require Import ZArith Lia.
From stdpp Require Import base list gmap strings sets.
From S2P Require Import Prelude OrdMap EventQueue HeapQueue CalendarQueue Simulator.
Open Scope Z_scope.
(** What scheduling [e] after [delay] does to a kernel with agenda [l]. *)
Definition schedules {Q E} `{EventQueueLaws Q} (delay : Z) (e : E) (s : Sim Q E) (l : list Event)
    (id : EventId) (s' : Sim Q E) : Prop :=
  kernel_inv s' (spec_insert (scheduled delay s) l) /\
  IsPending id s' = true /\ id.(id_ts) = Now s + delay /\ Now s' = Now s /\
  payload <$> (m_eventImpl id ≫= fun p => s'.(impls) !! p) = Some e /\
  forall id', id_valid id' s -> IsPending id' s' = IsPending id' s.

(** Schedule adds the event at the current time plus the delay, after every event of the
    same time, hands out a pending id, and leaves the clock and every other id alone. *)
Theorem schedule_correct {Q E} `{EventQueueLaws Q} (s : Sim Q E) l delay (e : E) :
  kernel_inv s l -> 0 <= delay -> s.(m_currentTs) + delay < 2 ^ 63 -> s.(m_uid) + 1 < 2 ^ 32 ->
  exists id s', Schedule delay e s = Ok (id, s') /\ schedules delay e s l id s'.
Proof.
  intros I Hd Hb Hu. destruct (Schedule_ok s l delay e I Hd Hb Hu) as (s' & -> & I' & F).
  destruct F as (Ei & En & Eu & Et & Ecu & Ec & Es & Ed & _).
  exists (event_id (scheduled delay s)), s'. split; [done|]. split_and!; try done.
  - by eapply scheduled_pending.
  - cbn. rewrite Ei, lookup_insert_eq. done.
  - intros id' V. by eapply schedule_other.
Qed.

Theorem schedule_correct_witness :
  exists id s', Schedule 5 tt (DefaultSimulatorImpl (Q := Heap)) = Ok (id, s') /\
    schedules 5 tt (DefaultSimulatorImpl (Q := Heap)) [] id s'.
Proof. apply (schedule_correct (DefaultSimulatorImpl (Q := Heap)) []); [apply kernel_inv_init|..]; by vm_compute. Defined.

(** a cancelled event is expired at once, stays in the queue, and when its turn comes the
    clock moves to it but its handler is not called. *)
Theorem cancelled_not_run {Q E U} `{EventQueueLaws Q} (notify : E -> Sim Q E * U -> res (Sim Q E * U))
    (s : Sim Q E) e l (u : U) :
  kernel_inv s (e :: l) ->
  IsExpired (event_id e) (Cancel (event_id e) s) = true /\
  exists s', ProcessOneEvent notify (Cancel (event_id e) s, u) = Ok (s', u) /\
    Now s' = e.(key).(m_ts) /\ kernel_inv s' l.
Proof.
  intros I. pose proof (inv_live _ _ I) as Live. apply Forall_cons in Live as [[i Hi] _].
  split; [apply cancel_expired; by eexists|].
  pose proof (kernel_inv_cancel _ _ (event_id e) I) as IC.
  assert (IsExpired (event_id e) s = false \/ IsCancelled (impl e) s = true) as [X|X].
  { pose proof (inv_future _ _ I) as F. apply Forall_cons in F as [F _].
    pose proof (inv_bounds _ _ I) as B. apply Forall_cons in B as [B _].
    unfold in_future, UID_VALID in *. unfold IsExpired. cbn.
    rewrite (proj2 (Z.eqb_neq _ _)) by (unfold UID_DESTROY; lia).
    destruct (IsCancelled (impl e) s); [by right|left].
    rewrite orb_false_r. apply orb_false_iff. split; [apply Z.ltb_ge; lia|].
    apply andb_false_iff. rewrite Z.eqb_neq, Z.leb_gt. lia. }
  all: destruct (take_next_ok _ l e IC) as (s' & T & I' & F1 & _ & _ & F2 & _).
  all: exists s'; unfold ProcessOneEvent; cbn [fst snd]; rewrite T; cbn [res_bind fst snd].
  all: unfold Invoke; cbn [fst]; rewrite F2.
  - unfold Cancel. rewrite X. cbn. rewrite lookup_alter_eq, Hi. cbn.
    rewrite (process_ewc_nil _ _ I'). by split_and!.
  - unfold IsCancelled in X. rewrite Hi in X.
    assert ((Cancel (event_id e) s).(impls) !! impl e = Some i \/
            (Cancel (event_id e) s).(impls) !! impl e = Some (impl_Cancel i)) as [E'|E'].
    { unfold Cancel. destruct (IsExpired _ _); cbn; [by left|].
      rewrite lookup_alter_eq, Hi. by right. }
    all: rewrite E'; cbn; rewrite ?X; cbn; rewrite (process_ewc_nil _ _ I'); by split_and!.
Qed.

(** A kernel with one event, for the witnesses. *)
Definition one_event : Sim MapScheduler.EventMap unit :=
  match Schedule 5 tt DefaultSimulatorImpl with Ok (_, s) => s | Abort _ => DefaultSimulatorImpl end.

Lemma one_event_inv : kernel_inv one_event [mkEvent 0 (mkKey 5 4 NO_CONTEXT)].
Proof.
  destruct (Schedule_ok (Q := MapScheduler.EventMap) DefaultSimulatorImpl [] 5 tt) as (s' & Es & I & _);
    [apply kernel_inv_init|by vm_compute..|].
  unfold one_event. by rewrite Es.
Qed.

Theorem cancelled_not_run_witness :
  IsExpired (event_id (mkEvent 0 (mkKey 5 4 NO_CONTEXT)))
    (Cancel (event_id (mkEvent 0 (mkKey 5 4 NO_CONTEXT))) one_event) = true /\
  exists s', ProcessOneEvent (fun _ _ => Abort "called")
      (Cancel (event_id (mkEvent 0 (mkKey 5 4 NO_CONTEXT))) one_event, tt) = Ok (s', tt) /\
    Now s' = 5 /\ kernel_inv s' [].
Proof.
  apply (cancelled_not_run (fun _ _ => Abort "called") one_event (mkEvent 0 (mkKey 5 4 NO_CONTEXT)) [] tt).
  apply one_event_inv.
Defined.

Section order.
Context {Q E : Type} `{EventQueueLaws Q}.

Lemma insert_event_frame p ts c (s : Sim Q E) r :
  insert_event p ts c s = Ok r ->
  r.2.(m_currentTs) = s.(m_currentTs) /\ r.2.(m_currentUid) = s.(m_currentUid).
Proof. unfold insert_event. intros. inv_res. done. Qed.

Lemma exec_frame {A} (p : Prog E A) (s : Sim Q E) a s' :
  exec p s = Ok (a, s') ->
  s'.(m_currentTs) = s.(m_currentTs) /\ s'.(m_currentUid) = s.(m_currentUid).
Proof.
  revert s. induction p as [a0|delay e k IH|c delay e k IH|e k IH|id k IH|id k IH|id k IH|k IH|k IH]; intros s X; cbn in X.
  - by inv_res.
  - destruct (Schedule delay e s) as [r|] eqn:Es; [|done]. cbn in X. apply IH in X.
    unfold Schedule in Es. destruct (abort_if _ _); [|done]. cbn in Es.
    apply insert_event_frame in Es as [E1 E2]. cbn in *. destruct X. split; congruence.
  - destruct (insert_event _ _ _ _) as [r|] eqn:Es; [|done]. cbn in X. apply IH in X.
    apply insert_event_frame in Es as [E1 E2]. cbn in *. destruct X. split; congruence.
  - by apply IH in X.
  - apply IH in X. unfold Cancel in X. destruct (negb (IsExpired id s)); [|done].
    by destruct (m_eventImpl id).
  - by apply IH in X.
  - by apply IH in X.
  - by apply IH in X.
  - by apply IH in X.
Qed.
End order.

(** C34: events are run in the order of time stamp and then of scheduling, when their handlers are
    programs ([Prog]) that schedule, cancel, read the clock and ids, and stop: after the event at
    the head of the agenda has run, with everything its handler scheduled and cancelled, the
    clock is at its time and every event left comes strictly after it. *)
Theorem events_in_order {Q E U} `{EventQueueLaws Q} D n (h : E -> U -> Prog E U) B e l
    (s : Sim Q E) (u : U) :
  0 <= D -> (forall e u, bounded D n (h e u)) ->
  kernel_inv s (e :: l) -> before B s.(m_currentTs) (e :: l) ->
  B + D < 2 ^ 63 -> s.(m_uid) + Z.of_nat n < 2 ^ 32 ->
  exists s' u' l', ProcessOneEvent (prog_notify h) (s, u) = Ok (s', u') /\
    kernel_inv s' l' /\ Now s <= Now s' /\ Now s' = e.(key).(m_ts) /\
    Forall (fun x => ev_lt e x = true) l'.
Proof.
  intros HD Hb I HB HT HU.
  destruct (process_same D n h B e l s s u) as (s' & t' & u' & l' & P & _ & S & _ & _); try done.
  exists s', u', l'. destruct S as (I' & _). split; [done|]. split; [done|].
  unfold ProcessOneEvent in P. cbn [fst snd] in P.
  destruct (take_next_ok s l e I) as (s1 & T & I1 & F1 & F2 & _ & F3 & _). rewrite T in P.
  cbn [res_bind fst snd] in P.
  assert (s'.(m_currentTs) = e.(key).(m_ts) /\ s'.(m_currentUid) = e.(key).(EventQueue.m_uid)) as [C1 C2].
  { unfold Invoke in P. cbn [fst snd] in P. destruct (impls s1 !! impl e) as [i|]; [|done].
    assert (forall w : Sim Q E * U, w.1.(m_eventsWithContext) = [] -> ProcessEventsWithContext w.1 = Ok (set_withContext [] w.1)) as W.
    { intros w Hw. unfold ProcessEventsWithContext. by rewrite Hw. }
    destruct (negb (m_cancel i)); cbn [res_bind] in P.
    - unfold prog_notify in P. cbn [fst snd] in P. destruct (exec (h (payload i) u) s1) as [[a s2]|] eqn:X; [|done].
      apply exec_frame in X as [X1 X2]. cbn [res_bind fst snd] in P.
      destruct (ProcessEventsWithContext s2) as [s3|] eqn:P2; [|done]. injection P as <- _.
      unfold ProcessEventsWithContext in P2.
      apply (res_fold_inv (fun s : Sim Q E => m_currentTs s = m_currentTs s2 /\ m_currentUid s = m_currentUid s2)) in P2;
        [destruct P2; split; congruence| |done].
      intros ev a0 a1 _ [A1 A2] R. inv_res. apply insert_event_frame in E0 as [B1 B2]. split; congruence.
    - cbn [fst snd] in P. rewrite (process_ewc_nil _ _ I1) in P. injection P as <- _. done. }
  pose proof (inv_clock _ _ I) as Ck. pose proof (inv_future _ _ I) as Fu.
  apply Forall_cons in Fu as [Fu _]. unfold in_future in Fu.
  unfold Now. split_and!; [lia|done|]. eapply Forall_impl; [apply (inv_future _ _ I')|].
  intros x Hx. apply ev_lt_spec. unfold in_future in Hx. rewrite C1, C2 in Hx. exact Hx.
Qed.

(** A handler that schedules the next tick, for the witnesses. *)
Definition tick (_ : unit) (n : Z) : Prog unit Z := PSchedule 3 tt (fun _ => PRet (n + 1)).

Lemma tick_bounded e u : bounded 3 1 (tick e u).
Proof. constructor; [lia|]. intros id. constructor. Qed.

Theorem events_in_order_witness :
  exists s' u' l', ProcessOneEvent (prog_notify tick) (one_event, 0) = Ok (s', u') /\
    kernel_inv s' l' /\ Now one_event <= Now s' /\ Now s' = 5 /\
    Forall (fun x => ev_lt (mkEvent 0 (mkKey 5 4 NO_CONTEXT)) x = true) l'.
Proof.
  apply (events_in_order 3 1 tick 5 (mkEvent 0 (mkKey 5 4 NO_CONTEXT)) []);
    [lia|apply tick_bounded|apply one_event_inv|split; [by vm_compute|by repeat constructor]|lia|by vm_compute].
Defined.

(** The same kernel over two of the queues. *)
Definition start_on (Q : Type) `{EventQueue Q} : Sim Q unit :=
  match Schedule 5 tt DefaultSimulatorImpl with Ok (_, s) => s | Abort _ => DefaultSimulatorImpl end.

Lemma start_on_inv Q `{EventQueueLaws Q} : kernel_inv (start_on Q) [mkEvent 0 (mkKey 5 4 NO_CONTEXT)].
Proof.
  destruct (Schedule_ok (Q := Q) DefaultSimulatorImpl [] 5 tt) as (s' & Es & I & _);
    [apply kernel_inv_init|by vm_compute..|].
  unfold start_on. by rewrite Es.
Qed.

(** C35: SchedulerType is not observable: moving the events of a kernel to a queue of another
    class that keeps the Scheduler contract succeeds and changes nothing else, and running
    the same handlers from there gives the same user state, clock, counters and agenda.  The
    handlers are programs ([Prog]) that schedule, cancel, read the clock and ids, and stop, but do not
    call Remove: with the heap, Remove can break the order ([heap_remove_breaks_order]). *)
Theorem queue_not_observable {Q1 Q2 E U} `{EventQueueLaws Q1} `{EventQueueLaws Q2} D n
    (h : E -> U -> Prog E U) fuel B l (s : Sim Q1 E) u :
  0 <= D -> (forall e u, bounded D n (h e u)) ->
  kernel_inv s l -> before B s.(m_currentTs) l ->
  B + Z.of_nat fuel * D < 2 ^ 63 -> s.(m_uid) + Z.of_nat fuel * Z.of_nat n < 2 ^ 32 ->
  exists t : Sim Q2 E, SetScheduler s = Ok t /\ same_kernel l s t /\
    same_outcome (Run (prog_notify h) fuel (s, u)) (Run (prog_notify h) fuel (t, u)).
Proof.
  intros HD Hb I HB HT HU. destruct (SetScheduler_ok (Q2 := Q2) l s I) as (t & Et & S).
  exists t. split; [done|]. split; [done|]. by apply (run_queue_independent D n h fuel B l).
Qed.

(** From the heap to the calendar queue, stored in reverse *)
Theorem queue_not_observable_witness :
  let cal := CalendarScheduler_queue true in let laws := CalendarScheduler_laws true in
  exists t : Sim CalendarScheduler.CalendarScheduler unit, SetScheduler (start_on Heap) = Ok t /\
    same_kernel [mkEvent 0 (mkKey 5 4 NO_CONTEXT)] (start_on Heap) t /\
    same_outcome (Run (prog_notify tick) 9 (start_on Heap, 0)) (Run (prog_notify tick) 9 (t, 0)).
Proof.
  intros cal laws.
  apply (queue_not_observable 3 1 tick 9 5 [mkEvent 0 (mkKey 5 4 NO_CONTEXT)]);
    [lia|apply tick_bounded|apply start_on_inv|split; [by vm_compute|by repeat constructor]|lia|by vm_compute].
Defined.

(** HeapScheduler::Remove only sifts down, so removing a leaf of one branch can leave an
    event above an earlier one: the heap {1; 10, 2; 11, 12, 3, 4} without 11 is out of
    order, although the ListScheduler keeps the order. *)
Theorem heap_remove_breaks_order :
  let ev := fun ts => mkEvent 0 (mkKey ts ts 0) in
  let q := res_fold (fun ts q => Insert (ev ts) q) [1; 10; 2; 11; 12; 3; 4] (q_empty (Q := Heap)) in
  exists h h', q = Ok (mkHeap h) /\ HeapScheduler.heap_ok h /\
    HeapScheduler.Remove (ev 11) h = Ok h' /\ ~ HeapScheduler.heap_ok h'.
Proof.
  eexists _, _. split; [vm_compute; reflexivity|]. split.
  - intros i x y Hi Hx Hy.
    assert (i < 8)%nat as Lt by (apply lookup_lt_Some in Hx; exact Hx).
    do 8 (destruct i as [|i]; [vm_compute in Hx, Hy; try lia; injection Hx as <-; injection Hy as <-; reflexivity|]).
    lia.
  - split; [vm_compute; reflexivity|]. intros Hh.
    specialize (Hh 4%nat (mkEvent 0 (mkKey 4 4 0)) (mkEvent 0 (mkKey 10 10 0)) ltac:(lia) eq_refl eq_refl).
    discriminate Hh.
Qed.

(** ** Sequences of queue operations *)

Inductive queue_op := OInsert (ev : Event) | OPeekNext | ORemoveNext | ORemove (ev : Event).

(** One call, with its answer *)
Definition apply_op {Q} `{EventQueue Q} (o : queue_op) (q : Q) : res (option Event * Q) :=
  match o with
  | OInsert ev => let* q := Insert ev q in Ok (None, q)
  | OPeekNext => let* e := PeekNext q in Ok (Some e, q)
  | ORemoveNext => let* r := RemoveNext q in Ok (Some r.1, r.2)
  | ORemove ev => let* q := Remove ev q in Ok (None, q)
  end.

Fixpoint answers {Q} `{EventQueue Q} (ops : list queue_op) (q : Q) : res (list (option Event)) :=
  match ops with
  | [] => Ok []
  | o :: ops =>
      let* r := apply_op o q in
      let* rest := answers ops r.2 in
      Ok (r.1 :: rest)
  end.

(** The same on the agenda: what a client may ask, and what it is answered *)
Definition op_allowed (o : queue_op) (t : Z) (l : list Event) : Prop :=
  match o with
  | OInsert ev => ev.(key).(EventQueue.m_uid) ∉ uids l /\ t <= ev.(key).(m_ts) < 2 ^ 63 /\
      0 < ev.(key).(EventQueue.m_uid) < 2 ^ 32
  | OPeekNext | ORemoveNext => l <> []
  | ORemove ev => ev ∈ l
  end.

Definition op_agenda (o : queue_op) (t : Z) (l : list Event) : option Event * (Z * list Event) :=
  match o, l with
  | OInsert ev, _ => (None, (t, spec_insert ev l))
  | OPeekNext, _ => (head l, (t, l))
  | ORemoveNext, e :: l => (Some e, (e.(key).(m_ts), l))
  | ORemoveNext, [] => (None, (t, []))
  | ORemove ev, _ => (None, (t, spec_remove ev l))
  end.

Fixpoint allowed (ops : list queue_op) (t : Z) (l : list Event) : Prop :=
  match ops with
  | [] => True
  | o :: ops => op_allowed o t l /\ let '(_, (t, l)) := op_agenda o t l in allowed ops t l
  end.

Fixpoint agenda_answers (ops : list queue_op) (t : Z) (l : list Event) : list (option Event) :=
  match ops with
  | [] => []
  | o :: ops => let '(a, (t, l)) := op_agenda o t l in a :: agenda_answers ops t l
  end.

Lemma apply_op_ok {Q} `{EventQueueRemoveLaws Q} o (q : Q) t l :
  repr q t l -> op_allowed o t l ->
  exists q', apply_op o q = Ok ((op_agenda o t l).1, q') /\ repr q' (op_agenda o t l).2.1 (op_agenda o t l).2.2.
Proof.
  intros R Al. destruct o as [ev| | |ev]; cbn in *.
  - destruct Al as (N & T & U). destruct (Insert_spec q t l ev R N T U) as (q' & -> & R'). by exists q'.
  - destruct l as [|e l]; [done|]. rewrite (PeekNext_spec _ _ _ _ R). by exists q.
  - destruct l as [|e l]; [done|]. destruct (RemoveNext_spec _ _ _ _ R) as (q' & -> & R'). by exists q'.
  - destruct (Remove_spec q t l ev R Al) as (q' & -> & R'). by exists q'.
Qed.

Lemma answers_ok {Q} `{EventQueueRemoveLaws Q} ops : forall (q : Q) t l,
  repr q t l -> allowed ops t l -> answers ops q = Ok (agenda_answers ops t l).
Proof.
  induction ops as [|o ops IH]; intros q t l R Al; [done|]. cbn in *. destruct Al as [A1 A2].
  destruct (apply_op_ok o q t l R A1) as (q' & -> & R'). cbn [res_bind fst snd].
  destruct (op_agenda o t l) as [a [t' l']]. by rewrite (IH q' t' l' R' A2).
Qed.

(** C36: however often it resizes, and with Reverse or without, the calendar queue answers every
    sequence of calls as the sorted list of its events does, and so as ListScheduler: a
    client that inserts new uids and never anything earlier than the event it was given
    last cannot tell them apart. *)
Theorem calendar_as_agenda (reverse : bool) (ops : list queue_op) :
  allowed ops 0 [] ->
  answers (H := CalendarScheduler_queue reverse) ops (CalendarScheduler.new_CalendarScheduler reverse)
    = Ok (agenda_answers ops 0 []) /\
  answers ops (q_empty (Q := list Event)) = Ok (agenda_answers ops 0 []).
Proof.
  intros Al. split; [|by apply answers_ok; [apply repr_empty|]].
  apply (@answers_ok _ (CalendarScheduler_queue reverse) (CalendarScheduler_laws reverse)
    (CalendarScheduler_remove_laws reverse)); [|done].
  exact (@repr_empty _ (CalendarScheduler_queue reverse) (CalendarScheduler_laws reverse)).
Qed.

(** Seven insertions, which make the queue grow, a removal from the middle, and the rest *)
Definition calendar_ops : list queue_op :=
  ((fun ts => OInsert (mkEvent 0 (mkKey ts ts 0))) <$> [50; 3; 20; 7; 9; 100; 1000])
    ++ [OPeekNext; ORemove (mkEvent 0 (mkKey 9 9 0)); ORemoveNext; ORemoveNext;
        OInsert (mkEvent 0 (mkKey 8 8 0)); ORemoveNext; ORemoveNext; ORemoveNext; ORemoveNext].

Theorem calendar_as_agenda_witness :
  answers (H := CalendarScheduler_queue true) calendar_ops (CalendarScheduler.new_CalendarScheduler true)
    = Ok (agenda_answers calendar_ops 0 []) /\
  answers calendar_ops (q_empty (Q := list Event)) = Ok (agenda_answers calendar_ops 0 []).
Proof.
  apply (calendar_as_agenda true calendar_ops). vm_compute. repeat split; try done; set_solver.
Defined.
