(* ===== verification/Messages.v ===== *)
(** Reports and commands: src/oran/model/oran-report*.{h,cc} and oran-command*.{h,cc}.

    Every class derived from OranReport or OranCommand is a constructor; the fields are
    the attributes of the class, at the width of their checker. *)
From Stdlib Require Import ZArith Lia SpecFloat.
From stdpp Require Import base list gmap strings pretty.
From S2P Require Import Prelude.
Open Scope Z_scope.

(** C++ double: an IEEE 754 binary64 datum. *)
Abbreviation double := spec_float.

Definition d_add (a b : double) : double := SFadd 53 1024 a b.
Definition d_mul (a b : double) : double := SFmul 53 1024 a b.
Definition d_div (a b : double) : double := SFdiv 53 1024 a b.
Definition d_ltb (a b : double) : bool := SFltb a b.
Definition d_leb (a b : double) : bool := SFleb a b.
Definition d_sub (a b : double) : double := SFsub 53 1024 a b.
Definition d_opp (a : double) : double := SFopp a.
Definition d_zero : double := S754_zero false.

(** static_cast<double> of an integer: round to nearest, ties to even. *)
Definition d_of_Z (n : Z) : double := binary_normalize 53 1024 n 0 false.

(** The literal n / 10^k, correctly rounded while n and 10^k are exact. *)
Definition d_dec (n k : Z) : double := d_div (d_of_Z n) (d_of_Z (10 ^ k)).

(** static_cast to an unsigned integer of [w] bits: towards zero, undefined out of range. *)
Definition d_trunc (w : Z) (d : double) : option Z :=
  match d with
  | S754_zero _ => Some 0
  | S754_finite s m e =>
      let a := Z.shiftl (Zpos m) e in
      if s then (if a =? 0 then Some 0 else None) else (if a <? 2 ^ w then Some a else None)
  | _ => None
  end.

(** std::max (a, b): b when a < b, a otherwise (so the first argument when one is a NaN). *)
Definition d_max (a b : double) : double := if d_ltb a b then b else a.

(** std::llround: to the nearest integer, halves away from zero.  The result for an
    infinity or a NaN is unspecified in C; it is [None]. *)
Definition llround (x : double) : option Z :=
  match x with
  | S754_zero _ => Some 0
  | S754_infinity _ | S754_nan => None
  | S754_finite s m e =>
      let a := if 0 <=? e then Zpos m * 2 ^ e
               else (2 * Zpos m + 2 ^ (- e)) / 2 ^ (1 - e) in
      Some (if s then - a else a)
  end.

(** ns3::Vector *)
Record Vector := mkVector { x : double; y : double; z : double }.

(** struct NrUeBufferStatus, NrUeCqi, NrUeTxPdu, NrUeTxDrop of OranNrDataRepository *)
Record NrUeBufferStatus := mkBufferStatus {
  bs_time : Z; bs_rnti : Z; bs_lcid : Z; txQueueSize : Z; txQueueHolDelay : Z;
  retxQueueSize : Z; retxQueueHolDelay : Z; statusPduSize : Z }.
Record NrUeCqi := mkCqi { cqi_time : Z; cqi_rnti : Z; cqi : Z; mcs : Z; ri : Z }.
Record NrUeTxPdu := mkTxPdu { pdu_time : Z; pdu_rnti : Z; pdu_lcid : Z; txPdu : Z }.
Record NrUeTxDrop := mkTxDrop { drop_time : Z; drop_rnti : Z; drop_lcid : Z; txDrop : Z }.

(** The concrete report classes. *)
Inductive ReportBody : Type :=
| OranReportLocation (location : Vector)
| OranReportNrUeCellInfo (cellId rnti : Z)
| OranReportAppLoss (loss : double)
| OranReportNrUeRsrpRsrq (rnti cellId : Z) (rsrp rsrq : double) (isServingCell : bool)
    (componentCarrierId : Z)
| OranReportNrUeCqi (rnti cqi mcs ri : Z)
| OranReportUeTxBuffer (rnti lcid txQueueSize txQueueHolDelay retxQueueSize retxQueueHolDelay
    statusPduSize : Z)
| OranReportNrUeTxPdu (rnti lcid bytes : Z)
| OranReportNrUeTxDrop (rnti lcid drops : Z)
(** a report class the E2 terminator does not know, OranReport itself included *)
| OranReportOther.

Record OranReport := mkReport {
  ReporterE2NodeId : Z;
  report_time : Z;
  body : ReportBody
}.

(** The TypeId name GetInstanceTypeId () gives. *)
Definition report_TypeId (r : OranReport) : string :=
  match r.(body) with
  | OranReportLocation _ => "ns3::OranReportLocation"
  | OranReportNrUeCellInfo _ _ => "ns3::OranReportNrUeCellInfo"
  | OranReportAppLoss _ => "ns3::OranReportAppLoss"
  | OranReportNrUeRsrpRsrq _ _ _ _ _ _ => "ns3::OranReportNrUeRsrpRsrq"
  | OranReportNrUeCqi _ _ _ _ => "ns3::OranReportNrUeCqi"
  | OranReportUeTxBuffer _ _ _ _ _ _ _ => "ns3::OranReportUeTxBuffer"
  | OranReportNrUeTxPdu _ _ _ => "ns3::OranReportNrUeTxPdu"
  | OranReportNrUeTxDrop _ _ _ => "ns3::OranReportNrUeTxDrop"
  | OranReportOther => "ns3::OranReport"
  end.

(** The concrete command classes; the targets are an unordered_map from RNTI to RBGs. *)
Inductive CommandBody : Type :=
| OranCommandNr2NrHandover (targetCellId targetRnti : Z)
| OranCommandNrUlRbgTargets (ulTargets : gmap Z Z)
| OranCommandOther.

Record OranCommand := mkCommand { TargetE2NodeId : Z; cmd_body : CommandBody }.

(** ToString of the command classes *)
Definition command_ToString (c : OranCommand) : string :=
  match c.(cmd_body) with
  | OranCommandNr2NrHandover cell rnti =>
      "OranCommandNr2NrHandover(TargetE2NodeId = " +:+ pretty c.(TargetE2NodeId)
        +:+ "; TargetCellId = " +:+ pretty cell +:+ "; TargetRnti = " +:+ pretty rnti +:+ ")"
  | OranCommandNrUlRbgTargets t =>
      "OranCommandNrUlRbgTargets{targets=" +:+ pretty (Z.of_nat (size t)) +:+ "}"
  | OranCommandOther => "Parent OranCommand. Should not be used"
  end.

#[export] Instance CommandBody_eq_dec : EqDecision CommandBody.
Proof. solve_decision. Defined.

#[export] Instance OranCommand_eq_dec : EqDecision OranCommand.
Proof. solve_decision. Defined.

#[export] Instance spec_float_eq_dec : EqDecision SpecFloat.spec_float.
Proof. solve_decision. Defined.
#[export] Instance Vector_eq_dec : EqDecision Vector.
Proof. solve_decision. Defined.
#[export] Instance ReportBody_eq_dec : EqDecision ReportBody.
Proof. solve_decision. Defined.
#[export] Instance OranReport_eq_dec : EqDecision OranReport.
Proof. solve_decision. Defined.
Example llround_half : llround (d_div (d_of_Z 5) (d_of_Z 2)) = Some 3.
Proof. reflexivity. Qed.
Example llround_third : llround (d_mul (d_div (d_of_Z 1) (d_of_Z 3)) (d_of_Z 533)) = Some 178.
Proof. vm_compute. reflexivity. Qed.
Example handover_ToString :
  command_ToString (mkCommand 4 (OranCommandNr2NrHandover 2 17))
  = "OranCommandNr2NrHandover(TargetE2NodeId = 4; TargetCellId = 2; TargetRnti = 17)".
Proof. reflexivity. Qed.
