(* ===== verification/Repository.v ===== *)
(** The data repository: src/oran/model/oran-nr-data-repository-sqlite.cc.

    A table is the list of its rows in rowid order.  Each SQL statement of
    InitStatements is a function on the tables, named after its enum constant; each
    method of OranNrDataRepositorySqlite is a function on the repository that binds its
    arguments, runs the statement and reads the columns back at the widths of the source.

    SQLite itself is not part of the repository.  What its documentation leaves open is
    a parameter: the row a bare column is taken from in a MAX() aggregate when several
    rows reach the maximum, and the order of a result without ORDER BY. *)
From Stdlib Require Import ZArith Lia SpecFloat Ascii.
From stdpp Require Import base list gmap strings sorting.
From S2P Require Import Prelude OrdMap Messages.
Open Scope Z_scope.

(** ** Columns *)

(** sqlite3_bind_int: the argument is converted to a 32-bit int. *)
Definition bind_int (v : Z) : Z := i32 v.
(** sqlite3_bind_int64 and sqlite3_column_int64 on 64-bit values *)
Definition bind_int64 (v : Z) : Z := i64 v.
Definition column_int64 (v : Z) : Z := v.
(** sqlite3_column_int: the low 32 bits. *)
Definition column_int (v : Z) : Z := i32 v.

(** ** Tables *)

(** INTEGER PRIMARY KEY AUTOINCREMENT: the largest rowid ever used, and the rows. *)
Record Table (R : Type) := mkTable { t_seq : Z; t_rows : list (Z * R) }.
Arguments mkTable {R}.
Arguments t_seq {R}.
Arguments t_rows {R}.

Definition t_empty {R} : Table R := mkTable 0 [].

Definition t_insert {R} (r : R) (t : Table R) : Table R :=
  mkTable (t.(t_seq) + 1) (t.(t_rows) ++ [(t.(t_seq) + 1, r)]).

Record RegRow := mkReg { reg_nodeid : Z; registered : bool; reg_time : Z }.
Record LocRow := mkLoc { loc_nodeid : Z; loc_pos : Vector; loc_time : Z }.
Record CellRow := mkCell { cell_nodeid : Z; cell_cellid : Z; cell_rnti : Z; cell_time : Z }.
Record BufRow := mkBuf { buf_nodeid : Z; buf_status : NrUeBufferStatus }.
Record PduRow := mkPdu { pdu_nodeid : Z; pdu_sample : NrUeTxPdu }.
Record DropRow := mkDrop { drop_nodeid : Z; drop_sample : NrUeTxDrop }.
Record CqiRow := mkCqiRow { cqi_nodeid : Z; cqi_sample : NrUeCqi }.
Record RsrpRow := mkRsrp {
  rsrp_nodeid : Z; rsrp_time : Z; rsrp_rnti : Z; rsrp_cellid : Z; rsrp : double; rsrq : double;
  serving : bool; ccid : Z }.
Record LossRow := mkLoss { loss_nodeid : Z; loss : double; loss_time : Z }.
Record CmdRow := mkCmdRow { cmd_who : Z; cmd_time : Z; cmd_name : string }.
Record LogRow := mkLog { log_who : string; log_time : Z; log_text : string }.

Record Db := mkDb {
  node : Table Z;
  noderegistration : Table RegRow;
  nodelocation : Table LocRow;
  nrgnb : list (Z * Z);
  nrue : list (Z * Z);
  nruecell : Table CellRow;
  nruetxbuffer : Table BufRow;
  nruetxpdu : Table PduRow;
  nruetxdrop : Table DropRow;
  nruecqi : Table CqiRow;
  nruersrprsrq : Table RsrpRow;
  nodeapploss : Table LossRow;
  terminatorcommand : Table CmdRow;
  lmcommand : Table LogRow;
  lmaction : Table LogRow;
  cmmaction : Table LogRow
}.

(** InitDb on a new file: every table is created empty. *)
Definition InitDb_new : Db :=
  mkDb t_empty t_empty t_empty [] [] t_empty t_empty t_empty t_empty t_empty t_empty t_empty
    t_empty t_empty t_empty t_empty.

(** A setter per table. *)
Definition set_node v d := mkDb v d.(noderegistration) d.(nodelocation) d.(nrgnb) d.(nrue)
  d.(nruecell) d.(nruetxbuffer) d.(nruetxpdu) d.(nruetxdrop) d.(nruecqi) d.(nruersrprsrq)
  d.(nodeapploss) d.(terminatorcommand) d.(lmcommand) d.(lmaction) d.(cmmaction).
Definition set_noderegistration v d := mkDb d.(node) v d.(nodelocation) d.(nrgnb) d.(nrue)
  d.(nruecell) d.(nruetxbuffer) d.(nruetxpdu) d.(nruetxdrop) d.(nruecqi) d.(nruersrprsrq)
  d.(nodeapploss) d.(terminatorcommand) d.(lmcommand) d.(lmaction) d.(cmmaction).
Definition set_nodelocation v d := mkDb d.(node) d.(noderegistration) v d.(nrgnb) d.(nrue)
  d.(nruecell) d.(nruetxbuffer) d.(nruetxpdu) d.(nruetxdrop) d.(nruecqi) d.(nruersrprsrq)
  d.(nodeapploss) d.(terminatorcommand) d.(lmcommand) d.(lmaction) d.(cmmaction).
Definition set_nrgnb v d := mkDb d.(node) d.(noderegistration) d.(nodelocation) v d.(nrue)
  d.(nruecell) d.(nruetxbuffer) d.(nruetxpdu) d.(nruetxdrop) d.(nruecqi) d.(nruersrprsrq)
  d.(nodeapploss) d.(terminatorcommand) d.(lmcommand) d.(lmaction) d.(cmmaction).
Definition set_nrue v d := mkDb d.(node) d.(noderegistration) d.(nodelocation) d.(nrgnb) v
  d.(nruecell) d.(nruetxbuffer) d.(nruetxpdu) d.(nruetxdrop) d.(nruecqi) d.(nruersrprsrq)
  d.(nodeapploss) d.(terminatorcommand) d.(lmcommand) d.(lmaction) d.(cmmaction).
Definition set_nruecell v d := mkDb d.(node) d.(noderegistration) d.(nodelocation) d.(nrgnb)
  d.(nrue) v d.(nruetxbuffer) d.(nruetxpdu) d.(nruetxdrop) d.(nruecqi) d.(nruersrprsrq)
  d.(nodeapploss) d.(terminatorcommand) d.(lmcommand) d.(lmaction) d.(cmmaction).
Definition set_nruetxbuffer v d := mkDb d.(node) d.(noderegistration) d.(nodelocation) d.(nrgnb)
  d.(nrue) d.(nruecell) v d.(nruetxpdu) d.(nruetxdrop) d.(nruecqi) d.(nruersrprsrq)
  d.(nodeapploss) d.(terminatorcommand) d.(lmcommand) d.(lmaction) d.(cmmaction).
Definition set_nruetxpdu v d := mkDb d.(node) d.(noderegistration) d.(nodelocation) d.(nrgnb)
  d.(nrue) d.(nruecell) d.(nruetxbuffer) v d.(nruetxdrop) d.(nruecqi) d.(nruersrprsrq)
  d.(nodeapploss) d.(terminatorcommand) d.(lmcommand) d.(lmaction) d.(cmmaction).
Definition set_nruetxdrop v d := mkDb d.(node) d.(noderegistration) d.(nodelocation) d.(nrgnb)
  d.(nrue) d.(nruecell) d.(nruetxbuffer) d.(nruetxpdu) v d.(nruecqi) d.(nruersrprsrq)
  d.(nodeapploss) d.(terminatorcommand) d.(lmcommand) d.(lmaction) d.(cmmaction).
Definition set_nruecqi v d := mkDb d.(node) d.(noderegistration) d.(nodelocation) d.(nrgnb)
  d.(nrue) d.(nruecell) d.(nruetxbuffer) d.(nruetxpdu) d.(nruetxdrop) v d.(nruersrprsrq)
  d.(nodeapploss) d.(terminatorcommand) d.(lmcommand) d.(lmaction) d.(cmmaction).
Definition set_nruersrprsrq v d := mkDb d.(node) d.(noderegistration) d.(nodelocation) d.(nrgnb)
  d.(nrue) d.(nruecell) d.(nruetxbuffer) d.(nruetxpdu) d.(nruetxdrop) d.(nruecqi) v
  d.(nodeapploss) d.(terminatorcommand) d.(lmcommand) d.(lmaction) d.(cmmaction).
Definition set_nodeapploss v d := mkDb d.(node) d.(noderegistration) d.(nodelocation) d.(nrgnb)
  d.(nrue) d.(nruecell) d.(nruetxbuffer) d.(nruetxpdu) d.(nruetxdrop) d.(nruecqi)
  d.(nruersrprsrq) v d.(terminatorcommand) d.(lmcommand) d.(lmaction) d.(cmmaction).
Definition set_terminatorcommand v d := mkDb d.(node) d.(noderegistration) d.(nodelocation)
  d.(nrgnb) d.(nrue) d.(nruecell) d.(nruetxbuffer) d.(nruetxpdu) d.(nruetxdrop) d.(nruecqi)
  d.(nruersrprsrq) d.(nodeapploss) v d.(lmcommand) d.(lmaction) d.(cmmaction).
Definition set_lmcommand v d := mkDb d.(node) d.(noderegistration) d.(nodelocation)
  d.(nrgnb) d.(nrue) d.(nruecell) d.(nruetxbuffer) d.(nruetxpdu) d.(nruetxdrop) d.(nruecqi)
  d.(nruersrprsrq) d.(nodeapploss) d.(terminatorcommand) v d.(lmaction) d.(cmmaction).
Definition set_lmaction v d := mkDb d.(node) d.(noderegistration) d.(nodelocation)
  d.(nrgnb) d.(nrue) d.(nruecell) d.(nruetxbuffer) d.(nruetxpdu) d.(nruetxdrop) d.(nruecqi)
  d.(nruersrprsrq) d.(nodeapploss) d.(terminatorcommand) d.(lmcommand) v d.(cmmaction).
Definition set_cmmaction v d := mkDb d.(node) d.(noderegistration) d.(nodelocation)
  d.(nrgnb) d.(nrue) d.(nruecell) d.(nruetxbuffer) d.(nruetxpdu) d.(nruetxdrop) d.(nruecqi)
  d.(nruersrprsrq) d.(nodeapploss) d.(terminatorcommand) d.(lmcommand) d.(lmaction) v.

(** ** What SQLite leaves open *)

Class Sqlite : Type := {
  bare_row : list RegRow -> option RegRow;
  scan_order : list RsrpRow -> list RsrpRow
}.

Class SqliteLaws `{Sqlite} : Prop := {
  bare_row_max : forall g, match bare_row g with
    | Some r => r ∈ g /\ Forall (fun r' => r'.(reg_time) <= r.(reg_time)) g
    | None => g = [] end;
  scan_order_perm : forall l, scan_order l ≡ₚ l
}.

(** ORDER BY time, entryid: ascending, and its reverse for DESC, DESC *)
Definition time_le {R} (time : R -> Z) (a b : Z * R) : Prop :=
  time a.2 < time b.2 \/ time a.2 = time b.2 /\ a.1 <= b.1.

#[export] Instance time_le_dec {R} (time : R -> Z) a b : Decision (time_le time a b).
Proof. unfold time_le. apply _. Defined.

Definition order_asc {R} (time : R -> Z) (l : list (Z * R)) : list (Z * R) :=
  merge_sort (time_le time) l.
Definition order_desc {R} (time : R -> Z) (l : list (Z * R)) : list (Z * R) :=
  reverse (order_asc time l).

(** ** The statements *)

Definition CHECK_NODE_REGISTERED (nodeid : Z) (d : Db) : option bool :=
  (fun r => r.2.(registered)) <$>
    head (order_desc reg_time (filter (fun r => r.2.(reg_nodeid) = nodeid) d.(noderegistration).(t_rows))).

Section engine.
Context `{Sqlite}.

(** GROUP BY nodeid HAVING registered = 1 ORDER BY nodeid, on selected rows *)
Definition group_registered (rows : list RegRow) : list (Z * Z) :=
  omap (fun nodeid =>
      match bare_row (filter (fun r => r.(reg_nodeid) = nodeid) rows) with
      | Some r => if r.(registered) then Some (nodeid, r.(reg_time)) else None
      | None => None
      end)
    (merge_sort Z.le (remove_dups (reg_nodeid <$> rows))).

Definition GET_ALL_LAST_REGISTRATION_TIMES (d : Db) : list (Z * Z) :=
  group_registered (snd <$> d.(noderegistration).(t_rows)).

Definition GET_NR_ALL_GNB_E2NODEIDS (d : Db) : list (Z * Z) :=
  group_registered (filter (fun r => r.(reg_nodeid) ∈ d.(nrgnb).*1) (snd <$> d.(noderegistration).(t_rows))).

Definition GET_NR_ALL_UE_E2NODEIDS (d : Db) : list (Z * Z) :=
  group_registered (filter (fun r => r.(reg_nodeid) ∈ d.(nrue).*1) (snd <$> d.(noderegistration).(t_rows))).

(** All the rows of the latest time of the node. *)
Definition GET_NR_UE_RSRP_RSRQ (nodeid : Z) (d : Db) : list RsrpRow :=
  let mine := filter (fun r => r.(rsrp_nodeid) = nodeid) (snd <$> d.(nruersrprsrq).(t_rows)) in
  match last (merge_sort Z.le (rsrp_time <$> mine)) with
  | None => []
  | Some t => scan_order (filter (fun r => r.(rsrp_time) = t) mine)
  end.
End engine.

Definition GET_NR_CELLID_FROM_E2NODEID (nodeid : Z) (d : Db) : option Z :=
  smap_lookup nodeid d.(nrgnb).

Definition GET_NR_UE_CELLINFO (nodeid : Z) (d : Db) : option CellRow :=
  snd <$> head (order_desc cell_time (filter (fun r => r.2.(cell_nodeid) = nodeid) d.(nruecell).(t_rows))).

Definition GET_NR_UE_E2NODEID_FROM_CELLINFO (cellid rnti : Z) (d : Db) : option Z :=
  (fun r => r.2.(cell_nodeid)) <$>
    last (filter (fun r => r.2.(cell_cellid) = cellid /\ r.2.(cell_rnti) = rnti) d.(nruecell).(t_rows)).

Definition GET_NR_UE_TX_BUFFER_STATUS (nodeid : Z) (d : Db) : list BufRow :=
  snd <$> order_asc (fun r => bs_time r.(buf_status))
            (filter (fun r => r.2.(buf_nodeid) = nodeid) d.(nruetxbuffer).(t_rows)).

Definition GET_NR_UE_TX_PDU (nodeid : Z) (d : Db) : list PduRow :=
  snd <$> order_desc (fun r => pdu_time r.(pdu_sample))
            (filter (fun r => r.2.(pdu_nodeid) = nodeid) d.(nruetxpdu).(t_rows)).

Definition GET_NR_UE_TX_DROP (nodeid : Z) (d : Db) : list DropRow :=
  snd <$> order_desc (fun r => drop_time r.(drop_sample))
            (filter (fun r => r.2.(drop_nodeid) = nodeid) d.(nruetxdrop).(t_rows)).

Definition GET_NODE_ALL_POSITIONS (nodeid from to limit : Z) (d : Db) : list LocRow :=
  let rows := filter (fun r => r.2.(loc_nodeid) = nodeid /\ from <= r.2.(loc_time) /\ r.2.(loc_time) <= to)
                d.(nodelocation).(t_rows) in
  let sorted := snd <$> order_desc loc_time rows in
  (* a negative LIMIT is no limit *)
  if limit <? 0 then sorted else take (Z.to_nat limit) sorted.

(** the last loss of SELECT loss ... ORDER BY entryid DESC LIMIT 1 *)
Definition GET_NODE_APPLOSS (nodeid : Z) (d : Db) : option double :=
  (fun r => r.2.(loss)) <$> last (filter (fun r => r.2.(loss_nodeid) = nodeid) d.(nodeapploss).(t_rows)).

(** INSERT OR REPLACE: the rows that violate the PRIMARY KEY are deleted first. *)
Definition INSERT_NR_GNB_NODE (nodeid cellid : Z) (d : Db) : Db :=
  set_nrgnb (smap_insert nodeid cellid d.(nrgnb)) d.

(** nrue also has UNIQUE (imsi): a row with the same imsi is deleted too. *)
Definition INSERT_NR_UE_NODE (nodeid imsi : Z) (d : Db) : Db :=
  set_nrue (smap_insert nodeid imsi (filter (fun r => r.2 <> imsi) d.(nrue))) d.

(** The new rowid is one more than the largest ever used. *)
Definition INSERT_NODE_ADD (nodetype : Z) (d : Db) : Z * Db :=
  let nodeid := d.(node).(t_seq) + 1 in
  (nodeid, set_node (mkTable nodeid (smap_insert nodeid nodetype d.(node).(t_rows))) d).

Definition INSERT_NODE_UPDATE (nodeid nodetype : Z) (d : Db) : Z * Db :=
  (nodeid, set_node (mkTable (Z.max d.(node).(t_seq) nodeid)
                      (smap_insert nodeid nodetype d.(node).(t_rows))) d).

Definition INSERT_NODE_REGISTRATION (r : RegRow) (d : Db) : Db :=
  set_noderegistration (t_insert r d.(noderegistration)) d.
Definition INSERT_NODE_LOCATION (r : LocRow) (d : Db) : Db :=
  set_nodelocation (t_insert r d.(nodelocation)) d.
Definition INSERT_NR_UE_CELL (r : CellRow) (d : Db) : Db :=
  set_nruecell (t_insert r d.(nruecell)) d.
Definition INSERT_NR_UE_TX_BUFFER_STATUS (r : BufRow) (d : Db) : Db :=
  set_nruetxbuffer (t_insert r d.(nruetxbuffer)) d.
Definition INSERT_NR_UE_TX_PDU (r : PduRow) (d : Db) : Db :=
  set_nruetxpdu (t_insert r d.(nruetxpdu)) d.
Definition INSERT_NR_UE_TX_DROP (r : DropRow) (d : Db) : Db :=
  set_nruetxdrop (t_insert r d.(nruetxdrop)) d.
Definition INSERT_NR_UE_CQI (r : CqiRow) (d : Db) : Db :=
  set_nruecqi (t_insert r d.(nruecqi)) d.
Definition INSERT_NR_UE_RSRP_RSRQ (r : RsrpRow) (d : Db) : Db :=
  set_nruersrprsrq (t_insert r d.(nruersrprsrq)) d.
Definition INSERT_NODE_APPLOSS (r : LossRow) (d : Db) : Db :=
  set_nodeapploss (t_insert r d.(nodeapploss)) d.
Definition LOG_E2TERMINATOR_COMMAND (r : CmdRow) (d : Db) : Db :=
  set_terminatorcommand (t_insert r d.(terminatorcommand)) d.
Definition LOG_LM_COMMAND (r : LogRow) (d : Db) : Db := set_lmcommand (t_insert r d.(lmcommand)) d.
Definition LOG_LM_ACTION (r : LogRow) (d : Db) : Db := set_lmaction (t_insert r d.(lmaction)) d.
Definition LOG_CMM_ACTION (r : LogRow) (d : Db) : Db := set_cmmaction (t_insert r d.(cmmaction)) d.

(** ** OranNrDataRepositorySqlite *)

(** enum NodeType *)
Inductive NodeType := WIRED | NRUE | NRGNB.
Definition NodeType_int (t : NodeType) : Z :=
  match t with WIRED => 0 | NRUE => 1 | NRGNB => 2 end.

#[export] Instance NodeType_eq_dec : EqDecision NodeType.
Proof. solve_decision. Defined.

(** [m_db] is the open connection, [db_file] the contents of the named file on disk. *)
Record Repo := mkRepo {
  m_active : bool;
  m_dbPath : string;
  m_db : option Db;
  db_file : Db;
  m_bufferStatus : list (Z * list NrUeBufferStatus);
  m_cqiSamples : list (Z * list NrUeCqi);
  m_txPduSamples : list (Z * list NrUeTxPdu);
  m_txDropSamples : list (Z * list NrUeTxDrop)
}.

Definition OranNrDataRepositorySqlite (path : string) (file : Db) : Repo :=
  mkRepo false path None file [] [] [] [].

Definition set_active b r := mkRepo b r.(m_dbPath) r.(m_db) r.(db_file) r.(m_bufferStatus)
  r.(m_cqiSamples) r.(m_txPduSamples) r.(m_txDropSamples).
Definition set_db d r := mkRepo r.(m_active) r.(m_dbPath) d r.(db_file) r.(m_bufferStatus)
  r.(m_cqiSamples) r.(m_txPduSamples) r.(m_txDropSamples).
Definition set_file f r := mkRepo r.(m_active) r.(m_dbPath) r.(m_db) f r.(m_bufferStatus)
  r.(m_cqiSamples) r.(m_txPduSamples) r.(m_txDropSamples).
Definition set_bufferStatus v r := mkRepo r.(m_active) r.(m_dbPath) r.(m_db) r.(db_file) v
  r.(m_cqiSamples) r.(m_txPduSamples) r.(m_txDropSamples).
Definition set_cqiSamples v r := mkRepo r.(m_active) r.(m_dbPath) r.(m_db) r.(db_file)
  r.(m_bufferStatus) v r.(m_txPduSamples) r.(m_txDropSamples).
Definition set_txPduSamples v r := mkRepo r.(m_active) r.(m_dbPath) r.(m_db) r.(db_file)
  r.(m_bufferStatus) r.(m_cqiSamples) v r.(m_txDropSamples).
Definition set_txDropSamples v r := mkRepo r.(m_active) r.(m_dbPath) r.(m_db) r.(db_file)
  r.(m_bufferStatus) r.(m_cqiSamples) r.(m_txPduSamples) v.

(** ":memory:" and "" name no file: the database is gone when the connection closes. *)
Definition names_file (path : string) : bool :=
  negb (bool_decide (path = ":memory:")) && negb (bool_decide (path = "")).

Fixpoint has_colon (s : string) : bool :=
  match s with
  | EmptyString => false
  | String c s => bool_decide (c = ":"%char) || has_colon s
  end.

Definition IsDbOpen (r : Repo) : bool := if r.(m_db) then true else false.

(** CREATE TABLE IF NOT EXISTS and CREATE INDEX IF NOT EXISTS keep the contents. *)
Definition OpenDb (r : Repo) : res Repo :=
  let* _ := abort_if (negb (bool_decide (r.(m_dbPath) = ":memory:")) && has_colon r.(m_dbPath))
              "is an URI. URI-named DBs are not supported" in
  Ok (set_db (Some (if names_file r.(m_dbPath) then r.(db_file) else InitDb_new)) r).

Definition CloseDb (r : Repo) : Repo :=
  let r' := set_db None r in
  match r.(m_db) with
  | Some d => if names_file r.(m_dbPath) then set_file d r' else r'
  | None => r'
  end.

Definition Activate (r : Repo) : res Repo :=
  let r := set_active true r in
  if negb (IsDbOpen r) then OpenDb r else Ok r.

Definition Deactivate (r : Repo) : Repo :=
  set_active false (if IsDbOpen r then CloseDb r else r).

(** The connection a statement is prepared on. *)
Definition db_of (r : Repo) : res Db :=
  match r.(m_db) with Some d => Ok d | None => Abort "sqlite3_prepare_v2 on a closed database" end.

Definition update_db (f : Db -> Db) (r : Repo) : res Repo :=
  let* d := db_of r in Ok (set_db (Some (f d)) r).

Definition IsNodeRegistered (e2NodeId : Z) (r : Repo) : res bool :=
  if r.(m_active) then
    let* d := db_of r in
    Ok (default false (CHECK_NODE_REGISTERED (bind_int64 e2NodeId) d))
  else Ok false.

Definition RegisterNode (type : NodeType) (id now : Z) (r : Repo) : res (Z * Repo) :=
  if r.(m_active) then
    let* d := db_of r in
    let '(rowid, d) :=
      if id =? 0 then INSERT_NODE_ADD (bind_int (NodeType_int type)) d
      else INSERT_NODE_UPDATE (bind_int id) (bind_int (NodeType_int type)) d in
    let e2NodeId := u64 rowid in
    let d := INSERT_NODE_REGISTRATION (mkReg (bind_int64 e2NodeId) true now) d in
    Ok (e2NodeId, set_db (Some d) r)
  else Ok (0, r).

(** The row of nrue is keyed by the argument [id], not by the id RegisterNode returns. *)
Definition RegisterNodeNrUe (id imsi now : Z) (r : Repo) : res (Z * Repo) :=
  if r.(m_active) then
    let* reg := RegisterNode NRUE id now r in
    let* r := update_db (INSERT_NR_UE_NODE (bind_int64 id) (bind_int64 imsi)) reg.2 in
    Ok (reg.1, r)
  else Ok (0, r).

Definition RegisterNodeNrGnb (id cellId now : Z) (r : Repo) : res (Z * Repo) :=
  if r.(m_active) then
    let* reg := RegisterNode NRGNB id now r in
    let* r := update_db (INSERT_NR_GNB_NODE (bind_int64 id) (bind_int cellId)) reg.2 in
    Ok (reg.1, r)
  else Ok (0, r).

Definition DeregisterNode (e2NodeId now : Z) (r : Repo) : res (Z * Repo) :=
  if r.(m_active) then
    let* r := update_db (INSERT_NODE_REGISTRATION (mkReg (bind_int64 e2NodeId) false now)) r in
    Ok (e2NodeId, r)
  else Ok (0, r).

(** The guard every Save method has: active, and the node registered. *)
Definition when_registered (e2NodeId : Z) (f : Repo -> res Repo) (r : Repo) : res Repo :=
  if r.(m_active) then
    let* reg := IsNodeRegistered e2NodeId r in
    if (reg : bool) then f r else Ok r
  else Ok r.

Definition SavePosition (e2NodeId : Z) (pos : Vector) (t : Z) : Repo -> res Repo :=
  when_registered e2NodeId
    (update_db (INSERT_NODE_LOCATION (mkLoc (bind_int64 e2NodeId) pos t))).

Definition SaveNrUeCellInfo (e2NodeId cellId rnti t : Z) : Repo -> res Repo :=
  when_registered e2NodeId
    (update_db (INSERT_NR_UE_CELL (mkCell (bind_int64 e2NodeId) (bind_int cellId) (bind_int rnti) t))).

(** push_back, then erase (begin ()) above 1000 samples *)
Definition push_window {A} (k : Z) (v : A) (m : list (Z * list A)) : list (Z * list A) :=
  let m := smap_update k [] (fun l => l ++ [v]) m in
  if (1000 <? length (default [] (smap_lookup k m)))%nat
  then smap_update k [] (drop 1) m else m.

Definition SaveNrUeBufferStatus (e2NodeId : Z) (s : NrUeBufferStatus) : Repo -> res Repo :=
  when_registered e2NodeId (fun r =>
    let r := set_bufferStatus (push_window e2NodeId s r.(m_bufferStatus)) r in
    update_db (INSERT_NR_UE_TX_BUFFER_STATUS (mkBuf (bind_int64 e2NodeId)
      (mkBufferStatus s.(bs_time) (bind_int s.(bs_rnti)) (bind_int s.(bs_lcid))
         (bind_int64 s.(txQueueSize)) (bind_int s.(txQueueHolDelay))
         (bind_int64 s.(retxQueueSize)) (bind_int s.(retxQueueHolDelay))
         (bind_int s.(statusPduSize))))) r).

Definition SaveNrUeCqi (e2NodeId : Z) (c : NrUeCqi) : Repo -> res Repo :=
  when_registered e2NodeId (fun r =>
    let r := set_cqiSamples (push_window e2NodeId c r.(m_cqiSamples)) r in
    update_db (INSERT_NR_UE_CQI (mkCqiRow (bind_int64 e2NodeId)
      (mkCqi c.(cqi_time) (bind_int c.(cqi_rnti)) (bind_int c.(cqi)) (bind_int c.(mcs))
         (bind_int c.(ri))))) r).

Definition SaveNrUeTxPdu (e2NodeId : Z) (p : NrUeTxPdu) : Repo -> res Repo :=
  when_registered e2NodeId (fun r =>
    let r := set_txPduSamples (push_window e2NodeId p r.(m_txPduSamples)) r in
    update_db (INSERT_NR_UE_TX_PDU (mkPdu (bind_int64 e2NodeId)
      (mkTxPdu p.(pdu_time) (bind_int p.(pdu_rnti)) (bind_int p.(pdu_lcid))
         (bind_int64 p.(txPdu))))) r).

Definition SaveNrUeTxDrop (e2NodeId : Z) (p : NrUeTxDrop) : Repo -> res Repo :=
  when_registered e2NodeId (fun r =>
    let r := set_txDropSamples (push_window e2NodeId p r.(m_txDropSamples)) r in
    update_db (INSERT_NR_UE_TX_DROP (mkDrop (bind_int64 e2NodeId)
      (mkTxDrop p.(drop_time) (bind_int p.(drop_rnti)) (bind_int p.(drop_lcid))
         (bind_int64 p.(txDrop))))) r).

Definition SaveAppLoss (e2NodeId : Z) (appLoss : double) (t : Z) : Repo -> res Repo :=
  when_registered e2NodeId
    (update_db (INSERT_NODE_APPLOSS (mkLoss (bind_int64 e2NodeId) appLoss t))).

Definition SaveNrUeRsrpRsrq (e2NodeId t rnti cellId : Z) (rsrp rsrq : double) (isServing : bool)
    (componentCarrierId : Z) : Repo -> res Repo :=
  when_registered e2NodeId
    (update_db (INSERT_NR_UE_RSRP_RSRQ (mkRsrp (bind_int64 e2NodeId) t (bind_int rnti)
      (bind_int cellId) rsrp rsrq isServing (bind_int componentCarrierId)))).

(** The guard of the Get methods; [d0] is what they return when it fails. *)
Definition get_registered {A} (e2NodeId : Z) (d0 : A) (f : Db -> A) (r : Repo) : res A :=
  if r.(m_active) then
    let* reg := IsNodeRegistered e2NodeId r in
    if (reg : bool) then let* d := db_of r in Ok (f d) else Ok d0
  else Ok d0.

Definition get_active {A} (d0 : A) (f : Db -> A) (r : Repo) : res A :=
  if r.(m_active) then let* d := db_of r in Ok (f d) else Ok d0.

(** std::map<Time, Vector>: a later row of the result overwrites one of the same time. *)
Definition GetNodePositions (e2NodeId from to maxEntries : Z) : Repo -> res (list (Z * Vector)) :=
  get_registered e2NodeId [] (fun d =>
    foldl (fun m row => smap_insert row.(loc_time) row.(loc_pos) m) []
      (GET_NODE_ALL_POSITIONS (bind_int64 e2NodeId) from to (bind_int64 maxEntries) d)).

Definition GetNrUeCellInfo (e2NodeId : Z) : Repo -> res (bool * Z * Z) :=
  get_registered e2NodeId (false, 0, 0) (fun d =>
    match GET_NR_UE_CELLINFO (bind_int64 e2NodeId) d with
    | Some row => (true, u16 (column_int row.(cell_cellid)), u16 (column_int row.(cell_rnti)))
    | None => (false, 0, 0)
    end).

Definition GetAppLoss (e2NodeId : Z) : Repo -> res double :=
  get_registered e2NodeId d_zero (fun d =>
    default d_zero (GET_NODE_APPLOSS (bind_int64 e2NodeId) d)).

Definition GetNrUeE2NodeIdFromCellInfo (cellId rnti : Z) : Repo -> res Z :=
  get_active 0 (fun d =>
    match GET_NR_UE_E2NODEID_FROM_CELLINFO (bind_int cellId) (bind_int rnti) d with
    | Some id => u64 id
    | None => 0
    end).

Definition GetNrGnbCellInfo (e2NodeId : Z) : Repo -> res (bool * Z) :=
  get_registered e2NodeId (false, 0) (fun d =>
    match GET_NR_CELLID_FROM_E2NODEID (bind_int64 e2NodeId) d with
    | Some cellid => (true, u16 (column_int cellid))
    | None => (false, 0)
    end).

Definition GetNrUeBufferStatus (e2NodeId : Z) : Repo -> res (list NrUeBufferStatus) :=
  get_registered e2NodeId [] (fun d =>
    (fun row => let s := row.(buf_status) in
       mkBufferStatus s.(bs_time) (u16 (column_int s.(bs_rnti))) (u8 (column_int s.(bs_lcid)))
         (u32 (column_int s.(txQueueSize))) (u16 (column_int s.(txQueueHolDelay)))
         (u32 (column_int s.(retxQueueSize))) (u16 (column_int s.(retxQueueHolDelay)))
         (u16 (column_int s.(statusPduSize))))
    <$> GET_NR_UE_TX_BUFFER_STATUS (bind_int64 e2NodeId) d).

(** From the memory copy, whatever the activity and the registration. *)
Definition GetNrUeCqi (e2NodeId : Z) (r : Repo) : list NrUeCqi :=
  match smap_lookup e2NodeId r.(m_cqiSamples) with Some l => l | None => [] end.

Definition GetNrUeTxPdu (e2NodeId : Z) : Repo -> res (list NrUeTxPdu) :=
  get_registered e2NodeId [] (fun d =>
    (fun row => let p := row.(pdu_sample) in
       mkTxPdu p.(pdu_time) (u16 (column_int p.(pdu_rnti))) (u8 (column_int p.(pdu_lcid)))
         (u32 (column_int p.(txPdu))))
    <$> GET_NR_UE_TX_PDU (bind_int64 e2NodeId) d).

Definition GetNrUeTxDrop (e2NodeId : Z) : Repo -> res (list NrUeTxDrop) :=
  get_registered e2NodeId [] (fun d =>
    (fun row => let p := row.(drop_sample) in
       mkTxDrop p.(drop_time) (u16 (column_int p.(drop_rnti))) (u8 (column_int p.(drop_lcid)))
         (u32 (column_int p.(txDrop))))
    <$> GET_NR_UE_TX_DROP (bind_int64 e2NodeId) d).

Section engine_methods.
Context `{Sqlite}.

Definition GetNrUeE2NodeIds : Repo -> res (list Z) :=
  get_active [] (fun d => (fun r => u64 r.1) <$> GET_NR_ALL_UE_E2NODEIDS d).

Definition GetNrGnbE2NodeIds : Repo -> res (list Z) :=
  get_active [] (fun d => (fun r => u64 r.1) <$> GET_NR_ALL_GNB_E2NODEIDS d).

Definition GetLastRegistrationRequests : Repo -> res (list (Z * Z)) :=
  get_active [] (fun d => (fun r => (u64 r.1, r.2)) <$> GET_ALL_LAST_REGISTRATION_TIMES d).

Definition GetNrUeRsrpRsrq (e2NodeId : Z) : Repo -> res (list (Z * Z * double * double * bool * Z)) :=
  get_registered e2NodeId [] (fun d =>
    (fun row => (u16 (column_int row.(rsrp_rnti)), u16 (column_int row.(rsrp_cellid)),
                 row.(rsrp), row.(rsrq), row.(serving), u8 (column_int row.(ccid))))
    <$> GET_NR_UE_RSRP_RSRQ (bind_int64 e2NodeId) d).
End engine_methods.

Definition LogCommandE2Terminator (cmd : OranCommand) (now : Z) : Repo -> res Repo :=
  when_registered cmd.(TargetE2NodeId)
    (update_db (LOG_E2TERMINATOR_COMMAND
       (mkCmdRow (bind_int64 cmd.(TargetE2NodeId)) now (command_ToString cmd)))).

Definition when_active (f : Repo -> res Repo) (r : Repo) : res Repo :=
  if r.(m_active) then f r else Ok r.

Definition LogCommandLm (lm : string) (cmd : OranCommand) (now : Z) : Repo -> res Repo :=
  when_active (update_db (LOG_LM_COMMAND (mkLog lm now (command_ToString cmd)))).

Definition LogActionLm (lm logStr : string) (now : Z) : Repo -> res Repo :=
  when_active (update_db (LOG_LM_ACTION (mkLog lm now logStr))).

Definition LogActionCmm (cmm logStr : string) (now : Z) : Repo -> res Repo :=
  when_active (update_db (LOG_CMM_ACTION (mkLog cmm now logStr))).
