(* ===== verification/RepositoryFacts.v ===== *)
(** Facts about the repository: which nodes are registered, how ids are given out, and
    what a stored sample reads back as. *)
From Stdlib Require Import ZArith Lia SpecFloat Sorting.Sorted.
From stdpp Require Import base list gmap strings sorting sets.
From S2P Require Import Prelude OrdMap Messages Repository.
Open Scope Z_scope.

(** ** Ordering rows *)

#[export] Instance time_le_total {R} (time : R -> Z) : Total (time_le time).
Proof. intros [i a] [j b]. unfold time_le. cbn. lia. Qed.

#[export] Instance time_le_trans {R} (time : R -> Z) : Transitive (time_le time).
Proof. intros [i a] [j b] [k c]. unfold time_le. cbn. lia. Qed.

Lemma order_asc_perm {R} (time : R -> Z) l : order_asc time l ≡ₚ l.
Proof. apply merge_sort_Permutation. Qed.

Lemma order_asc_sorted {R} (time : R -> Z) l : StronglySorted (time_le time) (order_asc time l).
Proof. apply StronglySorted_merge_sort; apply _. Qed.

Lemma order_desc_perm {R} (time : R -> Z) l : order_desc time l ≡ₚ l.
Proof. unfold order_desc. by rewrite reverse_Permutation, order_asc_perm. Qed.

Lemma sorted_last_max {A} (R : relation A) l x :
  Reflexive R -> StronglySorted R l -> last l = Some x -> Forall (fun y => R y x) l.
Proof.
  intros Hr S L. apply last_Some in L as [l' ->]. apply Forall_app. split; [|by repeat constructor].
  apply Forall_forall. intros y Hy. eapply StronglySorted_app_1_elem_of; [exact S|done|by left].
Qed.

(** The head of a descending result is the largest row. *)
Lemma head_order_desc {R} (time : R -> Z) l (m : Z * R) :
  m ∈ l -> (forall a, a ∈ l -> a = m \/ ~ time_le time m a) ->
  head (order_desc time l) = Some m.
Proof.
  intros Hm Hmax. unfold order_desc. rewrite head_reverse.
  destruct (last (order_asc time l)) as [x|] eqn:L.
  - pose proof (sorted_last_max (time_le time) _ _ ltac:(intros ?; unfold time_le; lia)
      (order_asc_sorted time l) L) as F.
    rewrite Forall_forall in F.
    assert (time_le time m x) as Hmx by (apply F; by rewrite order_asc_perm).
    assert (x ∈ l) as Hx.
    { rewrite <- (order_asc_perm time l). apply last_Some in L as [l' ->]. set_solver. }
    destruct (Hmax x Hx) as [->|N]; done.
  - apply last_None in L. pose proof (order_asc_perm time l) as P. rewrite L in P.
    apply Permutation_nil_l in P. subst. set_solver.
Qed.

(** ** Tables of samples *)

(** Row ids are at most the sequence counter, times at most [now]. *)
Definition upto {R} (time : R -> Z) (now : Z) (t : Table R) : Prop :=
  Forall (fun r => r.1 <= t.(t_seq) /\ time r.2 <= now) t.(t_rows).

Lemma upto_insert {R} (time : R -> Z) now (r : R) t :
  upto time now t -> time r <= now -> upto time now (t_insert r t).
Proof.
  intros U Hr. unfold upto, t_insert. cbn. apply Forall_app. split.
  - eapply Forall_impl; [exact U|]. cbn. lia.
  - repeat constructor; cbn; lia.
Qed.

Lemma upto_mono {R} (time : R -> Z) now now' (t : Table R) :
  now <= now' -> upto time now t -> upto time now' t.
Proof. intros Hn U. eapply Forall_impl; [exact U|]. cbn. lia. Qed.

Lemma upto_empty {R} (time : R -> Z) now : upto time now t_empty.
Proof. constructor. Qed.

Lemma head_desc_insert {R} (time : R -> Z) (P : Z * R -> Prop) `{forall r, Decision (P r)} now r t :
  upto time now t -> now <= time r -> P (t.(t_seq) + 1, r) ->
  head (order_desc time (filter P (t_insert r t).(t_rows))) = Some (t.(t_seq) + 1, r).
Proof.
  intros U Hn HP. apply head_order_desc.
  - apply list_elem_of_filter. cbn. set_solver.
  - intros a [Ha Hin]%list_elem_of_filter. cbn in Hin.
    apply elem_of_app in Hin as [Hin| ->%list_elem_of_singleton]; [right|by left].
    unfold upto in U. rewrite Forall_forall in U. specialize (U _ Hin). unfold time_le. cbn. lia.
Qed.

Lemma filter_insert_other {R} (P : Z * R -> Prop) `{forall r, Decision (P r)} r t :
  ~ P (t.(t_seq) + 1, r) -> filter P (t_insert r t).(t_rows) = filter P t.(t_rows).
Proof.
  intros N. cbn. rewrite filter_app, filter_cons_False, filter_nil by done. apply app_nil_r.
Qed.

#[export] Hint Resolve upto_insert upto_empty : oran.

(** ** 64-bit columns are injective *)

Lemma i64_inj a b : fits 64 a -> fits 64 b -> bind_int64 a = bind_int64 b -> a = b.
Proof.
  unfold bind_int64. intros Ha Hb Hab.
  rewrite <- (wrap_small 64 a), <- (wrap_small 64 b) by done.
  rewrite <- (wrap_swrap 64 a), <- (wrap_swrap 64 b) by lia. by rewrite Hab.
Qed.

Lemma i64_of_u64 a : fits 64 a -> u64 (bind_int64 a) = a.
Proof. intros Ha. unfold bind_int64. rewrite wrap_swrap by lia. by apply wrap_small. Qed.

Lemma column_bind_int w a : 0 < w <= 32 -> fits w a -> wrap w (column_int (bind_int a)) = a.
Proof.
  intros Hw Ha. unfold column_int, bind_int.
  rewrite <- (wrap_wrap_le w 32) by lia. rewrite !wrap_swrap by lia.
  rewrite wrap_wrap_le by lia. by apply wrap_small.
Qed.

Lemma column_bind_int64 w a : 0 < w <= 32 -> wrap w (column_int (bind_int64 a)) = wrap w a.
Proof.
  intros Hw. unfold column_int, bind_int64.
  rewrite <- (wrap_wrap_le w 32) by lia. rewrite wrap_swrap by lia. rewrite wrap_wrap_le by lia.
  rewrite <- (wrap_wrap_le w 64) by lia. rewrite wrap_swrap by lia. by rewrite wrap_wrap_le by lia.
Qed.

#[export] Hint Resolve column_bind_int : oran.

(** ** The repository in use *)

(** Active, with an open database whose registrations are not in the future. *)
Definition repo_ready (now : Z) (d : Db) (r : Repo) : Prop :=
  r.(m_active) = true /\ r.(m_db) = Some d /\ upto reg_time now d.(noderegistration).

Lemma db_of_ready now d r : repo_ready now d r -> db_of r = Ok d.
Proof. intros (_ & E & _). unfold db_of. by rewrite E. Qed.

Lemma IsNodeRegistered_ready now d r id :
  repo_ready now d r ->
  IsNodeRegistered id r = Ok (default false (CHECK_NODE_REGISTERED (bind_int64 id) d)).
Proof.
  intros H. unfold IsNodeRegistered. rewrite (proj1 H). by rewrite (db_of_ready _ _ _ H).
Qed.

Lemma check_after_insert now d row :
  upto reg_time now d.(noderegistration) -> now <= row.(reg_time) ->
  CHECK_NODE_REGISTERED row.(reg_nodeid) (INSERT_NODE_REGISTRATION row d) = Some row.(registered).
Proof.
  intros U Hn. unfold CHECK_NODE_REGISTERED. cbn [noderegistration INSERT_NODE_REGISTRATION set_noderegistration].
  by rewrite (head_desc_insert reg_time _ now).
Qed.

Lemma check_after_insert_other d row id :
  row.(reg_nodeid) <> id ->
  CHECK_NODE_REGISTERED id (INSERT_NODE_REGISTRATION row d) = CHECK_NODE_REGISTERED id d.
Proof.
  intros N. unfold CHECK_NODE_REGISTERED. cbn [noderegistration INSERT_NODE_REGISTRATION set_noderegistration].
  by rewrite filter_insert_other.
Qed.

(** A statement that leaves the registrations alone leaves the answers alone. *)
Lemma check_ext d d' id :
  d'.(noderegistration) = d.(noderegistration) ->
  CHECK_NODE_REGISTERED id d' = CHECK_NODE_REGISTERED id d.
Proof. intros E. unfold CHECK_NODE_REGISTERED. by rewrite E. Qed.

(** What the registration methods leave behind, whatever the node type. *)
Lemma RegisterNode_ok now d r type id :
  repo_ready now d r ->
  exists e d', RegisterNode type id now r = Ok (e, set_db (Some d') r) /\
    repo_ready now d' (set_db (Some d') r) /\
    d'.(noderegistration) = t_insert (mkReg (bind_int64 e) true now) d.(noderegistration) /\
    d'.(nrue) = d.(nrue) /\ d'.(nrgnb) = d.(nrgnb) /\
    e = u64 (if id =? 0 then d.(node).(t_seq) + 1 else bind_int id) /\
    CHECK_NODE_REGISTERED (bind_int64 e) d' = Some true.
Proof.
  intros H. pose proof H as (A & E & U). unfold RegisterNode. rewrite A, (db_of_ready _ _ _ H).
  cbn [res_bind].
  destruct (id =? 0); cbn; do 2 eexists; (split; [done|]); (split; [split_and!; [done|done|]|]);
    cbn; try (apply upto_insert; [done|cbn; lia]).
  all: split_and!; try done.
  all: match goal with |- CHECK_NODE_REGISTERED (bind_int64 ?e) ?d' = _ =>
         change (bind_int64 e) with (reg_nodeid (mkReg (bind_int64 e) true now)) end.
  all: apply (check_after_insert now); [done|cbn; lia].
Qed.

(** ** The rows that come first *)

Record table_ok {R} (time : R -> Z) (now : Z) (t : Table R) : Prop := {
  tok_upto : upto time now t;
  tok_ids : NoDup t.(t_rows).*1
}.

Lemma table_ok_insert {R} (time : R -> Z) now (r : R) t :
  table_ok time now t -> time r <= now -> table_ok time now (t_insert r t).
Proof.
  intros [U N] Hr. split; [by apply upto_insert|]. cbn. rewrite fmap_app. apply NoDup_app.
  split_and!; [done| |apply NoDup_singleton].
  intros i (a & -> & Ha)%list_elem_of_fmap Hi%list_elem_of_singleton.
  unfold upto in U. rewrite Forall_forall in U. specialize (U _ Ha). cbn in Hi. lia.
Qed.

(** A new row with the latest time is last in ascending order. *)
Lemma order_asc_insert {R} (time : R -> Z) (P : Z * R -> Prop) `{forall r, Decision (P r)} r t :
  table_ok time (time r) t -> P (t.(t_seq) + 1, r) ->
  order_asc time (filter P (t_insert r t).(t_rows))
  = order_asc time (filter P t.(t_rows)) ++ [(t.(t_seq) + 1, r)].
Proof.
  intros [U N] HP. unfold upto in U. rewrite Forall_forall in U.
  apply (StronglySorted_unique_strong (time_le time)).
  - intros a b Ha Hb L1 L2.
    rewrite order_asc_perm in Ha. apply list_elem_of_filter in Ha as [_ Ha]. cbn in Ha.
    rewrite order_asc_perm in Hb.
    assert (b ∈ t.(t_rows) ++ [(t.(t_seq) + 1, r)]) as Hb'.
    { apply elem_of_app in Hb as [[_ Hb]%list_elem_of_filter|Hb]; set_solver. }
    assert (a.1 = b.1) as E by (unfold time_le in *; lia).
    apply elem_of_app in Ha as [Ha|Ha%list_elem_of_singleton],
      Hb' as [Hb'|Hb'%list_elem_of_singleton]; subst; try done.
    + destruct a as [i a], b as [j b]. cbn in E. subst j.
      assert (smap_lookup i t.(t_rows) = Some a) as Ea by (by apply smap_elem_lookup).
      assert (smap_lookup i t.(t_rows) = Some b) as Eb by (by apply smap_elem_lookup).
      congruence.
    + apply U in Ha. cbn in E. lia.
    + apply U in Hb'. cbn in E. lia.
  - apply order_asc_sorted.
  - apply StronglySorted_app_2; [|apply order_asc_sorted|repeat constructor].
    intros a b Ha ->%list_elem_of_singleton. rewrite order_asc_perm in Ha.
    apply list_elem_of_filter in Ha as [_ Ha%U]. unfold time_le. cbn. lia.
  - rewrite !order_asc_perm. cbn. by rewrite filter_app, filter_cons_True, filter_nil.
Qed.

(** ** Grouped results *)

Section grouped.
Context `{SqliteLaws}.

Lemma group_registered_elem rows id t :
  (id, t) ∈ group_registered rows <->
  exists r, bare_row (filter (fun r => r.(reg_nodeid) = id) rows) = Some r /\
            r.(registered) = true /\ r.(reg_time) = t.
Proof.
  unfold group_registered. rewrite list_elem_of_omap. split.
  - intros (i & _ & E). repeat case_match; simplify_eq. eauto.
  - intros (r & E & R & T). exists id. rewrite E, R. split; [|by subst].
    pose proof (bare_row_max (filter (fun r => r.(reg_nodeid) = id) rows)) as B. rewrite E in B.
    destruct B as [[Hid Hr]%list_elem_of_filter _].
    rewrite merge_sort_Permutation, elem_of_remove_dups. apply list_elem_of_fmap. by exists r.
Qed.

(** The registration that decides: no later one for the node. *)
Lemma bare_row_unique rows id row :
  row ∈ rows -> row.(reg_nodeid) = id ->
  (forall r, r ∈ rows -> r.(reg_nodeid) = id -> r.(reg_time) <= row.(reg_time)) ->
  (forall r, r ∈ rows -> r.(reg_nodeid) = id -> r.(reg_time) = row.(reg_time) ->
     r.(registered) = row.(registered)) ->
  exists r, bare_row (filter (fun r => r.(reg_nodeid) = id) rows) = Some r /\
            r.(registered) = row.(registered) /\ r.(reg_time) = row.(reg_time).
Proof.
  intros Hrow Hid Hmax Htie.
  assert (row ∈ filter (fun r => r.(reg_nodeid) = id) rows) as Hf by (by apply list_elem_of_filter).
  pose proof (bare_row_max (filter (fun r => r.(reg_nodeid) = id) rows)) as B.
  destruct (bare_row _) as [r|]; [|by rewrite B in Hf; apply not_elem_of_nil in Hf].
  destruct B as [[Hr1 Hr2]%list_elem_of_filter F]. rewrite Forall_forall in F.
  specialize (F _ Hf). specialize (Hmax _ Hr2 Hr1). exists r.
  assert (reg_time r = reg_time row) by lia. split_and!; [done|auto|done].
Qed.
End grouped.

(** Two engines the documentation allows: they differ on rows with the same time. *)
Definition max_row (first : bool) (g : list RegRow) : option RegRow :=
  foldl (fun m r => match m with
     | None => Some r
     | Some m => if (reg_time m <? reg_time r) || (negb first && (reg_time m =? reg_time r))
                 then Some r else Some m end) None g.

Definition engine (first : bool) : Sqlite := {| bare_row := max_row first; scan_order := fun l => l |}.

Lemma max_row_app first g r :
  max_row first (g ++ [r]) =
  match max_row first g with
  | None => Some r
  | Some m => if (reg_time m <? reg_time r) || (negb first && (reg_time m =? reg_time r))
              then Some r else Some m end.
Proof. unfold max_row. by rewrite foldl_app. Qed.

#[export] Instance engine_laws first : @SqliteLaws (engine first).
Proof.
  split; [|done]. intros g. cbn. induction g as [|r g IH] using rev_ind; [done|].
  rewrite max_row_app. destruct (max_row first g) as [m|] eqn:M.
  - destruct IH as [Hm F]. destruct (_ || _) eqn:C; (split; [set_solver|]).
    + apply Forall_app. split; [|by repeat constructor]. eapply Forall_impl; [exact F|].
      cbn. intros a Ha. apply orb_true_iff in C as [C|[_ C]%andb_true_iff]; zlia.
    + apply Forall_app. split; [done|]. apply orb_false_iff in C as [C _]. repeat constructor. zlia.
  - rewrite IH. cbn. split; [set_solver|by repeat constructor].
Qed.

(** ** The memory copies *)

(** The last 1000 elements. *)
Definition last_1000 {A} (l : list A) : list A := drop (length l - 1000) l.

Lemma push_window_lookup {A} k (v : A) m l :
  default [] (smap_lookup k m) = l -> (length l <= 1000)%nat ->
  smap_lookup k (push_window k v m) = Some (last_1000 (l ++ [v])).
Proof.
  intros E Hl. unfold push_window, smap_update. rewrite E, !smap_lookup_insert_eq.
  cbn [default from_option id]. unfold last_1000. rewrite length_app. cbn [length].
  destruct (Nat.ltb_spec 1000 (length l + 1)); rewrite smap_lookup_insert_eq; f_equal.
  - f_equal. lia.
  - by replace (length l + 1 - 1000)%nat with 0%nat by lia.
Qed.

Lemma push_window_other {A} k k' (v : A) m :
  k <> k' -> smap_lookup k' (push_window k v m) = smap_lookup k' m.
Proof.
  intros N. unfold push_window, smap_update. repeat case_match; by rewrite ?smap_lookup_insert_ne.
Qed.

Lemma last_1000_length {A} (l : list A) : (length (last_1000 l) <= 1000)%nat.
Proof. unfold last_1000. rewrite length_drop. lia. Qed.

Lemma last_1000_app {A} (l k : list A) : last_1000 (last_1000 l ++ k) = last_1000 (l ++ k).
Proof.
  unfold last_1000. rewrite !length_app, length_drop.
  destruct (decide (length l <= 1000)%nat) as [L|L].
  { replace (length l - 1000)%nat with 0%nat by lia. rewrite drop_0, Nat.sub_0_r. done. }
  rewrite !drop_app, drop_drop, !length_drop. f_equal; f_equal; lia.
Qed.

(** The state after a Save of a registered node. *)
Lemma when_registered_true now d r e f :
  repo_ready now d r -> IsNodeRegistered e r = Ok true -> when_registered e f r = f r.
Proof. intros (A & _ & _) R. unfold when_registered. by rewrite A, R. Qed.

Lemma get_registered_true {A} now d r e (d0 : A) f :
  repo_ready now d r -> IsNodeRegistered e r = Ok true -> get_registered e d0 f r = Ok (f d).
Proof.
  intros H R. unfold get_registered. rewrite (proj1 H), R. cbn. by rewrite (db_of_ready _ _ _ H).
Qed.

(** Replacing the tables of samples keeps the repository ready and its answers. *)
Lemma repo_ready_set now d d' r r' :
  repo_ready now d r -> r'.(m_active) = r.(m_active) -> r'.(m_db) = Some d' ->
  d'.(noderegistration) = d.(noderegistration) -> repo_ready now d' r'.
Proof. intros (A & E & U) HA HE HN. split_and!; [congruence|done|by rewrite HN]. Qed.

Lemma IsNodeRegistered_set now d d' r r' e :
  repo_ready now d r -> repo_ready now d' r' ->
  d'.(noderegistration) = d.(noderegistration) ->
  IsNodeRegistered e r' = IsNodeRegistered e r.
Proof.
  intros H H' E. rewrite (IsNodeRegistered_ready _ _ _ _ H), (IsNodeRegistered_ready _ _ _ _ H').
  by rewrite (check_ext d d').
Qed.

(** ** Registration *)

(** Unfolds the answers of IsNodeRegistered to the statement. *)
Ltac registered_simpl H := rewrite (IsNodeRegistered_ready _ _ _ _ H).

(** Registering a node makes it registered and changes no other node; deregistering it
    at the same time or later takes that back. *)
Definition registers (now : Z) (r : Repo) (e : Z) (b : bool) (r' : Repo) : Prop :=
  IsNodeRegistered e r' = Ok b /\
  forall e', fits 64 e' -> e' <> e -> IsNodeRegistered e' r' = IsNodeRegistered e' r.

Lemma RegisterNode_registers now d r type id :
  repo_ready now d r ->
  exists e r', RegisterNode type id now r = Ok (e, r') /\ registers now r e true r'.
Proof.
  intros H. destruct (RegisterNode_ok now d r type id H) as (e & d' & E & H' & N & _ & _ & Ee & C).
  exists e, (set_db (Some d') r). split; [done|]. split.
  - registered_simpl H'. by rewrite C.
  - intros e' F Ne. registered_simpl H'. registered_simpl H. do 2 f_equal.
    rewrite (check_ext (INSERT_NODE_REGISTRATION (mkReg (bind_int64 e) true now) d) d') by done.
    apply check_after_insert_other. cbn. intros X. apply Ne. symmetry. apply i64_inj; [|done|done].
    subst e. apply wrap_fits. lia.
Qed.

Lemma DeregisterNode_registers now d r e :
  repo_ready now d r -> fits 64 e ->
  exists d', DeregisterNode e now r = Ok (e, set_db (Some d') r) /\
    repo_ready now d' (set_db (Some d') r) /\ registers now r e false (set_db (Some d') r).
Proof.
  intros H F. unfold DeregisterNode, update_db. rewrite (proj1 H), (db_of_ready _ _ _ H).
  cbn [res_bind].
  set (row := mkReg (bind_int64 e) false now). exists (INSERT_NODE_REGISTRATION row d).
  assert (H' : repo_ready now (INSERT_NODE_REGISTRATION row d)
                 (set_db (Some (INSERT_NODE_REGISTRATION row d)) r)).
  { destruct H as (A & E & U). split_and!; [done|done|]. apply upto_insert; [done|cbn; lia]. }
  split; [done|]. split; [done|]. split.
  - registered_simpl H'. change (bind_int64 e) with (reg_nodeid row).
    rewrite (check_after_insert now); [done|apply H|cbn; lia].
  - intros e' F' Ne. registered_simpl H'. registered_simpl H. do 2 f_equal.
    apply check_after_insert_other. cbn. intros X. apply Ne. symmetry. by apply i64_inj.
Qed.

Lemma RegisterNodeNrUe_ok now d r id imsi :
  repo_ready now d r ->
  exists e d', RegisterNodeNrUe id imsi now r = Ok (e, set_db (Some d') r) /\
    repo_ready now d' (set_db (Some d') r) /\
    d'.(noderegistration) = t_insert (mkReg (bind_int64 e) true now) d.(noderegistration) /\
    d'.(nrue) = smap_insert (bind_int64 id) (bind_int64 imsi)
                  (filter (fun r => r.2 <> bind_int64 imsi) d.(nrue)) /\
    e = u64 (if id =? 0 then d.(node).(t_seq) + 1 else bind_int id).
Proof.
  intros H. destruct (RegisterNode_ok now d r NRUE id H) as (e & d1 & E & H1 & N & U & _ & Ee & _).
  unfold RegisterNodeNrUe. rewrite (proj1 H), E. cbn [res_bind fst snd]. unfold update_db.
  rewrite (db_of_ready _ _ _ H1). cbn [res_bind]. do 2 eexists. split; [done|].
  split; [apply (repo_ready_set now d1 _ (set_db (Some d1) r)); [exact H1|reflexivity|reflexivity|reflexivity]|].
  split; [exact N|]. split; [by cbn; rewrite U|done].
Qed.

Lemma RegisterNodeNrGnb_ok now d r id cellId :
  repo_ready now d r ->
  exists e d', RegisterNodeNrGnb id cellId now r = Ok (e, set_db (Some d') r) /\
    repo_ready now d' (set_db (Some d') r) /\
    d'.(noderegistration) = t_insert (mkReg (bind_int64 e) true now) d.(noderegistration) /\
    d'.(nrgnb) = smap_insert (bind_int64 id) (bind_int cellId) d.(nrgnb) /\
    e = u64 (if id =? 0 then d.(node).(t_seq) + 1 else bind_int id).
Proof.
  intros H. destruct (RegisterNode_ok now d r NRGNB id H) as (e & d1 & E & H1 & N & _ & G & Ee & _).
  unfold RegisterNodeNrGnb. rewrite (proj1 H), E. cbn [res_bind fst snd]. unfold update_db.
  rewrite (db_of_ready _ _ _ H1). cbn [res_bind]. do 2 eexists. split; [done|].
  split; [apply (repo_ready_set now d1 _ (set_db (Some d1) r)); [exact H1|reflexivity..]|].
  split; [exact N|]. split; [by cbn; rewrite G|done].
Qed.

(** A row for [e] in the registrations is what makes the answer. *)
Lemma registers_inserted now d d' r e b :
  repo_ready now d r -> repo_ready now d' (set_db (Some d') r) -> fits 64 e ->
  d'.(noderegistration) = t_insert (mkReg (bind_int64 e) b now) d.(noderegistration) ->
  registers now r e b (set_db (Some d') r).
Proof.
  intros H H' F N. set (row := mkReg (bind_int64 e) b now).
  assert (d'.(noderegistration) = (INSERT_NODE_REGISTRATION row d).(noderegistration)) as N' by done.
  split.
  - registered_simpl H'. rewrite (check_ext _ _ _ N'). change (bind_int64 e) with (reg_nodeid row).
    rewrite (check_after_insert now); [done|apply H|cbn; lia].
  - intros e' F' Ne. registered_simpl H'. registered_simpl H. rewrite (check_ext _ _ _ N'). do 2 f_equal.
    apply check_after_insert_other. cbn. intros X. apply Ne. symmetry. by apply i64_inj.
Qed.

(** ** The last registrations *)

(** Two registrations of a node at the same time say the same. *)
Definition no_ties (d : Db) : Prop :=
  forall a b, a ∈ (snd <$> d.(noderegistration).(t_rows)) -> b ∈ (snd <$> d.(noderegistration).(t_rows)) ->
    a.(reg_nodeid) = b.(reg_nodeid) -> a.(reg_time) = b.(reg_time) -> a.(registered) = b.(registered).

Lemma check_latest d id :
  no_ties d ->
  match CHECK_NODE_REGISTERED id d with
  | None => forall r, r ∈ (snd <$> d.(noderegistration).(t_rows)) -> r.(reg_nodeid) <> id
  | Some b => exists r, r ∈ (snd <$> d.(noderegistration).(t_rows)) /\ r.(reg_nodeid) = id /\
      r.(registered) = b /\ forall r', r' ∈ (snd <$> d.(noderegistration).(t_rows)) ->
        r'.(reg_nodeid) = id -> r'.(reg_time) <= r.(reg_time)
  end.
Proof.
  intros NT. unfold CHECK_NODE_REGISTERED.
  set (l := filter _ _). destruct (head (order_desc reg_time l)) as [[i r]|] eqn:Hd; cbn.
  - unfold order_desc in Hd. rewrite head_reverse in Hd.
    pose proof (sorted_last_max (time_le reg_time) _ _ ltac:(intros ?; unfold time_le; lia)
      (order_asc_sorted reg_time l) Hd) as F. rewrite Forall_forall in F.
    assert ((i, r) ∈ l) as Hr.
    { rewrite <- (order_asc_perm reg_time l). apply last_Some in Hd as [l' ->]. set_solver. }
    unfold l in Hr. apply list_elem_of_filter in Hr as [Er Hr]. cbn in Er.
    exists r. split_and!; [apply list_elem_of_fmap; by exists (i, r)|done|done|].
    intros r' ([i' r''] & -> & Hr')%list_elem_of_fmap E'. cbn in *.
    specialize (F (i', r'')). rewrite order_asc_perm in F. unfold l in F.
    rewrite list_elem_of_filter in F. specialize (F (conj E' Hr')). unfold time_le in F. cbn in F. lia.
  - intros r ([i r'] & -> & Hr)%list_elem_of_fmap E. cbn in *.
    assert ((i, r') ∈ l) as Hl by (by apply list_elem_of_filter).
    rewrite <- (order_desc_perm reg_time l) in Hl. destruct (order_desc reg_time l); [|done].
    by apply not_elem_of_nil in Hl.
Qed.

(** ** Statements that cannot fail *)

(** A repository on which no statement can fail: when it is active its database is open. *)
Definition repo_sound (r : Repo) : Prop := r.(m_active) = true -> is_Some r.(m_db).

Lemma repo_sound_ready now d r : repo_ready now d r -> repo_sound r.
Proof. intros (_ & E & _) _. by exists d. Qed.

Lemma IsNodeRegistered_sound e r : repo_sound r -> exists b, IsNodeRegistered e r = Ok b.
Proof.
  intros S. unfold IsNodeRegistered, db_of. destruct (m_active r) eqn:A; [|by eexists].
  destruct (S A) as [d ->]. cbn. by eexists.
Qed.

(** Writing rows changes neither the registrations nor the activity. *)
Definition repo_extends (r r' : Repo) : Prop :=
  r'.(m_active) = r.(m_active) /\ (repo_sound r -> repo_sound r') /\
  (noderegistration <$> r'.(m_db)) = (noderegistration <$> r.(m_db)).

#[export] Instance repo_extends_refl : Reflexive repo_extends.
Proof. by intros r. Qed.

#[export] Instance repo_extends_trans : Transitive repo_extends.
Proof. intros a b c (A1 & S1 & N1) (A2 & S2 & N2). split_and!; [congruence|auto|congruence]. Qed.

Lemma repo_extends_ready now d r r' :
  repo_extends r r' -> repo_ready now d r -> exists d', repo_ready now d' r' /\
    d'.(noderegistration) = d.(noderegistration).
Proof.
  intros (A & _ & N) (A' & E & U). rewrite E in N. cbn in N.
  destruct (m_db r') as [d'|] eqn:E'; [|done]. injection N as N. exists d'.
  split; [split_and!; [congruence|done|by rewrite N]|done].
Qed.

Lemma update_db_sound f r :
  repo_sound r -> r.(m_active) = true -> (forall d, (f d).(noderegistration) = d.(noderegistration)) ->
  exists r', update_db f r = Ok r' /\ repo_extends r r'.
Proof.
  intros S A N. destruct (S A) as [d E]. unfold update_db, db_of. rewrite E. cbn.
  eexists. split; [done|]. split_and!; cbn; [done|by eexists|]. by rewrite E; cbn; rewrite N.
Qed.

Lemma when_registered_sound e f r :
  repo_sound r ->
  (r.(m_active) = true -> exists r', f r = Ok r' /\ repo_extends r r') ->
  exists r', when_registered e f r = Ok r' /\ repo_extends r r'.
Proof.
  intros S F. unfold when_registered. destruct (m_active r) eqn:A; [|by eexists].
  destruct (IsNodeRegistered_sound e r S) as [b ->]. cbn. destruct b; [auto|by eexists].
Qed.

Lemma when_active_sound f r :
  (r.(m_active) = true -> exists r', f r = Ok r' /\ repo_extends r r') ->
  exists r', when_active f r = Ok r' /\ repo_extends r r'.
Proof. intros F. unfold when_active. destruct (m_active r); [auto|by eexists]. Qed.

Lemma LogCommandE2Terminator_sound c now r :
  repo_sound r -> exists r', LogCommandE2Terminator c now r = Ok r' /\ repo_extends r r'.
Proof. intros S. apply when_registered_sound; [done|]. intros A. by apply update_db_sound. Qed.

Lemma LogActionLm_sound lm msg now r :
  repo_sound r -> exists r', LogActionLm lm msg now r = Ok r' /\ repo_extends r r'.
Proof. intros S. apply when_active_sound. intros A. by apply update_db_sound. Qed.

Lemma LogActionCmm_sound lm msg now r :
  repo_sound r -> exists r', LogActionCmm lm msg now r = Ok r' /\ repo_extends r r'.
Proof. intros S. apply when_active_sound. intros A. by apply update_db_sound. Qed.

#[export] Hint Resolve LogCommandE2Terminator_sound LogActionLm_sound LogActionCmm_sound : oran.

Lemma get_registered_sound {A} e (d0 : A) f r : repo_sound r -> exists a, get_registered e d0 f r = Ok a.
Proof.
  intros S. unfold get_registered. destruct (m_active r) eqn:A'; [|by eexists].
  destruct (IsNodeRegistered_sound e r S) as [[] ->]; cbn; [|by eexists].
  destruct (S A') as [d E]. unfold db_of. rewrite E. by eexists.
Qed.

Lemma get_active_sound {A} (d0 : A) f r : repo_sound r -> exists a, get_active d0 f r = Ok a.
Proof.
  intros S. unfold get_active. destruct (m_active r) eqn:A'; [|by eexists].
  destruct (S A') as [d E]. unfold db_of. rewrite E. by eexists.
Qed.

(** ** Buffer status samples *)

(** The samples of a node, read back in the order of the table. *)
Lemma GetNrUeBufferStatus_ready now d r e :
  repo_ready now d r -> IsNodeRegistered e r = Ok true ->
  GetNrUeBufferStatus e r = Ok ((fun row => let s := row.(buf_status) in
       mkBufferStatus s.(bs_time) (u16 (column_int s.(bs_rnti))) (u8 (column_int s.(bs_lcid)))
         (u32 (column_int s.(txQueueSize))) (u16 (column_int s.(txQueueHolDelay)))
         (u32 (column_int s.(retxQueueSize))) (u16 (column_int s.(retxQueueHolDelay)))
         (u16 (column_int s.(statusPduSize))))
    <$> GET_NR_UE_TX_BUFFER_STATUS (bind_int64 e) d).
Proof. intros H R. unfold GetNrUeBufferStatus. by rewrite (get_registered_true now d). Qed.

(** The widths the callers give the fields of a buffer status. *)
Definition buffer_status_fits (s : NrUeBufferStatus) : Prop :=
  fits 16 s.(bs_rnti) /\ fits 8 s.(bs_lcid) /\ fits 32 s.(txQueueSize) /\
  fits 16 s.(txQueueHolDelay) /\ fits 32 s.(retxQueueSize) /\ fits 16 s.(retxQueueHolDelay) /\
  fits 16 s.(statusPduSize).

(** A buffer status saved for a registered node is read back after the ones already there. *)
Lemma buffer_status_saved now d r e s old :
  repo_ready now d r -> IsNodeRegistered e r = Ok true -> fits 64 e -> buffer_status_fits s ->
  table_ok (fun row => bs_time row.(buf_status)) s.(bs_time) d.(nruetxbuffer) ->
  GetNrUeBufferStatus e r = Ok old ->
  exists r', SaveNrUeBufferStatus e s r = Ok r' /\ GetNrUeBufferStatus e r' = Ok (old ++ [s]) /\
    forall e', fits 64 e' -> e' <> e -> GetNrUeBufferStatus e' r' = GetNrUeBufferStatus e' r.
Proof.
  intros H R F (F1 & F2 & F3 & F4 & F5 & F6 & F7) T G.
  unfold SaveNrUeBufferStatus. rewrite (when_registered_true now d) by done.
  unfold update_db, db_of. cbn. rewrite (proj1 (proj2 H)). cbn. eexists. split; [done|].
  match goal with |- GetNrUeBufferStatus e ?x = _ /\ _ => set (r' := x) end.
  assert (exists d', m_db r' = Some d' /\ d'.(noderegistration) = d.(noderegistration))
    as (d' & Ed & N) by (eexists; split; reflexivity).
  assert (repo_ready now d' r') as H' by (by apply (repo_ready_set now d d' r)).
  assert (forall e', IsNodeRegistered e' r' = IsNodeRegistered e' r) as Rs
    by (intros e'; by apply (IsNodeRegistered_set now d d')).
  injection Ed as Ed. split.
  - rewrite (GetNrUeBufferStatus_ready now d') by (by rewrite ?Rs).
    rewrite (GetNrUeBufferStatus_ready now d) in G by done. injection G as <-. f_equal. subst d'.
    unfold GET_NR_UE_TX_BUFFER_STATUS at 1. cbn [nruetxbuffer INSERT_NR_UE_TX_BUFFER_STATUS set_nruetxbuffer].
    rewrite order_asc_insert by done. rewrite !fmap_app. f_equal. cbn. f_equal.
    rewrite !column_bind_int, !column_bind_int64, !wrap_small by (done || lia).
    by destruct s.
  - intros e' F' Ne. unfold GetNrUeBufferStatus, get_registered. rewrite Rs.
    change (m_active r') with (m_active r). destruct (m_active r); [|done].
    destruct (IsNodeRegistered e' r) as [[]|]; [|done..].
    cbn [res_bind]. rewrite (db_of_ready _ _ _ H), (db_of_ready _ _ _ H'). cbn [res_bind]. do 2 f_equal.
    subst d'. unfold GET_NR_UE_TX_BUFFER_STATUS at 1.
    cbn [nruetxbuffer INSERT_NR_UE_TX_BUFFER_STATUS set_nruetxbuffer].
    rewrite filter_insert_other; [done|]. cbn. intros X. apply Ne. symmetry. by apply i64_inj.
Qed.
