(* ===== verification/RepositoryProps.v ===== *)
(** The properties of the data repository. *)
From Stdlib Require Import ZArith Lia SpecFloat.
From stdpp Require Import base list gmap strings sorting sets.
From S2P Require Import Prelude OrdMap Messages Repository RepositoryFacts.
Open Scope Z_scope.

(** A repository in memory that has just been activated, for the witnesses. *)
Definition fresh_repo : Repo :=
  mkRepo true ":memory:" (Some InitDb_new) InitDb_new [] [] [] [].

Lemma fresh_ready now : repo_ready now InitDb_new fresh_repo.
Proof. split_and!; [done|done|apply upto_empty]. Qed.

(** RegisterNode always succeeds on an active repository, makes exactly the node it
    returns registered, and a later DeregisterNode makes exactly that node unregistered. *)
Theorem register_deregister_cycle now later d r type id :
  repo_ready now d r -> now <= later ->
  exists e r1 r2,
    RegisterNode type id now r = Ok (e, r1) /\ registers now r e true r1 /\
    DeregisterNode e later r1 = Ok (e, r2) /\ registers later r1 e false r2.
Proof.
  intros H L. destruct (RegisterNode_registers now d r type id H) as (e & r1 & E & R).
  destruct (RegisterNode_ok now d r type id H) as (e0 & d' & E' & H' & _ & _ & _ & Ee & _).
  rewrite E' in E. injection E as -> <-.
  assert (H2 : repo_ready later d' (set_db (Some d') r)).
  { destruct H' as (A & X & U). split_and!; [done|done|by eapply upto_mono]. }
  destruct (DeregisterNode_registers later d' (set_db (Some d') r) e H2) as (d2 & E2 & _ & R2).
  { subst e. apply wrap_fits. lia. }
  exists e, (set_db (Some d') r), (set_db (Some d2) (set_db (Some d') r)). by split_and!.
Qed.

Theorem register_deregister_cycle_witness :
  exists e r1 r2,
    RegisterNode NRUE 0 7 fresh_repo = Ok (e, r1) /\ registers 7 fresh_repo e true r1 /\
    DeregisterNode e 9 r1 = Ok (e, r2) /\ registers 9 r1 e false r2.
Proof. apply (register_deregister_cycle 7 9 InitDb_new); [apply fresh_ready|lia]. Defined.

(** the id a registration request carries is kept exactly when it survives the 32-bit
    sqlite3_bind_int: below 2^31, or in the top 2^31 of the 64-bit range. *)
Theorem reregistration_keeps_id now d r type id :
  repo_ready now d r -> 0 < id < 2 ^ 64 ->
  exists e r', RegisterNode type id now r = Ok (e, r') /\
    (e = id <-> id < 2 ^ 31 \/ 2 ^ 64 - 2 ^ 31 <= id).
Proof.
  intros H F. destruct (RegisterNode_ok now d r type id H) as (e & d' & E & _ & _ & _ & _ & Ee & _).
  exists e, (set_db (Some d') r). split; [done|].
  rewrite (proj2 (Z.eqb_neq _ _)) in Ee by lia. subst e. unfold bind_int, wrap, swrap.
  change (32 - 1) with 31. pose proof (Z.mod_pos_bound id (2 ^ 32) ltac:(lia)) as B.
  pose proof (Z.div_mod id (2 ^ 32) ltac:(lia)) as D.
  destruct (Z.ltb_spec (id mod 2 ^ 32) (2 ^ 31)).
  - rewrite Z.mod_small by lia. split; [|lia]. intros E'. lia.
  - assert (M : (id mod 2 ^ 32 - 2 ^ 32) mod 2 ^ 64 = id mod 2 ^ 32 - 2 ^ 32 + 2 ^ 64).
    { symmetry. apply Z.mod_unique with (q := -1); lia. }
    rewrite M. split; intros E'; lia.
Qed.

Theorem reregistration_keeps_id_witness :
  exists e r', RegisterNode NRGNB (2 ^ 31) 7 fresh_repo = Ok (e, r') /\
    (e = 2 ^ 31 <-> 2 ^ 31 < 2 ^ 31 \/ 2 ^ 64 - 2 ^ 31 <= 2 ^ 31).
Proof. apply (reregistration_keeps_id 7 InitDb_new); [apply fresh_ready|lia]. Defined.

(** a first registration (id 0) is given a node id no row of the node table has. *)
Theorem first_registration_fresh now d r type :
  repo_ready now d r -> 0 <= d.(node).(t_seq) < 2 ^ 63 - 1 ->
  Forall (fun row => row.1 <= d.(node).(t_seq)) d.(node).(t_rows) ->
  exists e r' d', RegisterNode type 0 now r = Ok (e, r') /\ r'.(m_db) = Some d' /\
    smap_lookup e d.(node).(t_rows) = None /\
    smap_lookup e d'.(node).(t_rows) = Some (NodeType_int type) /\
    Forall (fun row => row.1 <= d'.(node).(t_seq)) d'.(node).(t_rows).
Proof.
  intros H S F. unfold RegisterNode. rewrite (proj1 H), (db_of_ready _ _ _ H). cbn.
  rewrite wrap_small by (unfold fits; lia). do 3 eexists. split; [done|]. split; [done|]. cbn.
  split_and!.
  - apply smap_lookup_None. intros (a & Ea & Ha)%list_elem_of_fmap.
    rewrite Forall_forall in F. specialize (F _ Ha). lia.
  - rewrite smap_lookup_insert_eq. by destruct type.
  - apply Forall_forall. intros a [->|Ha]%smap_insert_elem; cbn; [lia|].
    rewrite Forall_forall in F. specialize (F _ Ha). lia.
Qed.

Theorem first_registration_fresh_witness :
  exists e r' d', RegisterNode NRUE 0 7 fresh_repo = Ok (e, r') /\ r'.(m_db) = Some d' /\
    smap_lookup e InitDb_new.(node).(t_rows) = None /\
    smap_lookup e d'.(node).(t_rows) = Some (NodeType_int NRUE) /\
    Forall (fun row => row.1 <= d'.(node).(t_seq)) d'.(node).(t_rows).
Proof.
  apply (first_registration_fresh 7 InitDb_new fresh_repo NRUE);
    [apply fresh_ready|cbn; lia|constructor].
Defined.

(** The rows a grouped query of UEs sees. *)
Lemma ue_listed_iff `{SqliteLaws} now d r e :
  repo_ready now d r -> fits 64 e ->
  Forall (fun row => - 2 ^ 63 <= row.(reg_nodeid) < 2 ^ 63) (snd <$> d.(noderegistration).(t_rows)) ->
  exists ids, GetNrUeE2NodeIds r = Ok ids /\
    (e ∈ ids <-> exists t, (bind_int64 e, t) ∈ GET_NR_ALL_UE_E2NODEIDS d).
Proof.
  intros H1 F FR. unfold GetNrUeE2NodeIds, get_active. rewrite (proj1 H1), (db_of_ready _ _ _ H1).
  cbn [res_bind]. eexists. split; [done|]. rewrite list_elem_of_fmap. split.
  - intros ([i t] & -> & Hi). exists t. cbn.
    assert (bind_int64 (u64 i) = i) as ->; [|done].
    unfold GET_NR_ALL_UE_E2NODEIDS in Hi. apply group_registered_elem in Hi as (row & E & _).
    pose proof (bare_row_max (filter (fun r => reg_nodeid r = i)
      (filter (fun r => reg_nodeid r ∈ (nrue d).*1) (snd <$> d.(noderegistration).(t_rows))))) as B.
    rewrite E in B. destruct B as [[<- [_ Hr]%list_elem_of_filter]%list_elem_of_filter _].
    rewrite Forall_forall in FR. specialize (FR _ Hr).
    unfold bind_int64, swrap. cbn in FR |- *. unfold wrap.
    rewrite Z.mod_mod by lia. fold (swrap 64 (reg_nodeid row)). apply (swrap_small 64); lia.
  - intros (t & Ht). exists (bind_int64 e, t). split; [|done]. cbn. by rewrite i64_of_u64.
Qed.

(** *** UE registration *)

(** Whether the query of UEs lists [e]. *)
Definition ue_listed `{Sqlite} (e : Z) (r : Repo) : res bool :=
  let* ids := GetNrUeE2NodeIds r in Ok (bool_decide (e ∈ ids)).

(** A node without a row in nrue under its id is not listed as a UE. *)
Lemma ue_not_listed `{SqliteLaws} now d r e :
  repo_ready now d r -> 0 < e < 2 ^ 31 -> e ∉ d.(nrue).*1 ->
  Forall (fun row => - 2 ^ 63 <= row.(reg_nodeid) < 2 ^ 63) (snd <$> d.(noderegistration).(t_rows)) ->
  ue_listed e r = Ok false.
Proof.
  intros Hr Hb Hn F. destruct (ue_listed_iff now d r e Hr ltac:(unfold fits; lia) F) as (ids & G & I).
  unfold ue_listed. rewrite G. cbn [res_bind]. f_equal. apply bool_decide_eq_false. rewrite I.
  assert (bind_int64 e = e) as -> by (unfold bind_int64; apply (swrap_small 64); cbn; lia).
  intros (t & Ht). unfold GET_NR_ALL_UE_E2NODEIDS in Ht. apply group_registered_elem in Ht as (row & B & _).
  pose proof (bare_row_max (filter (fun r => reg_nodeid r = e)
    (filter (fun r => reg_nodeid r ∈ (nrue d).*1) (snd <$> t_rows (noderegistration d))))) as M.
  rewrite B in M. destruct M as [[M1 [M2 _]%list_elem_of_filter]%list_elem_of_filter _]. by rewrite M1 in M2.
Qed.

(** One with such a row is, when its last registration is at [now] and nothing deregistered it. *)
Lemma ue_is_listed `{SqliteLaws} now d r e :
  repo_ready now d r -> 0 < e < 2 ^ 31 -> e ∈ d.(nrue).*1 ->
  Forall (fun row => - 2 ^ 63 <= row.(reg_nodeid) < 2 ^ 63) (snd <$> d.(noderegistration).(t_rows)) ->
  mkReg e true now ∈ snd <$> d.(noderegistration).(t_rows) ->
  (forall row, row ∈ (snd <$> d.(noderegistration).(t_rows)) -> reg_nodeid row = e ->
     reg_time row <= now /\ registered row = true) ->
  ue_listed e r = Ok true.
Proof.
  intros Hr Hb Hin F Hrow Rows. destruct (ue_listed_iff now d r e Hr ltac:(unfold fits; lia) F) as (ids & G & I).
  unfold ue_listed. rewrite G. cbn [res_bind]. f_equal. apply bool_decide_eq_true. rewrite I.
  assert (bind_int64 e = e) as -> by (unfold bind_int64; apply (swrap_small 64); cbn; lia).
  exists now. unfold GET_NR_ALL_UE_E2NODEIDS. apply group_registered_elem.
  apply (bare_row_unique _ e (mkReg e true now)); [by apply list_elem_of_filter|done|..].
  - intros row [_ Hr']%list_elem_of_filter Hid. by apply Rows.
  - intros row [_ Hr']%list_elem_of_filter Hid _. by apply Rows.
Qed.

(** the first registration of a UE (id 0) stores its nrue row under key 0, so the query of
    UEs does not list the id it was given; it is listed once the UE registers again with
    that id. *)
Theorem ue_listed_second_registration `{SqliteLaws} now later d r imsi e :
  repo_ready now d r -> now <= later ->
  e = d.(node).(t_seq) + 1 -> 0 < e < 2 ^ 31 -> e ∉ d.(nrue).*1 ->
  Forall (fun row => - 2 ^ 63 <= row.(reg_nodeid) < 2 ^ 63 /\ row.(reg_nodeid) <> e)
    (snd <$> d.(noderegistration).(t_rows)) ->
  exists r1 r2,
    RegisterNodeNrUe 0 imsi now r = Ok (e, r1) /\ ue_listed e r1 = Ok false /\
    RegisterNodeNrUe e imsi later r1 = Ok (e, r2) /\ ue_listed e r2 = Ok true.
Proof.
  intros Hr0 L He Hb Hn F.
  assert (bind_int64 e = e) as Be by (unfold bind_int64; apply (swrap_small 64); cbn; lia).
  destruct (RegisterNodeNrUe_ok now d r 0 imsi Hr0) as (e1 & d1 & E1 & H1 & N1 & U1 & Ee1).
  assert (e1 = e) as ->.
  { rewrite Ee1. cbn. rewrite <- He. apply wrap_small. unfold fits. lia. }
  assert (repo_ready later d1 (set_db (Some d1) r)) as H1'.
  { destruct H1 as (A & X & Y). split_and!; [done|done|by eapply upto_mono]. }
  destruct (RegisterNodeNrUe_ok later d1 (set_db (Some d1) r) e imsi H1')
    as (e2 & d2 & E2 & H2 & N2 & U2 & Ee2).
  assert (e2 = e) as ->.
  { rewrite Ee2, (proj2 (Z.eqb_neq _ _)) by lia. unfold bind_int.
    rewrite (swrap_small 32) by (cbn; lia). apply wrap_small. unfold fits. lia. }
  rewrite Be in *.
  assert (Forall (fun row => - 2 ^ 63 <= reg_nodeid row < 2 ^ 63) (snd <$> t_rows (noderegistration d1))) as F1.
  { rewrite N1. cbn. rewrite fmap_app. apply Forall_app. split; [|repeat constructor; cbn; lia].
    eapply Forall_impl; [exact F|]. by intros row [? _]. }
  assert (Forall (fun row => - 2 ^ 63 <= reg_nodeid row < 2 ^ 63) (snd <$> t_rows (noderegistration d2))) as F2.
  { rewrite N2. cbn. rewrite fmap_app. apply Forall_app. split; [done|repeat constructor; cbn; lia]. }
  exists (set_db (Some d1) r), (set_db (Some d2) (set_db (Some d1) r)).
  split; [done|]. split; [|split; [done|]].
  - apply (ue_not_listed now d1); [done|done| |done]. rewrite U1.
    intros ([k v] & Ek & Hk)%list_elem_of_fmap. cbn in Ek. subst k.
    apply smap_insert_elem in Hk as [Hk|[_ Hk]%list_elem_of_filter].
    + injection Hk as Hk _. change (bind_int64 0) with 0 in Hk. lia.
    + apply Hn. apply list_elem_of_fmap. by exists (e, v).
  - apply (ue_is_listed later d2); [done|done| |done|rewrite N2; cbn; rewrite fmap_app; set_solver|].
    { rewrite U2. apply list_elem_of_fmap. exists (e, bind_int64 imsi). split; [done|].
      apply smap_lookup_Some_elem, smap_lookup_insert_eq. }
    intros row. rewrite N2, N1. cbn. rewrite !fmap_app, !elem_of_app.
    rewrite Forall_forall in F. intros [[Hr| ->%list_elem_of_singleton]| ->%list_elem_of_singleton] Hid;
      [by apply F in Hr as [_ ?]|by cbn..].
Qed.

Theorem ue_listed_second_registration_witness :
  exists r1 r2,
    RegisterNodeNrUe 0 17 3 fresh_repo = Ok (1, r1) /\ @ue_listed (engine true) 1 r1 = Ok false /\
    RegisterNodeNrUe 1 17 4 r1 = Ok (1, r2) /\ @ue_listed (engine true) 1 r2 = Ok true.
Proof.
  apply (@ue_listed_second_registration (engine true) _ 3 4 InitDb_new fresh_repo 17 1);
    [apply fresh_ready|lia|done|lia|by intros ?%elem_of_nil|constructor].
Defined.

(** *** Ties *)

(** the registered nodes the RIC sees can contradict IsNodeRegistered: when a node registers
    and deregisters at the same time, the row SQLite picks for a bare column of MAX () is
    arbitrary, and two behaviours its documentation allows disagree. *)
Theorem same_time_registration_ambiguous :
  exists r, (exists r0 r1, RegisterNode WIRED 0 7 fresh_repo = Ok (1, r0) /\
               DeregisterNode 1 7 r0 = Ok (1, r1) /\ r = r1) /\
    IsNodeRegistered 1 r = Ok false /\
    @GetLastRegistrationRequests (engine true) r = Ok [(1, 7)] /\
    @GetLastRegistrationRequests (engine false) r = Ok [].
Proof.
  eexists. split; [do 2 eexists; split; [vm_compute; reflexivity|];
    split; [vm_compute; reflexivity|reflexivity]|].
  split_and!; vm_compute; reflexivity.
Qed.

(** *** Samples *)

Lemma SaveNrUeCqi_ok now d r e c :
  repo_ready now d r -> IsNodeRegistered e r = Ok true ->
  exists d', SaveNrUeCqi e c r = Ok (set_db (Some d') (set_cqiSamples (push_window e c r.(m_cqiSamples)) r)) /\
    d'.(noderegistration) = d.(noderegistration).
Proof.
  intros H R. unfold SaveNrUeCqi. rewrite (when_registered_true now d) by done.
  unfold update_db, db_of. cbn. rewrite (proj1 (proj2 H)). cbn. eexists. split; [done|done].
Qed.

(** the memory copy of the CQI samples of a node holds the last 1000 of them, in order. *)
Theorem cqi_window now d r e samples :
  repo_ready now d r -> IsNodeRegistered e r = Ok true -> (length (GetNrUeCqi e r) <= 1000)%nat ->
  exists r', res_fold (SaveNrUeCqi e) samples r = Ok r' /\
    GetNrUeCqi e r' = last_1000 (GetNrUeCqi e r ++ samples) /\
    forall e', e' <> e -> GetNrUeCqi e' r' = GetNrUeCqi e' r.
Proof.
  revert d r. induction samples as [|c samples IH]; intros d r H R L; cbn [res_fold].
  - exists r. rewrite app_nil_r. unfold last_1000. replace (length _ - 1000)%nat with 0%nat by lia.
    by rewrite drop_0.
  - destruct (SaveNrUeCqi_ok now d r e c H R) as (d' & -> & N). cbn [res_bind].
    set (r1 := set_db _ _).
    assert (repo_ready now d' r1) as H1 by (by apply (repo_ready_set now d d' r)).
    assert (default [] (smap_lookup e r.(m_cqiSamples)) = GetNrUeCqi e r) as Ed.
    { unfold GetNrUeCqi. by destruct (smap_lookup e r.(m_cqiSamples)). }
    assert (GetNrUeCqi e r1 = last_1000 (GetNrUeCqi e r ++ [c])) as G1.
    { unfold GetNrUeCqi at 1. cbn. by rewrite (push_window_lookup e c _ (GetNrUeCqi e r)). }
    destruct (IH d' r1 H1) as (r' & E & G & O).
    + by rewrite (IsNodeRegistered_set now d d' r r1).
    + rewrite G1. apply last_1000_length.
    + exists r'. split; [done|]. split.
      * by rewrite G, G1, last_1000_app, <- app_assoc.
      * intros e' Ne. rewrite O by done. unfold GetNrUeCqi. cbn. by rewrite push_window_other by congruence.
Qed.

(** A repository in which node 1 is registered, for the witnesses. *)
Definition repo_one : Repo :=
  match RegisterNode NRUE 0 7 fresh_repo with Ok (_, r) => r | Abort _ => fresh_repo end.

Lemma repo_one_ready : exists d, repo_ready 7 d repo_one /\ d.(nruetxbuffer) = t_empty /\
  d.(nruetxpdu) = t_empty /\ d.(nruecell) = t_empty.
Proof.
  eexists. split; [split_and!; [done|reflexivity|]|done]. repeat constructor; cbn; lia.
Qed.

Theorem cqi_window_witness :
  exists r', res_fold (SaveNrUeCqi 1) [mkCqi 8 1 9 12 1; mkCqi 9 1 10 13 1] repo_one = Ok r' /\
    GetNrUeCqi 1 r' = last_1000 (GetNrUeCqi 1 repo_one ++ [mkCqi 8 1 9 12 1; mkCqi 9 1 10 13 1]) /\
    forall e', e' <> 1 -> GetNrUeCqi e' r' = GetNrUeCqi e' repo_one.
Proof.
  destruct repo_one_ready as (d & Hd & _).
  apply (cqi_window 7 d repo_one 1); [exact Hd|vm_compute; reflexivity|cbn; lia].
Defined.

(** The two counters a UE reports per bearer: the byte count of its PDUs and its drops. *)
Lemma order_desc_insert {R} (time : R -> Z) (P : Z * R -> Prop) `{forall r, Decision (P r)} r t :
  table_ok time (time r) t -> P (t.(t_seq) + 1, r) ->
  order_desc time (filter P (t_insert r t).(t_rows))
  = (t.(t_seq) + 1, r) :: order_desc time (filter P t.(t_rows)).
Proof. intros T HP. unfold order_desc. by rewrite order_asc_insert, reverse_snoc by done. Qed.

(** a PDU sample saved for a registered node is read back first, with its byte count
    modulo 2^32: the 64-bit column is read with sqlite3_column_int. *)
Theorem tx_pdu_truncated now d r e p old :
  repo_ready now d r -> IsNodeRegistered e r = Ok true ->
  fits 16 p.(pdu_rnti) -> fits 8 p.(pdu_lcid) ->
  table_ok (fun row => pdu_time row.(pdu_sample)) p.(pdu_time) d.(nruetxpdu) ->
  GetNrUeTxPdu e r = Ok old ->
  exists r', SaveNrUeTxPdu e p r = Ok r' /\
    GetNrUeTxPdu e r' = Ok (mkTxPdu p.(pdu_time) p.(pdu_rnti) p.(pdu_lcid) (u32 p.(txPdu)) :: old).
Proof.
  intros H R F1 F2 T G. unfold SaveNrUeTxPdu. rewrite (when_registered_true now d) by done.
  unfold update_db, db_of. cbn. rewrite (proj1 (proj2 H)). cbn. eexists. split; [done|].
  match goal with |- GetNrUeTxPdu e ?x = _ => set (r' := x) end.
  assert (exists d', m_db r' = Some d' /\ d'.(noderegistration) = d.(noderegistration))
    as (d' & Ed & N) by (eexists; split; reflexivity).
  assert (repo_ready now d' r') as H' by (by apply (repo_ready_set now d d' r)).
  injection Ed as Ed. unfold GetNrUeTxPdu in *.
  rewrite (get_registered_true now d') by (done || by rewrite (IsNodeRegistered_set now d d' r)).
  rewrite (get_registered_true now d) in G by done. injection G as <-. f_equal. subst d'.
  unfold GET_NR_UE_TX_PDU at 1. cbn [nruetxpdu INSERT_NR_UE_TX_PDU set_nruetxpdu].
  rewrite order_desc_insert by done. rewrite !fmap_cons. f_equal. cbn.
  by rewrite !column_bind_int, column_bind_int64 by (done || lia).
Qed.

Theorem tx_pdu_truncated_witness :
  exists r', SaveNrUeTxPdu 1 (mkTxPdu 9 3 4 (2 ^ 32 + 7)) repo_one = Ok r' /\
    GetNrUeTxPdu 1 r' = Ok [mkTxPdu 9 3 4 7].
Proof.
  destruct repo_one_ready as (d & Hd & _ & B & _).
  apply (tx_pdu_truncated 7 d repo_one 1 (mkTxPdu 9 3 4 (2 ^ 32 + 7)) []);
    [exact Hd|vm_compute; reflexivity|cbn; unfold fits; lia|cbn; unfold fits; lia| |vm_compute; reflexivity].
  rewrite B. split; [constructor|apply NoDup_nil_2].
Defined.

(** *** Activity *)

(** What a deactivated repository answers to every operation. *)
Definition answers_nothing `{Sqlite} (r : Repo) : Prop :=
  (forall type id imsi cellId now,
     RegisterNode type id now r = Ok (0, r) /\ RegisterNodeNrUe id imsi now r = Ok (0, r) /\
     RegisterNodeNrGnb id cellId now r = Ok (0, r) /\ DeregisterNode id now r = Ok (0, r)) /\
  (forall e pos t s c p q l cell rnti a b f cc,
     SavePosition e pos t r = Ok r /\ SaveNrUeCellInfo e cell rnti t r = Ok r /\
     SaveNrUeBufferStatus e s r = Ok r /\ SaveNrUeCqi e c r = Ok r /\ SaveNrUeTxPdu e p r = Ok r /\
     SaveNrUeTxDrop e q r = Ok r /\ SaveAppLoss e l t r = Ok r /\
     SaveNrUeRsrpRsrq e t rnti cell a b f cc r = Ok r) /\
  (forall e from to n cell rnti,
     IsNodeRegistered e r = Ok false /\ GetNodePositions e from to n r = Ok [] /\
     GetNrUeCellInfo e r = Ok (false, 0, 0) /\ GetNrGnbCellInfo e r = Ok (false, 0) /\
     GetAppLoss e r = Ok d_zero /\ GetNrUeE2NodeIdFromCellInfo cell rnti r = Ok 0 /\
     GetNrUeBufferStatus e r = Ok [] /\ GetNrUeTxPdu e r = Ok [] /\ GetNrUeTxDrop e r = Ok [] /\
     GetNrUeRsrpRsrq e r = Ok []) /\
  GetNrUeE2NodeIds r = Ok [] /\ GetNrGnbE2NodeIds r = Ok [] /\ GetLastRegistrationRequests r = Ok [] /\
  (forall who cmd text now,
     LogCommandE2Terminator cmd now r = Ok r /\ LogCommandLm who cmd now r = Ok r /\
     LogActionLm who text now r = Ok r /\ LogActionCmm who text now r = Ok r).

(** A deactivated repository stores nothing, gives out no id and answers every query
    with nothing, except that the CQI query still returns the samples kept in memory. *)
Theorem deactivated_answers_nothing `{Sqlite} r :
  answers_nothing (Deactivate r) /\ forall e, GetNrUeCqi e (Deactivate r) = GetNrUeCqi e r.
Proof.
  assert (m_active (Deactivate r) = false /\ m_cqiSamples (Deactivate r) = m_cqiSamples r) as [A C].
  { unfold Deactivate, CloseDb. by repeat case_match. }
  split; [|intros e; unfold GetNrUeCqi; by rewrite C]. revert A. generalize (Deactivate r). clear.
  intros r A. unfold answers_nothing, RegisterNodeNrUe, RegisterNodeNrGnb, RegisterNode, DeregisterNode,
    SavePosition, SaveNrUeCellInfo, SaveNrUeBufferStatus, SaveNrUeCqi, SaveNrUeTxPdu, SaveNrUeTxDrop,
    SaveAppLoss, SaveNrUeRsrpRsrq, IsNodeRegistered, GetNodePositions, GetNrUeCellInfo, GetNrGnbCellInfo,
    GetAppLoss, GetNrUeE2NodeIdFromCellInfo, GetNrUeBufferStatus, GetNrUeTxPdu, GetNrUeTxDrop,
    GetNrUeRsrpRsrq, GetNrUeE2NodeIds, GetNrGnbE2NodeIds, GetLastRegistrationRequests,
    LogCommandE2Terminator, LogCommandLm, LogActionLm, LogActionCmm, when_registered, when_active,
    get_registered, get_active. rewrite A. by split_and!.
Qed.

(** Deactivating an in-memory repository forgets every node, and deactivating one backed
    by a file forgets none: the contents are back after the next activation. *)
Theorem reactivation_keeps_file now d r :
  repo_ready now d r -> negb (bool_decide (r.(m_dbPath) = ":memory:")) && has_colon r.(m_dbPath) = false ->
  exists r', Activate (Deactivate r) = Ok r' /\
    repo_ready now (if names_file r.(m_dbPath) then d else InitDb_new) r' /\
    forall e, IsNodeRegistered e r' =
      (if names_file r.(m_dbPath) then IsNodeRegistered e r else Ok false).
Proof.
  intros H C. destruct r as [a p m f b c x y]. destruct H as (A & E & U). cbn in A, E, C. subst.
  unfold Deactivate, CloseDb, Activate, OpenDb. cbn. destruct (names_file p) eqn:P; cbn; rewrite C; cbn.
  - eexists. split; [done|]. rewrite P. split; [by split_and!|done].
  - eexists. split; [done|]. rewrite P. split; [split_and!; [done|done|apply upto_empty]|done].
Qed.

Theorem reactivation_keeps_file_witness :
  exists r', Activate (Deactivate repo_one) = Ok r' /\ IsNodeRegistered 1 r' = Ok false.
Proof.
  destruct repo_one_ready as (d & Hd & _).
  destruct (reactivation_keeps_file 7 d repo_one Hd eq_refl) as (r' & E & _ & N).
  exists r'. split; [exact E|]. rewrite N. reflexivity.
Defined.

(** *** The nodes that are registered *)

Lemma group_registered_sublist `{Sqlite} rows :
  (group_registered rows).*1 `sublist_of` merge_sort Z.le (remove_dups (reg_nodeid <$> rows)).
Proof.
  unfold group_registered. induction (merge_sort Z.le (remove_dups (reg_nodeid <$> rows))) as [|i l IH];
    [done|]. cbn. repeat case_match; simplify_eq; cbn; [by constructor|by constructor|by constructor].
Qed.

(** C37: unless a node registered and deregistered at the same time, the nodes the RIC checks
    for inactivity are exactly the registered ones, each once. *)
Theorem registered_nodes_listed `{SqliteLaws} now d r :
  repo_ready now d r -> no_ties d ->
  Forall (fun row => - 2 ^ 63 <= row.(reg_nodeid) < 2 ^ 63) (snd <$> d.(noderegistration).(t_rows)) ->
  exists l, GetLastRegistrationRequests r = Ok l /\ NoDup l.*1 /\
    forall e, fits 64 e -> e ∈ l.*1 <-> IsNodeRegistered e r = Ok true.
Proof.
  intros R NT F. rewrite Forall_forall in F. unfold GetLastRegistrationRequests, get_active.
  rewrite (proj1 R), (db_of_ready _ _ _ R). cbn [res_bind]. eexists. split; [done|].
  set (rows := snd <$> _) in F. unfold GET_ALL_LAST_REGISTRATION_TIMES. fold rows.
  assert (forall i t, (i, t) ∈ group_registered rows ->
    - 2 ^ 63 <= i < 2 ^ 63 /\ CHECK_NODE_REGISTERED i d = Some true) as G.
  { intros i t (row & B & Rg & T)%group_registered_elem.
    pose proof (bare_row_max (filter (fun r => reg_nodeid r = i) rows)) as M. rewrite B in M.
    destruct M as [[Ei Hrow]%list_elem_of_filter M]. rewrite Forall_forall in M.
    split; [rewrite <- Ei; by apply F|]. pose proof (check_latest d i NT) as C.
    destruct (CHECK_NODE_REGISTERED i d) as [b|]; [|by destruct (C row Hrow)].
    destruct C as (row' & Hrow' & Ei' & Rb & L). f_equal. rewrite <- Rb, <- Rg.
    apply NT; [done|done|congruence|]. specialize (L row Hrow Ei).
    specialize (M row' ltac:(by apply list_elem_of_filter)). cbn in M. lia. }
  split.
  - rewrite <- list_fmap_compose.
    assert ((fst ∘ (fun r : Z * Z => (u64 r.1, r.2))) <$> group_registered rows
      = u64 <$> (group_registered rows).*1) as -> by (by rewrite <- list_fmap_compose).
    apply NoDup_fmap_2_strong.
    + intros x y ([i t] & -> & [Hx _]%G)%list_elem_of_fmap ([j u] & -> & [Hy _]%G)%list_elem_of_fmap E.
      cbn in *. rewrite <- (swrap_small 64 i), <- (swrap_small 64 j) by (cbn; lia).
      unfold swrap. unfold wrap in E. by rewrite E.
    + eapply sublist_NoDup; [|apply group_registered_sublist].
      rewrite merge_sort_Permutation. apply NoDup_remove_dups.
  - intros e Fe. registered_simpl R. split.
    + intros ([e' t'] & -> & ([i t] & [= -> ->] & Hi)%list_elem_of_fmap)%list_elem_of_fmap.
      cbn. apply G in Hi as [Hi C]. do 2 f_equal.
      assert (bind_int64 (u64 i) = i) as ->; [|by rewrite C].
      unfold bind_int64, swrap, wrap. rewrite Z.mod_mod by lia. fold (swrap 64 i).
      apply (swrap_small 64); cbn; lia.
    + intros [= C]. pose proof (check_latest d (bind_int64 e) NT) as L.
      destruct (CHECK_NODE_REGISTERED (bind_int64 e) d) as [b|]; cbn in C; [subst b|done].
      destruct L as (row & Hrow & Ei & Rg & L).
      destruct (bare_row_unique rows (bind_int64 e) row Hrow Ei) as (row' & B & Rg' & T).
      * intros r' Hr' E'. by apply L.
      * intros r' Hr' E' T'. apply NT; [done|done|congruence|done].
      * apply list_elem_of_fmap. exists (e, reg_time row'). split; [done|].
        apply list_elem_of_fmap. exists (bind_int64 e, reg_time row'). split; [by cbn; rewrite i64_of_u64|].
        apply group_registered_elem. exists row'. by rewrite Rg', Rg.
Qed.

Theorem registered_nodes_listed_witness :
  exists l, @GetLastRegistrationRequests (engine true) repo_one = Ok l /\ NoDup l.*1 /\
    forall e, fits 64 e -> e ∈ l.*1 <-> IsNodeRegistered e repo_one = Ok true.
Proof.
  apply (@registered_nodes_listed (engine true) _ 7
           (match m_db repo_one with Some d => d | None => InitDb_new end)).
  - split_and!; [done|done|]. repeat constructor; cbn; lia.
  - intros a b [->|[]%elem_of_nil]%elem_of_cons [->|[]%elem_of_nil]%elem_of_cons. done.
  - apply (bool_decide_unpack _). vm_compute. reflexivity.
Defined.
