(* ===== verification/World.v ===== *)
(** The objects of the O-RAN model and the store they live in.

    One record per C++ class, with the members of the class; the pure virtual bases
    (OranLm, OranReporter, OranReportTrigger, OranNrE2NodeTerminator) carry the members
    of the derived class as a constructor of an inductive type.  A Ptr<> is an index into
    a store of the [World] ([None] is the null pointer), or a flag when the world has one
    object of the class.  The world has one Near-RT RIC.

    After the definitions: the kernel seen from the O-RAN model, that is the plan of the
    events still to come and what scheduling from a handler does to it. *)
From Stdlib Require Import ZArith Lia Sorting.Sorted.
From stdpp Require Import base list gmap strings sets.
From coqutil Require Export Datatypes.RecordSettersUsingExistingGetters.
From S2P Require Import Prelude OrdMap EventQueue Simulator Messages Repository.
Open Scope Z_scope.
(** What the model leaves to the platform: the conversion Seconds (double), and
    std::to_string (t.GetSeconds ()). *)
Class Platform : Type := {
  Seconds : double -> Z;
  to_string_seconds : Z -> string
}.

(** RandomVariableStream: the sequence of values and how many have been drawn. *)
Record RandomVariable := mkRv { rv_draws : nat -> double; rv_count : nat }.

Definition GetValue (rv : RandomVariable) : double * RandomVariable :=
  (rv.(rv_draws) rv.(rv_count), mkRv rv.(rv_draws) (S rv.(rv_count))).

(** ns3::ConstantRandomVariable *)
Definition ConstantRandomVariable (v : double) : RandomVariable := mkRv (fun _ => v) 0.

(** ** Events: the bound method and its arguments *)

Inductive OranEvent : Type :=
| ev_FinishRun (lm : nat)
| ev_QueryLms
| ev_CheckForInactivity
| ev_ProcessLmQueryCommands
| ev_ReceiveRegistrationResponse (terminator : option nat) (e2NodeId : Z)
| ev_ReceiveDeregistrationResponse (terminator : option nat) (e2NodeId : Z)
| ev_ReceiveCommand (terminator : option nat) (command : OranCommand)
| ev_ReceiveRegistrationRequest (type : NodeType) (id : Z) (terminator : nat)
| ev_ReceiveDeregistrationRequest (e2NodeId : Z)
| ev_ReceiveReport (report : OranReport)
| ev_Register (terminator : nat)
| ev_DoSendReports (terminator : nat)
| ev_TriggerReport (trigger : nat)
| ev_TerminatorActivate (terminator : nat).

#[export] Instance OranEvent_eq_dec : EqDecision OranEvent.
Proof. solve_decision. Defined.

(** ** Logic modules *)

(** The members OranLmNrRlQlearn and OranLmNrRlDqn declare; the two classes have the same.
    The function-local static of Run is kept with the members: one object per class. *)
Record RlState := mkRl {
  m_N : Z;
  m_bufferCounter : gmap Z Z; m_txDropCounter : gmap Z Z; m_txPduCounter : gmap Z Z;
  m_lastBufferValue : gmap Z Z; m_lastTxDropValue : gmap Z Z; m_lastTxPduValue : gmap Z Z;
  m_lastBufferTime : gmap Z Z; m_lastTxDropTime : gmap Z Z; m_lastTxPduTime : gmap Z Z;
  ttiCounter : Z;
  m_grpc : bool
}.

Definition RlState_default : RlState := mkRl 1 ∅ ∅ ∅ ∅ ∅ ∅ ∅ ∅ ∅ 0 true.

Inductive LmClass : Type :=
| OranLmNoop
| OranLmNr2NrMoni
| OranLmNrRlQlearn (st : RlState)
| OranLmNrRlDqn (st : RlState).

Module Lm.
Record OranLm := mkLm {
  m_nearRtRic : bool;
  m_name : string;
  m_verbose : bool;
  m_active : bool;
  m_finishRunEvent : EventId;
  m_processingDelayRv : RandomVariable;
  m_cycle : Z;
  m_commands : list OranCommand;
  class : LmClass
}.
End Lm.

(** ** Conflict mitigation *)
Module Cmm.
Record OranCmm := mkCmm {
  m_nearRtRic : bool;
  m_active : bool;
  m_name : string;
  m_verbose : bool
}.
End Cmm.

(** ** Near-RT RIC *)

(** enum LateCommandPolicy *)
Inductive LateCommandPolicy := DROP | SAVE.

Module E2T.
Record E2Terminator := mkE2T {
  m_active : bool;
  m_nearRtRic : bool;
  m_data : bool;
  (* std::map<uint64_t, Ptr<OranNrE2NodeTerminator>>, whose values may be null *)
  m_nodeTerminators : list (Z * option nat);
  m_transmissionDelayRv : RandomVariable
}.
End E2T.

Module Ric.
Record NearRtRic := mkRic {
  m_active : bool;
  m_e2Terminator : bool;
  m_data : bool;
  m_cmm : bool;
  m_defaultLm : option nat;
  m_additionalLms : list (string * nat);
  m_lmQueryInterval : Z;
  m_lmQueryEvent : EventId;
  m_e2NodeInactivityEvent : EventId;
  m_e2NodeInactivityThreshold : Z;
  m_e2NodeInactivityIntervalRv : RandomVariable;
  m_lmQueryCycle : Z;
  m_lmQueryMaxWaitTime : Z;
  m_processLmQueryCommandsEvent : EventId;
  m_lmQueryLateCommandPolicy : LateCommandPolicy;
  m_lmQueryCommands : list ((string * bool) * list OranCommand);
  m_queryTriggers : list (string * nat)
}.
End Ric.

(** ** Nodes and their devices *)

(** NrUeNetDevice as far as the O-RAN model uses it: the identifiers its RRC answers and
    the triggers connected to its HandoverEndOk and ConnectionEstablished traces. *)
Record NrUeNetDevice := mkUeDev {
  GetImsi : Z; GetUeCellId : Z; GetUeRnti : Z; trace_sinks : list nat }.

(** NrGnbNetDevice: the handover requests sent to its RRC, and the targets of its scheduler 0
    when that is an NrMacSchedulerOfdmaUlTarget. *)
Record NrGnbNetDevice := mkGnbDev {
  GetGnbCellId : Z; handoverRequests : list (Z * Z); scheduler_targets : option (gmap Z Z) }.

Inductive NetDevice : Type :=
| UeDevice (d : NrUeNetDevice)
| GnbDevice (d : NrGnbNetDevice)
| OtherDevice.

(** Node: its devices, and the position its MobilityModel gives. *)
Record Node := mkNode { devices : list NetDevice; mobility : option Vector }.

(** ** E2 node terminators *)
Module Term.
Record E2NodeTerminator := mkTerm {
  type : NodeType;
  m_active : bool;
  m_e2NodeId : Z;
  m_nearRtRic : bool;
  m_reporters : list nat;
  m_registrationIntervalRv : RandomVariable;
  m_sendIntervalRv : RandomVariable;
  m_transmissionDelayRv : RandomVariable;
  m_node : option nat;
  m_netDeviceIndex : Z;
  m_reports : list OranReport;
  m_registrationEvent : EventId;
  m_sendEvent : EventId
}.
End Term.

(** ** Reporters *)

(** struct Sample of OranReporterNrUeTxPdu and OranReporterNrUeTxDrop *)
Record Sample := mkSample { s_time : Z; s_rnti : Z; s_lcid : Z; s_bytes : Z }.
Definition Sample_zero : Sample := mkSample 0 0 0 0.

Inductive ReporterClass : Type :=
| OranReporterLocation
| OranReporterNrUeCellInfo
| OranReporterAppLoss (m_tx m_rx : Z)
| OranReporterUeTxBuffer (m_samples : list (Z * NrUeBufferStatus))
| OranReporterNrUeCqi (m_reports : list OranReport)
| OranReporterNrUeRsrpRsrq (m_reports : list OranReport)
| OranReporterNrUeTxPdu (m_samples : list (Z * Sample))
| OranReporterNrUeTxDrop (m_defaultRnti m_defaultLcid : Z) (m_samples : list ((Z * Z) * Sample)).

Module Reporter.
Record OranReporter := mkReporter {
  m_active : bool;
  m_terminator : option nat;
  m_trigger : option nat;
  class : ReporterClass
}.
End Reporter.

(** ** Report triggers *)

Inductive TriggerClass : Type :=
| OranReportTriggerPeriodic (m_triggerEvent : EventId) (m_intervalRv : RandomVariable)
| OranReportTriggerNrUeHandover.

Module Trigger.
Record OranReportTrigger := mkTrigger {
  m_active : bool;
  m_reporter : option nat;
  m_initialReport : bool;
  class : TriggerClass
}.
End Trigger.

(** ** The store *)
Record World (Q : Type) := mkWorld {
  sim : Sim Q OranEvent;
  data : Repo;
  ric : Ric.NearRtRic;
  e2t : E2T.E2Terminator;
  cmm : Cmm.OranCmm;
  lms : gmap nat Lm.OranLm;
  nodes : gmap nat Node;
  terminators : gmap nat Term.E2NodeTerminator;
  reporters : gmap nat Reporter.OranReporter;
  triggers : gmap nat Trigger.OranReportTrigger
}.
Arguments mkWorld {Q}.
Arguments sim {Q}.
Arguments data {Q}.
Arguments ric {Q}.
Arguments e2t {Q}.
Arguments cmm {Q}.
Arguments lms {Q}.
Arguments nodes {Q}.
Arguments terminators {Q}.
Arguments reporters {Q}.
Arguments triggers {Q}.

(** Dereferencing a pointer into a store. *)
Definition deref {A : Type} (p : nat) (store : gmap nat A) : res A :=
  match store !! p with Some a => Ok a | None => Abort "dangling pointer" end.

Definition deref_ptr {A : Type} (p : option nat) (store : gmap nat A) : res A :=
  match p with Some p => deref p store | None => Abort "null pointer" end.

Section world.
Context {Q : Type} `{EventQueue Q}.
Implicit Types (w : World Q).

(** Simulator::Now () *)
Definition now w : Z := Now w.(sim).

(** Simulator::Schedule and EventId::Cancel on the kernel of the world *)
Definition schedule (delay : Z) (e : OranEvent) w : res (EventId * World Q) :=
  let* r := Schedule delay e w.(sim) in Ok (r.1, w <| sim := r.2 |>).

Definition cancel (id : EventId) w : World Q := w <| sim := Cancel id w.(sim) |>.

Definition pending (id : EventId) w : bool := IsPending id w.(sim).

(** if (id.IsPending ()) id.Cancel () *)
Definition cancel_pending (id : EventId) w : World Q := if pending id w then cancel id w else w.

(** A call of the repository *)
Definition on_data (f : Repo -> res Repo) w : res (World Q) :=
  let* d := f w.(data) in Ok (w <| data := d |>).

End world.

(** What changes when only the kernel or the repository does. *)
Ltac world_cbn :=
  cbn [sim data ric e2t cmm lms nodes terminators reporters triggers
    RecordSettersUsingExistingGetters.set fst snd] in *;
  unfold RecordSettersUsingExistingGetters.const in *.

(** ** Plans *)

Section plans.
Context {Q E : Type} `{EventQueueLaws Q}.
Implicit Types (s : Sim Q E) (l : list Event).

(** The time and the bound method of the events of an agenda, without the cancelled ones. *)
Definition live s l : list (Z * E) :=
  omap (fun e => match s.(impls) !! e.(impl) with
    | Some i => if i.(m_cancel) then None else Some (e.(key).(m_ts), i.(payload))
    | None => None end) l.

(** The kernel is sound and [p] is what it will run, in order. *)
Definition sim_plan s (p : list (Z * E)) : Prop := exists l, kernel_inv s l /\ live s l = p.

(** A new event comes after those of the same time. *)
Definition plan_insert (t : Z) (e : E) (p : list (Z * E)) : list (Z * E) :=
  filter (fun x => x.1 <= t) p ++ (t, e) :: filter (fun x => t < x.1) p.

(** A block of new events of the same time *)
Definition plan_block (t : Z) (es : list E) (p : list (Z * E)) : list (Z * E) :=
  filter (fun x => x.1 <= t) p ++ ((fun e => (t, e)) <$> es) ++ filter (fun x => t < x.1) p.

(** Room for [n] more events with delays up to [D]: neither the clock nor the uids overflow. *)
Definition room (D : Z) (n : nat) s : Prop :=
  s.(m_currentTs) + D < 2 ^ 63 /\ s.(m_uid) + Z.of_nat n < 2 ^ 32.

(** [id] stands for the event [e], which will run at [t]. *)
Definition planned (id : EventId) (t : Z) (e : E) s : Prop :=
  IsPending id s = true /\ id.(id_ts) = t /\
  exists p, m_eventImpl id = Some p /\ s.(impls) !! p = Some (mkImpl e false).

(** What an event of the agenda contributes to the plan *)
Definition live_event s (e : Event) : option (Z * E) :=
  match s.(impls) !! e.(impl) with
  | Some i => if i.(m_cancel) then None else Some (e.(key).(m_ts), i.(payload))
  | None => None
  end.

Lemma live_cons s e l : live s (e :: l) =
    match live_event s e with Some x => x :: live s l | None => live s l end.
Proof. unfold live. cbn. unfold live_event. by repeat case_match. Qed.

Lemma live_filter s l (P : Event -> Prop) (P' : Z * E -> Prop)
    `{forall e, Decision (P e)} `{forall x, Decision (P' x)} :
  (forall e i, e ∈ l -> P e <-> P' (e.(key).(m_ts), i)) ->
  live s (filter P l) = filter P' (live s l).
Proof.
  induction l as [|e l IH]; intros C; [done|]. rewrite filter_cons, live_cons.
  specialize (IH ltac:(intros; apply C; by right)).
  pose proof (fun i => C e i ltac:(by left)) as Ce.
  destruct (decide (P e)) as [D|D]; rewrite ?live_cons, IH; unfold live_event;
    repeat case_match; simplify_eq; try done.
  - by rewrite filter_cons_True by (by apply Ce).
  - by rewrite filter_cons_False by (by rewrite <- Ce).
Qed.

Lemma live_fresh s s' l p i :
  (forall x, is_Some (s.(impls) !! x) -> x <> p) ->
  Forall (fun e => is_Some (s.(impls) !! e.(impl))) l ->
  s'.(impls) = <[p := i]> s.(impls) -> live s' l = live s l.
Proof.
  intros Fr L E'. induction L as [|e l Le L IH]; [done|]. rewrite !live_cons, IH. unfold live_event.
  by rewrite E', lookup_insert_ne by (intros ->; by apply (Fr _ Le)).
Qed.

Lemma live_app s l k : live s (l ++ k) = live s l ++ live s k.
Proof. apply omap_app. Qed.

Lemma live_spec_insert s s' l delay e :
  kernel_inv s l -> s'.(impls) = <[s.(next_impl) := mkImpl e false]> s.(impls) ->
  live s' (spec_insert (scheduled delay s) l) = plan_insert (s.(m_currentTs) + delay) e (live s l).
Proof.
  intros I Ei. destruct I.
  assert (forall k, (forall x, x ∈ k -> x ∈ l) -> live s' k = live s k) as Old.
  { intros k Hk. eapply live_fresh; [|apply Forall_forall|exact Ei].
    - intros x Hx%inv_fresh ->. lia.
    - intros x Hx%Hk. rewrite Forall_forall in inv_live. auto. }
  unfold spec_insert, plan_insert. rewrite live_app, live_cons. unfold live_event at 1. cbn [impl scheduled].
  rewrite Ei, lookup_insert_eq. cbn.
  rewrite !Old by (intros x; rewrite list_elem_of_filter; tauto).
  assert (forall x, x ∈ l -> ev_lt x (scheduled delay s) = true <-> m_ts (key x) <= m_currentTs s + delay) as C.
  { intros x Hx. rewrite Forall_forall in inv_bounds. apply inv_bounds in Hx as [[_ Hu] _].
    rewrite ev_lt_spec. cbn. lia. }
  f_equal; [|f_equal]; apply live_filter; intros x i Hx; cbn [fst]; rewrite <- ?(C x Hx); [done|].
  specialize (C x Hx). destruct (ev_lt x (scheduled delay s)); intuition (try congruence; lia).
Qed.

Lemma plan_insert_block t e es (p : list (Z * E)) :
  plan_insert t e (plan_block t es p) = plan_block t (es ++ [e]) p.
Proof.
  unfold plan_insert, plan_block. rewrite !filter_app, fmap_app.
  assert (forall k : list (Z * E), filter (fun x => x.1 <= t) (filter (fun x => x.1 <= t) k)
    = filter (fun x => x.1 <= t) k) as ->.
  { intros k. apply filter_all, Forall_forall. by intros x [? _]%list_elem_of_filter. }
  assert (forall k : list (Z * E), filter (fun x => t < x.1) (filter (fun x => t < x.1) k)
    = filter (fun x => t < x.1) k) as ->.
  { intros k. apply filter_all, Forall_forall. by intros x [? _]%list_elem_of_filter. }
  assert (filter (fun x : Z * E => x.1 <= t) ((fun e => (t, e)) <$> es) = (fun e => (t, e)) <$> es) as ->.
  { apply filter_all, Forall_forall. intros x (e' & -> & _)%list_elem_of_fmap. cbn. lia. }
  assert (filter (fun x : Z * E => t < x.1) ((fun e => (t, e)) <$> es) = []) as ->.
  { apply filter_none, Forall_forall. intros x (e' & -> & _)%list_elem_of_fmap. cbn. lia. }
  assert (filter (fun x : Z * E => x.1 <= t) (filter (fun x => t < x.1) p) = []) as ->.
  { apply filter_none, Forall_forall. intros x [? _]%list_elem_of_filter. lia. }
  assert (filter (fun x : Z * E => t < x.1) (filter (fun x => x.1 <= t) p) = []) as ->.
  { apply filter_none, Forall_forall. intros x [? _]%list_elem_of_filter. lia. }
  rewrite !app_nil_r. cbn. by rewrite <- !app_assoc.
Qed.

(** An empty block changes nothing: a plan is sorted. *)
Lemma plan_block_nil s p t : sim_plan s p -> plan_block t [] p = p.
Proof.
  intros (l & I & <-). destruct (repr_agenda _ _ _ (inv_repr _ _ I)) as [S _]. clear I.
  unfold plan_block. cbn. induction l as [|e l IH]; [done|]. rewrite live_cons.
  apply StronglySorted_inv in S as [S F]. specialize (IH S).
  unfold live_event. repeat case_match; simplify_eq; try done.
  rewrite !filter_cons. cbn [fst]. destruct (decide (m_ts (key e) <= t)) as [L|L].
  - rewrite decide_False by lia. cbn. by rewrite IH.
  - rewrite decide_True by lia.
    assert (filter (fun x => x.1 <= t) (live s l) = []) as E1; [|by rewrite E1 in *; cbn in *; rewrite IH].
    apply filter_none, Forall_forall. intros [t' x] (y & Hy & Ey)%list_elem_of_omap. cbn.
    rewrite Forall_forall in F. apply F, ev_lt_spec in Hy. repeat case_match; simplify_eq. lia.
Qed.

(** What one call of Schedule does to the other events and to the counters *)
Record scheduled_to (delay : Z) (e : E) (s : Sim Q E) (id : EventId) (s' : Sim Q E) : Prop := {
  st_planned : planned id (s.(m_currentTs) + delay) e s';
  st_now : s'.(m_currentTs) = s.(m_currentTs);
  st_uid : s'.(m_uid) = s.(m_uid) + 1;
  st_fresh : m_eventImpl id = Some s.(next_impl);
  st_next : s'.(next_impl) = S s.(next_impl);
  st_other : forall id' p, m_eventImpl id' = Some p -> (p < s.(next_impl))%nat ->
    IsPending id' s' = IsPending id' s /\ s'.(impls) !! p = s.(impls) !! p;
  st_store : forall p, is_Some (s.(impls) !! p) -> is_Some (s'.(impls) !! p)
}.

Lemma Schedule_plan s p D n delay e :
  sim_plan s p -> room D (S n) s -> 0 <= delay <= D ->
  exists id s', Schedule delay e s = Ok (id, s') /\ scheduled_to delay e s id s' /\
    sim_plan s' (plan_insert (s.(m_currentTs) + delay) e p) /\ room D n s'.
Proof.
  intros (l & I & <-) [R1 R2] Hd.
  destruct (Schedule_ok s l delay e I) as (s' & -> & I' & Ei & En & Eu & Et & Ecu & Ec & _ & Ed & _);
    [lia..|].
  exists (event_id (scheduled delay s)), s'. split; [done|].
  split; [|split; [exists (spec_insert (scheduled delay s) l); split; [done|by apply live_spec_insert]|split; lia]].
  split; try done.
  - split; [|split; [done|]].
    + eapply scheduled_pending; [exact I|lia|done..].
    + exists (next_impl s). split; [done|]. by rewrite Ei, lookup_insert_eq.
  - intros id' q Hq Lt. rewrite Ei, lookup_insert_ne by lia. split; [|done].
    unfold IsPending. f_equal. apply IsExpired_ext; [done..|]. intros q' Hq'.
    rewrite Hq in Hq'. injection Hq' as <-. by rewrite Ei, lookup_insert_ne by lia.
  - intros q Hq. rewrite Ei, lookup_insert. case_decide; [by eexists|done].
Qed.

(** A planned event stays planned when another one is scheduled or cancelled. *)
Lemma planned_scheduled s s' delay e e' id id' t :
  (forall p, is_Some (s.(impls) !! p) -> (p < s.(next_impl))%nat) ->
  scheduled_to delay e' s id' s' -> planned id t e s -> planned id t e s'.
Proof.
  intros Fr St (P & T & p & Hp & Hi). destruct (st_other _ _ _ _ _ St id p Hp) as [E1 E2].
  { apply Fr. eauto. }
  split; [by rewrite E1|]. split; [done|]. exists p. by rewrite E2.
Qed.

Lemma planned_cancelled s e id id' t :
  m_eventImpl id <> m_eventImpl id' -> planned id t e s -> planned id t e (Cancel id' s).
Proof.
  intros N (P & T & p & Hp & Hi). split; [by rewrite cancel_other by congruence|]. split; [done|].
  exists p. split; [done|]. unfold Cancel. destruct (IsExpired id' s); cbn; [done|].
  destruct (m_eventImpl id') as [q|]; [|done]. cbn. rewrite lookup_alter_ne; [done|congruence].
Qed.

(** [id] stands for no event other than [e]. *)
Definition names (id : EventId) (e : E) s : Prop :=
  forall q i, m_eventImpl id = Some q -> s.(impls) !! q = Some i -> i.(payload) = e.

(** Cancelling an id that names [e] takes nothing but [e] out of the plan. *)
Lemma cancel_plan s p id e :
  sim_plan s p -> names id e s ->
  exists p', sim_plan (Cancel id s) p' /\ p' `sublist_of` p /\
    forall P `{forall x, Decision (P x)}, (forall t, ~ P (t, e)) -> filter P p' = filter P p.
Proof.
  intros (l & I & <-) N. exists (live (Cancel id s) l).
  split; [exists l; split; [by apply kernel_inv_cancel|done]|].
  unfold Cancel. destruct (IsExpired id s); cbn [negb]; [done|].
  destruct (m_eventImpl id) as [q|] eqn:Hq; [|done]. specialize (N q).
  clear I. induction l as [|x l [IH1 IH2]]; [done|]. rewrite !live_cons.
  assert (live_event (cancel_impl q s) x = live_event s x \/
    live_event (cancel_impl q s) x = None /\ (live_event s x = None \/ exists t, live_event s x = Some (t, e)))
    as [->|[-> [->|[t ->]]]].
  { unfold live_event. cbn. destruct (decide (q = impl x)) as [->|Ne]; [|by left; rewrite lookup_alter_ne].
    rewrite lookup_alter_eq. destruct (impls s !! impl x) as [i|] eqn:Hi; [|by left]. right. cbn.
    split; [done|]. rewrite (N i) by done. destruct (m_cancel i); eauto. }
  - destruct (live_event s x); [|by split]. split; [by constructor|].
    intros P ? HP. rewrite !filter_cons. by rewrite (IH2 P).
  - by split.
  - split; [by constructor|]. intros P ? HP. rewrite filter_cons_False by done. by apply IH2.
Qed.

End plans.

(** ** Worlds *)

Section draws.
Context {E : Type} `{Platform}.

(** The delays a stream draws are between 0 and [D]. *)
Definition draws_within (D : Z) (rv : RandomVariable) : Prop :=
  forall n, 0 <= Seconds (rv.(rv_draws) n) <= D.

(** Each event is scheduled at time [t] after a delay of its own. *)
Fixpoint plan_draws (t : Z) (rv : RandomVariable) (es : list E) (p : list (Z * E)) : list (Z * E) :=
  match es with
  | [] => p
  | e :: es =>
      let '(delay, rv) := GetValue rv in plan_draws t rv es (plan_insert (t + Seconds delay) e p)
  end.

(** With a constant delay the events form one block, in the order they are sent in. *)
Lemma plan_draws_block t rv d (es0 es : list E) p :
  (forall n, Seconds (rv.(rv_draws) n) = d) ->
  plan_draws t rv es (plan_block (t + d) es0 p) = plan_block (t + d) (es0 ++ es) p.
Proof.
  intros C. revert rv es0 C. induction es as [|e es IH]; intros rv es0 C; cbn; [by rewrite app_nil_r|].
  rewrite C, plan_insert_block, IH by done. by rewrite <- app_assoc.
Qed.

End draws.

Section worlds.
Context {Q : Type} `{EventQueueLaws Q} `{Platform}.
Implicit Types (w : World Q).

Definition plan w (p : list (Z * OranEvent)) : Prop := sim_plan w.(sim) p.

Lemma schedule_plan w p D n delay e :
  plan w p -> room D (S n) w.(sim) -> 0 <= delay <= D ->
  exists id s', schedule delay e w = Ok (id, w <| sim := s' |>) /\ scheduled_to delay e w.(sim) id s' /\
    sim_plan s' (plan_insert (now w + delay) e p) /\ room D n s'.
Proof.
  intros P R Hd. destruct (Schedule_plan _ p D n delay e P R Hd) as (id & s' & E & St & P' & R').
  exists id, s'. split; [|done]. unfold schedule. by rewrite E.
Qed.

(** The objects other than the kernel, the repository and the RIC's E2 terminator *)
Definition same_objects w w' : Prop :=
  w'.(ric) = w.(ric) /\ w'.(cmm) = w.(cmm) /\ w'.(lms) = w.(lms) /\ w'.(nodes) = w.(nodes) /\
  w'.(terminators) = w.(terminators) /\ w'.(reporters) = w.(reporters) /\ w'.(triggers) = w.(triggers).

#[export] Instance same_objects_refl : Reflexive same_objects.
Proof. by intros w. Qed.

#[export] Instance same_objects_trans : Transitive same_objects.
Proof. unfold same_objects. intros w1 w2 w3 S1 S2. destruct_and!. split_and!; congruence. Qed.

(** Cancelling changes no more than which events are to come. *)
Lemma cancel_pending_frame id w :
  exists s', cancel_pending id w = w <| sim := s' |> /\ s'.(m_currentTs) = w.(sim).(m_currentTs) /\
    s'.(m_uid) = w.(sim).(m_uid) /\ s'.(next_impl) = w.(sim).(next_impl) /\
    forall q, is_Some (w.(sim).(impls) !! q) -> is_Some (s'.(impls) !! q).
Proof.
  unfold cancel_pending, cancel. destruct (pending id w).
  - eexists. split; [done|]. unfold Cancel. destruct (negb _); [|done].
    destruct (m_eventImpl id); [|done]. split_and!; try done. intros q Hq. cbn.
    rewrite lookup_alter. case_decide; [subst; by apply fmap_is_Some|done].
  - exists w.(sim). by destruct w.
Qed.

Lemma cancel_pending_plan w p id e :
  plan w p -> names id e w.(sim) ->
  exists p', plan (cancel_pending id w) p' /\ p' `sublist_of` p /\
    forall P `{forall x, Decision (P x)}, (forall t, ~ P (t, e)) -> filter P p' = filter P p.
Proof.
  intros Pl N. unfold cancel_pending. destruct (pending id w); [|by exists p].
  exact (cancel_plan _ _ _ _ Pl N).
Qed.

Lemma planned_cancel_pending w e id id' t :
  m_eventImpl id <> m_eventImpl id' -> planned id t e w.(sim) ->
  planned id t e (cancel_pending id' w).(sim).
Proof. intros N Pl. unfold cancel_pending. destruct (pending id' w); [by apply planned_cancelled|done]. Qed.

End worlds.
