(* ===== verification/RlLm.v ===== *)
(** The reinforcement-learning logic modules: src/oran/model/oran-lm-nr-rl-qlearn.cc and
    oran-lm-nr-rl-dqn.cc, whose Run and metric functions are the same.

    The agent behind the gRPC channel is not part of the repository: what it answers to an
    observation is a parameter.  So is the iteration order of std::unordered_map, and the
    value of llround where C leaves it open. *)
From Stdlib Require Import ZArith Lia SpecFloat.
From stdpp Require Import base list gmap strings.
From S2P Require Import Prelude Messages Repository World.
Open Scope Z_scope.
(** message UeTTI and message ObservationRequest *)
Record UeTTI := mkUeTTI { tti_rnti : Z; tti_txdrop : Z; tti_txbuffer : Z; tti_txpdu : Z }.
Record ObservationRequest := mkObs { tti_counter : Z; ues : list UeTTI }.

(** The ue_shares of the ActionResponse, or [None] when the status is not OK. *)
Class RlAgent : Type := {
  PushObservation : ObservationRequest -> option (list (Z * double))
}.

(** What the C++ implementation decides. *)
Class CppImpl : Type := {
  unordered_begin : gmap Z Z -> list (Z * Z);
  llround_unspecified : double -> Z
}.

(** The iteration visits every binding once. *)
Class CppImplLaws `{CppImpl} : Prop := {
  unordered_perm : forall m, unordered_begin m ≡ₚ map_to_list m
}.

(** constexpr uint32_t B_FIXED *)
Definition B_FIXED : Z := 533.

(** ** From shares to targets *)

(** items.push_back ({rnti, std::max (0.0, share)}) *)
Definition to_items (shares : list (Z * double)) : list (Z * double) :=
  (fun sh => (u16 sh.1, d_max d_zero sh.2)) <$> shares.

Definition sum_shares (items : list (Z * double)) : double :=
  foldl (fun sum it => d_add sum it.2) d_zero items.

(** The proportions, which should sum to 1. *)
Definition normalise (items : list (Z * double)) : list (Z * double) :=
  let sumShare := sum_shares items in
  if d_leb sumShare d_zero then
    let eq := d_div (d_of_Z 1) (d_of_Z (Z.of_nat (length items))) in
    (fun it => (it.1, eq)) <$> items
  else (fun it => (it.1, d_div it.2 sumShare)) <$> items.

Section allocation.
Context `{CppImpl}.

(** static_cast<uint32_t> (std::llround (share * B_FIXED)), at least 1 *)
Definition round_target (share : double) : Z :=
  let v := d_mul share (d_of_Z B_FIXED) in
  let t := u32 (default (llround_unspecified v) (llround v)) in
  if t <? 1 then 1 else t.

(** The loop that fills ulTargets and sumT. *)
Definition initial_targets (items : list (Z * double)) : gmap Z Z * Z :=
  foldl (fun acc it => let t := round_target it.2 in (<[it.1 := t]> acc.1, u32 (acc.2 + t)))
    (∅, 0) items.

(** The largest target above 1, the first of them in iteration order. *)
Definition find_best (ulTargets : gmap Z Z) : option (Z * Z) :=
  foldl (fun best it =>
      if (1 <? it.2) && (match best with None => true | Some b => b.2 <? it.2 end)
      then Some it else best)
    None (unordered_begin ulTargets).

(** while (sumT > B_FIXED); [None] when [fuel] iterations are not enough. *)
Fixpoint shrink (fuel : nat) (ulTargets : gmap Z Z) (sumT : Z) : option (gmap Z Z * Z) :=
  if negb (B_FIXED <? sumT) then Some (ulTargets, sumT) else
  match find_best ulTargets with
  | None => Some (ulTargets, sumT)
  | Some best =>
      match fuel with
      | O => None
      | S fuel => shrink fuel (<[best.1 := u32 (best.2 - 1)]> ulTargets) (u32 (sumT - 1))
      end
  end.

(** The first item with the largest share. *)
Definition best_rnti (first : Z * double) (items : list (Z * double)) : Z :=
  (foldl (fun best it => if d_ltb best.2 it.2 then it else best) first items).1.

(** while (sumT < B_FIXED) *)
Fixpoint grow (fuel : nat) (items : list (Z * double)) (ulTargets : gmap Z Z) (sumT : Z) :
    option (gmap Z Z * Z) :=
  if negb (sumT <? B_FIXED) then Some (ulTargets, sumT) else
  match items with
  | [] => None
  | first :: _ =>
      match fuel with
      | O => None
      | S fuel =>
          let r := best_rnti first items in
          grow fuel items (<[r := u32 (default 0 (ulTargets !! r) + 1)]> ulTargets) (u32 (sumT + 1))
      end
  end.

(** The body of if (!gnbIds.empty () && response.ue_shares_size () > 0) up to the command.
    Each loop changes sumT by 1 towards B_FIXED, which bounds its iterations. *)
Definition allocate (shares : list (Z * double)) : option (gmap Z Z) :=
  let items := normalise (to_items shares) in
  let '(ulTargets, sumT) := initial_targets items in
  match shrink (Z.to_nat (sumT - B_FIXED)) ulTargets sumT with
  | None => None
  | Some (ulTargets, sumT) => fst <$> grow (Z.to_nat (B_FIXED - sumT)) items ulTargets sumT
  end.

End allocation.

(** ** The metrics *)

(** The loop over the samples newer than [lastTime]: sum, count and newest time. *)
Definition new_samples (lastTime : Z) (samples : list (Z * Z)) : Z * Z * Z :=
  foldl (fun '(sum, count, newestTime) s =>
      if lastTime <? s.1
      then (u64 (sum + s.2), u64 (count + 1), if newestTime <? s.1 then s.1 else newestTime)
      else (sum, count, newestTime))
    (0, 0, lastTime) samples.

(** operator[] of a map of numbers: an absent key is inserted with 0. *)
Definition at_key (k : Z) (m : gmap Z Z) : Z * gmap Z Z :=
  match m !! k with Some v => (v, m) | None => (0, <[k := 0]> m) end.

Definition GetBufferSize (data : Repo) (ueId lcid : Z) (st : RlState) : res (Z * RlState) :=
  let counter := u32 (default 0 (st.(m_bufferCounter) !! ueId) + 1) in
  let st := st <| m_bufferCounter := <[ueId := counter]> st.(m_bufferCounter) |> in
  if counter <? st.(m_N) then
    let '(v, m) := at_key ueId st.(m_lastBufferValue) in Ok (v, st <| m_lastBufferValue := m |>)
  else
    let st := st <| m_bufferCounter := <[ueId := 0]> st.(m_bufferCounter) |> in
    let* samples := GetNrUeBufferStatus ueId data in
    match samples with
    | [] => Ok (0, st)
    | _ =>
        let '(sum, count, newestTime) :=
          new_samples (default 0 (st.(m_lastBufferTime) !! ueId))
            ((fun s => (s.(bs_time), s.(txQueueSize))) <$> samples) in
        let avg := if count =? 0 then 0 else sum / count in
        Ok (avg, st <| m_lastBufferTime := <[ueId := newestTime]> st.(m_lastBufferTime) |>
                    <| m_lastBufferValue := <[ueId := avg]> st.(m_lastBufferValue) |>)
    end.

Definition GetTxDrop (data : Repo) (ueId lcid : Z) (st : RlState) : res (Z * RlState) :=
  let counter := u32 (default 0 (st.(m_txDropCounter) !! ueId) + 1) in
  let st := st <| m_txDropCounter := <[ueId := counter]> st.(m_txDropCounter) |> in
  if counter <? st.(m_N) then
    let '(v, m) := at_key ueId st.(m_lastTxDropValue) in Ok (v, st <| m_lastTxDropValue := m |>)
  else
    let st := st <| m_txDropCounter := <[ueId := 0]> st.(m_txDropCounter) |> in
    let* samples := GetNrUeTxDrop ueId data in
    match samples with
    | [] => Ok (0, st)
    | _ =>
        let '(sum, count, newestTime) :=
          new_samples (default 0 (st.(m_lastTxDropTime) !! ueId))
            ((fun s => (s.(drop_time), s.(txDrop))) <$> samples) in
        let avg := if count =? 0 then 0 else sum / count in
        Ok (avg, st <| m_lastTxDropTime := <[ueId := newestTime]> st.(m_lastTxDropTime) |>
                    <| m_lastTxDropValue := <[ueId := avg]> st.(m_lastTxDropValue) |>)
    end.

Definition GetTxPdu (data : Repo) (ueId lcid : Z) (st : RlState) : res (Z * RlState) :=
  let counter := u32 (default 0 (st.(m_txPduCounter) !! ueId) + 1) in
  let st := st <| m_txPduCounter := <[ueId := counter]> st.(m_txPduCounter) |> in
  if counter <? st.(m_N) then
    let '(v, m) := at_key ueId st.(m_lastTxPduValue) in Ok (v, st <| m_lastTxPduValue := m |>)
  else
    let st := st <| m_txPduCounter := <[ueId := 0]> st.(m_txPduCounter) |> in
    let* samples := GetNrUeTxPdu ueId data in
    match samples with
    | [] => Ok (0, st)
    | _ =>
        let '(sum, count, newestTime) :=
          new_samples (default 0 (st.(m_lastTxPduTime) !! ueId))
            ((fun s => (s.(pdu_time), s.(txPdu))) <$> samples) in
        let avg := if count =? 0 then 0 else sum / count in
        Ok (avg, st <| m_lastTxPduTime := <[ueId := newestTime]> st.(m_lastTxPduTime) |>
                    <| m_lastTxPduValue := <[ueId := avg]> st.(m_lastTxPduValue) |>)
    end.

(** ** Run *)

(** The body of the loop that builds the observation. *)
Definition observe_ue (data : Repo) (ueId : Z) (acc : list UeTTI * RlState) :
    res (list UeTTI * RlState) :=
  let '(obs, st) := acc in
  let* info := GetNrUeCellInfo ueId data in
  let '(_, _, rnti) := info in
  let* b := GetBufferSize data ueId 3 st in
  let* d := GetTxDrop data ueId 1 b.2 in
  let* p := GetTxPdu data ueId 3 d.2 in
  Ok (obs ++ [mkUeTTI rnti d.1 b.1 p.1], p.2).

Section run.
Context `{Sqlite} `{RlAgent} `{CppImpl}.

(** OranLmNrRlQlearn::Run () and OranLmNrRlDqn::Run () *)
Definition RlRun (active hasRic : bool) (data : Repo) (st : RlState) :
    res (list OranCommand * RlState) :=
  if negb active then Ok ([], st) else
  let* _ := abort_if (negb hasRic) "MDP RL LM running without a Near-RT RIC" in
  let* ueIds := GetNrUeE2NodeIds data in
  let* gnbIds := GetNrGnbE2NodeIds data in
  if negb st.(m_grpc) then Ok ([], st) else
  let tti := st.(ttiCounter) in
  let* obs := res_fold (observe_ue data) ueIds ([], st <| ttiCounter := u64 (tti + 1) |>) in
  match PushObservation (mkObs tti obs.1), gnbIds with
  | Some (sh :: shares), gnb :: _ =>
      match allocate (sh :: shares) with
      | Some ulTargets => Ok ([mkCommand gnb (OranCommandNrUlRbgTargets ulTargets)], obs.2)
      | None => Abort "the target loops did not end"
      end
  | _, _ => Ok ([], obs.2)
  end.

End run.
