(* ===== verification/RlLmProps.v ===== *)
(** The target allocation of the reinforcement-learning logic modules: facts about its loops, and the
    properties of the modules. *)
From Stdlib Require Import ZArith Lia SpecFloat.
From stdpp Require Import base list gmap strings sets list_numbers.
From S2P Require Import Prelude Messages Repository RepositoryFacts RepositoryProps World RlLm.
Open Scope Z_scope.
(** ** The sum of the targets *)

Definition total (m : gmap Z Z) : Z := map_fold (fun _ v acc => v + acc) 0 m.

Lemma total_insert_fresh k v m : m !! k = None -> total (<[k := v]> m) = v + total m.
Proof. intros F. unfold total. rewrite map_fold_insert_L; [done|intros; lia|done]. Qed.

Lemma total_insert k v m : total (<[k := v]> m) = v + total m - default 0 (m !! k).
Proof.
  destruct (m !! k) as [u|] eqn:E; cbn; [|rewrite total_insert_fresh by done; lia].
  rewrite <- (insert_delete_id m k u E) at 2. rewrite <- (insert_delete_eq m k v).
  rewrite !total_insert_fresh by apply lookup_delete_eq. lia.
Qed.

(** Every target is at least 1 ... *)
Definition positive (m : gmap Z Z) : Prop := map_Forall (fun _ v => 1 <= v) m.

Lemma total_lower (m : gmap Z Z) : positive m -> Z.of_nat (size m) <= total m.
Proof.
  induction m as [|k v m F IH] using map_ind; [done|].
  intros P%map_Forall_insert; [|done]. destruct P as [P1 P2]. rewrite total_insert_fresh by done.
  rewrite map_size_insert_None by done. specialize (IH P2). lia.
Qed.

Lemma total_ones m : map_Forall (fun _ v => v = 1) m -> total m = Z.of_nat (size m).
Proof.
  induction m as [|k v m F IH] using map_ind; [done|].
  intros P%map_Forall_insert; [|done]. destruct P as [P1 P2]. rewrite total_insert_fresh by done.
  rewrite map_size_insert_None by done. specialize (IH P2). lia.
Qed.

Lemma total_ge m k v : positive m -> m !! k = Some v -> v <= total m.
Proof.
  intros P E. pose proof (total_insert k v m) as T. rewrite insert_id in T by done.
  rewrite <- (insert_delete_id m k v E), total_insert_fresh by apply lookup_delete_eq.
  assert (positive (delete k m)) as P' by (by apply map_Forall_delete).
  pose proof (total_lower _ P'). lia.
Qed.

Lemma positive_insert k v m : positive m -> 1 <= v -> positive (<[k := v]> m).
Proof. intros P V. by apply map_Forall_insert_2. Qed.

#[export] Hint Resolve positive_insert : oran.

Section allocation_facts.
Context `{CppImplLaws}.

Lemma unordered_elem m k v : (k, v) ∈ unordered_begin m <-> m !! k = Some v.
Proof. by rewrite unordered_perm, elem_of_map_to_list. Qed.

(** The scan keeps the first of the largest, among those above 1. *)
Lemma find_best_scan l (acc : option (Z * Z)) :
  match foldl (fun best it =>
      if (1 <? it.2) && (match best with None => true | Some b => b.2 <? it.2 end)
      then Some it else best) acc l with
  | Some b => (Some b = acc \/ b ∈ l /\ 1 < b.2)
  | None => acc = None /\ Forall (fun it => it.2 <= 1) l
  end.
Proof.
  revert acc. induction l as [|it l IH]; intros acc; cbn; [destruct acc; auto|].
  specialize (IH (if (1 <? it.2) && match acc with None => true | Some b => b.2 <? it.2 end
                  then Some it else acc)).
  destruct (foldl _ _ l) as [b|].
  - destruct IH as [IH|[IH1 IH2]]; [|right; split; [by right|done]].
    destruct (_ && _) eqn:C; [|by left]. injection IH as ->. right. split; [by left|zlia].
  - destruct IH as [IH1 IH2]. destruct (_ && _) eqn:C; [done|]. subst acc.
    rewrite andb_true_r in C. split; [done|]. constructor; [zlia|done].
Qed.

Lemma find_best_Some m b : find_best m = Some b -> m !! b.1 = Some b.2 /\ 1 < b.2.
Proof.
  unfold find_best. intros E. pose proof (find_best_scan (unordered_begin m) None) as S.
  rewrite E in S. destruct S as [S|[S1 S2]]; [done|]. split; [|done].
  apply unordered_elem. by destruct b.
Qed.

Lemma find_best_None m : find_best m = None -> map_Forall (fun _ v => v <= 1) m.
Proof.
  unfold find_best. intros E. pose proof (find_best_scan (unordered_begin m) None) as S.
  rewrite E in S. destruct S as [_ S]. rewrite Forall_forall in S. intros k v Hkv.
  by apply (S (k, v)), unordered_elem.
Qed.

(** ** Both loops end within their fuel *)

Lemma shrink_ends fuel m s :
  s - B_FIXED <= Z.of_nat fuel -> s < 2 ^ 32 -> exists m' s', shrink fuel m s = Some (m', s') /\ Z.min s B_FIXED <= s'.
Proof.
  revert m s. induction fuel as [|fuel IH]; intros m s F S; cbn [shrink].
  all: destruct (Z.ltb_spec B_FIXED s); cbn [negb]; [|by exists m, s; split; [|lia]].
  all: destruct (find_best m) as [b|]; [|by exists m, s; split; [|lia]].
  - lia.
  - assert (u32 (s - 1) = s - 1) as E by (apply wrap_small; unfold fits, B_FIXED in *; lia).
    rewrite E. destruct (IH (<[b.1 := u32 (b.2 - 1)]> m) (s - 1)) as (m' & s' & -> & L); [lia|lia|].
    exists m', s'. split; [done|lia].
Qed.

Lemma grow_ends fuel items m s :
  items <> [] -> 0 <= s -> B_FIXED - s <= Z.of_nat fuel -> exists m' s', grow fuel items m s = Some (m', s').
Proof.
  intros N. revert m s. induction fuel as [|fuel IH]; intros m s S F; cbn [grow].
  all: destruct (Z.ltb_spec s B_FIXED); cbn [negb]; [|by exists m, s].
  - lia.
  - destruct items as [|first rest]; [done|]. cbn zeta.
    assert (u32 (s + 1) = s + 1) as E by (apply wrap_small; unfold fits, B_FIXED in *; lia).
    rewrite E. apply IH; lia.
Qed.

(** ** What the loops do to targets that sum to sumT *)

Definition consistent (m : gmap Z Z) (s : Z) : Prop := positive m /\ total m = s /\ s < 2 ^ 32.

Lemma shrink_spec fuel m s :
  s - B_FIXED <= Z.of_nat fuel -> consistent m s ->
  exists m' s', shrink fuel m s = Some (m', s') /\ consistent m' s' /\ dom m' = dom m /\
    s' = if B_FIXED <? s then Z.max B_FIXED (Z.of_nat (size m)) else s.
Proof.
  revert m s. induction fuel as [|fuel IH]; intros m s F (P & T & S); cbn [shrink].
  all: destruct (Z.ltb_spec B_FIXED s) as [L|L]; cbn [negb]; [|by exists m, s].
  all: destruct (find_best m) as [b|] eqn:Fb.
  - lia.
  - exists m, s. split_and!; [done|done|done|]. apply find_best_None in Fb.
    assert (total m = Z.of_nat (size m)) as T1; [|lia].
    apply total_ones. intros k v E. pose proof (P k v E). pose proof (Fb k v E). cbn in *. lia.
  - apply find_best_Some in Fb as [E Hb]. pose proof (total_ge m _ _ P E) as G.
    rewrite (wrap_small 32 (b.2 - 1)) by (unfold fits; lia).
    rewrite (wrap_small 32 (s - 1)) by (unfold fits, B_FIXED in *; lia).
    destruct (IH (<[b.1 := b.2 - 1]> m) (s - 1)) as (m' & s' & R & C & D & V); [lia| |].
    + split_and!; [apply positive_insert; [done|lia]| |lia]. rewrite total_insert, E. cbn. lia.
    + exists m', s'. split_and!; [done|done| |].
      * rewrite D, dom_insert_L. apply elem_of_dom_2 in E. set_solver.
      * rewrite V, map_size_insert_Some by done. destruct (Z.ltb_spec B_FIXED (s - 1)); [done|].
        pose proof (total_lower m P). unfold B_FIXED in *.
        destruct (decide (Z.of_nat (size m) <= 533)); [lia|].
        assert (size (<[b.1:=b.2 - 1]> m) = size m) as Sz by (by apply map_size_insert_Some).
        assert (positive (<[b.1 := b.2 - 1]> m)) as P' by (apply positive_insert; [done|lia]).
        pose proof (total_lower _ P') as Lw. rewrite total_insert, E in Lw. cbn in Lw. lia.
  - exists m, s. split_and!; [done|done|done|]. apply find_best_None in Fb.
    assert (total m = Z.of_nat (size m)) as T1; [|lia].
    apply total_ones. intros k v E. pose proof (P k v E). pose proof (Fb k v E). cbn in *. lia.
Qed.

Lemma best_rnti_elem first items : best_rnti first items = first.1 \/ best_rnti first items ∈ items.*1.
Proof.
  unfold best_rnti. generalize first. clear first. induction items as [|it items IH]; intros first; cbn; [by left|].
  destruct (d_ltb first.2 it.2).
  - destruct (IH it) as [E|E]; [right; rewrite E; by left|right; by right].
  - destruct (IH first) as [E|E]; [by left|right; by right].
Qed.

Lemma grow_spec fuel items m s :
  items <> [] -> (forall it, it ∈ items -> it.1 ∈ dom m) ->
  B_FIXED - s <= Z.of_nat fuel -> consistent m s ->
  exists m' s', grow fuel items m s = Some (m', s') /\ consistent m' s' /\ dom m' = dom m /\
    s' = Z.max B_FIXED s.
Proof.
  intros N D. revert m s D. induction fuel as [|fuel IH]; intros m s D F (P & T & S); cbn [grow].
  all: destruct (Z.ltb_spec s B_FIXED) as [L|L]; cbn [negb];
    [|exists m, s; split_and!; [done|done|done|lia]].
  - lia.
  - destruct items as [|first rest] eqn:Ei; [done|]. rewrite <- Ei in *. cbn zeta.
    set (r := best_rnti first items).
    assert (r ∈ dom m) as Hr.
    { destruct (best_rnti_elem first items) as [E|E].
      - fold r in E. rewrite E. apply D. rewrite Ei. by left.
      - fold r in E. apply list_elem_of_fmap in E as (it & -> & Hit). by apply D. }
    apply elem_of_dom in Hr as [v Hv]. rewrite Hv. cbn [default from_option id].
    pose proof (total_ge m _ _ P Hv) as G. pose proof (P _ _ Hv) as Pv. cbn in Pv.
    rewrite (wrap_small 32 (v + 1)) by (unfold fits, B_FIXED in *; lia).
    rewrite (wrap_small 32 (s + 1)) by (unfold fits, B_FIXED in *; pose proof (total_lower m P); lia).
    assert (dom (<[r := v + 1]> m) = dom m) as Dm.
    { rewrite dom_insert_L. apply elem_of_dom_2 in Hv. set_solver. }
    destruct (IH (<[r := v + 1]> m) (s + 1)) as (m' & s' & R & C & Dm' & V).
    + by rewrite Dm.
    + lia.
    + split_and!; [apply positive_insert; [done|lia]| |unfold B_FIXED in *; lia].
      rewrite total_insert, Hv. cbn. lia.
    + exists m', s'. split_and!; [done|done|by rewrite Dm'|lia].
Qed.

(** ** The targets before the corrections *)

Lemma round_target_pos share : 1 <= round_target share.
Proof. unfold round_target. destruct (Z.ltb_spec (u32 (default (llround_unspecified (d_mul share (d_of_Z B_FIXED))) (llround (d_mul share (d_of_Z B_FIXED))))) 1); lia. Qed.

Lemma round_target_fits share : round_target share < 2 ^ 32.
Proof.
  unfold round_target. set (v := d_mul _ _). pose proof (wrap_fits 32 (default (llround_unspecified v) (llround v)) ltac:(lia)) as W.
  unfold fits in W. destruct (_ <? 1); lia.
Qed.

Lemma initial_targets_snoc items it :
  initial_targets (items ++ [it]) =
  (<[it.1 := round_target it.2]> (initial_targets items).1,
   u32 ((initial_targets items).2 + round_target it.2)).
Proof. unfold initial_targets. by rewrite foldl_app. Qed.

(** With distinct RNTIs and no overflow the running sum is the sum of the targets. *)
Lemma initial_targets_spec items :
  NoDup items.*1 ->
  Forall (fun it => round_target it.2 <= B_FIXED) items ->
  Z.of_nat (length items) * B_FIXED < 2 ^ 32 ->
  consistent (initial_targets items).1 (initial_targets items).2 /\
  (initial_targets items).2 <= Z.of_nat (length items) * B_FIXED /\
  dom (initial_targets items).1 = list_to_set items.*1 /\
  size (initial_targets items).1 = length items.
Proof.
  induction items as [|it items IH] using rev_ind; intros N B L.
  - split_and!; [|done|done|done]. split_and!; [apply map_Forall_empty|done|done].
  - rewrite fmap_app in N. apply NoDup_app in N as (N1 & N2 & _).
    apply Forall_app in B as [B1 B2]. apply Forall_cons in B2 as [B2 _].
    rewrite length_app in L. cbn [length] in L.
    destruct IH as ((P & T & S) & U & D & Z); [done|done|unfold B_FIXED in *; lia|].
    rewrite initial_targets_snoc. cbn [fst snd].
    pose proof (round_target_pos it.2) as R.
    assert ((initial_targets items).1 !! it.1 = None) as F.
    { apply not_elem_of_dom. rewrite D, elem_of_list_to_set. intros Hi. apply (N2 _ Hi). by left. }
    pose proof (total_lower _ P) as Lw.
    rewrite (wrap_small 32) by (unfold fits, B_FIXED in *; lia).
    split_and!.
    + split_and!; [by apply positive_insert|by rewrite total_insert_fresh, T by done; lia|].
      unfold B_FIXED in *. lia.
    + rewrite length_app. cbn. unfold B_FIXED in *. lia.
    + rewrite dom_insert_L, D, fmap_app, list_to_set_app_L. cbn. set_solver.
    + rewrite map_size_insert_None, Z, length_app by done. cbn. lia.
Qed.

End allocation_facts.

Lemma to_items_keys shares : (to_items shares).*1 = (fun sh => u16 sh.1) <$> shares.
Proof. unfold to_items. rewrite <- list_fmap_compose. done. Qed.

Lemma normalise_keys items : (normalise items).*1 = items.*1.
Proof. unfold normalise. destruct (d_leb _ _); by rewrite <- list_fmap_compose. Qed.

Lemma normalise_nil items : normalise items = [] -> items = [].
Proof. unfold normalise. destruct (d_leb _ _); by destruct items. Qed.

Lemma normalise_length items : length (normalise items) = length items.
Proof. unfold normalise. destruct (d_leb _ _); by rewrite length_fmap. Qed.

(** There are at most 2^16 distinct RNTIs. *)
Lemma distinct_u16 (l : list Z) : NoDup l -> Forall (fits 16) l -> Z.of_nat (length l) <= 65536.
Proof.
  intros N F. assert (l ⊆+ seqZ 0 65536) as S%submseteq_length.
  { apply NoDup_submseteq; [done|]. intros x Hx. apply elem_of_seqZ.
    rewrite Forall_forall in F. specialize (F _ Hx). unfold fits in F. lia. }
  rewrite length_seqZ in S. lia.
Qed.

(** ** Runs *)

Lemma allocate_total `{CppImplLaws} shares : shares <> [] -> is_Some (allocate shares).
Proof.
  intros N. unfold allocate. cbn zeta. set (items := normalise (to_items shares)).
  assert (items <> []) as Ni by (intros E; apply normalise_nil in E; by destruct shares).
  assert (0 <= (initial_targets items).2 < 2 ^ 32) as S.
  { clear. induction items as [|it items _] using rev_ind; [done|].
    rewrite initial_targets_snoc. apply wrap_fits. lia. }
  destruct (initial_targets items) as [m s]. cbn [fst snd] in S.
  destruct (shrink_ends (Z.to_nat (s - B_FIXED)) m s) as (m1 & s1 & -> & L); [lia|lia|].
  destruct (grow_ends (Z.to_nat (B_FIXED - s1)) items m1 s1) as (m2 & s2 & ->);
    [done|unfold B_FIXED in *; lia|lia|by eexists].
Qed.

(** The metric functions only fail when a query does. *)
Ltac metric_total S :=
  match goal with |- context [?a <? ?b] => destruct (a <? b) end; [by case_match; eexists|];
  match goal with |- context [res_bind (get_registered ?e ?d0 ?f ?r) _] =>
    destruct (get_registered_sound e d0 f r S) as [? ->] end;
  cbn [res_bind]; repeat case_match; by eexists.

Lemma GetBufferSize_total data e lcid st : repo_sound data -> exists r, GetBufferSize data e lcid st = Ok r.
Proof. intros S. unfold GetBufferSize, GetNrUeBufferStatus. cbn zeta. metric_total S. Qed.

Lemma GetTxDrop_total data e lcid st : repo_sound data -> exists r, GetTxDrop data e lcid st = Ok r.
Proof. intros S. unfold GetTxDrop, GetNrUeTxDrop. cbn zeta. metric_total S. Qed.

Lemma GetTxPdu_total data e lcid st : repo_sound data -> exists r, GetTxPdu data e lcid st = Ok r.
Proof. intros S. unfold GetTxPdu, GetNrUeTxPdu. cbn zeta. metric_total S. Qed.

Lemma observe_total data l acc : repo_sound data -> exists r, res_fold (observe_ue data) l acc = Ok r.
Proof.
  intros S. revert acc. induction l as [|e l IH]; intros [obs st]; cbn [res_fold]; [by eexists|].
  unfold observe_ue at 1. unfold GetNrUeCellInfo.
  match goal with |- context [res_bind (get_registered ?e ?d0 ?f ?r) _] =>
    destruct (get_registered_sound e d0 f r S) as [[[? ?] ?] ->] end. cbn [res_bind].
  destruct (GetBufferSize_total data e 3 st S) as [rb ->]. cbn [res_bind].
  destruct (GetTxDrop_total data e 1 rb.2 S) as [rd ->]. cbn [res_bind].
  destruct (GetTxPdu_total data e 3 rd.2 S) as [rp ->]. apply IH.
Qed.

Lemma RlRun_total `{Sqlite} `{RlAgent} `{CppImplLaws} data st :
  repo_sound data ->
  exists commands st', RlRun true true data st = Ok (commands, st') /\
    (commands = [] \/
     exists gnb gnbs obs shares targets, GetNrGnbE2NodeIds data = Ok (gnb :: gnbs) /\
       PushObservation obs = Some shares /\ allocate shares = Some targets /\
       commands = [mkCommand gnb (OranCommandNrUlRbgTargets targets)]).
Proof.
  intros S. unfold RlRun. cbn [negb abort_if res_bind].
  destruct (get_active_sound [] (fun d => (fun r => u64 r.1) <$> GET_NR_ALL_UE_E2NODEIDS d) data S) as [ids Ei].
  destruct (get_active_sound [] (fun d => (fun r => u64 r.1) <$> GET_NR_ALL_GNB_E2NODEIDS d) data S) as [gs Eg].
  fold GetNrUeE2NodeIds in Ei. fold GetNrGnbE2NodeIds in Eg.
  assert (GetNrUeE2NodeIds data = Ok ids) as -> by done.
  assert (GetNrGnbE2NodeIds data = Ok gs) as Eg' by done. rewrite Eg'. cbn [res_bind].
  destruct (negb (m_grpc st)); [by do 2 eexists; split; [done|left]|].
  match goal with |- context [res_fold (observe_ue data) ids ?acc] =>
    destruct (observe_total data ids acc S) as [obs ->] end. cbn [res_bind].
  destruct (PushObservation _) as [[|sh shares]|] eqn:Ep; [by do 2 eexists; split; [|left]|..|by do 2 eexists; split; [|left]].
  destruct gs as [|g gs]; [by do 2 eexists; split; [|left]|].
  destruct (allocate_total (sh :: shares)) as [m Em]; [done|]. rewrite Em.
  do 2 eexists. split; [done|]. right. do 5 eexists. by split_and!.
Qed.

(** The targets of distinct UEs are one each, and sum to the budget. *)
Lemma allocate_spec `{CppImplLaws} shares :
  shares <> [] ->
  NoDup ((fun sh => u16 sh.1) <$> shares) ->
  Forall (fun it => round_target it.2 <= B_FIXED) (normalise (to_items shares)) ->
  exists m, allocate shares = Some m /\
    dom m = list_to_set ((fun sh => u16 sh.1) <$> shares) /\
    positive m /\ total m = Z.max B_FIXED (Z.of_nat (length shares)).
Proof.
  intros N D B. rewrite <- to_items_keys, <- normalise_keys in D |- *.
  assert (length (normalise (to_items shares)) = length shares) as Len.
  { unfold to_items. by rewrite normalise_length, length_fmap. }
  assert (Z.of_nat (length shares) <= 65536) as Sm.
  { rewrite <- Len, <- (length_fmap fst). apply distinct_u16; [done|].
    rewrite normalise_keys, to_items_keys. apply Forall_fmap, Forall_forall. intros sh _.
    apply wrap_fits. lia. }
  unfold allocate. cbn zeta. set (items := normalise (to_items shares)) in *.
  destruct (initial_targets_spec items) as (C & _ & Dom & Sz); [done|done|unfold B_FIXED; lia|].
  destruct (initial_targets items) as [m s]. cbn [fst snd] in *.
  destruct (shrink_spec (Z.to_nat (s - B_FIXED)) m s) as (m1 & s1 & -> & C1 & D1 & V1); [lia|done|].
  destruct (grow_spec (Z.to_nat (B_FIXED - s1)) items m1 s1) as (m2 & s2 & -> & C2 & D2 & V2).
  - intros E. apply normalise_nil in E. by destruct shares.
  - intros it Hit. rewrite D1, Dom, elem_of_list_to_set. by apply list_elem_of_fmap_2.
  - lia.
  - done.
  - exists m2. destruct C as (P & T & _), C1 as (P1 & T1 & _), C2 as (P2 & T2 & _).
    split_and!; [done|by rewrite D2, D1, Dom|done|]. rewrite T2, V2, V1.
    pose proof (total_lower _ P). rewrite <- Len, <- Sz. destruct (Z.ltb_spec B_FIXED s); lia.
Qed.

(** A C++ implementation for the witnesses: ascending RNTIs, as in the key order of the map. *)
Definition some_cpp : CppImpl :=
  {| unordered_begin := map_to_list; llround_unspecified := fun _ => 0 |}.

Lemma some_cpp_laws : @CppImplLaws some_cpp.
Proof. split. intros m. done. Qed.

(** C17: with distinct RNTIs whose rounded shares are at most the budget, the targets are one
    per UE, each at least 1, and they sum to B_FIXED, or to the number of UEs when there are
    more UEs than RBGs. *)
Theorem allocate_sums `{CppImplLaws} shares :
  shares <> [] ->
  NoDup ((fun sh => u16 sh.1) <$> shares) ->
  Forall (fun it => round_target it.2 <= B_FIXED) (normalise (to_items shares)) ->
  exists m, allocate shares = Some m /\
    dom m = list_to_set ((fun sh => u16 sh.1) <$> shares) /\
    positive m /\ total m = Z.max B_FIXED (Z.of_nat (length shares)).
Proof. apply allocate_spec. Qed.

Theorem allocate_sums_witness :
  exists m, @allocate some_cpp [(1, d_of_Z 1); (2, d_of_Z 2); (7, d_of_Z 0)] = Some m /\
    dom m = list_to_set [1; 2; 7] /\ positive m /\ total m = 533.
Proof.
  apply (@allocate_sums some_cpp some_cpp_laws [(1, d_of_Z 1); (2, d_of_Z 2); (7, d_of_Z 0)]);
    [done|vm_compute; repeat constructor; set_solver|].
  repeat constructor; vm_compute; done.
Defined.

(** C18: a run of a reinforcement-learning module on a usable repository returns, whatever the
    agent answers, repeated RNTIs, infinite shares and overflowing sums included: the target
    loops end.  It issues at most one command, the targets allocated to the agent's shares,
    for the first gNB of the repository. *)
Theorem rl_run_returns `{Sqlite} `{RlAgent} `{CppImplLaws} data st :
  repo_sound data ->
  exists commands st', RlRun true true data st = Ok (commands, st') /\
    (commands = [] \/
     exists gnb gnbs obs shares targets, GetNrGnbE2NodeIds data = Ok (gnb :: gnbs) /\
       PushObservation obs = Some shares /\ allocate shares = Some targets /\
       commands = [mkCommand gnb (OranCommandNrUlRbgTargets targets)]).
Proof. apply RlRun_total. Qed.

Theorem rl_run_returns_witness :
  let agent := {| PushObservation := fun _ => Some [(3, S754_infinity false); (3, S754_nan)] |} in
  exists commands st',
    @RlRun (engine true) agent some_cpp true true fresh_repo RlState_default = Ok (commands, st') /\
    (commands = [] \/
     exists gnb gnbs obs shares targets, @GetNrGnbE2NodeIds (engine true) fresh_repo = Ok (gnb :: gnbs) /\
       @PushObservation agent obs = Some shares /\ @allocate some_cpp shares = Some targets /\
       commands = [mkCommand gnb (OranCommandNrUlRbgTargets targets)]).
Proof.
  intros agent. apply (@rl_run_returns (engine true) agent some_cpp some_cpp_laws fresh_repo RlState_default).
  apply (repo_sound_ready 0 InitDb_new), fresh_ready.
Defined.

(** when the agent repeats an RNTI the targets need not sum to B_FIXED: two shares for one
    UE leave it with the target of the second share, and the running sum counts both. *)
Theorem allocate_repeated_rnti `{CppImplLaws} :
  exists m, allocate [(1, d_of_Z 1); (1, d_of_Z 1)] = Some m /\ total m <> B_FIXED.
Proof.
  assert (initial_targets (normalise (to_items [(1, d_of_Z 1); (1, d_of_Z 1)])) = ({[1 := 267]}, 534)) as I
    by (vm_compute; reflexivity).
  assert (unordered_begin {[1 := 267]} = [(1, 267)]) as U.
  { apply Permutation_singleton_r. rewrite unordered_perm. by rewrite map_to_list_singleton. }
  unfold allocate. cbn zeta. rewrite I. change (Z.to_nat (534 - B_FIXED)) with 1%nat.
  cbn [shrink]. unfold find_best. rewrite U. cbn.
  exists (<[1 := 266]> {[1 := 267]}). split; [done|]. vm_compute. done.
Qed.

(** ** The metrics *)

(** The samples newer than [t]. *)
Definition newer (t : Z) (samples : list (Z * Z)) : list (Z * Z) := filter (fun s => t < s.1) samples.

Lemma newer_cons t s l : newer t (s :: l) = if t <? s.1 then s :: newer t l else newer t l.
Proof. unfold newer. rewrite filter_cons. destruct (Z.ltb_spec t s.1); case_decide; done || lia. Qed.

Lemma max_foldr (a b : Z) l : a <= b -> foldr Z.max b l = Z.max b (foldr Z.max a l).
Proof. intros H. induction l as [|x l IH]; cbn; lia. Qed.

(** The newest time of a sequence of samples, at least [t]. *)
Definition newest (t : Z) (samples : list (Z * Z)) : Z := foldr Z.max t samples.*1.

Lemma newest_cons n s l : newest n (s :: l) = Z.max s.1 (newest n l).
Proof. done. Qed.

Lemma newest_le t s l : s.1 <= t -> newest t (s :: l) = newest t l.
Proof.
  intros H. rewrite newest_cons. unfold newest. induction l as [|a l IH]; cbn; lia.
Qed.

Lemma newest_gt t s l : t <= s.1 -> newest t (s :: l) = newest s.1 l.
Proof.
  intros H. rewrite newest_cons. unfold newest. rewrite (max_foldr t s.1) by done. done.
Qed.

Lemma u64_add a b : u64 (u64 a + b) = u64 (a + b).
Proof. unfold wrap. by rewrite Zplus_mod_idemp_l. Qed.

Lemma new_samples_scan t l sum count n :
  t <= n ->
  foldl (fun '(sum, count, newestTime) s =>
      if t <? s.1
      then (u64 (sum + s.2), u64 (count + 1), if newestTime <? s.1 then s.1 else newestTime)
      else (sum, count, newestTime)) (u64 sum, u64 count, n) l
  = (u64 (sum + foldr Z.add 0 (newer t l).*2), u64 (count + Z.of_nat (length (newer t l))),
     newest n l).
Proof.
  revert sum count n. induction l as [|s l IH]; intros sum count n L; cbn [foldl].
  - cbn. by rewrite !Z.add_0_r.
  - rewrite newer_cons. destruct (Z.ltb_spec t s.1).
    + rewrite !u64_add, IH by (destruct (n <? s.1) eqn:?; zlia). cbn [fmap list_fmap foldr length].
      f_equal; [f_equal; f_equal; lia|].
      destruct (Z.ltb_spec n s.1); [by rewrite newest_gt by lia|by rewrite newest_le by lia].
    + rewrite IH by done. by rewrite newest_le by lia.
Qed.

Lemma new_samples_spec t l :
  new_samples t l = (u64 (foldr Z.add 0 (newer t l).*2), u64 (Z.of_nat (length (newer t l))), newest t l).
Proof. apply (new_samples_scan t l 0 0 t). lia. Qed.

(** Nothing is newer than the newest. *)
Lemma newer_newest t l : newer (newest t l) l = [].
Proof.
  apply filter_none, Forall_forall. intros s Hs. assert (s.1 ∈ l.*1) as H by (by apply list_elem_of_fmap_2).
  unfold newest. revert H. generalize (l.*1). intros k H.
  induction k as [|a k IH]; [set_solver|]. cbn. apply elem_of_cons in H as [->|H]; [lia|].
  specialize (IH H). lia.
Qed.

(** The floor of the mean of the values of the samples newer than [t], 0 when there is none. *)
Definition mean_newer (t : Z) (l : list (Z * Z)) : Z :=
  foldr Z.add 0 (newer t l).*2 / Z.of_nat (length (newer t l)).

Lemma new_samples_avg t l :
  foldr Z.add 0 (newer t l).*2 < 2 ^ 64 -> Forall (fun s => 0 <= s.2) l -> Z.of_nat (length l) < 2 ^ 64 ->
  (let '(sum, count, _) := new_samples t l in if count =? 0 then 0 else sum / count) = mean_newer t l.
Proof.
  intros S P L. rewrite new_samples_spec. unfold mean_newer.
  assert (length (newer t l) <= length l)%nat as Lf by apply length_filter.
  assert (0 <= foldr Z.add 0 (newer t l).*2) as S0.
  { clear - P. induction l as [|s l IH]; [done|]. apply Forall_cons in P as [P1 P2].
    rewrite newer_cons. destruct (t <? s.1); cbn; [|auto]. specialize (IH P2). lia. }
  rewrite !wrap_small by (unfold fits; lia).
  destruct (Z.eqb_spec (Z.of_nat (length (newer t l))) 0) as [E|E]; [|done].
  rewrite E. by rewrite Zdiv_0_r.
Qed.

(** The buffer samples as the metric sees them. *)
Definition buffer_samples (l : list NrUeBufferStatus) : list (Z * Z) :=
  (fun s => (s.(bs_time), s.(txQueueSize))) <$> l.

(** The state between calls when every call refreshes the value. *)
Definition buffer_fresh (ueId : Z) (st : RlState) : Prop :=
  st.(m_N) = 1 /\ default 0 (st.(m_bufferCounter) !! ueId) = 0.

Definition last_buffer_time (ueId : Z) (st : RlState) : Z := default 0 (st.(m_lastBufferTime) !! ueId).

(** Reads the counters and times of an updated state. *)
Ltac rl_cbn :=
  cbn [m_N m_bufferCounter m_lastBufferTime RecordSettersUsingExistingGetters.set];
  unfold RecordSettersUsingExistingGetters.const.

Lemma newest_ge t l : t <= newest t l.
Proof. unfold newest. induction (l.*1) as [|a k IH]; cbn; lia. Qed.

Lemma GetBufferSize_refresh data ueId lcid st samples :
  buffer_fresh ueId st -> GetNrUeBufferStatus ueId data = Ok samples ->
  Forall (fun s => 0 <= s.(txQueueSize)) samples ->
  foldr Z.add 0 (newer (last_buffer_time ueId st) (buffer_samples samples)).*2 < 2 ^ 64 ->
  Z.of_nat (length samples) < 2 ^ 64 ->
  exists st1, GetBufferSize data ueId lcid st
      = Ok (mean_newer (last_buffer_time ueId st) (buffer_samples samples), st1) /\
    buffer_fresh ueId st1 /\
    last_buffer_time ueId st1 = newest (last_buffer_time ueId st) (buffer_samples samples).
Proof.
  intros [HN Hc] Hs P S L. unfold GetBufferSize. rewrite Hc. rl_cbn.
  rewrite HN. change (u32 (0 + 1) <? 1) with false. cbn iota. rewrite Hs. cbn [res_bind].
  destruct samples as [|s l] eqn:El.
  - eexists. split; [done|]. split; [|done]. split; [done|]. rl_cbn. by rewrite lookup_insert_eq.
  - rewrite <- El in *. fold (buffer_samples samples) in *.
    pose proof (new_samples_avg (last_buffer_time ueId st) (buffer_samples samples)) as A.
    unfold last_buffer_time in *. rl_cbn.
    rewrite new_samples_spec in A |- *. cbn iota beta zeta.
    rewrite A; [|done|by apply Forall_fmap|by unfold buffer_samples; rewrite length_fmap].
    eexists. split; [done|]. rl_cbn. rewrite lookup_insert_eq. split; [|done].
    split; [done|]. rl_cbn. by rewrite lookup_insert_eq.
Qed.

(** GetBufferSize averages, rounding down, the queue sizes of the samples since the last
    one it has seen, of every logical channel whatever the lcid argument; a second call
    without new samples gives 0, so no sample is counted twice. *)
Theorem buffer_counted_once data ueId lcid st samples :
  buffer_fresh ueId st -> GetNrUeBufferStatus ueId data = Ok samples ->
  Forall (fun s => 0 <= s.(txQueueSize)) samples ->
  foldr Z.add 0 (newer (last_buffer_time ueId st) (buffer_samples samples)).*2 < 2 ^ 64 ->
  Z.of_nat (length samples) < 2 ^ 64 ->
  exists st1, GetBufferSize data ueId lcid st
      = Ok (mean_newer (last_buffer_time ueId st) (buffer_samples samples), st1) /\
    forall lcid', exists st2, GetBufferSize data ueId lcid' st1 = Ok (0, st2).
Proof.
  intros F Hs P S L.
  destruct (GetBufferSize_refresh data ueId lcid st samples F Hs P S L) as (st1 & E1 & F1 & T1).
  exists st1. split; [done|]. intros lcid'.
  destruct (GetBufferSize_refresh data ueId lcid' st1 samples F1 Hs P) as (st2 & E2 & _);
    [rewrite T1, newer_newest; cbn; lia|done|].
  exists st2. rewrite E2, T1. unfold mean_newer. by rewrite newer_newest.
Qed.

(** A repository with UE 5 registered and two samples of different channels. *)
Definition two_samples : Repo :=
  let repo := match RegisterNode NRUE 5 0 fresh_repo with Ok (_, r) => r | Abort _ => fresh_repo end in
  match SaveNrUeBufferStatus 5 (mkBufferStatus 3 1 1 100 0 0 0 0) repo with
  | Ok r => match SaveNrUeBufferStatus 5 (mkBufferStatus 4 1 3 301 0 0 0 0) r with
            | Ok r => r | Abort _ => repo end
  | Abort _ => repo
  end.

Theorem buffer_counted_once_witness :
  exists st1, GetBufferSize two_samples 5 3 RlState_default = Ok (200, st1) /\
    forall lcid', exists st2, GetBufferSize two_samples 5 lcid' st1 = Ok (0, st2).
Proof.
  apply (buffer_counted_once two_samples 5 3 RlState_default
    [mkBufferStatus 3 1 1 100 0 0 0 0; mkBufferStatus 4 1 3 301 0 0 0 0]);
    [done|vm_compute; reflexivity|repeat constructor; done|vm_compute; done|done].
Defined.
