(* ===== verification/MoniLm.v ===== *)
(** The monitoring logic module: src/oran/model/oran-lm-nr-2-nr-moni.cc.

    Run collects what the repository knows about every UE and prints it; it issues no
    commands.  The printing is left out, what is collected is not.  std::sort is not
    stable: the order it gives to samples of the same time is a parameter. *)
From Stdlib Require Import ZArith Lia Sorting.Sorted.
From stdpp Require Import base list gmap strings sorting.
From S2P Require Import Prelude OrdMap Messages Repository World.
Open Scope Z_scope.
(** struct UeInfo, GnbInfo, RsrpInfo, AppLossInfo, BufferStatusInfo, CqiInfo, TxPduInfo and
    TxDropInfo, with the members the module assigns. *)
Record UeInfo := mkUeInfo { ue_nodeId : Z; ue_cellId : Z; ue_rnti : Z; ue_position : Vector }.
Record GnbInfo := mkGnbInfo { gnb_nodeId : Z; gnb_cellId : Z; gnb_position : Vector }.
Record RsrpInfo := mkRsrpInfo {
  ri_nodeId : Z; ri_rnti : Z; ri_cellId : Z; ri_rsrp : double; ri_rsrq : double;
  ri_isServingCell : bool; ri_componentCarrierId : Z }.
Record AppLossInfo := mkAppLossInfo { li_nodeId : Z; lossRatio : double }.
Record BufferStatusInfo := mkBufferInfo {
  bi_nodeId : Z; bi_rnti : Z; bi_lcid : Z; bi_txQueueSize : Z; bi_retxQueueSize : Z; bi_time : Z }.
Record CqiInfo := mkCqiInfo {
  ci_nodeId : Z; ci_time : Z; ci_rnti : Z; ci_cqi : Z; ci_mcs : Z; ci_ri : Z }.
Record TxPduInfo := mkTxPduInfo {
  pi_nodeId : Z; pi_time : Z; pi_rnti : Z; pi_lcid : Z; pi_txPdu : Z }.
Record TxDropInfo := mkTxDropInfo {
  di_nodeId : Z; di_time : Z; di_rnti : Z; di_lcid : Z; di_txDrop : Z }.

(** The body of the loop of GetUeInfos and of GetGnbInfos; [Seconds (0)] is 0. *)
Definition GetUeInfo (now : Z) (data : Repo) (ueId : Z) (ueInfos : list UeInfo) : res (list UeInfo) :=
  let* info := GetNrUeCellInfo ueId data in
  let '(found, cellId, rnti) := info in
  if negb found then Ok ueInfos else
  let* nodePositions := GetNodePositions ueId 0 now 1 data in
  match last nodePositions with
  | None => Ok ueInfos
  | Some (_, position) => Ok (ueInfos ++ [mkUeInfo ueId cellId rnti position])
  end.

Definition GetGnbInfo (now : Z) (data : Repo) (gnbId : Z) (gnbInfos : list GnbInfo) : res (list GnbInfo) :=
  let* info := GetNrGnbCellInfo gnbId data in
  let '(found, cellId) := info in
  if negb found then Ok gnbInfos else
  let* nodePositions := GetNodePositions gnbId 0 now 1 data in
  match last nodePositions with
  | None => Ok gnbInfos
  | Some (_, position) => Ok (gnbInfos ++ [mkGnbInfo gnbId cellId position])
  end.

Definition GetAppLossInfos (data : Repo) (ueNodeId : Z) : res (list AppLossInfo) :=
  let* loss := GetAppLoss ueNodeId data in
  Ok [mkAppLossInfo ueNodeId loss].

Definition GetCqiInfos (data : Repo) (ueNodeId : Z) : list CqiInfo :=
  match last (GetNrUeCqi ueNodeId data) with
  | None => []
  | Some c => [mkCqiInfo ueNodeId c.(cqi_time) c.(cqi_rnti) c.(cqi) c.(mcs) c.(ri)]
  end.

Section sorted.
Context `{Sqlite} `{StdSort}.

Definition GetUeInfos (now : Z) (data : Repo) : res (list UeInfo) :=
  let* ids := GetNrUeE2NodeIds data in res_fold (GetUeInfo now data) ids [].

Definition GetGnbInfos (now : Z) (data : Repo) : res (list GnbInfo) :=
  let* ids := GetNrGnbE2NodeIds data in res_fold (GetGnbInfo now data) ids [].

Definition GetRsrpInfos (data : Repo) (ueNodeId : Z) : res (list RsrpInfo) :=
  let* measurements := GetNrUeRsrpRsrq ueNodeId data in
  Ok ((fun '(rnti, cellId, rsrp, rsrq, isServingCell, ccId) =>
         mkRsrpInfo ueNodeId rnti cellId rsrp rsrq isServingCell ccId) <$> measurements).

(** The last sample of channel 3 in time order; all zero when there is none. *)
Definition GetBufferInfos (data : Repo) (ueNodeId : Z) : res (list BufferStatusInfo) :=
  let* bufList := GetNrUeBufferStatus ueNodeId data in
  Ok [foldl (fun result status =>
        if status.(bs_lcid) =? 3
        then mkBufferInfo ueNodeId status.(bs_rnti) 3 status.(txQueueSize) status.(retxQueueSize)
               status.(bs_time)
        else result)
      (mkBufferInfo ueNodeId 0 3 0 0 0) (sort_by_key bs_time bufList)].

(** The accumulation over the samples of the current RNTI: whether there is one, their sum,
    the newest time and its channel. *)
Definition sum_drops (rnti : Z) (l : list NrUeTxDrop) : bool * Z * Z * Z :=
  foldl (fun '(hasSample, totalTxDrop, newest, newestLcid) sample =>
      if negb (sample.(drop_rnti) =? rnti) then (hasSample, totalTxDrop, newest, newestLcid)
      else if newest <? sample.(drop_time)
           then (true, u64 (totalTxDrop + sample.(txDrop)), sample.(drop_time), sample.(drop_lcid))
           else (true, u64 (totalTxDrop + sample.(txDrop)), newest, newestLcid))
    (false, 0, 0, 0) l.

Definition GetTxDropInfos (data : Repo) (ueNodeId : Z) : res (list TxDropInfo) :=
  let* samples := GetNrUeTxDrop ueNodeId data in
  match samples with
  | [] => Ok []
  | _ =>
      let samples := sort_by_key drop_time samples in
      let* info := GetNrUeCellInfo ueNodeId data in
      let '(found, _, rnti) := info in
      if negb found then Ok [] else
      let '(hasSample, totalTxDrop, newest, newestLcid) := sum_drops rnti samples in
      if negb hasSample then Ok []
      else Ok [mkTxDropInfo ueNodeId newest rnti newestLcid totalTxDrop]
  end.

Definition GetTxPduInfos (data : Repo) (ueNodeId : Z) : res (list TxPduInfo) :=
  let* samples := GetNrUeTxPdu ueNodeId data in
  match last (sort_by_key pdu_time samples) with
  | None => Ok []
  | Some p => Ok [mkTxPduInfo ueNodeId p.(pdu_time) p.(pdu_rnti) p.(pdu_lcid) p.(txPdu)]
  end.

(** What Run prints about a UE. *)
Record UeMonitor := mkMonitor {
  mon_ue : UeInfo;
  mon_rsrp : list RsrpInfo;
  mon_loss : list AppLossInfo;
  mon_buffer : list BufferStatusInfo;
  mon_cqi : list CqiInfo;
  mon_pdu : list TxPduInfo;
  mon_drop : list TxDropInfo
}.

Definition monitor_ue (data : Repo) (ueInfo : UeInfo) (printed : list UeMonitor) : res (list UeMonitor) :=
  let id := ueInfo.(ue_nodeId) in
  let* rsrp := GetRsrpInfos data id in
  let* loss := GetAppLossInfos data id in
  let* buffer := GetBufferInfos data id in
  let cqi := GetCqiInfos data id in
  let* pdu := GetTxPduInfos data id in
  let* drop := GetTxDropInfos data id in
  Ok (printed ++ [mkMonitor ueInfo rsrp loss buffer cqi pdu drop]).

(** OranLmNr2NrMoni::Run (): the commands, and what was printed *)
Definition MoniRun (active hasRic : bool) (now : Z) (data : Repo) :
    res (list OranCommand * list UeMonitor) :=
  if negb active then Ok ([], []) else
  let* _ := abort_if (negb hasRic) "Attempting to run LM with NULL Near-RT RIC" in
  let* ueInfos := GetUeInfos now data in
  let* gnbInfos := GetGnbInfos now data in
  let* printed := res_fold (monitor_ue data) ueInfos [] in
  Ok ([], printed).

End sorted.
