(* ===== verification/LogicModule.v ===== *)
(** Logic modules and conflict mitigation: src/oran/model/oran-lm.cc, oran-lm-noop.cc,
    oran-cmm.cc and oran-cmm-noop.cc.

    A method of OranLm is a function of the pointer of its object and the world.  The
    private virtual Run () is dispatched on the derived class. *)
From Stdlib Require Import ZArith Lia.
From stdpp Require Import base list gmap strings pretty.
From S2P Require Import Prelude OrdMap EventQueue Simulator Messages Repository World RlLm MoniLm.
Open Scope Z_scope.
Section lm.
Context {Q : Type} `{EventQueue Q} `{Platform} `{Sqlite} `{RlAgent} `{CppImpl} `{StdSort}.
Implicit Types (w : World Q).

Definition set_lm (p : nat) (lm : Lm.OranLm) w : World Q := w <| lms := <[p := lm]> w.(lms) |>.

(** OranLm::OranLm () with the default attributes, then the constructor of the class *)
Definition new_lm (class : LmClass) : Lm.OranLm :=
  Lm.mkLm false
    (match class with
     | OranLmNoop => "OranLmNoop"
     | OranLmNr2NrMoni => "OranLmNr2NrMoni"
     | OranLmNrRlQlearn _ => "OranLmNrRlQlearn"
     | OranLmNrRlDqn _ => "OranLmNrRlDqn"
     end)
    false false EventId_default (ConstantRandomVariable d_zero) 0 [] class.

(** OranLm::IsRunning *)
Definition IsRunning (p : nat) w : res bool :=
  let* lm := deref p w.(lms) in Ok (pending lm.(Lm.m_finishRunEvent) w).

Definition LmActivate (p : nat) w : res (World Q) :=
  let* lm := deref p w.(lms) in
  let* _ := abort_if (negb lm.(Lm.m_nearRtRic)) "Attempting to activate LM with NULL Near-RT RIC" in
  Ok (set_lm p (lm <| Lm.m_active := true |>) w).

(** The message prefix of LogLogicToRepository and LogLogicToStorage *)
Definition log_text (name msg : string) w : string :=
  to_string_seconds (now w) +:+ " -- " +:+ name +:+ " -- " +:+ msg.

Definition LogLogicToRepository (p : nat) (msg : string) w : res (World Q) :=
  let* lm := deref p w.(lms) in
  let* _ := abort_if (negb lm.(Lm.m_nearRtRic)) "Attempting to log LM logic with NULL Near-RT RIC" in
  if lm.(Lm.m_verbose)
  then on_data (LogActionLm lm.(Lm.m_name) (log_text lm.(Lm.m_name) msg w) (now w)) w
  else Ok w.

(** The commands of a cancelled run, between braces and separated by commas. *)
Definition lost_commands (commands : list OranCommand) : string :=
  match commands with
  | [] => ""
  | c :: rest =>
      " {" +:+ command_ToString c
        +:+ foldr (fun c msg => "," +:+ command_ToString c +:+ msg) "" rest +:+ "}"
  end.

Definition CancelRun (p : nat) w : res (World Q) :=
  let* lm := deref p w.(lms) in
  if lm.(Lm.m_active) && pending lm.(Lm.m_finishRunEvent) w then
    let w := cancel lm.(Lm.m_finishRunEvent) w in
    let commands := lm.(Lm.m_commands) in
    let msg := "Run canceld for cycle " +:+ pretty lm.(Lm.m_cycle) +:+ " with "
                 +:+ pretty (Z.of_nat (length commands)) +:+ " command(s) lost"
                 +:+ lost_commands commands in
    let* w := if bool_decide (commands = []) then Ok w else LogLogicToRepository p msg w in
    let* lm := deref p w.(lms) in
    Ok (set_lm p (lm <| Lm.m_commands := [] |>) w)
  else Ok w.

Definition LmDeactivate (p : nat) w : res (World Q) :=
  let* lm := deref p w.(lms) in
  let w := set_lm p (lm <| Lm.m_active := false |>) w in
  let* running := IsRunning p w in
  if (running : bool) then CancelRun p w else Ok w.

(** OranLmNoop::Run () *)
Definition NoopRun (p : nat) w : res (list OranCommand * World Q) :=
  let* lm := deref p w.(lms) in
  let* _ := abort_if (negb lm.(Lm.m_nearRtRic)) "Attempting to run LM with NULL Near-RT RIC" in
  let* w := LogLogicToRepository p "No action taken" w in
  Ok ([], w).

(** The virtual call Run () *)
Definition Run_virtual (p : nat) w : res (list OranCommand * World Q) :=
  let* lm := deref p w.(lms) in
  match lm.(Lm.class) with
  | OranLmNoop => NoopRun p w
  | OranLmNr2NrMoni =>
      let* r := MoniRun lm.(Lm.m_active) lm.(Lm.m_nearRtRic) (now w) w.(data) in Ok (r.1, w)
  | OranLmNrRlQlearn st =>
      let* r := RlRun lm.(Lm.m_active) lm.(Lm.m_nearRtRic) w.(data) st in
      Ok (r.1, set_lm p (lm <| Lm.class := OranLmNrRlQlearn r.2 |>) w)
  | OranLmNrRlDqn st =>
      let* r := RlRun lm.(Lm.m_active) lm.(Lm.m_nearRtRic) w.(data) st in
      Ok (r.1, set_lm p (lm <| Lm.class := OranLmNrRlDqn r.2 |>) w)
  end.

(** OranLm::Run (cycle) *)
Definition LmRun (p : nat) (cycle : Z) w : res (World Q) :=
  let* lm := deref p w.(lms) in
  if lm.(Lm.m_active) then
    let* _ := abort_if (pending lm.(Lm.m_finishRunEvent) w)
                "Attempting to run LM that is already running" in
    let '(delay, rv) := GetValue lm.(Lm.m_processingDelayRv) in
    let delay := if d_ltb delay d_zero then d_zero else delay in
    let w := set_lm p (lm <| Lm.m_processingDelayRv := rv |> <| Lm.m_cycle := cycle |>) w in
    let* r := Run_virtual p w in
    let '(commands, w) := r in
    let* lm := deref p w.(lms) in
    let w := set_lm p (lm <| Lm.m_commands := commands |>) w in
    let* r := schedule (Seconds delay) (ev_FinishRun p) w in
    let '(id, w) := r in
    let* lm := deref p w.(lms) in
    Ok (set_lm p (lm <| Lm.m_finishRunEvent := id |>) w)
  else Ok w.

(** OranLm::DoDispose *)
Definition LmDoDispose (p : nat) w : res (World Q) :=
  let* lm := deref p w.(lms) in
  Ok (cancel lm.(Lm.m_finishRunEvent) (set_lm p (lm <| Lm.m_nearRtRic := false |>) w)).

(** ** OranCmm and OranCmmNoop *)

(** OranCmm::OranCmm () and OranCmmNoop::OranCmmNoop () *)
Definition OranCmmNoop : Cmm.OranCmm := Cmm.mkCmm false false "CmmNoop" false.

Definition CmmActivate w : res (World Q) :=
  let* _ := abort_if (negb w.(cmm).(Cmm.m_nearRtRic)) "Attempting to activate LM with NULL Near-RT RIC" in
  Ok (w <| cmm := w.(cmm) <| Cmm.m_active := true |> |>).

Definition CmmDeactivate w : World Q := w <| cmm := w.(cmm) <| Cmm.m_active := false |> |>.

Definition LogLogicToStorage (msg : string) w : res (World Q) :=
  let c := w.(cmm) in
  let* _ := abort_if (negb c.(Cmm.m_nearRtRic)) "Attempting to log CMM logic with NULL Near-RT RIC" in
  if c.(Cmm.m_verbose)
  then on_data (LogActionCmm c.(Cmm.m_name) (log_text c.(Cmm.m_name) msg w) (now w)) w
  else Ok w.

(** OranCmmNoop::Filter *)
Definition Filter (inputCommands : list ((string * bool) * list OranCommand)) w :
    res (list OranCommand * World Q) :=
  let* _ := abort_if (negb w.(cmm).(Cmm.m_nearRtRic))
              "Attempting to run Conflict Mitigation Module with NULL Near-RT RIC" in
  let* w := LogLogicToStorage "No action taken" w in
  Ok (foldl (fun commands commandSet => commands ++ commandSet.2) [] inputCommands, w).

End lm.
