(* ===== verification/RicE2Term.v ===== *)
(** The RIC side of the E2 interface: src/oran/model/oran-nr-near-rt-ric-e2terminator.cc.

    ReceiveReport ends in a call of the RIC and is in NearRtRic.v; what it saves is here. *)
From Stdlib Require Import ZArith Lia.
From stdpp Require Import base list gmap strings.
From S2P Require Import Prelude OrdMap EventQueue Simulator Messages Repository World.
Open Scope Z_scope.
Section e2terminator.
Context {Q : Type} `{EventQueue Q} `{Platform}.
Implicit Types (w : World Q).

Definition set_e2t (e : E2T.E2Terminator) w : World Q := w <| e2t := e |>.

(** OranNrNearRtRicE2Terminator::OranNrNearRtRicE2Terminator () with the default attributes *)
Definition OranNrNearRtRicE2Terminator : E2T.E2Terminator :=
  E2T.mkE2T false false false [] (ConstantRandomVariable d_zero).

Definition E2TActivate w : World Q := set_e2t (w.(e2t) <| E2T.m_active := true |>) w.
Definition E2TDeactivate w : World Q := set_e2t (w.(e2t) <| E2T.m_active := false |>) w.

(** Schedules a method after a transmission delay drawn from m_transmissionDelayRv. *)
Definition schedule_e2 (e : OranEvent) w : res (World Q) :=
  let '(delay, rv) := GetValue w.(e2t).(E2T.m_transmissionDelayRv) in
  let* r := schedule (Seconds delay) e (set_e2t (w.(e2t) <| E2T.m_transmissionDelayRv := rv |>) w) in
  Ok r.2.

(** Node::GetDevice *)
Definition GetDevice (n : Node) (index : Z) : res NetDevice :=
  match n.(devices) !! Z.to_nat index with
  | Some d => Ok d
  | None => Abort "NS_ASSERT: Device index is out of range"
  end.

(** GetNrNetDevice of the UE and of the gNB terminator *)
Definition GetNrNetDeviceUe (t : Term.E2NodeTerminator) w : res NetDevice :=
  let* n := deref_ptr t.(Term.m_node) w.(nodes) in GetDevice n t.(Term.m_netDeviceIndex).

Definition GetNrNetDeviceGnb (t : Term.E2NodeTerminator) w : res NrGnbNetDevice :=
  let* n := deref_ptr t.(Term.m_node) w.(nodes) in
  let* d := GetDevice n t.(Term.m_netDeviceIndex) in
  match d with
  | GnbDevice g => Ok g
  | _ => Abort "NetDevice is not an NrGnbNetDevice"
  end.

(** The switch of ReceiveRegistrationRequest: the id the repository gives to the node. *)
Definition register_in_data (type : NodeType) (id : Z) (terminator : nat) w : res (Z * World Q) :=
  let* t := deref terminator w.(terminators) in
  let* r :=
    match type with
    | NRUE =>
        if bool_decide (t.(Term.type) = NRUE) then
          let* d := GetNrNetDeviceUe t w in
          match d with
          | UeDevice ue => RegisterNodeNrUe id ue.(GetImsi) (now w) w.(data)
          | _ => Abort "Unable to cast to NrUeNetDevice"
          end
        else Abort "e2NodeId is read uninitialized"
    | NRGNB =>
        if bool_decide (t.(Term.type) = NRGNB) then
          let* g := GetNrNetDeviceGnb t w in
          RegisterNodeNrGnb id g.(GetGnbCellId) (now w) w.(data)
        else Abort "null gnbTerminator"
    | WIRED => RegisterNode type id (now w) w.(data)
    end in
  Ok (r.1, w <| data := r.2 |>).

Definition ReceiveRegistrationRequest (type : NodeType) (id : Z) (terminator : nat) w : res (World Q) :=
  if w.(e2t).(E2T.m_active) then
    let* _ := abort_if (negb w.(e2t).(E2T.m_data))
                "Attempting to use a null data repository in the Near-RT RIC E2 Terminator" in
    let* r := register_in_data type id terminator w in
    let '(e2NodeId, w) := r in
    let w := set_e2t (w.(e2t) <| E2T.m_nodeTerminators ::= smap_insert e2NodeId (Some terminator) |>) w in
    schedule_e2 (ev_ReceiveRegistrationResponse (Some terminator) e2NodeId) w
  else Ok w.

(** m_nodeTerminators[id]: a null pointer is inserted when the id is absent. *)
Definition node_terminator (id : Z) w : option nat * World Q :=
  match smap_lookup id w.(e2t).(E2T.m_nodeTerminators) with
  | Some t => (t, w)
  | None => (None, set_e2t (w.(e2t) <| E2T.m_nodeTerminators ::= smap_insert id None |>) w)
  end.

Definition ReceiveDeregistrationRequest (e2NodeId : Z) w : res (World Q) :=
  if w.(e2t).(E2T.m_active) then
    let* _ := abort_if (negb w.(e2t).(E2T.m_data))
                "Attempting to use a null data repository in the Near-RT RIC E2 Terminator" in
    let* r := DeregisterNode e2NodeId (now w) w.(data) in
    let '(deregisteredE2NodeId, d) := r in
    let '(t, w) := node_terminator e2NodeId (w <| data := d |>) in
    schedule_e2 (ev_ReceiveDeregistrationResponse t deregisteredE2NodeId) w
  else Ok w.

(** The chain of comparisons with GetInstanceTypeId () in ReceiveReport *)
Definition save_report (report : OranReport) : Repo -> res Repo :=
  let id := report.(ReporterE2NodeId) in
  let t := report.(report_time) in
  match report.(body) with
  | OranReportLocation location => SavePosition id location t
  | OranReportNrUeCellInfo cellId rnti => SaveNrUeCellInfo id cellId rnti t
  | OranReportAppLoss loss => SaveAppLoss id loss t
  | OranReportNrUeRsrpRsrq rnti cellId rsrp rsrq isServing cc =>
      SaveNrUeRsrpRsrq id t rnti cellId rsrp rsrq isServing cc
  | OranReportNrUeCqi rnti cqi mcs ri => SaveNrUeCqi id (mkCqi t rnti cqi mcs ri)
  | OranReportUeTxBuffer rnti lcid txQ txHol retxQ retxHol pdu =>
      SaveNrUeBufferStatus id (mkBufferStatus t rnti lcid txQ txHol retxQ retxHol pdu)
  | OranReportNrUeTxPdu rnti lcid bytes => SaveNrUeTxPdu id (mkTxPdu t rnti lcid bytes)
  | OranReportNrUeTxDrop rnti lcid drops => SaveNrUeTxDrop id (mkTxDrop t rnti lcid drops)
  | OranReportOther => fun data => Ok data
  end.

Definition SendCommand (command : OranCommand) w : res (World Q) :=
  if w.(e2t).(E2T.m_active) then
    let* _ := abort_if (negb w.(e2t).(E2T.m_data))
                "Attempting to use a null data repository in the Near-RT RIC E2 Terminator" in
    let* w := on_data (LogCommandE2Terminator command (now w)) w in
    let '(t, w) := node_terminator command.(TargetE2NodeId) w in
    schedule_e2 (ev_ReceiveCommand t command) w
  else Ok w.

Definition ProcessCommands (commands : list OranCommand) w : res (World Q) :=
  if w.(e2t).(E2T.m_active) then res_fold SendCommand commands w else Ok w.

(** DoDispose *)
Definition E2TDoDispose w : World Q :=
  set_e2t (w.(e2t) <| E2T.m_nearRtRic := false |> <| E2T.m_data := false |>
                   <| E2T.m_nodeTerminators := [] |>) w.

End e2terminator.
