(* ===== verification/NearRtRic.v ===== *)
(** The Near-RT RIC: src/oran/model/oran-nr-near-rt-ric.cc.

    The query cycle: QueryLms starts every logic module for the current cycle; each one
    reports its commands through NotifyLmFinished; ProcessLmQueryCommands sends what the
    conflict mitigation module leaves of them. *)
From Stdlib Require Import ZArith Lia.
From stdpp Require Import base list gmap strings.
From S2P Require Import Prelude OrdMap EventQueue Simulator Messages Repository World RlLm MoniLm LogicModule.
From S2P Require Import RicE2Term.
Open Scope Z_scope.
(** OranQueryTrigger::QueryLms is pure virtual and has no implementation in the module. *)
Class QueryTriggers : Type := { query_trigger : nat -> OranReport -> bool }.

(** enum AddLmResult and enum RemoveLmResult *)
Inductive AddLmResult := ADDLM_OK | ADDLM_ERR_NAME_EXISTS.
Inductive RemoveLmResult := DELLM_OK | DELLM_ERR_NAME_INVALID.

Section ric.
Context {Q : Type} `{EventQueue Q} `{Platform} `{Sqlite} `{RlAgent} `{CppImpl} `{StdSort}.
Context `{QueryTriggers}.
Implicit Types (w : World Q).

Definition set_ric (r : Ric.NearRtRic) w : World Q := w <| ric := r |>.

(** OranNrNearRtRic::OranNrNearRtRic () with the default attributes *)
Definition OranNrNearRtRic : Ric.NearRtRic :=
  Ric.mkRic false false false false None [] (Seconds (d_of_Z 5)) EventId_default EventId_default
    (Seconds (d_of_Z 5)) (ConstantRandomVariable (d_of_Z 5)) 0 0 EventId_default DROP [] [].

(** The pointers Activate, Deactivate and QueryLms check before they use them. *)
Definition check_modules (w : World Q) : res nat :=
  let r := w.(ric) in
  let* _ := abort_if (negb r.(Ric.m_e2Terminator)) "Near-RT RIC with a NULL E2 Terminator" in
  match r.(Ric.m_defaultLm) with
  | None => Abort "Near-RT RIC with a NULL Default Logic Module"
  | Some lm =>
      let* _ := abort_if (negb r.(Ric.m_cmm)) "Near-RT RIC with a NULL Conflict Mitigation Module" in
      let* _ := abort_if (negb r.(Ric.m_data)) "Near-RT RIC with a NULL Data Repository" in
      Ok lm
  end.

(** for (auto entry : m_additionalLms) *)
Definition for_additional (f : nat -> World Q -> res (World Q)) (l : list (string * nat)) w :
    res (World Q) :=
  res_fold (fun entry => f entry.2) l w.

Definition RicActivate w : res (World Q) :=
  let* lm := check_modules w in
  if w.(ric).(Ric.m_active) then Ok w else
  let w := set_ric (w.(ric) <| Ric.m_active := true |>) w in
  let w := E2TActivate w in
  let* w := on_data Repository.Activate w in
  let* w := LmActivate lm w in
  let* w := for_additional LmActivate w.(ric).(Ric.m_additionalLms) w in
  CmmActivate w.

Definition RicDeactivate w : res (World Q) :=
  let* w :=
    if w.(ric).(Ric.m_active) then
      let* lm := check_modules w in
      let w := E2TDeactivate w in
      let w := w <| data := Repository.Deactivate w.(data) |> in
      let* w := LmDeactivate lm w in
      let* w := for_additional LmDeactivate w.(ric).(Ric.m_additionalLms) w in
      Ok (CmmDeactivate w)
    else Ok w in
  Ok (set_ric (w.(ric) <| Ric.m_active := false |>) w).

(** Schedules CheckForInactivity after a delay drawn from m_e2NodeInactivityIntervalRv. *)
Definition schedule_inactivity w : res (World Q) :=
  let '(delay, rv) := GetValue w.(ric).(Ric.m_e2NodeInactivityIntervalRv) in
  let w := set_ric (w.(ric) <| Ric.m_e2NodeInactivityIntervalRv := rv |>) w in
  let* r := schedule (Seconds delay) ev_CheckForInactivity w in
  Ok (set_ric (r.2.(ric) <| Ric.m_e2NodeInactivityEvent := r.1 |>) r.2).

Definition schedule_query w : res (World Q) :=
  let* r := schedule w.(ric).(Ric.m_lmQueryInterval) ev_QueryLms w in
  Ok (set_ric (r.2.(ric) <| Ric.m_lmQueryEvent := r.1 |>) r.2).

Definition Start w : res (World Q) :=
  let* w := RicActivate w in
  let* _ := abort_if (pending w.(ric).(Ric.m_lmQueryEvent) w) "Near-RT RIC has already been started" in
  let* _ := abort_if (pending w.(ric).(Ric.m_e2NodeInactivityEvent) w)
              "Near-RT RIC has already been started" in
  let* w := schedule_query w in
  schedule_inactivity w.

Definition Stop w : res (World Q) :=
  let* w := RicDeactivate w in
  let w := cancel w.(ric).(Ric.m_lmQueryEvent) w in
  let w := cancel w.(ric).(Ric.m_e2NodeInactivityEvent) w in
  Ok (cancel w.(ric).(Ric.m_processLmQueryCommandsEvent) w).

Definition SetDefaultLogicModule (newDefaultLm : option nat) w : res (World Q) :=
  let* _ := abort_if (bool_decide (newDefaultLm = None))
              "Attempting to set a NULL Default Logic Module in the Near-RT RIC" in
  Ok (set_ric (w.(ric) <| Ric.m_defaultLm := newDefaultLm |>) w).

Definition GetAdditionalLogicModule (name : string) w : option nat :=
  smap_lookup name w.(ric).(Ric.m_additionalLms).

Definition AddLogicModule (newLm : nat) w : res (AddLmResult * World Q) :=
  let* lm := deref newLm w.(lms) in
  let name := lm.(Lm.m_name) in
  match smap_lookup name w.(ric).(Ric.m_additionalLms) with
  | None => Ok (ADDLM_OK, set_ric (w.(ric) <| Ric.m_additionalLms ::= smap_insert name newLm |>) w)
  | Some _ => Ok (ADDLM_ERR_NAME_EXISTS, w)
  end.

Definition RemoveLogicModule (name : string) w : RemoveLmResult * World Q :=
  match smap_lookup name w.(ric).(Ric.m_additionalLms) with
  | Some _ => (DELLM_OK, set_ric (w.(ric) <| Ric.m_additionalLms ::= smap_erase name |>) w)
  | None => (DELLM_ERR_NAME_INVALID, w)
  end.

Definition AddQueryTrigger (name : string) (trigger : nat) w : bool * World Q :=
  match smap_lookup name w.(ric).(Ric.m_queryTriggers) with
  | None => (true, set_ric (w.(ric) <| Ric.m_queryTriggers ::= smap_insert name trigger |>) w)
  | Some _ => (false, w)
  end.

Definition RemoveQueryTrigger (name : string) w : bool * World Q :=
  match smap_lookup name w.(ric).(Ric.m_queryTriggers) with
  | Some _ => (true, set_ric (w.(ric) <| Ric.m_queryTriggers ::= smap_erase name |>) w)
  | None => (false, w)
  end.

Definition SetCmm (newCmm : option Cmm.OranCmm) w : res (World Q) :=
  match newCmm with
  | None => Abort "Attempting to set a NULL Conflict Mitigation Module in the Near-RT RIC"
  | Some c => Ok (set_ric (w.(ric) <| Ric.m_cmm := true |>) (w <| cmm := c |>))
  end.

Definition ProcessLmQueryCommands w : res (World Q) :=
  if w.(ric).(Ric.m_active) then
    let w := cancel_pending w.(ric).(Ric.m_processLmQueryCommandsEvent) w in
    let* _ := abort_if (negb w.(ric).(Ric.m_e2Terminator) || negb w.(ric).(Ric.m_cmm)) "null pointer" in
    let* r := Filter w.(ric).(Ric.m_lmQueryCommands) w in
    let* w := ProcessCommands r.1 r.2 in
    Ok (set_ric (w.(ric) <| Ric.m_lmQueryCommands := [] |>) w)
  else Ok w.

(** m_processLmQueryCommandsEvent.IsPending () || m_lmQueryMaxWaitTime == Seconds (0) *)
Definition collecting w : bool :=
  pending w.(ric).(Ric.m_processLmQueryCommandsEvent) w || (w.(ric).(Ric.m_lmQueryMaxWaitTime) =? 0).

(** m_lmQueryCommands[key].insert (end, commands) *)
Definition append_commands (key : string * bool) (commands : list OranCommand) w : World Q :=
  set_ric (w.(ric) <| Ric.m_lmQueryCommands ::= smap_update key [] (fun l => l ++ commands) |>) w.

Definition NotifyLmFinished (cycle : Z) (commands : list OranCommand) (lm : nat) w : res (World Q) :=
  let isDefaultLm := bool_decide (Some lm = w.(ric).(Ric.m_defaultLm)) in
  let* l := deref lm w.(lms) in
  let key := (l.(Lm.m_name), isDefaultLm) in
  let w := match smap_lookup key w.(ric).(Ric.m_lmQueryCommands) with
           | Some _ => set_ric (w.(ric) <| Ric.m_lmQueryCommands ::= smap_insert key [] |>) w
           | None => w
           end in
  let* _ := abort_if (negb (cycle =? w.(ric).(Ric.m_lmQueryCycle)))
              "Near-RT RIC received command for unexpected cycle" in
  let w :=
    if collecting w then append_commands key commands w
    else match w.(ric).(Ric.m_lmQueryLateCommandPolicy) with
         | DROP => w
         | SAVE => append_commands key commands w
         end in
  if (length w.(ric).(Ric.m_lmQueryCommands) =? length w.(ric).(Ric.m_additionalLms) + 1)%nat
     && collecting w
  then ProcessLmQueryCommands w else Ok w.

(** OranLm::FinishRun *)
Definition FinishRun (p : nat) w : res (World Q) :=
  let* lm := deref p w.(lms) in
  if lm.(Lm.m_active) then
    let* _ := abort_if (negb lm.(Lm.m_nearRtRic)) "Attempting to run LM logic with NULL Near-RT RIC" in
    let* w := NotifyLmFinished lm.(Lm.m_cycle) lm.(Lm.m_commands) p w in
    let* lm := deref p w.(lms) in
    Ok (set_lm p (lm <| Lm.m_commands := [] |>) w)
  else Ok w.

(** The body of the loop of CheckForInactivity *)
Definition check_node (lastreg : Z * Z) w : res (World Q) :=
  if w.(ric).(Ric.m_e2NodeInactivityThreshold) <? now w - lastreg.2
  then ReceiveDeregistrationRequest lastreg.1 w else Ok w.

Definition CheckForInactivity w : res (World Q) :=
  if w.(ric).(Ric.m_active) then
    let* _ := abort_if (negb w.(ric).(Ric.m_data))
                "Attempting to check for inactivity in Near-RT RIC with a NULL Data Repository" in
    let* _ := abort_if (negb w.(ric).(Ric.m_e2Terminator))
                "Attempting to check for inactivity in Near-RT RIC with a NULL E2 Terminator" in
    let* lastRegistrations := GetLastRegistrationRequests w.(data) in
    let* w := res_fold check_node lastRegistrations w in
    let w := cancel_pending w.(ric).(Ric.m_e2NodeInactivityEvent) w in
    schedule_inactivity w
  else Ok w.

(** One logic module in QueryLms: a run that has not finished is cancelled. *)
Definition restart_lm (p : nat) w : res (World Q) :=
  let* running := IsRunning p w in
  let* w := if (running : bool) then CancelRun p w else Ok w in
  LmRun p w.(ric).(Ric.m_lmQueryCycle) w.

Definition QueryLms w : res (World Q) :=
  if w.(ric).(Ric.m_active) then
    let* lm := check_modules w in
    let w := set_ric (w.(ric) <| Ric.m_lmQueryCycle := now w |>) w in
    let* w := CheckForInactivity w in
    let* w :=
      if 0 <? w.(ric).(Ric.m_lmQueryMaxWaitTime) then
        let* r := schedule w.(ric).(Ric.m_lmQueryMaxWaitTime) ev_ProcessLmQueryCommands w in
        Ok (set_ric (r.2.(ric) <| Ric.m_processLmQueryCommandsEvent := r.1 |>) r.2)
      else Ok w in
    let* w := restart_lm lm w in
    let* w := for_additional restart_lm w.(ric).(Ric.m_additionalLms) w in
    schedule_query w
  else Ok w.

Definition NotifyReportReceived (report : OranReport) w : res (World Q) :=
  let queryLms := existsb (fun qtrigger => query_trigger qtrigger.2 report) w.(ric).(Ric.m_queryTriggers) in
  if queryLms then
    let w := cancel_pending w.(ric).(Ric.m_lmQueryEvent) w in
    QueryLms w
  else Ok w.

(** OranNrNearRtRicE2Terminator::ReceiveReport *)
Definition ReceiveReport (report : OranReport) w : res (World Q) :=
  if w.(e2t).(E2T.m_active) then
    let* _ := abort_if (negb w.(e2t).(E2T.m_data))
                "Attempting to use a null data repository in the Near-RT RIC E2 Terminator" in
    let* w := on_data (save_report report) w in
    let* _ := abort_if (negb w.(e2t).(E2T.m_nearRtRic)) "null m_nearRtRic" in
    NotifyReportReceived report w
  else Ok w.

(** OranNrNearRtRic::DoDispose *)
Definition RicDoDispose w : World Q :=
  let r := w.(ric) in
  let w := set_ric (r <| Ric.m_e2Terminator := false |> <| Ric.m_data := false |>
                      <| Ric.m_defaultLm := None |> <| Ric.m_additionalLms := [] |>
                      <| Ric.m_cmm := false |> <| Ric.m_lmQueryCommands := [] |>) w in
  cancel r.(Ric.m_processLmQueryCommandsEvent)
    (cancel r.(Ric.m_e2NodeInactivityEvent) (cancel r.(Ric.m_lmQueryEvent) w)).

End ric.
