(* ===== verification/RicFacts.v ===== *)
(** Facts about the logic modules (a run on a usable repository succeeds, and what starting or
    cancelling one leaves alone) and about the Near-RT RIC: what its E2 terminator schedules and its
    operations keep. *)
From Stdlib Require Import ZArith Lia.
From stdpp Require Import base list gmap strings sets pretty.
From S2P Require Import Prelude OrdMap EventQueue Simulator Messages Repository RepositoryFacts World RlLm RlLmProps.
From S2P Require Import MoniLm LogicModule RicE2Term NearRtRic.
Open Scope Z_scope.
(** Rewrites a query of a usable repository with its answer. *)
Ltac query_total S :=
  match goal with
  | |- context [res_bind (get_registered ?e ?d0 ?f ?r) _] =>
      let E := fresh "E" in destruct (get_registered_sound e d0 f r S) as [? E]; rewrite E
  | |- context [res_bind (get_active ?d0 ?f ?r) _] =>
      let E := fresh "E" in destruct (get_active_sound d0 f r S) as [? E]; rewrite E
  end; cbn [res_bind].

(** ** The monitoring module *)

Section moni.
Context `{Sqlite} `{StdSort}.

Lemma res_fold_total {A T} (f : A -> T -> res T) l s :
  (forall a s, exists s', f a s = Ok s') -> exists s', res_fold f l s = Ok s'.
Proof.
  intros F. revert s. induction l as [|a l IH]; intros s; cbn; [by eexists|].
  destruct (F a s) as [s' ->]. apply IH.
Qed.

Lemma monitor_ue_total data u l : repo_sound data -> exists l', monitor_ue data u l = Ok l'.
Proof.
  intros S. unfold monitor_ue, GetRsrpInfos, GetAppLossInfos, GetBufferInfos, GetTxPduInfos, GetTxDropInfos,
    GetNrUeRsrpRsrq, GetAppLoss, GetNrUeBufferStatus, GetNrUeTxPdu, GetNrUeTxDrop, GetNrUeCellInfo.
  cbn zeta. do 4 query_total S. destruct (last _); cbn [res_bind]; query_total S.
  all: match goal with |- context [match ?l with [] => _ | _ => _ end] => destruct l end; [by eexists|].
  all: query_total S; repeat case_match; by eexists.
Qed.

Lemma MoniRun_total now data : repo_sound data -> exists printed, MoniRun true true now data = Ok ([], printed).
Proof.
  intros S. unfold MoniRun. cbn [negb abort_if res_bind].
  unfold GetUeInfos, GetGnbInfos, GetNrUeE2NodeIds, GetNrGnbE2NodeIds. query_total S.
  match goal with |- context [res_fold (GetUeInfo now data) ?l ?s] =>
    destruct (res_fold_total (GetUeInfo now data) l s) as [us ->] end.
  { intros e s. unfold GetUeInfo, GetNrUeCellInfo, GetNodePositions. query_total S.
    repeat case_match; simplify_eq; try (by eexists). query_total S. repeat case_match; by eexists. }
  cbn [res_bind]. query_total S.
  match goal with |- context [res_fold (GetGnbInfo now data) ?l ?s] =>
    destruct (res_fold_total (GetGnbInfo now data) l s) as [gs ->] end.
  { intros e s. unfold GetGnbInfo, GetNrGnbCellInfo, GetNodePositions. query_total S.
    repeat case_match; simplify_eq; try (by eexists). query_total S. repeat case_match; by eexists. }
  cbn [res_bind].
  destruct (res_fold_total (monitor_ue data) us []) as [pr ->];
    [intros u l; by apply monitor_ue_total|by eexists].
Qed.

End moni.

(** ** Running a module *)

Section runs.
Context {Q : Type} `{EventQueueLaws Q} `{Platform} `{Sqlite} `{RlAgent} `{CppImplLaws} `{StdSort}.
Implicit Types (w : World Q).

(** Two modules that differ in what a run may change: the state of the class. *)
Definition same_module (l l' : Lm.OranLm) : Prop :=
  l'.(Lm.m_nearRtRic) = l.(Lm.m_nearRtRic) /\ l'.(Lm.m_name) = l.(Lm.m_name) /\
  l'.(Lm.m_active) = l.(Lm.m_active) /\ l'.(Lm.m_finishRunEvent) = l.(Lm.m_finishRunEvent) /\
  l'.(Lm.m_processingDelayRv) = l.(Lm.m_processingDelayRv) /\ l'.(Lm.m_cycle) = l.(Lm.m_cycle).

#[export] Instance same_module_refl : Reflexive same_module.
Proof. by intros l. Qed.

(** What an operation of module [p] leaves alone *)
Record lm_frame (p : nat) w w' : Prop := {
  lf_ric : w'.(ric) = w.(ric);
  lf_e2t : w'.(e2t) = w.(e2t);
  lf_cmm : w'.(cmm) = w.(cmm);
  lf_nodes : w'.(nodes) = w.(nodes);
  lf_terminators : w'.(terminators) = w.(terminators);
  lf_reporters : w'.(reporters) = w.(reporters);
  lf_triggers : w'.(triggers) = w.(triggers);
  lf_now : now w' = now w;
  lf_repo : repo_extends w.(data) w'.(data);
  lf_lms : forall q, q <> p -> w'.(lms) !! q = w.(lms) !! q;
  lf_store : forall q, is_Some (w.(sim).(impls) !! q) -> is_Some (w'.(sim).(impls) !! q);
  lf_next : (w.(sim).(next_impl) <= w'.(sim).(next_impl))%nat
}.

#[export] Instance lm_frame_refl p : Reflexive (lm_frame p).
Proof. intros w. by split. Qed.

#[export] Instance lm_frame_trans p : Transitive (lm_frame p).
Proof.
  intros w1 w2 w3 [] []. split; try congruence; try (by etrans); auto; try lia.
  intros q Nq. by rewrite lf_lms1, lf_lms0.
Qed.

Lemma set_lm_other p q l w : q <> p -> (set_lm p l w).(lms) !! q = w.(lms) !! q.
Proof. intros N. exact (lookup_insert_ne _ _ _ _ (not_eq_sym N)). Qed.

Lemma set_lm_same p l w : (set_lm p l w).(lms) !! p = Some l.
Proof. exact (lookup_insert_eq _ _ _). Qed.

Lemma set_lm_frame p l w : lm_frame p w (set_lm p l w).
Proof. split; try done. intros q Nq. by apply set_lm_other. Qed.

Lemma LogLogicToRepository_ok p l msg w :
  w.(lms) !! p = Some l -> l.(Lm.m_nearRtRic) = true -> repo_sound w.(data) ->
  exists w', LogLogicToRepository p msg w = Ok w' /\ lm_frame p w w' /\ w'.(lms) = w.(lms) /\ w'.(sim) = w.(sim).
Proof.
  intros El Er S. unfold LogLogicToRepository, deref. rewrite El. cbn [res_bind]. rewrite Er.
  cbn [negb abort_if res_bind]. destruct (Lm.m_verbose l); [|by exists w].
  unfold on_data. destruct (LogActionLm_sound (Lm.m_name l) (log_text (Lm.m_name l) msg w) (now w) _ S) as (d & -> & X).
  cbn [res_bind]. eexists. split; [done|]. split; [by split|done].
Qed.

Lemma Run_virtual_ok p l w :
  w.(lms) !! p = Some l -> l.(Lm.m_nearRtRic) = true -> l.(Lm.m_active) = true -> repo_sound w.(data) ->
  exists commands l' w', Run_virtual p w = Ok (commands, w') /\ lm_frame p w w' /\
    w'.(lms) !! p = Some l' /\ same_module l l' /\ w'.(sim) = w.(sim).
Proof.
  intros El Er Ea S. unfold Run_virtual, deref. rewrite El. cbn [res_bind].
  destruct (Lm.class l) as [| |st|st].
  - unfold NoopRun, deref. rewrite El. cbn [res_bind]. rewrite Er. cbn [negb abort_if res_bind].
    destruct (LogLogicToRepository_ok p l "No action taken" w El Er S) as (w' & -> & F & E1 & E2).
    cbn [res_bind]. exists [], l, w'. rewrite E1. split; [done|]. split; [exact F|]. by split.
  - rewrite Er, Ea. destruct (MoniRun_total (now w) (data w) S) as [pr ->]. cbn [res_bind fst].
    exists [], l, w. split; [done|]. split; [done|]. by split.
  - rewrite Er, Ea. destruct (RlRun_total (data w) st S) as (c & st' & -> & _). cbn [res_bind fst snd].
    eexists _, _, _. split; [done|]. split; [|split; [apply set_lm_same|by split; [split_and!|]]].
    apply set_lm_frame.
  - rewrite Er, Ea. destruct (RlRun_total (data w) st S) as (c & st' & -> & _). cbn [res_bind fst snd].
    eexists _, _, _. split; [done|]. split; [|split; [apply set_lm_same|by split; [split_and!|]]].
    apply set_lm_frame.
Qed.

(** The delay of a run: a negative one becomes 0. *)
Definition run_delay (l : Lm.OranLm) : double :=
  let d := (GetValue l.(Lm.m_processingDelayRv)).1 in if d_ltb d d_zero then d_zero else d.

Lemma LmRun_ok p l cycle w pl D n :
  w.(lms) !! p = Some l -> l.(Lm.m_nearRtRic) = true -> l.(Lm.m_active) = true ->
  pending l.(Lm.m_finishRunEvent) w = false -> repo_sound w.(data) -> plan w pl ->
  0 <= Seconds (run_delay l) <= D -> room D (S n) w.(sim) ->
  exists l' w' pl', LmRun p cycle w = Ok w' /\ lm_frame p w w' /\ plan w' pl' /\ room D n w'.(sim) /\
    w'.(lms) !! p = Some l' /\ l'.(Lm.m_active) = true /\ l'.(Lm.m_cycle) = cycle /\
    m_eventImpl l'.(Lm.m_finishRunEvent) = Some w.(sim).(next_impl) /\
    planned l'.(Lm.m_finishRunEvent) (now w + Seconds (run_delay l)) (ev_FinishRun p) w'.(sim) /\
    (forall id t e, planned id t e w.(sim) -> planned id t e w'.(sim)).
Proof.
  intros El Er Ea Np S P De Rm. unfold LmRun, deref. rewrite El. cbn [res_bind]. rewrite Ea, Np.
  cbn [abort_if res_bind GetValue].
  change (if d_ltb (rv_draws (Lm.m_processingDelayRv l) (rv_count (Lm.m_processingDelayRv l))) d_zero
    then d_zero else rv_draws (Lm.m_processingDelayRv l) (rv_count (Lm.m_processingDelayRv l)))
    with (run_delay l).
  set (l1 := l <| Lm.m_processingDelayRv := _ |> <| Lm.m_cycle := cycle |>).
  set (w1 := set_lm p l1 w).
  pose proof (set_lm_frame p l1 w : lm_frame p w w1) as F1.
  destruct (Run_virtual_ok p l1 w1) as (c & l2 & w2 & -> & F2 & El2 & Sm & Es2);
    [apply set_lm_same|done|done|done|].
  cbn [res_bind]. rewrite El2. cbn [res_bind].
  set (w3 := set_lm p (l2 <| Lm.m_commands := c |>) w2).
  pose proof (set_lm_frame p (l2 <| Lm.m_commands := c |>) w2 : lm_frame p w2 w3) as F3.
  assert (sim w3 = sim w) as Es3 by exact Es2.
  destruct (schedule_plan w3 pl D n (Seconds (run_delay l)) (ev_FinishRun p)) as (id & s' & -> & St & P4 & R4).
  { unfold plan. by rewrite Es3. } { by rewrite Es3. } { done. }
  cbn [res_bind]. set (w4 := w3 <| sim := s' |>).
  assert (lms w4 !! p = Some (l2 <| Lm.m_commands := c |>)) as El4 by apply set_lm_same.
  rewrite El4. cbn [res_bind].
  rewrite Es3 in St. eexists _, _, _. split; [done|]. split.
  { etrans; [exact F1|]. etrans; [exact F2|]. etrans; [exact F3|]. etrans; [|apply set_lm_frame].
    split; try done.
    - change (now w4) with (m_currentTs s'). rewrite (st_now _ _ _ _ _ St). unfold now. by rewrite Es3.
    - rewrite Es3. exact (st_store _ _ _ _ _ St).
    - rewrite Es3. change (sim w4) with s'. rewrite (st_next _ _ _ _ _ St). lia. }
  split; [exact P4|]. split; [exact R4|]. split; [apply set_lm_same|].
  destruct Sm as (_ & _ & A & _ & _ & Cy). cbn in A, Cy.
  split; [by cbn; rewrite A|]. split; [exact Cy|]. split; [exact (st_fresh _ _ _ _ _ St)|].
  split; [exact (st_planned _ _ _ _ _ St)|]. destruct P as (k & I & _). intros id' t e.
  exact (planned_scheduled _ _ _ _ _ _ _ _ (inv_fresh _ _ I) St).
Qed.

(** An event of this or a later run: its EventImpl was made after the first [N]. *)
Definition made_after (N : nat) (id : EventId) : Prop :=
  exists q, m_eventImpl id = Some q /\ (N <= q)%nat.

Lemma cancel_frame p id w : lm_frame p w (cancel id w).
Proof.
  assert (sim (cancel id w) = Cancel id w.(sim)) as E by done.
  assert (m_currentTs (Cancel id w.(sim)) = m_currentTs w.(sim) /\
    next_impl (Cancel id w.(sim)) = next_impl w.(sim)) as [E1 E2].
  { unfold Cancel. destruct (negb _); [|done]. by destruct (m_eventImpl id). }
  split; try done; rewrite ?E, ?E2; try exact E1; try lia.
  intros q Hq. unfold Cancel. destruct (negb _); [|done].
  destruct (m_eventImpl id) as [q'|]; [|done]. cbn. rewrite lookup_alter. case_decide; [|done].
  subst. by apply fmap_is_Some.
Qed.

Lemma CancelRun_ok p l w pl N D n :
  w.(lms) !! p = Some l -> l.(Lm.m_nearRtRic) = true -> l.(Lm.m_active) = true ->
  pending l.(Lm.m_finishRunEvent) w = true -> id_valid l.(Lm.m_finishRunEvent) w.(sim) ->
  ~ made_after N l.(Lm.m_finishRunEvent) ->
  repo_sound w.(data) -> plan w pl -> room D n w.(sim) ->
  exists l' w' pl', CancelRun p w = Ok w' /\ lm_frame p w w' /\ plan w' pl' /\ room D n w'.(sim) /\
    w'.(lms) !! p = Some l' /\ same_module l l' /\ l'.(Lm.m_commands) = [] /\
    pending l'.(Lm.m_finishRunEvent) w' = false /\
    (forall id t e, made_after N id -> planned id t e w.(sim) -> planned id t e w'.(sim)).
Proof.
  intros El Er Ea Pe V NN S (k & I & _) R. unfold CancelRun. unfold deref at 1. rewrite El.
  cbn [res_bind]. rewrite Ea, Pe. cbn [andb].
  set (w1 := cancel (Lm.m_finishRunEvent l) w).
  pose proof (cancel_frame p (Lm.m_finishRunEvent l) w : lm_frame p w w1) as F1.
  assert (exists w2, (if bool_decide (Lm.m_commands l = []) then Ok w1
    else LogLogicToRepository p ("Run canceld for cycle " +:+ pretty l.(Lm.m_cycle) +:+ " with "
           +:+ pretty (Z.of_nat (length l.(Lm.m_commands))) +:+ " command(s) lost"
           +:+ lost_commands l.(Lm.m_commands)) w1) = Ok w2
    /\ lm_frame p w1 w2 /\ lms w2 = lms w1 /\ sim w2 = sim w1) as (w2 & E2 & F2 & L2 & S2).
  { case_bool_decide; [by exists w1|]. apply (LogLogicToRepository_ok p l); done. }
  cbn zeta. rewrite E2. cbn [res_bind]. unfold deref. rewrite L2.
  change (lms w1) with (lms w). rewrite El. cbn [res_bind].
  eexists _, _, _. split; [done|]. split; [etrans; [exact F1|]; etrans; [exact F2|apply set_lm_frame]|].
  assert (sim (set_lm p (l <| Lm.m_commands := [] |>) w2) = Cancel (Lm.m_finishRunEvent l) (sim w)) as Es
    by exact S2.
  unfold plan. unfold pending. rewrite !Es. split; [exists k; split; [by apply kernel_inv_cancel|done]|].
  split.
  { destruct R as [R1 R2]. unfold Cancel. destruct (negb _); [|done]. by destruct (m_eventImpl _). }
  split; [apply set_lm_same|]. split; [done|]. split; [done|]. split.
  - unfold IsPending. cbn. by rewrite cancel_expired.
  - intros id t e (q & Hq & Nq) Pl. apply planned_cancelled; [|done]. intros E. apply NN.
    exists q. by rewrite <- E.
Qed.

(** The delays a module may draw *)
Definition lm_delays (D : Z) (l : Lm.OranLm) : Prop := 0 <= Seconds (run_delay l) <= D.

(** What QueryLms leaves in a module it has started *)
Definition started (p : nat) (delay cycle : Z) (l : Lm.OranLm) w : Prop :=
  l.(Lm.m_active) = true ->
  l.(Lm.m_cycle) = cycle /\ planned l.(Lm.m_finishRunEvent) (now w + delay) (ev_FinishRun p) w.(sim).

Lemma restart_lm_ok p l w pl N D n :
  w.(lms) !! p = Some l -> l.(Lm.m_nearRtRic) = true -> lm_delays D l ->
  id_valid l.(Lm.m_finishRunEvent) w.(sim) -> ~ made_after N l.(Lm.m_finishRunEvent) ->
  (N <= w.(sim).(next_impl))%nat ->
  repo_sound w.(data) -> plan w pl -> room D (S n) w.(sim) ->
  exists l' w' pl', restart_lm p w = Ok w' /\ lm_frame p w w' /\ plan w' pl' /\ room D n w'.(sim) /\
    w'.(lms) !! p = Some l' /\ l'.(Lm.m_active) = l.(Lm.m_active) /\
    (l.(Lm.m_active) = true -> made_after N l'.(Lm.m_finishRunEvent)) /\
    started p (Seconds (run_delay l)) w.(ric).(Ric.m_lmQueryCycle) l' w' /\
    (forall id t e, made_after N id -> planned id t e w.(sim) -> planned id t e w'.(sim)).
Proof.
  intros El Er De V NN Nx S P R. unfold restart_lm, IsRunning. unfold deref at 1. rewrite El. cbn [res_bind].
  destruct (Lm.m_active l) eqn:Ea.
  - (* active: the run that is pending, if any, is cancelled first *)
    assert (exists l1 w1 pl1, (if pending (Lm.m_finishRunEvent l) w then CancelRun p w else Ok w) = Ok w1 /\
      lm_frame p w w1 /\ plan w1 pl1 /\ room D (Datatypes.S n) w1.(sim) /\ w1.(lms) !! p = Some l1 /\
      same_module l l1 /\ pending l1.(Lm.m_finishRunEvent) w1 = false /\
      (forall id t e, made_after N id -> planned id t e w.(sim) -> planned id t e w1.(sim)))
      as (l1 & w1 & pl1 & E1 & F1 & P1 & R1 & El1 & Sm & Np & K1).
    { destruct (pending (Lm.m_finishRunEvent l) w) eqn:Pe; [|by exists l, w, pl; split_and!].
      destruct (CancelRun_ok p l w pl N D (Datatypes.S n)) as (l1 & w1 & pl1 & E1 & F1 & P1 & R1 & El1 & Sm & _ & Np & K1);
        [done..|]. exists l1, w1, pl1. by split_and!. }
    rewrite E1. cbn [res_bind]. destruct Sm as (Sr & Sn & Sa & Sf & Sp & Sc).
    assert (run_delay l1 = run_delay l) as Ed by (unfold run_delay; by rewrite Sp).
    destruct (LmRun_ok p l1 (Ric.m_lmQueryCycle (ric w1)) w1 pl1 D n)
      as (l2 & w2 & pl2 & -> & F2 & P2 & R2 & El2 & Ea2 & Cy & Mk & Pl & K2);
      [done|congruence|congruence|done|by apply (lf_repo _ _ _ F1)|done|by rewrite Ed|done|].
    pose proof (lf_next _ _ _ F1).
    exists l2, w2, pl2. split; [done|]. split; [by etrans|]. split; [done|]. split; [done|]. split; [done|].
    split; [done|]. split; [intros _; eexists; split; [exact Mk|lia]|].
    split; [|auto]. intros _. rewrite (lf_ric _ _ _ F1) in Cy. split; [done|].
    rewrite Ed, <- (lf_now _ _ _ F2) in Pl. exact Pl.
  - (* inactive: nothing happens *)
    assert ((if pending (Lm.m_finishRunEvent l) w then CancelRun p w else Ok w) = Ok w) as ->.
    { destruct (pending _ w); [|done]. unfold CancelRun, deref. rewrite El. cbn [res_bind]. by rewrite Ea. }
    cbn [res_bind]. unfold LmRun, deref. rewrite El. cbn [res_bind]. rewrite Ea.
    exists l, w, pl. split; [done|]. split; [done|]. split; [done|].
    split; [destruct R; split; [done|lia]|]. split; [done|]. split; [done|]. split; [done|].
    split; [|auto]. unfold started. by rewrite Ea.
Qed.

End runs.

(** ** Sending from the RIC's E2 terminator *)

Section e2.
Context {Q : Type} `{EventQueueLaws Q} `{Platform}.
Implicit Types (w : World Q).

(** The terminator the RIC's E2 terminator addresses for a node; null when it knows none. *)
Definition terminator_at (id : Z) w : option nat :=
  mjoin (smap_lookup id w.(e2t).(E2T.m_nodeTerminators)).

(** What sending leaves alone *)
Record e2_keeps w w' : Prop := {
  ek_objects : same_objects w w';
  ek_now : now w' = now w;
  ek_repo : repo_extends w.(data) w'.(data);
  ek_active : w'.(e2t).(E2T.m_active) = w.(e2t).(E2T.m_active);
  ek_data : w'.(e2t).(E2T.m_data) = w.(e2t).(E2T.m_data);
  ek_ric : w'.(e2t).(E2T.m_nearRtRic) = w.(e2t).(E2T.m_nearRtRic);
  ek_draws : w'.(e2t).(E2T.m_transmissionDelayRv).(rv_draws) = w.(e2t).(E2T.m_transmissionDelayRv).(rv_draws);
  ek_terminators : forall id, terminator_at id w' = terminator_at id w;
  ek_planned : forall id t e, planned id t e w.(sim) -> planned id t e w'.(sim);
  ek_store : forall q, is_Some (w.(sim).(impls) !! q) -> is_Some (w'.(sim).(impls) !! q);
  ek_next : (w.(sim).(next_impl) <= w'.(sim).(next_impl))%nat
}.

#[export] Instance e2_keeps_refl : Reflexive e2_keeps.
Proof. intros w. by split. Qed.

#[export] Instance e2_keeps_trans : Transitive e2_keeps.
Proof.
  intros w1 w2 w3 [] []. split; try congruence; try (by etrans); auto; lia.
Qed.

(** The delays of the E2 terminator's stream fit in the time that is left. *)
Definition e2_delays (D : Z) w : Prop := draws_within D w.(e2t).(E2T.m_transmissionDelayRv).

Lemma e2_delays_keeps D w w' : e2_keeps w w' -> e2_delays D w -> e2_delays D w'.
Proof. intros K De n. rewrite (ek_draws _ _ K). apply De. Qed.

Lemma schedule_e2_ok w p D n e :
  plan w p -> e2_delays D w -> room D (S n) w.(sim) ->
  let rv := w.(e2t).(E2T.m_transmissionDelayRv) in
  exists w', schedule_e2 e w = Ok w' /\ e2_keeps w w' /\ room D n w'.(sim) /\
    plan w' (plan_insert (now w + Seconds (GetValue rv).1) e p) /\
    w'.(e2t).(E2T.m_transmissionDelayRv) = (GetValue rv).2 /\ w'.(data) = w.(data).
Proof.
  intros P De R rv. unfold schedule_e2. fold rv. cbn [GetValue].
  set (w1 := set_e2t _ w).
  destruct (schedule_plan w1 p D n (Seconds (rv_draws rv (rv_count rv))) e P R) as (id & s' & -> & St & P' & R').
  { apply De. }
  cbn [res_bind snd]. eexists. split; [done|]. split; [|done].
  split; try done.
  - apply (st_now _ _ _ _ _ St).
  - destruct P as (l & I & _). intros id' t e'. apply (planned_scheduled _ _ _ _ _ _ _ _ (inv_fresh _ _ I) St).
  - exact (st_store _ _ _ _ _ St).
  - pose proof (st_next _ _ _ _ _ St) as Nx. change (next_impl (sim w) <= next_impl s')%nat.
    rewrite Nx. apply Nat.le_succ_diag_r.
Qed.

Lemma node_terminator_ok id w :
  (node_terminator id w).1 = terminator_at id w /\ e2_keeps w (node_terminator id w).2 /\
  (node_terminator id w).2.(sim) = w.(sim) /\
  (node_terminator id w).2.(e2t).(E2T.m_transmissionDelayRv) = w.(e2t).(E2T.m_transmissionDelayRv) /\
  (node_terminator id w).2.(data) = w.(data).
Proof.
  unfold node_terminator, terminator_at.
  destruct (smap_lookup id _) as [t|] eqn:L; cbn; [done|]. split_and!; [done| |done..].
  split; try done. intros id'. unfold terminator_at. cbn.
  destruct (decide (id = id')) as [<-|N]; [by rewrite smap_lookup_insert_eq, L|].
  by rewrite smap_lookup_insert_ne.
Qed.

Lemma SendCommand_ok w p D n c :
  w.(e2t).(E2T.m_active) = true -> w.(e2t).(E2T.m_data) = true -> repo_sound w.(data) ->
  plan w p -> e2_delays D w -> room D (S n) w.(sim) ->
  let rv := w.(e2t).(E2T.m_transmissionDelayRv) in
  exists w', SendCommand c w = Ok w' /\ e2_keeps w w' /\ room D n w'.(sim) /\
    plan w' (plan_insert (now w + Seconds (GetValue rv).1)
               (ev_ReceiveCommand (terminator_at c.(TargetE2NodeId) w) c) p) /\
    w'.(e2t).(E2T.m_transmissionDelayRv) = (GetValue rv).2.
Proof.
  intros A D1 S P De R rv. unfold SendCommand, on_data. rewrite A, D1. cbn [negb abort_if res_bind].
  destruct (LogCommandE2Terminator_sound c (now w) (data w) S) as (d' & -> & X). cbn [res_bind].
  set (w1 := set _ _ w).
  assert (e2_keeps w w1) as K1 by (by split).
  destruct (node_terminator_ok (TargetE2NodeId c) w1) as (T & K2 & Es & Er & _).
  destruct (node_terminator (TargetE2NodeId c) w1) as [t w2]. cbn [fst snd] in T, K2, Es, Er. subst t.
  assert (e2_keeps w w2) as K by (by etrans).
    destruct (schedule_e2_ok w2 p D n (ev_ReceiveCommand (terminator_at (TargetE2NodeId c) w1) c))
    as (w3 & -> & K3 & R3 & P3 & E3 & _).
  - unfold plan. by rewrite Es.
  - by eapply e2_delays_keeps.
  - by rewrite Es.
  - exists w3. split; [done|]. split; [by etrans|]. split; [done|]. rewrite Er in P3, E3.
    rewrite (ek_now _ _ K) in P3. done.
Qed.

(** The events that carry a list of commands to their targets *)
Definition command_events (commands : list OranCommand) w : list OranEvent :=
  (fun c => ev_ReceiveCommand (terminator_at c.(TargetE2NodeId) w) c) <$> commands.

Lemma command_events_keeps commands w w' :
  e2_keeps w w' -> command_events commands w' = command_events commands w.
Proof. intros K. apply list_fmap_ext. intros i c _. by rewrite (ek_terminators _ _ K). Qed.

Lemma ProcessCommands_ok commands w p D n :
  w.(e2t).(E2T.m_active) = true -> w.(e2t).(E2T.m_data) = true -> repo_sound w.(data) ->
  plan w p -> e2_delays D w -> room D (length commands + n) w.(sim) ->
  exists w', ProcessCommands commands w = Ok w' /\ e2_keeps w w' /\ room D n w'.(sim) /\
    plan w' (plan_draws (now w) w.(e2t).(E2T.m_transmissionDelayRv) (command_events commands w) p).
Proof.
  intros A D1 S P De R. unfold ProcessCommands. rewrite A.
  revert w p A D1 S P De R. induction commands as [|c cs IH]; intros w p A D1 S P De R; cbn [res_fold].
  { by exists w. }
  destruct (SendCommand_ok w p D (length cs + n) c) as (w1 & -> & K1 & R1 & P1 & E1); try done.
  cbn [res_bind].
  destruct (IH w1 (plan_insert (now w + Seconds (GetValue w.(e2t).(E2T.m_transmissionDelayRv)).1)
      (ev_ReceiveCommand (terminator_at (TargetE2NodeId c) w) c) p)) as (w2 & E2 & K2 & R2 & P2);
    [by rewrite (ek_active _ _ K1)|by rewrite (ek_data _ _ K1)|by apply (ek_repo _ _ K1)
    |done|by eapply e2_delays_keeps|done|].
  exists w2. split; [exact E2|]. split; [by etrans|]. split; [done|].
    rewrite (command_events_keeps cs w w1), (ek_now _ _ K1), E1 in P2 by done. exact P2.
Qed.

(** *** Conflict mitigation *)

Lemma Filter_ok input w :
  w.(cmm).(Cmm.m_nearRtRic) = true -> repo_sound w.(data) ->
  exists w', Filter input w = Ok (mjoin input.*2, w') /\ e2_keeps w w' /\ w'.(sim) = w.(sim) /\ w'.(e2t) = w.(e2t).
Proof.
  intros C S. unfold Filter, LogLogicToStorage. rewrite C. cbn.
  assert (foldl (fun commands commandSet => commands ++ commandSet.2) [] input = mjoin input.*2) as ->.
  { assert (forall acc, foldl (fun commands commandSet => commands ++ commandSet.2) acc input
      = acc ++ mjoin input.*2) as ->; [|done].
    induction input as [|[k c] input IH]; intros acc; cbn; [by rewrite app_nil_r|].
    by rewrite IH, <- app_assoc. }
  destruct (Cmm.m_verbose (cmm w)); cbn; [|by exists w].
  unfold on_data. destruct (LogActionCmm_sound (Cmm.m_name (cmm w)) (log_text (Cmm.m_name (cmm w)) "No action taken" w)
    (now w) (data w) S) as (d' & -> & X). cbn. eexists. split; [done|]. split; [by split|done].
Qed.

End e2.

(** ** Deregistering *)

Section inactivity.
Context {Q : Type} `{EventQueueLaws Q} `{Platform}.
Implicit Types (w : World Q).

(** [w'] is [w] after messages to nodes have been scheduled and the database changed. *)
Record after_sends w w' : Prop := {
  as_objects : same_objects w w';
  as_now : now w' = now w;
  as_active : w'.(e2t).(E2T.m_active) = w.(e2t).(E2T.m_active);
  as_data : w'.(e2t).(E2T.m_data) = w.(e2t).(E2T.m_data);
  as_ric : w'.(e2t).(E2T.m_nearRtRic) = w.(e2t).(E2T.m_nearRtRic);
  as_draws : w'.(e2t).(E2T.m_transmissionDelayRv).(rv_draws) = w.(e2t).(E2T.m_transmissionDelayRv).(rv_draws);
  as_planned : forall id t e, planned id t e w.(sim) -> planned id t e w'.(sim);
  as_store : forall q, is_Some (w.(sim).(impls) !! q) -> is_Some (w'.(sim).(impls) !! q);
  as_next : (w.(sim).(next_impl) <= w'.(sim).(next_impl))%nat
}.

#[export] Instance after_sends_refl : Reflexive after_sends.
Proof. intros w. by split. Qed.

#[export] Instance after_sends_trans : Transitive after_sends.
Proof. intros w1 w2 w3 [] []. split; try congruence; try (by etrans); auto; lia. Qed.

Lemma e2_keeps_sends w w' : e2_keeps w w' -> after_sends w w'.
Proof. intros []. by split. Qed.

Lemma ReceiveDeregistrationRequest_ok w p dd D n e :
  w.(e2t).(E2T.m_active) = true -> w.(e2t).(E2T.m_data) = true ->
  repo_ready (now w) dd w.(data) -> fits 64 e ->
  plan w p -> e2_delays D w -> room D (S n) w.(sim) ->
  exists w' d', ReceiveDeregistrationRequest e w = Ok w' /\ after_sends w w' /\
    repo_ready (now w') d' w'.(data) /\ registers (now w) w.(data) e false w'.(data) /\
    room D n w'.(sim) /\
    plan w' (plan_insert (now w + Seconds (GetValue w.(e2t).(E2T.m_transmissionDelayRv)).1)
               (ev_ReceiveDeregistrationResponse (terminator_at e w) e) p).
Proof.
  intros A D1 R F P De Rm. unfold ReceiveDeregistrationRequest. rewrite A, D1. cbn [negb abort_if res_bind].
  destruct (DeregisterNode_registers (now w) dd (data w) e R F) as (d' & -> & R' & Rg).
  cbn [res_bind]. set (w1 := set _ _ w).
  assert (after_sends w w1) as S1 by (by split).
  destruct (node_terminator_ok e w1) as (T & K2 & Es & Er & Ed).
  destruct (node_terminator e w1) as [t w2]. cbn [fst snd] in T, K2, Es, Er, Ed. subst t.
  destruct (schedule_e2_ok w2 p D n (ev_ReceiveDeregistrationResponse (terminator_at e w1) e))
    as (w3 & -> & K3 & R3 & P3 & E3 & Ed3).
  - unfold plan. by rewrite Es.
  - eapply e2_delays_keeps; [exact K2|exact De].
  - by rewrite Es.
  - assert (now w2 = now w) as Nw by (unfold now; by rewrite Es).
    assert (data w3 = set_db (Some d') (data w)) as E by (by rewrite Ed3, Ed).
    exists w3, d'. split; [done|]. split; [by do 2 (etrans; [|by apply e2_keeps_sends])|].
    rewrite (ek_now _ _ K3), Nw, E. split; [done|]. split; [done|]. split; [done|].
    by rewrite Er, Nw in P3.
Qed.

(** The nodes whose last registration is too old *)
Definition stale (threshold t : Z) (lastreg : Z * Z) : Prop := threshold < t - lastreg.2.

#[export] Instance stale_dec threshold t lastreg : Decision (stale threshold t lastreg).
Proof. unfold stale. apply _. Defined.

Definition stale_ids (threshold t : Z) (l : list (Z * Z)) : list Z := (filter (stale threshold t) l).*1.

Lemma stale_ids_cons threshold t r l :
  stale_ids threshold t (r :: l) =
    if decide (stale threshold t r) then r.1 :: stale_ids threshold t l else stale_ids threshold t l.
Proof. unfold stale_ids. rewrite filter_cons. by case_decide. Qed.

Lemma check_nodes_ok l w p dd D n :
  w.(e2t).(E2T.m_active) = true -> w.(e2t).(E2T.m_data) = true ->
  repo_ready (now w) dd w.(data) -> Forall (fun r => fits 64 r.1) l ->
  plan w p -> e2_delays D w -> room D (length l + n) w.(sim) ->
  exists w' d' p', res_fold check_node l w = Ok w' /\ after_sends w w' /\
    repo_ready (now w') d' w'.(data) /\ room D n w'.(sim) /\ plan w' p' /\
    forall e, fits 64 e -> IsNodeRegistered e w'.(data) =
      if bool_decide (e ∈ stale_ids w.(ric).(Ric.m_e2NodeInactivityThreshold) (now w) l)
      then Ok false else IsNodeRegistered e w.(data).
Proof.
  intros A D1 R F. revert w p dd A D1 R. induction F as [|[i t] l Fi F IH]; intros w p dd A D1 R P De Rm.
  { exists w, dd, p. split; [done|]. split; [done|]. split; [done|]. split; [done|]. split; [done|].
    intros e Fe. by rewrite bool_decide_false by apply not_elem_of_nil. }
  cbn [res_fold]. unfold check_node at 1. cbn [fst snd].
  set (th := Ric.m_e2NodeInactivityThreshold (ric w)).
  destruct (Z.ltb_spec th (now w - t)) as [L|L].
  - destruct (ReceiveDeregistrationRequest_ok w p dd D (length l + n) i A D1 R Fi P De Rm)
      as (w1 & d1 & -> & S1 & R1 & G1 & Rm1 & P1). cbn [res_bind].
    set (p1 := plan_insert _ _ _) in P1.
    destruct (IH w1 p1 d1) as (w2 & d2 & p2 & E2 & S2 & R2 & Rm2 & P2 & G2);
      [by rewrite (as_active _ _ S1)|by rewrite (as_data _ _ S1)|done|done
      |intros k; rewrite (as_draws _ _ S1); apply De|done|].
    exists w2, d2, p2. split; [done|]. split; [by etrans|]. split; [done|]. split; [done|]. split; [done|].
    intros e Fe. rewrite (G2 e Fe). destruct (as_objects _ _ S1) as (Er & _). rewrite Er. fold th.
    rewrite (as_now _ _ S1), stale_ids_cons, decide_True by (unfold stale; cbn; lia). cbn [fst].
    destruct G1 as [G1 G1'].
    destruct (decide (e ∈ stale_ids th (now w) l)) as [X|X].
    + by rewrite !bool_decide_true by (by rewrite ?elem_of_cons; auto).
    + rewrite (bool_decide_false _ X). destruct (decide (e = i)) as [->|Ne].
      * by rewrite bool_decide_true by (by left).
      * rewrite bool_decide_false; [by apply G1'|]. by intros [?|?]%elem_of_cons.
  - cbn [res_bind]. destruct (IH w p dd A D1 R P De) as (w2 & d2 & p2 & E2 & S2 & R2 & Rm2 & P2 & G2).
    { destruct Rm. split; [done|]. cbn in *. lia. }
    exists w2, d2, p2. split; [done|]. split; [done|]. split; [done|]. split; [done|]. split; [done|].
    intros e Fe. rewrite (G2 e Fe). fold th.
    by rewrite stale_ids_cons, decide_False by (unfold stale; cbn; lia).
Qed.

Lemma schedule_inactivity_ok w p D n :
  plan w p -> room D (S n) w.(sim) -> draws_within D w.(ric).(Ric.m_e2NodeInactivityIntervalRv) ->
  let rv := w.(ric).(Ric.m_e2NodeInactivityIntervalRv) in
  exists id s' p', schedule_inactivity w = Ok (set_ric (w.(ric) <| Ric.m_e2NodeInactivityIntervalRv := (GetValue rv).2 |>
      <| Ric.m_e2NodeInactivityEvent := id |>) (w <| sim := s' |>)) /\
    scheduled_to (Seconds (GetValue rv).1) ev_CheckForInactivity w.(sim) id s' /\
    sim_plan s' p' /\ room D n s'.
Proof.
  intros P R Dr rv. unfold schedule_inactivity. fold rv. cbn [GetValue fst snd].
  set (w1 := set_ric _ w).
  destruct (schedule_plan w1 p D n (Seconds (rv_draws rv (rv_count rv))) ev_CheckForInactivity P R (Dr _))
    as (id & s' & -> & St & P' & R').
  cbn [res_bind fst snd]. do 3 eexists. split; [reflexivity|]. split; [exact St|]. split; [exact P'|exact R'].
Qed.

(** What the inactivity check leaves alone in the RIC *)
Definition same_cycle (r r' : Ric.NearRtRic) : Prop :=
  exists id rv, r' = r <| Ric.m_e2NodeInactivityIntervalRv := rv |> <| Ric.m_e2NodeInactivityEvent := id |>.

Context `{Sqlite}.

Lemma CheckForInactivity_ok w D p d l n :
  w.(ric).(Ric.m_active) = true -> w.(ric).(Ric.m_data) = true -> w.(ric).(Ric.m_e2Terminator) = true ->
  w.(e2t).(E2T.m_active) = true -> w.(e2t).(E2T.m_data) = true -> e2_delays D w ->
  room D (length l + S n) w.(sim) -> plan w p -> repo_ready (now w) d w.(data) ->
  draws_within D w.(ric).(Ric.m_e2NodeInactivityIntervalRv) ->
  GetLastRegistrationRequests w.(data) = Ok l ->
  exists w' d' p', CheckForInactivity w = Ok w' /\
    repo_ready (now w') d' w'.(data) /\ plan w' p' /\ room D n w'.(sim) /\
    (forall e, fits 64 e -> IsNodeRegistered e w'.(data) =
       if bool_decide (e ∈ stale_ids w.(ric).(Ric.m_e2NodeInactivityThreshold) (now w) l)
       then Ok false else IsNodeRegistered e w.(data)) /\
    planned w'.(ric).(Ric.m_e2NodeInactivityEvent)
      (now w + Seconds (GetValue w.(ric).(Ric.m_e2NodeInactivityIntervalRv)).1) ev_CheckForInactivity w'.(sim) /\
    same_cycle w.(ric) w'.(ric) /\ now w' = now w /\ w'.(lms) = w.(lms) /\ w'.(cmm) = w.(cmm) /\
    (forall q, is_Some (w.(sim).(impls) !! q) -> is_Some (w'.(sim).(impls) !! q)) /\
    (w.(sim).(next_impl) <= w'.(sim).(next_impl))%nat.
Proof.
  intros A Dt E2 EA ED De Rm P Rd Dr G. unfold CheckForInactivity.
  rewrite A, Dt, E2, G. cbn [negb abort_if res_bind].
  destruct (check_nodes_ok l w p d D (S n)) as (w1 & d1 & p1 & -> & S1 & R1 & Rm1 & P1 & G1); [done..| |done|done|done|].
  { unfold GetLastRegistrationRequests, get_active in G. rewrite (proj1 Rd), (db_of_ready _ _ _ Rd) in G.
    injection G as <-. apply Forall_forall. intros x (y & -> & _)%list_elem_of_fmap. by apply wrap_fits. }
  cbn [res_bind]. destruct (as_objects _ _ S1) as (Er & Ec & El & _).
  destruct (cancel_pending_frame w1.(ric).(Ric.m_e2NodeInactivityEvent) w1) as (s' & Ew & T & U & Nx & St).
  assert (exists p2, plan (cancel_pending w1.(ric).(Ric.m_e2NodeInactivityEvent) w1) p2) as [p2 P2].
  { unfold cancel_pending. destruct (pending _ w1); [|by exists p1].
    destruct P1 as (k & K & _). eexists. exists k. split; [by apply kernel_inv_cancel|done]. }
  rewrite Ew in P2 |- *. set (w2 := w1 <| sim := s' |>) in *.
  destruct (schedule_inactivity_ok w2 p2 D n) as (id & s2 & p3 & -> & Sc & P3 & R3); [done| | |].
  - destruct Rm1 as [B1 B2]. change (sim w2) with s'. split; [by rewrite T|by rewrite U].
  - change (ric w2) with (ric w1). by rewrite Er.
  - assert (m_currentTs s' = now w) as Ts by (rewrite T; exact (as_now _ _ S1)).
    assert (m_currentTs s2 = now w) as Ts2 by (rewrite <- Ts; exact (st_now _ _ _ _ _ Sc)).
    eexists _, d1, p3. split; [reflexivity|]. split.
    { change (now _) with (m_currentTs s2). rewrite Ts2. by rewrite <- (as_now _ _ S1). }
    split; [exact P3|]. split; [exact R3|]. split; [exact G1|].
    pose proof (st_planned _ _ _ _ _ Sc) as Pl. change (ric w2) with (ric w1) in Pl |- *.
    change (m_currentTs (sim w2)) with (m_currentTs s') in Pl. rewrite Er, Ts in Pl. rewrite Er.
    split; [exact Pl|]. split; [by do 2 eexists|]. split; [exact Ts2|]. split; [exact El|]. split; [exact Ec|].
    split.
    + intros q Hq. apply (st_store _ _ _ _ _ Sc), St, (as_store _ _ S1), Hq.
    + pose proof (as_next _ _ S1). pose proof (st_next _ _ _ _ _ Sc) as Nx2.
      change (next_impl (sim w2)) with (next_impl s') in Nx2.
      change (next_impl (sim w) <= next_impl s2)%nat. lia.
Qed.

End inactivity.
