(* ===== verification/Reporters.v ===== *)
(** Reporters and report triggers: src/oran/model/oran-reporter*.cc and
    oran-report-trigger*.cc.

    The two classes call each other through pointers: a reporter owns a trigger, the
    trigger points back to the reporter while it is active, and activating or
    deactivating the trigger assigns the reporter's Trigger attribute. *)
From Stdlib Require Import ZArith Lia.
From stdpp Require Import base list gmap strings.
From S2P Require Import Prelude OrdMap EventQueue Simulator Messages Repository World.
Open Scope Z_scope.
(** A reporter without terminator; the Trigger attribute is a trigger object of its own. *)
Definition new_reporter (class : ReporterClass) (trigger : nat) : Reporter.OranReporter :=
  Reporter.mkReporter false None (Some trigger) class.

Section samples.

(** *** OranReporterAppLoss *)

(** AddTx and AddRx: a packet more *)
Definition AddTx (c : ReporterClass) : ReporterClass :=
  match c with
  | OranReporterAppLoss m_tx m_rx => OranReporterAppLoss (u64 (m_tx + 1)) m_rx
  | c => c
  end.

Definition AddRx (c : ReporterClass) : ReporterClass :=
  match c with
  | OranReporterAppLoss m_tx m_rx => OranReporterAppLoss m_tx (u64 (m_rx + 1))
  | c => c
  end.

(** The loss ratio GenerateReports computes. *)
Definition app_loss (m_tx m_rx : Z) : double :=
  if (m_rx <=? m_tx) && (0 <? m_tx)
  then d_div (d_of_Z (u64 (m_tx - m_rx))) (d_of_Z m_tx) else d_zero.

(** *** OranReporterUeTxBuffer::AddSample: the latest sample of each logical channel *)
Definition AddSample (now : Z) (params : NrUeBufferStatus) (c : ReporterClass) : ReporterClass :=
  match c with
  | OranReporterUeTxBuffer m_samples =>
      OranReporterUeTxBuffer
        (smap_insert params.(bs_lcid)
           (mkBufferStatus now params.(bs_rnti) params.(bs_lcid) params.(txQueueSize)
              params.(txQueueHolDelay) params.(retxQueueSize) params.(retxQueueHolDelay)
              params.(statusPduSize)) m_samples)
  | c => c
  end.

(** *** OranReporterNrUeTxPdu::AddTxPdu: the bytes of each logical channel *)
Definition AddTxPdu (now rnti lcid bytes : Z) (c : ReporterClass) : ReporterClass :=
  match c with
  | OranReporterNrUeTxPdu m_samples =>
      OranReporterNrUeTxPdu
        (smap_update lcid Sample_zero
           (fun sample => mkSample now rnti lcid (u64 (sample.(s_bytes) + bytes))) m_samples)
  | c => c
  end.

(** *** OranReporterNrUeTxDrop::AddTxDrop: the bytes of each RNTI and logical channel *)
Definition AddTxDrop (now size rnti lcid : Z) (c : ReporterClass) : ReporterClass :=
  match c with
  | OranReporterNrUeTxDrop defaultRnti defaultLcid m_samples =>
      OranReporterNrUeTxDrop defaultRnti defaultLcid
        (smap_update (rnti, lcid) Sample_zero
           (fun sample => mkSample now rnti lcid (u64 (sample.(s_bytes) + size))) m_samples)
  | c => c
  end.

(** AddTxDrop (p): the RNTI and channel of the attributes *)
Definition AddTxDrop_default (now size : Z) (c : ReporterClass) : ReporterClass :=
  match c with
  | OranReporterNrUeTxDrop defaultRnti defaultLcid _ => AddTxDrop now size defaultRnti defaultLcid c
  | c => c
  end.

End samples.

Section reporters.
Context {Q : Type} `{EventQueue Q} `{Platform}.
Implicit Types (w : World Q).

Definition set_reporter (p : nat) (r : Reporter.OranReporter) w : World Q :=
  w <| reporters := <[p := r]> w.(reporters) |>.
Definition set_trigger (p : nat) (t : Trigger.OranReportTrigger) w : World Q :=
  w <| triggers := <[p := t]> w.(triggers) |>.

(** A trace callback that adds a sample to the reporter [p]. *)
Definition on_reporter (f : Z -> ReporterClass -> ReporterClass) (p : nat) w : res (World Q) :=
  let* r := deref p w.(reporters) in
  Ok (set_reporter p (r <| Reporter.class ::= f (now w) |>) w).

(** OranReporterNrUeCqi::ReportCqi *)
Definition ReportCqi (p : nat) (rnti cqi mcs ri : Z) w : res (World Q) :=
  let* r := deref p w.(reporters) in
  match r.(Reporter.class) with
  | OranReporterNrUeCqi m_reports =>
      if r.(Reporter.m_active) then
        let* t := deref_ptr r.(Reporter.m_terminator) w.(terminators) in
        let report := mkReport t.(Term.m_e2NodeId) (now w) (OranReportNrUeCqi rnti cqi mcs ri) in
        Ok (set_reporter p (r <| Reporter.class := OranReporterNrUeCqi (m_reports ++ [report]) |>) w)
      else Ok w
  | _ => Ok w
  end.

(** OranReporterNrUeRsrpRsrq::ReportRsrpRsrq *)
Definition ReportRsrpRsrq (p : nat) (rnti cellId : Z) (rsrp rsrq : double) (isServingCell : bool)
    (componentCarrierId : Z) w : res (World Q) :=
  let* r := deref p w.(reporters) in
  match r.(Reporter.class) with
  | OranReporterNrUeRsrpRsrq m_reports =>
      if r.(Reporter.m_active) then
        let* t := deref_ptr r.(Reporter.m_terminator) w.(terminators) in
        let report := mkReport t.(Term.m_e2NodeId) (now w)
          (OranReportNrUeRsrpRsrq rnti cellId rsrp rsrq isServingCell componentCarrierId) in
        Ok (set_reporter p (r <| Reporter.class := OranReporterNrUeRsrpRsrq (m_reports ++ [report]) |>) w)
      else Ok w
  | _ => Ok w
  end.

(** The first NrUeNetDevice of a node *)
Fixpoint find_ue_device (devices : list NetDevice) : res NrUeNetDevice :=
  match devices with
  | [] => Abort "Unable to find appropriate network device"
  | UeDevice d :: _ => Ok d
  | _ :: rest => find_ue_device rest
  end.

(** The node a reporter's terminator is attached to *)
Definition node_of (t : Term.E2NodeTerminator) w : res Node := deref_ptr t.(Term.m_node) w.(nodes).

(** GenerateReports of an active reporter whose terminator is [t]: the reports, and the
    samples that are left. *)
Definition generate_active (c : ReporterClass) (t : Term.E2NodeTerminator) w :
    res (list OranReport * ReporterClass) :=
  let id := t.(Term.m_e2NodeId) in
  match c with
  | OranReporterLocation =>
      let* n := node_of t w in
      match n.(mobility) with
      | Some pos => Ok ([mkReport id (now w) (OranReportLocation pos)], c)
      | None => Abort "null mobility"
      end
  | OranReporterNrUeCellInfo =>
      let* n := node_of t w in
      let* d := find_ue_device n.(devices) in
      Ok ([mkReport id (now w) (OranReportNrUeCellInfo d.(GetUeCellId) d.(GetUeRnti))], c)
  | OranReporterAppLoss m_tx m_rx =>
      Ok ([mkReport id (now w) (OranReportAppLoss (app_loss m_tx m_rx))], OranReporterAppLoss 0 0)
  | OranReporterUeTxBuffer m_samples =>
      Ok ((fun '(_, s) => mkReport id s.(bs_time)
             (OranReportUeTxBuffer s.(bs_rnti) s.(bs_lcid) s.(txQueueSize) s.(txQueueHolDelay)
                s.(retxQueueSize) s.(retxQueueHolDelay) s.(statusPduSize))) <$> m_samples,
          OranReporterUeTxBuffer [])
  | OranReporterNrUeCqi m_reports => Ok (m_reports, OranReporterNrUeCqi [])
  | OranReporterNrUeRsrpRsrq m_reports => Ok (m_reports, OranReporterNrUeRsrpRsrq [])
  | OranReporterNrUeTxPdu m_samples =>
      Ok ((fun '(_, s) => mkReport id s.(s_time) (OranReportNrUeTxPdu s.(s_rnti) s.(s_lcid) s.(s_bytes)))
            <$> m_samples, OranReporterNrUeTxPdu [])
  | OranReporterNrUeTxDrop dr dl m_samples =>
      Ok ((fun '(_, s) => mkReport id s.(s_time) (OranReportNrUeTxDrop s.(s_rnti) s.(s_lcid) s.(s_bytes)))
            <$> m_samples, OranReporterNrUeTxDrop dr dl [])
  end.

(** The virtual GenerateReports, which PerformReport calls when there is a terminator.  The
    values are of the width of the attributes they are assigned to, so no checker fails. *)
Definition GenerateReports (p : nat) w : res (list OranReport * World Q) :=
  let* r := deref p w.(reporters) in
  if r.(Reporter.m_active) then
    let* t := deref_ptr r.(Reporter.m_terminator) w.(terminators) in
    let* g := generate_active r.(Reporter.class) t w in
    Ok (g.1, set_reporter p (r <| Reporter.class := g.2 |>) w)
  else Ok ([], w).

(** OranNrE2NodeTerminator::StoreReport *)
Definition StoreReport (p : nat) (report : OranReport) w : res (World Q) :=
  let* t := deref p w.(terminators) in
  if t.(Term.m_active)
  then Ok (w <| terminators := <[p := t <| Term.m_reports ::= fun l => l ++ [report] |>]> w.(terminators) |>)
  else Ok w.

(** *** Triggers *)

(** OranReportTrigger::Activate *)
Definition TriggerActivate_base (p reporter : nat) w : res (World Q) :=
  let* t := deref p w.(triggers) in
  if t.(Trigger.m_active) then Ok w else
  let w := set_trigger p (t <| Trigger.m_active := true |> <| Trigger.m_reporter := Some reporter |>) w in
  let* r := deref reporter w.(reporters) in
  Ok (set_reporter reporter (r <| Reporter.m_trigger := Some p |>) w).

(** OranReportTrigger::Deactivate: the reporter loses its trigger. *)
Definition TriggerDeactivate_base (p : nat) w : res (World Q) :=
  let* t := deref p w.(triggers) in
  if t.(Trigger.m_active) then
    match t.(Trigger.m_reporter) with
    | None => Abort "Attempting to unlink from a NULL reporter."
    | Some reporter =>
        let* r := deref reporter w.(reporters) in
        let w := set_reporter reporter (r <| Reporter.m_trigger := None |>) w in
        Ok (set_trigger p (t <| Trigger.m_reporter := None |> <| Trigger.m_active := false |>) w)
    end
  else Ok w.

(** OranReportTriggerPeriodic::ScheduleNextTrigger *)
Definition ScheduleNextTrigger (p : nat) w : res (World Q) :=
  let* t := deref p w.(triggers) in
  match t.(Trigger.class) with
  | OranReportTriggerPeriodic _ rv =>
      let '(delay, rv) := GetValue rv in
      let* r := schedule (Seconds delay) (ev_TriggerReport p) w in
      let '(id, w) := r in
      Ok (set_trigger p (t <| Trigger.class := OranReportTriggerPeriodic id rv |>) w)
  | _ => Ok w
  end.

(** CancelNextTrigger *)
Definition CancelNextTrigger (p : nat) w : res (World Q) :=
  let* t := deref p w.(triggers) in
  match t.(Trigger.class) with
  | OranReportTriggerPeriodic id _ => Ok (cancel_pending id w)
  | _ => Ok w
  end.

(** Connects ([b = true]) or disconnects the trigger to the traces of the first UE device of
    the node; disconnecting removes every connection of the trigger. *)
Definition connect_sink (b : bool) (p : nat) (d : NrUeNetDevice) : NrUeNetDevice :=
  mkUeDev d.(GetImsi) d.(GetUeCellId) d.(GetUeRnti)
    (if b then d.(trace_sinks) ++ [p] else filter (fun q => q <> p) d.(trace_sinks)).

Fixpoint on_ue_device (f : NrUeNetDevice -> NrUeNetDevice) (l : list NetDevice) : res (list NetDevice) :=
  match l with
  | [] => Abort "Unable to find appropriate network device"
  | UeDevice d :: rest => Ok (UeDevice (f d) :: rest)
  | d :: rest => let* rest := on_ue_device f rest in Ok (d :: rest)
  end.

Definition connect (b : bool) (p : nat) (reporter : nat) w : res (World Q) :=
  let* r := deref reporter w.(reporters) in
  let* t := deref_ptr r.(Reporter.m_terminator) w.(terminators) in
  match t.(Term.m_node) with
  | None => Abort "null node"
  | Some n =>
      let* nd := deref n w.(nodes) in
      let* l := on_ue_device (connect_sink b p) nd.(devices) in
      Ok (w <| nodes := <[n := mkNode l nd.(mobility)]> w.(nodes) |>)
  end.

(** Activate of the trigger classes *)
Definition TriggerActivate (p reporter : nat) w : res (World Q) :=
  let* t := deref p w.(triggers) in
  let* w :=
    if t.(Trigger.m_active) then Ok w else
    match t.(Trigger.class) with
    | OranReportTriggerPeriodic _ _ => ScheduleNextTrigger p w
    | OranReportTriggerNrUeHandover => connect true p reporter w
    end in
  TriggerActivate_base p reporter w.

(** Deactivate of the trigger classes *)
Definition TriggerDeactivate (p : nat) w : res (World Q) :=
  let* t := deref p w.(triggers) in
  let* w :=
    if t.(Trigger.m_active) then
      match t.(Trigger.class), t.(Trigger.m_reporter) with
      | OranReportTriggerPeriodic _ _, _ => CancelNextTrigger p w
      | OranReportTriggerNrUeHandover, Some reporter => connect false p reporter w
      | OranReportTriggerNrUeHandover, None => Abort "null m_reporter"
      end
    else Ok w in
  TriggerDeactivate_base p w.

(** *** OranReporter *)

Definition ReporterDeactivate (p : nat) w : res (World Q) :=
  let* r := deref p w.(reporters) in
  if r.(Reporter.m_active) then
    match r.(Reporter.m_trigger) with
    | None => Abort "null m_trigger"
    | Some t =>
        let* w := TriggerDeactivate t w in
        let* r := deref p w.(reporters) in
        Ok (set_reporter p (r <| Reporter.m_active := false |>) w)
    end
  else Ok w.

Definition ReporterActivate (p : nat) w : res (World Q) :=
  let* r := deref p w.(reporters) in
  match r.(Reporter.m_active), r.(Reporter.m_terminator), r.(Reporter.m_trigger) with
  | false, Some _, Some t =>
      let w := set_reporter p (r <| Reporter.m_active := true |>) w in TriggerActivate t p w
  | _, _, _ => ReporterDeactivate p w
  end.

(** OranReporter::PerformReport *)
Definition PerformReport (p : nat) w : res (World Q) :=
  let* r := deref p w.(reporters) in
  if r.(Reporter.m_active) then
    match r.(Reporter.m_terminator) with
    | None => ReporterDeactivate p w
    | Some t =>
        let* g := GenerateReports p w in
        res_fold (StoreReport t) g.1 g.2
    end
  else Ok w.

(** OranReportTrigger::TriggerReport and OranReportTriggerPeriodic::TriggerReport *)
Definition TriggerReport (p : nat) w : res (World Q) :=
  let* t := deref p w.(triggers) in
  let* w := if t.(Trigger.m_active) then ScheduleNextTrigger p w else Ok w in
  match t.(Trigger.m_reporter) with
  | None => Abort "Attempting to trigger a report with a NULL reporter."
  | Some reporter => PerformReport reporter w
  end.

(** HandoverCompleteSink and ConnectionEstablishedSink *)
Definition HandoverSink (p : nat) w : res (World Q) := TriggerReport p w.

Definition TriggerNotifyRegistrationComplete (p : nat) w : res (World Q) :=
  let* t := deref p w.(triggers) in
  if t.(Trigger.m_active) && t.(Trigger.m_initialReport) then TriggerReport p w else Ok w.

(** OranReporter::NotifyRegistrationComplete *)
Definition ReporterNotifyRegistrationComplete (p : nat) w : res (World Q) :=
  let* r := deref p w.(reporters) in
  match r.(Reporter.m_trigger) with
  | None => Abort "Attempting to notify successfull registration to NULL trigger."
  | Some t => TriggerNotifyRegistrationComplete t w
  end.

End reporters.
