(* ===== verification/E2Node.v ===== *)
(** The node side of the E2 interface: src/oran/model/oran-e2-node-terminator.cc, its wired,
    NR UE and NR gNB classes and oran-e2-node-terminator-container.cc. *)
From Stdlib Require Import ZArith Lia.
From stdpp Require Import base list gmap strings.
From S2P Require Import Prelude OrdMap EventQueue Simulator Messages Repository World RicE2Term Reporters.
Open Scope Z_scope.
Section node.
Context {Q : Type} `{EventQueue Q} `{Platform}.
Implicit Types (w : World Q).

(** The constructors of the three classes, with the default attributes *)
Definition new_terminator (type : NodeType) : Term.E2NodeTerminator :=
  Term.mkTerm type false 0 false [] (ConstantRandomVariable (d_of_Z 1))
    (ConstantRandomVariable (d_of_Z 1)) (ConstantRandomVariable d_zero) None 0 []
    EventId_default EventId_default.

Definition set_terminator (p : nat) (t : Term.E2NodeTerminator) w : World Q :=
  w <| terminators := <[p := t]> w.(terminators) |>.

Definition update_terminator (p : nat) (f : Term.E2NodeTerminator -> Term.E2NodeTerminator) w : res (World Q) :=
  let* t := deref p w.(terminators) in Ok (set_terminator p (f t) w).

(** Schedules a method of the RIC side after a delay drawn from m_transmissionDelayRv. *)
Definition transmit (p : nat) (e : OranEvent) w : res (World Q) :=
  let* t := deref p w.(terminators) in
  let '(delay, rv) := GetValue t.(Term.m_transmissionDelayRv) in
  let* r := schedule (Seconds delay) e (set_terminator p (t <| Term.m_transmissionDelayRv := rv |>) w) in
  Ok r.2.

Definition CancelNextRegistration (p : nat) w : res (World Q) :=
  let* t := deref p w.(terminators) in
  Ok (cancel_pending t.(Term.m_registrationEvent) w).

Definition CancelNextSend (p : nat) w : res (World Q) :=
  let* t := deref p w.(terminators) in
  Ok (cancel_pending t.(Term.m_sendEvent) w).

Definition AddReporter (p reporter : nat) : World Q -> res (World Q) :=
  update_terminator p (fun t => t <| Term.m_reporters ::= fun l => l ++ [reporter] |>).

Definition Attach (p node : nat) (netDeviceIndex : Z) : World Q -> res (World Q) :=
  update_terminator p (fun t => t <| Term.m_node := Some node |> <| Term.m_netDeviceIndex := netDeviceIndex |>).

Definition Register (p : nat) w : res (World Q) :=
  let* t := deref p w.(terminators) in
  if t.(Term.m_active) then
    let* _ := abort_if (negb t.(Term.m_nearRtRic)) "Attempting to send a report to a null Near-RT RIC" in
    let* w := CancelNextRegistration p w in
    let* w := transmit p (ev_ReceiveRegistrationRequest t.(Term.type) t.(Term.m_e2NodeId) p) w in
    let* t := deref p w.(terminators) in
    let '(delay, rv) := GetValue t.(Term.m_registrationIntervalRv) in
    let w := set_terminator p (t <| Term.m_registrationIntervalRv := rv |>) w in
    let* r := schedule (Seconds delay) (ev_Register p) w in
    update_terminator p (fun t => t <| Term.m_registrationEvent := r.1 |>) r.2
  else Ok w.

Definition Deregister (p : nat) w : res (World Q) :=
  let* t := deref p w.(terminators) in
  let* _ := abort_if (negb t.(Term.m_nearRtRic)) "Attempting to deregister to NULL Near-RT RIC" in
  let* w := CancelNextRegistration p w in
  transmit p (ev_ReceiveDeregistrationRequest t.(Term.m_e2NodeId)) w.

Definition ScheduleNextSend (p : nat) w : res (World Q) :=
  let* t := deref p w.(terminators) in
  if t.(Term.m_active) then
    let '(delay, rv) := GetValue t.(Term.m_sendIntervalRv) in
    let w := set_terminator p (t <| Term.m_sendIntervalRv := rv |>) w in
    let* r := schedule (Seconds delay) (ev_DoSendReports p) w in
    update_terminator p (fun t => t <| Term.m_sendEvent := r.1 |>) r.2
  else Ok w.

Definition TermDeactivate (p : nat) w : res (World Q) :=
  let* t := deref p w.(terminators) in
  if t.(Term.m_active) then
    let* w := res_fold ReporterDeactivate t.(Term.m_reporters) w in
    let* w := CancelNextSend p w in
    let* w := Deregister p w in
    update_terminator p (fun t => t <| Term.m_active := false |>) w
  else Ok w.

Definition TermActivate (p : nat) w : res (World Q) :=
  let* t := deref p w.(terminators) in
  if negb t.(Term.m_nearRtRic) then
    TermDeactivate p (set_terminator p (t <| Term.m_active := false |>) w)
  else if t.(Term.m_active) then Ok w else
    let w := set_terminator p (t <| Term.m_active := true |> <| Term.m_reports := [] |>) w in
    let* w := Register p w in
    res_fold ReporterActivate t.(Term.m_reporters) w.

Definition ReceiveDeregistrationResponse (p : nat) (e2NodeId : Z) : World Q -> res (World Q) :=
  update_terminator p (fun t => t <| Term.m_e2NodeId := 0 |>).

Definition ReceiveRegistrationResponse (p : nat) (e2NodeId : Z) w : res (World Q) :=
  let* t := deref p w.(terminators) in
  if t.(Term.m_active) then
    let* w :=
      if t.(Term.m_e2NodeId) =? e2NodeId then Ok w else
      let w := set_terminator p (t <| Term.m_e2NodeId := e2NodeId |>) w in
      if 0 <? e2NodeId
      then res_fold ReporterNotifyRegistrationComplete t.(Term.m_reporters) w else Ok w in
    ScheduleNextSend p w
  else Ok w.

Definition DoSendReports (p : nat) w : res (World Q) :=
  let* t := deref p w.(terminators) in
  if t.(Term.m_active) then
    let* _ := abort_if (negb t.(Term.m_nearRtRic)) "Attempting to send a report to a null Near-RT RIC" in
    let* w := res_fold (fun r => transmit p (ev_ReceiveReport r)) t.(Term.m_reports) w in
    let* w := update_terminator p (fun t => t <| Term.m_reports := [] |>) w in
    ScheduleNextSend p w
  else Ok w.

(** OranE2NodeTerminatorNrGnb::ReceiveCommand on the device of the gNB *)
Definition gnb_command (command : OranCommand) (d : NrGnbNetDevice) : NrGnbNetDevice :=
  match command.(cmd_body) with
  | OranCommandNr2NrHandover targetCellId targetRnti =>
      mkGnbDev d.(GetGnbCellId) (d.(handoverRequests) ++ [(targetRnti, targetCellId)])
        d.(scheduler_targets)
  | OranCommandNrUlRbgTargets ulTargets =>
      match d.(scheduler_targets) with
      | None => d  (* "UL target scheduler not installed on gNB" *)
      | Some _ => mkGnbDev d.(GetGnbCellId) d.(handoverRequests) (Some ulTargets)
      end
  | OranCommandOther => d
  end.

(** The virtual ReceiveCommand of the three classes *)
Definition ReceiveCommand (p : nat) (command : OranCommand) w : res (World Q) :=
  let* t := deref p w.(terminators) in
  if t.(Term.m_active) then
    match t.(Term.type) with
    | NRGNB =>
        match command.(cmd_body) with
        | OranCommandOther => Ok w
        | _ =>
            let* g := GetNrNetDeviceGnb t w in
            match t.(Term.m_node) with
            | None => Abort "null node"
            | Some np =>
                let* n := deref np w.(nodes) in
                let l := <[Z.to_nat t.(Term.m_netDeviceIndex) := GnbDevice (gnb_command command g)]>
                           n.(devices) in
                Ok (w <| nodes := <[np := mkNode l n.(mobility)]> w.(nodes) |>)
            end
        end
    | NRUE | WIRED => Ok w
    end
  else Ok w.

(** DoDispose *)
Definition TermDoDispose (p : nat) w : res (World Q) :=
  let* w := CancelNextRegistration p w in
  let* w := CancelNextSend p w in
  update_terminator p (fun t => t <| Term.m_node := None |> <| Term.m_nearRtRic := false |>
    <| Term.m_reports := [] |> <| Term.m_reporters := [] |>) w.

(** OranE2NodeTerminatorContainer::Activate and Deactivate *)
Definition ContainerActivate (m_e2NodeTerminators : list nat) w : res (World Q) :=
  res_fold TermActivate m_e2NodeTerminators w.
Definition ContainerDeactivate (m_e2NodeTerminators : list nat) w : res (World Q) :=
  res_fold TermDeactivate m_e2NodeTerminators w.

(** OranE2NodeTerminatorContainer::Add *)
Definition ContainerAdd (terminator : nat) (m_e2NodeTerminators : list nat) : list nat :=
  m_e2NodeTerminators ++ [terminator].
Definition ContainerAddAll (other m_e2NodeTerminators : list nat) : list nat :=
  foldl (fun m t => ContainerAdd t m) m_e2NodeTerminators other.

End node.
