(* ===== verification/WorldExamples.v ===== *)
(** A small system, for the witnesses: a RIC with two logic modules that take no action, a
    gNB with one terminator, and a delay of 2 between the RIC and its nodes. *)
From Stdlib Require Import ZArith Lia SpecFloat.
From stdpp Require Import base list gmap strings pretty sorting.
From S2P Require Import Prelude OrdMap EventQueue Simulator Messages Repository RepositoryFacts World RlLm MoniLm.
From S2P Require Import LogicModule RicE2Term NearRtRic RicFacts Reporters E2Node.
Open Scope Z_scope.
#[export] Instance some_platform : Platform :=
  {| Seconds := fun v => default 0 (llround v); to_string_seconds := pretty |}.

#[export] Instance some_agent : RlAgent := {| PushObservation := fun _ => None |}.
#[export] Instance some_sort : StdSort :=
  {| sort_by_key := fun A time l => @merge_sort A (fun a b => time a <= time b) (fun a b => Z_le_dec (time a) (time b)) l |}.
#[export] Instance some_query_triggers : QueryTriggers := {| query_trigger := fun _ _ => false |}.

(** A repository in memory that has just been activated, and one with one node. *)
Definition active_repo : Repo :=
  mkRepo true ":memory:" (Some InitDb_new) InitDb_new [] [] [] [].
Definition gnb_repo : Repo :=
  match RegisterNodeNrGnb 0 1 0 active_repo with Ok (_, r) => r | Abort _ => active_repo end.

Definition delay_rv (d : Z) : RandomVariable := ConstantRandomVariable (d_of_Z d).

Definition example_lm (name : string) : Lm.OranLm :=
  Lm.mkLm true name false true EventId_default (delay_rv 1) 0 [] OranLmNoop.

Definition example_ric : Ric.NearRtRic :=
  Ric.mkRic true true true true (Some 0%nat) [("second", 1%nat)] 5 EventId_default EventId_default
    5 (delay_rv 5) 0 0 EventId_default SAVE [] [].

Definition gnb_terminator : Term.E2NodeTerminator :=
  Term.mkTerm NRGNB true 1 true [] (delay_rv 1) (delay_rv 1) (delay_rv 3) (Some 0%nat) 0 []
    EventId_default EventId_default.

Definition gnb_node : Node := mkNode [GnbDevice (mkGnbDev 1 [] (Some ∅))] (Some (mkVector d_zero d_zero d_zero)).

Definition example_world : World (list Event) :=
  mkWorld DefaultSimulatorImpl gnb_repo example_ric
    (E2T.mkE2T true true true [(1, Some 0%nat)] (delay_rv 2))
    (Cmm.mkCmm true true "CmmNoop" false)
    (<[0%nat := example_lm "first"]> {[1%nat := example_lm "second"]})
    {[0%nat := gnb_node]} {[0%nat := gnb_terminator]} ∅ ∅.

Lemma delay_rv_draws d n : Seconds (rv_draws (delay_rv d) n) = Seconds (d_of_Z d).
Proof. done. Qed.

Lemma example_plan : plan example_world [].
Proof. exists []. split; [apply kernel_inv_init|done]. Qed.

Lemma gnb_repo_ready : exists d, repo_ready 0 d gnb_repo.
Proof. eexists. split_and!; [done|reflexivity|]. repeat constructor; cbn; lia. Qed.

Lemma example_e2_delays : e2_delays 9 example_world.
Proof. intros n. change (0 <= Seconds (d_of_Z 2) <= 9). by vm_compute. Qed.
