(* ===== verification/RicProps.v ===== *)
(** The properties of the Near-RT RIC: the query cycle, late commands, inactivity, and the
    E2 interface it serves. *)
From Stdlib Require Import ZArith Lia.
From stdpp Require Import base list gmap strings sets.
From S2P Require Import Prelude OrdMap EventQueue HeapQueue Simulator Messages Repository RepositoryFacts World RlLm.
From S2P Require Import MoniLm LogicModule RicE2Term NearRtRic RicFacts WorldExamples.
Open Scope Z_scope.
Section ric_facts.
Context {Q : Type} `{EventQueueLaws Q} `{Platform}.
Implicit Types (w : World Q).

(** ** The reports of a cycle *)

(** The key under which the commands of a logic module are collected. *)
Definition lm_key (lm : nat) (l : Lm.OranLm) w : string * bool :=
  (l.(Lm.m_name), bool_decide (Some lm = w.(ric).(Ric.m_defaultLm))).

(** The keys of the default and of the additional logic modules *)
Definition expected_keys (default_name : string) w : list (string * bool) :=
  (default_name, true) :: ((fun entry => (entry.1, false)) <$> w.(ric).(Ric.m_additionalLms)).

(** What has been collected stays within the modules the RIC has. *)
Record collected_ok (default_name : string) w : Prop := {
  co_wf : smap_wf w.(ric).(Ric.m_lmQueryCommands);
  co_lms : smap_wf w.(ric).(Ric.m_additionalLms);
  co_keys : forall k, k ∈ w.(ric).(Ric.m_lmQueryCommands).*1 -> k ∈ expected_keys default_name w
}.

Definition set_collected (l : list ((string * bool) * list OranCommand)) w : World Q :=
  set_ric (w.(ric) <| Ric.m_lmQueryCommands := l |>) w.

Lemma set_collected_twice l l' w : set_collected l (set_collected l' w) = set_collected l w.
Proof. done. Qed.

Lemma expected_NoDup name w : smap_wf w.(ric).(Ric.m_additionalLms) -> NoDup (expected_keys name w).
Proof.
  intros W. apply NoDup_cons. split; [by intros (? & ? & _)%list_elem_of_fmap|].
  apply smap_wf_NoDup in W; [|apply _]. revert W. generalize (Ric.m_additionalLms (ric w)). clear.
  induction l as [|[a b] l IH]; [constructor|]. intros [N1 N2]%NoDup_cons.
  apply NoDup_cons. split; [|auto]. intros ([c d] & E & Hl)%list_elem_of_fmap. cbn in E.
  injection E as ->. apply N1. apply list_elem_of_fmap. by exists (c, d).
Qed.

(** The counter reaches the number of modules exactly when every key has been seen. *)
Lemma all_reported name w k v :
  collected_ok name w -> k ∈ expected_keys name w ->
  let l := smap_insert k v w.(ric).(Ric.m_lmQueryCommands) in
  (length l =? length w.(ric).(Ric.m_additionalLms) + 1)%nat = true <->
  forall k', k' ∈ expected_keys name w -> k' = k \/ k' ∈ w.(ric).(Ric.m_lmQueryCommands).*1.
Proof.
  intros [W L K] Hk l. pose proof (expected_NoDup name w L) as NE.
  assert (NoDup l.*1) as NL by (apply smap_wf_NoDup, smap_wf_insert; try apply _; done).
  assert (l.*1 ⊆+ expected_keys name w) as Sub.
  { apply NoDup_submseteq; [done|]. intros k' [->|Hk']%smap_insert_keys; auto. }
  assert (length l = length l.*1) as -> by (by rewrite length_fmap).
  assert (length w.(ric).(Ric.m_additionalLms) + 1 = length (expected_keys name w))%nat as ->.
  { unfold expected_keys. cbn. rewrite length_fmap. lia. }
  rewrite Nat.eqb_eq. split.
  - intros E k' Hk'. apply (smap_insert_keys k k' v). fold l.
    assert (l.*1 ≡ₚ expected_keys name w) as -> by (by apply submseteq_length_Permutation; [|lia]).
    done.
  - intros A. apply Nat.le_antisymm; [by apply submseteq_length|].
    apply submseteq_length, NoDup_submseteq; [done|]. intros k' Hk'. apply smap_insert_keys. auto.
Qed.

(** The two updates of NotifyLmFinished, on what has been collected *)
Definition reset_entry (key : string * bool) (l : list ((string * bool) * list OranCommand)) :=
  match smap_lookup key l with Some _ => smap_insert key [] l | None => l end.

Lemma append_commands_eq key commands w :
  let l := w.(ric).(Ric.m_lmQueryCommands) in
  append_commands key commands w
  = set_collected (smap_insert key (default [] (smap_lookup key l) ++ commands) l) w.
Proof. done. Qed.

Lemma append_reset key commands w l :
  append_commands key commands (set_collected (reset_entry key l) w)
  = set_collected (smap_insert key commands l) w.
Proof.
  rewrite append_commands_eq. change (Ric.m_lmQueryCommands (ric (set_collected (reset_entry key l) w)))
    with (reset_entry key l). rewrite set_collected_twice. f_equal. unfold reset_entry.
  destruct (smap_lookup key l) eqn:L.
  - by rewrite smap_lookup_insert_eq, smap_insert_insert.
  - by rewrite L.
Qed.

(** A report of the current cycle, before the modules that are left are counted *)
Lemma notify_current cycle commands lm l w :
  w.(lms) !! lm = Some l -> cycle = w.(ric).(Ric.m_lmQueryCycle) ->
  let key := lm_key lm l w in
  let collected := w.(ric).(Ric.m_lmQueryCommands) in
  let w' := set_collected
    (if collecting w then smap_insert key commands collected
     else match w.(ric).(Ric.m_lmQueryLateCommandPolicy) with
          | DROP => reset_entry key collected
          | SAVE => smap_insert key commands collected
          end) w in
  NotifyLmFinished cycle commands lm w =
    (if (length w'.(ric).(Ric.m_lmQueryCommands) =? length w.(ric).(Ric.m_additionalLms) + 1)%nat
        && collecting w
     then ProcessLmQueryCommands w' else Ok w').
Proof.
  intros El -> key collected w'. unfold NotifyLmFinished, deref. rewrite El. cbn [res_bind].
  fold (lm_key lm l w). fold key. fold collected.
  assert (match smap_lookup key collected with
    | Some _ => set_ric (w.(ric) <| Ric.m_lmQueryCommands ::= smap_insert key [] |>) w
    | None => w end = set_collected (reset_entry key collected) w) as ->.
  { unfold reset_entry. destruct (smap_lookup key collected); [done|]. destruct w as [? ? [] ? ? ? ? ? ? ?]. done. }
  set (w1 := set_collected (reset_entry key collected) w).
  change (Ric.m_lmQueryCycle (ric w1)) with (Ric.m_lmQueryCycle (ric w)).
  rewrite Z.eqb_refl. cbn [negb abort_if res_bind].
  change (collecting w1) with (collecting w).
  change (Ric.m_lmQueryLateCommandPolicy (ric w1)) with (Ric.m_lmQueryLateCommandPolicy (ric w)).
  subst w1. rewrite append_reset. subst w'.
  by destruct (collecting w) eqn:C, (Ric.m_lmQueryLateCommandPolicy (ric w));
    match goal with |- context [set_collected ?x w] => set (w2 := set_collected x w) end;
    change (collecting w2) with (collecting w); rewrite C.
Qed.

End ric_facts.

(** The RIC in operation: its modules are there and active, and the delays of its E2
    terminator leave room for [n] more events. *)
Record ric_ready {Q} `{EventQueueLaws Q} `{Platform} (D : Z) (n : nat) (w : World Q) : Prop := {
  rr_active : w.(ric).(Ric.m_active) = true;
  rr_e2 : w.(ric).(Ric.m_e2Terminator) = true;
  rr_data : w.(ric).(Ric.m_data) = true;
  rr_cmm : w.(ric).(Ric.m_cmm) = true;
  rr_e2_active : w.(e2t).(E2T.m_active) = true;
  rr_e2_data : w.(e2t).(E2T.m_data) = true;
  rr_e2_ric : w.(e2t).(E2T.m_nearRtRic) = true;
  rr_cmm_ric : w.(cmm).(Cmm.m_nearRtRic) = true;
  rr_repo : repo_sound w.(data);
  rr_delays : e2_delays D w;
  rr_room : room D n w.(sim)
}.

(** ** The query cycle *)

(** C8: in an open window the report of a logic module replaces what was collected for it,
    and the commands of the cycle are processed exactly when that was the last report: the
    count the code compares is right as long as the keys are those of the RIC's modules. *)
Theorem last_report_processes {Q} `{EventQueueLaws Q} `{Platform} (w : World Q)
    cycle commands lm l name :
  w.(lms) !! lm = Some l -> cycle = w.(ric).(Ric.m_lmQueryCycle) -> collecting w = true ->
  collected_ok name w -> lm_key lm l w ∈ expected_keys name w ->
  let collected := w.(ric).(Ric.m_lmQueryCommands) in
  let w' := set_collected (smap_insert (lm_key lm l w) commands collected) w in
  let last := forall k, k ∈ expected_keys name w -> k = lm_key lm l w \/ k ∈ collected.*1 in
  (last -> NotifyLmFinished cycle commands lm w = ProcessLmQueryCommands w') /\
  (~ last -> NotifyLmFinished cycle commands lm w = Ok w' /\ collected_ok name w').
Proof.
  intros El Ec C Co Hk collected w' lst.
  pose proof (all_reported name w (lm_key lm l w) commands Co Hk) as A. cbv zeta in A.
  fold collected in A. rewrite (notify_current cycle commands lm l w El Ec), C, andb_true_r.
  change (set_collected (smap_insert (lm_key lm l w) commands (Ric.m_lmQueryCommands (ric w))) w) with w'.
  change (Ric.m_lmQueryCommands (ric w')) with (smap_insert (lm_key lm l w) commands collected).
  split; intros L.
  - by rewrite (proj2 A L).
  - destruct (_ =? _)%nat; [by destruct (L (proj1 A eq_refl))|]. split; [done|].
    destruct Co as [W1 W2 K]. split; [by apply smap_wf_insert; [apply _|]|done|].
    cbn. intros k [->|Hin]%smap_insert_keys; [done|by apply K].
Qed.

Theorem last_report_processes_witness :
  let w := set_collected [(("first", true), [])] example_world in
  let c := mkCommand 1 (OranCommandNr2NrHandover 2 17) in
  NotifyLmFinished 0 [c] 1 w
  = ProcessLmQueryCommands (set_collected [(("first", true), []); (("second", false), [c])] w).
Proof.
  intros w c.
  apply (last_report_processes w 0 [c] 1 (example_lm "second") "first");
    [done|done|vm_compute; reflexivity| | |].
  - split; [by vm_compute|by vm_compute|]. by intros k [->|[]%elem_of_nil]%elem_of_cons; left.
  - right. left.
  - intros k [->|[->|[]%elem_of_nil]%elem_of_cons]%elem_of_cons; [right; left|by left].
Defined.

(** processing the collected commands sends every one of them, in the order of the keys
    and of each module's list, to the terminator of its target after the transmission delay;
    nothing else enters the plan, and the next cycle starts with nothing collected. *)
Theorem process_sends_all {Q} `{EventQueueLaws Q} `{Platform} (w : World Q) D p :
  let commands := mjoin w.(ric).(Ric.m_lmQueryCommands).*2 in
  let rv := w.(e2t).(E2T.m_transmissionDelayRv) in
  ric_ready D (length commands) w -> plan w p ->
  names w.(ric).(Ric.m_processLmQueryCommandsEvent) ev_ProcessLmQueryCommands w.(sim) ->
  exists w' p', ProcessLmQueryCommands w = Ok w' /\ w'.(ric).(Ric.m_lmQueryCommands) = [] /\
    p' `sublist_of` p /\
    filter (fun x => x.2 <> ev_ProcessLmQueryCommands) p' = filter (fun x => x.2 <> ev_ProcessLmQueryCommands) p /\
    plan w' (plan_draws (now w) rv (command_events commands w) p') /\
    forall d, (forall n, Seconds (rv.(rv_draws) n) = d) ->
      plan w' (plan_block (now w + d) (command_events commands w) p').
Proof.
  intros commands rv R P N. unfold ProcessLmQueryCommands. rewrite (rr_active _ _ _ R).
  destruct (cancel_pending_plan w p _ _ P N) as (p' & P' & Sub & Fl).
  destruct (cancel_pending_frame w.(ric).(Ric.m_processLmQueryCommandsEvent) w) as (s' & Ew & T & U & _ & _).
  rewrite Ew in P' |- *. set (w1 := w <| sim := s' |>) in *.
  change (ric w1) with (ric w). rewrite (rr_e2 _ _ _ R), (rr_cmm _ _ _ R). cbn [negb orb abort_if res_bind].
  destruct (Filter_ok w.(ric).(Ric.m_lmQueryCommands) w1) as (w2 & -> & K2 & S2 & E2);
    [apply (rr_cmm_ric _ _ _ R)|apply (rr_repo _ _ _ R)|].
  cbn [res_bind fst snd]. fold commands.
  assert (now w2 = now w) as Nw by (rewrite (ek_now _ _ K2); exact T).
  destruct (ProcessCommands_ok commands w2 p' D 0) as (w3 & -> & K3 & _ & P3).
  - rewrite E2. apply (rr_e2_active _ _ _ R).
  - rewrite E2. apply (rr_e2_data _ _ _ R).
  - apply (ek_repo _ _ K2), (rr_repo _ _ _ R).
  - unfold plan. by rewrite S2.
  - eapply e2_delays_keeps; [exact K2|]. apply (rr_delays _ _ _ R).
  - rewrite S2, Nat.add_0_r. destruct (rr_room _ _ _ R) as [R1 R2].
    change (sim w1) with s'. split; [by rewrite T|by rewrite U].
  - cbn [res_bind]. rewrite (command_events_keeps _ _ _ K2), Nw in P3.
    change (command_events commands w1) with (command_events commands w) in P3.
    rewrite E2 in P3. change (e2t w1) with (e2t w) in P3. fold rv in P3.
    eexists _, p'. split; [done|]. split; [done|]. split; [done|].
    split; [by apply (Fl (fun x => x.2 <> ev_ProcessLmQueryCommands)); intros t X|].
    split; [exact P3|]. intros d Hd.
    rewrite <- (plan_block_nil (sim w1) p' (now w + d)), plan_draws_block in P3 by done. exact P3.
Qed.

(** Two commands collected for the example *)
Definition two_collected : World (list Event) :=
  set_collected [(("first", true), [mkCommand 1 (OranCommandNr2NrHandover 2 17)]);
                 (("second", false), [mkCommand 5 OranCommandOther])] example_world.

Lemma two_collected_ready : ric_ready 9 2 two_collected.
Proof.
  split; try done.
  - destruct gnb_repo_ready as (d & Hd). by apply (repo_sound_ready 0 d).
Qed.

Theorem process_sends_all_witness :
  exists w' p', ProcessLmQueryCommands two_collected = Ok w' /\ w'.(ric).(Ric.m_lmQueryCommands) = [] /\
    p' `sublist_of` [] /\
    filter (fun x => x.2 <> ev_ProcessLmQueryCommands) p' = [] /\
    plan w' (plan_draws 0 (delay_rv 2)
      [ev_ReceiveCommand (Some 0%nat) (mkCommand 1 (OranCommandNr2NrHandover 2 17));
       ev_ReceiveCommand None (mkCommand 5 OranCommandOther)] p') /\
    forall d, (forall n, Seconds ((delay_rv 2).(rv_draws) n) = d) ->
      plan w' (plan_block (0 + d)
        [ev_ReceiveCommand (Some 0%nat) (mkCommand 1 (OranCommandNr2NrHandover 2 17));
         ev_ReceiveCommand None (mkCommand 5 OranCommandOther)] p').
Proof.
  apply (process_sends_all two_collected 9 []); [apply two_collected_ready|apply example_plan|].
  by intros q i Hq.
Defined.

(** commands saved after the window has closed are lost when their module reports again:
    the report of the next cycle replaces them instead of being added to them. *)
Theorem saved_commands_lost {Q} `{EventQueueLaws Q} `{Platform} (w w2 : World Q)
    lm l cycle late commands :
  w.(lms) !! lm = Some l -> collecting w = false -> w.(ric).(Ric.m_lmQueryLateCommandPolicy) = SAVE ->
  cycle = w.(ric).(Ric.m_lmQueryCycle) ->
  let key := lm_key lm l w in
  (exists w1, NotifyLmFinished cycle late lm w = Ok w1 /\
     smap_lookup key w1.(ric).(Ric.m_lmQueryCommands) = Some late /\
     (* the next cycle opens a window on what [w1] has collected *)
     (w2.(ric).(Ric.m_lmQueryCommands) = w1.(ric).(Ric.m_lmQueryCommands) ->
      w2.(lms) !! lm = Some l -> w2.(ric).(Ric.m_defaultLm) = w.(ric).(Ric.m_defaultLm) ->
      collecting w2 = true ->
      exists w3, smap_lookup key w3.(ric).(Ric.m_lmQueryCommands) = Some commands /\
        (NotifyLmFinished w2.(ric).(Ric.m_lmQueryCycle) commands lm w2 = Ok w3 \/
         NotifyLmFinished w2.(ric).(Ric.m_lmQueryCycle) commands lm w2 = ProcessLmQueryCommands w3))).
Proof.
  intros El C Sv Ec key. rewrite (notify_current cycle late lm l w El Ec), C, Sv, andb_false_r.
  eexists. split; [done|]. split; [apply smap_lookup_insert_eq|]. intros _ El2 Ed C2.
  rewrite (notify_current _ commands lm l w2 El2 eq_refl), C2, andb_true_r.
  assert (lm_key lm l w2 = key) as -> by (unfold key, lm_key; by rewrite Ed).
  exists (set_collected (smap_insert key commands w2.(ric).(Ric.m_lmQueryCommands)) w2).
  split; [apply smap_lookup_insert_eq|]. destruct (_ =? _)%nat; [by right|by left].
Qed.

(** The example with a wait of 9 and no window open, and a window open at time 0 *)
Definition closed_window : World (list Event) :=
  set_ric (example_ric <| Ric.m_lmQueryMaxWaitTime := 9 |>) example_world.
Definition next_window : World (list Event) :=
  set_collected [(("second", false), [mkCommand 5 OranCommandOther])] example_world.

Theorem saved_commands_lost_witness :
  exists w1, NotifyLmFinished 0 [mkCommand 5 OranCommandOther] 1 closed_window = Ok w1 /\
    smap_lookup ("second", false) w1.(ric).(Ric.m_lmQueryCommands) = Some [mkCommand 5 OranCommandOther] /\
    (next_window.(ric).(Ric.m_lmQueryCommands) = w1.(ric).(Ric.m_lmQueryCommands) ->
     next_window.(lms) !! 1%nat = Some (example_lm "second") ->
     next_window.(ric).(Ric.m_defaultLm) = closed_window.(ric).(Ric.m_defaultLm) ->
     collecting next_window = true ->
     exists w3, smap_lookup ("second", false) w3.(ric).(Ric.m_lmQueryCommands) = Some [] /\
       (NotifyLmFinished 0 [] 1 next_window = Ok w3 \/
        NotifyLmFinished 0 [] 1 next_window = ProcessLmQueryCommands w3)).
Proof.
  apply (saved_commands_lost closed_window next_window 1 (example_lm "second") 0
           [mkCommand 5 OranCommandOther] []); done || (vm_compute; reflexivity).
Defined.

(** ** Inactivity *)

(** C14: the inactivity check deregisters exactly the nodes whose last registration is older
    than the threshold, leaves every other node as it was, and plans the next check. *)
Theorem inactivity_deregisters {Q} `{EventQueueLaws Q} `{Platform} `{Sqlite} (w : World Q) D p d l :
  ric_ready D (length l + 1) w -> plan w p -> repo_ready (now w) d w.(data) ->
  draws_within D w.(ric).(Ric.m_e2NodeInactivityIntervalRv) ->
  GetLastRegistrationRequests w.(data) = Ok l ->
  exists w', CheckForInactivity w = Ok w' /\
    (forall e, fits 64 e -> IsNodeRegistered e w'.(data) =
       if bool_decide (e ∈ stale_ids w.(ric).(Ric.m_e2NodeInactivityThreshold) (now w) l)
       then Ok false else IsNodeRegistered e w.(data)) /\
    planned w'.(ric).(Ric.m_e2NodeInactivityEvent)
      (now w + Seconds (GetValue w.(ric).(Ric.m_e2NodeInactivityIntervalRv)).1) ev_CheckForInactivity w'.(sim).
Proof.
  intros R P Rd Dr G. destruct R.
  destruct (CheckForInactivity_ok w D p d l 0) as (w' & _ & _ & E & _ & _ & _ & G' & Pl & _); [done..|].
  by exists w'.
Qed.

(** The example 9 time units after the registration of its only node *)
Definition stale_world : World (list Event) :=
  example_world <| sim := mkSim [] false UID_VALID UID_INVALID 9 NO_CONTEXT 0 0 [] [] ∅ 0 |>.

Lemma stale_world_inv : kernel_inv stale_world.(sim) [].
Proof.
  split; [exact (repr_empty (EventQueueLaws := ListScheduler_laws))|..]; cbn; try done; try apply Forall_nil_2;
    try (unfold UID_VALID, UID_INVALID; lia).
  intros p [x Hx]. by rewrite lookup_empty in Hx.
Qed.

Theorem inactivity_deregisters_witness :
  exists w', @CheckForInactivity _ _ _ (engine true) stale_world = Ok w' /\
    (forall e, fits 64 e -> IsNodeRegistered e w'.(data) =
       if bool_decide (e ∈ stale_ids 5 9 [(1, 0)]) then Ok false
       else IsNodeRegistered e stale_world.(data)) /\
    planned w'.(ric).(Ric.m_e2NodeInactivityEvent) (9 + Seconds (d_of_Z 5)) ev_CheckForInactivity w'.(sim).
Proof.
  destruct gnb_repo_ready as (d & Hd).
  apply (@inactivity_deregisters _ _ _ _ (engine true) stale_world 9 [] d [(1, 0)]).
  - split; try done. by apply (repo_sound_ready 0 d).
  - exists []. split; [apply stale_world_inv|done].
  - destruct Hd as (A & B & U). split_and!; [done|done|]. by eapply upto_mono; [|exact U].
  - intros n. change (0 <= Seconds (d_of_Z 5) <= 9). by vm_compute.
  - vm_compute. reflexivity.
Defined.

(** ** The modules of the RIC *)

(** deactivating a logic module does not cancel the run it is in: the end of the run stays
    planned, and when it comes the module reports nothing. *)
Theorem deactivated_module_silent {Q} `{EventQueue Q} `{Platform} (w : World Q) p l :
  w.(lms) !! p = Some l -> pending l.(Lm.m_finishRunEvent) w = true ->
  exists w', LmDeactivate p w = Ok w' /\
    w'.(lms) !! p = Some (l <| Lm.m_active := false |>) /\ w'.(sim) = w.(sim) /\
    pending l.(Lm.m_finishRunEvent) w' = true /\ FinishRun p w' = Ok w'.
Proof.
  intros El Pe. unfold LmDeactivate, IsRunning, deref at 1. rewrite El. cbn [res_bind].
  set (l' := l <| Lm.m_active := false |>). set (w' := set_lm p l' w).
  assert (w'.(lms) !! p = Some l') as El' by exact (lookup_insert_eq _ _ _).
  exists w'. split; [|split; [done|split; [done|split; [exact Pe|]]]].
  - unfold deref. rewrite El'. cbn [res_bind]. change (pending (Lm.m_finishRunEvent l') w') with
      (pending (Lm.m_finishRunEvent l) w). rewrite Pe. unfold CancelRun, deref. by rewrite El'.
  - unfold FinishRun, deref. by rewrite El'.
Qed.

(** The example in the middle of a run of module 0 *)
Definition running_world : World (list Event) :=
  match schedule 4 (ev_FinishRun 0) example_world with
  | Ok (id, w) => set_lm 0 ((example_lm "first") <| Lm.m_finishRunEvent := id |>) w
  | Abort _ => example_world
  end.

Theorem deactivated_module_silent_witness :
  exists l w', LmDeactivate 0 running_world = Ok w' /\
    w'.(lms) !! 0%nat = Some (l <| Lm.m_active := false |>) /\ w'.(sim) = running_world.(sim) /\
    pending l.(Lm.m_finishRunEvent) w' = true /\ FinishRun 0 w' = Ok w'.
Proof.
  eexists. apply (deactivated_module_silent running_world 0%nat); [reflexivity|vm_compute; reflexivity].
Defined.

(** The additional logic modules are kept under distinct names: a module is added exactly
    when its name is free, can then be looked up, leaves the others alone, and removing it
    restores the modules there were. *)
Theorem module_names {Q} `{EventQueue Q} (w : World Q) p l :
  w.(lms) !! p = Some l -> smap_wf w.(ric).(Ric.m_additionalLms) ->
  let name := l.(Lm.m_name) in
  (GetAdditionalLogicModule name w = None ->
   exists w', AddLogicModule p w = Ok (ADDLM_OK, w') /\ GetAdditionalLogicModule name w' = Some p /\
     smap_wf w'.(ric).(Ric.m_additionalLms) /\
     (forall name', name' <> name -> GetAdditionalLogicModule name' w' = GetAdditionalLogicModule name' w) /\
     exists w'', RemoveLogicModule name w' = (DELLM_OK, w'') /\
       forall name', GetAdditionalLogicModule name' w'' = GetAdditionalLogicModule name' w) /\
  (is_Some (GetAdditionalLogicModule name w) -> AddLogicModule p w = Ok (ADDLM_ERR_NAME_EXISTS, w)).
Proof.
  intros El W name. unfold AddLogicModule, GetAdditionalLogicModule, deref. rewrite El. cbn [res_bind]. fold name.
  split.
  - intros N. rewrite N. eexists. split; [reflexivity|].
    set (w' := set_ric _ w).
    assert (Ric.m_additionalLms (ric w') = smap_insert name p w.(ric).(Ric.m_additionalLms)) as -> by done.
    split; [apply smap_lookup_insert_eq|]. split; [by apply smap_wf_insert; [apply _|]|].
    split; [intros n' Nn; by apply smap_lookup_insert_ne|]. unfold RemoveLogicModule.
    assert (Ric.m_additionalLms (ric w') = smap_insert name p w.(ric).(Ric.m_additionalLms)) as -> by done.
    rewrite smap_lookup_insert_eq. eexists. split; [reflexivity|]. intros n'.
    change (smap_lookup n' (smap_erase name (smap_insert name p w.(ric).(Ric.m_additionalLms)))
            = smap_lookup n' w.(ric).(Ric.m_additionalLms)).
    destruct (decide (name = n')) as [<-|Ne]; [by rewrite smap_lookup_erase_eq, N|].
    by rewrite smap_lookup_erase_ne, smap_lookup_insert_ne.
  - intros [q ->]. done.
Qed.

Theorem module_names_witness :
  (GetAdditionalLogicModule "first" example_world = None ->
   exists w', AddLogicModule 0 example_world = Ok (ADDLM_OK, w') /\
     GetAdditionalLogicModule "first" w' = Some 0%nat /\
     smap_wf w'.(ric).(Ric.m_additionalLms) /\
     (forall name', name' <> "first" ->
        GetAdditionalLogicModule name' w' = GetAdditionalLogicModule name' example_world) /\
     exists w'', RemoveLogicModule "first" w' = (DELLM_OK, w'') /\
       forall name', GetAdditionalLogicModule name' w'' = GetAdditionalLogicModule name' example_world) /\
  (is_Some (GetAdditionalLogicModule "first" example_world) ->
   AddLogicModule 0 example_world = Ok (ADDLM_ERR_NAME_EXISTS, example_world)).
Proof. apply (module_names example_world 0%nat (example_lm "first")); [reflexivity|by repeat constructor]. Defined.
