(* ===== verification/QueryProps.v ===== *)
(** The query cycle of the Near-RT RIC starts every logic module. *)
From Stdlib Require Import ZArith Lia.
From stdpp Require Import base list gmap strings sets.
From S2P Require Import Prelude OrdMap EventQueue Simulator Messages Repository RepositoryFacts World RlLm RlLmProps.
From S2P Require Import MoniLm LogicModule RicFacts RicE2Term NearRtRic WorldExamples RicProps.
Open Scope Z_scope.
Section query.
Context {Q : Type} `{EventQueueLaws Q} `{Platform} `{Sqlite} `{RlAgent} `{CppImplLaws} `{StdSort}.
Implicit Types (w : World Q).

(** A logic module the RIC can run: attached to it, with delays that fit, and with a
    finish-run id, if it has one, that the kernel has handed out. *)
Definition lm_ready (D : Z) w (p : nat) (l : Lm.OranLm) : Prop :=
  w.(lms) !! p = Some l /\ l.(Lm.m_nearRtRic) = true /\ lm_delays D l /\
  id_valid l.(Lm.m_finishRunEvent) w.(sim).

(** The modules in the order QueryLms runs them *)
Definition modules w : list nat :=
  option_list w.(ric).(Ric.m_defaultLm) ++ w.(ric).(Ric.m_additionalLms).*2.

Lemma restart_all L : forall w pl N D n,
  NoDup L -> (forall p, p ∈ L -> exists l, lm_ready D w p l /\ ~ made_after N l.(Lm.m_finishRunEvent)) ->
  (N <= w.(sim).(next_impl))%nat -> repo_sound w.(data) -> plan w pl -> room D (length L + n) w.(sim) ->
  exists w' pl', res_fold restart_lm L w = Ok w' /\ w'.(ric) = w.(ric) /\ now w' = now w /\
    plan w' pl' /\ room D n w'.(sim) /\
    (forall p, p ∉ L -> w'.(lms) !! p = w.(lms) !! p) /\
    (forall id t e, made_after N id -> planned id t e w.(sim) -> planned id t e w'.(sim)) /\
    forall p l, p ∈ L -> w.(lms) !! p = Some l -> exists l', w'.(lms) !! p = Some l' /\
      l'.(Lm.m_active) = l.(Lm.m_active) /\
      started p (Seconds (run_delay l)) w.(ric).(Ric.m_lmQueryCycle) l' w'.
Proof.
  induction L as [|p L IH]; intros w pl N D n ND Rd Nx S P R.
  { exists w, pl. split_and!; try done. by intros p l []%elem_of_nil. }
  apply NoDup_cons in ND as [Np ND]. destruct (Rd p) as (l & (El & Er & De & V) & NN); [by left|].
  destruct (restart_lm_ok p l w pl N D (length L + n)) as (l1 & w1 & pl1 & E1 & F1 & P1 & R1 & El1 & Ea1 & Mk & St & K1);
    [done..|]. cbn [res_fold]. rewrite E1. cbn [res_bind].
  destruct (IH w1 pl1 N D n) as (w2 & pl2 & E2 & Er2 & T2 & P2 & R2 & O2 & K2 & G2); [done| | | |done|done|].
  { intros p' Hp'. destruct (Rd p') as (l' & (El' & Er' & De' & V') & NN'); [by right|].
    exists l'. split; [|done]. split; [rewrite (lf_lms _ _ _ F1); [done|by intros ->]|].
    split; [done|]. split; [done|]. unfold id_valid in *.
    destruct (m_eventImpl (Lm.m_finishRunEvent l')); [by apply (lf_store _ _ _ F1)|done]. }
  { pose proof (lf_next _ _ _ F1). lia. }
  { by apply (lf_repo _ _ _ F1). }
  exists w2, pl2. split; [done|]. split; [by rewrite Er2, (lf_ric _ _ _ F1)|].
  split; [by rewrite T2, (lf_now _ _ _ F1)|]. split; [done|]. split; [done|]. split.
  { intros p' Hp'. apply not_elem_of_cons in Hp' as [Ne Hp'].
    by rewrite O2, (lf_lms _ _ _ F1) by done. }
  split; [intros id t e M Pl; by apply K2, K1|].
  intros p' l' [->|Hp']%elem_of_cons El'.
  - rewrite El in El'. injection El' as <-. exists l1. rewrite O2 by done. split; [done|]. split; [done|].
    intros Ea. destruct (St Ea) as [Cy Pl]. split; [done|]. rewrite T2. rewrite Ea1 in Ea. apply K2; [by apply Mk|exact Pl].
  - rewrite (lf_ric _ _ _ F1) in G2. apply G2; [done|]. rewrite (lf_lms _ _ _ F1); [done|]. by intros ->.
Qed.

Lemma for_additional_fold f l w : for_additional f l w = res_fold f l.*2 w.
Proof. revert w. induction l as [|[a b] l IH]; intros w; cbn; [done|]. destruct (f b w); cbn; [apply IH|done]. Qed.

(** The window for the commands of the cycle *)
Lemma open_window_ok w pl D n :
  plan w pl -> room D (S n) w.(sim) -> 0 <= w.(ric).(Ric.m_lmQueryMaxWaitTime) <= D ->
  exists w' pl',
    (if 0 <? w.(ric).(Ric.m_lmQueryMaxWaitTime) then
       let* r := schedule w.(ric).(Ric.m_lmQueryMaxWaitTime) ev_ProcessLmQueryCommands w in
       Ok (set_ric (r.2.(ric) <| Ric.m_processLmQueryCommandsEvent := r.1 |>) r.2)
     else Ok w) = Ok w' /\
    (exists id, w'.(ric) = w.(ric) <| Ric.m_processLmQueryCommandsEvent := id |>) /\
    w'.(lms) = w.(lms) /\ w'.(data) = w.(data) /\ now w' = now w /\ plan w' pl' /\ room D n w'.(sim) /\
    (forall q, is_Some (w.(sim).(impls) !! q) -> is_Some (w'.(sim).(impls) !! q)) /\
    (w.(sim).(next_impl) <= w'.(sim).(next_impl))%nat /\
    (0 < w.(ric).(Ric.m_lmQueryMaxWaitTime) ->
     made_after w.(sim).(next_impl) w'.(ric).(Ric.m_processLmQueryCommandsEvent) /\
     planned w'.(ric).(Ric.m_processLmQueryCommandsEvent)
       (now w + w.(ric).(Ric.m_lmQueryMaxWaitTime)) ev_ProcessLmQueryCommands w'.(sim)).
Proof.
  intros P R Wt. destruct (Z.ltb_spec 0 (Ric.m_lmQueryMaxWaitTime (ric w))) as [L|L].
  - destruct (schedule_plan w pl D n (Ric.m_lmQueryMaxWaitTime (ric w)) ev_ProcessLmQueryCommands P R Wt)
      as (id & s' & -> & St & P' & R'). cbn [res_bind fst snd].
    do 2 eexists. split; [reflexivity|]. split; [by eexists|]. do 2 (split; [done|]).
    split; [exact (st_now _ _ _ _ _ St)|]. split; [exact P'|]. split; [exact R'|].
    split; [exact (st_store _ _ _ _ _ St)|]. pose proof (st_next _ _ _ _ _ St) as Nx.
    split; [change (next_impl (sim w) <= next_impl s')%nat; lia|]. intros _.
    split; [eexists; split; [exact (st_fresh _ _ _ _ _ St)|done]|exact (st_planned _ _ _ _ _ St)].
  - exists w, pl. split; [done|]. split; [exists w.(ric).(Ric.m_processLmQueryCommandsEvent); by destruct (ric w)|].
    do 4 (split; [done|]). split; [destruct R; split; [done|lia]|]. do 2 (split; [done|]). lia.
Qed.

(** The runs of a cycle, and the next query *)
Lemma run_modules_ok w pl lm0 N D :
  let L := w.(ric).(Ric.m_additionalLms).*2 in
  NoDup (lm0 :: L) ->
  (forall q, q ∈ lm0 :: L -> exists m, lm_ready D w q m /\ ~ made_after N m.(Lm.m_finishRunEvent)) ->
  (N <= w.(sim).(next_impl))%nat -> repo_sound w.(data) -> plan w pl -> room D (length L + 2) w.(sim) ->
  0 <= w.(ric).(Ric.m_lmQueryInterval) <= D ->
  exists w' id,
    (let* w := restart_lm lm0 w in
     let* w := for_additional restart_lm w.(ric).(Ric.m_additionalLms) w in
     schedule_query w) = Ok w' /\
    w'.(ric) = w.(ric) <| Ric.m_lmQueryEvent := id |> /\ now w' = now w /\
    planned id (now w + w.(ric).(Ric.m_lmQueryInterval)) ev_QueryLms w'.(sim) /\
    (forall id t e, made_after N id -> planned id t e w.(sim) -> planned id t e w'.(sim)) /\
    forall q m, q ∈ lm0 :: L -> w.(lms) !! q = Some m -> exists m', w'.(lms) !! q = Some m' /\
      m'.(Lm.m_active) = m.(Lm.m_active) /\
      started q (Seconds (run_delay m)) w.(ric).(Ric.m_lmQueryCycle) m' w'.
Proof.
  intros L ND Rd Nx S P R Qi.
  destruct (Rd lm0) as (m0 & (Hm0 & Hr0 & Hd0 & Hv0) & Hn0); [by left|].
  destruct (restart_lm_ok lm0 m0 w pl N D (length L + 1)) as (_ & w1 & _ & E1 & F1 & _); try done.
  { destruct R. split; [done|lia]. }
  destruct (restart_all (lm0 :: L) w pl N D 1) as (w2 & p2 & E2 & Er2 & T2 & P2 & Rm2 & _ & K2 & G2); try done.
  { destruct R. split; [done|cbn; lia]. }
  cbn [res_fold] in E2. rewrite E1 in E2 |- *. cbn [res_bind] in E2 |- *.
  rewrite for_additional_fold, (lf_ric _ _ _ F1). fold L. rewrite E2. cbn [res_bind]. unfold schedule_query.
  destruct (schedule_plan w2 p2 D 0 (Ric.m_lmQueryInterval (ric w2)) ev_QueryLms)
    as (id & s' & -> & St & P5 & _); [done|done|by rewrite Er2|].
  cbn [res_bind fst snd]. eexists _, id. split; [reflexivity|]. rewrite <- Er2, <- T2.
  split; [done|]. split; [exact (st_now _ _ _ _ _ St)|]. split; [exact (st_planned _ _ _ _ _ St)|].
  assert (forall id t e, planned id t e (sim w2) -> planned id t e s') as K5.
  { destruct P2 as (k & I & _). intros id' t e.
    exact (planned_scheduled _ _ _ _ _ _ _ _ (inv_fresh _ _ I) St). }
  split; [intros id' t e Mk Pl; by apply K5, K2|]. intros q m Hq Em.
  destruct (G2 q m Hq Em) as (m' & Em' & Ea & Sd). exists m'. split; [exact Em'|]. split; [done|].
  intros Act. destruct (Sd Act) as [Cy Pl]. rewrite Er2. split; [done|].
  change (now _) with (m_currentTs s'). rewrite (st_now _ _ _ _ _ St). by apply K5.
Qed.

End query.

(** C7: a query of the logic modules dates the cycle with the current time, starts a run of
    every active module for that cycle (cancelling a run that has not finished), plans the
    end of each run after the delay of its module and the next query after the query
    interval. *)
Theorem query_starts_modules {Q} `{EventQueueLaws Q} `{Platform} `{Sqlite} `{RlAgent} `{CppImplLaws}
    `{StdSort} (w : World Q) D p d l lm0 :
  ric_ready D (length l + length (modules w) + 3) w -> plan w p -> repo_ready (now w) d w.(data) ->
  draws_within D w.(ric).(Ric.m_e2NodeInactivityIntervalRv) ->
  GetLastRegistrationRequests w.(data) = Ok l ->
  w.(ric).(Ric.m_defaultLm) = Some lm0 -> NoDup (modules w) ->
  (forall q, q ∈ modules w -> exists m, lm_ready D w q m) ->
  0 <= w.(ric).(Ric.m_lmQueryInterval) <= D -> 0 <= w.(ric).(Ric.m_lmQueryMaxWaitTime) <= D ->
  exists w', QueryLms w = Ok w' /\ now w' = now w /\ w'.(ric).(Ric.m_lmQueryCycle) = now w /\
    planned w'.(ric).(Ric.m_lmQueryEvent) (now w + w.(ric).(Ric.m_lmQueryInterval)) ev_QueryLms w'.(sim) /\
    (0 < w.(ric).(Ric.m_lmQueryMaxWaitTime) ->
     planned w'.(ric).(Ric.m_processLmQueryCommandsEvent)
       (now w + w.(ric).(Ric.m_lmQueryMaxWaitTime)) ev_ProcessLmQueryCommands w'.(sim)) /\
    forall q m, q ∈ modules w -> w.(lms) !! q = Some m -> exists m', w'.(lms) !! q = Some m' /\
      m'.(Lm.m_active) = m.(Lm.m_active) /\ started q (Seconds (run_delay m)) (now w) m' w'.
Proof.
  intros R P Rd Dr G Ed ND Lr Qi Wt. destruct R. unfold QueryLms, check_modules.
  rewrite rr_active, rr_e2, Ed, rr_cmm, rr_data. cbn [negb abort_if res_bind].
  set (w1 := set_ric (w.(ric) <| Ric.m_lmQueryCycle := now w |>) w).
  destruct (CheckForInactivity_ok w1 D p d l (length (modules w) + 2))
    as (w2 & d2 & p2 & E2 & R2 & P2 & Rm2 & _ & _ & (id & rv & Er2) & T2 & El2 & Ec2 & St2 & Nx2); try done.
  { destruct rr_room as [A B]. split; [exact A|]. change (sim w1) with (sim w). lia. }
  rewrite E2. cbn [res_bind].
  assert (repo_sound (data w2)) as S2 by (by eapply repo_sound_ready).
  set (N := next_impl (sim w)).
  change (ric w1) with (w.(ric) <| Ric.m_lmQueryCycle := now w |>) in Er2.
  change (now w1) with (now w) in T2. change (lms w1) with (lms w) in El2.
  change (sim w1) with (sim w) in St2, Nx2.
  (* the end of the window *)
  destruct (open_window_ok w2 p2 D (length (modules w) + 1)) as (w3 & p3 & -> & Er3 & El3 & Ed3 & T3 & P3 & Rm3 & St3 & Nx3 & Pw);
    [done|by rewrite Nat.add_succ_r in Rm2|by rewrite Er2|].
  cbn [res_bind].
  (* the runs *)
  destruct Er3 as (id3 & Er3). rewrite Er2 in Er3.
  assert (Ric.m_additionalLms (ric w3) = Ric.m_additionalLms (ric w)) as Ea by (by rewrite Er3).
  assert (modules w = lm0 :: w.(ric).(Ric.m_additionalLms).*2) as Em by (unfold modules; by rewrite Ed).
  rewrite <- Ea in Em. rewrite Em in *.
  destruct (run_modules_ok w3 p3 lm0 N D) as (w4 & idq & -> & Er4 & T4 & Pq & K4 & G4); [done| | |by rewrite Ed3|done| | |].
  - intros q Hq. destruct (Lr q Hq) as (m & Hm & Hr & Hd & Hv). exists m. split.
    + split; [by rewrite El3, El2|]. split; [done|]. split; [done|]. unfold id_valid in *.
      destruct (m_eventImpl (Lm.m_finishRunEvent m)); [by apply St3, St2|done].
    + intros (i & Hi & Ni). unfold id_valid in Hv. rewrite Hi in Hv.
      destruct P as (k & I & _). apply (inv_fresh _ _ I) in Hv. unfold N in Ni. lia.
  - unfold N. lia.
  - destruct Rm3. split; [done|cbn in *; lia].
  - by rewrite Er3.
  - exists w4. split; [done|]. rewrite T4, T3, T2. rewrite Er4, Er3. split; [done|]. split; [done|].
    rewrite Er3, T3, T2 in Pq. split; [exact Pq|]. split.
    + intros Wp. rewrite Er2 in Pw. destruct (Pw Wp) as [(i & Hi & Mk) Pl]. rewrite T2 in Pl.
      rewrite Er3 in Hi, Pl. apply K4; [exists i; split; [done|unfold N; lia]|exact Pl].
    + intros q m Hq Em'. rewrite Er3 in G4. destruct (G4 q m Hq) as (m' & Em4 & Ea4 & St4); [by rewrite El3, El2|].
      exists m'. by split_and!.
Qed.

(** The example in a cycle of 9 with a window *)
Definition query_world : World (list Event) :=
  set_ric (example_ric <| Ric.m_lmQueryMaxWaitTime := 4 |>) example_world.

Theorem query_starts_modules_witness :
  let sq := engine true in let cpp := some_cpp in
  exists w', QueryLms query_world = Ok w' /\ now w' = 0 /\ w'.(ric).(Ric.m_lmQueryCycle) = 0 /\
    planned w'.(ric).(Ric.m_lmQueryEvent) (0 + 5) ev_QueryLms w'.(sim) /\
    (0 < 4 -> planned w'.(ric).(Ric.m_processLmQueryCommandsEvent) (0 + 4) ev_ProcessLmQueryCommands w'.(sim)) /\
    forall q m, q ∈ [0%nat; 1%nat] -> query_world.(lms) !! q = Some m -> exists m', w'.(lms) !! q = Some m' /\
      m'.(Lm.m_active) = m.(Lm.m_active) /\ started q (Seconds (run_delay m)) 0 m' w'.
Proof.
  intros sq cpp. destruct gnb_repo_ready as (d & Hd).
  apply (query_starts_modules (H5 := some_cpp_laws) query_world 9 [] d [(1, 0)] 0%nat).
  - split; try done. by apply (repo_sound_ready 0 d).
  - apply example_plan.
  - exact Hd.
  - intros n. change (0 <= Seconds (d_of_Z 5) <= 9). by vm_compute.
  - vm_compute. reflexivity.
  - done.
  - vm_compute. repeat constructor; set_solver.
  - intros q [->|[->|[]%elem_of_nil]%elem_of_cons]%elem_of_cons; eexists; (split; [reflexivity|]);
      split_and!; try done; by vm_compute.
  - by vm_compute.
  - by vm_compute.
Defined.
