(* ===== verification/E2Props.v ===== *)
(** The E2 interface end to end: registration, reports and commands. *)
From Stdlib Require Import ZArith Lia.
From stdpp Require Import base list gmap strings sets.
From S2P Require Import Prelude OrdMap EventQueue Simulator Messages Repository RepositoryFacts World RlLm RlLmProps.
From S2P Require Import MoniLm LogicModule RicE2Term NearRtRic RicFacts Reporters E2Node WorldExamples RicProps.
Open Scope Z_scope.
(** ** Registration *)

(** The device a terminator of the given type asks for its identifiers *)
Definition device_ready {Q} (type : NodeType) (t : Term.E2NodeTerminator) (w : World Q) : Prop :=
  match type with
  | NRUE => t.(Term.type) = NRUE /\ exists ue, GetNrNetDeviceUe t w = Ok (UeDevice ue)
  | NRGNB => t.(Term.type) = NRGNB /\ exists g, GetNrNetDeviceGnb t w = Ok g
  | WIRED => True
  end.

Lemma register_in_data_ok {Q} (w : World Q) type id p t d :
  w.(terminators) !! p = Some t -> device_ready type t w -> repo_ready (now w) d w.(data) ->
  exists e d', register_in_data type id p w = Ok (e, w <| data := set_db (Some d') w.(data) |>) /\
    fits 64 e /\ repo_ready (now w) d' (set_db (Some d') w.(data)) /\
    registers (now w) w.(data) e true (set_db (Some d') w.(data)).
Proof.
  intros Et Dv R. unfold register_in_data, deref. rewrite Et. cbn [res_bind].
  destruct type; cbn in Dv.
  - destruct (RegisterNode_ok (now w) d (data w) WIRED id R) as (e & d' & -> & R' & N & _ & _ & Ee & _).
    cbn [res_bind fst snd]. exists e, d'. split; [done|].
    assert (fits 64 e) by (rewrite Ee; apply wrap_fits; lia). split; [done|]. split; [done|].
    by apply (registers_inserted _ d).
  - destruct Dv as (T & ue & Dv). rewrite bool_decide_true, Dv by done. cbn [res_bind].
    destruct (RegisterNodeNrUe_ok (now w) d (data w) id (GetImsi ue) R) as (e & d' & -> & R' & N & _ & Ee).
    cbn [res_bind fst snd]. exists e, d'. split; [done|].
    assert (fits 64 e) by (rewrite Ee; apply wrap_fits; lia). split; [done|]. split; [done|].
    by apply (registers_inserted _ d).
  - destruct Dv as (T & g & Dv). rewrite bool_decide_true, Dv by done. cbn [res_bind].
    destruct (RegisterNodeNrGnb_ok (now w) d (data w) id (GetGnbCellId g) R) as (e & d' & -> & R' & N & _ & Ee).
    cbn [res_bind fst snd]. exists e, d'. split; [done|].
    assert (fits 64 e) by (rewrite Ee; apply wrap_fits; lia). split; [done|]. split; [done|].
    by apply (registers_inserted _ d).
Qed.

(** C15: a registration request makes exactly the node it is answered with registered, lets the
    RIC address that node through the requesting terminator, and plans the answer after the
    transmission delay. *)
Theorem registration_answered {Q} `{EventQueueLaws Q} `{Platform} (w : World Q) D p d type id term t :
  ric_ready D 1 w -> plan w p -> repo_ready (now w) d w.(data) ->
  w.(terminators) !! term = Some t -> device_ready type t w ->
  exists e w', ReceiveRegistrationRequest type id term w = Ok w' /\
    registers (now w) w.(data) e true w'.(data) /\ terminator_at e w' = Some term /\
    (forall e', e' <> e -> terminator_at e' w' = terminator_at e' w) /\
    plan w' (plan_insert (now w + Seconds (GetValue w.(e2t).(E2T.m_transmissionDelayRv)).1)
               (ev_ReceiveRegistrationResponse (Some term) e) p).
Proof.
  intros R P Rd Et Dv. unfold ReceiveRegistrationRequest.
  rewrite (rr_e2_active _ _ _ R), (rr_e2_data _ _ _ R). cbn [negb abort_if res_bind].
  destruct (register_in_data_ok w type id term t d Et Dv Rd) as (e & d' & -> & F & R' & Rg).
  cbn [res_bind]. set (w1 := set_e2t _ _).
  destruct (schedule_e2_ok w1 p D 0 (ev_ReceiveRegistrationResponse (Some term) e))
    as (w2 & -> & K & _ & P2 & _ & Ed); [exact P|exact (rr_delays _ _ _ R)|exact (rr_room _ _ _ R)|].
  exists e, w2. split; [done|]. split; [by rewrite Ed|]. split.
  - rewrite (ek_terminators _ _ K). unfold terminator_at, w1. cbn. by rewrite smap_lookup_insert_eq.
  - split; [|exact P2]. intros e' Ne. rewrite (ek_terminators _ _ K). unfold terminator_at, w1. cbn.
    by rewrite smap_lookup_insert_ne by congruence.
Qed.

Lemma example_ready n : Z.of_nat n < 100 -> ric_ready 9 n example_world.
Proof.
  intros Hn. destruct gnb_repo_ready as (d & Hd).
  split; try done; [by apply (repo_sound_ready 0 d)|]. split; [done|]. cbn. unfold UID_VALID. lia.
Qed.

Theorem registration_answered_witness :
  exists e w', ReceiveRegistrationRequest NRGNB 0 0 example_world = Ok w' /\
    registers 0 gnb_repo e true w'.(data) /\ terminator_at e w' = Some 0%nat /\
    (forall e', e' <> e -> terminator_at e' w' = terminator_at e' example_world) /\
    plan w' (plan_insert (0 + Seconds (d_of_Z 2)) (ev_ReceiveRegistrationResponse (Some 0%nat) e) []).
Proof.
  destruct gnb_repo_ready as (d & Hd).
  apply (registration_answered example_world 9 [] d NRGNB 0 0%nat gnb_terminator);
    [by apply example_ready|apply example_plan|exact Hd|done|].
  split; [done|]. eexists. reflexivity.
Defined.

(** ** Reports *)

(** The buffer status of a report, as the repository stores it *)
Definition report_status (t rnti lcid txQ txHol retxQ retxHol pdu : Z) : NrUeBufferStatus :=
  mkBufferStatus t rnti lcid txQ txHol retxQ retxHol pdu.

(** C16: a buffer report of a registered node that no query trigger fires on is stored and
    read back unchanged, after the samples that were there; other nodes' samples stay as
    they are and nothing is planned. *)
Theorem buffer_report_roundtrip {Q} `{EventQueueLaws Q} `{Platform} `{Sqlite} `{RlAgent} `{CppImpl}
    `{StdSort} `{QueryTriggers} (w : World Q) d e s old :
  let report := mkReport e s.(bs_time)
    (OranReportUeTxBuffer s.(bs_rnti) s.(bs_lcid) s.(txQueueSize) s.(txQueueHolDelay)
       s.(retxQueueSize) s.(retxQueueHolDelay) s.(statusPduSize)) in
  w.(e2t).(E2T.m_active) = true -> w.(e2t).(E2T.m_data) = true -> w.(e2t).(E2T.m_nearRtRic) = true ->
  existsb (fun qtrigger => query_trigger qtrigger.2 report) w.(ric).(Ric.m_queryTriggers) = false ->
  repo_ready (now w) d w.(data) -> IsNodeRegistered e w.(data) = Ok true -> fits 64 e ->
  buffer_status_fits s ->
  table_ok (fun row => bs_time row.(buf_status)) s.(bs_time) d.(nruetxbuffer) ->
  GetNrUeBufferStatus e w.(data) = Ok old ->
  exists data', ReceiveReport report w = Ok (w <| data := data' |>) /\
    GetNrUeBufferStatus e data' = Ok (old ++ [s]) /\
    forall e', fits 64 e' -> e' <> e -> GetNrUeBufferStatus e' data' = GetNrUeBufferStatus e' w.(data).
Proof.
  intros report A Dt Nr Tr R Rg F Fs T G. unfold ReceiveReport, on_data.
  rewrite A, Dt. cbn [negb abort_if res_bind].
  assert (save_report report w.(data) = SaveNrUeBufferStatus e s w.(data)) as -> by (by destruct s).
  destruct (buffer_status_saved (now w) d (data w) e s old R Rg F Fs T G) as (r' & -> & G1 & G2).
  cbn [res_bind]. exists r'. split; [|done].
  change (E2T.m_nearRtRic (e2t (w <| data := r' |>))) with (E2T.m_nearRtRic (e2t w)). rewrite Nr.
  cbn [negb abort_if res_bind]. unfold NotifyReportReceived.
  change (Ric.m_queryTriggers (ric (w <| data := r' |>))) with (Ric.m_queryTriggers (ric w)). by rewrite Tr.
Qed.

Theorem buffer_report_roundtrip_witness :
  let sq := engine true in let cpp := some_cpp in
  exists data', ReceiveReport (mkReport 1 9 (OranReportUeTxBuffer 3 4 1000 5 0 0 2)) example_world
      = Ok (example_world <| data := data' |>) /\
    GetNrUeBufferStatus 1 data' = Ok ([] ++ [mkBufferStatus 9 3 4 1000 5 0 0 2]) /\
    forall e', fits 64 e' -> e' <> 1 -> GetNrUeBufferStatus e' data' = GetNrUeBufferStatus e' gnb_repo.
Proof.
  intros sq cpp.
  apply (buffer_report_roundtrip example_world
    (match m_db gnb_repo with Some d => d | None => InitDb_new end) 1 (mkBufferStatus 9 3 4 1000 5 0 0 2) []);
    try done; try (vm_compute; reflexivity).
  - split_and!; [done|done|]. repeat constructor; cbn; lia.
  - split; [constructor|apply NoDup_nil_2].
Defined.
