(* ===== verification/NodeProps.v ===== *)
(** The properties of the node side: sending reports, the registration answers, reporters
    and their triggers. *)
From Stdlib Require Import ZArith Lia.
From stdpp Require Import base list gmap strings sets.
From S2P Require Import Prelude OrdMap EventQueue Simulator Messages Repository RepositoryFacts World RicE2Term.
From S2P Require Import Reporters E2Node RicFacts WorldExamples.
Open Scope Z_scope.
Section sending.
Context {Q : Type} `{EventQueueLaws Q} `{Platform}.
Implicit Types (w : World Q).

(** What sending from terminator [p] does to it: only its streams, ids and reports change. *)
Definition sender_of (t t' : Term.E2NodeTerminator) : Prop :=
  t'.(Term.m_active) = t.(Term.m_active) /\ t'.(Term.m_e2NodeId) = t.(Term.m_e2NodeId) /\
  t'.(Term.m_nearRtRic) = t.(Term.m_nearRtRic) /\ t'.(Term.m_reporters) = t.(Term.m_reporters) /\
  t'.(Term.m_sendIntervalRv).(rv_draws) = t.(Term.m_sendIntervalRv).(rv_draws).

Lemma set_terminator_lookup p t w : (set_terminator p t w).(terminators) !! p = Some t.
Proof. exact (lookup_insert_eq _ _ _). Qed.

Lemma transmit_ok w p t pl D n e :
  w.(terminators) !! p = Some t -> draws_within D t.(Term.m_transmissionDelayRv) ->
  plan w pl -> room D (S n) w.(sim) ->
  let rv := t.(Term.m_transmissionDelayRv) in
  exists s', transmit p e w
      = Ok (set_terminator p (t <| Term.m_transmissionDelayRv := (GetValue rv).2 |>) w <| sim := s' |>) /\
    sim_plan s' (plan_insert (now w + Seconds (GetValue rv).1) e pl) /\ room D n s' /\
    s'.(m_currentTs) = now w.
Proof.
  intros Et Dr P R rv. unfold transmit, deref. rewrite Et. cbn [res_bind]. fold rv. cbn [GetValue].
  set (w1 := set_terminator p _ w).
  destruct (schedule_plan w1 pl D n (Seconds (rv_draws rv (rv_count rv))) e P R (Dr _)) as (id & s' & -> & St & P' & R').
  cbn [res_bind snd]. exists s'. split; [done|]. split; [exact P'|]. split; [exact R'|].
  exact (st_now _ _ _ _ _ St).
Qed.

Lemma transmit_all rs : forall w p t pl D n,
  w.(terminators) !! p = Some t -> draws_within D t.(Term.m_transmissionDelayRv) ->
  plan w pl -> room D (length rs + n) w.(sim) ->
  exists w' t', res_fold (fun r => transmit p (ev_ReceiveReport r)) rs w = Ok w' /\
    w'.(terminators) !! p = Some t' /\ sender_of t t' /\ t'.(Term.m_sendIntervalRv) = t.(Term.m_sendIntervalRv) /\
    now w' = now w /\ room D n w'.(sim) /\
    plan w' (plan_draws (now w) t.(Term.m_transmissionDelayRv) (ev_ReceiveReport <$> rs) pl).
Proof.
  induction rs as [|r rs IH]; intros w p t pl D n Et Dr P R; cbn [res_fold].
  { exists w, t. by split_and!. }
  destruct (transmit_ok w p t pl D (length rs + n) (ev_ReceiveReport r) Et Dr P R) as (s' & -> & P1 & R1 & T1).
  cbn [res_bind]. set (t1 := t <| Term.m_transmissionDelayRv := _ |>). set (w1 := set_terminator p t1 w <| sim := s' |>).
  destruct (IH w1 p t1 (plan_insert (now w + Seconds (GetValue t.(Term.m_transmissionDelayRv)).1) (ev_ReceiveReport r) pl) D n)
    as (w2 & t2 & -> & Et2 & Sd & Sr & T2 & R2 & P2); [apply set_terminator_lookup|exact Dr|exact P1|exact R1|].
  exists w2, t2. split; [done|]. split; [done|]. split; [exact Sd|]. split; [exact Sr|].
  change (now w1) with (m_currentTs s') in T2, P2. rewrite T1 in T2, P2. split; [done|]. by split.
Qed.

Lemma ScheduleNextSend_ok w p t pl D n :
  w.(terminators) !! p = Some t -> t.(Term.m_active) = true -> draws_within D t.(Term.m_sendIntervalRv) ->
  plan w pl -> room D (S n) w.(sim) ->
  exists w' t', ScheduleNextSend p w = Ok w' /\ w'.(terminators) !! p = Some t' /\ sender_of t t' /\
    t'.(Term.m_reports) = t.(Term.m_reports) /\ now w' = now w /\ room D n w'.(sim) /\
    plan w' (plan_insert (now w + Seconds (GetValue t.(Term.m_sendIntervalRv)).1) (ev_DoSendReports p) pl).
Proof.
  intros Et Ea Dr P R. unfold ScheduleNextSend. unfold deref at 1. rewrite Et. cbn [res_bind]. rewrite Ea.
  cbn [GetValue fst snd]. set (w1 := set_terminator p _ w).
  destruct (schedule_plan w1 pl D n (Seconds (rv_draws t.(Term.m_sendIntervalRv) (rv_count t.(Term.m_sendIntervalRv))))
    (ev_DoSendReports p) P R (Dr _)) as (id & s' & -> & St & P' & R').
  cbn [res_bind fst snd]. unfold update_terminator, deref.
  change (terminators (w1 <| sim := s' |>)) with (terminators w1). unfold w1 at 1.
  rewrite set_terminator_lookup. cbn [res_bind].
  eexists _, _. split; [reflexivity|]. split; [apply set_terminator_lookup|]. split; [done|]. split; [done|].
  split; [exact (st_now _ _ _ _ _ St)|]. split; [exact R'|exact P'].
Qed.

End sending.

(** a terminator sends every report it has stored, in the order they were stored, each
    after its own transmission delay, keeps none of them, and plans its next sending. *)
Theorem reports_sent_in_order {Q} `{EventQueueLaws Q} `{Platform} (w : World Q) p t pl D :
  w.(terminators) !! p = Some t -> t.(Term.m_active) = true -> t.(Term.m_nearRtRic) = true ->
  draws_within D t.(Term.m_transmissionDelayRv) -> draws_within D t.(Term.m_sendIntervalRv) ->
  plan w pl -> room D (length t.(Term.m_reports) + 1) w.(sim) ->
  let sends := ev_ReceiveReport <$> t.(Term.m_reports) in
  let next := plan_insert (now w + Seconds (GetValue t.(Term.m_sendIntervalRv)).1) (ev_DoSendReports p) in
  exists w' t', DoSendReports p w = Ok w' /\ w'.(terminators) !! p = Some t' /\ t'.(Term.m_reports) = [] /\
    plan w' (next (plan_draws (now w) t.(Term.m_transmissionDelayRv) sends pl)) /\
    forall d, (forall n, Seconds (t.(Term.m_transmissionDelayRv).(rv_draws) n) = d) ->
      plan w' (next (plan_block (now w + d) sends pl)).
Proof.
  intros Et Ea Er Dr Ds P R sends next. unfold DoSendReports. unfold deref at 1. rewrite Et. cbn [res_bind].
  rewrite Ea, Er. cbn [negb abort_if res_bind].
  destruct (transmit_all t.(Term.m_reports) w p t pl D 1 Et Dr P R) as (w1 & t1 & -> & Et1 & Sd1 & Sr1 & T1 & R1 & P1).
  cbn [res_bind]. unfold update_terminator, deref. rewrite Et1. cbn [res_bind].
  set (t2 := t1 <| Term.m_reports := [] |>). set (w2 := set_terminator p t2 w1).
  destruct (ScheduleNextSend_ok w2 p t2 (plan_draws (now w) t.(Term.m_transmissionDelayRv) sends pl) D 0)
    as (w3 & t3 & -> & Et3 & _ & Rs & T3 & _ & P3).
  - apply set_terminator_lookup.
  - destruct Sd1 as (A & _). change (Term.m_active t2) with (Term.m_active t1). by rewrite A.
  - change (Term.m_sendIntervalRv t2) with (Term.m_sendIntervalRv t1). by rewrite Sr1.
  - exact P1.
  - exact R1.
  - exists w3, t3. split; [done|]. split; [done|]. split; [by rewrite Rs|].
    change (Term.m_sendIntervalRv t2) with (Term.m_sendIntervalRv t1) in P3. rewrite Sr1 in P3.
    change (now w2) with (now w1) in P3. rewrite T1 in P3. split; [exact P3|]. intros d Hd.
    rewrite <- (plan_block_nil (sim w) pl (now w + d)), plan_draws_block in P3 by done. exact P3.
Qed.

(** The gNB of the example with two reports to send *)
Definition two_reports : list OranReport :=
  [mkReport 1 0 (OranReportNrUeTxPdu 3 4 100); mkReport 1 0 (OranReportNrUeTxDrop 3 4 7)].
Definition busy_terminator : Term.E2NodeTerminator :=
  Term.mkTerm NRGNB true 1 true [] (delay_rv 1) (delay_rv 1) (delay_rv 3) (Some 0%nat) 0 two_reports
    EventId_default EventId_default.
Definition busy_world : World (list Event) := set_terminator 0 busy_terminator example_world.

Lemma delay_within d : 0 <= Seconds (d_of_Z d) <= 9 -> draws_within 9 (delay_rv d).
Proof. by intros Hd n. Qed.

Lemma example_room n : Z.of_nat n < 100 -> room 9 n example_world.(sim).
Proof. intros Hn. split; [done|]. cbn. unfold UID_VALID. lia. Qed.

Theorem reports_sent_in_order_witness :
  let sends := ev_ReceiveReport <$> two_reports in
  let next := plan_insert (now busy_world + Seconds (GetValue (delay_rv 1)).1) (ev_DoSendReports 0) in
  exists w' t', DoSendReports 0 busy_world = Ok w' /\ w'.(terminators) !! 0%nat = Some t' /\
    t'.(Term.m_reports) = [] /\
    plan w' (next (plan_draws (now busy_world) (delay_rv 3) sends [])) /\
    forall d, (forall n, Seconds ((delay_rv 3).(rv_draws) n) = d) ->
      plan w' (next (plan_block (now busy_world + d) sends [])).
Proof.
  apply (reports_sent_in_order busy_world 0%nat busy_terminator [] 9).
  - reflexivity.
  - reflexivity.
  - reflexivity.
  - apply delay_within. by vm_compute.
  - apply delay_within. by vm_compute.
  - exact example_plan.
  - by apply (example_room 3).
Defined.

(** ** Registration answers *)

(** How many sendings of terminator [p] are to come *)
Definition sends_planned (p : nat) (pl : list (Z * OranEvent)) : nat :=
  length (filter (fun x => x.2 = ev_DoSendReports p) pl).

Lemma sends_planned_insert p t pl :
  sends_planned p (plan_insert t (ev_DoSendReports p) pl) = S (sends_planned p pl).
Proof.
  unfold sends_planned, plan_insert. rewrite filter_app, filter_cons_True by done.
  rewrite length_app. cbn [length]. induction pl as [|x pl IH]; [done|]. rewrite !filter_cons.
  destruct (decide (x.1 <= t)); [rewrite (decide_False (P := t < x.1)) by lia|rewrite (decide_True (P := t < x.1)) by lia];
    rewrite ?filter_cons; repeat case_decide; cbn [length]; lia.
Qed.

(** every answer to a registration starts one more chain of sendings: the terminator
    registers again at each interval, the RIC answers, and after [k] answers that confirm
    its id, [k] more sendings are planned than before, with none cancelled. *)
Theorem send_chains_multiply {Q} `{EventQueueLaws Q} `{Platform} k : forall (w : World Q) p t pl D,
  w.(terminators) !! p = Some t -> t.(Term.m_active) = true ->
  draws_within D t.(Term.m_sendIntervalRv) -> plan w pl -> room D k w.(sim) ->
  exists w' pl', res_fold (fun id => ReceiveRegistrationResponse p id) (replicate k t.(Term.m_e2NodeId)) w = Ok w' /\
    plan w' pl' /\ sends_planned p pl' = (k + sends_planned p pl)%nat /\ now w' = now w.
Proof.
  induction k as [|k IH]; intros w p t pl D Et Ea Dr P R; cbn [replicate res_fold]; [by exists w, pl|].
  unfold ReceiveRegistrationResponse at 1. unfold deref. rewrite Et. cbn [res_bind]. rewrite Ea, Z.eqb_refl.
  cbn [res_bind].
  destruct (ScheduleNextSend_ok w p t pl D k Et Ea Dr P R) as (w1 & t1 & -> & Et1 & Sd & _ & T1 & R1 & P1).
  destruct Sd as (A1 & I1 & _ & _ & D1). cbn [res_bind].
  set (pl1 := plan_insert _ _ _) in P1.
  destruct (IH w1 p t1 pl1 D Et1) as (w2 & pl2 & E2 & P2 & C2 & T2); [by rewrite A1| |exact P1|exact R1|].
  { intros n. rewrite D1. apply Dr. }
  rewrite I1 in E2. exists w2, pl2. split; [exact E2|]. split; [done|]. rewrite C2. unfold pl1. rewrite sends_planned_insert.
  split; [lia|]. by rewrite T2.
Qed.

Theorem send_chains_multiply_witness :
  exists w' pl', res_fold (fun id => ReceiveRegistrationResponse 0 id) [1; 1; 1] example_world = Ok w' /\
    plan w' pl' /\ sends_planned 0 pl' = 3%nat /\ now w' = 0.
Proof.
  apply (send_chains_multiply 3 example_world 0%nat gnb_terminator [] 9);
    [done|done|by apply delay_within; vm_compute|apply example_plan|by apply example_room].
Defined.

(** ** Reporters that are switched off *)

(** A reporter with a periodic trigger, both active and linked *)
Definition reporting {Q} (w : World Q) (p tp : nat) : Prop :=
  exists r tr id rv, w.(reporters) !! p = Some r /\ r.(Reporter.m_active) = true /\
    r.(Reporter.m_trigger) = Some tp /\ w.(triggers) !! tp = Some tr /\ tr.(Trigger.m_active) = true /\
    tr.(Trigger.m_reporter) = Some p /\ tr.(Trigger.class) = OranReportTriggerPeriodic id rv.

Section no_trigger.
Context {Q : Type} `{EventQueue Q} `{Platform}.
Implicit Types (w : World Q).

Definition no_trigger (p : nat) w : Prop :=
  exists r, w.(reporters) !! p = Some r /\ r.(Reporter.m_trigger) = None.

Lemma no_trigger_ext p w w' : w'.(reporters) = w.(reporters) -> no_trigger p w -> no_trigger p w'.
Proof. unfold no_trigger. by intros ->. Qed.

Lemma no_trigger_set p q r r' w :
  w.(reporters) !! q = Some r -> (r.(Reporter.m_trigger) = None -> r'.(Reporter.m_trigger) = None) ->
  no_trigger p w -> no_trigger p (set_reporter q r' w).
Proof.
  intros Eq Tr (x & Hx & Tx). unfold no_trigger.
  change (reporters (set_reporter q r' w)) with (<[q := r']> w.(reporters)).
  destruct (decide (q = p)) as [->|Ne].
  - rewrite lookup_insert_eq. exists r'. split; [done|]. apply Tr. congruence.
  - rewrite lookup_insert_ne by done. by exists x.
Qed.

Lemma deref_Ok {A} p (m : gmap nat A) a : deref p m = Ok a -> m !! p = Some a.
Proof. unfold deref. destruct (m !! p); congruence. Qed.

Lemma schedule_reporters d e w r : schedule d e w = Ok r -> r.2.(reporters) = w.(reporters).
Proof. unfold schedule. intros E. inv_res. done. Qed.

Lemma ScheduleNextTrigger_reporters p w w' :
  ScheduleNextTrigger p w = Ok w' -> w'.(reporters) = w.(reporters).
Proof.
  unfold ScheduleNextTrigger. intros E. destruct (deref p (triggers w)) as [t|]; [|done]. cbn in E.
  destruct (Trigger.class t) as [id rv|]; [|by inv_res]. cbn in E.
  destruct (schedule _ _ w) as [[id1 w1]|] eqn:S; [|done]. cbn in E.
  apply schedule_reporters in S. inv_res. exact S.
Qed.

Lemma cancel_pending_reporters id w : (cancel_pending id w).(reporters) = w.(reporters).
Proof. unfold cancel_pending. by destruct (pending id w). Qed.

Lemma TriggerDeactivate_no_trigger p tp w w' :
  TriggerDeactivate tp w = Ok w' -> no_trigger p w -> no_trigger p w'.
Proof.
  unfold TriggerDeactivate. intros E N. destruct (deref tp (triggers w)) as [t|]; [|done]. cbn in E.
  match type of E with res_bind ?m _ = _ => destruct m as [w1|] eqn:E1; [|done] end. cbn in E.
  assert (reporters w1 = reporters w) as Er.
  { destruct (Trigger.m_active t); [|by inv_res]. destruct (Trigger.class t) as [id rv|].
    - unfold CancelNextTrigger in E1. destruct (deref tp (triggers w)) as [t'|]; [|done]. cbn in E1.
      destruct (Trigger.class t'); inv_res; [apply cancel_pending_reporters|done].
    - destruct (Trigger.m_reporter t) as [q|]; [|done]. unfold connect in E1.
      destruct (deref q (reporters w)); [|done]. cbn in E1. destruct (deref_ptr _ _) as [t'|]; [|done]. cbn in E1.
      destruct (Term.m_node t') as [n|]; [|done]. inv_res. done. }
  apply (no_trigger_ext p w w1 Er) in N. clear E1 Er. unfold TriggerDeactivate_base in E.
  destruct (deref tp (triggers w1)) as [t1|]; [|done]. cbn in E. destruct (Trigger.m_active t1); [|by inv_res].
  destruct (Trigger.m_reporter t1) as [q|]; [|done].
  destruct (deref q (reporters w1)) as [r|] eqn:Hr; [|done]. apply deref_Ok in Hr. cbn in E. inv_res.
  eapply (no_trigger_ext p (set_reporter q (r <| Reporter.m_trigger := None |>) w1)); [done|].
  by apply (no_trigger_set p q r).
Qed.

Lemma ReporterDeactivate_no_trigger p q w w' :
  ReporterDeactivate q w = Ok w' -> no_trigger p w -> no_trigger p w'.
Proof.
  unfold ReporterDeactivate. intros E N. destruct (deref q (reporters w)) as [r|]; [|done]. cbn in E.
  destruct (Reporter.m_active r); [|by inv_res]. destruct (Reporter.m_trigger r) as [tp|]; [|done].
  destruct (TriggerDeactivate tp w) as [w1|] eqn:E1; [|done]. cbn in E.
  apply (TriggerDeactivate_no_trigger p) in E1; [|done].
  destruct (deref q (reporters w1)) as [r1|] eqn:Hr; [|done]. apply deref_Ok in Hr. cbn in E. inv_res.
  by apply (no_trigger_set p q r1).
Qed.

Lemma StoreReports_reporters t l : forall w w', res_fold (StoreReport t) l w = Ok w' -> w'.(reporters) = w.(reporters).
Proof.
  induction l as [|r l IH]; intros w w' E; cbn in E; [by inv_res|].
  destruct (StoreReport t r w) as [w1|] eqn:E1; [|done]. cbn in E. apply IH in E. rewrite E.
  unfold StoreReport in E1. destruct (deref t (terminators w)) as [x|]; [|done]. cbn in E1.
  destruct (Term.m_active x); by inv_res.
Qed.

Lemma PerformReport_no_trigger p q w w' : PerformReport q w = Ok w' -> no_trigger p w -> no_trigger p w'.
Proof.
  unfold PerformReport. intros E N. destruct (deref q (reporters w)) as [r|]; [|done]. cbn in E.
  destruct (Reporter.m_active r); [|by inv_res].
  destruct (Reporter.m_terminator r) as [t|]; [|by eapply ReporterDeactivate_no_trigger].
  destruct (GenerateReports q w) as [[l w1]|] eqn:G; [|done]. cbn in E. apply StoreReports_reporters in E.
  eapply no_trigger_ext; [exact E|]. unfold GenerateReports in G.
  destruct (deref q (reporters w)) as [x|] eqn:Hx; [|done]. apply deref_Ok in Hx. cbn in G.
  destruct (Reporter.m_active x); [|by inv_res].
  destruct (deref_ptr _ _) as [y|]; [|done]. cbn in G. destruct (generate_active _ _ _) as [g|]; [|done].
  cbn in G. inv_res. by apply (no_trigger_set p q x).
Qed.

Lemma TriggerReport_no_trigger p tp w w' : TriggerReport tp w = Ok w' -> no_trigger p w -> no_trigger p w'.
Proof.
  unfold TriggerReport. intros E N. destruct (deref tp (triggers w)) as [t|]; [|done]. cbn in E.
  match type of E with res_bind ?m _ = _ => destruct m as [w1|] eqn:E1; [|done] end. cbn in E.
  destruct (Trigger.m_reporter t) as [q|]; [|done]. apply (PerformReport_no_trigger p) in E; [done|].
  eapply no_trigger_ext; [|exact N].
  destruct (Trigger.m_active t); [by eapply ScheduleNextTrigger_reporters|by inv_res].
Qed.

(** Whatever the other reporters do first, the one without trigger stops the notification. *)
Lemma notify_aborts p l : forall w, p ∈ l -> no_trigger p w ->
  is_ok (res_fold ReporterNotifyRegistrationComplete l w) = false.
Proof.
  induction l as [|q l IH]; intros w Hp N; [by apply not_elem_of_nil in Hp|]. cbn [res_fold].
  destruct (ReporterNotifyRegistrationComplete q w) as [w1|] eqn:E; [|done]. cbn [res_bind].
  unfold ReporterNotifyRegistrationComplete in E.
  destruct (deref q (reporters w)) as [r|] eqn:Hr; [|done]. apply deref_Ok in Hr. cbn in E.
  apply elem_of_cons in Hp as [->|Hp].
  - destruct N as (r' & Hr' & Tr'). rewrite Hr in Hr'. injection Hr' as <-. by rewrite Tr' in E.
  - apply IH; [done|]. destruct (Reporter.m_trigger r) as [tp|]; [|done].
    unfold TriggerNotifyRegistrationComplete in E. destruct (deref tp (triggers w)) as [t|]; [|done]. cbn in E.
    destruct (_ && _); [by eapply TriggerReport_no_trigger|by inv_res].
Qed.

End no_trigger.

(** Deactivating a reporter takes its trigger away for good: activating it again does
    nothing, and the next registration answer with a new id aborts on its null trigger. *)
Theorem reporter_not_reactivated {Q} `{EventQueue Q} `{Platform} (w : World Q) p tp :
  reporting w p tp ->
  exists w' r', ReporterDeactivate p w = Ok w' /\ w'.(reporters) !! p = Some r' /\
    r'.(Reporter.m_active) = false /\ r'.(Reporter.m_trigger) = None /\
    ReporterActivate p w' = Ok w' /\
    forall term t e, w'.(terminators) !! term = Some t -> t.(Term.m_active) = true ->
      p ∈ t.(Term.m_reporters) -> 0 < e -> t.(Term.m_e2NodeId) <> e ->
      is_ok (ReceiveRegistrationResponse term e w') = false.
Proof.
  intros (r & tr & id & rv & Er & Ar & Tr & Et & At & Rt & Ct).
  set (w1 := cancel_pending id w).
  assert (exists s', w1 = w <| sim := s' |>) as (s' & E1).
  { unfold w1, cancel_pending, cancel. destruct (pending id w); [by eexists|]. exists w.(sim). by destruct w. }
  set (r' := r <| Reporter.m_trigger := None |> <| Reporter.m_active := false |>).
  assert (ReporterDeactivate p w = Ok (set_reporter p r'
    (set_trigger tp (tr <| Trigger.m_reporter := None |> <| Trigger.m_active := false |>)
       (set_reporter p (r <| Reporter.m_trigger := None |>) w1)))) as ->.
  { unfold ReporterDeactivate, TriggerDeactivate, CancelNextTrigger, TriggerDeactivate_base, deref.
    rewrite Er. cbn [res_bind]. rewrite Ar, Tr, Et. cbn [res_bind]. rewrite At, Ct. cbn [res_bind].
    fold w1. assert (triggers w1 = triggers w) as -> by (by rewrite E1). rewrite Et. cbn [res_bind].
    rewrite At, Rt. assert (reporters w1 = reporters w) as -> by (by rewrite E1). rewrite Er. cbn [res_bind].
    set (w2 := set_trigger tp _ _).
    assert (reporters w2 !! p = Some (r <| Reporter.m_trigger := None |>)) as -> by exact (lookup_insert_eq _ _ _).
    done. }
  set (w' := set_reporter p r' _).
  assert (reporters w' !! p = Some r') as Er' by exact (lookup_insert_eq _ _ _).
  exists w', r'. split; [done|]. split; [done|]. split; [done|]. split; [done|]. split.
  - unfold ReporterActivate, ReporterDeactivate, deref. rewrite Er'. cbn [res_bind].
    change (Reporter.m_active r') with false. by destruct (Reporter.m_terminator r').
  - intros term t e Et' Aa Hp L Ne. unfold ReceiveRegistrationResponse, deref. rewrite Et'. cbn [res_bind].
    rewrite Aa, (proj2 (Z.eqb_neq _ _) Ne), (proj2 (Z.ltb_lt _ _) L).
    set (w2 := set_terminator _ _ w').
    assert (is_ok (res_fold ReporterNotifyRegistrationComplete (Term.m_reporters t) w2) = false) as A.
    { apply (notify_aborts p); [done|]. exists r'. by split. }
    by destruct (res_fold _ _ w2).
Qed.

(** The example with a location reporter on a periodic trigger *)
Definition reporting_world : World (list Event) :=
  example_world <| reporters := {[0%nat := Reporter.mkReporter true (Some 0%nat) (Some 0%nat) OranReporterLocation]} |>
    <| triggers := {[0%nat := Trigger.mkTrigger true (Some 0%nat) true
                                (OranReportTriggerPeriodic EventId_default (delay_rv 1))]} |>.

Theorem reporter_not_reactivated_witness :
  exists w' r', ReporterDeactivate 0 reporting_world = Ok w' /\ w'.(reporters) !! 0%nat = Some r' /\
    r'.(Reporter.m_active) = false /\ r'.(Reporter.m_trigger) = None /\
    ReporterActivate 0 w' = Ok w' /\
    forall term t e, w'.(terminators) !! term = Some t -> t.(Term.m_active) = true ->
      0%nat ∈ t.(Term.m_reporters) -> 0 < e -> t.(Term.m_e2NodeId) <> e ->
      is_ok (ReceiveRegistrationResponse term e w') = false.
Proof.
  apply (reporter_not_reactivated reporting_world 0 0).
  do 4 eexists. split_and!; reflexivity.
Defined.

(** ** What a PDU reporter adds up *)

(** A call of AddTxPdu: time, RNTI, logical channel and bytes *)
Record PduTrace := mkTrace { tr_time : Z; tr_rnti : Z; tr_lcid : Z; tr_bytes : Z }.

Definition add_pdus (l : list PduTrace) (c : ReporterClass) : ReporterClass :=
  foldl (fun c e => AddTxPdu e.(tr_time) e.(tr_rnti) e.(tr_lcid) e.(tr_bytes) c) c l.

(** The calls for one logical channel, and the sample they add up to *)
Definition channel (lcid : Z) (l : list PduTrace) : list PduTrace := filter (fun e => e.(tr_lcid) = lcid) l.

Definition channel_sample (lcid : Z) (l : list PduTrace) : option Sample :=
  (fun e => mkSample e.(tr_time) e.(tr_rnti) lcid (u64 (foldr Z.add 0 (tr_bytes <$> channel lcid l))))
    <$> last (channel lcid l).

Lemma foldr_add_snoc l x : foldr Z.add 0 (l ++ [x]) = foldr Z.add 0 l + x.
Proof. induction l as [|y l IH]; cbn; lia. Qed.

Lemma channel_snoc lcid l e :
  channel lcid (l ++ [e]) = if decide (e.(tr_lcid) = lcid) then channel lcid l ++ [e] else channel lcid l.
Proof.
  unfold channel. rewrite filter_app, filter_cons, filter_nil. case_decide; [done|by rewrite app_nil_r].
Qed.

Lemma add_pdus_samples l :
  exists samples, add_pdus l (OranReporterNrUeTxPdu []) = OranReporterNrUeTxPdu samples /\
    smap_wf samples /\ forall lcid, smap_lookup lcid samples = channel_sample lcid l.
Proof.
  induction l as [|e l (s & E & W & L)] using rev_ind; [by exists []|].
  unfold add_pdus in *. rewrite foldl_app, E. cbn. eexists. split; [done|].
  split; [by apply smap_wf_insert; [apply _|]|]. intros lcid. unfold smap_update, channel_sample. rewrite channel_snoc.
  destruct (decide (tr_lcid e = lcid)) as [<-|N].
  - rewrite smap_lookup_insert_eq, L, last_snoc, fmap_app. cbn. rewrite foldr_add_snoc. do 2 f_equal.
    unfold channel_sample. destruct (last (channel (tr_lcid e) l)) as [x|] eqn:La; cbn.
    + unfold wrap. by rewrite Zplus_mod_idemp_l.
    + apply last_None in La. by rewrite La.
  - by rewrite smap_lookup_insert_ne, L.
Qed.

Definition report_lcid (r : OranReport) : option Z :=
  match r.(body) with OranReportNrUeTxPdu _ lcid _ => Some lcid | _ => None end.

Lemma filter_key {A} (k : Z) (m : list (Z * A)) :
  NoDup m.*1 -> filter (fun x => x.1 = k) m = match smap_lookup k m with Some a => [(k, a)] | None => [] end.
Proof.
  induction m as [|[k' a] m IH]; [done|]. cbn [fmap list_fmap fst]. intros [N1 N2]%NoDup_cons.
  rewrite filter_cons. cbn. destruct (decide (k' = k)) as [->|Ne].
  - rewrite (decide_True (P := k = k)) by done. rewrite (filter_none _ m); [done|].
    apply Forall_forall. intros [j b] Hj. cbn. intros ->. apply N1. by apply (list_elem_of_fmap_2 fst _ (k, b)).
  - rewrite decide_False by congruence. by apply IH.
Qed.

(** the reports of a PDU reporter are one per logical channel it has seen since the last
    ones, with the bytes of that channel added up modulo 2^64 and the time and RNTI of its
    last PDU; the counters start again from nothing. *)
Theorem pdu_reports_add_up {Q} (w : World Q) t l :
  exists reports,
    generate_active (add_pdus l (OranReporterNrUeTxPdu [])) t w = Ok (reports, OranReporterNrUeTxPdu []) /\
    forall lcid, filter (fun r => report_lcid r = Some lcid) reports =
      match channel_sample lcid l with
      | None => []
      | Some s => [mkReport t.(Term.m_e2NodeId) s.(s_time) (OranReportNrUeTxPdu s.(s_rnti) lcid s.(s_bytes))]
      end.
Proof.
  destruct (add_pdus_samples l) as (samples & -> & W & L). eexists. split; [reflexivity|]. intros lcid.
  rewrite <- L. apply smap_wf_NoDup in W; [|apply _].
  assert (forall k s, (k, s) ∈ samples -> s_lcid s = k) as Key.
  { intros k s Hs. pose proof (smap_elem_lookup k s samples W Hs) as E. rewrite L in E.
    unfold channel_sample in E. destruct (last _); [|done]. by injection E as <-. }
  pose proof (filter_key lcid samples W) as F. revert F Key. clear L W.
  set (rep := fun '(_, s) => _). intros F Key.
  assert (filter (fun r => report_lcid r = Some lcid) (rep <$> samples)
    = rep <$> filter (fun x => x.1 = lcid) samples) as ->.
  { clear F. induction samples as [|[k s] m IH]; [done|]. rewrite fmap_cons, !filter_cons.
    specialize (IH ltac:(intros; apply Key; by right)). pose proof (Key k s ltac:(by left)) as Es.
    assert (report_lcid (rep (k, s)) = Some k) as Er by (cbn; by rewrite Es). cbn [fst].
    destruct (decide (k = lcid)) as [->|Ne].
    - rewrite decide_True by done. rewrite fmap_cons. f_equal. exact IH.
    - rewrite decide_False by (rewrite Er; congruence). exact IH. }
  rewrite F. destruct (smap_lookup lcid samples) as [s|] eqn:Es; [|done]. cbn.
  apply smap_lookup_Some_elem, Key in Es. by rewrite Es.
Qed.
