(* ===== verification/System.v ===== *)
(** The composed system: the handler the kernel runs for each event. *)
From Stdlib Require Import ZArith Lia.
From stdpp Require Import base list gmap strings.
From S2P Require Import Prelude OrdMap EventQueue Simulator Messages Repository World RlLm MoniLm LogicModule.
From S2P Require Import RicE2Term NearRtRic Reporters E2Node.
Open Scope Z_scope.
Section system.
Context {Q : Type} `{EventQueue Q} `{Platform} `{Sqlite} `{RlAgent} `{CppImpl} `{StdSort}.
Context `{QueryTriggers}.

(** EventImpl::Notify of each bound method; the object may be a null pointer. *)
Definition handle (e : OranEvent) (w : World Q) : res (World Q) :=
  match e with
  | ev_FinishRun lm => FinishRun lm w
  | ev_QueryLms => QueryLms w
  | ev_CheckForInactivity => CheckForInactivity w
  | ev_ProcessLmQueryCommands => ProcessLmQueryCommands w
  | ev_ReceiveRegistrationResponse (Some t) id => ReceiveRegistrationResponse t id w
  | ev_ReceiveDeregistrationResponse (Some t) id => ReceiveDeregistrationResponse t id w
  | ev_ReceiveCommand (Some t) command => ReceiveCommand t command w
  | ev_ReceiveRegistrationResponse None _
  | ev_ReceiveDeregistrationResponse None _
  | ev_ReceiveCommand None _ => Abort "method of a null pointer"
  | ev_ReceiveRegistrationRequest type id t => ReceiveRegistrationRequest type id t w
  | ev_ReceiveDeregistrationRequest id => ReceiveDeregistrationRequest id w
  | ev_ReceiveReport report => ReceiveReport report w
  | ev_Register t => Register t w
  | ev_DoSendReports t => DoSendReports t w
  | ev_TriggerReport t => TriggerReport t w
  | ev_TerminatorActivate t => TermActivate t w
  end.

(** The kernel owns the event queue; the rest of the world is the user state. *)
Definition notify (e : OranEvent) (su : Sim Q OranEvent * World Q) : res (Sim Q OranEvent * World Q) :=
  let* w := handle e (su.2 <| sim := su.1 |>) in Ok (w.(sim), w).

(** One iteration of the loop of Simulator::Run, and [n] of them *)
Definition step (w : World Q) : res (World Q) :=
  let* su := ProcessOneEvent notify (w.(sim), w) in Ok (su.2 <| sim := su.1 |>).

Fixpoint steps (n : nat) (w : World Q) : res (World Q) :=
  match n with
  | O => Ok w
  | S n => let* w := step w in steps n w
  end.

(** Simulator::Run for at most [fuel] events *)
Definition run (fuel : nat) (w : World Q) : res (option (World Q)) :=
  let* r := Simulator.Run notify fuel (w.(sim), w) in
  Ok ((fun su => su.2 <| sim := su.1 |>) <$> r).

End system.
