(* ===== verification/Invariant.v ===== *)
(** The invariant of the system: what every handler keeps, whatever the delays, the answers
    of the agent and the reports.

    An operation keeps the invariant when, if it returns a world, that world satisfies it
    and knows at least the nodes and the modules the first one knew. *)
From Stdlib Require Import ZArith Lia.
From stdpp Require Import base list gmap strings sets.
From S2P Require Import Prelude OrdMap EventQueue Simulator Messages Repository RepositoryFacts World RlLm MoniLm.
From S2P Require Import LogicModule RicFacts RicE2Term NearRtRic Reporters E2Node RicProps QueryProps System.
Open Scope Z_scope.
Section invariant.
Context {Q : Type} `{EventQueue Q}.
Implicit Types (w : World Q).

(** ** What the invariant says *)

(** The RIC reaches an existing terminator under the node id [e]. *)
Definition addressable (e : Z) w : Prop :=
  fits 64 e /\ exists t, terminator_at e w = Some t /\ is_Some (w.(terminators) !! t).

Definition commands_ok (cs : list OranCommand) w : Prop :=
  Forall (fun c => addressable c.(TargetE2NodeId) w) cs.

(** A pointer to an existing terminator *)
Definition terminator_ok (t : option nat) w : Prop :=
  match t with Some t => is_Some (w.(terminators) !! t) | None => False end.

Definition event_ok (e : OranEvent) w : Prop :=
  match e with
  | ev_FinishRun lm => lm ∈ modules w
  | ev_ReceiveRegistrationResponse t id => terminator_ok t w /\ addressable id w
  | ev_ReceiveDeregistrationResponse t _ => terminator_ok t w
  | ev_ReceiveCommand t c => terminator_ok t w
  | ev_ReceiveRegistrationRequest _ _ t => is_Some (w.(terminators) !! t)
  | ev_ReceiveDeregistrationRequest id => addressable id w
  | _ => True
  end.

(** The registrations of a database are of nodes the RIC reaches, and not in the future. *)
Definition registrations_ok (d : Db) w : Prop :=
  upto reg_time (now w) d.(noderegistration) /\
  Forall (fun row => addressable (u64 row.(reg_nodeid)) w) (snd <$> d.(noderegistration).(t_rows)).

Definition databases (r : Repo) : list Db := r.(db_file) :: option_list r.(m_db).

(** The names under which the RIC knows its modules are theirs; [name] is the default's. *)
Record modules_ok (name : string) w : Prop := {
  mo_default : exists p l, w.(ric).(Ric.m_defaultLm) = Some p /\ w.(lms) !! p = Some l /\
    l.(Lm.m_name) = name;
  mo_additional : Forall (fun e => exists l, w.(lms) !! e.2 = Some l /\ l.(Lm.m_name) = e.1)
    w.(ric).(Ric.m_additionalLms)
}.

Record system_inv (name : string) w : Prop := {
  si_events : map_Forall (fun _ i => event_ok i.(payload) w) w.(sim).(impls);
  si_context : w.(sim).(m_eventsWithContext) = [];
  si_repo : Forall (fun d => registrations_ok d w) (databases w.(data));
  si_open : repo_sound w.(data);
  si_modules : modules_ok name w;
  si_lms : map_Forall (fun _ l => commands_ok l.(Lm.m_commands) w) w.(lms);
  si_collected : collected_ok name w;
  si_commands : Forall (fun e => commands_ok e.2 w) w.(ric).(Ric.m_lmQueryCommands);
  si_ids : map_Forall (fun _ t => t.(Term.m_e2NodeId) <> 0 -> addressable t.(Term.m_e2NodeId) w)
    w.(terminators)
}.

(** [w'] knows at least what [w] knows, and is not earlier. *)
Record evolves w w' : Prop := {
  ev_addressable : forall e, addressable e w -> addressable e w';
  ev_default : w'.(ric).(Ric.m_defaultLm) = w.(ric).(Ric.m_defaultLm);
  ev_additional : w'.(ric).(Ric.m_additionalLms) = w.(ric).(Ric.m_additionalLms);
  ev_names : forall p l, w.(lms) !! p = Some l ->
    exists l', w'.(lms) !! p = Some l' /\ l'.(Lm.m_name) = l.(Lm.m_name);
  ev_terminators : forall p, is_Some (w.(terminators) !! p) -> is_Some (w'.(terminators) !! p);
  ev_now : now w <= now w'
}.

#[export] Instance evolves_refl : Reflexive evolves.
Proof. intros w. split; eauto. done. Qed.

#[export] Instance evolves_trans : Transitive evolves.
Proof.
  intros w1 w2 w3 [] []. split; auto; try congruence; [|lia].
  intros p l Hl. destruct (ev_names0 p l Hl) as (l' & Hl' & <-). eauto.
Qed.

(** What the operations have to keep *)
Definition keeps (name : string) w (r : res (World Q)) : Prop :=
  match r with Ok w' => system_inv name w' /\ evolves w w' | Abort _ => True end.

(** *** Facts carried along *)

Lemma commands_ok_evolves cs w w' : evolves w w' -> commands_ok cs w -> commands_ok cs w'.
Proof. intros V C. eapply Forall_impl; [exact C|]. intros c. apply (ev_addressable _ _ V). Qed.

Lemma terminator_ok_evolves t w w' : evolves w w' -> terminator_ok t w -> terminator_ok t w'.
Proof. intros V. destruct t; [|done]. apply (ev_terminators _ _ V). Qed.

Lemma modules_evolves w w' : evolves w w' -> modules w' = modules w.
Proof. intros []. unfold modules. congruence. Qed.

Lemma event_ok_evolves e w w' : evolves w w' -> event_ok e w -> event_ok e w'.
Proof.
  intros V. pose proof (ev_addressable _ _ V). pose proof (ev_terminators _ _ V).
  pose proof (fun t => terminator_ok_evolves t _ _ V).
  destruct e; cbn; try rewrite (modules_evolves _ _ V); naive_solver.
Qed.

Lemma registrations_ok_evolves d w w' : evolves w w' -> registrations_ok d w -> registrations_ok d w'.
Proof.
  intros V [U A]. split; [eapply upto_mono; [apply (ev_now _ _ V)|done]|].
  eapply Forall_impl; [exact A|]. intros r. apply (ev_addressable _ _ V).
Qed.

Lemma modules_ok_evolves name w w' : evolves w w' -> modules_ok name w -> modules_ok name w'.
Proof.
  intros V [(p & l & D & L & N) A]. split.
  - destruct (ev_names _ _ V p l L) as (l' & L' & N'). exists p, l'.
    rewrite (ev_default _ _ V). by split_and!; [| |congruence].
  - rewrite (ev_additional _ _ V). eapply Forall_impl; [exact A|].
    intros e (l' & L' & N'). destruct (ev_names _ _ V _ _ L') as (l2 & L2 & N2).
    exists l2. by split; [|congruence].
Qed.

(** ** Changing one part of the world *)

Lemma keeps_bind name w (m : res (World Q)) f :
  keeps name w m -> (forall w', system_inv name w' -> evolves w w' -> keeps name w' (f w')) ->
  keeps name w (res_bind m f).
Proof.
  destruct m as [w'|]; cbn; [|done]. intros [I V] F. specialize (F w' I V).
  destruct (f w') as [w2|]; [|done]. destruct F as [I2 V2]. split; [done|by etrans].
Qed.

(** A loop keeps the invariant when its body does, in every world that comes up. *)
Lemma keeps_fold {A} name (f : A -> World Q -> res (World Q)) l w :
  system_inv name w ->
  (forall a w', a ∈ l -> evolves w w' -> system_inv name w' -> keeps name w' (f a w')) ->
  keeps name w (res_fold f l w).
Proof.
  intros I F. cut (forall w1, evolves w w1 -> system_inv name w1 -> keeps name w1 (res_fold f l w1)); [intros C; by apply C|].
  clear I. induction l as [|a l IH]; intros w1 V I; cbn [res_fold]; [by split|].
  apply keeps_bind; [apply F; [by left|done..]|]. intros w2 I2 V2.
  apply IH; [|by etrans|done]. intros b w3 Hb. apply F. by right.
Qed.

(** What has been collected, as one condition on its entries *)
Lemma collected_entries name w e :
  system_inv name w -> e ∈ w.(ric).(Ric.m_lmQueryCommands) ->
  e.1 ∈ expected_keys name w /\ commands_ok e.2 w.
Proof.
  intros I He. split.
  - apply (si_collected _ _ I), list_elem_of_fmap. by exists e.
  - pose proof (si_commands _ _ I) as F. rewrite Forall_forall in F. by apply F.
Qed.

(** A new world that evolves from one with the invariant has it, when what it holds was in
    order in the old one. *)
Lemma change_inv name w w' :
  system_inv name w -> evolves w w' ->
  map_Forall (fun _ i => event_ok i.(payload) w) w'.(sim).(impls) ->
  w'.(sim).(m_eventsWithContext) = [] ->
  Forall (fun d => registrations_ok d w) (databases w'.(data)) -> repo_sound w'.(data) ->
  map_Forall (fun _ l => commands_ok l.(Lm.m_commands) w) w'.(lms) ->
  smap_wf w'.(ric).(Ric.m_lmQueryCommands) ->
  (forall e, e ∈ w'.(ric).(Ric.m_lmQueryCommands) -> e.1 ∈ expected_keys name w /\ commands_ok e.2 w) ->
  map_Forall (fun _ t => t.(Term.m_e2NodeId) <> 0 -> addressable t.(Term.m_e2NodeId) w) w'.(terminators) ->
  system_inv name w' /\ evolves w w'.
Proof.
  intros I V Ev Cx Rp So Lm Wf Co Id. split; [|done]. split; try done.
  - intros q i Hi. apply (event_ok_evolves _ _ _ V). by eapply Ev.
  - eapply Forall_impl; [exact Rp|]. intros d. by apply registrations_ok_evolves.
  - apply (modules_ok_evolves _ _ _ V), I.
  - intros q l Hl. apply (commands_ok_evolves _ _ _ V). by eapply Lm.
  - split; [done|rewrite (ev_additional _ _ V); apply I|].
    intros k (e & -> & He)%list_elem_of_fmap. unfold expected_keys. rewrite (ev_additional _ _ V).
    by apply Co.
  - apply Forall_forall. intros e He. apply (commands_ok_evolves _ _ _ V). by apply Co.
  - intros q t Ht N. apply V. by eapply Id.
Qed.

(** The premises of [change_inv] about the parts that are as they were *)
Ltac old_parts I :=
  first [exact (si_events _ _ I) | exact (si_context _ _ I) | exact (si_repo _ _ I) | exact (si_open _ _ I)
    | exact (si_lms _ _ I) | exact (co_wf _ _ (si_collected _ _ I)) | exact (si_ids _ _ I)
    | exact (fun e => collected_entries _ _ e I) | idtac].

Lemma sim_inv name w s :
  system_inv name w -> map_Forall (fun _ i => event_ok i.(payload) w) s.(impls) ->
  s.(m_eventsWithContext) = [] -> now w <= s.(m_currentTs) ->
  system_inv name (w <| sim := s |>) /\ evolves w (w <| sim := s |>).
Proof. intros I Ev Cx T. apply change_inv; old_parts I; try done. by split; eauto. Qed.

Lemma data_inv name w d :
  system_inv name w -> Forall (fun d => registrations_ok d w) (databases d) -> repo_sound d ->
  system_inv name (w <| data := d |>) /\ evolves w (w <| data := d |>).
Proof. intros I R S. apply change_inv; old_parts I; try done. by split; eauto. Qed.

Lemma ric_inv name w r :
  system_inv name w ->
  r.(Ric.m_defaultLm) = w.(ric).(Ric.m_defaultLm) -> r.(Ric.m_additionalLms) = w.(ric).(Ric.m_additionalLms) ->
  smap_wf r.(Ric.m_lmQueryCommands) ->
  (forall e, e ∈ r.(Ric.m_lmQueryCommands) -> e.1 ∈ expected_keys name w /\ commands_ok e.2 w) ->
  system_inv name (set_ric r w) /\ evolves w (set_ric r w).
Proof. intros I D A W C. apply change_inv; old_parts I; try done. by split; eauto. Qed.

(** The RIC's other members do not matter. *)
Lemma ric_member_inv name w r :
  system_inv name w ->
  r.(Ric.m_defaultLm) = w.(ric).(Ric.m_defaultLm) -> r.(Ric.m_additionalLms) = w.(ric).(Ric.m_additionalLms) ->
  r.(Ric.m_lmQueryCommands) = w.(ric).(Ric.m_lmQueryCommands) ->
  system_inv name (set_ric r w) /\ evolves w (set_ric r w).
Proof.
  intros I D A C. apply ric_inv; try done; rewrite ?C.
  - apply I.
  - intros e. by apply collected_entries.
Qed.

Lemma e2t_inv name w e :
  system_inv name w ->
  (forall i, addressable i w -> addressable i (set_e2t e w)) ->
  system_inv name (set_e2t e w) /\ evolves w (set_e2t e w).
Proof. intros I A. apply change_inv; old_parts I; try done. by split; eauto. Qed.

Lemma lm_inv name w p l l' :
  system_inv name w -> w.(lms) !! p = Some l -> l'.(Lm.m_name) = l.(Lm.m_name) ->
  commands_ok l'.(Lm.m_commands) w ->
  system_inv name (set_lm p l' w) /\ evolves w (set_lm p l' w).
Proof.
  intros I L N C. apply change_inv; old_parts I; try done.
  - split; eauto; [|done]. intros q lq Hq. destruct (decide (p = q)) as [<-|Ne].
    + exists l'. split; [apply set_lm_same|congruence].
    + exists lq. split; [|done]. by rewrite set_lm_other.
  - by apply map_Forall_insert_2; [|apply I].
Qed.

Lemma terminator_inv name w p t :
  system_inv name w -> (t.(Term.m_e2NodeId) <> 0 -> addressable t.(Term.m_e2NodeId) w) ->
  system_inv name (set_terminator p t w) /\ evolves w (set_terminator p t w).
Proof.
  intros I A. set (w' := set_terminator p t w).
  assert (forall q, is_Some (w.(terminators) !! q) -> is_Some (w'.(terminators) !! q)) as T.
  { intros q Hq. change (terminators w') with (<[p := t]> w.(terminators)).
    rewrite lookup_insert. by case_decide. }
  apply change_inv; old_parts I; try done.
  - split; eauto; [|done]. intros e (F & q & Hq & Sq). split; [done|].
    exists q. split; [exact Hq|by apply T].
  - by apply map_Forall_insert_2; [|apply I].
Qed.

(** The reporters, the triggers, the devices and the conflict mitigation module do not matter. *)
Lemma other_inv name w w' :
  system_inv name w -> w'.(sim) = w.(sim) -> w'.(data) = w.(data) -> w'.(ric) = w.(ric) ->
  w'.(e2t) = w.(e2t) -> w'.(lms) = w.(lms) -> w'.(terminators) = w.(terminators) ->
  system_inv name w' /\ evolves w w'.
Proof.
  intros I Es Ed Er Ee El Et. apply change_inv; rewrite ?Es, ?Ed, ?Er, ?El, ?Et; old_parts I; try done.
  split; rewrite ?Er, ?El, ?Et; eauto; [|by unfold now; rewrite Es].
  intros e (F & t & Ht & St). split; [done|]. exists t. unfold terminator_at in *. rewrite Ee, Et. by split.
Qed.

(** ** Rules *)

Lemma keeps_trans name w w1 r :
  system_inv name w1 /\ evolves w w1 -> (system_inv name w1 -> evolves w w1 -> keeps name w1 r) -> keeps name w r.
Proof.
  intros [I V] K. specialize (K I V). destruct r as [w2|]; [|done]. destruct K as [I2 V2].
  split; [done|by etrans].
Qed.

Lemma keeps_pure {A} name w (m : res A) (k : A -> res (World Q)) :
  (forall a, m = Ok a -> keeps name w (k a)) -> keeps name w (res_bind m k).
Proof. destruct m; cbn; [auto|done]. Qed.

Lemma keeps_abort_if name w c msg (k : unit -> res (World Q)) :
  (c = false -> keeps name w (k tt)) -> keeps name w (res_bind (abort_if c msg) k).
Proof. unfold abort_if. destruct c; cbn; auto. Qed.

Lemma insert_event_store p ts cx (s : Sim Q OranEvent) id s' :
  insert_event p ts cx s = Ok (id, s') ->
  s'.(impls) = s.(impls) /\ s'.(m_eventsWithContext) = s.(m_eventsWithContext) /\
  s'.(m_currentTs) = s.(m_currentTs).
Proof. unfold insert_event. intros E. inv_res. done. Qed.

Lemma keeps_schedule name w d e (k : EventId * World Q -> res (World Q)) :
  system_inv name w -> event_ok e w ->
  (forall id s, let w1 := w <| sim := s |> in
     system_inv name w1 -> evolves w w1 -> keeps name w1 (k (id, w1))) ->
  keeps name w (res_bind (schedule d e w) k).
Proof.
  intros I Ok' K. unfold schedule. destruct (Schedule d e (sim w)) as [[id s]|] eqn:E; [|done].
  cbn [res_bind fst snd]. eapply keeps_trans; [|apply K].
  unfold Schedule in E. inv_res. cbn [fst snd MakeEvent] in E. apply insert_event_store in E as (Ei & Ec & Et).
  apply sim_inv; [done| |by rewrite Ec; apply I|by rewrite Et]. rewrite Ei.
  apply map_Forall_insert_2; [exact Ok'|apply I].
Qed.

Lemma cancel_inv name w id :
  system_inv name w -> system_inv name (cancel id w) /\ evolves w (cancel id w).
Proof.
  intros I. apply sim_inv; [done|..]; unfold Cancel; destruct (negb _); try apply I; try done;
    destruct (m_eventImpl id) as [p|]; try apply I; try done.
  intros q i Hi. cbn in Hi. apply lookup_alter_Some in Hi as [(-> & i' & Hi & ->)|[_ Hi]];
    exact (si_events _ _ I _ _ Hi).
Qed.

Lemma cancel_pending_inv name w id :
  system_inv name w -> system_inv name (cancel_pending id w) /\ evolves w (cancel_pending id w).
Proof. intros I. unfold cancel_pending. destruct (pending id w); [by apply cancel_inv|done]. Qed.

End invariant.

(** Goes on from the world a change of [w] gives, which occurs in the goal. *)
Ltac keeps_set w :=
  match goal with
  | |- keeps ?name _ ?r =>
      match r with
      | context [set_e2t ?x w] => apply (keeps_trans name w (set_e2t x w))
      | context [set_ric ?x w] => apply (keeps_trans name w (set_ric x w))
      | context [set_lm ?p ?x w] => apply (keeps_trans name w (set_lm p x w))
      | context [set_terminator ?p ?x w] => apply (keeps_trans name w (set_terminator p x w))
      | context [set_reporter ?p ?x w] => apply (keeps_trans name w (set_reporter p x w))
      | context [set_trigger ?p ?x w] => apply (keeps_trans name w (set_trigger p x w))
      | context [cancel_pending ?i w] => apply (keeps_trans name w (cancel_pending i w))
      | context [cancel ?i w] => apply (keeps_trans name w (cancel i w))
      end
  end.
