(* ===== verification/InvariantFacts.v ===== *)
(** Every handler keeps the invariant of the system. *)
From Stdlib Require Import ZArith Lia.
From stdpp Require Import base list gmap strings sorting sets.
From S2P Require Import Prelude OrdMap EventQueue Simulator Messages Repository RepositoryFacts World RlLm MoniLm.
From S2P Require Import LogicModule RicFacts RicE2Term NearRtRic Reporters E2Node RicProps QueryProps System Invariant.
Open Scope Z_scope.
(** ** What the repository's methods do to the registrations *)

(** The connection, the file and the registrations of [r'] are those of [r]. *)
Definition same_registrations (r r' : Repo) : Prop :=
  r'.(db_file) = r.(db_file) /\ r'.(m_active) = r.(m_active) /\
  noderegistration <$> r'.(m_db) = noderegistration <$> r.(m_db).

(** One registration is added, of the node [e] at time [now]. *)
Definition adds_registration (now e : Z) (r r' : Repo) : Prop :=
  r'.(db_file) = r.(db_file) /\ r'.(m_active) = r.(m_active) /\
  exists d d' b, r.(m_db) = Some d /\ r'.(m_db) = Some d' /\
    d'.(noderegistration) = t_insert (mkReg (bind_int64 e) b now) d.(noderegistration).

(** At most one is. *)
Definition may_register (now e : Z) (r r' : Repo) : Prop :=
  same_registrations r r' \/ adds_registration now e r r'.

#[export] Instance same_registrations_refl : Reflexive same_registrations.
Proof. by intros r. Qed.

#[export] Instance same_registrations_trans : Transitive same_registrations.
Proof. unfold same_registrations. intros r1 r2 r3 ? ?. destruct_and!. split_and!; congruence. Qed.

Lemma adds_then now e r r1 r2 :
  adds_registration now e r r1 -> same_registrations r1 r2 -> adds_registration now e r r2.
Proof.
  intros (E1 & E2 & d & d' & b & D & D' & R) (F1 & F2 & F3). split; [congruence|]. split; [congruence|].
  rewrite D' in F3. destruct (m_db r2) as [d2|]; [|done]. cbn in F3. injection F3 as F3.
  exists d, d2, b. by rewrite F3.
Qed.

Lemma update_db_same f r r' :
  (forall d, (f d).(noderegistration) = d.(noderegistration)) -> update_db f r = Ok r' ->
  same_registrations r r'.
Proof.
  intros F E. unfold update_db, db_of in E. destruct (m_db r) as [d|] eqn:Ed; [|done].
  cbn in E. inv_res. split; [done|]. split; [done|]. cbn. by rewrite Ed; cbn; rewrite F.
Qed.

Lemma update_db_adds f now e b r r' :
  (forall d, (f d).(noderegistration) = t_insert (mkReg (bind_int64 e) b now) d.(noderegistration)) ->
  update_db f r = Ok r' -> adds_registration now e r r'.
Proof.
  intros F E. unfold update_db, db_of in E. destruct (m_db r) as [d|] eqn:Ed; [|done].
  cbn in E. inv_res. split; [done|]. split; [done|]. exists d, (f d), b. by rewrite F.
Qed.

Lemma RegisterNode_adds type id now r e r' :
  RegisterNode type id now r = Ok (e, r') -> fits 64 e /\ may_register now e r r'.
Proof.
  unfold RegisterNode, db_of. destruct (m_active r); intros E; [|by inv_res; split; [|left]].
  destruct (m_db r) as [d|] eqn:Ed; [|done]. cbn [res_bind] in E.
  destruct (id =? 0); cbn in E; inv_res; (split; [by apply wrap_fits|]); right;
    (split; [done|]); (split; [done|]); do 3 eexists; (split; [done|]); split; reflexivity.
Qed.

(** RegisterNodeNrUe and RegisterNodeNrGnb: a second statement, on another table *)
Lemma register_then type id now f r e r' :
  (forall d, (f d).(noderegistration) = d.(noderegistration)) ->
  (if r.(m_active) then
     let* reg := RegisterNode type id now r in let* r := update_db f reg.2 in Ok (reg.1, r)
   else Ok (0, r)) = Ok (e, r') ->
  fits 64 e /\ may_register now e r r'.
Proof.
  intros F. destruct (m_active r); intros E; [|by inv_res; split; [|left]].
  destruct (RegisterNode type id now r) as [[e1 r1]|] eqn:Rg; [|done]. cbn in E. inv_res.
  apply RegisterNode_adds in Rg as [Fe A]. split; [done|]. apply (update_db_same f) in E0; [|done].
  destruct A as [A|A]; [left; by etrans|right; by eapply adds_then].
Qed.

Lemma register_in_data_adds {Q} `{EventQueue Q} type id t (w : World Q) e w1 :
  register_in_data type id t w = Ok (e, w1) ->
  fits 64 e /\ exists d, w1 = w <| data := d |> /\ may_register (now w) e w.(data) d.
Proof.
  unfold register_in_data. destruct (deref t (terminators w)) as [tm|]; [|done]. cbn [res_bind].
  intros E.
  match type of E with res_bind ?m _ = _ => destruct m as [[e1 d1]|] eqn:Em; [|done] end.
  cbn [res_bind fst snd] in E. injection E as -> <-.
  cut (fits 64 e /\ may_register (now w) e (data w) d1); [by intros [? ?]; eauto|].
  destruct type; [by eapply RegisterNode_adds|..]; (case_bool_decide; [|done]).
  - destruct (GetNrNetDeviceUe tm w) as [[]|]; try done.
    eapply (register_then NRUE); [|exact Em]. done.
  - destruct (GetNrNetDeviceGnb tm w); [|done]. eapply (register_then NRGNB); [|exact Em]. done.
Qed.

Lemma DeregisterNode_adds id now r e r' :
  DeregisterNode id now r = Ok (e, r') -> may_register now id r r'.
Proof.
  unfold DeregisterNode. destruct (m_active r); intros E; [|by inv_res; left].
  destruct (update_db _ r) as [r1|] eqn:Up; [|done]. cbn in E. inv_res. right.
  by eapply update_db_adds; [|exact Up].
Qed.

(** Storing and logging add none. *)
Lemma when_registered_same id f r r' :
  (forall r r', f r = Ok r' -> same_registrations r r') ->
  when_registered id f r = Ok r' -> same_registrations r r'.
Proof.
  unfold when_registered. intros F E. destruct (m_active r); [|by inv_res].
  destruct (IsNodeRegistered id r) as [[]|]; cbn in E; [by apply F|by inv_res|done].
Qed.

Lemma when_active_same f r r' :
  (forall r r', f r = Ok r' -> same_registrations r r') ->
  when_active f r = Ok r' -> same_registrations r r'.
Proof. unfold when_active. intros F E. destruct (m_active r); [by apply F|by inv_res]. Qed.

Lemma save_report_same report r r' : save_report report r = Ok r' -> same_registrations r r'.
Proof.
  unfold save_report. intros E.
  destruct (body report); try (by inv_res);
    eapply when_registered_same; [|exact E| |exact E| |exact E| |exact E| |exact E| |exact E| |exact E| |exact E];
    intros r1 r2 E1; cbn beta zeta in E1; apply update_db_same in E1; try done.
Qed.

Lemma LogCommandE2Terminator_same c now r r' :
  LogCommandE2Terminator c now r = Ok r' -> same_registrations r r'.
Proof. apply when_registered_same. intros r1 r2. by apply update_db_same. Qed.

Lemma LogActionLm_same lm msg now r r' : LogActionLm lm msg now r = Ok r' -> same_registrations r r'.
Proof. apply when_active_same. intros r1 r2. by apply update_db_same. Qed.

Lemma LogActionCmm_same lm msg now r r' : LogActionCmm lm msg now r = Ok r' -> same_registrations r r'.
Proof. apply when_active_same. intros r1 r2. by apply update_db_same. Qed.

(** ** The repository in the world *)

Section data.
Context {Q : Type} `{EventQueue Q}.
Implicit Types (w : World Q).

(** Adding a registration of a node the RIC reaches keeps the invariant. *)
Lemma registration_inv name w e d :
  system_inv name w -> may_register (now w) e w.(data) d -> addressable e w ->
  system_inv name (w <| data := d |>) /\ evolves w (w <| data := d |>).
Proof.
  intros I M A. pose proof (si_repo _ _ I) as R. unfold databases in R.
  apply Forall_cons in R as [Rf R]. apply data_inv; [done|unfold databases; apply Forall_cons; split|].
  - by destruct M as [(-> & _)|(-> & _)].
  - destruct M as [(_ & _ & E)|(_ & _ & d0 & d1 & b & E0 & E1 & E)].
    + destruct (m_db (data w)), (m_db d); try done. injection E as E.
      apply Forall_cons in R as [R _]. apply Forall_cons. split; [|done].
      unfold registrations_ok in *. by rewrite E.
    + rewrite E0 in R. rewrite E1. apply Forall_cons in R as [[U As] _]. apply Forall_cons. split; [|done].
      unfold registrations_ok. rewrite E. split; [by apply upto_insert|].
      cbn. rewrite fmap_app. apply Forall_app. split; [done|]. apply Forall_singleton. cbn.
      rewrite i64_of_u64; [done|apply A].
  - intros Act. destruct M as [(_ & Ea & E)|(_ & Ea & d0 & d1 & b & E0 & E1 & E)]; rewrite Ea in Act;
      destruct (si_open _ _ I Act) as [d2 E2]; [|by eexists].
    rewrite E2 in E. destruct (m_db d); [by eexists|done].
Qed.

(** A method that adds none keeps the invariant whatever the node. *)
Lemma on_data_keeps name w f :
  system_inv name w -> (forall r r', f r = Ok r' -> same_registrations r r') -> keeps name w (on_data f w).
Proof.
  intros I F. unfold on_data. apply keeps_pure. intros d E. apply F in E as (Ef & Ea & Ed).
  pose proof (si_repo _ _ I) as R. unfold databases in R. apply Forall_cons in R as [Rf R].
  apply data_inv; [done|unfold databases; rewrite Ef; apply Forall_cons; split; [done|]|].
  - destruct (m_db (data w)), (m_db d); try done. injection Ed as Ed.
    apply Forall_cons in R as [R _]. apply Forall_cons. split; [|done].
      unfold registrations_ok in *. by rewrite Ed.
  - intros Act. rewrite Ea in Act. destruct (si_open _ _ I Act) as [d2 E2].
    rewrite E2 in Ed. destruct (m_db d); [by eexists|done].
Qed.

End data.

(** ** The RIC's E2 terminator *)

Section e2.
Context {Q : Type} `{EventQueue Q} `{Platform}.
Implicit Types (w : World Q).

Lemma schedule_e2_keeps name w e : system_inv name w -> event_ok e w -> keeps name w (schedule_e2 e w).
Proof.
  intros I Ev. unfold schedule_e2. cbn [GetValue].
  keeps_set w; [by apply e2t_inv; [|intros i A; exact A]|]. intros I1 V1.
  apply keeps_schedule; [done|by eapply event_ok_evolves|]. intros id s w1 I2 V2. by split.
Qed.

Lemma insert_terminator_inv name w e t :
  system_inv name w -> is_Some (w.(terminators) !! t) ->
  let w' := set_e2t (w.(e2t) <| E2T.m_nodeTerminators ::= smap_insert e (Some t) |>) w in
  (system_inv name w' /\ evolves w w') /\ (fits 64 e -> addressable e w').
Proof.
  intros I T w'. assert (forall i, terminator_at i w' = if decide (e = i) then Some t else terminator_at i w) as L.
  { intros i. unfold terminator_at.
    change (E2T.m_nodeTerminators (e2t w')) with (smap_insert e (Some t) w.(e2t).(E2T.m_nodeTerminators)).
    case_decide; [subst; by rewrite smap_lookup_insert_eq|by rewrite smap_lookup_insert_ne]. }
  split.
  - apply e2t_inv; [done|]. intros i (F & q & Hq & Sq). split; [done|]. fold w'. rewrite L.
    case_decide; [by exists t|by exists q].
  - intros F. split; [done|]. exists t. by rewrite L, decide_True.
Qed.

Lemma ReceiveRegistrationRequest_keeps name w type id t :
  system_inv name w -> is_Some (w.(terminators) !! t) ->
  keeps name w (ReceiveRegistrationRequest type id t w).
Proof.
  intros I T. unfold ReceiveRegistrationRequest. destruct (E2T.m_active (e2t w)); [|by split].
  apply keeps_abort_if. intros _. apply keeps_pure. intros [e w1] E.
  apply register_in_data_adds in E as (F & d & -> & M).
  destruct (insert_terminator_inv name w e t I T) as [[I1 V1] A]. set (w1 := set_e2t _ w) in I1, V1, A.
  eapply keeps_trans; [exact (conj I1 V1)|]. intros _ _.
  change (keeps name w1 (schedule_e2 (ev_ReceiveRegistrationResponse (Some t) e) (w1 <| data := d |>))).
  eapply keeps_trans; [by apply (registration_inv name w1 e); [|exact M|apply A]|]. intros I2 V2.
  apply schedule_e2_keeps; [done|]. split; [exact T|]. by apply (ev_addressable _ _ V2), A.
Qed.

(** m_nodeTerminators[id] does not change what the RIC reaches. *)
Lemma node_terminator_inv name w id :
  system_inv name w ->
  system_inv name (node_terminator id w).2 /\ evolves w (node_terminator id w).2.
Proof.
  intros I. unfold node_terminator. destruct (smap_lookup id _) as [t|] eqn:L; [by split|].
  apply e2t_inv; [done|]. intros i (F & q & Hq & Sq). split; [done|]. exists q. split; [|done].
  unfold terminator_at in *. cbn. rewrite smap_lookup_insert_ne; [done|]. intros ->. by rewrite L in Hq.
Qed.

Lemma node_terminator_ok1 w id : addressable id w -> terminator_ok (node_terminator id w).1 w.
Proof.
  intros (_ & q & Hq & Sq). unfold node_terminator, terminator_at in *.
  destruct (smap_lookup id _) as [t|]; [|done]. cbn in *. by rewrite Hq.
Qed.

(** The message to the terminator of a node the RIC reaches *)
Lemma to_node_keeps name w id (e : option nat -> OranEvent) :
  system_inv name w -> addressable id w ->
  (forall t w', terminator_ok t w' -> event_ok (e t) w') ->
  keeps name w (let '(t, w1) := node_terminator id w in schedule_e2 (e t) w1).
Proof.
  intros I A Ev. pose proof (node_terminator_inv name w id I) as I1.
  pose proof (node_terminator_ok1 w id A) as T. destruct (node_terminator id w) as [t w1].
  eapply keeps_trans; [exact I1|]. intros I2 V. apply schedule_e2_keeps; [done|].
  by apply Ev, (terminator_ok_evolves _ _ _ V).
Qed.

Lemma ReceiveDeregistrationRequest_keeps name w e :
  system_inv name w -> addressable e w -> keeps name w (ReceiveDeregistrationRequest e w).
Proof.
  intros I A. unfold ReceiveDeregistrationRequest. destruct (E2T.m_active (e2t w)); [|by split].
  apply keeps_abort_if. intros _. apply keeps_pure. intros [e' d] E. apply DeregisterNode_adds in E.
  eapply keeps_trans; [by apply (registration_inv name w e)|]. intros I1 V1.
  apply (to_node_keeps name _ e (fun t => ev_ReceiveDeregistrationResponse t e')); [done|by apply V1|done].
Qed.

Lemma SendCommand_keeps name w c :
  system_inv name w -> addressable c.(TargetE2NodeId) w -> keeps name w (SendCommand c w).
Proof.
  intros I A. unfold SendCommand. destruct (E2T.m_active (e2t w)); [|by split].
  apply keeps_abort_if. intros _.
  apply keeps_bind; [apply on_data_keeps; [done|intros r r'; apply LogCommandE2Terminator_same]|].
  intros w1 I1 V1.
  apply (to_node_keeps name _ _ (fun t => ev_ReceiveCommand t c)); [done|by apply V1|done].
Qed.

Lemma ProcessCommands_keeps name w cs :
  system_inv name w -> commands_ok cs w -> keeps name w (ProcessCommands cs w).
Proof.
  intros I C. unfold ProcessCommands. destruct (E2T.m_active (e2t w)); [|by split].
  apply keeps_fold; [done|]. intros c w1 Hc V I1. apply SendCommand_keeps; [done|]. apply V.
  unfold commands_ok in C. rewrite Forall_forall in C. by apply C.
Qed.

End e2.

(** ** Logic modules *)

Section lms.
Context {Q : Type} `{EventQueue Q} `{Platform} `{SqliteLaws} `{RlAgent} `{CppImpl} `{StdSort}.
Implicit Types (w : World Q).

(** The nodes a database lists are nodes the RIC reaches, listed with times that are past. *)
Lemma listed_ok w d rows x :
  registrations_ok d w -> (forall r, r ∈ rows -> r ∈ snd <$> d.(noderegistration).(t_rows)) ->
  x ∈ group_registered rows -> addressable (u64 x.1) w /\ x.2 <= now w.
Proof.
  intros [U A] Sub Hx. destruct x as [i t]. apply group_registered_elem in Hx as (r & B & _ & <-).
  pose proof (bare_row_max (filter (fun r => r.(reg_nodeid) = i) rows)) as M. rewrite B in M.
  destruct M as [[Ei Hr]%list_elem_of_filter _]. apply Sub in Hr. cbn [fst snd]. split.
  - rewrite Forall_forall in A. rewrite <- Ei. by apply A.
  - apply list_elem_of_fmap in Hr as ([k r'] & -> & Hr). unfold upto in U. rewrite Forall_forall in U.
    by apply U in Hr as [_ T].
Qed.

Lemma get_active_elem {A} name w (f : Db -> list A) l x :
  system_inv name w -> get_active [] f w.(data) = Ok l -> x ∈ l ->
  exists d, registrations_ok d w /\ x ∈ f d.
Proof.
  intros I E Hx. unfold get_active, db_of in E. destruct (m_active (data w)); [|inv_res; by apply not_elem_of_nil in Hx].
  pose proof (si_repo _ _ I) as R. unfold databases in R. apply Forall_cons in R as [_ R].
  destruct (m_db (data w)) as [d|]; [|done]. cbn in *. inv_res. exists d. split; [|done].
  by apply Forall_cons in R as [R _].
Qed.

Lemma gnbs_addressable name w l e :
  system_inv name w -> GetNrGnbE2NodeIds w.(data) = Ok l -> e ∈ l -> addressable e w.
Proof.
  intros I E He. destruct (get_active_elem name w _ l e I E He) as (d & R & Hd).
  apply list_elem_of_fmap in Hd as (x & -> & Hx). eapply listed_ok; [exact R| |exact Hx].
  by intros r [_ Hr]%list_elem_of_filter.
Qed.

Lemma last_registrations_ok name w l x :
  system_inv name w -> GetLastRegistrationRequests w.(data) = Ok l -> x ∈ l ->
  addressable x.1 w /\ x.2 <= now w.
Proof.
  intros I E He. destruct (get_active_elem name w _ l x I E He) as (d & R & Hd).
  apply list_elem_of_fmap in Hd as (y & -> & Hy). by apply (listed_ok w d _ y R) in Hy.
Qed.

Lemma RlRun_commands name w a h st cs st' :
  system_inv name w -> RlRun a h w.(data) st = Ok (cs, st') -> commands_ok cs w.
Proof.
  intros I E. unfold RlRun in E. destruct a; cbn [negb] in E; [|inv_res; constructor]. inv_res.
  destruct (m_grpc st); cbn [negb] in E; [|inv_res; constructor]. inv_res.
  destruct (PushObservation _) as [[|sh shares]|]; try (inv_res; constructor).
  match goal with H : GetNrGnbE2NodeIds _ = Ok ?l |- _ => rename H into Eg; destruct l as [|gnb gnbs] end;
    [inv_res; constructor|].
  destruct (allocate (sh :: shares)); [|done]. inv_res. constructor; [|constructor]. cbn.
  eapply gnbs_addressable; [done|exact Eg|by left].
Qed.

Lemma MoniRun_commands a h t d cs p : MoniRun a h t d = Ok (cs, p) -> cs = [].
Proof. unfold MoniRun. intros E. destruct a; cbn in E; by inv_res. Qed.

Lemma LogLogicToRepository_keeps name w p msg :
  system_inv name w -> keeps name w (LogLogicToRepository p msg w).
Proof.
  intros I. unfold LogLogicToRepository. apply keeps_pure. intros l El. apply keeps_abort_if. intros _.
  destruct (Lm.m_verbose l); [|by split]. apply on_data_keeps; [done|]. intros r r'. apply LogActionLm_same.
Qed.

Lemma deref_Some {A} p (store : gmap nat A) a : deref p store = Ok a -> store !! p = Some a.
Proof. unfold deref. destruct (store !! p); by intros; inv_res. Qed.

Lemma lm_commands name w p l : system_inv name w -> w.(lms) !! p = Some l -> commands_ok l.(Lm.m_commands) w.
Proof. intros I. apply (si_lms _ _ I). Qed.

Lemma CancelRun_keeps name w p : system_inv name w -> keeps name w (CancelRun p w).
Proof.
  intros I. unfold CancelRun. apply keeps_pure. intros l El%deref_Some.
  destruct (Lm.m_active l && _); [|by split].
  keeps_set w; [by apply cancel_inv|]. intros I1 V1. apply keeps_bind.
  - case_bool_decide; [by split|]. by apply LogLogicToRepository_keeps.
  - intros w2 I2 V2. apply keeps_pure. intros l2 El2%deref_Some.
    eapply lm_inv; [done|exact El2|done|constructor].
Qed.

Lemma lm_class_inv name w p l c :
  system_inv name w -> w.(lms) !! p = Some l ->
  let w' := set_lm p (l <| Lm.class := c |>) w in system_inv name w' /\ evolves w w'.
Proof. intros I El. eapply lm_inv; [done|exact El|done|exact (lm_commands _ _ _ _ I El)]. Qed.

Lemma Run_virtual_inv name w p cs w' :
  system_inv name w -> Run_virtual p w = Ok (cs, w') ->
  (system_inv name w' /\ evolves w w') /\ commands_ok cs w'.
Proof.
  intros I E. unfold Run_virtual in E. destruct (deref p (lms w)) as [l|] eqn:El; [|done].
  apply deref_Some in El. cbn [res_bind] in E. destruct (Lm.class l) as [| |st|st].
  - unfold NoopRun in E. inv_res. split; [|constructor].
    pose proof (LogLogicToRepository_keeps name w p "No action taken" I) as K.
    by match goal with H : LogLogicToRepository _ _ _ = _ |- _ => rewrite H in K end.
  - inv_res. match goal with H : MoniRun _ _ _ _ = Ok ?a |- _ => destruct a as [c m]; apply MoniRun_commands in H end.
    cbn in *. subst. split; [done|constructor].
  - destruct (RlRun _ _ _ _) as [[c st']|] eqn:Er; [|done]. cbn in E. inv_res.
    apply (RlRun_commands name) in Er; [|done].
    destruct (lm_class_inv name w p l (OranLmNrRlQlearn st') I El) as [I' V'].
    split; [done|]. by eapply commands_ok_evolves.
  - destruct (RlRun _ _ _ _) as [[c st']|] eqn:Er; [|done]. cbn in E. inv_res.
    apply (RlRun_commands name) in Er; [|done].
    destruct (lm_class_inv name w p l (OranLmNrRlDqn st') I El) as [I' V'].
    split; [done|]. by eapply commands_ok_evolves.
Qed.

Lemma LmRun_keeps name w p cycle :
  system_inv name w -> p ∈ modules w -> keeps name w (LmRun p cycle w).
Proof.
  intros I Hp. unfold LmRun. apply keeps_pure. intros l El%deref_Some.
  destruct (Lm.m_active l); [|by split]. apply keeps_abort_if. intros _. cbn [GetValue].
  keeps_set w; [eapply lm_inv; [done|exact El|done|exact (lm_commands _ _ _ _ I El)]|]. intros I1 V1.
  apply keeps_pure. intros [cs w2] E2. apply (Run_virtual_inv name) in E2 as [[I2 V2] C2]; [|done].
  eapply keeps_trans; [exact (conj I2 V2)|]. intros _ _.
  apply keeps_pure. intros l2 El2%deref_Some.
  keeps_set w2; [by eapply lm_inv|]. intros I3 V3.
  apply keeps_schedule; [done| |].
  { cbn. by rewrite (modules_evolves _ _ V3), (modules_evolves _ _ V2), (modules_evolves _ _ V1). }
  intros id s w4 I4 V4. apply keeps_pure. intros l4 El4%deref_Some.
  eapply lm_inv; [done|exact El4|done|exact (lm_commands _ _ _ _ I4 El4)].
Qed.

Lemma restart_lm_keeps name w p : system_inv name w -> p ∈ modules w -> keeps name w (restart_lm p w).
Proof.
  intros I Hp. unfold restart_lm. apply keeps_pure. intros b _.
  apply keeps_bind; [destruct b; [by apply CancelRun_keeps|by split]|]. intros w1 I1 V1.
  apply LmRun_keeps; [done|]. by rewrite (modules_evolves _ _ V1).
Qed.

End lms.

(** ** The Near-RT RIC *)

Section ric.
Context {Q : Type} `{EventQueue Q} `{Platform} `{SqliteLaws} `{RlAgent} `{CppImpl} `{StdSort}.
Implicit Types (w : World Q).

(** A change of the RIC that leaves its modules and what it has collected alone *)
Ltac ric_member w := keeps_set w; [by apply ric_member_inv|].

Lemma schedule_inactivity_keeps name w : system_inv name w -> keeps name w (schedule_inactivity w).
Proof.
  intros I. unfold schedule_inactivity. cbn [GetValue]. ric_member w. intros I1 V1.
  apply keeps_schedule; [done|done|]. intros id s w1 I2 V2. by apply ric_member_inv.
Qed.

Lemma schedule_query_keeps name w : system_inv name w -> keeps name w (schedule_query w).
Proof.
  intros I. unfold schedule_query. apply keeps_schedule; [done|done|]. intros id s w1 I2 V2.
  by apply ric_member_inv.
Qed.

Lemma CheckForInactivity_keeps name w : system_inv name w -> keeps name w (CheckForInactivity w).
Proof.
  intros I. unfold CheckForInactivity. destruct (Ric.m_active (ric w)); [|by split].
  apply keeps_abort_if. intros _. apply keeps_abort_if. intros _. apply keeps_pure. intros l E.
  apply keeps_bind.
  - apply keeps_fold; [done|]. intros x w1 Hx V1 I1. unfold check_node. destruct (_ <? _); [|by split].
    apply ReceiveDeregistrationRequest_keeps; [done|]. apply V1.
    by eapply last_registrations_ok.
  - intros w1 I1 V1. keeps_set w1; [by apply cancel_pending_inv|]. intros I2 V2.
    by apply schedule_inactivity_keeps.
Qed.

Lemma check_modules_default w lm : check_modules w = Ok lm -> w.(ric).(Ric.m_defaultLm) = Some lm.
Proof.
  unfold check_modules. intros E. inv_res. destruct (Ric.m_defaultLm (ric w)); [|done]. by inv_res.
Qed.

Lemma QueryLms_keeps name w : system_inv name w -> keeps name w (QueryLms w).
Proof.
  intros I. unfold QueryLms. destruct (Ric.m_active (ric w)); [|by split].
  apply keeps_pure. intros lm Ed%check_modules_default.
  assert (lm ∈ modules w) as Md by (unfold modules; rewrite Ed; by left).
  assert (forall e, e ∈ w.(ric).(Ric.m_additionalLms) -> e.2 ∈ modules w) as Ma.
  { intros e He. unfold modules. apply elem_of_app. right. apply list_elem_of_fmap. by exists e. }
  ric_member w. intros I0 V0. apply keeps_bind; [by apply CheckForInactivity_keeps|]. intros w1 I1 V1.
  apply keeps_bind.
  { destruct (0 <? _); [|by split]. apply keeps_schedule; [done|done|]. intros id s w2 I2 V2.
    by apply ric_member_inv. }
  intros w2 I2 V2. assert (evolves w w2) as V by (etrans; [exact V0|]; by etrans).
  apply keeps_bind; [apply restart_lm_keeps; [done|by rewrite (modules_evolves _ _ V)]|].
  intros w3 I3 V3. assert (evolves w w3) as V' by (by etrans). apply keeps_bind.
  - unfold for_additional. apply keeps_fold; [done|]. intros e w4 He V4 I4.
    apply restart_lm_keeps; [done|]. rewrite (modules_evolves _ _ V4), (modules_evolves _ _ V').
    apply Ma. by rewrite <- (ev_additional _ _ V').
  - intros w4 I4 V4. by apply schedule_query_keeps.
Qed.

Lemma Filter_inv name w input cs w' :
  system_inv name w -> (forall e, e ∈ input -> commands_ok e.2 w) -> Filter input w = Ok (cs, w') ->
  (system_inv name w' /\ evolves w w') /\ commands_ok cs w.
Proof.
  intros I C E. unfold Filter in E. inv_res. split.
  - assert (keeps name w (LogLogicToStorage "No action taken" w)) as K.
    { unfold LogLogicToStorage. apply keeps_abort_if. intros _. destruct (Cmm.m_verbose _); [|by split].
      apply on_data_keeps; [done|]. intros r r'. apply LogActionCmm_same. }
    by match goal with H : LogLogicToStorage _ _ = _ |- _ => rewrite H in K end.
  - assert (forall acc, commands_ok acc w ->
      commands_ok (foldl (fun commands commandSet => commands ++ commandSet.2) acc input) w) as F;
      [|by apply F, Forall_nil_2].
    clear -C. induction input as [|e input IH]; intros acc A; cbn; [done|]. apply IH.
    + intros e' He'. apply C. by right.
    + apply Forall_app. split; [done|]. apply C. by left.
Qed.

Lemma ProcessLmQueryCommands_keeps name w : system_inv name w -> keeps name w (ProcessLmQueryCommands w).
Proof.
  intros I. unfold ProcessLmQueryCommands. destruct (Ric.m_active (ric w)); [|by split].
  keeps_set w; [by apply cancel_pending_inv|]. intros I1 V1. set (w1 := cancel_pending _ w) in *.
  apply keeps_abort_if. intros _. apply keeps_pure. intros [cs w2] E.
  apply (Filter_inv name) in E as [[I2 V2] C]; [|done|].
  - eapply keeps_trans; [exact (conj I2 V2)|]. intros _ _.
    apply keeps_bind; [apply ProcessCommands_keeps; [done|by eapply commands_ok_evolves]|].
    intros w3 I3 V3. apply ric_inv; try done. by intros e He%elem_of_nil.
  - intros e He. by apply (collected_entries name).
Qed.

(** The key of a module of the RIC is one of the expected ones. *)
Lemma lm_key_expected name w lm l :
  modules_ok name w -> lm ∈ modules w -> w.(lms) !! lm = Some l -> lm_key lm l w ∈ expected_keys name w.
Proof.
  intros [(p & lp & D & L & N) A] Hm El. unfold lm_key, expected_keys. rewrite D. case_bool_decide as E.
  - injection E as ->. rewrite L in El. injection El as ->. rewrite N. by left.
  - right. unfold modules in Hm. rewrite D in Hm. cbn in Hm. apply elem_of_cons in Hm as [->|Hm]; [done|].
    apply list_elem_of_fmap in Hm as (e & -> & He). apply list_elem_of_fmap. exists e. split; [|done].
    rewrite Forall_forall in A. destruct (A e He) as (l' & El' & Nl'). rewrite El in El'.
    injection El' as <-. by rewrite Nl'.
Qed.

(** Replacing the entry of a module of the RIC *)
Lemma collect_inv name w k cs :
  system_inv name w -> k ∈ expected_keys name w -> commands_ok cs w ->
  let w' := set_collected (smap_insert k cs w.(ric).(Ric.m_lmQueryCommands)) w in
  system_inv name w' /\ evolves w w'.
Proof.
  intros I K C w'. apply ric_inv; try done.
  - apply smap_wf_insert; [apply _|]. apply I.
  - intros e He. apply smap_insert_elem in He as [->|He]; [by split|by apply collected_entries].
Qed.

Lemma NotifyLmFinished_keeps name w cycle cs lm :
  system_inv name w -> lm ∈ modules w -> commands_ok cs w -> keeps name w (NotifyLmFinished cycle cs lm w).
Proof.
  intros I Hm C. destruct (w.(lms) !! lm) as [l|] eqn:El; [|by unfold NotifyLmFinished, deref; rewrite El].
  destruct (Z.eqb_spec cycle w.(ric).(Ric.m_lmQueryCycle)) as [Ec|Nc].
  - rewrite (notify_current cycle cs lm l w El Ec).
    pose proof (lm_key_expected name w lm l (si_modules _ _ I) Hm El) as K.
    match goal with |- context [set_collected ?x w] => set (w' := set_collected x w) end.
    assert (system_inv name w' /\ evolves w w') as IV.
    { subst w'. destruct (collecting w); [by apply collect_inv|].
      destruct (Ric.m_lmQueryLateCommandPolicy (ric w)); [|by apply collect_inv].
      unfold reset_entry. destruct (smap_lookup _ _); [apply collect_inv; [done|done|constructor]|].
      by apply ric_member_inv. }
    eapply keeps_trans; [exact IV|]. intros I' _.
    destruct (_ && _); [by apply ProcessLmQueryCommands_keeps|by split].
  - unfold NotifyLmFinished, deref. rewrite El. cbn [res_bind].
    match goal with |- context [match ?x with Some _ => ?a | None => w end] =>
      assert (Ric.m_lmQueryCycle (ric (match x with Some _ => a | None => w end)) = Ric.m_lmQueryCycle (ric w))
        as -> by (by destruct x) end.
    apply Z.eqb_neq in Nc. by rewrite Nc.
Qed.

Lemma FinishRun_keeps name w p : system_inv name w -> p ∈ modules w -> keeps name w (FinishRun p w).
Proof.
  intros I Hp. unfold FinishRun. apply keeps_pure. intros l El%deref_Some.
  destruct (Lm.m_active l); [|by split]. apply keeps_abort_if. intros _.
  apply keeps_bind; [apply NotifyLmFinished_keeps; [done|done|by eapply lm_commands]|].
  intros w1 I1 V1. apply keeps_pure. intros l1 El1%deref_Some. eapply lm_inv; [done|exact El1|done|constructor].
Qed.

Context `{QueryTriggers}.

Lemma ReceiveReport_keeps name w report : system_inv name w -> keeps name w (ReceiveReport report w).
Proof.
  intros I. unfold ReceiveReport. destruct (E2T.m_active (e2t w)); [|by split].
  apply keeps_abort_if. intros _.
  apply keeps_bind; [apply on_data_keeps; [done|intros r r'; apply save_report_same]|].
  intros w1 I1 V1. apply keeps_abort_if. intros _. unfold NotifyReportReceived.
  destruct (existsb _ _); [|by split]. keeps_set w1; [by apply cancel_pending_inv|]. intros I2 V2.
  by apply QueryLms_keeps.
Qed.

End ric.

(** ** Reporters and triggers: they only store reports and schedule triggers *)

Section node.
Context {Q : Type} `{EventQueue Q} `{Platform}.
Implicit Types (w : World Q).

(** A change of reporters, triggers or devices *)
Ltac other w := keeps_set w; [by apply other_inv|].

Lemma set_terminator_same name w p t t' :
  system_inv name w -> w.(terminators) !! p = Some t -> t'.(Term.m_e2NodeId) = t.(Term.m_e2NodeId) ->
  system_inv name (set_terminator p t' w) /\ evolves w (set_terminator p t' w).
Proof.
  intros I Ht E. apply terminator_inv; [done|]. rewrite E. exact (si_ids _ _ I _ _ Ht).
Qed.

Lemma StoreReport_keeps name w p r : system_inv name w -> keeps name w (StoreReport p r w).
Proof.
  intros I. unfold StoreReport. apply keeps_pure. intros t Et%deref_Some.
  destruct (Term.m_active t); [|by split]. by eapply set_terminator_same.
Qed.

Lemma ScheduleNextTrigger_keeps name w p : system_inv name w -> keeps name w (ScheduleNextTrigger p w).
Proof.
  intros I. unfold ScheduleNextTrigger. apply keeps_pure. intros t _.
  destruct (Trigger.class t) as [id rv|]; [|by split]. cbn [GetValue].
  apply keeps_schedule; [done|done|]. intros id' s w1 I1 V1. by apply other_inv.
Qed.

Lemma connect_keeps name w b p r : system_inv name w -> keeps name w (connect b p r w).
Proof.
  intros I. unfold connect. apply keeps_pure. intros rp _. apply keeps_pure. intros t _.
  destruct (Term.m_node t) as [n|]; [|done]. apply keeps_pure. intros nd _. apply keeps_pure. intros l _.
  by apply other_inv.
Qed.

Lemma TriggerActivate_keeps name w p r : system_inv name w -> keeps name w (TriggerActivate p r w).
Proof.
  intros I. unfold TriggerActivate. apply keeps_pure. intros t _. apply keeps_bind.
  - destruct (Trigger.m_active t); [by split|].
    destruct (Trigger.class t); [by apply ScheduleNextTrigger_keeps|by apply connect_keeps].
  - intros w1 I1 V1. unfold TriggerActivate_base. apply keeps_pure. intros t1 _.
    destruct (Trigger.m_active t1); [by split|]. other w1. intros I2 V2. apply keeps_pure. intros rp _.
    by apply other_inv.
Qed.

Lemma TriggerDeactivate_keeps name w p : system_inv name w -> keeps name w (TriggerDeactivate p w).
Proof.
  intros I. unfold TriggerDeactivate. apply keeps_pure. intros t _. apply keeps_bind.
  - destruct (Trigger.m_active t); [|by split]. destruct (Trigger.class t).
    + unfold CancelNextTrigger. apply keeps_pure. intros t1 _.
      destruct (Trigger.class t1); [by apply cancel_pending_inv|by split].
    + destruct (Trigger.m_reporter t); [by apply connect_keeps|done].
  - intros w1 I1 V1. unfold TriggerDeactivate_base. apply keeps_pure. intros t1 _.
    destruct (Trigger.m_active t1); [|by split]. destruct (Trigger.m_reporter t1) as [rp|]; [|done].
    apply keeps_pure. intros r _. other w1. intros I2 V2. by apply other_inv.
Qed.

Lemma ReporterDeactivate_keeps name w p : system_inv name w -> keeps name w (ReporterDeactivate p w).
Proof.
  intros I. unfold ReporterDeactivate. apply keeps_pure. intros r _.
  destruct (Reporter.m_active r); [|by split]. destruct (Reporter.m_trigger r) as [t|]; [|done].
  apply keeps_bind; [by apply TriggerDeactivate_keeps|]. intros w1 I1 V1. apply keeps_pure. intros r1 _.
  by apply other_inv.
Qed.

Lemma ReporterActivate_keeps name w p : system_inv name w -> keeps name w (ReporterActivate p w).
Proof.
  intros I. unfold ReporterActivate. apply keeps_pure. intros r _.
  destruct (Reporter.m_active r); [by apply ReporterDeactivate_keeps|].
  destruct (Reporter.m_terminator r); [|by apply ReporterDeactivate_keeps].
  destruct (Reporter.m_trigger r) as [t|]; [|by apply ReporterDeactivate_keeps].
  other w. intros I1 V1. by apply TriggerActivate_keeps.
Qed.

Lemma PerformReport_keeps name w p : system_inv name w -> keeps name w (PerformReport p w).
Proof.
  intros I. unfold PerformReport. apply keeps_pure. intros r _.
  destruct (Reporter.m_active r); [|by split].
  destruct (Reporter.m_terminator r) as [t|]; [|by apply ReporterDeactivate_keeps].
  apply keeps_pure. intros [reports w1] E.
  assert (system_inv name w1 /\ evolves w w1) as [I1 V1].
  { unfold GenerateReports in E. destruct (deref p (reporters w)) as [r1|]; [|done]. cbn [res_bind] in E.
    destruct (Reporter.m_active r1); inv_res; [by apply other_inv|done]. }
  eapply keeps_trans; [exact (conj I1 V1)|]. intros _ _. apply keeps_fold; [done|].
  intros rp w2 _ _ I2. by apply StoreReport_keeps.
Qed.

Lemma TriggerReport_keeps name w p : system_inv name w -> keeps name w (TriggerReport p w).
Proof.
  intros I. unfold TriggerReport. apply keeps_pure. intros t _. apply keeps_bind.
  - destruct (Trigger.m_active t); [by apply ScheduleNextTrigger_keeps|by split].
  - intros w1 I1 V1. destruct (Trigger.m_reporter t); [by apply PerformReport_keeps|done].
Qed.

Lemma ReporterNotifyRegistrationComplete_keeps name w p :
  system_inv name w -> keeps name w (ReporterNotifyRegistrationComplete p w).
Proof.
  intros I. unfold ReporterNotifyRegistrationComplete. apply keeps_pure. intros r _.
  destruct (Reporter.m_trigger r) as [t|]; [|done]. unfold TriggerNotifyRegistrationComplete.
  apply keeps_pure. intros tr _. destruct (_ && _); [by apply TriggerReport_keeps|by split].
Qed.

End node.

(** ** E2 node terminators *)

Section terminators.
Context {Q : Type} `{EventQueue Q} `{Platform}.
Implicit Types (w : World Q).

Lemma update_terminator_keeps name w p f :
  system_inv name w -> (forall t, (f t).(Term.m_e2NodeId) = t.(Term.m_e2NodeId)) ->
  keeps name w (update_terminator p f w).
Proof.
  intros I F. unfold update_terminator. apply keeps_pure. intros t Et%deref_Some.
  by eapply set_terminator_same.
Qed.

Lemma transmit_keeps name w p e : system_inv name w -> event_ok e w -> keeps name w (transmit p e w).
Proof.
  intros I Ev. unfold transmit. apply keeps_pure. intros t Et%deref_Some. cbn [GetValue].
  keeps_set w; [by eapply set_terminator_same|]. intros I1 V1.
  apply keeps_schedule; [done|by eapply event_ok_evolves|]. intros id s w1 I2 V2. by split.
Qed.

Lemma CancelNextRegistration_keeps name w p : system_inv name w -> keeps name w (CancelNextRegistration p w).
Proof. intros I. unfold CancelNextRegistration. apply keeps_pure. intros t _. by apply cancel_pending_inv. Qed.

Lemma CancelNextSend_keeps name w p : system_inv name w -> keeps name w (CancelNextSend p w).
Proof. intros I. unfold CancelNextSend. apply keeps_pure. intros t _. by apply cancel_pending_inv. Qed.

(** A stream is drawn from, and an event without conditions scheduled. *)
Lemma ScheduleNextSend_keeps name w p : system_inv name w -> keeps name w (ScheduleNextSend p w).
Proof.
  intros I. unfold ScheduleNextSend. apply keeps_pure. intros t Et%deref_Some.
  destruct (Term.m_active t); [|by split]. cbn [GetValue].
  keeps_set w; [by eapply set_terminator_same|]. intros I1 V1.
  apply keeps_schedule; [done|done|]. intros id s w1 I2 V2. by apply update_terminator_keeps.
Qed.

Lemma Register_keeps name w p : system_inv name w -> keeps name w (Register p w).
Proof.
  intros I. unfold Register. apply keeps_pure. intros t Et%deref_Some.
  destruct (Term.m_active t); [|by split]. apply keeps_abort_if. intros _.
  apply keeps_bind; [by apply CancelNextRegistration_keeps|]. intros w1 I1 V1.
  apply keeps_bind; [apply transmit_keeps; [done|]; cbn; apply V1; by eexists|]. intros w2 I2 V2.
  apply keeps_pure. intros t2 Et2%deref_Some. cbn [GetValue].
  keeps_set w2; [by eapply set_terminator_same|]. intros I3 V3.
  apply keeps_schedule; [done|done|]. intros id s w3 I4 V4. by apply update_terminator_keeps.
Qed.

Lemma Deregister_keeps name w p :
  system_inv name w -> (forall t, w.(terminators) !! p = Some t -> t.(Term.m_e2NodeId) <> 0) ->
  keeps name w (Deregister p w).
Proof.
  intros I N. unfold Deregister. apply keeps_pure. intros t Et%deref_Some. apply keeps_abort_if. intros _.
  apply keeps_bind; [by apply CancelNextRegistration_keeps|]. intros w1 I1 V1.
  apply transmit_keeps; [done|]. cbn. apply V1, (si_ids _ _ I p t Et). by eapply N.
Qed.

(** Deactivating a reporter leaves the terminators, the RIC's side and the clock alone. *)
Definition off_frame w w' : Prop :=
  w'.(terminators) = w.(terminators) /\ w'.(e2t) = w.(e2t) /\ w'.(data) = w.(data) /\
  w'.(sim).(m_currentTs) = w.(sim).(m_currentTs) /\ w'.(sim).(m_uid) = w.(sim).(m_uid).

Lemma off_frame_refl w : off_frame w w.
Proof. done. Qed.
Lemma off_frame_trans w w1 w2 : off_frame w w1 -> off_frame w1 w2 -> off_frame w w2.
Proof. unfold off_frame. intuition congruence. Qed.

Lemma connect_frame b p r w w' : connect b p r w = Ok w' -> off_frame w w'.
Proof.
  unfold connect. intros E. inv_res. destruct (Term.m_node _); [|done]. by inv_res.
Qed.

Lemma TriggerDeactivate_frame p w w' : TriggerDeactivate p w = Ok w' -> off_frame w w'.
Proof.
  unfold TriggerDeactivate. intros E. destruct (deref p (triggers w)) as [t|]; [|done]. cbn [res_bind] in E.
  match type of E with res_bind ?m _ = _ => destruct m as [w1|] eqn:E1; [|done] end. cbn [res_bind] in E.
  apply (off_frame_trans w w1); [clear E|clear E1].
  2: { unfold TriggerDeactivate_base in E. destruct (deref p (triggers w1)) as [t1|]; [|done]. cbn [res_bind] in E.
    destruct (Trigger.m_active t1); [|by inv_res]. destruct (Trigger.m_reporter t1); [|done]. by inv_res. }
  destruct (Trigger.m_active t); [|by inv_res]. destruct (Trigger.class t).
  - unfold CancelNextTrigger in E1. destruct (deref p (triggers w)) as [t2|]; [|done]. cbn [res_bind] in E1.
    destruct (Trigger.class t2) as [id rv|]; [|by inv_res]. injection E1 as <-.
    destruct (cancel_pending_frame id w) as (s & -> & T & U & _). by split_and!.
  - destruct (Trigger.m_reporter t); [|done]. by apply connect_frame in E1.
Qed.

Lemma ReporterDeactivate_frame p w w' : ReporterDeactivate p w = Ok w' -> off_frame w w'.
Proof.
  unfold ReporterDeactivate. intros E. destruct (deref p (reporters w)) as [r|]; [|done]. cbn [res_bind] in E.
  destruct (Reporter.m_active r); [|by inv_res]. destruct (Reporter.m_trigger r) as [t|]; [|done].
  destruct (TriggerDeactivate t w) as [w1|] eqn:E1; [|done]. cbn [res_bind] in E.
  apply TriggerDeactivate_frame in E1. apply (off_frame_trans w w1); [exact E1|]. by inv_res.
Qed.

Lemma reporters_off_frame l w w' : res_fold ReporterDeactivate l w = Ok w' -> off_frame w w'.
Proof.
  intros E. eapply (res_fold_inv (off_frame w)); [|apply off_frame_refl|exact E].
  intros r w2 w3 _ F E3%ReporterDeactivate_frame. by eapply off_frame_trans.
Qed.

(** A terminator the RIC knows by a node id can be deactivated. *)
Lemma TermDeactivate_keeps name w p :
  system_inv name w ->
  (forall t, w.(terminators) !! p = Some t -> t.(Term.m_active) = true -> t.(Term.m_e2NodeId) <> 0) ->
  keeps name w (TermDeactivate p w).
Proof.
  intros I N. unfold TermDeactivate. apply keeps_pure. intros t Et%deref_Some.
  destruct (Term.m_active t) eqn:A; [|by split].
  destruct (res_fold ReporterDeactivate (Term.m_reporters t) w) as [w1|] eqn:E1; [|done].
  assert (keeps name w (res_fold ReporterDeactivate (Term.m_reporters t) w)) as K1.
  { apply keeps_fold; [done|]. intros r w' _ _ I'. by apply ReporterDeactivate_keeps. }
  assert (terminators w1 = terminators w) as T1.
  { by apply reporters_off_frame in E1 as [? _]. }
  rewrite E1 in K1. cbn [res_bind]. eapply keeps_trans; [exact K1|]. intros I1 V1.
  destruct (CancelNextSend p w1) as [w2|] eqn:E2; [|done]. cbn [res_bind].
  pose proof (CancelNextSend_keeps name w1 p I1) as K2. rewrite E2 in K2.
  assert (terminators w2 = terminators w) as T2.
  { unfold CancelNextSend in E2. rewrite <- T1. inv_res. unfold cancel_pending. by destruct (pending _ w1). }
  eapply keeps_trans; [exact K2|]. intros I2 V2. apply keeps_bind.
  - apply Deregister_keeps; [done|]. rewrite T2, Et. intros t' [= <-]. by apply N.
  - intros w3 I3 V3. by apply update_terminator_keeps.
Qed.

Lemma TermActivate_keeps name w p : system_inv name w -> keeps name w (TermActivate p w).
Proof.
  intros I. unfold TermActivate. apply keeps_pure. intros t Et%deref_Some.
  destruct (Term.m_nearRtRic t); cbn [negb].
  - destruct (Term.m_active t); [by split|]. keeps_set w; [by eapply set_terminator_same|]. intros I1 V1.
    apply keeps_bind; [by apply Register_keeps|]. intros w1 I2 V2.
    apply keeps_fold; [done|]. intros r w2 _ _ I3. by apply ReporterActivate_keeps.
  - keeps_set w; [by eapply set_terminator_same|]. intros I1 V1. apply TermDeactivate_keeps; [done|].
    intros t'. change (terminators (set_terminator p (t <| Term.m_active := false |>) w))
      with (<[p := t <| Term.m_active := false |>]> w.(terminators)).
    rewrite lookup_insert_eq. by intros [= <-].
Qed.

Lemma ReceiveRegistrationResponse_keeps name w p e :
  system_inv name w -> addressable e w -> keeps name w (ReceiveRegistrationResponse p e w).
Proof.
  intros I A. unfold ReceiveRegistrationResponse. apply keeps_pure. intros t Et%deref_Some.
  destruct (Term.m_active t); [|by split]. apply keeps_bind.
  - destruct (_ =? e); [by split|]. keeps_set w; [by apply terminator_inv|]. intros I1 V1.
    destruct (0 <? e); [|by split]. apply keeps_fold; [done|]. intros r w1 _ _ I2.
    by apply ReporterNotifyRegistrationComplete_keeps.
  - intros w1 I1 V1. by apply ScheduleNextSend_keeps.
Qed.

Lemma ReceiveDeregistrationResponse_keeps name w p e :
  system_inv name w -> keeps name w (ReceiveDeregistrationResponse p e w).
Proof.
  intros I. unfold ReceiveDeregistrationResponse, update_terminator. apply keeps_pure. intros t _.
  by apply terminator_inv.
Qed.

Lemma DoSendReports_keeps name w p : system_inv name w -> keeps name w (DoSendReports p w).
Proof.
  intros I. unfold DoSendReports. apply keeps_pure. intros t _. destruct (Term.m_active t); [|by split].
  apply keeps_abort_if. intros _. apply keeps_bind.
  - apply keeps_fold; [done|]. intros r w1 _ _ I1. by apply transmit_keeps.
  - intros w1 I1 V1. apply keeps_bind; [by apply update_terminator_keeps|]. intros w2 I2 V2.
    by apply ScheduleNextSend_keeps.
Qed.

Lemma ReceiveCommand_keeps name w p c : system_inv name w -> keeps name w (ReceiveCommand p c w).
Proof.
  intros I. unfold ReceiveCommand. apply keeps_pure. intros t _. destruct (Term.m_active t); [|by split].
  destruct (Term.type t); [by split|by split|]. destruct (cmd_body c); [| |by split].
  - apply keeps_pure. intros g _. destruct (Term.m_node t) as [nd|]; [|done].
    apply keeps_pure. intros nd' _. by apply other_inv.
  - apply keeps_pure. intros g _. destruct (Term.m_node t) as [nd|]; [|done].
    apply keeps_pure. intros nd' _. by apply other_inv.
Qed.

End terminators.

(** ** Switching on and off *)

Section lifecycle.
Context {Q : Type} `{EventQueue Q} `{Platform}.
Implicit Types (w : World Q).

Lemma LmActivate_keeps name w p : system_inv name w -> keeps name w (LmActivate p w).
Proof.
  intros I. unfold LmActivate. apply keeps_pure. intros l El%deref_Some. apply keeps_abort_if. intros _.
  eapply lm_inv; [done|exact El|done|exact (lm_commands _ _ _ _ I El)].
Qed.

Lemma LmDeactivate_keeps name w p : system_inv name w -> keeps name w (LmDeactivate p w).
Proof.
  intros I. unfold LmDeactivate. apply keeps_pure. intros l El%deref_Some.
  keeps_set w; [eapply lm_inv; [done|exact El|done|exact (lm_commands _ _ _ _ I El)]|]. intros I1 V1.
  apply keeps_pure. intros b _. destruct b; [by apply CancelRun_keeps|by split].
Qed.

Lemma e2t_flag_inv name w b :
  system_inv name w ->
  let w' := set_e2t (w.(e2t) <| E2T.m_active := b |>) w in system_inv name w' /\ evolves w w'.
Proof. intros I. by apply e2t_inv; [|intros i A; exact A]. Qed.

(** Opening a database gives the tables of the file, or empty ones. *)
Lemma new_db_ok w : registrations_ok InitDb_new w.
Proof. split; constructor. Qed.

Lemma Activate_keeps name w : system_inv name w -> keeps name w (on_data Repository.Activate w).
Proof.
  intros I. unfold on_data. apply keeps_pure. intros d E.
  pose proof (si_repo _ _ I) as R. unfold databases in R. apply Forall_cons in R as [Rf R].
  unfold Repository.Activate, OpenDb in E. destruct (m_db (data w)) as [d0|] eqn:E0.
  - unfold IsDbOpen in E. cbn in E. rewrite E0 in E. cbn in E. inv_res.
    apply data_inv; [done| |intros _; by exists d0]. unfold databases. cbn. rewrite E0. by apply Forall_cons.
  - unfold IsDbOpen in E. cbn in E. rewrite E0 in E. cbn in E. inv_res.
    apply data_inv; [done| |intros _; by eexists]. unfold databases. cbn.
    repeat (apply Forall_cons; split); [done| |constructor].
    destruct (names_file _); [done|apply new_db_ok].
Qed.

Lemma Deactivate_inv name w :
  system_inv name w ->
  let w' := w <| data := Repository.Deactivate w.(data) |> in system_inv name w' /\ evolves w w'.
Proof.
  intros I. pose proof (si_repo _ _ I) as R. unfold databases in R. apply Forall_cons in R as [Rf R].
  apply data_inv; [done| |done]. unfold Repository.Deactivate, CloseDb, IsDbOpen, databases.
  destruct (m_db (data w)) as [d0|] eqn:E0; cbn; [|rewrite E0; by apply Forall_cons].
  apply Forall_cons in R as [R _].
  destruct (names_file _); cbn; by repeat (apply Forall_cons; split).
Qed.

Lemma for_additional_keeps name w f :
  system_inv name w -> (forall p w', system_inv name w' -> keeps name w' (f p w')) ->
  keeps name w (for_additional f w.(ric).(Ric.m_additionalLms) w).
Proof. intros I F. unfold for_additional. apply keeps_fold; [done|]. intros a w' _ _ I'. by apply F. Qed.

Lemma cmm_inv name w c : system_inv name w -> let w' := w <| cmm := c |> in system_inv name w' /\ evolves w w'.
Proof. intros I. by apply other_inv. Qed.

Lemma RicActivate_keeps name w : system_inv name w -> keeps name w (RicActivate w).
Proof.
  intros I. unfold RicActivate. apply keeps_pure. intros lm _.
  destruct (Ric.m_active (ric w)); [by split|].
  keeps_set w; [by apply ric_member_inv|]. intros I1 V1. set (w1 := set_ric _ w) in *.
  apply (keeps_trans name w1 (E2TActivate w1)); [by apply e2t_flag_inv|]. intros I2 V2.
  apply keeps_bind; [by apply Activate_keeps|]. intros w3 I3 V3.
  apply keeps_bind; [by apply LmActivate_keeps|]. intros w4 I4 V4.
  apply keeps_bind; [apply for_additional_keeps; [done|]; intros; by apply LmActivate_keeps|].
  intros w5 I5 V5. unfold CmmActivate. apply keeps_abort_if. intros _. by apply cmm_inv.
Qed.

Lemma RicDeactivate_keeps name w : system_inv name w -> keeps name w (RicDeactivate w).
Proof.
  intros I. unfold RicDeactivate. apply keeps_bind; [|intros w1 I1 V1; by apply ric_member_inv].
  destruct (Ric.m_active (ric w)); [|by split]. apply keeps_pure. intros lm _.
  apply (keeps_trans name w (E2TDeactivate w)); [by apply e2t_flag_inv|]. intros I1 V1.
  eapply keeps_trans; [by apply Deactivate_inv|]. intros I2 V2.
  apply keeps_bind; [by apply LmDeactivate_keeps|]. intros w3 I3 V3.
  apply keeps_bind; [apply for_additional_keeps; [done|]; intros; by apply LmDeactivate_keeps|].
  intros w4 I4 V4. by apply cmm_inv.
Qed.

Lemma Start_keeps name w : system_inv name w -> keeps name w (Start w).
Proof.
  intros I. unfold Start. apply keeps_bind; [by apply RicActivate_keeps|]. intros w1 I1 V1.
  apply keeps_abort_if. intros _. apply keeps_abort_if. intros _.
  apply keeps_bind; [by apply schedule_query_keeps|]. intros w2 I2 V2. by apply schedule_inactivity_keeps.
Qed.

Lemma Stop_keeps name w : system_inv name w -> keeps name w (Stop w).
Proof.
  intros I. unfold Stop. apply keeps_bind; [by apply RicDeactivate_keeps|]. intros w1 I1 V1.
  eapply keeps_trans; [by apply cancel_inv|]. intros I2 V2.
  eapply keeps_trans; [by apply cancel_inv|]. intros I3 V3. by apply cancel_inv.
Qed.

End lifecycle.

(** ** The system *)

Section system.
Context {Q : Type} `{EventQueue Q} `{Platform} `{SqliteLaws} `{RlAgent} `{CppImpl} `{StdSort}.
Context `{QueryTriggers}.
Implicit Types (w : World Q).

Lemma handle_keeps name w e : system_inv name w -> event_ok e w -> keeps name w (handle e w).
Proof.
  intros I Ev. destruct e as [lm| | | |[t|] id|[t|] id|[t|] c|ty id t|id|r|t|t|t|t]; cbn [handle event_ok] in *;
    try (by destruct Ev).
  - by apply FinishRun_keeps.
  - by apply QueryLms_keeps.
  - by apply CheckForInactivity_keeps.
  - by apply ProcessLmQueryCommands_keeps.
  - destruct Ev as [_ A]. by apply ReceiveRegistrationResponse_keeps.
  - by apply ReceiveDeregistrationResponse_keeps.
  - by apply ReceiveCommand_keeps.
  - by apply ReceiveRegistrationRequest_keeps.
  - by apply ReceiveDeregistrationRequest_keeps.
  - by apply ReceiveReport_keeps.
  - by apply Register_keeps.
  - by apply DoSendReports_keeps.
  - by apply TriggerReport_keeps.
  - by apply TermActivate_keeps.
Qed.

(** The clock moves to the event taken; the events bound and those of other threads stay. *)
Lemma take_next_frame (s s' : Sim Q OranEvent) next :
  take_next s = Ok (next, s') ->
  s'.(impls) = s.(impls) /\ s'.(m_eventsWithContext) = s.(m_eventsWithContext) /\
  s.(m_currentTs) <= s'.(m_currentTs) /\ s'.(next_impl) = s.(next_impl).
Proof.
  unfold take_next. destruct (RemoveNext (m_events s)) as [[n q]|]; [|done]. cbn [res_bind].
  unfold abort_if. destruct (Z.ltb_spec (m_ts (key n)) (m_currentTs s)); [done|]. cbn [res_bind].
  intros [= <- <-]. done.
Qed.

Lemma step_keeps name w : system_inv name w -> keeps name w (step w).
Proof.
  intros I. unfold step, ProcessOneEvent. cbn [fst snd].
  destruct (take_next (sim w)) as [[next s1]|] eqn:T; [|done]. cbn [res_bind].
  apply take_next_frame in T as (Ei & Ec & Et & _). pose proof (si_context _ _ I) as C. rewrite <- Ec in C.
  assert (system_inv name (w <| sim := s1 |>) /\ evolves w (w <| sim := s1 |>)) as [I1 V1].
  { apply sim_inv; [done|rewrite Ei; apply I|done..]. }
  unfold Invoke. cbn [fst snd]. rewrite Ei.
  destruct (impls (sim w) !! _) as [i|] eqn:Hi; [|done]. pose proof (si_events _ _ I _ _ Hi) as Ev.
  destruct (m_cancel i); cbn [negb res_bind fst snd].
  - unfold ProcessEventsWithContext. rewrite C. cbn [res_fold res_bind fst snd].
    apply sim_inv; [done| |done|]; cbn; [rewrite Ei; apply I|done].
  - unfold notify. cbn [fst snd]. eapply keeps_trans; [exact (conj I1 V1)|]. intros _ _.
    pose proof (handle_keeps name (w <| sim := s1 |>) (payload i) I1
      (event_ok_evolves _ _ _ V1 Ev)) as K.
    destruct (handle (payload i) (w <| sim := s1 |>)) as [w2|]; [|done]. destruct K as [I2 V2].
    cbn [res_bind fst snd]. unfold ProcessEventsWithContext. rewrite (si_context _ _ I2).
    cbn [res_fold res_bind fst snd]. eapply keeps_trans; [exact (conj I2 V2)|]. intros _ _.
    apply sim_inv; [done|apply I2|done|]. done.
Qed.

End system.
