(* ===== verification/SystemProps.v ===== *)
(** The composed system: what is planned is what the kernel runs. *)
From Stdlib Require Import ZArith Lia.
From stdpp Require Import base list gmap strings sets.
From S2P Require Import Prelude OrdMap EventQueue Simulator Messages Repository RepositoryFacts World RlLm RlLmProps.
From S2P Require Import MoniLm LogicModule RicE2Term NearRtRic RicFacts Reporters E2Node WorldExamples RicProps System.
Open Scope Z_scope.
Section system_facts.
Context {Q : Type} `{EventQueueLaws Q} `{Platform} `{Sqlite} `{RlAgent} `{CppImpl} `{StdSort}.
Context `{QueryTriggers}.
Implicit Types (w : World Q).

(** The event at the head of the agenda: skipped when it is cancelled, handled otherwise. *)
Lemma step_head w ev l :
  kernel_inv w.(sim) (ev :: l) ->
  exists s', kernel_inv s' l /\ s'.(m_currentTs) = ev.(key).(m_ts) /\ s'.(impls) = w.(sim).(impls) /\
    s'.(m_uid) = w.(sim).(m_uid) /\
    step w = match live_event w.(sim) ev with
             | None => Ok (w <| sim := s' |>)
             | Some (_, e) =>
                 let* w2 := handle e (w <| sim := s' |>) in
                 let* s := ProcessEventsWithContext w2.(sim) in Ok (w2 <| sim := s |>)
             end.
Proof.
  intros I. destruct (take_next_ok _ l ev I) as (s' & T & I' & F1 & _ & _ & F2 & _ & F3 & _).
  exists s'. split; [done|]. split; [done|]. split; [done|]. split; [done|].
  unfold step, ProcessOneEvent. cbn [fst snd]. rewrite T. cbn [res_bind]. unfold Invoke. cbn [fst snd].
  rewrite F2. unfold live_event. pose proof (inv_live _ _ I) as L. apply Forall_cons in L as [[i Hi] _].
  rewrite Hi. destruct (m_cancel i); cbn [negb res_bind fst snd].
  - by rewrite (process_ewc_nil _ _ I').
  - unfold notify. cbn [fst snd]. destruct (handle (payload i) (w <| sim := s' |>)) as [w2|]; [|done].
    cbn [res_bind fst snd]. by destruct (ProcessEventsWithContext (sim w2)).
Qed.

(** The next event of the plan, after the cancelled ones before it *)
Lemma next_event w t e pl :
  plan w ((t, e) :: pl) ->
  exists n s1, s1.(m_currentTs) = t /\ s1.(m_uid) = w.(sim).(m_uid) /\ sim_plan s1 pl /\
    steps (S n) w = (let* w2 := handle e (w <| sim := s1 |>) in
                     let* s := ProcessEventsWithContext w2.(sim) in Ok (w2 <| sim := s |>)).
Proof.
  intros (l & I & L). revert w I L. induction l as [|ev l IH]; intros w I L; [done|].
  destruct (step_head w ev l I) as (s' & I' & T & Ei & U & E). rewrite live_cons in L.
  assert (live s' l = live w.(sim) l) as Lv.
  { clear -Ei. induction l as [|x l IH]; [done|]. rewrite !live_cons, IH. unfold live_event. by rewrite Ei. }
  destruct (live_event w.(sim) ev) as [[t' e']|] eqn:Le.
  - injection L as -> -> L. exists 0%nat, s'. split.
    { rewrite T. unfold live_event in Le. repeat case_match; simplify_eq. done. }
    split; [done|]. split; [exists l; by rewrite Lv|]. cbn [steps]. rewrite E.
    destruct (handle e _) as [w2|]; [|done]. cbn [res_bind].
    by destruct (ProcessEventsWithContext (sim w2)).
  - destruct (IH (w <| sim := s' |>)) as (n & s1 & T1 & U1 & P1 & E1); [done|exact (eq_trans Lv L)|].
    exists (S n), s1. split; [done|]. split; [exact (eq_trans U1 U)|]. split; [done|].
    change (steps (S (S n)) w) with (let* w := step w in steps (S n) w). rewrite E. cbn [res_bind].
    exact E1.
Qed.

End system_facts.

(** the system does what is planned: from a world whose plan starts with the event [e] at
    time [t], the kernel skips the cancelled events, moves the clock to [t] and runs the
    handler of [e] on a world with the rest of the plan and nothing else changed. *)
Theorem next_event_handled {Q} `{EventQueueLaws Q} `{Platform} `{Sqlite} `{RlAgent} `{CppImpl} `{StdSort}
    `{QueryTriggers} (w : World Q) t e pl :
  plan w ((t, e) :: pl) ->
  exists n w1, now w1 = t /\ plan w1 pl /\ (exists s1, w1 = w <| sim := s1 |>) /\
    steps (S n) w = (let* w2 := handle e w1 in
                     let* s := ProcessEventsWithContext w2.(sim) in Ok (w2 <| sim := s |>)).
Proof.
  intros P. destruct (next_event w t e pl P) as (n & s1 & T & _ & P1 & E).
  exists n, (w <| sim := s1 |>). split; [exact T|]. split; [exact P1|]. split; [by exists s1|exact E].
Qed.

(** The example with one registration planned *)
Definition planned_world : World (list Event) :=
  match schedule 4 (ev_Register 0) example_world with Ok (_, w) => w | Abort _ => example_world end.

Lemma planned_world_plan : plan planned_world [(4, ev_Register 0)].
Proof.
  destruct (schedule_plan example_world [] 9 0 4 (ev_Register 0) example_plan) as (id & s' & E & _ & P & _);
    [split; [done|cbn; unfold UID_VALID; lia]|lia|].
  unfold planned_world. rewrite E. exact P.
Qed.

Theorem next_event_handled_witness :
  let sq := engine true in let cpp := some_cpp in
  exists n w1, now w1 = 4 /\ plan w1 [] /\ (exists s1, w1 = planned_world <| sim := s1 |>) /\
    steps (S n) planned_world = (let* w2 := handle (ev_Register 0) w1 in
      let* s := ProcessEventsWithContext w2.(sim) in Ok (w2 <| sim := s |>)).
Proof. intros sq cpp. apply (next_event_handled planned_world 4 (ev_Register 0) []), planned_world_plan. Defined.
