(* ===== verification/InvariantProps.v ===== *)
(** The invariant in every world the system reaches, and where it is lost. *)
From Stdlib Require Import ZArith Lia.
From stdpp Require Import base list gmap strings sets.
From S2P Require Import Prelude OrdMap EventQueue Simulator Messages Repository RepositoryFacts World RlLm RlLmProps.
From S2P Require Import MoniLm LogicModule RicFacts RicE2Term NearRtRic Reporters E2Node WorldExamples RicProps.
From S2P Require Import QueryProps E2Props NodeProps System SystemProps Invariant InvariantFacts.
Open Scope Z_scope.
Section reachable.
Context {Q : Type} `{EventQueue Q} `{Platform} `{Sqlite} `{RlAgent} `{CppImpl} `{StdSort}.
Context `{QueryTriggers}.
Implicit Types (w : World Q).

(** What happens to the system: an event of the kernel, a call of the simulation script, a
    trace callback, or anything to the devices and positions of the nodes. *)
Inductive call : Type :=
| call_event
| call_Start
| call_Stop
| call_RicActivate
| call_RicDeactivate
| call_TermActivate (p : nat)
| call_TermDeactivate (p : nat)
| call_StoreReport (p : nat) (report : OranReport)
| call_HandoverSink (p : nat)
| call_ReportCqi (p : nat) (rnti cqi mcs ri : Z)
| call_ReportRsrpRsrq (p : nat) (rnti cellId : Z) (rsrp rsrq : double) (serving : bool) (cc : Z)
| call_sample (f : Z -> ReporterClass -> ReporterClass) (p : nat)
| call_nodes (ns : gmap nat Node).

Definition perform (c : call) w : res (World Q) :=
  match c with
  | call_event => step w
  | call_Start => Start w
  | call_Stop => Stop w
  | call_RicActivate => RicActivate w
  | call_RicDeactivate => RicDeactivate w
  | call_TermActivate p => TermActivate p w
  | call_TermDeactivate p => TermDeactivate p w
  | call_StoreReport p report => StoreReport p report w
  | call_HandoverSink p => HandoverSink p w
  | call_ReportCqi p rnti cqi mcs ri => ReportCqi p rnti cqi mcs ri w
  | call_ReportRsrpRsrq p rnti cellId rsrp rsrq serving cc =>
      ReportRsrpRsrq p rnti cellId rsrp rsrq serving cc w
  | call_sample f p => on_reporter f p w
  | call_nodes ns => Ok (w <| nodes := ns |>)
  end.

(** An active terminator is only switched off once the RIC has given it a node id. *)
Definition in_time (c : call) w : Prop :=
  match c with
  | call_TermDeactivate p => forall t, w.(terminators) !! p = Some t ->
      t.(Term.m_active) = true -> t.(Term.m_e2NodeId) <> 0
  | _ => True
  end.

Inductive reachable w0 : World Q -> Prop :=
| reach_start : reachable w0 w0
| reach_call c w w' : reachable w0 w -> in_time c w -> perform c w = Ok w' -> reachable w0 w'.

(** A system that is set up and has not run: nothing is planned, collected or registered. *)
Record fresh (name : string) w : Prop := {
  fr_events : w.(sim).(impls) = ∅;
  fr_context : w.(sim).(m_eventsWithContext) = [];
  fr_data : Forall (fun d => d.(noderegistration) = t_empty) (databases w.(data));
  fr_open : repo_sound w.(data);
  fr_modules : modules_ok name w;
  fr_additional : smap_wf w.(ric).(Ric.m_additionalLms);
  fr_commands : w.(ric).(Ric.m_lmQueryCommands) = [];
  fr_lms : map_Forall (fun _ l => l.(Lm.m_commands) = []) w.(lms);
  fr_ids : map_Forall (fun _ t => t.(Term.m_e2NodeId) = 0) w.(terminators)
}.

Lemma fresh_inv name w : fresh name w -> system_inv name w.
Proof.
  intros F. split; try apply F.
  - rewrite (fr_events _ _ F). apply map_Forall_empty.
  - eapply Forall_impl; [exact (fr_data _ _ F)|]. intros d Ed. unfold registrations_ok. rewrite Ed.
    split; constructor.
  - intros p l Hl. rewrite (fr_lms _ _ F p l Hl). constructor.
  - split; [|apply F|]; rewrite (fr_commands _ _ F); [constructor|]. by intros k []%elem_of_nil.
  - by rewrite (fr_commands _ _ F).
  - intros p t Ht N. by rewrite (fr_ids _ _ F p t Ht) in N.
Qed.

End reachable.

Section keeps.
Context {Q : Type} `{EventQueue Q} `{Platform} `{SqliteLaws} `{RlAgent} `{CppImpl} `{StdSort}.
Context `{QueryTriggers}.
Implicit Types (w : World Q).

Lemma report_keeps name w p (f : Reporter.OranReporter -> res (World Q)) :
  system_inv name w -> (forall r w', f r = Ok w' -> w' = w \/ exists r', w' = set_reporter p r' w) ->
  keeps name w (let* r := deref p w.(reporters) in f r).
Proof.
  intros I F. apply keeps_pure. intros r _. destruct (f r) as [w'|] eqn:E; [|done].
  apply F in E as [->|[r' ->]]; [by split|by apply other_inv].
Qed.

Lemma perform_keeps name w c : system_inv name w -> in_time c w -> keeps name w (perform c w).
Proof.
  intros I T. destruct c; cbn [perform in_time] in *.
  - by apply step_keeps.
  - by apply Start_keeps.
  - by apply Stop_keeps.
  - by apply RicActivate_keeps.
  - by apply RicDeactivate_keeps.
  - by apply TermActivate_keeps.
  - by apply TermDeactivate_keeps.
  - by apply StoreReport_keeps.
  - by apply TriggerReport_keeps.
  - apply (report_keeps name w p); [done|]. intros r w' E.
    destruct (Reporter.class r); try (inv_res; by left).
    destruct (Reporter.m_active r); [|inv_res; by left].
    destruct (deref_ptr _ _); [|done]. cbn in E. inv_res. right. by eexists.
  - apply (report_keeps name w p); [done|]. intros r w' E.
    destruct (Reporter.class r); try (inv_res; by left).
    destruct (Reporter.m_active r); [|inv_res; by left].
    destruct (deref_ptr _ _); [|done]. cbn in E. inv_res. right. by eexists.
  - apply (report_keeps name w p); [done|]. intros r w' E. inv_res. right. by eexists.
  - by apply other_inv.
Qed.

Lemma reachable_keeps name w0 w :
  system_inv name w0 -> reachable w0 w -> system_inv name w /\ evolves w0 w.
Proof.
  intros I R. induction R as [|c w w' R [I1 V1] T E]; [by split|].
  pose proof (perform_keeps name w c I1 T) as K. rewrite E in K. destruct K as [I2 V2].
  split; [done|by etrans].
Qed.

End keeps.

(** C10: a system that has been set up and then gone through any events, calls of the script
    and trace callbacks ([call]), none of which switches an active terminator off while it has no
    node id from the RIC ([in_time]), satisfies the invariant: what is collected is of modules the RIC
    has, each under its own key, so the count of NotifyLmFinished is exact; the database is
    open while the repository is active; no registration lies in the future; and every
    command, held, collected or planned, goes to a node the RIC reaches. *)
Theorem reachable_invariant {Q} `{EventQueue Q} `{Platform} `{SqliteLaws} `{RlAgent} `{CppImpl} `{StdSort}
    `{QueryTriggers} (w0 w : World Q) name :
  fresh name w0 -> reachable w0 w -> system_inv name w.
Proof. intros F R. by apply (reachable_keeps name w0 w (fresh_inv name w0 F)). Qed.

(** The terminator a message is for, when the event is one *)
Definition recipient (e : OranEvent) : option (option nat) :=
  match e with
  | ev_ReceiveRegistrationResponse t _ | ev_ReceiveDeregistrationResponse t _ | ev_ReceiveCommand t _ => Some t
  | ev_ReceiveRegistrationRequest _ _ t => Some (Some t)
  | _ => None
  end.

(** The RIC reaches the terminator of the node [e]. *)
Definition reaches {Q} (w : World Q) (e : Z) : Prop :=
  exists p t, terminator_at e w = Some p /\ w.(terminators) !! p = Some t.

Lemma addressable_reaches {Q} (w : World Q) e : addressable e w -> reaches w e.
Proof. intros (_ & p & Hp & [t Ht]). by exists p, t. Qed.

Lemma recipient_ok {Q} (w : World Q) e t :
  event_ok e w -> recipient e = Some t -> exists p tm, t = Some p /\ w.(terminators) !! p = Some tm.
Proof.
  intros E R. assert (terminator_ok t w) as T.
  { destruct e; cbn in *; try done; injection R as <-; cbn in *; by destruct_and?. }
  destruct t as [p|]; [|done]. destruct T as [tm Ht]. by exists p, tm.
Qed.

(** C9: no message is sent to a null terminator as long as no active terminator is switched off
    while it has no node id from the RIC ([in_time]): in every world such a system reaches, the
    messages under way are for terminators that exist, the nodes the inactivity check
    goes through have been registered in the past and are reached by the RIC, and so are
    the targets of the collected commands. *)
Theorem no_null_terminator {Q} `{EventQueue Q} `{Platform} `{SqliteLaws} `{RlAgent} `{CppImpl} `{StdSort}
    `{QueryTriggers} (w0 w : World Q) name :
  fresh name w0 -> reachable w0 w ->
  (forall q i t, w.(sim).(impls) !! q = Some i -> recipient i.(payload) = Some t ->
     exists p tm, t = Some p /\ w.(terminators) !! p = Some tm) /\
  (forall l id time, GetLastRegistrationRequests w.(data) = Ok l -> (id, time) ∈ l ->
     time <= now w /\ reaches w id) /\
  (forall e c, e ∈ w.(ric).(Ric.m_lmQueryCommands) -> c ∈ e.2 -> reaches w c.(TargetE2NodeId)).
Proof.
  intros F R. destruct (reachable_keeps name w0 w (fresh_inv name w0 F) R) as [I _]. split; [|split].
  - intros q i t Hi. apply recipient_ok. exact (si_events _ _ I q i Hi).
  - intros l id time E He. destruct (last_registrations_ok name w l (id, time) I E He) as [A T].
    split; [exact T|by apply addressable_reaches].
  - intros e c He Hc. apply addressable_reaches. pose proof (si_commands _ _ I) as C.
    rewrite Forall_forall in C. specialize (C e He). unfold commands_ok in C. rewrite Forall_forall in C. auto.
Qed.

(** *** A run for the witnesses *)

(** The example before it is started: nothing is active and nothing is registered. *)
Definition fresh_world : World (list Event) :=
  mkWorld DefaultSimulatorImpl (mkRepo false ":memory:" None InitDb_new [] [] [] [])
    (example_ric <| Ric.m_active := false |> <| Ric.m_lmQueryCommands := [] |>)
    (E2T.mkE2T false true true [] (delay_rv 2)) example_world.(cmm) example_world.(lms)
    {[0%nat := gnb_node]}
    {[0%nat := gnb_terminator <| Term.m_active := false |> <| Term.m_e2NodeId := 0 |>]} ∅ ∅.

Lemma fresh_world_fresh : fresh "first" fresh_world.
Proof.
  split; try done.
  - repeat constructor.
  - split; [by exists 0%nat, (example_lm "first")|]. repeat constructor. by exists (example_lm "second").
  - by repeat apply map_Forall_insert_2; [| |apply map_Forall_empty].
  - by apply map_Forall_singleton.
Qed.

Section run.
Context `{Sqlite} `{CppImpl}.

Definition world_of (r : res (World (list Event))) : World (list Event) := match r with Ok w => w | Abort _ => fresh_world end.

Fixpoint script (cs : list call) (w : World (list Event)) : World (list Event) :=
  match cs with [] => w | c :: cs => script cs (world_of (perform c w)) end.

(** No call of the script aborts, and none deactivates a terminator. *)
Definition deactivates (c : call) : bool := match c with call_TermDeactivate _ => true | _ => false end.

Fixpoint script_ok (cs : list call) (w : World (list Event)) : bool :=
  match cs with
  | [] => true
  | c :: cs => negb (deactivates c) && match perform c w with Ok w' => script_ok cs w' | Abort _ => false end
  end.

Lemma script_reachable cs : forall w, script_ok cs w = true -> reachable fresh_world w ->
  reachable fresh_world (script cs w).
Proof.
  induction cs as [|c cs IH]; intros w S R; cbn [script script_ok] in *; [done|].
  apply andb_true_iff in S as [D S]. destruct (perform c w) as [w'|] eqn:E; [|done]. apply IH; [done|].
  apply (reach_call fresh_world c w w'); [exact R|by destruct c|exact E].
Qed.

End run.

Definition boot : list call := [call_Start; call_TermActivate 0] ++ replicate 9 call_event.

Definition running_world `{Sqlite} `{CppImpl} : World (list Event) := script boot fresh_world.

Theorem reachable_invariant_witness :
  let sq := engine true in let cpp := some_cpp in system_inv "first" running_world.
Proof.
  intros sq cpp. apply (reachable_invariant fresh_world running_world "first" fresh_world_fresh).
  apply script_reachable; [vm_compute; reflexivity|apply reach_start].
Defined.

Theorem no_null_terminator_witness :
  let sq := engine true in let cpp := some_cpp in let w := running_world in
  (forall q i t, w.(sim).(impls) !! q = Some i -> recipient i.(payload) = Some t ->
     exists p tm, t = Some p /\ w.(terminators) !! p = Some tm) /\
  (forall l id time, GetLastRegistrationRequests w.(data) = Ok l -> (id, time) ∈ l ->
     time <= now w /\ reaches w id) /\
  (forall e c, e ∈ w.(ric).(Ric.m_lmQueryCommands) -> c ∈ e.2 -> reaches w c.(TargetE2NodeId)).
Proof.
  intros sq cpp w. apply (no_null_terminator fresh_world w "first" fresh_world_fresh).
  apply script_reachable; [vm_compute; reflexivity|apply reach_start].
Defined.

(** ** Switching a terminator off too early *)

Section early.
Context {Q : Type} `{EventQueueLaws Q} `{Platform} `{Sqlite} `{RlAgent} `{CppImpl} `{StdSort}.
Context `{QueryTriggers}.
Implicit Types (w : World Q).

Lemma steps_app n m w : steps (n + m) w = (let* w1 := steps n w in steps m w1).
Proof.
  revert w. induction n as [|n IH]; intros w; cbn [steps Nat.add]; [done|].
  destruct (step w); cbn [res_bind]; auto.
Qed.

(** The world once the two events of a terminator are cancelled *)
Definition quiet (t : Term.E2NodeTerminator) w : World Q :=
  cancel_pending t.(Term.m_registrationEvent) (cancel_pending t.(Term.m_sendEvent) w).

Lemma quiet_frame t w :
  exists s, quiet t w = w <| sim := s |> /\ s.(m_currentTs) = w.(sim).(m_currentTs) /\
    s.(m_uid) = w.(sim).(m_uid).
Proof.
  unfold quiet. destruct (cancel_pending_frame (Term.m_sendEvent t) w) as (s1 & -> & T1 & U1 & _).
  destruct (cancel_pending_frame (Term.m_registrationEvent t) (w <| sim := s1 |>)) as (s2 & -> & T2 & U2 & _).
  exists s2. split; [done|]. cbn in T2, U2. by rewrite T2, U2.
Qed.

Lemma plan_insert_front (x : Z) (e : OranEvent) pl : Forall (fun y => x < y.1) pl -> plan_insert x e pl = (x, e) :: pl.
Proof.
  intros F. unfold plan_insert. rewrite filter_none, filter_all; [done|done|]. eapply Forall_impl; [exact F|]. cbn. lia.
Qed.

(** Once its reporters are off, switching a terminator off is a deregistration request to the RIC. *)
Lemma TermDeactivate_requests w w1 p t D n pl :
  w.(terminators) !! p = Some t -> t.(Term.m_active) = true -> t.(Term.m_nearRtRic) = true ->
  res_fold ReporterDeactivate t.(Term.m_reporters) w = Ok w1 -> draws_within D t.(Term.m_transmissionDelayRv) ->
  plan (quiet t w1) pl -> room D (S n) w.(sim) ->
  exists w' ts s', TermDeactivate p w = Ok w' /\ w' = w1 <| terminators := ts |> <| sim := s' |> /\
    room D n s' /\ s'.(m_currentTs) = now w /\
    plan w' (plan_insert (now w + Seconds (GetValue t.(Term.m_transmissionDelayRv)).1)
               (ev_ReceiveDeregistrationRequest t.(Term.m_e2NodeId)) pl).
Proof.
  intros Et Ea En Er Dr P [R1 R2]. destruct (reporters_off_frame _ _ _ Er) as (F1 & _ & _ & F4 & F5).
  unfold TermDeactivate, deref at 1. rewrite Et. cbn [res_bind].
  rewrite Ea, Er. cbn [res_bind]. rewrite <- F1 in Et. unfold CancelNextSend, deref at 1. rewrite Et. cbn [res_bind].
  destruct (quiet_frame t w1) as (s & Eq & Ts & U).
  destruct (cancel_pending_frame (Term.m_sendEvent t) w1) as (s1 & E1 & _).
  assert (terminators (cancel_pending (Term.m_sendEvent t) w1) !! p = Some t) as Et1 by (by rewrite E1).
  unfold Deregister, CancelNextRegistration, deref at 1 2. rewrite Et1. cbn [res_bind].
  rewrite En. cbn [negb abort_if res_bind]. fold (quiet t w1). rewrite Eq in *.
  destruct (transmit_ok (w1 <| sim := s |>) p t pl D n (ev_ReceiveDeregistrationRequest t.(Term.m_e2NodeId)))
    as (s' & -> & P' & R' & T'); [done|done|exact P| |].
  { unfold room. change (sim (w1 <| sim := s |>)) with s. by rewrite Ts, U, F4, F5. }
  cbn [res_bind]. unfold update_terminator, deref.
  match goal with |- context [match ?x !! p with Some _ => _ | None => _ end] =>
    assert (x !! p = Some (t <| Term.m_transmissionDelayRv := (GetValue t.(Term.m_transmissionDelayRv)).2 |>))
      as -> by apply lookup_insert_eq end.
  cbn [res_bind].
  eexists _, _, s'. split; [reflexivity|]. split; [reflexivity|]. split; [exact R'|].
  change (now (w1 <| sim := s |>)) with s.(m_currentTs) in T', P'. rewrite Ts, F4 in T', P'. by split.
Qed.

(** The deregistration of a node the RIC does not know is answered to the null pointer. *)
Lemma unknown_node_deregistered w d D n e pl :
  w.(e2t).(E2T.m_active) = true -> w.(e2t).(E2T.m_data) = true -> terminator_at e w = None ->
  repo_ready (now w) d w.(data) -> fits 64 e -> e2_delays D w -> room D (S n) w.(sim) -> plan w pl ->
  exists w', ReceiveDeregistrationRequest e w = Ok w' /\
    plan w' (plan_insert (now w + Seconds (GetValue w.(e2t).(E2T.m_transmissionDelayRv)).1)
               (ev_ReceiveDeregistrationResponse None e) pl).
Proof.
  intros Ae Ad No Rd F De R P. unfold ReceiveDeregistrationRequest. rewrite Ae, Ad.
  cbn [negb abort_if res_bind].
  destruct (DeregisterNode_registers (now w) d w.(data) e Rd F) as (d' & -> & _). cbn [res_bind].
  set (w1 := w <| data := _ |>).
  assert ((node_terminator e w1).1 = None) as N1.
  { unfold node_terminator. unfold terminator_at in No. change (e2t w1) with (e2t w).
    by destruct (smap_lookup e _) as [t|]; cbn in *. }
  assert (exists e2, (node_terminator e w1).2 = set_e2t e2 w1 /\
    e2.(E2T.m_transmissionDelayRv) = w.(e2t).(E2T.m_transmissionDelayRv)) as (e2 & E2 & D2).
  { unfold node_terminator. destruct (smap_lookup e _); [exists w.(e2t); by destruct w|by eexists]. }
  destruct (node_terminator e w1) as [t w2]. cbn in N1, E2. subst t w2.
  destruct (schedule_e2_ok (set_e2t e2 w1) pl D n (ev_ReceiveDeregistrationResponse None e))
    as (w4 & E4 & _ & _ & P4 & _); [exact P|intros k; change (e2t (set_e2t e2 w1)) with e2; rewrite D2; apply De|exact R|].
  exists w4. split; [exact E4|]. rewrite <- D2. exact P4.
Qed.

End early.

(** C38: a terminator that is switched off before the RIC has answered its registration asks
    for the deregistration of node 0; the RIC knows no such node, plans the answer for the
    null pointer m_nodeTerminators[0] holds, and the program ends there.  The request is planned
    whatever else is; the program ends when nothing else that is planned comes before the two
    transmissions, whose delays are at most [D], are over.  The reporters of the terminator are any that
    can be switched off. *)
Theorem early_deactivation_crashes {Q} `{EventQueueLaws Q} `{Platform} `{Sqlite} `{RlAgent} `{CppImpl}
    `{StdSort} `{QueryTriggers} (w w1 : World Q) p t d D pl :
  w.(terminators) !! p = Some t -> t.(Term.m_active) = true -> t.(Term.m_nearRtRic) = true -> t.(Term.m_e2NodeId) = 0 ->
  draws_within D t.(Term.m_transmissionDelayRv) -> e2_delays D w ->
  w.(e2t).(E2T.m_active) = true -> w.(e2t).(E2T.m_data) = true -> terminator_at 0 w = None ->
  repo_ready (now w) d w.(data) -> room (2 * D) 2 w.(sim) ->
  res_fold ReporterDeactivate t.(Term.m_reporters) w = Ok w1 ->
  plan (quiet t w1) pl ->
  exists w', TermDeactivate p w = Ok w' /\
    plan w' (plan_insert (now w + Seconds (GetValue t.(Term.m_transmissionDelayRv)).1) (ev_ReceiveDeregistrationRequest 0) pl) /\
    (Forall (fun x => now w + 2 * D < x.1) pl -> exists n, steps n w' = Abort "method of a null pointer").
Proof.
  intros Et Ea En Id Dr De Ae Ad No Rd [R1 R2] Er P. set (rv := t.(Term.m_transmissionDelayRv)) in *.
  pose proof (Dr (rv_count rv)) as D0. change (0 <= Seconds (GetValue rv).1 <= D) in D0.
  destruct (reporters_off_frame _ _ _ Er) as (_ & F2 & F3 & _ & F5).
  destruct (TermDeactivate_requests w w1 p t D 1 pl Et Ea En Er Dr P) as (wd & ts & s1 & E1 & W1 & [Rm1 Rm2] & T1 & P1);
    [split; lia|].
  exists wd. rewrite Id in P1. fold rv in P1. split; [exact E1|]. split; [exact P1|]. intros Late.
  rewrite plan_insert_front in P1 by (eapply Forall_impl; [exact Late|]; intros x Hx; cbn beta in Hx |- *; lia).
  destruct (next_event _ _ _ _ P1) as (n1 & s2 & T2 & U2 & P2 & S2). set (w2 := wd <| sim := s2 |>) in *.
  assert (now w2 = now w + Seconds (GetValue rv).1) as N2 by exact T2.
  assert (w2.(data) = w.(data) /\ w2.(e2t) = w.(e2t)) as [Da Ee] by (unfold w2; rewrite W1; by split).
  destruct (unknown_node_deregistered w2 d D 0 0 pl) as (w4 & E4 & P4); try (by rewrite ?Ee); try done.
  { unfold terminator_at. by rewrite Ee. }
  { rewrite Da. destruct Rd as (? & ? & U). split; [done|]. split; [done|].
    eapply upto_mono; [|exact U]. rewrite N2. lia. }
  { intros k. rewrite Ee. apply De. }
  { split; change (sim w2) with s2; [rewrite T2; unfold now, Now in *; lia|rewrite U2, W1; exact Rm2]. }
  rewrite plan_insert_front in P4.
  2: { rewrite N2, Ee. pose proof (De (rv_count w.(e2t).(E2T.m_transmissionDelayRv))) as De0.
       change (0 <= Seconds (GetValue w.(e2t).(E2T.m_transmissionDelayRv)).1 <= D) in De0.
       eapply Forall_impl; [exact Late|]. intros x Hx. cbn beta in Hx |- *. lia. }
  destruct (next_event _ _ _ _ P4) as (n4 & s5 & _ & _ & P5 & S5).
  exists (S n1 + S n4)%nat. rewrite steps_app, S2. cbn [handle]. rewrite E4. cbn [res_bind].
  destruct P4 as (l & I4 & L4). rewrite (process_ewc_nil _ _ I4). cbn [res_bind].
  assert (w4 <| sim := sim w4 |> = w4) as -> by (by destruct w4). by rewrite S5.
Qed.

(** The example with a terminator that has not been answered yet, a reporter with a periodic trigger, and
    a query of the RIC to come *)
Definition early_terminator : Term.E2NodeTerminator :=
  gnb_terminator <| Term.m_e2NodeId := 0 |> <| Term.m_reporters := [0%nat] |>.
Definition early_world : World (list Event) :=
  let w := example_world <| e2t := E2T.mkE2T true true true [] (delay_rv 2) |>
    <| terminators := {[0%nat := early_terminator]} |>
    <| reporters := {[0%nat := Reporter.mkReporter true (Some 0%nat) (Some 0%nat) OranReporterLocation]} |>
    <| triggers := {[0%nat := Trigger.mkTrigger true (Some 0%nat) false (OranReportTriggerPeriodic EventId_default (delay_rv 7))]} |> in
  match schedule 20 ev_QueryLms w with Ok r => r.2 | Abort _ => w end.
Definition early_off : World (list Event) :=
  match res_fold ReporterDeactivate [0%nat] early_world with Ok w => w | Abort _ => early_world end.

Lemma early_plan : plan (quiet early_terminator early_off) [(20, ev_QueryLms)].
Proof.
  destruct (Schedule_plan example_world.(sim) [] 99 0 20 ev_QueryLms example_plan) as (id & s' & E & _ & P & _);
    [by apply (example_room 1)|done|].
  unfold plan. assert (sim (quiet early_terminator early_off) = s') as ->; [|exact P].
  assert (s' = match Schedule 20 ev_QueryLms example_world.(sim) with Ok r => r.2 | Abort _ => example_world.(sim) end) as -> by (by rewrite E).
  vm_compute. reflexivity.
Qed.

Theorem early_deactivation_crashes_witness :
  let sq := engine true in let cpp := some_cpp in
  exists w', TermDeactivate 0 early_world = Ok w' /\
    plan w' [(3, ev_ReceiveDeregistrationRequest 0); (20, ev_QueryLms)] /\
    exists n, steps n w' = Abort "method of a null pointer".
Proof.
  intros sq cpp. destruct gnb_repo_ready as (d & Hd).
  destruct (early_deactivation_crashes early_world early_off 0 early_terminator d 9 [(20, ev_QueryLms)]) as (w' & E & P & S);
    [done|done|done|done|by apply delay_within; vm_compute|by apply delay_within; vm_compute
    |done|done|done|exact Hd|by apply (example_room 3)|vm_compute; reflexivity|apply early_plan|].
  exists w'. split; [exact E|]. split; [exact P|]. apply S. repeat constructor.
Defined.

(** The same, from the start of the program *)
Example early_deactivation_run :
  let sq := engine true in let cpp := some_cpp in
  match TermDeactivate 0 (script [call_Start; call_TermActivate 0] fresh_world) with
  | Ok w => steps 12 w = Abort "method of a null pointer"
  | Abort _ => False
  end.
Proof. vm_compute. reflexivity. Qed.
