(* ===== verification/Clocks.v ===== *)
(** The clocks of the system: the events that keep it going by planning themselves again.

    The RIC plans its next query and its next inactivity check, an active terminator its next
    registration.  [clocks_inv] says that each of these clocks, while it is on, has exactly
    one event to come, the one its EventId names, and that the kernel is sound; the rules
    below say what the operations do to it. *)
From Stdlib Require Import ZArith Lia.
From stdpp Require Import base list gmap strings sets.
From S2P Require Import Prelude OrdMap EventQueue Simulator Messages Repository World RlLm MoniLm LogicModule.
From S2P Require Import RicE2Term NearRtRic Reporters E2Node.
Open Scope Z_scope.
(** ** The events to come that are bound to one method *)

Section ticks.
Context {Q E : Type} `{EventQueueLaws Q} `{!EqDecision E}.
Implicit Types (s : Sim Q E) (l : list Event).

(** What the kernel will run for [ev]: nothing when it is cancelled. *)
Definition bound_to s (ev : Event) : option E :=
  match s.(impls) !! ev.(impl) with
  | Some i => if i.(m_cancel) then None else Some i.(payload)
  | None => None
  end.

Definition ticks (e : E) s l : list Event := filter (fun ev => bound_to s ev = Some e) l.

(** The id is null or was handed out for the event [e]. *)
Definition named (id : EventId) (e : E) s : Prop :=
  forall q, m_eventImpl id = Some q -> exists i, s.(impls) !! q = Some i /\ i.(payload) = e.

Lemma live_event_bound s ev : live_event s ev = (fun e => (ev.(key).(m_ts), e)) <$> bound_to s ev.
Proof. unfold live_event, bound_to. destruct (impls s !! impl ev) as [i|]; [|done]. by destruct (m_cancel i). Qed.

Lemma ticks_live e s l : filter (fun x => x.2 = e) (live s l) = (fun ev => (ev.(key).(m_ts), e)) <$> ticks e s l.
Proof.
  unfold ticks. induction l as [|ev l IH]; [done|]. rewrite live_cons, live_event_bound, filter_cons.
  destruct (decide (bound_to s ev = Some e)) as [->|N].
  - cbn [fmap option_fmap option_map]. rewrite filter_cons_True by done. rewrite fmap_cons. by f_equal.
  - destruct (bound_to s ev) as [e'|]; [|done]. cbn [fmap option_fmap option_map]. rewrite filter_cons_False; [done|]. cbn. congruence.
Qed.

Lemma ticks_perm e s l l' : l ≡ₚ l' -> ticks e s l ≡ₚ ticks e s l'.
Proof. unfold ticks. by intros ->. Qed.

Lemma ticks_ext e s s' l :
  (forall ev, ev ∈ l -> bound_to s' ev = Some e <-> bound_to s ev = Some e) -> ticks e s' l = ticks e s l.
Proof.
  unfold ticks. induction l as [|ev l IH]; intros B; [done|]. rewrite !filter_cons.
  rewrite IH by (intros x Hx; apply B; by right). pose proof (B ev ltac:(by left)) as [? ?].
  repeat case_decide; tauto.
Qed.

(** Scheduling adds the new event to those of its method. *)
Lemma ticks_schedule s s' l delay e e' :
  kernel_inv s l -> s'.(impls) = <[s.(next_impl) := mkImpl e false]> s.(impls) ->
  ticks e' s' (spec_insert (scheduled delay s) l) ≡ₚ
    if decide (e' = e) then scheduled delay s :: ticks e' s l else ticks e' s l.
Proof.
  intros I Ei. rewrite (ticks_perm _ _ _ _ (spec_insert_perm _ _)).
  assert (ticks e' s' l = ticks e' s l) as El.
  { apply ticks_ext. intros ev Hev. unfold bound_to. rewrite Ei.
    pose proof (inv_live _ _ I) as L. rewrite Forall_forall in L. apply L, (inv_fresh _ _ I) in Hev.
    by rewrite lookup_insert_ne by lia. }
  assert (bound_to s' (scheduled delay s) = Some e) as B.
  { unfold bound_to. cbn [impl scheduled]. by rewrite Ei, lookup_insert_eq. }
  unfold ticks in *. rewrite filter_cons, El. repeat case_decide; naive_solver congruence.
Qed.

Lemma bound_to_cancel s id ev :
  bound_to (Cancel id s) ev = bound_to s ev \/
  bound_to (Cancel id s) ev = None /\ m_eventImpl id = Some ev.(impl).
Proof.
  unfold Cancel. destruct (IsExpired id s); cbn [negb]; [by left|].
  destruct (m_eventImpl id) as [q|]; [|by left]. unfold bound_to. cbn.
  destruct (decide (q = impl ev)) as [->|N]; [|left; by rewrite lookup_alter_ne].
  rewrite lookup_alter_eq. destruct (impls s !! impl ev) as [i|]; [|by left]. by right.
Qed.

(** Cancelling an event of one method leaves those of the others. *)
Lemma ticks_cancel_other s l id e e' : named id e s -> e' <> e -> ticks e' (Cancel id s) l = ticks e' s l.
Proof.
  intros N Ne. apply ticks_ext. intros ev _. destruct (bound_to_cancel s id ev) as [->|[-> Hq]]; [done|].
  split; [done|]. destruct (N _ Hq) as (i & Hi & Pi). unfold bound_to. rewrite Hi.
  destruct (m_cancel i); [done|]. intros [= Ei]. congruence.
Qed.

(** An event still to come is not expired. *)
Lemma tick_not_expired s l ev e :
  kernel_inv s l -> ev ∈ ticks e s l -> IsExpired (event_id ev) s = false.
Proof.
  intros I [B Hev]%list_elem_of_filter. pose proof (inv_future _ _ I) as F. pose proof (inv_bounds _ _ I) as U.
  rewrite Forall_forall in F, U. specialize (F ev Hev). specialize (U ev Hev). unfold in_future, UID_VALID in *.
  unfold IsExpired, IsCancelled. cbn. unfold bound_to in B.
  rewrite (proj2 (Z.eqb_neq _ _)) by (unfold UID_DESTROY; lia).
  destruct (impls s !! impl ev) as [i|]; [|done]. destruct (m_cancel i); [done|]. rewrite orb_false_r.
  apply orb_false_iff. rewrite Z.ltb_ge, andb_false_iff, Z.eqb_neq, Z.leb_gt. lia.
Qed.

(** Cancelling the event the id names leaves none, when there was no other. *)
Lemma ticks_cancel_own s l id e :
  kernel_inv s l -> (forall ev, ev ∈ ticks e s l -> event_id ev = id) -> ticks e (Cancel id s) l = [].
Proof.
  intros I A. apply filter_none, Forall_forall. intros ev Hev B.
  destruct (bound_to_cancel s id ev) as [Eb|[Eb _]]; [|congruence].
  assert (ev ∈ ticks e s l) as T by (apply list_elem_of_filter; split; [congruence|done]).
  specialize (A ev T) as <-. apply (tick_not_expired s l ev e I) in T. unfold bound_to, Cancel in B.
  rewrite T in B. cbn in B. rewrite lookup_alter_eq in B. by destruct (impls s !! impl ev).
Qed.

(** Payloads stay: an id keeps its name. *)
Lemma named_cancel s id id' e : named id e s -> named id e (Cancel id' s).
Proof.
  intros N q Hq. destruct (N q Hq) as (i & Hi & Pi). unfold Cancel. destruct (negb _); [|by exists i].
  destruct (m_eventImpl id') as [q'|]; [|by exists i]. cbn. rewrite lookup_alter, Hi.
  case_decide as D; [|by exists i]. exists (impl_Cancel i). by rewrite D, Hi.
Qed.

Lemma named_schedule s s' l id e e' :
  kernel_inv s l -> s'.(impls) = <[s.(next_impl) := mkImpl e' false]> s.(impls) -> named id e s -> named id e s'.
Proof.
  intros I Ei N q Hq. destruct (N q Hq) as (i & Hi & Pi). rewrite Ei. rewrite lookup_insert_ne; [by exists i|].
  pose proof (inv_fresh _ _ I q ltac:(by eexists)). lia.
Qed.

End ticks.

(** ** Handles: the EventIds the objects keep, and the events they are for *)

Inductive Handle : Type :=
| H_query
| H_inactivity
| H_process
| H_finish (lm : nat)
| H_registration (terminator : nat)
| H_send (terminator : nat)
| H_trigger (trigger : nat).

#[export] Instance Handle_eq_dec : EqDecision Handle.
Proof. solve_decision. Defined.

Definition handle_event (h : Handle) : OranEvent :=
  match h with
  | H_query => ev_QueryLms
  | H_inactivity => ev_CheckForInactivity
  | H_process => ev_ProcessLmQueryCommands
  | H_finish p => ev_FinishRun p
  | H_registration p => ev_Register p
  | H_send p => ev_DoSendReports p
  | H_trigger p => ev_TriggerReport p
  end.

#[export] Instance handle_event_inj : Inj (=) (=) handle_event.
Proof. intros [] [] E; by simplify_eq. Qed.

(** The handles that are clocks: the method that runs plans the next event, unless it is off. *)
Definition is_clock (h : Handle) : bool :=
  match h with H_query | H_inactivity | H_registration _ => true | _ => false end.

Section handles.
Context {Q : Type} `{EventQueue Q}.
Implicit Types (w : World Q).

Definition handle_id (h : Handle) w : EventId :=
  match h with
  | H_query => w.(ric).(Ric.m_lmQueryEvent)
  | H_inactivity => w.(ric).(Ric.m_e2NodeInactivityEvent)
  | H_process => w.(ric).(Ric.m_processLmQueryCommandsEvent)
  | H_finish p => default EventId_default (Lm.m_finishRunEvent <$> w.(lms) !! p)
  | H_registration p => default EventId_default (Term.m_registrationEvent <$> w.(terminators) !! p)
  | H_send p => default EventId_default (Term.m_sendEvent <$> w.(terminators) !! p)
  | H_trigger p =>
      match w.(triggers) !! p with
      | Some t => match t.(Trigger.class) with
                  | OranReportTriggerPeriodic id _ => id
                  | OranReportTriggerNrUeHandover => EventId_default
                  end
      | None => EventId_default
      end
  end.

(** The clock is on. *)
Definition ticking (h : Handle) w : bool :=
  match h with
  | H_query | H_inactivity => w.(ric).(Ric.m_active)
  | H_registration p => default false (Term.m_active <$> w.(terminators) !! p)
  | _ => false
  end.

End handles.

(** ** The invariant *)

Section clocks.
Context {Q : Type} `{EventQueueLaws Q} `{Platform}.
Variable D : Z.
Implicit Types (w : World Q).

(** The delays of a logic module: LmRun replaces a negative one by 0. *)
Definition lm_draws (l : Lm.OranLm) : Prop :=
  forall n, let d := l.(Lm.m_processingDelayRv).(rv_draws) n in
    0 <= Seconds (if d_ltb d d_zero then d_zero else d) <= D.

(** Every delay of the system is between 0 and [D]. *)
Record delays_ok w : Prop := {
  dl_query : 0 <= w.(ric).(Ric.m_lmQueryInterval) <= D;
  dl_wait : 0 <= w.(ric).(Ric.m_lmQueryMaxWaitTime) <= D;
  dl_inactivity : draws_within D w.(ric).(Ric.m_e2NodeInactivityIntervalRv);
  dl_e2 : draws_within D w.(e2t).(E2T.m_transmissionDelayRv);
  dl_lms : map_Forall (fun _ l => lm_draws l) w.(lms);
  dl_terminators : map_Forall (fun _ t => draws_within D t.(Term.m_registrationIntervalRv) /\
    draws_within D t.(Term.m_sendIntervalRv) /\ draws_within D t.(Term.m_transmissionDelayRv)) w.(terminators);
  dl_triggers : map_Forall (fun _ t => match t.(Trigger.class) with
    | OranReportTriggerPeriodic _ rv => draws_within D rv
    | OranReportTriggerNrUeHandover => True end) w.(triggers)
}.

(** Neither the clock nor the uids have come near overflow. *)
Definition in_bounds w : Prop := now w + D < 2 ^ 63 /\ UID_VALID + Z.of_nat w.(sim).(next_impl) < 2 ^ 32.

(** The kernel is sound with the agenda [l], and no event is further away than [D]. *)
Record kernel_ok w (l : list Event) : Prop := {
  ko_inv : kernel_inv w.(sim) l;
  ko_near : Forall (fun ev => ev.(key).(m_ts) <= now w + D) l;
  ko_uid : w.(sim).(m_uid) = UID_VALID + Z.of_nat w.(sim).(next_impl)
}.

(** The events of the clock [h] in the agenda: one, that of its handle, while it is on and is
    not one of the clocks [X] that are being reset. *)
Definition clock_ok (X : list Handle) w (l : list Event) (h : Handle) : Prop :=
  let t := ticks (handle_event h) w.(sim) l in
  if bool_decide (h ∉ X) && ticking h w then exists ev, t = [ev] /\ event_id ev = handle_id h w else t = [].

Record clocks_inv (X : list Handle) w : Prop := {
  ci_agenda : exists l, kernel_ok w l /\ forall h, is_clock h = true -> clock_ok X w l h;
  ci_named : forall h, named (handle_id h w) (handle_event h) w.(sim);
  ci_delays : delays_ok w;
  ci_attached : map_Forall (fun _ t => t.(Term.m_nearRtRic) = false -> t.(Term.m_active) = false) w.(terminators)
}.

(** Time goes on and EventImpl objects are not reused. *)
Definition later w w' : Prop := now w <= now w' /\ (w.(sim).(next_impl) <= w'.(sim).(next_impl))%nat.

#[export] Instance later_refl : Reflexive later.
Proof. done. Qed.

#[export] Instance later_trans : Transitive later.
Proof. unfold later. intros w1 w2 w3 [] []. split; lia. Qed.

Lemma in_bounds_later w w' : later w w' -> in_bounds w' -> in_bounds w.
Proof. unfold later, in_bounds. lia. Qed.

(** From the clocks but [X] to the clocks but [Y], if nothing overflows *)
Definition triple (X : list Handle) w (r : res (World Q)) (Y : list Handle) : Prop :=
  match r with
  | Ok w' => later w w' /\ (in_bounds w' -> clocks_inv X w -> clocks_inv Y w')
  | Abort _ => True
  end.

(** An operation that neither resets a clock nor turns one on or off *)
Definition quiet w (r : res (World Q)) : Prop :=
  (forall X, triple X w r X) /\
  match r with Ok w' => forall h, is_clock h = true -> ticking h w' = ticking h w | Abort _ => True end.

(** *** Rules *)

Lemma triple_bind {A} X Y Y' w (m : res A) (world : A -> World Q) k :
  triple X w (let* a := m in Ok (world a)) Y ->
  (forall a, m = Ok a -> triple Y (world a) (k a) Y') -> triple X w (res_bind m k) Y'.
Proof.
  destruct m as [a|]; cbn; [|done]. intros [V1 I1] K. specialize (K a eq_refl).
  destruct (k a) as [w2|]; [|done]. destruct K as [V2 I2]. split; [by etrans|].
  intros B I. apply I2; [done|]. apply I1; [by eapply in_bounds_later|done].
Qed.

Lemma triple_then X Y Y' w w1 r : triple X w (Ok w1) Y -> triple Y w1 r Y' -> triple X w r Y'.
Proof. intros T1 T2. apply (triple_bind X Y Y' w (Ok w1) id (fun _ => r) T1). by intros w2 [= <-]. Qed.

Lemma triple_pure {A} X Y w (m : res A) k :
  (forall a, m = Ok a -> triple X w (k a) Y) -> triple X w (res_bind m k) Y.
Proof. destruct m; cbn; auto. Qed.

Lemma quiet_ok w : quiet w (Ok w).
Proof. by split. Qed.

Lemma quiet_bind w (m : res (World Q)) k :
  quiet w m -> (forall w', m = Ok w' -> quiet w' (k w')) -> quiet w (res_bind m k).
Proof.
  intros [T1 C1] K. split.
  - intros X. apply (triple_bind X X X w m id); [by destruct m; apply (T1 X)|]. intros w' E. by apply K.
  - destruct m as [w'|]; [|done]. cbn. destruct (K w' eq_refl) as [_ C2]. destruct (k w'); [|done].
    intros h Hh. by rewrite C2, C1.
Qed.

Lemma quiet_pure {A} w (m : res A) k : (forall a, m = Ok a -> quiet w (k a)) -> quiet w (res_bind m k).
Proof. destruct m; cbn; [auto|done]. Qed.

Lemma quiet_then w w1 r : quiet w (Ok w1) -> quiet w1 r -> quiet w r.
Proof. intros T1 T2. apply (quiet_bind w (Ok w1) (fun _ => r) T1). by intros w2 [= <-]. Qed.

Lemma quiet_fold {A} (f : A -> World Q -> res (World Q)) l w :
  (forall a w', quiet w' (f a w')) -> quiet w (res_fold f l w).
Proof.
  intros F. revert w. induction l as [|a l IH]; intros w; [by apply quiet_ok|]. cbn [res_fold].
  apply quiet_bind; [apply F|]. intros w' _. apply IH.
Qed.

(** *** Changes of the objects *)

Lemma clocks_inv_ext X Y w :
  (forall h, is_clock h = true -> ticking h w = true -> h ∈ X <-> h ∈ Y) -> clocks_inv X w -> clocks_inv Y w.
Proof.
  intros E [(l & K & C) N Dl A]. split; [|done..]. exists l. split; [done|]. intros h Hh. specialize (C h Hh).
  unfold clock_ok in *. destruct (ticking h w) eqn:T; [|by rewrite andb_false_r in *].
  by rewrite <- (bool_decide_ext (h ∉ X) (h ∉ Y)) by (specialize (E h Hh T); tauto).
Qed.

(** The objects change, the kernel does not. *)
Lemma change_clocks X w w' :
  w'.(sim) = w.(sim) ->
  (forall h, is_clock h = true -> ticking h w' = true -> h ∉ X -> ticking h w = true) ->
  (forall h, is_clock h = true -> ticking h w = true -> h ∉ X -> ticking h w' = true) ->
  (forall h, handle_id h w' = handle_id h w \/
     is_clock h = false /\ named (handle_id h w') (handle_event h) w.(sim)) ->
  (delays_ok w -> delays_ok w') ->
  map_Forall (fun _ t => t.(Term.m_nearRtRic) = false -> t.(Term.m_active) = false) w'.(terminators) ->
  clocks_inv X w -> clocks_inv X w'.
Proof.
  intros Es T1 T2 Hd Dl A [(l & [K1 K2 K3] & C) N Do _]. split; [|intros h|auto|done].
  - exists l. split; [split; unfold now in *; rewrite Es; assumption|]. intros h Hh. specialize (C h Hh). unfold clock_ok in *.
    rewrite Es. specialize (T1 h Hh). specialize (T2 h Hh). destruct (Hd h) as [->|[? _]]; [|congruence].
    case_bool_decide as Hx; [|done]. cbn [andb] in *.
    destruct (ticking h w), (ticking h w'); try done; [by specialize (T2 eq_refl Hx)|by specialize (T1 eq_refl Hx)].
  - rewrite Es. destruct (Hd h) as [->|[_ Nm]]; [apply N|exact Nm].
Qed.

Lemma change_quiet w w' :
  w'.(sim) = w.(sim) -> (forall h, is_clock h = true -> ticking h w' = ticking h w) ->
  (forall h, handle_id h w' = handle_id h w \/
     is_clock h = false /\ named (handle_id h w') (handle_event h) w.(sim)) ->
  (delays_ok w -> delays_ok w') ->
  (map_Forall (fun _ t => t.(Term.m_nearRtRic) = false -> t.(Term.m_active) = false) w.(terminators) ->
   map_Forall (fun _ t => t.(Term.m_nearRtRic) = false -> t.(Term.m_active) = false) w'.(terminators)) ->
  quiet w (Ok w').
Proof.
  intros Es T Hd Dl A. split; [|done]. intros X. split; [unfold later, now; by rewrite Es|]. intros _ I.
  apply (change_clocks X w w'); try done.
  - intros h Hh. by rewrite T.
  - intros h Hh. by rewrite T.
  - apply A, I.
Qed.

(** *** Cancelling *)

Lemma cancel_pending_eq id w : cancel_pending id w = cancel id w.
Proof.
  unfold cancel_pending, pending, IsPending. destruct (IsExpired id (sim w)) eqn:E; [|done].
  unfold cancel, Cancel. rewrite E. by destruct w.
Qed.

Lemma cancel_later id w : later w (cancel id w).
Proof.
  destruct (cancel_pending_frame id w) as (s & E & T & _ & N & _). rewrite cancel_pending_eq in E. rewrite E.
  unfold later, now, Now. change (sim (w <| sim := s |>)) with s. rewrite T, N. done.
Qed.

Lemma handle_id_sim h s w : handle_id h (w <| sim := s |>) = handle_id h w.
Proof. by destruct h. Qed.

Lemma ticking_sim h s w : ticking h (w <| sim := s |>) = ticking h w.
Proof. by destruct h. Qed.

Lemma delays_ok_sim s w : delays_ok w -> delays_ok (w <| sim := s |>).
Proof. by intros []. Qed.

Lemma cancel_clocks X h w :
  clocks_inv X w -> clocks_inv (if is_clock h then h :: X else X) (cancel (handle_id h w) w).
Proof.
  intros [(l & [K1 K2 K3] & C) N Do A]. set (id := handle_id h w). split; [|intros h'|by apply delays_ok_sim|done].
  - exists l. split.
    { destruct (cancel_pending_frame id w) as (s & E & T & U & Nx & _). rewrite cancel_pending_eq in E.
      split; [by apply kernel_inv_cancel|rewrite E|rewrite E]; unfold now, Now in *; change (sim (w <| sim := s |>)) with s; by rewrite ?T, ?U, ?Nx. }
    intros h' Hh'. specialize (C h' Hh'). unfold clock_ok in *.
    rewrite (handle_id_sim h' _ w : handle_id h' (cancel id w) = _), (ticking_sim h' _ w : ticking h' (cancel id w) = _).
    change (sim (cancel id w)) with (Cancel id (sim w)).
    destruct (decide (h = h')) as [<-|Ne].
    + rewrite Hh', bool_decide_false by (intros Hx; apply Hx; by left). cbn [andb].
      apply ticks_cancel_own; [done|]. intros ev Hev. destruct (_ && _).
      * destruct C as (ev' & E & Ei). rewrite E in Hev. apply list_elem_of_singleton in Hev as ->. exact Ei.
      * rewrite C in Hev. by apply elem_of_nil in Hev.
    + rewrite (ticks_cancel_other _ l id (handle_event h)); [|apply N|intros E; by apply Ne, (inj handle_event)].
      rewrite (bool_decide_ext _ (h' ∉ X)); [done|]. destruct (is_clock h); [|done].
      rewrite elem_of_cons. intuition congruence.
  - rewrite (handle_id_sim h' _ w : handle_id h' (cancel id w) = _). apply named_cancel, N.
Qed.

Lemma cancel_quiet h w : is_clock h = false -> quiet w (Ok (cancel (handle_id h w) w)).
Proof.
  intros Hh. split; [intros X|intros h' _; apply ticking_sim]. split; [apply cancel_later|]. intros _ I.
  apply (cancel_clocks X h) in I. by rewrite Hh in I.
Qed.

Lemma cancel_triple X h w : is_clock h = true -> triple X w (Ok (cancel (handle_id h w) w)) (h :: X).
Proof.
  intros Hh. split; [apply cancel_later|]. intros _ I. apply (cancel_clocks X h) in I. by rewrite Hh in I.
Qed.

(** *** Scheduling *)

Lemma schedule_frame w d e id w1 :
  schedule d e w = Ok (id, w1) ->
  exists s, w1 = w <| sim := s |> /\ 0 <= d /\ Schedule d e w.(sim) = Ok (id, s) /\ later w w1 /\
    named id e s /\ s.(next_impl) = S w.(sim).(next_impl).
Proof.
  unfold schedule. intros E. destruct (Schedule d e (sim w)) as [[id' s]|] eqn:Es; [|done]. cbn [res_bind fst snd] in E.
  injection E as <- <-. exists s. split; [done|]. pose proof Es as E. unfold Schedule, abort_if in E.
  destruct (Z.ltb_spec d 0); [done|]. split; [done|]. split; [done|].
  cbn [res_bind MakeEvent] in E. unfold insert_event in E. inv_res. cbn [next_impl]. split; [|split; [|done]].
  - split; [done|]. cbn. lia.
  - intros q [= <-]. cbn. exists (mkImpl e false). by rewrite lookup_insert_eq.
Qed.

(** The kernel after a schedule that stays in bounds *)
Lemma schedule_kernel w l d e id w1 :
  kernel_ok w l -> d <= D -> schedule d e w = Ok (id, w1) -> in_bounds w1 ->
  kernel_ok w1 (spec_insert (scheduled d w.(sim)) l) /\ id = event_id (scheduled d w.(sim)) /\
  w1.(sim).(impls) = <[w.(sim).(next_impl) := mkImpl e false]> w.(sim).(impls).
Proof.
  intros [I N U] Hd E [B1 B2]. destruct (schedule_frame w d e id w1 E) as (s & -> & Hd0 & Es & [T Nx] & _ & En).
  change (sim (w <| sim := s |>)) with s in B2. unfold now, Now in B1, T.
  change (sim (w <| sim := s |>)) with s in B1, T.
  destruct (Schedule_ok (sim w) l d e I) as (s' & E' & I' & Ei & Ex & Eu & Et & _); [lia|lia|lia|].
  rewrite Es in E'. injection E' as -> ->. split; [|done]. split; change (sim (w <| sim := s' |>)) with s';
    [exact I'| |rewrite Eu, Ex, U; lia].
  unfold now, Now in *. change (sim (w <| sim := s' |>)) with s'. rewrite Et.
  eapply Forall_perm; [apply spec_insert_perm|]. constructor; [cbn; lia|exact N].
Qed.

(** An event that is not that of a clock *)
Lemma schedule_inv X w d e id w1 :
  clocks_inv X w -> d <= D -> (forall h, is_clock h = true -> e <> handle_event h) ->
  schedule d e w = Ok (id, w1) -> in_bounds w1 -> clocks_inv X w1.
Proof.
  intros [(l & K & C) N Do A] Hd Nc E B. destruct (schedule_kernel w l d e id w1 K Hd E B) as (K1 & _ & Ei).
  destruct (schedule_frame w d e id w1 E) as (s & -> & _). split; [|intros h|by apply delays_ok_sim|done].
  - eexists. split; [exact K1|]. intros h Hh. specialize (C h Hh). unfold clock_ok in *.
    rewrite handle_id_sim, ticking_sim.
    pose proof (ticks_schedule (sim w) (sim (w <| sim := s |>)) l d e (handle_event h) (ko_inv _ _ K) Ei) as P.
    rewrite decide_False in P by (intros <-; by eapply Nc).
    destruct (_ && _).
    + destruct C as (ev & Ec & Eid). rewrite Ec in P. apply Permutation_singleton_r in P. eauto.
    + rewrite C in P. by apply Permutation_nil_r in P.
  - rewrite handle_id_sim. by eapply named_schedule; [apply (ko_inv _ _ K)|exact Ei|].
Qed.

Lemma quiet_schedule w d e (k : EventId * World Q -> res (World Q)) :
  (delays_ok w -> d <= D) -> (forall h, is_clock h = true -> e <> handle_event h) ->
  (forall id s, let w1 := w <| sim := s |> in named id e w1.(sim) -> quiet w1 (k (id, w1))) ->
  quiet w (res_bind (schedule d e w) k).
Proof.
  intros Hd Nc K. destruct (schedule d e w) as [[id w1]|] eqn:E; [|done]. cbn [res_bind].
  destruct (schedule_frame w d e id w1 E) as (s & Ew & _ & _ & V & Nm & _).
  apply (quiet_then w w1); [|subst w1; by apply K]. split.
  - intros X. split; [exact V|]. intros B I. by eapply schedule_inv; [exact I|apply Hd, I|exact Nc|exact E|].
  - intros h _. rewrite Ew. apply ticking_sim.
Qed.

(** The next event of the clock [h] is planned, and its id stored. *)
Lemma schedule_clock X w d h (store : EventId -> World Q -> World Q) :
  is_clock h = true -> ticking h w = true -> h ∈ X -> (delays_ok w -> d <= D) ->
  (forall id s, let w1 := w <| sim := s |> in let w2 := store id w1 in
     w2.(sim) = s /\ handle_id h w2 = id /\
     (forall h', h' <> h -> handle_id h' w2 = handle_id h' w) /\
     (forall h', is_clock h' = true -> ticking h' w2 = ticking h' w) /\ (delays_ok w1 -> delays_ok w2) /\
     (map_Forall (fun _ t => t.(Term.m_nearRtRic) = false -> t.(Term.m_active) = false) w.(terminators) ->
      map_Forall (fun _ t => t.(Term.m_nearRtRic) = false -> t.(Term.m_active) = false) w2.(terminators))) ->
  triple X w (let* r := schedule d (handle_event h) w in Ok (store r.1 r.2)) (filter (fun x => x <> h) X).
Proof.
  intros Hc Tk Hx Hd St. destruct (schedule d (handle_event h) w) as [[id w1]|] eqn:E; [|done]. cbn [res_bind fst snd].
  destruct (schedule_frame w d _ id w1 E) as (s & Ew & _ & _ & V & Nm & _). subst w1.
  destruct (St id s) as (Es & Eh & Eo & Et & Ed & Ea). cbn zeta in *. set (w1 := w <| sim := s |>) in *.
  set (w2 := store id w1) in *.
  assert (sim w2 = sim w1) as Es1 by exact Es. split; [unfold later, now in *; by rewrite Es1|].
  intros B [(l & K & C) N Do A]. assert (in_bounds w1) as B1 by (unfold in_bounds, now in *; by rewrite <- Es1).
  destruct (schedule_kernel w l d _ id w1 K (Hd Do) E B1) as (K1 & Eid & Ei). split; [|intros h'| |by apply Ea].
  - eexists. split; [destruct K1; split; unfold now in *; rewrite Es1; eassumption|]. intros h' Hh'. specialize (C h' Hh').
    pose proof (ticks_schedule (sim w) (sim w2) l d (handle_event h) (handle_event h') (ko_inv _ _ K)) as P.
    rewrite Es1 in P. specialize (P Ei). unfold clock_ok in *. rewrite Et, Es1 by done.
    destruct (decide (h' = h)) as [->|Ne].
    + rewrite decide_True in P by done. rewrite bool_decide_false in C by tauto. cbn [andb] in C.
      rewrite bool_decide_true by (rewrite list_elem_of_filter; tauto). rewrite Tk. cbn [andb].
      rewrite C in P. apply Permutation_singleton_r in P. eexists. split; [exact P|]. congruence.
    + rewrite decide_False in P by (intros ?; by apply Ne, (inj handle_event)). rewrite Eo by done.
      rewrite (bool_decide_ext _ (h' ∉ X)) by (rewrite list_elem_of_filter; tauto). destruct (_ && _).
      * destruct C as (ev & Ec & Eid'). rewrite Ec in P. apply Permutation_singleton_r in P. eauto.
      * rewrite C in P. by apply Permutation_nil_r in P.
  - rewrite Es. destruct (decide (h' = h)) as [->|Ne]; [by rewrite Eh|]. rewrite Eo by done.
    by eapply named_schedule; [apply (ko_inv _ _ K)|exact Ei|].
  - apply Ed, delays_ok_sim, Do.
Qed.

End clocks.
