(* ===== verification/ClocksFacts.v ===== *)
(** What every handler does to the clocks of the system: those that leave them alone, those that reset a
    clock or turn one on or off, and one event of the kernel. *)
From Stdlib Require Import ZArith Lia.
From stdpp Require Import base list gmap strings sets.
From S2P Require Import Prelude OrdMap EventQueue Simulator Messages Repository World RlLm MoniLm LogicModule.
From S2P Require Import RicE2Term NearRtRic Reporters E2Node System InvariantFacts Clocks.
Open Scope Z_scope.
Section objects.
Context {Q : Type} `{EventQueueLaws Q} `{Platform}.
Variable D : Z.
Implicit Types (w : World Q).
#[local] Abbreviation quiet := (quiet D).

(** ** Changes of one object *)

Lemma set_lm_quiet w p l l' :
  w.(lms) !! p = Some l ->
  rv_draws l'.(Lm.m_processingDelayRv) = rv_draws l.(Lm.m_processingDelayRv) ->
  l'.(Lm.m_finishRunEvent) = l.(Lm.m_finishRunEvent) \/ named l'.(Lm.m_finishRunEvent) (ev_FinishRun p) w.(sim) ->
  quiet w (Ok (set_lm p l' w)).
Proof.
  intros El Er Eh. apply change_quiet; [done|by intros []| | |done].
  - intros h. destruct h as [| | |q|q|q|q]; try (by left). cbn [handle_id].
    change (lms (set_lm p l' w)) with (<[p := l']> w.(lms)). destruct (decide (p = q)) as [->|Ne].
    + rewrite lookup_insert_eq, El. cbn. destruct Eh as [Eh|Eh]; [by left|by right].
    + left. by rewrite lookup_insert_ne.
  - intros []. split; try done. apply map_Forall_insert_2; [|done]. unfold lm_draws. rewrite Er. by eapply dl_lms.
Qed.

Lemma set_terminator_quiet w p t t' :
  w.(terminators) !! p = Some t -> t'.(Term.m_active) = t.(Term.m_active) ->
  t'.(Term.m_nearRtRic) = t.(Term.m_nearRtRic) -> t'.(Term.m_registrationEvent) = t.(Term.m_registrationEvent) ->
  rv_draws t'.(Term.m_registrationIntervalRv) = rv_draws t.(Term.m_registrationIntervalRv) ->
  rv_draws t'.(Term.m_sendIntervalRv) = rv_draws t.(Term.m_sendIntervalRv) ->
  rv_draws t'.(Term.m_transmissionDelayRv) = rv_draws t.(Term.m_transmissionDelayRv) ->
  t'.(Term.m_sendEvent) = t.(Term.m_sendEvent) \/ named t'.(Term.m_sendEvent) (ev_DoSendReports p) w.(sim) ->
  quiet w (Ok (set_terminator p t' w)).
Proof.
  intros Et Ea En Eg E1 E2 E3 Es. apply change_quiet; [done| | | |].
  - intros [| | | |q| |] _; try done. cbn [ticking].
    change (terminators (set_terminator p t' w)) with (<[p := t']> w.(terminators)). destruct (decide (p = q)) as [->|Ne];
      [by rewrite lookup_insert_eq, Et; cbn; rewrite Ea|by rewrite lookup_insert_ne].
  - intros h. destruct h as [| | |q|q|q|q]; try (by left); cbn [handle_id];
      change (terminators (set_terminator p t' w)) with (<[p := t']> w.(terminators));
      (destruct (decide (p = q)) as [->|Ne];
      [rewrite lookup_insert_eq, Et; cbn|left; by rewrite lookup_insert_ne]); [left; congruence|].
    destruct Es as [Es|Es]; [by left|by right].
  - intros []. split; try done. apply map_Forall_insert_2; [|done]. unfold draws_within. rewrite E1, E2, E3.
    by apply (dl_terminators p).
  - intros A. apply map_Forall_insert_2; [|done]. rewrite Ea, En. by apply (A p).
Qed.

Lemma set_trigger_quiet w p t' :
  match t'.(Trigger.class) with
  | OranReportTriggerPeriodic id rv =>
      (handle_id (H_trigger p) w = id \/ named id (ev_TriggerReport p) w.(sim)) /\
      (delays_ok D w -> draws_within D rv)
  | OranReportTriggerNrUeHandover => True
  end -> quiet w (Ok (set_trigger p t' w)).
Proof.
  intros Et. apply change_quiet; [done|by intros []| | |done].
  - intros h. destruct h as [| | |q|q|q|q]; try (by left). cbn [handle_id] in *.
    change (triggers (set_trigger p t' w)) with (<[p := t']> w.(triggers)). destruct (decide (p = q)) as [->|Ne].
    + rewrite lookup_insert_eq. destruct (Trigger.class t') as [id rv|]; [|by right].
      destruct Et as [[<-|Et] _]; [by left|by right].
    + left. by rewrite lookup_insert_ne.
  - intros Dl. pose proof Dl as []. split; try done. apply map_Forall_insert_2; [|done].
    destruct (Trigger.class t'); [by apply Et|done].
Qed.

Lemma set_ric_quiet w r :
  r.(Ric.m_active) = w.(ric).(Ric.m_active) -> r.(Ric.m_lmQueryEvent) = w.(ric).(Ric.m_lmQueryEvent) ->
  r.(Ric.m_e2NodeInactivityEvent) = w.(ric).(Ric.m_e2NodeInactivityEvent) ->
  r.(Ric.m_processLmQueryCommandsEvent) = w.(ric).(Ric.m_processLmQueryCommandsEvent) \/
    named r.(Ric.m_processLmQueryCommandsEvent) ev_ProcessLmQueryCommands w.(sim) ->
  r.(Ric.m_lmQueryInterval) = w.(ric).(Ric.m_lmQueryInterval) ->
  r.(Ric.m_lmQueryMaxWaitTime) = w.(ric).(Ric.m_lmQueryMaxWaitTime) ->
  rv_draws r.(Ric.m_e2NodeInactivityIntervalRv) = rv_draws w.(ric).(Ric.m_e2NodeInactivityIntervalRv) ->
  quiet w (Ok (set_ric r w)).
Proof.
  intros Ea Eq Ei Ep E1 E2 E3. apply change_quiet; [done| | | |done].
  - by intros [].
  - intros []; try (by left). destruct Ep; [by left|by right].
  - intros []. split; try done; change (ric (set_ric r w)) with r; rewrite ?E1, ?E2; try done.
    unfold draws_within. by rewrite E3.
Qed.

Lemma set_e2t_quiet w e :
  rv_draws e.(E2T.m_transmissionDelayRv) = rv_draws w.(e2t).(E2T.m_transmissionDelayRv) -> quiet w (Ok (set_e2t e w)).
Proof.
  intros Er. apply change_quiet; [done|by intros []|intros h; left; by destruct h| |done].
  intros []. split; try done. unfold draws_within. change (e2t (set_e2t e w)) with e. by rewrite Er.
Qed.

(** The repository, the conflict mitigation module, the nodes and the reporters do not matter. *)
Lemma other_quiet w w' :
  w'.(sim) = w.(sim) -> w'.(ric) = w.(ric) -> w'.(e2t) = w.(e2t) -> w'.(lms) = w.(lms) ->
  w'.(terminators) = w.(terminators) -> w'.(triggers) = w.(triggers) -> quiet w (Ok w').
Proof.
  intros Es Er Ee El Et Eg. apply change_quiet; rewrite ?Et; try done.
  - intros [] _; cbn; by rewrite ?Er, ?Et.
  - intros h. left. destruct h; cbn; by rewrite ?Er, ?El, ?Et, ?Eg.
  - intros []. split; by rewrite ?Er, ?Ee, ?El, ?Et, ?Eg.
Qed.

Lemma cancel_pending_quiet w h : is_clock h = false -> quiet w (Ok (cancel_pending (handle_id h w) w)).
Proof. rewrite cancel_pending_eq. apply cancel_quiet. Qed.

Lemma on_data_quiet w f : quiet w (on_data f w).
Proof. unfold on_data. apply quiet_pure. intros d _. by apply other_quiet. Qed.

Lemma quiet_abort_if w c msg k : quiet w (k tt) -> quiet w (res_bind (abort_if c msg) k).
Proof. intros K. apply quiet_pure. by intros []. Qed.

End objects.

(** Goes on from the world a change of [w] gives, which occurs in the goal. *)
Ltac quiet_set w :=
  match goal with
  | |- quiet ?D _ ?r =>
      match r with
      | context [set_e2t ?x w] => apply (quiet_then D w (set_e2t x w))
      | context [set_ric ?x w] => apply (quiet_then D w (set_ric x w))
      | context [set_lm ?p ?x w] => apply (quiet_then D w (set_lm p x w))
      | context [set_terminator ?p ?x w] => apply (quiet_then D w (set_terminator p x w))
      | context [set_reporter ?p ?x w] => apply (quiet_then D w (set_reporter p x w))
      | context [set_trigger ?p ?x w] => apply (quiet_then D w (set_trigger p x w))
      | context [cancel_pending ?i w] => apply (quiet_then D w (cancel_pending i w))
      | context [cancel ?i w] => apply (quiet_then D w (cancel i w))
      end
  end.

(** An event that is not that of a clock *)
Ltac no_clock := by intros [] ? [=].

(** ** The handlers that leave the clocks alone *)

Section quiet_handlers.
Context {Q : Type} `{EventQueueLaws Q} `{Platform} `{Sqlite} `{RlAgent} `{CppImpl} `{StdSort}.
Variable D : Z.
Implicit Types (w : World Q).
#[local] Abbreviation quiet := (quiet D).

(** *** The RIC's E2 terminator *)

Lemma schedule_e2_quiet w e : (forall h, is_clock h = true -> e <> handle_event h) -> quiet w (schedule_e2 e w).
Proof.
  intros Nc. unfold schedule_e2. cbn [GetValue]. quiet_set w; [by apply set_e2t_quiet|].
  apply quiet_schedule; [|done|intros id s w1 _; apply quiet_ok].
  intros Dl. apply (dl_e2 _ _ Dl).
Qed.

Lemma node_terminator_quiet w id : quiet w (Ok (node_terminator id w).2).
Proof.
  unfold node_terminator. destruct (smap_lookup _ _); [apply quiet_ok|]. by apply set_e2t_quiet.
Qed.

(** A message to the terminator of a node *)
Lemma to_node_quiet w id (e : option nat -> OranEvent) :
  (forall t h, is_clock h = true -> e t <> handle_event h) ->
  quiet w (let '(t, w1) := node_terminator id w in schedule_e2 (e t) w1).
Proof.
  intros Nc. pose proof (node_terminator_quiet w id) as N. destruct (node_terminator id w) as [t w1].
  eapply quiet_then; [exact N|]. apply schedule_e2_quiet, Nc.
Qed.

Lemma ReceiveRegistrationRequest_quiet w type id t : quiet w (ReceiveRegistrationRequest type id t w).
Proof.
  unfold ReceiveRegistrationRequest. destruct (E2T.m_active (e2t w)); [|apply quiet_ok].
  apply quiet_abort_if, quiet_pure. intros [e w1] (_ & d & -> & _)%register_in_data_adds.
  apply (quiet_then D w (w <| data := d |>)); [by apply other_quiet|].
  quiet_set (w <| data := d |>); [by apply set_e2t_quiet|]. apply schedule_e2_quiet. no_clock.
Qed.

Lemma ReceiveDeregistrationRequest_quiet w e : quiet w (ReceiveDeregistrationRequest e w).
Proof.
  unfold ReceiveDeregistrationRequest. destruct (E2T.m_active (e2t w)); [|apply quiet_ok].
  apply quiet_abort_if, quiet_pure. intros [e' d] _.
  apply (quiet_then D w (w <| data := d |>)); [by apply other_quiet|].
  apply (to_node_quiet _ e (fun t => ev_ReceiveDeregistrationResponse t e')). intros t. no_clock.
Qed.

Lemma SendCommand_quiet w c : quiet w (SendCommand c w).
Proof.
  unfold SendCommand. destruct (E2T.m_active (e2t w)); [|apply quiet_ok].
  apply quiet_abort_if, quiet_bind; [apply on_data_quiet|]. intros w1 _.
  apply (to_node_quiet _ _ (fun t => ev_ReceiveCommand t c)). intros t. no_clock.
Qed.

Lemma ProcessCommands_quiet w cs : quiet w (ProcessCommands cs w).
Proof.
  unfold ProcessCommands. destruct (E2T.m_active (e2t w)); [|apply quiet_ok].
  apply quiet_fold. intros c w'. apply SendCommand_quiet.
Qed.

(** *** Logic modules *)

Lemma LogLogicToRepository_quiet w p msg : quiet w (LogLogicToRepository p msg w).
Proof.
  unfold LogLogicToRepository. apply quiet_pure. intros l _. apply quiet_abort_if.
  destruct (Lm.m_verbose l); [apply on_data_quiet|apply quiet_ok].
Qed.

Lemma CancelRun_quiet w p : quiet w (CancelRun p w).
Proof.
  unfold CancelRun. apply quiet_pure. intros l El%deref_Some. destruct (_ && _); [|apply quiet_ok].
  assert (Lm.m_finishRunEvent l = handle_id (H_finish p) w) as -> by (cbn; by rewrite El).
  quiet_set w; [by apply cancel_quiet|]. apply quiet_bind.
  - case_bool_decide; [apply quiet_ok|apply LogLogicToRepository_quiet].
  - intros w2 _. apply quiet_pure. intros l2 El2%deref_Some. eapply set_lm_quiet; [exact El2|done|by left].
Qed.

Lemma Run_virtual_quiet w p cs w' : Run_virtual p w = Ok (cs, w') -> quiet w (Ok w').
Proof.
  unfold Run_virtual. intros E. destruct (deref p (lms w)) as [l|] eqn:El; [|done]. apply deref_Some in El.
  cbn [res_bind] in E. destruct (Lm.class l) as [| |st|st].
  - unfold NoopRun in E. inv_res. pose proof (LogLogicToRepository_quiet w p "No action taken") as K.
    by match goal with H : LogLogicToRepository _ _ _ = _ |- _ => rewrite H in K end.
  - inv_res. apply quiet_ok.
  - inv_res. eapply set_lm_quiet; [exact El|done|by left].
  - inv_res. eapply set_lm_quiet; [exact El|done|by left].
Qed.

(** A run leaves the stream of its module as it was. *)
Lemma Run_virtual_rv w p l cs w' :
  w.(lms) !! p = Some l -> Run_virtual p w = Ok (cs, w') ->
  exists l', w'.(lms) !! p = Some l' /\ l'.(Lm.m_processingDelayRv) = l.(Lm.m_processingDelayRv).
Proof.
  unfold Run_virtual, deref at 1. intros El E. rewrite El in E. cbn [res_bind] in E.
  destruct (Lm.class l) as [| |st|st]; [|inv_res; eauto|inv_res..].
  - exists l. split; [|done]. unfold NoopRun, LogLogicToRepository, on_data, deref in E. rewrite El in E.
    cbn [res_bind] in E. inv_res; destruct (Lm.m_verbose l); by inv_res.
  - eexists. split; [exact (lookup_insert_eq _ _ _)|done].
  - eexists. split; [exact (lookup_insert_eq _ _ _)|done].
Qed.

Lemma LmRun_quiet w p cycle : quiet w (LmRun p cycle w).
Proof.
  unfold LmRun. apply quiet_pure. intros l El%deref_Some. destruct (Lm.m_active l); [|apply quiet_ok].
  apply quiet_abort_if. cbn [GetValue]. set (n := rv_count (Lm.m_processingDelayRv l)).
  quiet_set w; [eapply set_lm_quiet; [exact El|done|by left]|].
  match goal with |- context [set_lm p ?x w] => set (l1 := x); set (w1 := set_lm p l1 w) end.
  apply quiet_pure. intros [cs w2] E2.
  destruct (Run_virtual_rv w1 p l1 cs w2 (lookup_insert_eq _ _ _) E2) as (l2 & El2 & Er).
  apply (quiet_then D w1 w2); [by eapply Run_virtual_quiet|]. unfold deref at 1. rewrite El2. cbn [res_bind].
  quiet_set w2; [eapply set_lm_quiet; [exact El2|done|by left]|].
  apply quiet_schedule; [|no_clock|].
  - intros Dl. pose proof (dl_lms _ _ Dl p _ (lookup_insert_eq _ _ _) n) as L. cbn in L. rewrite Er in L. apply L.
  - intros id s w3 Nm. apply quiet_pure. intros l3 El3%deref_Some. eapply set_lm_quiet; [exact El3|done|by right].
Qed.

Lemma restart_lm_quiet w p : quiet w (restart_lm p w).
Proof.
  unfold restart_lm. apply quiet_pure. intros b _. apply quiet_bind; [destruct b; [apply CancelRun_quiet|apply quiet_ok]|].
  intros w1 _. apply LmRun_quiet.
Qed.

(** *** The processing of commands *)

Lemma Filter_quiet w input cs w' : Filter input w = Ok (cs, w') -> quiet w (Ok w').
Proof.
  unfold Filter. intros E. inv_res.
  assert (quiet w (LogLogicToStorage "No action taken" w)) as K.
  { unfold LogLogicToStorage. apply quiet_abort_if. destruct (Cmm.m_verbose _); [apply on_data_quiet|apply quiet_ok]. }
  by match goal with H : LogLogicToStorage _ _ = _ |- _ => rewrite H in K end.
Qed.

Lemma ProcessLmQueryCommands_quiet w : quiet w (ProcessLmQueryCommands w).
Proof.
  unfold ProcessLmQueryCommands. destruct (Ric.m_active (ric w)); [|apply quiet_ok].
  change (Ric.m_processLmQueryCommandsEvent (ric w)) with (handle_id H_process w).
  quiet_set w; [by apply cancel_pending_quiet|]. apply quiet_abort_if, quiet_pure. intros [cs w2] E%Filter_quiet.
  eapply quiet_then; [exact E|]. apply quiet_bind; [apply ProcessCommands_quiet|]. intros w3 _.
  apply set_ric_quiet; try done. by left.
Qed.

Lemma NotifyLmFinished_quiet w cycle cs lm : quiet w (NotifyLmFinished cycle cs lm w).
Proof.
  unfold NotifyLmFinished. apply quiet_pure. intros l _. cbn zeta.
  match goal with |- context [append_commands _ _ ?x] => apply (quiet_then D w x); [|generalize x; intros w1] end.
  { destruct (smap_lookup _ _); [|apply quiet_ok]. apply set_ric_quiet; try done. by left. }
  apply quiet_abort_if.
  match goal with |- quiet _ (if (length (Ric.m_lmQueryCommands (ric ?x)) =? _)%nat && _ then _ else _) =>
    apply (quiet_then D w1 x); [|generalize x; intros w2] end.
  { destruct (collecting w1); [apply set_ric_quiet; try done; by left|].
    destruct (Ric.m_lmQueryLateCommandPolicy _); [apply quiet_ok|apply set_ric_quiet; try done; by left]. }
  destruct (_ && _); [apply ProcessLmQueryCommands_quiet|apply quiet_ok].
Qed.

Lemma FinishRun_quiet w p : quiet w (FinishRun p w).
Proof.
  unfold FinishRun. apply quiet_pure. intros l _. destruct (Lm.m_active l); [|apply quiet_ok].
  apply quiet_abort_if, quiet_bind; [apply NotifyLmFinished_quiet|]. intros w1 _.
  apply quiet_pure. intros l1 El1%deref_Some. eapply set_lm_quiet; [exact El1|done|by left].
Qed.

End quiet_handlers.

(** *** Reporters and triggers *)

Section quiet_nodes.
Context {Q : Type} `{EventQueueLaws Q} `{Platform}.
Variable D : Z.
Implicit Types (w : World Q).
#[local] Abbreviation quiet := (quiet D).

Lemma set_reporter_quiet w p r : quiet w (Ok (set_reporter p r w)).
Proof. by apply other_quiet. Qed.

Lemma StoreReport_quiet w p r : quiet w (StoreReport p r w).
Proof.
  unfold StoreReport. apply quiet_pure. intros t Et%deref_Some.
  destruct (Term.m_active t); [|apply quiet_ok]. eapply set_terminator_quiet; try done. by left.
Qed.

Lemma trigger_draws w p t id rv :
  w.(triggers) !! p = Some t -> t.(Trigger.class) = OranReportTriggerPeriodic id rv -> delays_ok D w ->
  draws_within D rv.
Proof. intros Et Ec Dl. pose proof (dl_triggers _ _ Dl p t Et) as X. cbn in X. by rewrite Ec in X. Qed.

Lemma ScheduleNextTrigger_quiet w p : quiet w (ScheduleNextTrigger p w).
Proof.
  unfold ScheduleNextTrigger. apply quiet_pure. intros t Et%deref_Some.
  destruct (Trigger.class t) as [id rv|] eqn:Ec; [|apply quiet_ok]. cbn [GetValue].
  apply quiet_schedule; [|no_clock|].
  - intros Dl. by apply (trigger_draws w p t id rv).
  - intros id' s w1 Nm. apply set_trigger_quiet. cbn. split; [by right|].
    intros Dl. by apply (trigger_draws (w <| sim := s |>) p t id rv).
Qed.

Lemma connect_quiet w b p r : quiet w (connect b p r w).
Proof.
  unfold connect. apply quiet_pure. intros rp _. apply quiet_pure. intros t _.
  destruct (Term.m_node t) as [n|]; [|done]. apply quiet_pure. intros nd _. apply quiet_pure. intros l _.
  by apply other_quiet.
Qed.

(** A trigger with the members of the class as they were *)
Lemma set_trigger_same w p t t' :
  w.(triggers) !! p = Some t -> t'.(Trigger.class) = t.(Trigger.class) -> quiet w (Ok (set_trigger p t' w)).
Proof.
  intros Et Ec. apply set_trigger_quiet. rewrite Ec. destruct (Trigger.class t) as [id rv|] eqn:E; [|done].
  split; [left; cbn; by rewrite Et, E|by apply (trigger_draws w p t id)].
Qed.

Lemma TriggerActivate_quiet w p r : quiet w (TriggerActivate p r w).
Proof.
  unfold TriggerActivate. apply quiet_pure. intros t _. apply quiet_bind.
  - destruct (Trigger.m_active t); [apply quiet_ok|].
    destruct (Trigger.class t); [apply ScheduleNextTrigger_quiet|apply connect_quiet].
  - intros w1 _. unfold TriggerActivate_base. apply quiet_pure. intros t1 Et1%deref_Some.
    destruct (Trigger.m_active t1); [apply quiet_ok|]. quiet_set w1; [by eapply set_trigger_same|].
    apply quiet_pure. intros rp _. apply set_reporter_quiet.
Qed.

Lemma TriggerDeactivate_quiet w p : quiet w (TriggerDeactivate p w).
Proof.
  unfold TriggerDeactivate. apply quiet_pure. intros t _. apply quiet_bind.
  - destruct (Trigger.m_active t); [|apply quiet_ok]. destruct (Trigger.class t).
    + unfold CancelNextTrigger. apply quiet_pure. intros t1 Et1%deref_Some.
      destruct (Trigger.class t1) as [id rv|] eqn:Ec; [|apply quiet_ok].
      assert (id = handle_id (H_trigger p) w) as -> by (cbn; by rewrite Et1, Ec). by apply cancel_pending_quiet.
    + destruct (Trigger.m_reporter t); [apply connect_quiet|done].
  - intros w1 _. unfold TriggerDeactivate_base. apply quiet_pure. intros t1 Et1%deref_Some.
    destruct (Trigger.m_active t1); [|apply quiet_ok]. destruct (Trigger.m_reporter t1) as [rp|]; [|done].
    apply quiet_pure. intros r _. quiet_set w1; [apply set_reporter_quiet|].
    eapply set_trigger_same; [exact Et1|done].
Qed.

Lemma ReporterDeactivate_quiet w p : quiet w (ReporterDeactivate p w).
Proof.
  unfold ReporterDeactivate. apply quiet_pure. intros r _.
  destruct (Reporter.m_active r); [|apply quiet_ok]. destruct (Reporter.m_trigger r) as [t|]; [|done].
  apply quiet_bind; [apply TriggerDeactivate_quiet|]. intros w1 _. apply quiet_pure. intros r1 _.
  apply set_reporter_quiet.
Qed.

Lemma ReporterActivate_quiet w p : quiet w (ReporterActivate p w).
Proof.
  unfold ReporterActivate. apply quiet_pure. intros r _.
  destruct (Reporter.m_active r); [apply ReporterDeactivate_quiet|].
  destruct (Reporter.m_terminator r); [|apply ReporterDeactivate_quiet].
  destruct (Reporter.m_trigger r) as [t|]; [|apply ReporterDeactivate_quiet].
  quiet_set w; [apply set_reporter_quiet|]. apply TriggerActivate_quiet.
Qed.

Lemma PerformReport_quiet w p : quiet w (PerformReport p w).
Proof.
  unfold PerformReport. apply quiet_pure. intros r _. destruct (Reporter.m_active r); [|apply quiet_ok].
  destruct (Reporter.m_terminator r) as [t|]; [|apply ReporterDeactivate_quiet].
  apply quiet_pure. intros [reports w1] E.
  apply (quiet_then D w w1).
  - unfold GenerateReports in E. destruct (deref p (reporters w)) as [r1|]; [|done]. cbn [res_bind] in E.
    destruct (Reporter.m_active r1); inv_res; [apply set_reporter_quiet|apply quiet_ok].
  - apply quiet_fold. intros rp w2. apply StoreReport_quiet.
Qed.

Lemma TriggerReport_quiet w p : quiet w (TriggerReport p w).
Proof.
  unfold TriggerReport. apply quiet_pure. intros t _. apply quiet_bind.
  - destruct (Trigger.m_active t); [apply ScheduleNextTrigger_quiet|apply quiet_ok].
  - intros w1 _. destruct (Trigger.m_reporter t); [apply PerformReport_quiet|done].
Qed.

Lemma ReporterNotifyRegistrationComplete_quiet w p : quiet w (ReporterNotifyRegistrationComplete p w).
Proof.
  unfold ReporterNotifyRegistrationComplete. apply quiet_pure. intros r _.
  destruct (Reporter.m_trigger r) as [t|]; [|done]. unfold TriggerNotifyRegistrationComplete.
  apply quiet_pure. intros tr _. destruct (_ && _); [apply TriggerReport_quiet|apply quiet_ok].
Qed.

(** *** E2 node terminators *)

Lemma transmit_quiet w p e : (forall h, is_clock h = true -> e <> handle_event h) -> quiet w (transmit p e w).
Proof.
  intros Nc. unfold transmit. apply quiet_pure. intros t Et%deref_Some. cbn [GetValue].
  quiet_set w; [eapply set_terminator_quiet; try done; by left|].
  apply quiet_schedule; [|done|intros id s w1 _; apply quiet_ok].
  intros Dl. destruct (dl_terminators _ _ Dl p _ (lookup_insert_eq _ _ _)) as (_ & _ & Dt). apply Dt.
Qed.

Lemma CancelNextSend_quiet w p : quiet w (CancelNextSend p w).
Proof.
  unfold CancelNextSend. apply quiet_pure. intros t Et%deref_Some.
  assert (Term.m_sendEvent t = handle_id (H_send p) w) as -> by (cbn; by rewrite Et). by apply cancel_pending_quiet.
Qed.

Lemma ScheduleNextSend_quiet w p : quiet w (ScheduleNextSend p w).
Proof.
  unfold ScheduleNextSend. apply quiet_pure. intros t Et%deref_Some.
  destruct (Term.m_active t); [|apply quiet_ok]. cbn [GetValue].
  quiet_set w; [eapply set_terminator_quiet; try done; by left|]. apply quiet_schedule; [|no_clock|].
  - intros Dl. destruct (dl_terminators _ _ Dl p _ (lookup_insert_eq _ _ _)) as (_ & Ds & _). apply Ds.
  - intros id s w1 Nm. unfold update_terminator. apply quiet_pure. intros t1 Et1%deref_Some.
    eapply set_terminator_quiet; try done. by right.
Qed.

Lemma ReceiveRegistrationResponse_quiet w p e : quiet w (ReceiveRegistrationResponse p e w).
Proof.
  unfold ReceiveRegistrationResponse. apply quiet_pure. intros t Et%deref_Some.
  destruct (Term.m_active t); [|apply quiet_ok]. apply quiet_bind; [|intros w1 _; apply ScheduleNextSend_quiet].
  destruct (_ =? e); [apply quiet_ok|]. quiet_set w; [eapply set_terminator_quiet; try done; by left|].
  destruct (0 <? e); [|apply quiet_ok]. apply quiet_fold. intros r w1. apply ReporterNotifyRegistrationComplete_quiet.
Qed.

Lemma ReceiveDeregistrationResponse_quiet w p e : quiet w (ReceiveDeregistrationResponse p e w).
Proof.
  unfold ReceiveDeregistrationResponse, update_terminator. apply quiet_pure. intros t Et%deref_Some.
  eapply set_terminator_quiet; try done. by left.
Qed.

Lemma DoSendReports_quiet w p : quiet w (DoSendReports p w).
Proof.
  unfold DoSendReports. apply quiet_pure. intros t _. destruct (Term.m_active t); [|apply quiet_ok].
  apply quiet_abort_if, quiet_bind.
  - apply quiet_fold. intros r w1. apply transmit_quiet. no_clock.
  - intros w1 _. apply quiet_bind; [|intros w2 _; apply ScheduleNextSend_quiet]. unfold update_terminator.
    apply quiet_pure. intros t1 Et1%deref_Some. eapply set_terminator_quiet; try done. by left.
Qed.

Lemma ReceiveCommand_quiet w p c : quiet w (ReceiveCommand p c w).
Proof.
  unfold ReceiveCommand. apply quiet_pure. intros t _. destruct (Term.m_active t); [|apply quiet_ok].
  destruct (Term.type t); [apply quiet_ok|apply quiet_ok|]. destruct (cmd_body c); [| |apply quiet_ok].
  - apply quiet_pure. intros g _. destruct (Term.m_node t) as [nd|]; [|done].
    apply quiet_pure. intros nd' _. by apply other_quiet.
  - apply quiet_pure. intros g _. destruct (Term.m_node t) as [nd|]; [|done].
    apply quiet_pure. intros nd' _. by apply other_quiet.
Qed.

End quiet_nodes.

(** [h] is no longer one of the clocks being reset. *)
Abbreviation without h X := (filter (fun x => x <> h) X).

Section rules.
Context {Q : Type} `{EventQueueLaws Q} `{Platform}.
Variable D : Z.
Implicit Types (w : World Q).
#[local] Abbreviation triple := (triple D).
#[local] Abbreviation quiet := (quiet D).

(** No clock is turned on or off. *)
Definition steady w (r : res (World Q)) : Prop :=
  match r with Ok w' => forall h, is_clock h = true -> ticking h w' = ticking h w | Abort _ => True end.

Lemma quiet_steady w r : quiet w r -> steady w r.
Proof. by intros [_ S]. Qed.

Lemma quiet_triple X w r : quiet w r -> triple X w r X.
Proof. intros [T _]. apply T. Qed.

Lemma steady_bind w (m : res (World Q)) k :
  steady w m -> (forall w', m = Ok w' -> steady w' (k w')) -> steady w (res_bind m k).
Proof.
  destruct m as [w'|]; [|done]. intros S K. specialize (K w' eq_refl). cbn. destruct (k w'); [|done].
  intros h Hh. rewrite <- S by done. by apply K.
Qed.

Lemma steady_pure {A} w (m : res A) k : (forall a, m = Ok a -> steady w (k a)) -> steady w (res_bind m k).
Proof. destruct m; cbn; [auto|done]. Qed.

Lemma triple_seq X Y Y' w (m : res (World Q)) k :
  triple X w m Y -> (forall w', m = Ok w' -> triple Y w' (k w') Y') -> triple X w (res_bind m k) Y'.
Proof. intros T. apply (triple_bind D X Y Y' w m id). destruct m; exact T. Qed.

Lemma triple_abort_if X Y w c msg k : (c = false -> triple X w (k tt) Y) -> triple X w (res_bind (abort_if c msg) k) Y.
Proof. unfold abort_if. destruct c; cbn; auto. Qed.

(** Being reset only matters for a clock that is on. *)
Lemma triple_weaken X Y Y' w r :
  triple X w r Y ->
  (forall w' h, r = Ok w' -> is_clock h = true -> ticking h w' = true -> h ∈ Y <-> h ∈ Y') -> triple X w r Y'.
Proof.
  destruct r as [w'|]; [|done]. intros [V I] E. split; [done|]. intros B Iw.
  eapply clocks_inv_ext; [|by apply I]. intros h. by apply E.
Qed.

Lemma triple_ok X Y w :
  (forall h, is_clock h = true -> ticking h w = true -> h ∈ X <-> h ∈ Y) -> triple X w (Ok w) Y.
Proof. intros E. split; [done|]. intros _. by apply clocks_inv_ext. Qed.

Lemma elem_without (h x : Handle) (X : list Handle) : x ∈ without h X <-> x <> h /\ x ∈ X.
Proof. by rewrite list_elem_of_filter. Qed.

(** An event to come is pending. *)
Lemma clock_pending X w h :
  clocks_inv D X w -> is_clock h = true -> ticking h w = true -> h ∉ X -> pending (handle_id h w) w = true.
Proof.
  intros [(l & K & C) _ _ _] Hh T Hx. specialize (C h Hh). unfold clock_ok in C.
  rewrite bool_decide_true, T in C by done. destruct C as (ev & E & <-).
  unfold pending, IsPending. rewrite (tick_not_expired _ l ev (handle_event h)); [done|apply K|].
  rewrite E. by left.
Qed.

(** ** Registrations *)

Lemma registration_ticking w p t : w.(terminators) !! p = Some t -> ticking (H_registration p) w = t.(Term.m_active).
Proof. intros Et. cbn. by rewrite Et. Qed.

Lemma CancelNextRegistration_triple X w p : triple X w (CancelNextRegistration p w) (H_registration p :: X).
Proof.
  unfold CancelNextRegistration. apply triple_pure. intros t Et%deref_Some. rewrite cancel_pending_eq.
  assert (Term.m_registrationEvent t = handle_id (H_registration p) w) as -> by (cbn; by rewrite Et).
  by apply cancel_triple.
Qed.

Lemma CancelNextRegistration_steady w p : steady w (CancelNextRegistration p w).
Proof.
  unfold CancelNextRegistration. apply steady_pure. intros t _. rewrite cancel_pending_eq. intros h _. apply ticking_sim.
Qed.

(** Storing the id in the terminator that asked for it *)
Lemma update_scheduled w p t d e (f : EventId -> Term.E2NodeTerminator -> Term.E2NodeTerminator) :
  w.(terminators) !! p = Some t ->
  (let* r := schedule d e w in update_terminator p (f r.1) r.2)
  = let* r := schedule d e w in Ok (set_terminator p (f r.1 t) r.2).
Proof.
  intros Et. destruct (schedule d e w) as [[id w1]|] eqn:E; [|done]. cbn [res_bind fst snd].
  destruct (schedule_frame w d _ id w1 E) as (s & -> & _). unfold update_terminator, deref.
  change (terminators (w <| sim := s |>)) with (terminators w). by rewrite Et.
Qed.

(** The next registration is planned. *)
Lemma plan_registration X w p t d :
  w.(terminators) !! p = Some t -> t.(Term.m_active) = true -> H_registration p ∈ X -> (delays_ok D w -> d <= D) ->
  let r := let* r := schedule d (ev_Register p) w in
           update_terminator p (fun t => t <| Term.m_registrationEvent := r.1 |>) r.2 in
  triple X w r (without (H_registration p) X) /\ steady w r.
Proof.
  intros Et Ea Hx Hd. cbn zeta.
  rewrite (update_scheduled w p t d (ev_Register p) (fun id t => t <| Term.m_registrationEvent := id |>) Et).
  set (store := fun id w1 => set_terminator p (t <| Term.m_registrationEvent := id |>) w1).
  assert (forall id s h, is_clock h = true -> ticking h (store id (w <| sim := s |>)) = ticking h w) as St.
  { intros id s [| | | |q| |] _; try done. cbn [ticking].
    change (terminators (store id (w <| sim := s |>)))
      with (<[p := t <| Term.m_registrationEvent := id |>]> w.(terminators)).
    destruct (decide (p = q)) as [<-|Nq]; [by rewrite lookup_insert_eq, Et|by rewrite lookup_insert_ne]. }
  split.
  - apply (schedule_clock D X w d (H_registration p) store); [done|cbn; by rewrite Et|done|done|]. intros id s w1 w2.
    assert (terminators w2 = <[p := t <| Term.m_registrationEvent := id |>]> w.(terminators)) as E2 by done.
    split; [done|]. split; [cbn [handle_id]; by rewrite E2, lookup_insert_eq|]. split; [|split; [apply St|split]].
    + intros [| | |q|q|q|q] Ne; try done; cbn [handle_id]; rewrite E2.
      * by rewrite lookup_insert_ne by congruence.
      * destruct (decide (p = q)) as [<-|Nq]; [by rewrite lookup_insert_eq, Et|by rewrite lookup_insert_ne].
    + intros Dl. pose proof (dl_terminators _ _ Dl p t Et) as Dt. destruct Dl. split; try done. rewrite E2.
      by apply map_Forall_insert_2.
    + intros A. rewrite E2. apply map_Forall_insert_2; [exact (A p t Et)|done].
  - destruct (schedule d (ev_Register p) w) as [[id w1]|] eqn:E; [|done]. cbn [res_bind fst snd].
    destruct (schedule_frame w d _ id w1 E) as (s & -> & _). intros h. apply St.
Qed.

Lemma Register_ok X w p :
  triple X w (Register p w) (without (H_registration p) X) /\ steady w (Register p w).
Proof.
  unfold Register. destruct (deref p (terminators w)) as [t|] eqn:Et; [|done]. apply deref_Some in Et. cbn [res_bind].
  pose proof (registration_ticking w p t Et) as T. destruct (Term.m_active t) eqn:Ea.
  2: { split; [|done]. apply triple_ok. intros h _ Th. rewrite elem_without. split; [|tauto]. intros Hx.
       split; [|done]. intros ->. congruence. }
  destruct (negb (Term.m_nearRtRic t)); [done|]. cbn [abort_if res_bind].
  pose proof (CancelNextRegistration_triple X w p) as T1. pose proof (CancelNextRegistration_steady w p) as S1.
  destruct (CancelNextRegistration p w) as [w1|]; [|done]. cbn [res_bind].
  assert (quiet w1 (transmit p (ev_ReceiveRegistrationRequest (Term.type t) (Term.m_e2NodeId t) p) w1)) as Q2
    by (apply transmit_quiet; no_clock).
  destruct (transmit p _ w1) as [w2|]; [|done]. cbn [res_bind].
  destruct (deref p (terminators w2)) as [t2|] eqn:Et2; [|done]. apply deref_Some in Et2. cbn [res_bind GetValue].
  match goal with |- context [set_terminator p ?x w2] => set (t3 := x); set (w3 := set_terminator p t3 w2) end.
  assert (quiet w2 (Ok w3)) as Q3 by (eapply set_terminator_quiet; [exact Et2|done..|by left]).
  apply quiet_steady in Q2 as S2. apply quiet_steady in Q3 as S3.
  assert (steady w (Ok w3)) as S by (intros h Hh; by rewrite S3, S2, S1).
  destruct (plan_registration (H_registration p :: X) w3 p t3
    (Seconds (rv_draws (Term.m_registrationIntervalRv t2) (rv_count (Term.m_registrationIntervalRv t2))))) as [T4 S4].
  - exact (lookup_insert_eq _ _ _).
  - rewrite <- (registration_ticking w3 p t3 (lookup_insert_eq _ _ _)). by rewrite S.
  - by left.
  - intros Dl. destruct (dl_terminators _ _ Dl p _ (lookup_insert_eq _ _ _)) as (Dr & _). apply Dr.
  - split.
    + apply (triple_then D X _ _ w w1 _ T1). apply (triple_then D _ _ _ w1 w2 _ (quiet_triple _ _ _ Q2)).
      apply (triple_then D _ _ _ w2 w3 _ (quiet_triple _ _ _ Q3)). eapply triple_weaken; [exact T4|].
      intros w' h _ _ _. rewrite !elem_without, elem_of_cons. tauto.
    + by apply (steady_bind w (Ok w3) (fun w3 => _)); [exact S|intros ? [= <-]].
Qed.

(** Turning the registrations of a terminator on or off: only that clock changes. *)
Lemma set_active_inv X w p t t' :
  w.(terminators) !! p = Some t -> t'.(Term.m_registrationEvent) = t.(Term.m_registrationEvent) ->
  t'.(Term.m_sendEvent) = t.(Term.m_sendEvent) ->
  t'.(Term.m_registrationIntervalRv) = t.(Term.m_registrationIntervalRv) ->
  t'.(Term.m_sendIntervalRv) = t.(Term.m_sendIntervalRv) ->
  t'.(Term.m_transmissionDelayRv) = t.(Term.m_transmissionDelayRv) ->
  (t'.(Term.m_nearRtRic) = false -> t'.(Term.m_active) = false) ->
  t'.(Term.m_active) = t.(Term.m_active) \/ H_registration p ∈ X ->
  clocks_inv D X w -> clocks_inv D X (set_terminator p t' w).
Proof.
  intros Et E1 E2 E3 E4 E5 An Ch I. set (w' := set_terminator p t' w).
  assert (terminators w' = <[p := t']> w.(terminators)) as Et' by done.
  assert (forall h, is_clock h = true -> h ∉ X -> ticking h w' = ticking h w) as T.
  { intros [| | | |q| |] _ Hx; try done. cbn [ticking]. rewrite Et'.
    destruct (decide (p = q)) as [<-|Nq]; [|by rewrite lookup_insert_ne]. rewrite lookup_insert_eq, Et. cbn.
    by destruct Ch. }
  apply (change_clocks D X w w'); [done| | | | | |done].
  - intros h Hh Th Hx. by rewrite <- T.
  - intros h Hh Th Hx. by rewrite T.
  - intros h. left. destruct h as [| | |q|q|q|q]; try done; cbn [handle_id]; rewrite Et';
      (destruct (decide (p = q)) as [<-|Nq]; [rewrite lookup_insert_eq, Et; cbn; congruence|by rewrite lookup_insert_ne]).
  - intros Dl. pose proof (dl_terminators _ _ Dl p t Et) as Dt. destruct Dl. split; try done. rewrite Et'.
    apply map_Forall_insert_2; [by rewrite E3, E4, E5|done].
  - rewrite Et'. apply map_Forall_insert_2; [done|apply I].
Qed.

Lemma Deregister_triple X w p : triple X w (Deregister p w) (H_registration p :: X).
Proof.
  unfold Deregister. apply triple_pure. intros t _. apply triple_abort_if. intros _.
  apply (triple_seq X (H_registration p :: X)); [apply CancelNextRegistration_triple|]. intros w1 _.
  apply quiet_triple, transmit_quiet. no_clock.
Qed.

Lemma TermDeactivate_triple X w p : triple X w (TermDeactivate p w) X.
Proof.
  unfold TermDeactivate. apply triple_pure. intros t _. destruct (Term.m_active t); [|by apply triple_ok].
  apply (triple_seq X X); [apply quiet_triple, quiet_fold; intros r w'; apply ReporterDeactivate_quiet|]. intros w1 _.
  apply (triple_seq X X); [apply quiet_triple, CancelNextSend_quiet|]. intros w2 _.
  apply (triple_seq X (H_registration p :: X)); [apply Deregister_triple|]. intros w3 _.
  unfold update_terminator. apply triple_pure. intros t3 Et3%deref_Some.
  apply (triple_weaken (H_registration p :: X) (H_registration p :: X)).
  - split; [done|]. intros _. eapply set_active_inv; try done. right. by left.
  - intros w' h [= <-] Hh Th. rewrite elem_of_cons. split; [|tauto]. intros [->|?]; [|done]. cbn [ticking] in Th.
    match type of Th with context [terminators (set_terminator p ?x w3)] =>
      change (terminators (set_terminator p x w3)) with (<[p := x]> w3.(terminators)) in Th end.
    by rewrite lookup_insert_eq in Th.
Qed.

Lemma TermActivate_triple w p : triple [] w (TermActivate p w) [].
Proof.
  unfold TermActivate. apply triple_pure. intros t Et%deref_Some.
  destruct (Term.m_nearRtRic t) eqn:En; cbn [negb].
  - destruct (Term.m_active t) eqn:Ea; [by apply triple_ok|].
    apply (triple_then D [] [H_registration p] _ w (set_terminator p (t <| Term.m_active := true |> <| Term.m_reports := [] |>) w)).
    + split; [done|]. intros _ I. eapply set_active_inv; try done.
      * cbn. by rewrite En.
      * right. by left.
      * eapply clocks_inv_ext; [|exact I]. intros h Hh Th. rewrite list_elem_of_singleton. split; [by intros ?%elem_of_nil|].
        intros ->. by rewrite (registration_ticking w p t Et), Ea in Th.
    + apply (triple_seq _ (without (H_registration p) [H_registration p])); [apply Register_ok|]. intros w1 _.
      rewrite filter_cons_False by tauto. apply quiet_triple, quiet_fold. intros r w2. apply ReporterActivate_quiet.
  - apply (triple_then D [] [] _ w (set_terminator p (t <| Term.m_active := false |>) w)); [|apply TermDeactivate_triple].
    split; [done|]. intros _ I. eapply set_active_inv; try done. left. cbn. symmetry. by apply (ci_attached _ _ _ I p).
Qed.

End rules.

(** ** The RIC *)

Section ric_clocks.
Context {Q : Type} `{EventQueueLaws Q} `{Platform} `{Sqlite} `{RlAgent} `{CppImpl} `{StdSort}.
Variable D : Z.
Implicit Types (w : World Q).
#[local] Abbreviation triple := (triple D).
#[local] Abbreviation quiet := (quiet D).

(** The id of the RIC's clock [h] *)
Definition store_clock (h : Handle) (id : EventId) (r : Ric.NearRtRic) : Ric.NearRtRic :=
  match h with
  | H_query => r <| Ric.m_lmQueryEvent := id |>
  | _ => r <| Ric.m_e2NodeInactivityEvent := id |>
  end.

Lemma set_clock_ric X w h d :
  h ∈ [H_query; H_inactivity] -> w.(ric).(Ric.m_active) = true -> h ∈ X -> (delays_ok D w -> d <= D) ->
  let r := let* r := schedule d (handle_event h) w in Ok (set_ric (store_clock h r.1 w.(ric)) r.2) in
  triple X w r (without h X) /\ steady w r.
Proof.
  intros Hh Ta Hx Hd r. subst r. assert (is_clock h = true /\ ticking h w = true) as [Hc Tk].
  { by apply elem_of_cons in Hh as [->|[->|[]%elem_of_nil]%elem_of_cons]. }
  split.
  - apply (schedule_clock D X w d h (fun id w1 => set_ric (store_clock h id w.(ric)) w1)); try done.
    intros id s w1 w2. subst w2. apply elem_of_cons in Hh as [->|[->|[]%elem_of_nil]%elem_of_cons].
    all: split; [done|]; split; [done|]; split; [by intros []|]; split; [by intros []|]; split; [|done].
    all: intros []; split; done.
  - destruct (schedule d (handle_event h) w) as [[id w1]|] eqn:E; [|done]. cbn [res_bind fst snd].
    destruct (schedule_frame w d _ id w1 E) as (s & -> & _).
    apply elem_of_cons in Hh as [->|[->|[]%elem_of_nil]%elem_of_cons]; by intros [].
Qed.

(** The id is stored in the RIC the event was scheduled in. *)
Lemma set_ric_scheduled w d h :
  (let* r := schedule d (handle_event h) w in Ok (set_ric (store_clock h r.1 r.2.(ric)) r.2))
  = let* r := schedule d (handle_event h) w in Ok (set_ric (store_clock h r.1 w.(ric)) r.2).
Proof.
  destruct (schedule d (handle_event h) w) as [[id w1]|] eqn:E; [|done].
  by destruct (schedule_frame w d _ id w1 E) as (s & -> & _).
Qed.

Lemma schedule_query_clocks X w :
  w.(ric).(Ric.m_active) = true -> H_query ∈ X ->
  triple X w (schedule_query w) (without H_query X) /\ steady w (schedule_query w).
Proof.
  intros Ta Hx. pose proof (set_ric_scheduled w (Ric.m_lmQueryInterval (ric w)) H_query) as E. cbn in E.
  unfold schedule_query. rewrite E. apply (set_clock_ric X w H_query); [by left|done|done|].
  intros Dl. apply (dl_query _ _ Dl).
Qed.

Lemma schedule_inactivity_clocks X w :
  w.(ric).(Ric.m_active) = true -> H_inactivity ∈ X ->
  triple X w (schedule_inactivity w) (without H_inactivity X) /\ steady w (schedule_inactivity w).
Proof.
  intros Ta Hx. unfold schedule_inactivity. cbn [GetValue].
  match goal with |- context [set_ric ?x w] => set (w1 := set_ric x w) end.
  assert (quiet w (Ok w1)) as Q1 by (apply set_ric_quiet; try done; by left).
  set (d := Seconds _). pose proof (set_ric_scheduled w1 d H_inactivity) as E. cbn in E. rewrite E.
  destruct (set_clock_ric X w1 H_inactivity d) as [T S]; [right; by left|done|done| |].
  { intros Dl. apply (dl_inactivity _ _ Dl). }
  split; [apply (triple_then D X X _ w w1 _ (quiet_triple D X _ _ Q1) T)|].
  apply (steady_bind w (Ok w1) (fun w1 => _) (quiet_steady D _ _ Q1)). by intros ? [= <-].
Qed.

Lemma CheckForInactivity_clocks X w :
  triple X w (CheckForInactivity w) (without H_inactivity X) /\ steady w (CheckForInactivity w).
Proof.
  unfold CheckForInactivity. destruct (Ric.m_active (ric w)) eqn:Ta.
  2: { split; [|done]. apply triple_ok. intros h _ Th. rewrite elem_without. split; [|tauto]. intros Hx.
       split; [|done]. intros ->. cbn in Th. congruence. }
  destruct (negb (Ric.m_data (ric w))); [done|]. destruct (negb (Ric.m_e2Terminator (ric w))); [done|].
  cbn [abort_if res_bind]. destruct (GetLastRegistrationRequests (data w)) as [l|]; [|done]. cbn [res_bind].
  assert (quiet w (res_fold check_node l w)) as Q1.
  { apply quiet_fold. intros x w1. unfold check_node. destruct (_ <? _); [|apply quiet_ok].
    apply ReceiveDeregistrationRequest_quiet. }
  destruct (res_fold check_node l w) as [w1|]; [|done]. cbn [res_bind]. rewrite cancel_pending_eq.
  apply quiet_steady in Q1 as S1. set (w2 := cancel _ w1).
  assert (w2.(ric).(Ric.m_active) = true) as Ta2 by (rewrite <- Ta; exact (S1 H_query eq_refl)).
  destruct (schedule_inactivity_clocks (H_inactivity :: X) w2 Ta2) as [T3 S3]; [by left|]. split.
  - apply (triple_then D X X _ w w1 _ (quiet_triple D X _ _ Q1)).
    apply (triple_then D _ (H_inactivity :: X) _ w1 w2); [by apply (cancel_triple D X H_inactivity w1)|].
    eapply triple_weaken; [exact T3|]. intros w' h _ _ _. rewrite !elem_without, elem_of_cons. tauto.
  - apply (steady_bind w (Ok w2) (fun w2 => _)); [|by intros ? [= <-]]. intros h Hh. rewrite <- S1 by done.
    apply ticking_sim.
Qed.

Lemma QueryLms_triple X w : H_query ∈ X -> triple X w (QueryLms w) (without H_query (without H_inactivity X)).
Proof.
  intros Hx. unfold QueryLms. destruct (Ric.m_active (ric w)) eqn:Ta.
  2: { apply triple_ok. intros h _ Th. rewrite !elem_without. split; [|tauto]. intros Hh.
       split; [|split; [|done]]; intros ->; cbn in Th; congruence. }
  apply triple_pure. intros lm _. set (w0 := set_ric _ w).
  assert (quiet w (Ok w0)) as Q0 by (apply set_ric_quiet; try done; by left).
  apply (triple_then D X X _ w w0 _ (quiet_triple D X _ _ Q0)).
  destruct (CheckForInactivity_clocks X w0) as [T1 S1].
  destruct (CheckForInactivity w0) as [w1|]; [|done]. cbn [res_bind].
  apply (triple_then D _ _ _ w0 w1 _ T1).
  assert (quiet w1 (if 0 <? w1.(ric).(Ric.m_lmQueryMaxWaitTime) then
    let* r := schedule w1.(ric).(Ric.m_lmQueryMaxWaitTime) ev_ProcessLmQueryCommands w1 in
    Ok (set_ric (r.2.(ric) <| Ric.m_processLmQueryCommandsEvent := r.1 |>) r.2) else Ok w1)) as Q2.
  { destruct (0 <? _); [|apply quiet_ok]. apply quiet_schedule; [|no_clock|].
    - intros Dl. apply (dl_wait _ _ Dl).
    - intros id s w2 Nm. apply set_ric_quiet; try done. by right. }
  destruct (if 0 <? _ then _ else _) as [w2|]; [|done]. cbn [res_bind].
  apply (triple_then D _ _ _ w1 w2 _ (quiet_triple D _ _ _ Q2)).
  assert (quiet w2 (let* w := restart_lm lm w2 in for_additional restart_lm w.(ric).(Ric.m_additionalLms) w)) as Q3.
  { apply quiet_bind; [apply restart_lm_quiet|]. intros w3 _. unfold for_additional. apply quiet_fold.
    intros e w4. apply restart_lm_quiet. }
  destruct (restart_lm lm w2) as [w3|]; [|done]. cbn [res_bind] in Q3 |- *.
  destruct (for_additional _ _ w3) as [w4|]; [|done]. cbn [res_bind].
  apply (triple_then D _ _ _ w2 w4 _ (quiet_triple D _ _ _ Q3)).
  apply schedule_query_clocks; [|by rewrite elem_without].
  apply quiet_steady in Q0 as S0, Q2 as S2, Q3 as S3. rewrite <- Ta.
  exact (eq_trans (S3 H_query eq_refl) (eq_trans (S2 H_query eq_refl) (eq_trans (S1 H_query eq_refl) (S0 H_query eq_refl)))).
Qed.

Context `{QueryTriggers}.

Lemma ReceiveReport_triple w report : triple [] w (ReceiveReport report w) [].
Proof.
  unfold ReceiveReport. destruct (E2T.m_active (e2t w)); [|by apply triple_ok].
  apply triple_abort_if. intros _. apply (triple_seq D [] []); [apply quiet_triple, on_data_quiet|]. intros w1 _.
  apply triple_abort_if. intros _. unfold NotifyReportReceived. destruct (existsb _ _); [|by apply triple_ok].
  rewrite cancel_pending_eq. apply (triple_then D [] [H_query] _ w1 (cancel (handle_id H_query w1) w1));
    [by apply cancel_triple|].
  eapply triple_weaken; [apply QueryLms_triple; by left|]. intros w' h _ _ _.
  rewrite !elem_without, list_elem_of_singleton. split; [tauto|by intros []%elem_of_nil].
Qed.

(** *** Switching the RIC on and off *)

(** The flag of the RIC: its two clocks change. *)
Lemma set_ric_active_inv X w b :
  H_query ∈ X -> H_inactivity ∈ X -> clocks_inv D X w ->
  clocks_inv D X (set_ric (w.(ric) <| Ric.m_active := b |>) w).
Proof.
  intros Hq Hi I. apply (change_clocks D X w); [done| | | | |exact (ci_attached _ _ _ I)|exact I].
  - by intros [] ? ? ?.
  - by intros [] ? ? ?.
  - intros h. left. by destruct h.
  - by intros [].
Qed.

Lemma LmActivate_quiet w p : quiet w (LmActivate p w).
Proof.
  unfold LmActivate. apply quiet_pure. intros l El%deref_Some. apply quiet_abort_if.
  eapply set_lm_quiet; [exact El|done|by left].
Qed.

Lemma LmDeactivate_quiet w p : quiet w (LmDeactivate p w).
Proof.
  unfold LmDeactivate. apply quiet_pure. intros l El%deref_Some.
  quiet_set w; [eapply set_lm_quiet; [exact El|done|by left]|]. apply quiet_pure. intros [] _;
    [apply CancelRun_quiet|apply quiet_ok].
Qed.

Lemma for_additional_quiet f l w : (forall p w, quiet w (f p w)) -> quiet w (for_additional f l w).
Proof. intros F. unfold for_additional. apply quiet_fold. intros e w'. apply F. Qed.

(** Turned on, the RIC has nothing planned yet. *)
Lemma RicActivate_ok w :
  (w.(ric).(Ric.m_active) = false -> triple [] w (RicActivate w) [H_query; H_inactivity]) /\
  forall w', RicActivate w = Ok w' -> w'.(ric).(Ric.m_active) = true.
Proof.
  unfold RicActivate. destruct (check_modules w) as [lm|]; [|done]. cbn [res_bind].
  destruct (Ric.m_active (ric w)) eqn:Ta; [by split; [|intros w' [= <-]]|]. set (w1 := set_ric _ w).
  match goal with |- (_ -> triple [] w ?r _) /\ _ => assert (quiet w1 r) as Qr end.
  { apply (quiet_then D w1 (E2TActivate w1)); [by apply set_e2t_quiet|].
    apply quiet_bind; [apply on_data_quiet|]. intros w3 _.
    apply quiet_bind; [apply LmActivate_quiet|]. intros w4 _.
    apply quiet_bind; [apply for_additional_quiet; intros p w0; apply LmActivate_quiet|]. intros w5 _.
    unfold CmmActivate. apply quiet_abort_if. by apply other_quiet. }
  split.
  - intros _. apply (triple_then D [] [H_query; H_inactivity] _ w w1); [|by apply quiet_triple].
    split; [done|]. intros _ I. apply set_ric_active_inv; [by left|right; by left|].
    eapply clocks_inv_ext; [|exact I]. intros h _ Th. split; [by intros []%elem_of_nil|].
    rewrite elem_of_cons, list_elem_of_singleton. intros [->| ->]; cbn in Th; congruence.
  - apply quiet_steady in Qr. intros w' E. rewrite E in Qr. exact (Qr H_query eq_refl).
Qed.

Lemma Start_triple w : triple [] w (Start w) [].
Proof.
  unfold Start. destruct (RicActivate_ok w) as [T0 A0].
  destruct (RicActivate w) as [w1|] eqn:E0; [|done]. cbn [res_bind]. specialize (A0 w1 eq_refl).
  apply triple_abort_if. intros Pq. apply triple_abort_if. intros _.
  apply (triple_then D [] [H_query; H_inactivity] _ w w1).
  { destruct (Ric.m_active (ric w)) eqn:Ta; [|by apply T0].
    (* a RIC that is on has been started already *)
    assert (w1 = w) as ->.
    { unfold RicActivate in E0. rewrite Ta in E0. destruct (check_modules w); [|done]. by injection E0. }
    split; [done|]. intros _ I. pose proof (clock_pending D [] w H_query I eq_refl Ta ltac:(by intros ?%elem_of_nil)).
    cbn in *. congruence. }
  destruct (schedule_query_clocks [H_query; H_inactivity] w1 A0 ltac:(by left)) as [T S].
  destruct (schedule_query w1) as [w2|]; [|done]. cbn [res_bind]. apply (triple_then D _ _ _ w1 w2 _ T).
  eapply triple_weaken; [apply schedule_inactivity_clocks; [rewrite <- A0; exact (S H_query eq_refl)|]|].
  - rewrite elem_without. split; [done|right; by left].
  - intros w' h _ _ _. rewrite !elem_without, elem_of_cons, list_elem_of_singleton.
    split; [tauto|by intros []%elem_of_nil].
Qed.

Lemma Stop_triple w : triple [] w (Stop w) [].
Proof.
  unfold Stop, RicDeactivate. rewrite res_bind_assoc.
  match goal with |- triple [] w (res_bind ?m _) _ => assert (quiet w m) as Q1; [|destruct m as [w1|]; [|done]] end.
  { destruct (Ric.m_active (ric w)); [|apply quiet_ok]. apply quiet_pure. intros lm _.
    set (w2 := E2TDeactivate w). apply (quiet_then D w w2); [by apply set_e2t_quiet|].
    apply (quiet_then D w2 (w2 <| data := Repository.Deactivate w2.(data) |>)); [by apply other_quiet|].
    apply quiet_bind; [apply LmDeactivate_quiet|]. intros w3 _.
    apply quiet_bind; [apply for_additional_quiet; intros p w0; apply LmDeactivate_quiet|]. intros w4 _. by apply other_quiet. }
  cbn [res_bind]. apply (triple_then D [] [] _ w w1 _ (quiet_triple D _ _ _ Q1)).
  set (w2 := cancel (handle_id H_query w1) w1). set (w3 := cancel (handle_id H_inactivity w2) w2).
  set (w4 := cancel (handle_id H_process w3) w3).
  apply (triple_then D [] [H_inactivity; H_query] _ w1 w4).
  - apply (triple_then D [] [H_query] _ w1 w2); [by apply cancel_triple|].
    apply (triple_then D _ [H_inactivity; H_query] _ w2 w3); [by apply cancel_triple|].
    by apply quiet_triple, cancel_quiet.
  - match goal with |- triple _ _ (Ok ?x) _ => change x with (set_ric (w4.(ric) <| Ric.m_active := false |>) w4) end.
    apply (triple_weaken D [H_inactivity; H_query] [H_inactivity; H_query]).
    + split; [done|]. intros _ I. apply set_ric_active_inv; [right; by left|by left|exact I].
    + intros w' h [= <-] _ Th. split; [|by intros []%elem_of_nil]. rewrite elem_of_cons, list_elem_of_singleton.
      intros [->| ->]; by cbn in Th.
Qed.

End ric_clocks.
