(* ===== verification/ClocksProps.v ===== *)
(** The clocks in every world a system reaches: none stops, and none ticks twice. *)
From Stdlib Require Import ZArith Lia.
From stdpp Require Import base list gmap strings sets.
From S2P Require Import Prelude OrdMap EventQueue Simulator Messages Repository RepositoryFacts World RlLm MoniLm.
From S2P Require Import LogicModule RicE2Term NearRtRic Reporters E2Node WorldExamples RlLmProps System InvariantFacts.
From S2P Require Import InvariantProps Clocks ClocksFacts.
Open Scope Z_scope.
Section steps.
Context {Q : Type} `{EventQueueLaws Q} `{Platform} `{Sqlite} `{RlAgent} `{CppImpl} `{StdSort}.
Context `{QueryTriggers}.
Variable D : Z.
Implicit Types (w : World Q).
#[local] Abbreviation triple := (triple D).
#[local] Abbreviation quiet := (quiet D).

(** The clock an event is for *)
Definition clock_of (e : OranEvent) : list Handle :=
  match e with
  | ev_QueryLms => [H_query]
  | ev_CheckForInactivity => [H_inactivity]
  | ev_Register p => [H_registration p]
  | _ => []
  end.

Lemma clock_of_spec e h : is_clock h = true -> h ∈ clock_of e <-> e = handle_event h.
Proof.
  intros Hh. split.
  - destruct e; cbn; intros E; try (by apply elem_of_nil in E); by apply list_elem_of_singleton in E as ->.
  - intros ->. destruct h; try done; by left.
Qed.

(** Running the event of a clock sets the clock again. *)
Lemma handle_triple w e : triple (clock_of e) w (handle e w) [].
Proof.
  destruct e as [lm| | | |[t|] id|[t|] id|[t|] c|ty id t|id|r|t|t|t|t]; cbn [handle clock_of]; try done.
  - apply quiet_triple, FinishRun_quiet.
  - eapply triple_weaken; [apply QueryLms_triple; by left|]. intros w' h _ _ _.
    rewrite !elem_without, list_elem_of_singleton. split; [tauto|by intros []%elem_of_nil].
  - eapply triple_weaken; [apply CheckForInactivity_clocks|]. intros w' h _ _ _.
    rewrite !elem_without, list_elem_of_singleton. split; [tauto|by intros []%elem_of_nil].
  - apply quiet_triple, ProcessLmQueryCommands_quiet.
  - apply quiet_triple, ReceiveRegistrationResponse_quiet.
  - apply quiet_triple, ReceiveDeregistrationResponse_quiet.
  - apply quiet_triple, ReceiveCommand_quiet.
  - apply quiet_triple, ReceiveRegistrationRequest_quiet.
  - apply quiet_triple, ReceiveDeregistrationRequest_quiet.
  - apply ReceiveReport_triple.
  - eapply triple_weaken; [apply Register_ok|]. intros w' h _ _ _.
    rewrite !elem_without, list_elem_of_singleton. split; [tauto|by intros []%elem_of_nil].
  - apply quiet_triple, DoSendReports_quiet.
  - apply quiet_triple, TriggerReport_quiet.
  - apply TermActivate_triple.
Qed.

(** The kernel takes the next event: the clock it is for, if any, has to be set again. *)
Lemma take_next_clocks w l next s :
  kernel_ok D w (next :: l) -> (forall h, is_clock h = true -> clock_ok [] w (next :: l) h) ->
  take_next w.(sim) = Ok (next, s) ->
  let w1 := w <| sim := s |> in let X := default [] (clock_of <$> bound_to w.(sim) next) in
  kernel_ok D w1 l /\ s.(impls) = w.(sim).(impls) /\ forall h, is_clock h = true -> clock_ok X w1 l h.
Proof.
  intros [I N U] C T w1 X. destruct (take_next_ok _ _ _ I) as (s' & T' & I' & Et & Eu & _ & Ei & Ex & Em & _).
  rewrite T in T'. injection T' as <-. apply Forall_cons in N as [_ N].
  pose proof (inv_future _ _ I) as F. apply Forall_cons in F as [F _]. unfold in_future in F.
  split; [|split; [done|]].
  - split; [exact I'| |change (sim w1) with s; by rewrite Em, Ex].
    eapply Forall_impl; [exact N|]. unfold now, Now. change (sim w1) with s. rewrite Et. cbn. lia.
  - intros h Hh. specialize (C h Hh). unfold clock_ok in *. unfold w1. rewrite handle_id_sim, ticking_sim.
    change (sim (w <| sim := s |>)) with s.
    assert (forall e, ticks e s l = ticks e (sim w) l) as El.
    { intros e. apply ticks_ext. intros ev _. unfold bound_to. by rewrite Ei. }
    rewrite El. unfold ticks in C. rewrite filter_cons in C. fold (ticks (handle_event h) (sim w) l) in C.
    rewrite (bool_decide_true (h ∉ [])) in C by (by intros ?%elem_of_nil). cbn [andb] in C.
    destruct (decide (bound_to (sim w) next = Some (handle_event h))) as [B|B].
    + rewrite bool_decide_false by (unfold X; rewrite B; cbn; rewrite clock_of_spec by done; tauto).
      cbn [andb]. destruct (ticking h w); [|done]. destruct C as (ev & Ec & _). by injection Ec.
    + rewrite bool_decide_true; [exact C|]. subst X. destruct (bound_to (sim w) next) as [e|]; cbn.
      * rewrite clock_of_spec by done. congruence.
      * by intros ?%elem_of_nil.
Qed.

(** Events of other threads go to the queue at the same time. *)
Lemma ProcessEventsWithContext_frame (s s' : Sim Q OranEvent) :
  ProcessEventsWithContext s = Ok s' -> s'.(m_currentTs) = s.(m_currentTs) /\ s'.(next_impl) = s.(next_impl).
Proof.
  unfold ProcessEventsWithContext. intros E.
  refine (res_fold_inv (fun s' => m_currentTs s' = m_currentTs s /\ next_impl s' = next_impl s) _ _ _ _ _ _ E); [|done].
  intros ev s1 s2 _ [<- <-] E1. unfold insert_event in E1. by inv_res.
Qed.

(** One iteration of the loop of Run, on a queue that is not empty *)
Lemma step_triple w : IsEmpty w.(sim).(m_events) = false -> triple [] w (step w) [].
Proof.
  intros Ne. unfold step, ProcessOneEvent. cbn [fst snd].
  destruct (take_next (sim w)) as [[next s]|] eqn:T; [|done]. cbn [res_bind]. set (w1 := w <| sim := s |>).
  set (X := default [] (clock_of <$> bound_to w.(sim) next)).
  destruct (take_next_frame _ _ _ T) as (Ei & _ & Et & En).
  apply (triple_then D [] X _ w w1).
  - split; [unfold later, now, Now; change (sim w1) with s; lia|]. intros _ [(l & K & C) Nm Dl A].
    rewrite (IsEmpty_spec _ _ _ (inv_repr _ _ (ko_inv _ _ _ K))) in Ne. destruct l as [|ev l]; [done|].
    assert (ev = next) as ->.
    { destruct (take_next_ok _ _ _ (ko_inv _ _ _ K)) as (s' & T' & _). rewrite T in T'. by injection T'. }
    destruct (take_next_clocks w l next s K C T) as (K1 & _ & C1).
    split; [by exists l| |by apply delays_ok_sim|exact A]. intros h. unfold w1. rewrite handle_id_sim.
    intros q Hq. destruct (Nm h q Hq) as (i & Hi & Pi). exists i. change (sim (w <| sim := s |>)) with s. by rewrite Ei.
  - assert (forall w2, triple [] w2 (let* s := ProcessEventsWithContext w2.(sim) in Ok (w2 <| sim := s |>)) []) as P.
    { intros w2. destruct (ProcessEventsWithContext (sim w2)) as [s2|] eqn:E; [|done]. cbn [res_bind]. split.
      - destruct (ProcessEventsWithContext_frame _ _ E) as [E1 E2]. unfold later, now, Now.
        change (sim (w2 <| sim := s2 |>)) with s2. by rewrite E1, E2.
      - intros _ I. pose proof I as [(l & K & _) _ _ _]. rewrite (process_ewc_nil _ _ (ko_inv _ _ _ K)) in E.
        injection E as <-. by destruct w2. }
    unfold Invoke. cbn [fst snd]. rewrite Ei. unfold X, bound_to.
    destruct (impls (sim w) !! impl next) as [i|]; [|done].
    destruct (m_cancel i); cbn [negb res_bind fst snd default fmap option_fmap option_map].
    + specialize (P w1). change (sim w1) with s in P. by destruct (ProcessEventsWithContext s).
    + unfold notify. cbn [fst snd]. pose proof (handle_triple w1 (payload i)) as Th. fold w1.
      destruct (handle (payload i) w1) as [w2|]; [|done]. cbn [res_bind fst snd].
      apply (triple_then D _ [] _ w1 w2 _ Th). specialize (P w2). by destruct (ProcessEventsWithContext (sim w2)).
Qed.

(** ** Runs *)

(** The RIC is switched by Start and Stop, and an event is run when there is one. *)
Definition regular (c : call) w : Prop :=
  match c with
  | call_RicActivate | call_RicDeactivate => False
  | call_event => IsEmpty w.(sim).(m_events) = false
  | _ => True
  end.

Inductive runs_to w0 : World Q -> Prop :=
| runs_start : runs_to w0 w0
| runs_call c w w' : runs_to w0 w -> regular c w -> perform c w = Ok w' -> runs_to w0 w'.

Lemma perform_triple w c : regular c w -> triple [] w (perform c w) [].
Proof.
  destruct c; cbn [perform regular]; intros Rg; try done.
  - by apply step_triple.
  - apply Start_triple.
  - apply Stop_triple.
  - apply TermActivate_triple.
  - apply TermDeactivate_triple.
  - apply quiet_triple, StoreReport_quiet.
  - apply quiet_triple, TriggerReport_quiet.
  - apply quiet_triple. unfold ReportCqi. apply quiet_pure. intros r _.
    destruct (Reporter.class r); try apply quiet_ok. destruct (Reporter.m_active r); [|apply quiet_ok].
    apply quiet_pure. intros t _. apply set_reporter_quiet.
  - apply quiet_triple. unfold ReportRsrpRsrq. apply quiet_pure. intros r _.
    destruct (Reporter.class r); try apply quiet_ok. destruct (Reporter.m_active r); [|apply quiet_ok].
    apply quiet_pure. intros t _. apply set_reporter_quiet.
  - apply quiet_triple. unfold on_reporter. apply quiet_pure. intros r _. apply set_reporter_quiet.
  - apply quiet_triple. by apply other_quiet.
Qed.

Lemma runs_clocks w0 w : runs_to w0 w -> later w0 w /\ (in_bounds D w -> clocks_inv D [] w0 -> clocks_inv D [] w).
Proof.
  induction 1 as [|c w w' _ [V IH] Rg E]; [by split|]. pose proof (perform_triple w c Rg) as T. rewrite E in T.
  destruct T as [V' I]. split; [by etrans|]. intros B I0. apply I; [done|]. apply IH; [|done].
  by eapply in_bounds_later.
Qed.

(** A system that is set up: nothing is planned, the RIC and the terminators are off, every
    delay is within [D]. *)
Record set_up w : Prop := {
  su_kernel : kernel_inv w.(sim) [];
  su_uid : w.(sim).(m_uid) = UID_VALID + Z.of_nat w.(sim).(next_impl);
  su_ids : forall h, m_eventImpl (handle_id h w) = None;
  su_off : forall h, is_clock h = true -> ticking h w = false;
  su_delays : delays_ok D w
}.

Lemma set_up_clocks w : set_up w -> clocks_inv D [] w.
Proof.
  intros [K U N O Dl]. split; [|intros h q; by rewrite N|done|].
  - exists []. split; [by split|]. intros h Hh. unfold clock_ok. by rewrite O, andb_false_r.
  - intros p t Et _. pose proof (O (H_registration p) eq_refl) as T. cbn in T. by rewrite Et in T.
Qed.

(** The plan a clock has, as the theorems state it *)
Lemma clock_plan w l h :
  kernel_ok D w l -> clock_ok [] w l h ->
  filter (fun x => x.2 = handle_event h) (live w.(sim) l) =
    if ticking h w then [((handle_id h w).(id_ts), handle_event h)] else [].
Proof.
  intros K C. rewrite ticks_live. unfold clock_ok in C. rewrite bool_decide_true in C by (by intros ?%elem_of_nil).
  cbn [andb] in C. destruct (ticking h w); [|by rewrite C]. destruct C as (ev & -> & <-). done.
Qed.

Lemma live_near w l x : kernel_ok D w l -> x ∈ live w.(sim) l -> now w <= x.1 <= now w + D.
Proof.
  intros [I N _] Hx. apply list_elem_of_omap in Hx as (ev & Hev & E).
  pose proof (inv_future _ _ I) as F. rewrite Forall_forall in N, F. specialize (N ev Hev). specialize (F ev Hev).
  unfold in_future, now, Now in *. repeat case_match; simplify_eq. cbn. lia.
Qed.

End steps.

(** C11: in every world a system that was set up reaches, when its RIC is switched only by Start and
    Stop ([regular]) and neither the clock nor the uids come near overflow ([in_bounds]), the kernel is sound, no event is
    further away than the longest delay, and each clock (the RIC's queries and inactivity
    checks, the registrations of a terminator) has exactly one event to come while it is on,
    the one its EventId names, and none while it is off. *)
Theorem clocks_keep_ticking {Q} `{EventQueueLaws Q} `{Platform} `{Sqlite} `{RlAgent} `{CppImpl} `{StdSort}
    `{QueryTriggers} D (w0 w : World Q) :
  set_up D w0 -> runs_to w0 w -> in_bounds D w ->
  exists pl, plan w pl /\ Forall (fun x => now w <= x.1 <= now w + D) pl /\
    forall h, is_clock h = true ->
      filter (fun x => x.2 = handle_event h) pl =
        if ticking h w then [((handle_id h w).(id_ts), handle_event h)] else [].
Proof.
  intros S R B. destruct (runs_clocks D w0 w R) as [_ I]. destruct (I B (set_up_clocks D w0 S)) as [(l & K & C) _ _ _].
  exists (live w.(sim) l). split; [by exists l; split; [apply K|]|]. split.
  - apply Forall_forall. intros x. by apply live_near.
  - intros h Hh. eapply clock_plan; [exact K|by apply C].
Qed.

(** C13: an EventId a module, a terminator, a trigger or the RIC keeps is null or names an
    event bound to the method and the object it is kept for, in every world a system that
    was set up reaches with its RIC switched only by Start and Stop and clear of overflow: no object cancels the event of another. *)
Theorem handles_typed {Q} `{EventQueueLaws Q} `{Platform} `{Sqlite} `{RlAgent} `{CppImpl} `{StdSort}
    `{QueryTriggers} D (w0 w : World Q) h q :
  set_up D w0 -> runs_to w0 w -> in_bounds D w -> m_eventImpl (handle_id h w) = Some q ->
  exists i, w.(sim).(impls) !! q = Some i /\ i.(payload) = handle_event h.
Proof.
  intros S R B Hq. destruct (runs_clocks D w0 w R) as [_ I]. by apply (ci_named _ _ _ (I B (set_up_clocks D w0 S))).
Qed.

(** C12: a clock that is on does not stop, in a system whose RIC is switched only by Start and Stop and
    which is clear of overflow: once the time has passed by more than the longest
    delay, the clock, if it is on, has been set again. *)
Theorem clock_advances {Q} `{EventQueueLaws Q} `{Platform} `{Sqlite} `{RlAgent} `{CppImpl} `{StdSort}
    `{QueryTriggers} D (w0 w w' : World Q) h :
  set_up D w0 -> runs_to w0 w -> runs_to w w' -> in_bounds D w' -> is_clock h = true ->
  ticking h w = true -> ticking h w' = true -> now w + D < now w' -> handle_id h w' <> handle_id h w.
Proof.
  intros S R R' B Hh T T' L E. destruct (runs_clocks D w0 w R) as [_ I]. destruct (runs_clocks D w w' R') as [V I'].
  specialize (I (in_bounds_later D _ _ V B) (set_up_clocks D w0 S)). specialize (I' B I).
  assert (forall u, clocks_inv D [] u -> ticking h u = true -> now u <= id_ts (handle_id h u) <= now u + D) as N.
  { intros u [(l & K & C) _ _ _] Tu. pose proof (clock_plan D u l h K (C h Hh)) as P. rewrite Tu in P.
    assert ((id_ts (handle_id h u), handle_event h) ∈ live u.(sim) l) as Hx.
    { assert ((id_ts (handle_id h u), handle_event h) ∈ filter (fun x => x.2 = handle_event h) (live u.(sim) l)) as Hx
        by (rewrite P; by left). by apply list_elem_of_filter in Hx as [_ Hx]. }
    exact (live_near D u l _ K Hx). }
  pose proof (N w I T). pose proof (N w' I' T'). rewrite E in *. lia.
Qed.

(** *** A run for the witnesses *)

Lemma fresh_world_lms p l :
  fresh_world.(lms) !! p = Some l -> l = example_lm "first" \/ l = example_lm "second".
Proof.
  change (lms fresh_world) with (<[0%nat := example_lm "first"]> {[1%nat := example_lm "second"]} : gmap nat Lm.OranLm).
  rewrite lookup_insert_Some, lookup_singleton_Some. intuition.
Qed.

Lemma fresh_world_terminators p t :
  fresh_world.(terminators) !! p = Some t ->
  t = gnb_terminator <| Term.m_active := false |> <| Term.m_e2NodeId := 0 |>.
Proof.
  change (terminators fresh_world)
    with ({[0%nat := gnb_terminator <| Term.m_active := false |> <| Term.m_e2NodeId := 0 |>]}
      : gmap nat Term.E2NodeTerminator).
  rewrite lookup_singleton_Some. intuition.
Qed.

Lemma fresh_world_set_up : set_up 5 fresh_world.
Proof.
  assert (forall d, 0 <= Seconds (d_of_Z d) <= 5 -> draws_within 5 (delay_rv d)) as W.
  { intros d Hd n. by rewrite delay_rv_draws. }
  split; [apply kernel_inv_init|done| | |].
  - intros [| | |p|p|p|p]; try done; cbn [handle_id].
    + destruct (lms fresh_world !! p) as [l|] eqn:El; [|done]. by destruct (fresh_world_lms p l El) as [->| ->].
    + destruct (terminators fresh_world !! p) as [t|] eqn:Et; [|done]. by rewrite (fresh_world_terminators p t Et).
    + destruct (terminators fresh_world !! p) as [t|] eqn:Et; [|done]. by rewrite (fresh_world_terminators p t Et).
  - intros [| | |p|p|p|p]; try done; cbn [ticking].
    destruct (terminators fresh_world !! p) as [t|] eqn:Et; [|done]. by rewrite (fresh_world_terminators p t Et).
  - split; try (apply W; by vm_compute); try done.
    + intros p l Hl n. destruct (fresh_world_lms p l Hl) as [->| ->]; by vm_compute.
    + intros p t Ht. rewrite (fresh_world_terminators p t Ht). split_and!; apply W; by vm_compute.
Qed.

Section regular_script.
Context `{Sqlite} `{CppImpl}.

Definition regular_call (c : call) (w : World (list Event)) : bool :=
  match c with
  | call_RicActivate | call_RicDeactivate => false
  | call_event => negb (IsEmpty w.(sim).(m_events))
  | _ => true
  end.

Lemma regular_call_spec c w : regular_call c w = true -> regular c w.
Proof. destruct c; cbn; try done. by intros ?%negb_true_iff. Qed.

Fixpoint script_runs (cs : list call) (w : World (list Event)) : bool :=
  match cs with
  | [] => true
  | c :: cs => regular_call c w && match perform c w with Ok w' => script_runs cs w' | Abort _ => false end
  end.

Lemma script_runs_to w0 cs : forall w, script_runs cs w = true -> runs_to w0 w -> runs_to w0 (script cs w).
Proof.
  induction cs as [|c cs IH]; intros w S R; cbn [script script_runs] in *; [done|].
  apply andb_true_iff in S as [Rg S]. destruct (perform c w) as [w'|] eqn:E; [|done]. apply IH; [done|].
  eapply runs_call; [exact R|by apply regular_call_spec|exact E].
Qed.

End regular_script.

Definition later_world `{Sqlite} `{CppImpl} : World (list Event) := script (replicate 40 call_event) running_world.

Theorem clocks_keep_ticking_witness :
  let sq := engine true in let cpp := some_cpp in let w := running_world in
  exists pl, plan w pl /\ Forall (fun x => now w <= x.1 <= now w + 5) pl /\
    forall h, is_clock h = true ->
      filter (fun x => x.2 = handle_event h) pl =
        if ticking h w then [((handle_id h w).(id_ts), handle_event h)] else [].
Proof.
  intros sq cpp w. apply (clocks_keep_ticking 5 fresh_world w fresh_world_set_up).
  - apply script_runs_to; [vm_compute; reflexivity|apply runs_start].
  - split; vm_compute; reflexivity.
Defined.

Theorem handles_typed_witness :
  let sq := engine true in let cpp := some_cpp in
  exists q i, m_eventImpl (handle_id H_query running_world) = Some q /\
    running_world.(sim).(impls) !! q = Some i /\ i.(payload) = ev_QueryLms.
Proof.
  intros sq cpp. destruct (m_eventImpl (handle_id H_query running_world)) as [q|] eqn:E; [|by vm_compute in E].
  destruct (handles_typed 5 fresh_world running_world H_query q fresh_world_set_up) as (i & Hi & Pi); [| |exact E|].
  - apply script_runs_to; [vm_compute; reflexivity|apply runs_start].
  - split; vm_compute; reflexivity.
  - exists q, i. by split_and!.
Defined.

Theorem clock_advances_witness :
  let sq := engine true in let cpp := some_cpp in
  handle_id H_query later_world <> handle_id H_query running_world /\
  handle_id (H_registration 0) later_world <> handle_id (H_registration 0) running_world.
Proof.
  intros sq cpp.
  assert (runs_to fresh_world running_world) as R by (apply script_runs_to; [vm_compute; reflexivity|apply runs_start]).
  assert (runs_to running_world later_world) as R' by (apply script_runs_to; [vm_compute; reflexivity|apply runs_start]).
  assert (in_bounds 5 later_world) as B by (split; vm_compute; reflexivity).
  split; apply (clock_advances 5 fresh_world running_world later_world _ fresh_world_set_up R R' B);
    vm_compute; reflexivity.
Defined.
