(* ===== verification/Amc.v ===== *)
(** Adaptive modulation and coding: src/nr/model/nr-amc.cc over the interface NrErrorModel of
    nr-error-model.h, with the tables of nr-lte-mi-error-model.cc, the default error model.

    The block error rate a model estimates (GetTbDecodificationStats) and the functions of
    the C mathematical library are parameters.  The cache of GetMcsFromCqi is a mutable
    member, so the method returns the object as well.  The MIMO feedback is not modelled. *)
From Stdlib Require Import ZArith Lia SpecFloat.
From stdpp Require Import base list gmap strings.
From coqutil Require Import Datatypes.RecordSettersUsingExistingGetters.
From S2P Require Import Prelude Messages.
Open Scope Z_scope.

(** NrErrorModel::Mode *)
Inductive Mode := DL | UL.

(** The virtual methods of NrErrorModel; [GetTbler] is the m_tbler of
    GetTbDecodificationStats (sinr, map, size, mcs). *)
Record NrErrorModel := mkErrorModel {
  GetMaxMcs : Z;
  GetSpectralEfficiencyForCqi : Z -> res double;
  GetSpectralEfficiencyForMcs : Z -> res double;
  GetPayloadSize : Z -> Z -> Z -> Z -> Mode -> res Z;
  GetMaxCbSize : Z -> Z -> Z;
  GetTbler : list double -> list Z -> Z -> Z -> double
}.

(** The classes NrAmc tells apart by their TypeId. *)
Inductive ErrorModelType := NrLteMiErrorModel | LenaErrorModel | NrEesmErrorModel.
#[export] Instance ErrorModelType_eq_dec : EqDecision ErrorModelType.
Proof. solve_decision. Defined.

Inductive AmcModel := ShannonModel | ErrorModel.

(** The members of NrAmc *)
Record Amc := mkAmc {
  m_amcModel : AmcModel;
  m_errorModel : NrErrorModel;
  m_errorModelType : ErrorModelType;
  m_numRefScPerRb : Z;
  m_emMode : Mode;
  m_cachedCqiToMcsMap : gmap Z Z
}.

(** log, log2 and pow of the C library *)
Class LibM := { c_log : double -> double; c_log2 : double -> double; c_pow : double -> double -> double }.

(** m_crcLen in bytes, SUBCARRIERS_PER_RB *)
Definition m_crcLen : Z := 24 / 8.
Definition SUBCARRIERS_PER_RB : Z := 12.

(** NrAmc::SetErrorModelType; the factory creates [model]. *)
Definition SetErrorModelType (type : ErrorModelType) (model : NrErrorModel) (amc : Amc) : Amc :=
  amc <| m_errorModelType := type |> <| m_errorModel := model |> <| m_cachedCqiToMcsMap := ∅ |>.

(** while (n < n + fuel && below (n + 1)) ++n *)
Fixpoint climb (fuel : nat) (below : Z -> res bool) (n : Z) : res Z :=
  match fuel with
  | O => Ok n
  | S fuel => let* b := below (n + 1) in if b : bool then climb fuel below (n + 1) else Ok n
  end.

(** NrAmc::GetMcsFromCqi *)
Definition mcs_of_cqi (em : NrErrorModel) (cqi : Z) : res Z :=
  let* spectralEfficiency := em.(GetSpectralEfficiencyForCqi) cqi in
  climb (Z.to_nat em.(GetMaxMcs))
    (fun mcs => let* s := em.(GetSpectralEfficiencyForMcs) mcs in Ok (d_leb s spectralEfficiency)) 0.

Definition GetMcsFromCqi (cqi : Z) (amc : Amc) : res (Amc * Z) :=
  let* _ := abort_if (negb ((0 <=? cqi) && (cqi <=? 15))) "CQI must be in [0..15]" in
  match amc.(m_cachedCqiToMcsMap) !! cqi with
  | Some mcs => Ok (amc, mcs)
  | None =>
      let* mcs := mcs_of_cqi amc.(m_errorModel) cqi in
      Ok (amc <| m_cachedCqiToMcsMap ::= <[cqi := mcs]> |>, mcs)
  end.

(** NrAmc::GetCqiFromSpectralEfficiency and NrAmc::GetMcsFromSpectralEfficiency *)
Definition GetCqiFromSpectralEfficiency (s : double) (amc : Amc) : res Z :=
  let* _ := abort_if (negb (d_leb d_zero s)) "negative spectral efficiency" in
  climb 15 (fun cqi => let* e := amc.(m_errorModel).(GetSpectralEfficiencyForCqi) cqi in Ok (d_ltb e s)) 0.

Definition GetMcsFromSpectralEfficiency (s : double) (amc : Amc) : res Z :=
  let* _ := abort_if (negb (d_leb d_zero s)) "negative spectral efficiency" in
  climb (Z.to_nat amc.(m_errorModel).(GetMaxMcs))
    (fun mcs => let* e := amc.(m_errorModel).(GetSpectralEfficiencyForMcs) mcs in Ok (d_ltb e s)) 0.

(** NrAmc::GetPayloadSize *)
Definition AmcGetPayloadSize (mcs rank nprb : Z) (amc : Amc) : res Z :=
  amc.(m_errorModel).(GetPayloadSize) (u32 (SUBCARRIERS_PER_RB - amc.(m_numRefScPerRb))) mcs rank nprb
    amc.(m_emMode).

(** NrAmc::CalculateTbSize; ceil is applied to the quotient of two integers, so it does nothing. *)
Definition CalculateTbSize (mcs rank nprb : Z) (amc : Amc) : res Z :=
  let em := amc.(m_errorModel) in
  let* _ := abort_if (em.(GetMaxMcs) <? mcs) "MCS above the maximum" in
  let* payloadSize := AmcGetPayloadSize mcs rank nprb amc in
  if decide (amc.(m_errorModelType) = LenaErrorModel) then Ok payloadSize else
  let tbSize := if m_crcLen <=? payloadSize then payloadSize - m_crcLen else payloadSize in
  let cbSize := em.(GetMaxCbSize) payloadSize mcs in
  if cbSize <? tbSize then
    let* _ := abort_if (cbSize =? 0) "division by zero" in
    let C := tbSize / cbSize in
    let* _ := abort_if (2 ^ 32 <=? C * m_crcLen) "undefined conversion to uint32_t" in
    Ok (u32 (payloadSize - C * m_crcLen))
  else Ok tbSize.

(** NrAmc::GetBer *)
Definition GetBer (amc : Amc) : double :=
  match amc.(m_errorModelType) with
  | NrLteMiErrorModel | LenaErrorModel => d_dec 5 5
  | NrEesmErrorModel => d_dec 1 5
  end.

(** NrAmc::GetSpectralEfficiencyForSinr and NrAmc::GetSinrFromSpectralEfficiency *)
Definition GetSpectralEfficiencyForSinr `{LibM} (sinr : double) (amc : Amc) : double :=
  c_log2 (d_add (d_of_Z 1)
    (d_div sinr (d_div (d_opp (c_log (d_mul (d_of_Z 5) (GetBer amc)))) (d_dec 15 1)))).

Definition GetSinrFromSpectralEfficiency `{LibM} (spectralEff : double) (amc : Amc) : double :=
  d_div (d_mul (d_sub (c_pow (d_of_Z 2) spectralEff) (d_of_Z 1))
           (d_opp (c_log (d_mul (d_of_Z 5) (GetBer amc))))) (d_dec 15 1).

(** The loop of CreateCqiFeedbackSiso over the MCSs: where it stopped and the last m_tbler. *)
Fixpoint siso_loop (fuel : nat) (sinr : list double) (rbMap : list Z) (amc : Amc) (mcs : Z)
    (tbler : double) : res (Z * double) :=
  match fuel with
  | O => Ok (mcs, tbler)
  | S fuel =>
      let* tbSize := CalculateTbSize mcs 1 (Z.of_nat (length rbMap)) amc in
      let tbler := amc.(m_errorModel).(GetTbler) sinr rbMap tbSize mcs in
      if d_ltb (d_dec 1 1) tbler then Ok (mcs, tbler) else siso_loop fuel sinr rbMap amc (mcs + 1) tbler
  end.

(** The resource blocks with a signal *)
Definition rb_map (sinr : list double) : list Z :=
  Z.of_nat <$> filter (fun i => ((fun s => SFeqb s d_zero) <$> sinr !! i) = Some false) (seq 0 (length sinr)).

(** NrAmc::CreateCqiFeedbackSiso: the CQI and the MCS.  The loop bound uses that there are
    GetMaxMcs () + 1 MCSs. *)
Definition siso_error_model (sinr : list double) (amc : Amc) : res (Z * Z) :=
  let em := amc.(m_errorModel) in
  let* r := siso_loop (Z.to_nat (em.(GetMaxMcs) + 1)) sinr (rb_map sinr) amc 0 d_zero in
  let '(mcs, tbler) := r in
  let mcs := if 0 <? mcs then mcs - 1 else mcs in
  if d_ltb (d_dec 1 1) tbler && (mcs =? 0) then Ok (0, mcs)
  else if mcs =? em.(GetMaxMcs) then Ok (15, mcs)
  else
    let* s := em.(GetSpectralEfficiencyForMcs) mcs in
    let* cqi := climb 15 (fun cqi => let* e := em.(GetSpectralEfficiencyForCqi) cqi in Ok (d_leb e s)) 0 in
    Ok (cqi, mcs).

Definition siso_shannon `{LibM} (sinr : list double) (amc : Amc) : res (Z * Z) :=
  let* r := res_fold (fun sinr_ '(seAvg, rbNum) =>
      if SFeqb sinr_ d_zero then Ok (seAvg, rbNum) else
      let s := GetSpectralEfficiencyForSinr sinr_ amc in
      let* _ := GetCqiFromSpectralEfficiency s amc in
      Ok (d_add seAvg s, rbNum + 1)) sinr (d_zero, 0) in
  let '(seAvg, rbNum) := r in
  let seAvg := if rbNum =? 0 then seAvg else d_div seAvg (d_of_Z rbNum) in
  let* cqi := GetCqiFromSpectralEfficiency seAvg amc in
  let* mcs := GetMcsFromSpectralEfficiency seAvg amc in
  Ok (cqi, mcs).

Definition CreateCqiFeedbackSiso `{LibM} (sinr : list double) (amc : Amc) : res (Z * Z) :=
  match amc.(m_amcModel) with
  | ShannonModel => siso_shannon sinr amc
  | ErrorModel => siso_error_model sinr amc
  end.

(** ** NrLteMiErrorModel *)

Definition SpectralEfficiencyForCqi : list double :=
  (fun n => d_dec n 2) <$> [0; 15; 23; 38; 60; 88; 118; 148; 191; 241; 273; 332; 390; 452; 512; 555].

Definition SpectralEfficiencyForMcs : list double :=
  (fun n => d_dec n 2) <$>
  [15; 19; 23; 31; 38; 49; 60; 74; 88; 103; 118; 133; 148; 170; 191; 216;
   241; 257; 273; 303; 332; 361; 390; 421; 452; 482; 512; 533; 555; 0; 0; 0].

Definition McsEcrTable : list double :=
  (fun n => d_dec n 2) <$>
  [8; 10; 11; 15; 19; 24; 30; 37; 44; 51; 30; 33; 37; 42; 48; 54; 60; 43; 45; 50; 55; 60; 65; 70; 75;
   80; 85; 89; 92].

Definition ModulationSchemeForMcs : list Z :=
  [2; 2; 2; 2; 2; 2; 2; 2; 2; 2; 4; 4; 4; 4; 4; 4; 4; 6; 6; 6; 6; 6; 6; 6; 6; 6; 6; 6; 6; 2; 4; 6].

(** cbSizeTable.back (), in bits *)
Definition cbSizeTable_back : Z := 6144.

Definition lte_GetMaxMcs : Z := 28.

Definition lte_GetSpectralEfficiencyForCqi (cqi : Z) : res double :=
  let* _ := abort_if (negb ((0 <=? cqi) && (cqi <=? 15))) "CQI must be in [0..15]" in
  vec_at SpectralEfficiencyForCqi cqi.

Definition lte_GetSpectralEfficiencyForMcs (mcs : Z) : res double :=
  let* _ := abort_if (lte_GetMaxMcs <? mcs) "mcs > GetMaxMcs ()" in
  vec_at SpectralEfficiencyForMcs mcs.

(** rscElement * Qm is a product of 32-bit integers, the rest is in double. *)
Definition lte_GetPayloadSize (usefulSC mcs rank rbNum : Z) (mode : Mode) : res Z :=
  let rscElement := u32 (usefulSC * rbNum) in
  let* Rcode := vec_at McsEcrTable mcs in
  let* Qm := vec_at ModulationSchemeForMcs mcs in
  let spectralEfficiency := d_mul (d_mul (d_of_Z (u32 (rscElement * Qm))) Rcode) (d_of_Z rank) in
  match d_trunc 32 (d_div spectralEfficiency (d_of_Z 8)) with
  | Some n => Ok n
  | None => Abort "undefined conversion to uint32_t"
  end.

Definition lte_GetMaxCbSize (tbSize mcs : Z) : Z := cbSizeTable_back / 8.

(** The model; its block error rate is a parameter. *)
Definition lte_error_model (tbler : list double -> list Z -> Z -> Z -> double) : NrErrorModel :=
  mkErrorModel lte_GetMaxMcs lte_GetSpectralEfficiencyForCqi lte_GetSpectralEfficiencyForMcs
    lte_GetPayloadSize lte_GetMaxCbSize tbler.
