(* ===== verification/AmcProps.v ===== *)
(** The properties of the modulation and coding object: the MCS of a CQI, the size of a
    transport block and the feedback of an uplink transmission. *)
From Stdlib Require Import ZArith Lia SpecFloat.
From stdpp Require Import base list gmap strings.
From coqutil Require Import Datatypes.RecordSettersUsingExistingGetters.
From S2P Require Import Prelude Messages Amc.
Open Scope Z_scope.

(** What NrAmc relies on of an error model: the tables cover the CQIs and the MCSs. *)
Class ErrorModelLaws (em : NrErrorModel) : Prop := {
  max_mcs_range : 0 <= em.(GetMaxMcs) < 256;
  cqi_table : forall cqi, 0 <= cqi <= 15 -> exists s, em.(GetSpectralEfficiencyForCqi) cqi = Ok s;
  mcs_table : forall mcs, 0 <= mcs <= em.(GetMaxMcs) -> exists s, em.(GetSpectralEfficiencyForMcs) mcs = Ok s
}.

(** ** The climbing loop *)

Lemma climb_spec fuel below n m :
  climb fuel below n = Ok m ->
  n <= m <= n + Z.of_nat fuel /\ (forall k, n < k <= m -> below k = Ok true) /\
  (m < n + Z.of_nat fuel -> below (m + 1) = Ok false).
Proof.
  revert n. induction fuel as [|fuel IH]; intros n E; cbn [climb] in E.
  - injection E as <-. split_and!; intros; lia.
  - destruct (below (n + 1)) as [b|] eqn:Eb; cbn [res_bind] in E; [|done]. destruct b.
    + destruct (IH _ E) as (R & B & N). split; [lia|]. split; [|intros; apply N; lia].
      intros k Hk. destruct (decide (k = n + 1)) as [->|]; [done|]. apply B. lia.
    + injection E as <-. split; [lia|]. split; [intros; lia|done].
Qed.

Lemma climb_ok fuel below n :
  (forall k, n < k <= n + Z.of_nat fuel -> exists b, below k = Ok b) -> exists m, climb fuel below n = Ok m.
Proof.
  revert n. induction fuel as [|fuel IH]; intros n B; cbn [climb]; [by eexists|].
  destruct (B (n + 1) ltac:(lia)) as [b ->]. cbn [res_bind]. destruct b; [|by eexists].
  apply IH. intros k Hk. apply B. lia.
Qed.

(** The loops compare table entries: [m] is where the entries stop satisfying [test]. *)
Definition stops_at (table : Z -> res double) (test : double -> bool) (top m : Z) : Prop :=
  0 <= m <= top /\
  (forall k s, 0 < k <= m -> table k = Ok s -> test s = true) /\
  (m < top -> exists s, table (m + 1) = Ok s /\ test s = false).

Lemma climb_table (table : Z -> res double) test top :
  0 <= top -> (forall k, 0 <= k <= top -> exists s, table k = Ok s) ->
  exists m, climb (Z.to_nat top) (fun k => let* s := table k in Ok (test s)) 0 = Ok m /\
    stops_at table test top m.
Proof.
  intros T E. destruct (climb_ok (Z.to_nat top) (fun k => let* s := table k in Ok (test s)) 0) as [m Em].
  { intros k Hk. destruct (E k ltac:(lia)) as [s ->]. by eexists. }
  exists m. split; [done|]. apply climb_spec in Em as (R & B & N). split; [lia|]. split.
  - intros k s Hk Es. specialize (B k ltac:(lia)). rewrite Es in B. by injection B.
  - intros Hm. specialize (N ltac:(lia)). destruct (E (m + 1) ltac:(lia)) as [s Es]. exists s.
    rewrite Es in N. split; [done|]. by injection N.
Qed.

(** ** The MCS of a CQI *)

(** The cache holds what the search would answer. *)
Definition cache_ok (amc : Amc) : Prop :=
  map_Forall (fun cqi mcs => 0 <= cqi <= 15 /\ mcs_of_cqi amc.(m_errorModel) cqi = Ok mcs)
    amc.(m_cachedCqiToMcsMap).

Lemma mcs_of_cqi_ok em cqi `{ErrorModelLaws em} :
  0 <= cqi <= 15 ->
  exists se m, em.(GetSpectralEfficiencyForCqi) cqi = Ok se /\ mcs_of_cqi em cqi = Ok m /\
    stops_at em.(GetSpectralEfficiencyForMcs) (fun s => d_leb s se) em.(GetMaxMcs) m.
Proof.
  intros Hc. destruct (cqi_table cqi Hc) as [se Es]. unfold mcs_of_cqi. rewrite Es. cbn [res_bind].
  destruct (climb_table em.(GetSpectralEfficiencyForMcs) (fun s => d_leb s se) em.(GetMaxMcs))
    as (m & Em & S); [apply max_mcs_range|apply mcs_table|]. by exists se, m.
Qed.

Lemma GetMcsFromCqi_eq amc cqi :
  cache_ok amc -> 0 <= cqi <= 15 ->
  forall m, mcs_of_cqi amc.(m_errorModel) cqi = Ok m ->
  exists amc', GetMcsFromCqi cqi amc = Ok (amc', m) /\ cache_ok amc' /\
    amc' = amc <| m_cachedCqiToMcsMap := amc'.(m_cachedCqiToMcsMap) |>.
Proof.
  intros C Hc m Em. unfold GetMcsFromCqi.
  replace (negb ((0 <=? cqi) && (cqi <=? 15))) with false by (symmetry; apply negb_false_iff; lia).
  cbn [abort_if res_bind]. destruct (m_cachedCqiToMcsMap amc !! cqi) as [m'|] eqn:E.
  - destruct (C _ _ E) as [_ E']. rewrite Em in E'. injection E' as <-. exists amc. by destruct amc.
  - rewrite Em. cbn [res_bind]. eexists. split; [done|]. split; [|by destruct amc].
    apply map_Forall_insert_2; [|exact C]. by split.
Qed.

Lemma GetMcsFromCqi_fresh amc cqi m :
  0 <= cqi <= 15 -> mcs_of_cqi amc.(m_errorModel) cqi = Ok m ->
  GetMcsFromCqi cqi (amc <| m_cachedCqiToMcsMap := ∅ |>) = Ok (amc <| m_cachedCqiToMcsMap := {[cqi := m]} |>, m).
Proof.
  intros Hc Em. unfold GetMcsFromCqi.
  replace (negb ((0 <=? cqi) && (cqi <=? 15))) with false by (symmetry; apply negb_false_iff; lia).
  cbn [abort_if res_bind]. change (m_cachedCqiToMcsMap (amc <| m_cachedCqiToMcsMap := ∅ |>)) with (∅ : gmap Z Z).
  rewrite lookup_empty. change (m_errorModel (amc <| m_cachedCqiToMcsMap := ∅ |>)) with (m_errorModel amc).
  by rewrite Em.
Qed.

(** the MCS of a CQI is where the spectral efficiencies of the MCSs rise above the one of
    the CQI; the cache, which SetErrorModelType empties, never shows in the answer. *)
Theorem mcs_of_cqi_greatest amc cqi `{ErrorModelLaws amc.(m_errorModel)} :
  cache_ok amc -> 0 <= cqi <= 15 ->
  exists amc' se m,
    GetMcsFromCqi cqi amc = Ok (amc', m) /\
    GetMcsFromCqi cqi (amc <| m_cachedCqiToMcsMap := ∅ |>) = Ok (amc <| m_cachedCqiToMcsMap := {[cqi := m]} |>, m) /\
    cache_ok amc' /\ amc' = amc <| m_cachedCqiToMcsMap := amc'.(m_cachedCqiToMcsMap) |> /\
    (forall type model, cache_ok (SetErrorModelType type model amc')) /\
    amc.(m_errorModel).(GetSpectralEfficiencyForCqi) cqi = Ok se /\
    stops_at amc.(m_errorModel).(GetSpectralEfficiencyForMcs) (fun s => d_leb s se)
      amc.(m_errorModel).(GetMaxMcs) m.
Proof.
  intros C Hc. destruct (mcs_of_cqi_ok _ cqi Hc) as (se & m & Es & Em & S).
  destruct (GetMcsFromCqi_eq amc cqi C Hc m Em) as (amc' & E & C' & F).
  exists amc', se, m. split_and!; [done| |done|done| |done|apply S..].
  - by apply GetMcsFromCqi_fresh.
  - intros type model. apply map_Forall_empty.
Qed.

(** ** The size of a transport block *)

(** C33: a transport block is the payload without one CRC, or without one CRC for each whole
    code block the rest of the payload fills; it never exceeds the payload, and nothing wraps
    around.  (A segment that is not full gets no CRC.) *)
Theorem tb_size_bounds mcs rank nprb amc payload :
  mcs <= amc.(m_errorModel).(GetMaxMcs) -> amc.(m_errorModelType) <> LenaErrorModel ->
  AmcGetPayloadSize mcs rank nprb amc = Ok payload -> fits 32 payload ->
  m_crcLen <= amc.(m_errorModel).(GetMaxCbSize) payload mcs ->
  exists tbs, CalculateTbSize mcs rank nprb amc = Ok tbs /\ 0 <= tbs <= payload /\
    tbs = if payload <? m_crcLen then payload
          else payload - m_crcLen * Z.max 1 ((payload - m_crcLen) / amc.(m_errorModel).(GetMaxCbSize) payload mcs).
Proof.
  intros Hm Ty Ep [P0 P1] Cb. unfold CalculateTbSize.
  replace (GetMaxMcs _ <? mcs) with false by lia. cbn [abort_if res_bind]. rewrite Ep. cbn [res_bind].
  rewrite decide_False by done. set (cb := GetMaxCbSize _ _ _) in *. unfold m_crcLen in *.
  change (24 / 8) with 3 in *.
  destruct (Z.leb_spec 3 payload) as [L|L].
  - replace (payload <? 3) with false by lia.
    pose proof (Z.div_pos (payload - 3) cb ltac:(lia) ltac:(lia)) as Q0.
    pose proof (Z.mul_div_le (payload - 3) cb ltac:(lia)) as Q1.
    destruct (Z.ltb_spec cb (payload - 3)) as [D|D].
    + pose proof (Z.div_le_lower_bound (payload - 3) cb 1 ltac:(lia) ltac:(lia)) as Q2.
      assert ((payload - 3) / cb * 3 <= payload - 3) by nia.
      replace (cb =? 0) with false by lia. cbn [abort_if res_bind].
      replace (2 ^ 32 <=? _) with false by lia. cbn [abort_if res_bind].
      rewrite wrap_small by (unfold fits; lia). eexists. split; [done|]. rewrite Z.max_r by lia. lia.
    + eexists. split; [done|]. split; [lia|].
      pose proof (Z.div_le_upper_bound (payload - 3) cb 1 ltac:(lia) ltac:(lia)). lia.
  - replace (payload <? 3) with true by lia. replace (cb <? payload) with false by lia.
    eexists. split; [done|]. lia.
Qed.

(** ** The feedback of an uplink transmission *)

(** The MCSs a transmission over [sinr] decodes: at most 10% of its blocks are lost. *)
Definition decodes (sinr : list double) (amc : Amc) (mcs : Z) : bool :=
  match CalculateTbSize mcs 1 (Z.of_nat (length (rb_map sinr))) amc with
  | Ok tbSize => negb (d_ltb (d_dec 1 1) (amc.(m_errorModel).(GetTbler) sinr (rb_map sinr) tbSize mcs))
  | Abort _ => false
  end.

(** The loop stops at the first MCS from [n] on that does not decode, if there is one. *)
Lemma siso_loop_spec sinr amc fuel n tbler :
  (forall k, n <= k < n + Z.of_nat fuel ->
     exists tbs, CalculateTbSize k 1 (Z.of_nat (length (rb_map sinr))) amc = Ok tbs) ->
  exists m last, siso_loop fuel sinr (rb_map sinr) amc n tbler = Ok (m, last) /\
    n <= m <= n + Z.of_nat fuel /\ (forall k, n <= k < m -> decodes sinr amc k = true) /\
    (m < n + Z.of_nat fuel -> decodes sinr amc m = false /\ d_ltb (d_dec 1 1) last = true) /\
    (m = n + Z.of_nat fuel -> (0 < fuel)%nat -> d_ltb (d_dec 1 1) last = false).
Proof.
  revert n tbler. induction fuel as [|fuel IH]; intros n tbler T; cbn [siso_loop].
  - exists n, tbler. split_and!; intros; try done; lia.
  - destruct (T n ltac:(lia)) as [tbs Et]. rewrite Et. cbn [res_bind].
    set (t := GetTbler _ _ _ _ _). assert (decodes sinr amc n = negb (d_ltb (d_dec 1 1) t)) as D.
    { unfold decodes. by rewrite Et. }
    destruct (d_ltb (d_dec 1 1) t) eqn:Lt.
    + exists n, t. split; [done|]. split; [lia|]. split; [intros; lia|]. split; [done|lia].
    + destruct (IH (n + 1) t) as (m & last & E & R & B & N1 & N2); [intros k Hk; apply T; lia|].
      exists m, last. split; [done|]. split; [lia|]. split.
      { intros k Hk. destruct (decide (k = n)) as [->|]; [done|]. apply B. lia. }
      split; [intros; apply N1; lia|]. intros Em _. destruct fuel as [|fuel]; [|apply N2; lia].
      cbn in E. by injection E as _ <-.
Qed.

(** The feedback is always given, and names an MCS of the tables. *)
Lemma siso_answers sinr amc `{LibM} `{ErrorModelLaws amc.(m_errorModel)} :
  amc.(m_amcModel) = ErrorModel ->
  (forall k, 0 <= k <= amc.(m_errorModel).(GetMaxMcs) ->
     exists tbs, CalculateTbSize k 1 (Z.of_nat (length (rb_map sinr))) amc = Ok tbs) ->
  exists cqi m, CreateCqiFeedbackSiso sinr amc = Ok (cqi, m) /\ 0 <= m <= amc.(m_errorModel).(GetMaxMcs).
Proof.
  intros Am T. unfold CreateCqiFeedbackSiso. rewrite Am. unfold siso_error_model. pose proof max_mcs_range as R.
  destruct (siso_loop_spec sinr amc (Z.to_nat (amc.(m_errorModel).(GetMaxMcs) + 1)) 0 d_zero) as (m & last & -> & Rm & _).
  { intros k Hk. apply T. lia. }
  cbn [res_bind]. set (m' := if 0 <? m then m - 1 else m).
  assert (0 <= m' <= amc.(m_errorModel).(GetMaxMcs)) as Rm' by (unfold m'; destruct (Z.ltb_spec 0 m); lia).
  destruct (_ && _); [by exists 0, m'|]. destruct (m' =? _); [by exists 15, m'|].
  destruct (@mcs_table (m_errorModel amc) _ m' Rm') as [s Es]. rewrite Es. cbn [res_bind].
  destruct (climb_table amc.(m_errorModel).(GetSpectralEfficiencyForCqi) (fun e => d_leb e s) 15)
    as (cqi & Ec & S); [lia|apply cqi_table|]. change (Z.to_nat 15) with 15%nat in Ec.
  rewrite Ec. by exists cqi, m'.
Qed.

(** C32: the feedback names the highest MCS up to which every MCS decodes, with the CQI whose
    spectral efficiency is the greatest up to that of the MCS, 15 for the top MCS.  When MCS 0
    decodes and MCS 1 does not the CQI is 0, as if nothing decoded. *)
Theorem siso_feedback sinr amc `{LibM} `{ErrorModelLaws amc.(m_errorModel)} :
  amc.(m_amcModel) = ErrorModel ->
  (forall k, 0 <= k <= amc.(m_errorModel).(GetMaxMcs) ->
     exists tbs, CalculateTbSize k 1 (Z.of_nat (length (rb_map sinr))) amc = Ok tbs) ->
  let top := amc.(m_errorModel).(GetMaxMcs) in
  exists cqi m, CreateCqiFeedbackSiso sinr amc = Ok (cqi, m) /\ 0 <= m <= top /\
    (forall k, 0 <= k < m -> decodes sinr amc k = true) /\
    (decodes sinr amc m = true \/ m = 0 /\ cqi = 0) /\
    (m < top -> decodes sinr amc 0 = true -> decodes sinr amc (m + 1) = false) /\
    (m = 0 -> 0 < top -> decodes sinr amc 1 = false -> cqi = 0) /\
    (m = top -> decodes sinr amc m = true -> cqi = 15) /\
    (0 < m < top -> exists s, amc.(m_errorModel).(GetSpectralEfficiencyForMcs) m = Ok s /\
       stops_at amc.(m_errorModel).(GetSpectralEfficiencyForCqi) (fun e => d_leb e s) 15 cqi).
Proof.
  intros Am T top. unfold CreateCqiFeedbackSiso. rewrite Am. unfold siso_error_model. fold top.
  pose proof max_mcs_range as R. fold top in R.
  destruct (siso_loop_spec sinr amc (Z.to_nat (top + 1)) 0 d_zero) as (m & last & -> & Rm & B & N1 & N2).
  { intros k Hk. apply T. fold top. lia. }
  cbn [res_bind]. rewrite Z2Nat.id in * by lia. destruct (Z.ltb_spec 0 m) as [P|P].
  - destruct (Z.eqb_spec (m - 1) top) as [Et|Et].
    { rewrite N2 by lia. cbn [andb]. exists 15, (m - 1). split; [done|]. split; [lia|].
      split; [intros; apply B; lia|]. split; [left; apply B; lia|].
      split; [lia|]. split; [intros; lia|]. split; [done|lia]. }
    destruct (N1 ltac:(lia)) as [D0 ->]. cbn [andb]. destruct (Z.eqb_spec (m - 1) 0) as [E0|E0].
    { exists 0, (m - 1). split; [done|]. split; [lia|]. split; [intros; apply B; lia|].
      split; [left; apply B; lia|]. split; [intros _ _; by replace (m - 1 + 1) with m by lia|].
      split; [done|]. split; [lia|lia]. }
    destruct (@mcs_table (m_errorModel amc) _ (m - 1) ltac:(fold top; lia)) as [s Es]. rewrite Es. cbn [res_bind].
    destruct (climb_table amc.(m_errorModel).(GetSpectralEfficiencyForCqi) (fun e => d_leb e s) 15)
      as (cqi & Ec & S); [lia|apply cqi_table|]. change (Z.to_nat 15) with 15%nat in Ec.
    rewrite Ec. cbn [res_bind]. exists cqi, (m - 1). split; [done|]. split; [lia|].
    split; [intros; apply B; lia|]. split; [left; apply B; lia|].
    split; [intros _ _; by replace (m - 1 + 1) with m by lia|]. split; [intros; lia|].
    split; [lia|]. intros _. by exists s.
  - assert (m = 0) as -> by lia. destruct (N1 ltac:(lia)) as [D0 ->]. cbn. exists 0, 0. split; [done|].
    split; [lia|]. split; [intros; lia|]. split; [by right|]. split; [intros _; congruence|].
    split; [done|]. split; [congruence|lia].
Qed.

(** ** The default error model *)

#[export] Instance lte_laws tbler : ErrorModelLaws (lte_error_model tbler).
Proof.
  split; cbn [lte_error_model GetMaxMcs GetSpectralEfficiencyForCqi GetSpectralEfficiencyForMcs].
  - unfold lte_GetMaxMcs. lia.
  - intros cqi Hc. unfold lte_GetSpectralEfficiencyForCqi.
    replace (negb ((0 <=? cqi) && (cqi <=? 15))) with false by (symmetry; apply negb_false_iff; lia).
    edestruct @vec_at_ok as (e & E & _); [|exists e; exact E]. cbn. lia.
  - unfold lte_GetMaxMcs. intros mcs Hm. unfold lte_GetSpectralEfficiencyForMcs, lte_GetMaxMcs.
    replace (28 <? mcs) with false by lia.
    edestruct @vec_at_ok as (e & E & _); [|exists e; exact E]. cbn. lia.
Qed.

(** A channel that carries MCS 0 to 9 *)
Definition toy_tbler (sinr : list double) (rbMap : list Z) (size mcs : Z) : double :=
  if mcs <=? 9 then d_zero else d_of_Z 1.

Definition lte_amc (tbler : list double -> list Z -> Z -> Z -> double) : Amc :=
  mkAmc ErrorModel (lte_error_model tbler) NrLteMiErrorModel 1 DL {[3 := 4]}.

Lemma lte_cache tbler : cache_ok (lte_amc tbler).
Proof. intros cqi mcs Hc. cbn [lte_amc m_cachedCqiToMcsMap] in Hc.
  apply lookup_singleton_Some in Hc as [<- <-]. split; [lia|]. by vm_compute. Qed.

Lemma lte_tb_sizes tbler n :
  forallb (fun k => is_ok (CalculateTbSize k 1 n (lte_amc (fun _ _ _ _ => d_zero)))) (seqZ 0 29) = true ->
  forall k, 0 <= k <= 28 -> exists tbs, CalculateTbSize k 1 n (lte_amc tbler) = Ok tbs.
Proof.
  intros F k Hk. rewrite forallb_forall in F. specialize (F k).
  assert (In k (seqZ 0 29)) as Hin by (apply list_elem_of_In, elem_of_seqZ; lia). specialize (F Hin).
  change (CalculateTbSize k 1 n (lte_amc tbler))
    with (CalculateTbSize k 1 n (lte_amc (fun _ _ _ _ => d_zero))).
  destruct (CalculateTbSize k 1 n _) as [tbs|]; [by exists tbs|done].
Qed.

(** ** Witnesses *)

Theorem mcs_of_cqi_greatest_witness :
  exists amc' se m,
    GetMcsFromCqi 7 (lte_amc toy_tbler) = Ok (amc', m) /\
    GetMcsFromCqi 7 ((lte_amc toy_tbler) <| m_cachedCqiToMcsMap := ∅ |>)
      = Ok ((lte_amc toy_tbler) <| m_cachedCqiToMcsMap := {[7 := m]} |>, m) /\
    cache_ok amc' /\ amc' = (lte_amc toy_tbler) <| m_cachedCqiToMcsMap := amc'.(m_cachedCqiToMcsMap) |> /\
    (forall type model, cache_ok (SetErrorModelType type model amc')) /\
    (lte_amc toy_tbler).(m_errorModel).(GetSpectralEfficiencyForCqi) 7 = Ok se /\
    stops_at (lte_amc toy_tbler).(m_errorModel).(GetSpectralEfficiencyForMcs) (fun s => d_leb s se)
      (lte_amc toy_tbler).(m_errorModel).(GetMaxMcs) m.
Proof. apply (mcs_of_cqi_greatest (lte_amc toy_tbler) 7 (H := lte_laws toy_tbler)); [apply lte_cache|lia]. Defined.

Theorem tb_size_bounds_witness :
  exists tbs, CalculateTbSize 28 1 600 (lte_amc toy_tbler) = Ok tbs /\ 0 <= tbs <= 4554 /\
    tbs = if 4554 <? m_crcLen then 4554
          else 4554 - m_crcLen * Z.max 1 ((4554 - m_crcLen) / lte_GetMaxCbSize 4554 28).
Proof.
  apply (tb_size_bounds 28 1 600 (lte_amc toy_tbler) 4554); [by vm_compute|done|by vm_compute|by vm_compute|by vm_compute].
Defined.

(** Some mathematical library; the error-model feedback does not use it. *)
Definition some_libm : LibM := {| c_log := id; c_log2 := id; c_pow := fun a _ => a |}.

Theorem siso_feedback_witness :
  let top := (lte_amc toy_tbler).(m_errorModel).(GetMaxMcs) in
  let sinr := [d_of_Z 4; d_zero; d_of_Z 3] in
  exists cqi m, @CreateCqiFeedbackSiso some_libm sinr (lte_amc toy_tbler) = Ok (cqi, m) /\ 0 <= m <= top /\
    (forall k, 0 <= k < m -> decodes sinr (lte_amc toy_tbler) k = true) /\
    (decodes sinr (lte_amc toy_tbler) m = true \/ m = 0 /\ cqi = 0) /\
    (m < top -> decodes sinr (lte_amc toy_tbler) 0 = true -> decodes sinr (lte_amc toy_tbler) (m + 1) = false) /\
    (m = 0 -> 0 < top -> decodes sinr (lte_amc toy_tbler) 1 = false -> cqi = 0) /\
    (m = top -> decodes sinr (lte_amc toy_tbler) m = true -> cqi = 15) /\
    (0 < m < top -> exists s, (lte_amc toy_tbler).(m_errorModel).(GetSpectralEfficiencyForMcs) m = Ok s /\
       stops_at (lte_amc toy_tbler).(m_errorModel).(GetSpectralEfficiencyForCqi) (fun e => d_leb e s) 15 cqi).
Proof.
  apply (@siso_feedback [d_of_Z 4; d_zero; d_of_Z 3] (lte_amc toy_tbler) some_libm (lte_laws toy_tbler));
    [done|]. apply lte_tb_sizes. by vm_compute.
Defined.
