(* ===== verification/DlUe.v ===== *)
(** The downlink members of a UE in the scheduler: src/nr/model/nr-mac-scheduler-ue-info.{h,cc}.

    The AMC object is an argument, since the members a UE uses do not change it.  The order in
    which std::transform_reduce adds up floats is a parameter; the sum of MCSs is exact in any
    order, and its quotient by the number of RBGs, at most 255, rounds to no other integer
    part. *)
From Stdlib Require Import ZArith Lia SpecFloat.
From stdpp Require Import base list gmap strings list_numbers.
From coqutil Require Import Datatypes.RecordSettersUsingExistingGetters.
From S2P Require Import Prelude Messages Amc.
Open Scope Z_scope.

(** NrMacSchedulerUeInfo::McsCsiSource *)
Inductive McsCsiSource := AVG_MCS | AVG_SPEC_EFF | AVG_SINR | WIDEBAND_MCS.
#[export] Instance McsCsiSource_eq_dec : EqDecision McsCsiSource.
Proof. solve_decision. Defined.

(** struct SbMcsInfo; [specEff] and [sinr] are floats. *)
Record SbMcsInfo := mkSb { sb_cqi : Z; sb_mcs : Z; sb_specEff : double; sb_sinr : double }.

(** struct NrMacSchedulerUeInfo::CqiInfo *)
Inductive CqiType := WB | SB.
Record SchedCqiInfo := mkSchedCqi {
  m_cqiType : CqiType; m_sinr : list double; m_wbCqi : Z; m_sbCqi : list Z; m_timer : Z }.

(** The downlink members of NrMacSchedulerUeInfo *)
Record UeInfoDl := mkUeDl {
  dl_rnti : Z;
  m_dlMRBRetx : Z;
  m_dlRBG : list Z;
  m_dlSym : list Z;
  m_dlTbSize : Z;
  m_dlMcs : Z;
  m_fhMaxMcsAssignable : option Z;
  m_dlRank : Z;
  m_dlPrecMats : option nat;
  m_dlSbMcsInfo : list SbMcsInfo;
  m_rbgToSb : list Z;
  m_dlCqi : SchedCqiInfo;
  ue_mcsCsiSource : McsCsiSource
}.

(** std::transform_reduce of floats from 0.0 *)
Class CppReduce := { transform_reduce : list double -> double }.

(** static_cast<float> of a double, as the double of the same value *)
Definition to_float (d : double) : double :=
  match d with
  | S754_finite s m e =>
      match binary_round 24 128 s m e with
      | S754_finite s m e => binary_round 53 1024 s m e
      | d => d
      end
  | _ => d
  end.

(** The sub-band of an RBG: m_dlSbMcsInfo.at (m_rbgToSb.at (rbg)) *)
Definition sb_of (ue : UeInfoDl) (rbg : Z) : res SbMcsInfo :=
  let* sb := vec_at ue.(m_rbgToSb) rbg in
  vec_at ue.(m_dlSbMcsInfo) sb.

(** NrMacSchedulerUeInfo::ResetDlSchedInfo and ResetDlMetric *)
Definition ResetDlSchedInfo (ue : UeInfoDl) : UeInfoDl :=
  ue <| m_dlMRBRetx := 0 |> <| m_dlRBG := [] |> <| m_dlSym := [] |> <| m_dlTbSize := 0 |>.

Definition ResetDlMetric (ue : UeInfoDl) : UeInfoDl := ue <| m_dlTbSize := 0 |>.

Section metric.
Context `{LibM} `{CppReduce}.

(** The average of a field over the RBGs of the UE, before postProcessing: ComputeMcs *)
Definition avg_mcs (sbs : list SbMcsInfo) : Z :=
  foldr (fun sb n => sb.(sb_mcs) + n) 0 sbs / Z.of_nat (length sbs).

Definition avg_field (field : SbMcsInfo -> double) (sbs : list SbMcsInfo) : double :=
  d_div (transform_reduce (field <$> sbs)) (d_of_Z (Z.of_nat (length sbs))).

(** NrMacSchedulerUeInfo::GetDlMcs *)
Definition GetDlMcs (amc : Amc) (ue : UeInfoDl) : res Z :=
  match ue.(m_fhMaxMcsAssignable) with
  | Some mcs => Ok mcs
  | None =>
      if bool_decide (ue.(m_dlRBG) = []) || bool_decide (ue.(ue_mcsCsiSource) = WIDEBAND_MCS) ||
         match ue.(m_dlSbMcsInfo) with [] => true | _ => false end
      then Ok ue.(m_dlMcs)
      else
        let* sbs := res_map (sb_of ue) ue.(m_dlRBG) in
        match ue.(ue_mcsCsiSource) with
        | AVG_MCS => Ok (u8 (avg_mcs sbs))
        | AVG_SPEC_EFF => GetMcsFromSpectralEfficiency (avg_field sb_specEff sbs) amc
        | AVG_SINR =>
            GetMcsFromSpectralEfficiency (GetSpectralEfficiencyForSinr (avg_field sb_sinr sbs) amc) amc
        | WIDEBAND_MCS => Abort "Invalid csi source for MCS computation"
        end
  end.

(** NrMacSchedulerUeInfo::UpdateDlMetric *)
Definition UpdateDlMetric (NumRbPerRbg : Z) (amc : Amc) (ue : UeInfoDl) : res UeInfoDl :=
  match ue.(m_dlRBG) with
  | [] => Ok (ue <| m_dlTbSize := 0 |>)
  | _ =>
      let* mcs := GetDlMcs amc ue in
      let* tbs := CalculateTbSize mcs ue.(m_dlRank)
                    (u32 (Z.of_nat (length ue.(m_dlRBG)) * NumRbPerRbg)) amc in
      Ok (ue <| m_dlTbSize := tbs |>)
  end.

End metric.
