(* ===== verification/CqiManagement.v ===== *)
(** The CQI reports in the scheduler: src/nr/model/nr-mac-scheduler-cqi-management.cc.

    The spectrum model is its number of bands; a precoding matrix is a pointer.  Of a UE in the
    uplink only m_ulCqi and m_ulMcs are used: [UlCqiState]. *)
From Stdlib Require Import ZArith Lia SpecFloat.
From stdpp Require Import base list gmap strings list_numbers.
From coqutil Require Import Datatypes.RecordSettersUsingExistingGetters.
From S2P Require Import Prelude Messages Amc DlUe.
Open Scope Z_scope.

(** struct DlCqiInfo *)
Record DlCqiInfo := mkDlCqi {
  info_wbCqi : Z; info_sbCqis : list Z; info_ri : Z; info_optPrecMat : option nat }.

(** vector::resize; new elements are [a]. *)
Definition resize {A : Type} (n : nat) (a : A) (l : list A) : list A :=
  take n l ++ replicate (n - length l) a.

(** while (bandwidthInRbgs / rbgsPerSb > n) rbgsPerSb <<= 1; 16 doublings are enough for a
    16-bit bandwidth ([sb_size_spec]). *)
Fixpoint sb_size (fuel : nat) (bandwidthInRbgs n rbgsPerSb : Z) : Z :=
  match fuel with
  | O => rbgsPerSb
  | S fuel =>
      if n <? bandwidthInRbgs / rbgsPerSb then sb_size fuel bandwidthInRbgs n (Z.shiftl rbgsPerSb 1)
      else rbgsPerSb
  end.

(** The inner loop: the RBGs of one sub-band *)
Definition map_rbgs (bandwidthInRbgs rbgsPerSb sb : Z) (rbgToSb : list Z) : list Z :=
  foldl (fun l rbg => <[Z.to_nat rbg := u8 sb]> l) rbgToSb
    (seqZ (sb * rbgsPerSb) (Z.min bandwidthInRbgs ((sb + 1) * rbgsPerSb) - sb * rbgsPerSb)).

(** The loop over the sub-bands from [sb] on *)
Fixpoint sb_loop `{LibM} (bandwidthInRbgs rbgsPerSb ri sb : Z) (sbCqis : list Z)
    (s : Amc * list SbMcsInfo * list Z) : res (Amc * list SbMcsInfo * list Z) :=
  match sbCqis with
  | [] => Ok s
  | sbCqi :: sbCqis =>
      let '(amc, infos, rbgToSb) := s in
      let* r := GetMcsFromCqi sbCqi amc in
      let '(amc, mcs) := r in
      let* specEff := amc.(m_errorModel).(GetSpectralEfficiencyForCqi) sbCqi in
      let sinr := d_div (GetSinrFromSpectralEfficiency specEff amc) (d_of_Z ri) in
      let infos := <[Z.to_nat sb := mkSb sbCqi mcs (to_float specEff) (to_float sinr)]> infos in
      let rbgToSb := map_rbgs bandwidthInRbgs rbgsPerSb sb rbgToSb in
      sb_loop bandwidthInRbgs rbgsPerSb ri (sb + 1) sbCqis (amc, infos, rbgToSb)
  end.

(** NrMacSchedulerCQIManagement::DlCqiReported *)
Definition DlCqiReported `{LibM} (info : DlCqiInfo) (expirationTime maxDlMcs bandwidthInRbgs : Z)
    (s : Amc * UeInfoDl) : res (Amc * UeInfoDl) :=
  let '(amc, ue) := s in
  let* r := GetMcsFromCqi info.(info_wbCqi) amc in
  let '(amc, mcs) := r in
  let ue := ue <| m_dlCqi := mkSchedCqi WB ue.(m_dlCqi).(m_sinr) info.(info_wbCqi) info.(info_sbCqis)
                               expirationTime |>
               <| m_dlMcs := Z.min mcs (u8 maxDlMcs) |>
               <| m_dlSbMcsInfo := [] |> in
  let n := length info.(info_sbCqis) in
  let* s :=
    match info.(info_sbCqis) with
    | [] => Ok (amc, [], ue.(m_rbgToSb))
    | _ =>
        let rbgsPerSb := sb_size 16 bandwidthInRbgs (Z.of_nat n) 1 in
        sb_loop bandwidthInRbgs rbgsPerSb info.(info_ri) 0 info.(info_sbCqis)
          (amc, replicate n (mkSb 0 0 d_zero d_zero), resize (Z.to_nat bandwidthInRbgs) 0 ue.(m_rbgToSb))
    end in
  let '(amc, infos, rbgToSb) := s in
  let ue := ue <| m_dlSbMcsInfo := infos |> <| m_rbgToSb := rbgToSb |> in
  match info.(info_optPrecMat) with
  | None => Ok (amc, ue)
  | Some m =>
      let* _ := abort_if (info.(info_ri) <=? 0) "NS_ASSERT(info.m_ri > 0)" in
      Ok (amc, ue <| m_dlRank := info.(info_ri) |> <| m_dlPrecMats := Some m |>)
  end.

(** NrMacSchedulerCQIManagement::RefreshDlCqiMaps *)
Definition refresh_dl (startMcsDl : Z) (ue : UeInfoDl) : UeInfoDl :=
  let cqi := ue.(m_dlCqi) in
  if cqi.(m_timer) =? 0
  then ue <| m_dlCqi := mkSchedCqi WB cqi.(m_sinr) 1 cqi.(m_sbCqi) cqi.(m_timer) |> <| m_dlMcs := startMcsDl |>
  else ue <| m_dlCqi := mkSchedCqi cqi.(m_cqiType) cqi.(m_sinr) cqi.(m_wbCqi) cqi.(m_sbCqi) (cqi.(m_timer) - 1) |>.

Definition RefreshDlCqiMaps (startMcsDl : Z) (ueMap : gmap Z UeInfoDl) : gmap Z UeInfoDl :=
  refresh_dl startMcsDl <$> ueMap.

(** ** The uplink *)

Record UlCqiState := mkUlCqi { m_ulCqi : SchedCqiInfo; uc_ulMcs : Z }.

(** The loop over the mask: which resource blocks the UE was given *)
Definition rb_assignment (rbgMask : list bool) (numRbPerRbg : Z) (size : nat) : res (list bool) :=
  res_fold (fun i rbs =>
      if bool_decide (rbgMask !! i = Some true) then
        res_fold (fun k rbs =>
            let rb := Z.of_nat i * numRbPerRbg + k in
            let* _ := abort_if (negb (rb <? Z.of_nat (length rbs))) "rbAssignment out of range" in
            Ok (<[Z.to_nat rb := true]> rbs)) (seqZ 0 numRbPerRbg) rbs
      else Ok rbs) (seq 0 (length rbgMask)) (replicate size false).

(** NrMacSchedulerCQIManagement::UlSBCQIReported *)
Definition UlSBCQIReported `{LibM} (expirationTime : Z) (sinr : list double) (rbgMask : list bool)
    (numRbPerRbg : Z) (numBands : nat) (amc : Amc) (ue : UlCqiState) : res UlCqiState :=
  let* _ := abort_if (bool_decide (rbgMask = [])) "NS_ASSERT(!rbgMask.empty())" in
  let* rbAssignment := rb_assignment rbgMask numRbPerRbg (length sinr) in
  let* specVals := res_map (fun ichunk =>
      let* assigned := vec_at rbAssignment (Z.of_nat ichunk) in
      if assigned : bool then vec_at sinr (Z.of_nat ichunk) else Ok d_zero) (seq 0 numBands) in
  let* r := CreateCqiFeedbackSiso specVals amc in
  let '(wbCqi, mcs) := r in
  Ok (mkUlCqi (mkSchedCqi SB sinr wbCqi ue.(m_ulCqi).(m_sbCqi) expirationTime) mcs).

(** NrMacSchedulerCQIManagement::RefreshUlCqiMaps *)
Definition refresh_ul (startMcsUl : Z) (ue : UlCqiState) : UlCqiState :=
  let cqi := ue.(m_ulCqi) in
  if cqi.(m_timer) =? 0
  then mkUlCqi (mkSchedCqi WB cqi.(m_sinr) 1 cqi.(m_sbCqi) cqi.(m_timer)) startMcsUl
  else mkUlCqi (mkSchedCqi cqi.(m_cqiType) cqi.(m_sinr) cqi.(m_wbCqi) cqi.(m_sbCqi) (cqi.(m_timer) - 1)) ue.(uc_ulMcs).

Definition RefreshUlCqiMaps (startMcsUl : Z) (ueMap : gmap Z UlCqiState) : gmap Z UlCqiState :=
  refresh_ul startMcsUl <$> ueMap.
