(* ===== verification/CqiProps.v ===== *)
(** The properties of the CQI reports: what a report leaves in a UE is usable by the scheduler,
    and what the expiry of a report does not reset. *)
From Stdlib Require Import ZArith Lia SpecFloat.
From stdpp Require Import base list gmap strings list_numbers sets.
From coqutil Require Import Datatypes.RecordSettersUsingExistingGetters.
From S2P Require Import Prelude Messages Amc AmcProps DlUe CqiManagement.
Open Scope Z_scope.

(** ** The size of a sub-band *)

Lemma sb_size_spec fuel bw n s :
  0 <= bw < s * 2 ^ Z.of_nat fuel -> 0 < s -> 0 <= n ->
  let r := sb_size fuel bw n s in 0 < r /\ bw / r <= n.
Proof.
  revert s. induction fuel as [|fuel IH]; intros s B S N; cbn [sb_size].
  - split; [done|]. rewrite Z.div_small by lia. done.
  - destruct (Z.ltb_spec n (bw / s)) as [L|L]; [|done].
    rewrite Z.shiftl_mul_pow2 by lia. change (2 ^ 1) with 2.
    apply IH; [|lia|done]. rewrite Nat2Z.inj_succ, Z.pow_succ_r in B by lia. lia.
Qed.

(** ** The loops over the sub-bands *)

Lemma insert_all_lookup {A} (v : A) rs (l : list A) j :
  foldl (fun l r => <[Z.to_nat r := v]> l) l rs !! j
  = if decide (j ∈ Z.to_nat <$> rs /\ (j < length l)%nat) then Some v else l !! j.
Proof.
  revert l. induction rs as [|r rs IH]; intros l; cbn [foldl fmap list_fmap].
  - rewrite decide_False; [done|]. by intros [?%elem_of_nil _].
  - rewrite IH, length_insert.
    repeat match goal with |- context [decide ?P] => destruct (decide P) as [?|?] end; try done.
    + exfalso. set_solver.
    + assert (j = Z.to_nat r) as -> by set_solver. apply list_lookup_insert_eq. tauto.
    + destruct (decide (j = Z.to_nat r)) as [->|]; [|by rewrite list_lookup_insert_ne].
      assert (~ (Z.to_nat r < length l)%nat) by set_solver. by rewrite list_insert_ge by lia.
Qed.

Lemma insert_all_length {A} (v : A) rs (l : list A) :
  length (foldl (fun l r => <[Z.to_nat r := v]> l) l rs) = length l.
Proof. revert l. induction rs as [|r rs IH]; intros l; cbn [foldl]; [done|]. by rewrite IH, length_insert. Qed.

Lemma map_rbgs_lookup bw size sb l r :
  0 <= sb -> 0 < size -> 0 <= r < bw -> Z.of_nat (length l) = bw ->
  map_rbgs bw size sb l !! Z.to_nat r = if decide (r / size = sb) then Some (u8 sb) else l !! Z.to_nat r.
Proof.
  intros S0 Sz R L. unfold map_rbgs. rewrite insert_all_lookup.
  assert (r / size = sb <-> sb * size <= r < (sb + 1) * size) as Eq.
  { split.
    - intros <-. pose proof (Z.div_mod r size ltac:(lia)). pose proof (Z.mod_pos_bound r size Sz). nia.
    - intros Hr. symmetry. apply Z.div_unique with (r := r - size * sb); lia. }
  destruct (decide (r / size = sb)) as [D|D].
  - rewrite decide_True; [done|]. split; [|lia]. apply Eq in D.
    apply list_elem_of_fmap. exists r. split; [done|]. apply elem_of_seqZ. lia.
  - rewrite decide_False; [done|]. intros [(k & Ek & Hk%elem_of_seqZ)%list_elem_of_fmap _].
    apply D, Eq. assert (0 <= sb * size) by nia. assert (k = r) as <- by lia. lia.
Qed.

Lemma map_rbgs_length bw size sb l : length (map_rbgs bw size sb l) = length l.
Proof. apply insert_all_length. Qed.

Lemma map_rbgs_Forall bw size sb l (P : Z -> Prop) :
  P (u8 sb) -> Forall P l -> Forall P (map_rbgs bw size sb l).
Proof.
  intros Hp. unfold map_rbgs. generalize (seqZ (sb * size) (Z.min bw ((sb + 1) * size) - sb * size)).
  intros rs. revert l. induction rs as [|r rs IH]; intros l F; cbn [foldl]; [done|].
  apply IH. by apply Forall_insert.
Qed.

(** The state of the loop when [sb] sub-bands are done *)
Definition mapped (top bw n size sb : Z) (infos : list SbMcsInfo) (rbgToSb : list Z) : Prop :=
  Z.of_nat (length infos) = n /\ Z.of_nat (length rbgToSb) = bw /\
  Forall (fun i => 0 <= i.(sb_mcs) <= top) infos /\ Forall (fun b => 0 <= b < n) rbgToSb /\
  forall r, 0 <= r < bw -> r / size < sb -> rbgToSb !! Z.to_nat r = Some (r / size).

Section reports.
Context `{LibM} (em : NrErrorModel) `{!ErrorModelLaws em}.

Lemma GetMcsFromCqi_ok cqi amc :
  amc.(m_errorModel) = em -> cache_ok amc -> 0 <= cqi <= 15 ->
  exists amc' m, GetMcsFromCqi cqi amc = Ok (amc', m) /\ amc'.(m_errorModel) = em /\
    cache_ok amc' /\ 0 <= m <= em.(GetMaxMcs) /\ mcs_of_cqi em cqi = Ok m.
Proof.
  intros <- C Hc. destruct (mcs_of_cqi_ok _ cqi Hc) as (se & m & _ & Em & S).
  destruct (GetMcsFromCqi_eq amc cqi C Hc m Em) as (amc' & E & C' & F). exists amc', m.
  split_and!; [done| |done|apply S|apply S|done]. rewrite F. done.
Qed.

Lemma sb_loop_ok bw n size ri sbCqis sb amc infos rbgToSb :
  0 <= sb -> 0 < size -> sb + Z.of_nat (length sbCqis) = n -> n <= 256 ->
  Forall (fun c => 0 <= c <= 15) sbCqis -> amc.(m_errorModel) = em -> cache_ok amc ->
  mapped em.(GetMaxMcs) bw n size sb infos rbgToSb ->
  exists amc' infos' rbgToSb', sb_loop bw size ri sb sbCqis (amc, infos, rbgToSb) = Ok (amc', infos', rbgToSb') /\
    amc'.(m_errorModel) = em /\ cache_ok amc' /\ mapped em.(GetMaxMcs) bw n size n infos' rbgToSb'.
Proof.
  revert sb amc infos rbgToSb. induction sbCqis as [|c cs IH]; intros sb amc infos rbgToSb S Sz En N Cs Ea C M.
  - cbn in En. exists amc, infos, rbgToSb. assert (sb = n) as <- by lia. done.
  - apply Forall_cons in Cs as [Hc Cs]. cbn [sb_loop length] in *.
    destruct (GetMcsFromCqi_ok c amc Ea C Hc) as (amc1 & m & -> & Ea1 & C1 & Rm & _). cbn [res_bind].
    rewrite Ea1. destruct (cqi_table c Hc) as [se Es]. rewrite Es. cbn [res_bind].
    apply (IH (sb + 1)); [lia|done|lia|done|done|done|done|].
    destruct M as (L1 & L2 & F1 & F2 & M). split_and!.
    + by rewrite length_insert.
    + by rewrite map_rbgs_length.
    + apply Forall_insert; [done|]. cbn. lia.
    + apply map_rbgs_Forall; [|done]. rewrite wrap_small by (unfold fits; lia). lia.
    + intros r Hr Hs. rewrite map_rbgs_lookup by lia. destruct (decide (r / size = sb)) as [->|D].
      * rewrite wrap_small by (unfold fits; lia). done.
      * apply M; lia.
Qed.

(** ** Well-formed UEs *)

(** The MCSs are within the tables, and every RBG of the bandwidth [bw] has a sub-band among
    the [n] there are, when sub-bands were reported at all. *)
Definition ue_wf (bw n : Z) (ue : UeInfoDl) : Prop :=
  0 <= ue.(m_dlMcs) <= em.(GetMaxMcs) /\
  (forall m, ue.(m_fhMaxMcsAssignable) = Some m -> 0 <= m <= em.(GetMaxMcs)) /\
  (ue.(m_dlSbMcsInfo) = [] \/
   Z.of_nat (length ue.(m_dlSbMcsInfo)) = n /\ Z.of_nat (length ue.(m_rbgToSb)) = bw) /\
  Forall (fun i => 0 <= i.(sb_mcs) <= em.(GetMaxMcs)) ue.(m_dlSbMcsInfo) /\
  Forall (fun b => 0 <= b < n) ue.(m_rbgToSb).

(** A report a UE may send: CQIs from the table, [n] sub-bands or none. *)
Definition report_ok (n : Z) (info : DlCqiInfo) : Prop :=
  0 <= info.(info_wbCqi) <= 15 /\ Forall (fun c => 0 <= c <= 15) info.(info_sbCqis) /\
  (info.(info_sbCqis) = [] \/ Z.of_nat (length info.(info_sbCqis)) = n) /\ 0 < info.(info_ri).

(** The branch for a report with sub-bands *)
Lemma report_sb_ok bw n info amc rbgToSb :
  0 <= bw < 2 ^ 16 -> 0 < n <= 256 -> Z.of_nat (length info.(info_sbCqis)) = n ->
  Forall (fun c => 0 <= c <= 15) info.(info_sbCqis) -> amc.(m_errorModel) = em -> cache_ok amc ->
  Forall (fun b => 0 <= b < n) rbgToSb ->
  let size := sb_size 16 bw n 1 in
  0 < size /\
  exists amc' infos' rbgToSb',
    sb_loop bw size info.(info_ri) 0 info.(info_sbCqis)
      (amc, replicate (length info.(info_sbCqis)) (mkSb 0 0 d_zero d_zero), resize (Z.to_nat bw) 0 rbgToSb)
      = Ok (amc', infos', rbgToSb') /\
    amc'.(m_errorModel) = em /\ cache_ok amc' /\ mapped em.(GetMaxMcs) bw n size n infos' rbgToSb'.
Proof.
  intros B N L Cs Ea C F size. destruct (sb_size_spec 16 bw n 1 ltac:(lia) ltac:(lia) ltac:(lia)) as [Sz _].
  fold size in Sz. split; [done|].
  apply (sb_loop_ok bw n size); [lia|done|lia|lia|done|done|done|].
  split_and!.
  - by rewrite length_replicate.
  - unfold resize. rewrite length_app, length_replicate, length_take. lia.
  - apply Forall_replicate. cbn. pose proof max_mcs_range. lia.
  - unfold resize. apply Forall_app. split; [by apply Forall_take|]. apply Forall_replicate. lia.
  - intros r Hr Hs. pose proof (Z.div_pos r size ltac:(lia) ltac:(lia)). lia.
Qed.

(** The members a report sets, before the rank *)
Definition reported (info : DlCqiInfo) (expirationTime mcs : Z) (infos : list SbMcsInfo) (rbgToSb : list Z)
    (ue : UeInfoDl) : UeInfoDl :=
  ue <| m_dlCqi := mkSchedCqi WB ue.(m_dlCqi).(m_sinr) info.(info_wbCqi) info.(info_sbCqis) expirationTime |>
     <| m_dlMcs := mcs |> <| m_dlSbMcsInfo := [] |>
     <| m_dlSbMcsInfo := infos |> <| m_rbgToSb := rbgToSb |>.

Lemma reported_wf bw n info expirationTime mcs infos rbgToSb ue :
  ue_wf bw n ue -> 0 <= mcs <= em.(GetMaxMcs) ->
  (infos = [] /\ rbgToSb = ue.(m_rbgToSb) \/ mapped em.(GetMaxMcs) bw n (sb_size 16 bw n 1) n infos rbgToSb) ->
  ue_wf bw n (reported info expirationTime mcs infos rbgToSb ue).
Proof.
  intros (W1 & W2 & W3 & W4 & W5) Rm M. unfold ue_wf, reported. cbn. split; [done|]. split; [done|].
  destruct M as [[-> ->]|(L1 & L2 & F1 & F2 & _)].
  - split; [by left|]. split; [constructor|done].
  - split; [by right|]. by split.
Qed.

(** The rank and the precoding matrix come last. *)
Lemma report_rank (P : UeInfoDl -> Prop) info (amc : Amc) ue :
  0 < info.(info_ri) -> (forall r pm, P (ue <| m_dlRank := r |> <| m_dlPrecMats := pm |>)) -> P ue ->
  exists ue', match info.(info_optPrecMat) with
    | None => Ok (amc, ue)
    | Some m =>
        let* _ := abort_if (info.(info_ri) <=? 0) "NS_ASSERT(info.m_ri > 0)" in
        Ok (amc, ue <| m_dlRank := info.(info_ri) |> <| m_dlPrecMats := Some m |>)
    end = Ok (amc, ue') /\ P ue'.
Proof.
  intros R Pr Pu. destruct (info_optPrecMat info) as [pm|]; [|by exists ue].
  replace (info_ri info <=? 0) with false by lia. eexists. split; [done|]. apply Pr.
Qed.

(** a CQI report leaves the UE well formed whatever was reported before, as long as the
    number of sub-bands does not change: the scheduler will find a sub-band for every RBG and
    an MCS in the tables.  Each RBG of a sub-band is mapped to it; the allocation of the UE is
    not touched. *)
Theorem cqi_report_wf bw n info expirationTime maxDlMcs amc ue :
  0 <= bw < 2 ^ 16 -> 0 < n <= 256 -> 0 <= maxDlMcs < 128 -> report_ok n info ->
  amc.(m_errorModel) = em -> cache_ok amc -> ue_wf bw n ue ->
  exists amc' ue', DlCqiReported info expirationTime maxDlMcs bw (amc, ue) = Ok (amc', ue') /\
    amc'.(m_errorModel) = em /\ cache_ok amc' /\ ue_wf bw n ue' /\
    ue'.(m_dlMcs) <= maxDlMcs /\ ue'.(m_dlCqi).(m_timer) = expirationTime /\
    (ue'.(dl_rnti), ue'.(m_dlRBG), ue'.(m_dlSym), ue'.(m_dlTbSize))
      = (ue.(dl_rnti), ue.(m_dlRBG), ue.(m_dlSym), ue.(m_dlTbSize)) /\
    (info.(info_sbCqis) <> [] -> forall r, 0 <= r < bw -> r / sb_size 16 bw n 1 < n ->
       ue'.(m_rbgToSb) !! Z.to_nat r = Some (r / sb_size 16 bw n 1)).
Proof.
  intros B N Mx (Wb & Cs & Ln & Ri) Ea C W. unfold DlCqiReported.
  destruct (GetMcsFromCqi_ok _ amc Ea C Wb) as (amc1 & m & -> & Ea1 & C1 & Rm & _). cbn [res_bind].
  rewrite (wrap_small 8 maxDlMcs) by (unfold fits; lia).
  assert (exists amc2 infos rbgToSb,
    match info_sbCqis info with
    | [] => Ok (amc1, [], m_rbgToSb ue)
    | _ => sb_loop bw (sb_size 16 bw (Z.of_nat (length (info_sbCqis info))) 1) (info_ri info) 0 (info_sbCqis info)
             (amc1, replicate (length (info_sbCqis info)) (mkSb 0 0 d_zero d_zero),
              resize (Z.to_nat bw) 0 (m_rbgToSb ue))
    end = Ok (amc2, infos, rbgToSb) /\ amc2.(m_errorModel) = em /\ cache_ok amc2 /\
    (info_sbCqis info = [] /\ infos = [] /\ rbgToSb = ue.(m_rbgToSb) \/
     mapped em.(GetMaxMcs) bw n (sb_size 16 bw n 1) n infos rbgToSb)) as (amc2 & infos & rbgToSb & E & Ea2 & C2 & M).
  { destruct (info_sbCqis info) as [|c cs] eqn:Ei.
    - exists amc1, [], (m_rbgToSb ue). split; [done|]. split; [done|]. split; [done|by left].
    - destruct Ln as [?|Ln]; [done|]. rewrite <- Ei in *. rewrite Ln.
      destruct (report_sb_ok bw n info amc1 (m_rbgToSb ue) B N Ln Cs Ea1 C1) as (_ & a & i & r & E & Ea2 & C2 & M);
        [apply W|]. exists a, i, r. split; [done|]. split; [done|]. split; [done|by right]. }
  set (ue1 := reported info expirationTime (Z.min m maxDlMcs) infos rbgToSb ue).
  assert (ue_wf bw n ue1) as W1.
  { apply reported_wf; [done|lia|]. destruct M as [(_ & M)|M]; [by left|by right]. }
  assert (info_sbCqis info <> [] -> forall r, 0 <= r < bw -> r / sb_size 16 bw n 1 < n ->
    m_rbgToSb ue1 !! Z.to_nat r = Some (r / sb_size 16 bw n 1)) as Mr.
  { intros Ns. destruct M as [(? & _)|(_ & _ & _ & _ & M)]; [done|exact M]. }
  destruct (report_rank (fun ue' => ue_wf bw n ue' /\
    ue'.(m_dlMcs) <= maxDlMcs /\ ue'.(m_dlCqi).(m_timer) = expirationTime /\
    (ue'.(dl_rnti), ue'.(m_dlRBG), ue'.(m_dlSym), ue'.(m_dlTbSize))
      = (ue.(dl_rnti), ue.(m_dlRBG), ue.(m_dlSym), ue.(m_dlTbSize)) /\
    (info.(info_sbCqis) <> [] -> forall r, 0 <= r < bw -> r / sb_size 16 bw n 1 < n ->
       ue'.(m_rbgToSb) !! Z.to_nat r = Some (r / sb_size 16 bw n 1))) info amc2 ue1 Ri) as (ue2 & E2 & P2).
  { intros r pm. split; [exact W1|]. split; [apply Z.le_min_r|]. split; [done|]. split; [done|exact Mr]. }
  { split; [exact W1|]. split; [apply Z.le_min_r|]. split; [done|]. split; [done|exact Mr]. }
  exists amc2, ue2. split; [|by split; [|split]].
  exact (eq_trans (f_equal (fun s => res_bind s _) E) E2).
Qed.

End reports.

(** ** The MCS the scheduler uses *)

Section estimates.
Context `{LibM} `{CppReduce} (em : NrErrorModel) `{!ErrorModelLaws em}.

Lemma sb_of_ok bw n ue rbg :
  ue_wf em bw n ue -> ue.(m_dlSbMcsInfo) <> [] -> 0 <= rbg < bw ->
  exists i, sb_of ue rbg = Ok i /\ 0 <= i.(sb_mcs) <= em.(GetMaxMcs).
Proof.
  intros (_ & _ & [?|[L1 L2]] & F1 & F2) Ne R; [done|]. unfold sb_of.
  destruct (vec_at_ok (m_rbgToSb ue) rbg) as (sb & -> & Hsb); [lia|]. cbn [res_bind].
  rewrite Forall_forall in F2. specialize (F2 sb Hsb).
  destruct (vec_at_ok (m_dlSbMcsInfo ue) sb) as (i & Ei & Hi); [lia|]. exists i. split; [done|].
  rewrite Forall_forall in F1. by apply F1.
Qed.

Lemma avg_mcs_range top sbs :
  0 <= top -> sbs <> [] -> Forall (fun i => 0 <= i.(sb_mcs) <= top) sbs -> 0 <= avg_mcs sbs <= top.
Proof.
  intros T Ne F. unfold avg_mcs.
  assert (0 <= foldr (fun sb n => sb.(sb_mcs) + n) 0 sbs <= top * Z.of_nat (length sbs)) as R.
  { clear Ne. induction F as [|i l Hi _ IH]; cbn [foldr length]; lia. }
  assert (0 < Z.of_nat (length sbs)) by (destruct sbs; [done|cbn; lia]).
  split; [apply Z.div_pos; lia|]. apply Z.div_le_upper_bound; lia.
Qed.

(** The estimate of a well-formed UE is in the tables, when it is the wideband MCS or the
    average MCS of its sub-bands. *)
Lemma GetDlMcs_ok bw n amc ue :
  amc.(m_errorModel) = em -> ue_wf em bw n ue -> Forall (fun r => 0 <= r < bw) ue.(m_dlRBG) ->
  ue.(ue_mcsCsiSource) = AVG_MCS \/ ue.(ue_mcsCsiSource) = WIDEBAND_MCS ->
  exists m, GetDlMcs amc ue = Ok m /\ 0 <= m <= em.(GetMaxMcs).
Proof.
  intros _ W R Src. pose proof W as (W1 & W2 & _). unfold GetDlMcs.
  destruct (m_fhMaxMcsAssignable ue) as [m|] eqn:Ef; [exists m; split; [done|by apply W2]|].
  destruct (bool_decide_reflect (m_dlRBG ue = [])) as [|Nr]; [by exists (m_dlMcs ue)|].
  destruct (bool_decide_reflect (ue_mcsCsiSource ue = WIDEBAND_MCS)) as [|Ns]; [by exists (m_dlMcs ue)|].
  destruct Src as [Src|]; [|done]. cbn [orb].
  destruct (m_dlSbMcsInfo ue) as [|i0 l0] eqn:Ei; [by exists (m_dlMcs ue)|].
  destruct (res_map_ok (sb_of ue) (fun i => 0 <= i.(sb_mcs) <= em.(GetMaxMcs)) (m_dlRBG ue)) as (sbs & -> & L & F).
  { intros r Hr. rewrite Forall_forall in R. apply (sb_of_ok bw n); [done|by rewrite Ei|by apply R]. }
  cbn [res_bind]. rewrite Src. pose proof max_mcs_range as Mx.
  pose proof (avg_mcs_range em.(GetMaxMcs) sbs ltac:(lia)) as A.
  rewrite wrap_small; [eexists; split; [done|]|unfold fits].
  - apply A; [|done]. intros ->. destruct (m_dlRBG ue); [done|]. done.
  - assert (0 <= avg_mcs sbs <= em.(GetMaxMcs)); [|lia].
    apply A; [|done]. intros ->. destruct (m_dlRBG ue); [done|]. done.
Qed.

(** when a CQI report expires the wideband CQI and MCS fall back to their initial values,
    but the sub-band information stays: a UE that is scheduled by its sub-bands keeps the MCS
    of the expired report. *)
Theorem expired_cqi_still_used startMcsDl amc ueMap rnti ue :
  ueMap !! rnti = Some ue -> ue.(m_dlCqi).(m_timer) = 0 -> ue.(m_fhMaxMcsAssignable) = None ->
  ue.(ue_mcsCsiSource) <> WIDEBAND_MCS -> ue.(m_dlSbMcsInfo) <> [] -> ue.(m_dlRBG) <> [] ->
  exists ue', RefreshDlCqiMaps startMcsDl ueMap !! rnti = Some ue' /\
    ue'.(m_dlMcs) = startMcsDl /\ ue'.(m_dlCqi).(m_wbCqi) = 1 /\ GetDlMcs amc ue' = GetDlMcs amc ue.
Proof.
  intros Hu T Fh Src Nsb Nr. exists (refresh_dl startMcsDl ue). unfold RefreshDlCqiMaps.
  rewrite lookup_fmap, Hu. split; [done|]. unfold refresh_dl. rewrite T. cbn [Z.eqb].
  split; [done|]. split; [done|].
  unfold GetDlMcs. cbn. rewrite Fh, (bool_decide_false _ Src), (bool_decide_false _ Nr).
  destruct (m_dlSbMcsInfo ue) as [|i l]; [done|]. reflexivity.
Qed.

End estimates.

(** ** Witnesses *)

Definition some_reduce : CppReduce := {| transform_reduce := foldl d_add d_zero |}.

(** A UE with seven RBGs of bandwidth in three sub-bands *)
Definition toy_ue : UeInfoDl :=
  mkUeDl 1 0 [] [] 0 9 None 1 None [] [] (mkSchedCqi WB [] 0 [] 0) AVG_MCS.
Definition toy_report : DlCqiInfo := mkDlCqi 7 [7; 3; 12] 1 (Some 0%nat).

Theorem cqi_report_wf_witness :
  exists amc' ue', @DlCqiReported some_libm toy_report 40 20 7 (lte_amc toy_tbler, toy_ue) = Ok (amc', ue') /\
    amc'.(m_errorModel) = lte_error_model toy_tbler /\ cache_ok amc' /\
    ue_wf (lte_error_model toy_tbler) 7 3 ue' /\
    ue'.(m_dlMcs) <= 20 /\ ue'.(m_dlCqi).(m_timer) = 40 /\
    (ue'.(dl_rnti), ue'.(m_dlRBG), ue'.(m_dlSym), ue'.(m_dlTbSize))
      = (toy_ue.(dl_rnti), toy_ue.(m_dlRBG), toy_ue.(m_dlSym), toy_ue.(m_dlTbSize)) /\
    (toy_report.(info_sbCqis) <> [] -> forall r, 0 <= r < 7 -> r / sb_size 16 7 3 1 < 3 ->
       ue'.(m_rbgToSb) !! Z.to_nat r = Some (r / sb_size 16 7 3 1)).
Proof.
  apply (@cqi_report_wf some_libm (lte_error_model toy_tbler) (lte_laws toy_tbler) 7 3 toy_report 40 20
    (lte_amc toy_tbler) toy_ue).
  - lia.
  - lia.
  - lia.
  - split; [cbn; lia|]. split; [repeat constructor; lia|]. split; [by right|cbn; lia].
  - done.
  - apply lte_cache.
  - split; [by vm_compute|]. split; [done|]. split; [by left|]. split; constructor.
Defined.

Definition expired_ue : UeInfoDl :=
  toy_ue <| m_dlRBG := [0; 1] |> <| m_dlSbMcsInfo := [mkSb 12 22 d_zero d_zero] |> <| m_rbgToSb := [0; 0] |>.

Theorem expired_cqi_still_used_witness :
  exists ue', RefreshDlCqiMaps 0 {[1 := expired_ue]} !! 1 = Some ue' /\
    ue'.(m_dlMcs) = 0 /\ ue'.(m_dlCqi).(m_wbCqi) = 1 /\
    @GetDlMcs some_libm some_reduce (lte_amc toy_tbler) ue' = @GetDlMcs some_libm some_reduce (lte_amc toy_tbler) expired_ue.
Proof.
  apply (@expired_cqi_still_used some_libm some_reduce 0 (lte_amc toy_tbler) {[1 := expired_ue]} 1 expired_ue);
    [apply lookup_singleton_eq|done|done|done|done|done].
Defined.
