(* ===== verification/UlScheduler.v ===== *)
(** The uplink scheduler with targets: src/nr/model/nr-mac-scheduler-ofdma-ul-target.cc, over
    the OFDMA base class of nr-mac-scheduler-ofdma.cc, the round-robin order of
    nr-mac-scheduler-ofdma-rr.cc and nr-mac-scheduler-ue-info.cc.

    The UEs live in a store, because the vectors the scheduler sorts hold shared pointers to
    them.  BeforeUlSched and NotAssignedUlResources are empty in the round-robin class.  The
    transport block size of NrAmc is a parameter. *)
From Stdlib Require Import ZArith Lia Sorting.Sorted.
From stdpp Require Import base list gmap strings list_numbers.
From coqutil Require Import Datatypes.RecordSettersUsingExistingGetters.
From S2P Require Import Prelude OrdMap Messages.
Open Scope Z_scope.

(** NrAmc::CalculateTbSize (mcs, rank, nprb) *)
Class NrAmc : Type := { CalculateTbSize : Z -> Z -> Z -> Z }.

(** The uplink members of NrMacSchedulerUeInfo *)
Record UeInfoUl := mkUeUl {
  m_rnti : Z;
  m_ulRBG : list Z;
  m_ulSym : list Z;
  m_ulTbSize : Z;
  m_ulMcs : Z;
  m_ulRank : Z
}.

(** NrMacSchedulerUeInfo::ResetUlSchedInfo *)
Definition ResetUlSchedInfo (ue : UeInfoUl) : UeInfoUl :=
  ue <| m_ulRBG := [] |> <| m_ulSym := [] |> <| m_ulTbSize := 0 |>.

(** std::stable_sort by an integer key *)
Fixpoint insert_by {A : Type} (key : A -> Z) (a : A) (l : list A) : list A :=
  match l with
  | [] => [a]
  | b :: l' => if key b <? key a then b :: insert_by key a l' else a :: l
  end.

Definition stable_sort {A : Type} (key : A -> Z) (l : list A) : list A := foldr (insert_by key) [] l.

(** The positions of the true bits: the set remainingRbgSet, in increasing order. *)
Definition remaining_rbgs (bitmask : list bool) : list Z :=
  Z.of_nat <$> filter (fun i => bitmask !! i = Some true) (seq 0 (length bitmask)).

(** The vector of (UE, buffer request) of a beam; a UE is a pointer into the store. *)
Abbreviation UeVector := (list (nat * Z)).

Section scheduler.
Context `{NrAmc} (NumRbPerRbg : Z).

(** NrMacSchedulerUeInfo::UpdateUlMetric *)
Definition UpdateUlMetric (ue : UeInfoUl) : UeInfoUl :=
  ue <| m_ulTbSize :=
    match ue.(m_ulRBG) with
    | [] => 0
    | _ => CalculateTbSize ue.(m_ulMcs) ue.(m_ulRank)
             (Z.of_nat (length ue.(m_ulRBG)) * NumRbPerRbg)
    end |>.

(** One RBG over [beamSym] symbols, then AssignedUlResources. *)
Definition assign_rbg (rbg beamSym : Z) (ue : UeInfoUl) : UeInfoUl :=
  UpdateUlMetric
    (ue <| m_ulRBG ::= fun l => l ++ replicate (Z.to_nat beamSym) rbg |>
        <| m_ulSym ::= fun l => l ++ (u8 <$> seqZ 0 beamSym) |>).

(** NrMacSchedulerUeInfoRR::CompareUeWeightsUl sorts by the number of assigned RBGs. *)
Definition ul_weight (ues : gmap nat UeInfoUl) (ue : nat * Z) : Z :=
  match ues !! ue.1 with Some u => Z.of_nat (length u.(m_ulRBG)) | None => 0 end.

(** The UE has enough resources for its buffer: m_ulTbSize >= std::max (bufQueueSize, 12U). *)
Definition covered (u : UeInfoUl) (bufQueueSize : Z) : bool := Z.max bufQueueSize 12 <=? u.(m_ulTbSize).

(** NrMacSchedulerOfdmaUlTarget::HasReachedUlTarget *)
Definition HasReachedUlTarget (m_ulTargets : gmap Z Z) (u : UeInfoUl) (beamSym : Z) : bool :=
  if beamSym =? 0 then true else
  match m_ulTargets !! u.(m_rnti) with
  | None => false
  | Some target => target <=? Z.of_nat (length u.(m_ulRBG)) / beamSym
  end.

(** The first UE of the vector that no test skips. *)
Fixpoint first_eligible (skip : UeInfoUl -> Z -> bool) (ues : gmap nat UeInfoUl) (v : UeVector) :
    option nat :=
  match v with
  | [] => None
  | (p, buf) :: v =>
      match ues !! p with
      | None => None
      | Some u => if skip u buf then first_eligible skip ues v else Some p
      end
  end.

(** The loop while (!remainingRbgSet.empty ()): every iteration takes the lowest RBG. *)
Fixpoint assign_loop (skip : UeInfoUl -> Z -> bool) (beamSym : Z) (remaining : list Z) (v : UeVector)
    (ues : gmap nat UeInfoUl) : gmap nat UeInfoUl :=
  match remaining with
  | [] => ues
  | rbg :: remaining =>
      let v := stable_sort (ul_weight ues) v in
      match first_eligible skip ues v with
      | None => ues
      | Some p => assign_loop skip beamSym remaining v (alter (assign_rbg rbg beamSym) p ues)
      end
  end.

(** The tests of NrMacSchedulerOfdma::AssignULRBG and of NrMacSchedulerOfdmaUlTarget::AssignULRBG *)
Definition skip_base : UeInfoUl -> Z -> bool := covered.
Definition skip_target (m_ulTargets : gmap Z Z) (beamSym : Z) (u : UeInfoUl) (buf : Z) : bool :=
  covered u buf || HasReachedUlTarget m_ulTargets u beamSym.

(** One beam *)
Definition assign_beam (skip : Z -> UeInfoUl -> Z -> bool) (bitmask : list bool) (beamSym : Z)
    (v : UeVector) (ues : gmap nat UeInfoUl) : res (gmap nat UeInfoUl) :=
  let remaining := remaining_rbgs bitmask in
  let* _ := abort_if (bool_decide (remaining = [])) "NS_ASSERT(!remainingRbgSet.empty())" in
  Ok (assign_loop (skip beamSym) beamSym remaining v ues).

End scheduler.

(** ** Symbols per beam

    The unordered maps of the source are the lists of their bindings in iteration order.
    The round-robin and the load-based policies of
    nr-mac-scheduler-ofdma-symbol-per-beam.cc are modelled. *)
Section beams.
Context {BeamId : Type} `{EqDecision BeamId}.

Abbreviation BeamSymbolMap := (list (BeamId * Z)).
Abbreviation ActiveUeMap := (list (BeamId * UeVector)).

(** at (beam), and operator[] followed by += n *)
Fixpoint beam_at (b : BeamId) (m : BeamSymbolMap) : option Z :=
  match m with
  | [] => None
  | (b', v) :: m => if decide (b' = b) then Some v else beam_at b m
  end.

Fixpoint beam_add (b : BeamId) (n : Z) (m : BeamSymbolMap) : BeamSymbolMap :=
  match m with
  | [] => [(b, n)]
  | (b', v) :: m => if decide (b' = b) then (b, u32 (v + n)) :: m else (b', v) :: beam_add b n m
  end.

(** The first loop of the round-robin policy: new beams join the queue. *)
Definition rr_join (activeDl : ActiveUeMap) (m_rrBeams : list BeamId) : list BeamId :=
  foldl (fun q e => if bool_decide (e.1 ∈ q) then q else q ++ [e.1]) m_rrBeams activeDl.

(** The inner loop for one symbol: rotate up to and including the first active beam. *)
Fixpoint rr_symbol (n : nat) (active : list BeamId) (m_rrBeams : list BeamId) (ret : BeamSymbolMap) :
    list BeamId * BeamSymbolMap :=
  match n, m_rrBeams with
  | S n, b :: q =>
      if bool_decide (b ∈ active) then (q ++ [b], beam_add b 1 ret)
      else rr_symbol n active (q ++ [b]) ret
  | _, _ => (m_rrBeams, ret)
  end.

Fixpoint rr_symbols (symAvail : nat) (active : list BeamId) (m_rrBeams : list BeamId)
    (ret : BeamSymbolMap) : list BeamId * BeamSymbolMap :=
  match symAvail with
  | O => (m_rrBeams, ret)
  | S symAvail =>
      let '(q, ret) := rr_symbol (length m_rrBeams) active m_rrBeams ret in
      rr_symbols symAvail active q ret
  end.

(** NrMacSchedulerOfdmaSymbolPerBeamRR::GetSymPerBeam; [m_rrBeams] is the mutable member. *)
Definition GetSymPerBeamRR (symAvail : Z) (activeDl : ActiveUeMap) (m_rrBeams : list BeamId) :
    list BeamId * BeamSymbolMap :=
  rr_symbols (Z.to_nat symAvail) activeDl.*1 (rr_join activeDl m_rrBeams) [].

Definition sum_buffers (v : UeVector) : Z := foldl (fun n ue => n + ue.2) 0 v.

(** The second loop of the load-based policy: the share of each beam, and symUsed. *)
Definition lb_share (symAvail : Z) (activeDl : ActiveUeMap) : option (BeamSymbolMap * Z) :=
  let bufTotal := foldl (fun t e => foldl (fun t ue => d_add t (d_of_Z ue.2)) t e.2) d_zero activeDl in
  let tmp := d_div (d_of_Z symAvail) bufTotal in
  foldl (fun acc e =>
      match acc with
      | None => None
      | Some (ret, symUsed) =>
          match d_trunc 32 (d_mul (d_of_Z (u32 (sum_buffers e.2))) tmp) with
          | None => None
          | Some symForBeam => Some (ret ++ [(e.1, symForBeam)], u8 (symUsed + symForBeam))
          end
      end) (Some ([], 0)) activeDl.

(** The first beam with the fewest symbols gets one more. *)
Fixpoint min_beam (best : option (BeamId * Z)) (m : BeamSymbolMap) : option (BeamId * Z) :=
  match m with
  | [] => best
  | e :: m =>
      match best with
      | None => min_beam (Some e) m
      | Some b => min_beam (Some (if e.2 <? b.2 then e else b)) m
      end
  end.

Fixpoint lb_redistribute (symToRedistribute : nat) (ret : BeamSymbolMap) : BeamSymbolMap :=
  match symToRedistribute with
  | O => ret
  | S n =>
      match min_beam None ret with
      | None => ret
      | Some b => lb_redistribute n (beam_add b.1 1 ret)
      end
  end.

(** NrMacSchedulerOfdmaSymbolPerBeamLB::GetSymPerBeam *)
Definition GetSymPerBeamLB (symAvail : Z) (activeDl : ActiveUeMap) : res BeamSymbolMap :=
  match lb_share symAvail activeDl with
  | None => Abort "undefined conversion to uint32_t"
  | Some (ret, symUsed) =>
      let* _ := abort_if (symAvail <? symUsed) "NS_ASSERT(symAvail >= symUsed)" in
      Ok (lb_redistribute (Z.to_nat (u8 (symAvail - symUsed))) ret)
  end.

(** NrMacSchedulerOfdma::GetSymPerBeam: an entry per beam, 0 when the policy gave none. *)
Definition GetSymPerBeam (policy : BeamSymbolMap) (activeDl : ActiveUeMap) : BeamSymbolMap :=
  foldl (fun ret e => match beam_at e.1 ret with Some _ => ret | None => ret ++ [(e.1, 0)] end)
    policy activeDl.

(** AssignULRBG, with the tests of the base class or of the target class *)
Definition AssignULRBG `{NrAmc} (NumRbPerRbg : Z) (skip : Z -> UeInfoUl -> Z -> bool)
    (bitmask : list bool) (policy : BeamSymbolMap) (activeUl : ActiveUeMap)
    (ues : gmap nat UeInfoUl) : res (BeamSymbolMap * gmap nat UeInfoUl) :=
  let symPerBeam := GetSymPerBeam policy activeUl in
  let* ues := res_fold (fun el ues =>
      match beam_at el.1 symPerBeam with
      | None => Abort "std::out_of_range"
      | Some beamSym => assign_beam NumRbPerRbg skip bitmask beamSym el.2 ues
      end) activeUl ues in
  Ok (symPerBeam, ues).

End beams.

(** NrMacSchedulerOfdmaUlTarget::AssignULRBG and NrMacSchedulerOfdma::AssignULRBG *)
Definition AssignULRBG_target `{NrAmc} {BeamId} `{EqDecision BeamId} (NumRbPerRbg : Z)
    (m_ulTargets : gmap Z Z) :=
  AssignULRBG (BeamId := BeamId) NumRbPerRbg (skip_target m_ulTargets).

Definition AssignULRBG_base `{NrAmc} {BeamId} `{EqDecision BeamId} (NumRbPerRbg : Z) :=
  AssignULRBG (BeamId := BeamId) NumRbPerRbg (fun _ => skip_base).

(** NrMacSchedulerOfdma::CreateRbgBitmaskFromAllocatedRbgs *)
Definition CreateRbgBitmaskFromAllocatedRbgs (bandwidthInRbg : nat) (notched : list bool)
    (allocatedRbgs : list Z) : res (list bool) :=
  let notched := match notched with [] => replicate bandwidthInRbg true | _ => notched end in
  let rbgBitmask := replicate bandwidthInRbg false in
  let* _ := abort_if (negb (length notched =? length rbgBitmask)%nat)
              "NS_ASSERT(rbgNotchedBitmask.size() == rbgBitmask.size())" in
  res_fold (fun rbg mask =>
      match notched !! Z.to_nat rbg with
      | None => Abort "std::out_of_range"
      | Some ok =>
          let* _ := abort_if (negb ok) "Scheduled notched resource" in
          Ok (<[Z.to_nat rbg := true]> mask)
      end) allocatedRbgs rbgBitmask.
