(* ===== verification/UlFacts.v ===== *)
(** Facts about the uplink scheduler: which UE gets each RBG. *)
From Stdlib Require Import ZArith Lia Sorting.Sorted.
From stdpp Require Import base list gmap strings list_numbers sets.
From coqutil Require Import Datatypes.RecordSettersUsingExistingGetters.
From S2P Require Import Prelude OrdMap Messages UlScheduler.
Open Scope Z_scope.

(** ** Sorting *)

Lemma insert_by_perm {A} (key : A -> Z) a l : insert_by key a l ≡ₚ a :: l.
Proof.
  induction l as [|b l IH]; [done|]. cbn. destruct (_ <? _); [|done]. rewrite IH. apply Permutation_swap.
Qed.

Lemma stable_sort_perm {A} (key : A -> Z) l : stable_sort key l ≡ₚ l.
Proof.
  induction l as [|a l IH]; [done|].
  change (insert_by key a (stable_sort key l) ≡ₚ a :: l). by rewrite insert_by_perm, IH.
Qed.

Lemma remaining_NoDup bitmask : NoDup (remaining_rbgs bitmask).
Proof. unfold remaining_rbgs. apply NoDup_fmap_2; [apply _|]. apply NoDup_filter, NoDup_seq. Qed.

Lemma remaining_elem bitmask r :
  r ∈ remaining_rbgs bitmask -> 0 <= r /\ bitmask !! Z.to_nat r = Some true.
Proof.
  unfold remaining_rbgs. intros (i & -> & [Hi _]%list_elem_of_filter)%list_elem_of_fmap.
  split; [lia|]. by rewrite Nat2Z.id.
Qed.

Lemma remaining_available bitmask i : bitmask !! i = Some true -> Z.of_nat i ∈ remaining_rbgs bitmask.
Proof.
  intros Hi. unfold remaining_rbgs. apply list_elem_of_fmap_2, list_elem_of_filter. split; [done|].
  apply elem_of_seq. apply lookup_lt_Some in Hi. lia.
Qed.

Lemma remaining_nonempty bitmask : existsb id bitmask = true -> remaining_rbgs bitmask <> [].
Proof.
  intros (t & Ht & Et)%existsb_exists. apply list_elem_of_In, list_elem_of_lookup in Ht as [i Hi].
  destruct t; [|done]. intros E. apply remaining_available in Hi. rewrite E in Hi. by apply elem_of_nil in Hi.
Qed.

Section facts.
Context `{NrAmc} (NumRbPerRbg : Z).

(** The RBGs an owner list gives to UE [p]. *)
Definition share_of (beamSym : Z) (owners : list (Z * nat)) (p : nat) : list Z :=
  concat ((fun o => replicate (Z.to_nat beamSym) o.1) <$> filter (fun o => o.2 = p) owners).

Lemma share_cons beamSym r p q owners :
  share_of beamSym ((r, p) :: owners) q
  = (if decide (p = q) then replicate (Z.to_nat beamSym) r else []) ++ share_of beamSym owners q.
Proof. unfold share_of. rewrite filter_cons. cbn. by case_decide. Qed.

Lemma share_elem beamSym owners p r :
  r ∈ share_of beamSym owners p -> (r, p) ∈ owners.
Proof.
  induction owners as [|[r' q] owners IH]; [by intros ?%elem_of_nil|]. rewrite share_cons.
  case_decide as D; [|intros ?; right; auto]. intros [Hr|Hr]%elem_of_app; [|right; auto].
  apply elem_of_replicate in Hr as [-> _]. subst. by left.
Qed.

(** The number of RBGs an owner list gives to UE [p]. *)
Definition count_of (owners : list (Z * nat)) (p : nat) : Z :=
  Z.of_nat (length (filter (fun o => o.2 = p) owners)).

Lemma share_length beamSym owners p :
  0 <= beamSym -> Z.of_nat (length (share_of beamSym owners p)) = count_of owners p * beamSym.
Proof.
  intros B. induction owners as [|[r q] owners IH]; [done|]. rewrite share_cons.
  unfold count_of in *. rewrite filter_cons. cbn [snd]. case_decide; cbn [length app].
  - rewrite length_app, length_replicate. lia.
  - done.
Qed.

Lemma assign_rbg_rnti r b u : m_rnti (assign_rbg NumRbPerRbg r b u) = m_rnti u.
Proof. done. Qed.

Lemma assign_rbg_RBG r b u :
  m_ulRBG (assign_rbg NumRbPerRbg r b u) = m_ulRBG u ++ replicate (Z.to_nat b) r.
Proof. done. Qed.

Lemma first_eligible_Some skip ues v p :
  first_eligible skip ues v = Some p ->
  exists buf u, (p, buf) ∈ v /\ ues !! p = Some u /\ skip u buf = false.
Proof.
  induction v as [|[q buf] v IH]; cbn; [done|]. destruct (ues !! q) as [u|] eqn:E; [|done].
  destruct (skip u buf) eqn:S; intros Hp.
  - destruct (IH Hp) as (b & u' & Hv & R). exists b, u'. split; [by right|done].
  - injection Hp as ->. exists buf, u. split; [by left|done].
Qed.

Lemma first_eligible_None skip ues v :
  Forall (fun e => is_Some (ues !! e.1)) v -> first_eligible skip ues v = None ->
  forall p buf u, (p, buf) ∈ v -> ues !! p = Some u -> skip u buf = true.
Proof.
  induction v as [|[q b] v IH]; cbn; intros F E p buf u Hv Hu; [by apply elem_of_nil in Hv|].
  apply Forall_cons in F as [[uq Hq] F]. cbn in Hq. rewrite Hq in E.
  destruct (skip uq b) eqn:S; [|done].
  apply elem_of_cons in Hv as [Hv|Hv]; [|by eapply IH]. simplify_eq. done.
Qed.

(** The loop gives the RBGs, in order, to owners that were not skipped when they got them,
    and stops early only when every UE is skipped. *)
Lemma assign_loop_owners skip b remaining v ues :
  Forall (fun e => is_Some (ues !! e.1)) v ->
  exists owners,
    owners.*1 `prefix_of` remaining /\ Forall (fun o => o.2 ∈ v.*1) owners /\
    (forall p, (fun u => (m_rnti u, m_ulRBG u)) <$> assign_loop NumRbPerRbg skip b remaining v ues !! p
       = (fun u => (m_rnti u, m_ulRBG u ++ share_of b owners p)) <$> ues !! p) /\
    (owners.*1 = remaining \/
     forall p buf u, (p, buf) ∈ v -> assign_loop NumRbPerRbg skip b remaining v ues !! p = Some u ->
       skip u buf = true).
Proof.
  revert v ues. induction remaining as [|r remaining IH]; intros v ues F; cbn [assign_loop].
  - exists []. split_and!; [done|done| |by left].
    intros p. destruct (ues !! p); cbn; by rewrite ?app_nil_r.
  - pose proof (stable_sort_perm (ul_weight ues) v) as P.
    set (v' := stable_sort (ul_weight ues) v) in *.
    assert (Forall (fun e => is_Some (ues !! e.1)) v') as F' by (by rewrite P).
    destruct (first_eligible skip ues v') as [p|] eqn:E.
    + apply first_eligible_Some in E as (buf & u & Hv & Hu & _).
      destruct (IH v' (alter (assign_rbg NumRbPerRbg r b) p ues)) as (owners & O1 & O2 & O3 & O4).
      { eapply Forall_impl; [exact F'|]. cbn. intros [q c] Hq. cbn in *. rewrite lookup_alter.
        case_decide; [subst; by apply fmap_is_Some|done]. }
      exists ((r, p) :: owners). split_and!.
      * cbn. by apply prefix_cons.
      * constructor; [|by eapply Forall_impl; [exact O2|]; intros o; rewrite <- P].
        rewrite <- P. apply list_elem_of_fmap. by exists (p, buf).
      * intros q. rewrite O3, lookup_alter, share_cons. case_decide; [subst q|]; [|by rewrite app_nil_l].
        rewrite Hu. cbn. by rewrite <- app_assoc.
      * destruct O4 as [O4|O4]; [left; cbn; by rewrite O4|right].
        intros q c x Hq. apply O4. by rewrite P.
    + exists []. split_and!; [apply prefix_nil|done| |right].
      * intros p. destruct (ues !! p); cbn; by rewrite ?app_nil_r.
      * intros p buf u Hv Hu. rewrite <- P in Hv. by eapply first_eligible_None.
Qed.

(** A bound that skipping enforces on the number of RBGs is an invariant of the loop. *)
Definition all_of (v : UeVector) (P : UeInfoUl -> Prop) (ues : gmap nat UeInfoUl) : Prop :=
  forall p u, p ∈ v.*1 -> ues !! p = Some u -> P u.

Lemma assign_loop_bound skip b remaining v ues (bound : UeInfoUl -> Prop) :
  (forall r u buf, buf ∈ v.*2 -> skip u buf = false -> bound u -> bound (assign_rbg NumRbPerRbg r b u)) ->
  all_of v bound ues ->
  all_of v bound (assign_loop NumRbPerRbg skip b remaining v ues).
Proof.
  revert v ues. induction remaining as [|r remaining IH]; intros v ues Hb Hu; cbn; [done|].
  pose proof (stable_sort_perm (ul_weight ues) v) as P.
  destruct (first_eligible _ _ _) as [p|] eqn:E; [|done].
  apply first_eligible_Some in E as (buf & u & Hv & Hp & Hs).
  intros q x Hq. rewrite <- P in Hq. revert q x Hq. apply IH.
  - intros r' y buf' Hy. apply Hb. by rewrite <- P.
  - intros q x Hq. rewrite P in Hq. rewrite lookup_alter. case_decide; [subst q|by apply Hu].
    rewrite Hp. cbn. intros [= <-]. eapply Hb; [|done|by eapply Hu].
    rewrite <- P. apply list_elem_of_fmap. by exists (p, buf).
Qed.

Lemma assign_loop_other skip b remaining v ues p :
  p ∉ v.*1 -> assign_loop NumRbPerRbg skip b remaining v ues !! p = ues !! p.
Proof.
  revert v ues. induction remaining as [|r remaining IH]; intros v ues N; cbn; [done|].
  pose proof (stable_sort_perm (ul_weight ues) v) as P.
  destruct (first_eligible _ _ _) as [q|] eqn:E; [|done].
  apply first_eligible_Some in E as (buf & u & Hv & _ & _).
  rewrite IH by (by rewrite P). apply lookup_alter_ne. intros ->. apply N. rewrite <- P.
  apply list_elem_of_fmap. by exists (p, buf).
Qed.

(** Two tests that agree give the same allocation. *)
Lemma first_eligible_ext skip1 skip2 ues v :
  (forall u buf, skip1 u buf = skip2 u buf) -> first_eligible skip1 ues v = first_eligible skip2 ues v.
Proof.
  intros E. induction v as [|[p buf] v IH]; [done|]. cbn. by rewrite IH; destruct (ues !! p); rewrite ?E.
Qed.

Lemma assign_loop_ext skip1 skip2 b remaining v ues :
  (forall u buf, skip1 u buf = skip2 u buf) ->
  assign_loop NumRbPerRbg skip1 b remaining v ues = assign_loop NumRbPerRbg skip2 b remaining v ues.
Proof.
  intros E. revert v ues. induction remaining as [|r remaining IH]; intros v ues; [done|]. cbn.
  rewrite (first_eligible_ext skip1 skip2) by done. destruct (first_eligible _ _ _); auto.
Qed.

(** ** Targets *)

(** The logical RBGs of a UE, over [b] symbols each. *)
Definition logical (b : Z) (u : UeInfoUl) : Z := Z.of_nat (length u.(m_ulRBG)) / b.

Definition within_target (targets : gmap Z Z) (b : Z) (u : UeInfoUl) : Prop :=
  match targets !! u.(m_rnti) with Some t => logical b u <= t | None => True end.

Lemma within_target_step targets b r u buf :
  0 <= b -> skip_target targets b u buf = false -> within_target targets b u ->
  within_target targets b (assign_rbg NumRbPerRbg r b u).
Proof.
  intros Hb S W. unfold skip_target, HasReachedUlTarget in S.
  apply orb_false_iff in S as [_ S]. destruct (Z.eqb_spec b 0) as [E|E]; [done|].
  unfold within_target, logical in *. rewrite assign_rbg_rnti, assign_rbg_RBG.
  destruct (targets !! m_rnti u) as [t|]; [|done].
  rewrite length_app, length_replicate, Nat2Z.inj_add, Z2Nat.id by lia.
  replace (Z.of_nat (length (m_ulRBG u)) + b) with (Z.of_nat (length (m_ulRBG u)) + 1 * b) by lia.
  rewrite Z.div_add by lia. zlia.
Qed.

End facts.

(** ** Counting *)

Definition sum_over {A} (f : A -> Z) (l : list A) : Z := foldr (fun a n => f a + n) 0 l.

Lemma sum_over_cons {A} (f : A -> Z) a l : sum_over f (a :: l) = f a + sum_over f l.
Proof. done. Qed.

#[local] Arguments sum_over : simpl never.

Lemma sum_over_le {A} (f g : A -> Z) l :
  (forall a, a ∈ l -> f a <= g a) -> sum_over f l <= sum_over g l.
Proof.
  induction l as [|a l IH]; intros L; [done|]. rewrite !sum_over_cons.
  pose proof (L a ltac:(by left)). assert (sum_over f l <= sum_over g l); [|lia].
  apply IH. intros b Hb. apply L. by right.
Qed.

(** Terms that are at most others with the same sum are equal to them. *)
Lemma sum_over_tight {A} (f g : A -> Z) l :
  (forall a, a ∈ l -> f a <= g a) -> sum_over g l <= sum_over f l -> forall a, a ∈ l -> f a = g a.
Proof.
  induction l as [|a l IH]; intros L S b Hb; [by apply elem_of_nil in Hb|].
  rewrite !sum_over_cons in S. pose proof (L a ltac:(by left)) as La.
  pose proof (sum_over_le f g l (fun b Hb => L b (list_elem_of_further _ _ _ Hb))) as Ll.
  apply elem_of_cons in Hb as [->|Hb]; [lia|].
  apply IH; [|lia|done]. intros c Hc. apply L. by right.
Qed.

Lemma sum_over_ext {A} (f g : A -> Z) l : (forall a, a ∈ l -> f a = g a) -> sum_over f l = sum_over g l.
Proof.
  induction l as [|a l IH]; intros E; [done|]. rewrite !sum_over_cons, (E a) by (by left). f_equal.
  apply IH. intros b Hb. apply E. by right.
Qed.

Lemma sum_count owners (l : list nat) :
  NoDup l -> Forall (fun o => o.2 ∈ l) owners ->
  sum_over (count_of owners) l = Z.of_nat (length owners).
Proof.
  intros N. induction owners as [|[r p] owners IH]; intros F.
  - clear. induction l as [|p l IH]; [done|]. by rewrite sum_over_cons, IH.
  - apply Forall_cons in F as [F1 F2]. cbn [snd] in F1. cbn [length]. rewrite Nat2Z.inj_succ, <- IH by done.
    clear - N F1. induction l as [|q l IH]; [by apply elem_of_nil in F1|].
    apply NoDup_cons in N as [N1 N2]. rewrite !sum_over_cons.
    assert (count_of ((r, p) :: owners) q = count_of owners q + if decide (p = q) then 1 else 0) as ->.
    { unfold count_of. rewrite filter_cons. cbn [snd]. case_decide; cbn [length]; lia. }
    destruct (decide (p = q)) as [->|D].
    + rewrite (sum_over_ext (count_of ((r, q) :: owners)) (count_of owners)); [lia|].
      intros x Hx. unfold count_of. rewrite filter_cons_False; [done|]. cbn. intros ->. done.
    + apply elem_of_cons in F1 as [F1|F1]; [by subst|]. rewrite IH by done. lia.
Qed.
