(* ===== verification/UlProps.v ===== *)
(** The properties of the uplink scheduler. *)
From Stdlib Require Import ZArith Lia Sorting.Sorted.
From stdpp Require Import base list gmap strings list_numbers sets.
From coqutil Require Import Datatypes.RecordSettersUsingExistingGetters.
From S2P Require Import Prelude OrdMap Messages UlScheduler UlFacts.
Open Scope Z_scope.

Section props.
Context `{NrAmc} (NumRbPerRbg : Z) {BeamId : Type} `{EqDecision BeamId}.
Implicit Types (activeUl : list (BeamId * list (nat * Z))) (ues : gmap nat UeInfoUl).

(** The pointers of the active UEs, beam by beam *)
Definition active_ptrs activeUl : list nat := concat ((fun el => el.2.*1) <$> activeUl).

(** Every active UE is in the store, in one beam only, with nothing assigned yet. *)
Definition slot_start activeUl ues : Prop :=
  NoDup (active_ptrs activeUl) /\
  map_Forall (fun _ u => u.(m_ulRBG) = []) ues /\
  Forall (fun p => is_Some (ues !! p)) (active_ptrs activeUl).

Lemma beam_at_snoc (m : list (BeamId * Z)) b c n :
  beam_at b (m ++ [(c, n)])
  = match beam_at b m with Some v => Some v | None => if decide (c = b) then Some n else None end.
Proof. induction m as [|[d v] m IH]; [done|]. cbn. rewrite IH. by destruct (decide (d = b)). Qed.

Lemma GetSymPerBeam_keep (policy : list (BeamId * Z)) activeUl b n :
  beam_at b policy = Some n -> beam_at b (GetSymPerBeam policy activeUl) = Some n.
Proof.
  unfold GetSymPerBeam. revert policy. induction activeUl as [|e l IH]; intros policy E; [done|].
  cbn. apply IH. destruct (beam_at e.1 policy); [done|]. by rewrite beam_at_snoc, E.
Qed.

Lemma GetSymPerBeam_active (policy : list (BeamId * Z)) activeUl b :
  b ∈ activeUl.*1 -> is_Some (beam_at b (GetSymPerBeam policy activeUl)).
Proof.
  revert policy. induction activeUl as [|e l IH]; intros policy; [by intros ?%elem_of_nil|].
  cbn [fmap list_fmap]. intros [->|Hb]%elem_of_cons; [|by apply IH].
  unfold GetSymPerBeam. cbn. destruct (beam_at e.1 policy) as [n|] eqn:E.
  - eexists. by apply GetSymPerBeam_keep.
  - eexists. apply (GetSymPerBeam_keep _ l _ 0). by rewrite beam_at_snoc, E, decide_True.
Qed.

Lemma GetSymPerBeam_nonneg (policy : list (BeamId * Z)) activeUl b n :
  Forall (fun e => 0 <= e.2) policy -> beam_at b (GetSymPerBeam policy activeUl) = Some n -> 0 <= n.
Proof.
  unfold GetSymPerBeam. revert policy. induction activeUl as [|e l IH]; intros policy F E; cbn in E.
  - induction policy as [|[c v] policy IH]; cbn in E; [done|]. apply Forall_cons in F as [F1 F2].
    case_decide; [by simplify_eq|auto].
  - apply IH in E; [done|]. destruct (beam_at e.1 policy); [done|].
    apply Forall_app. split; [done|]. by repeat constructor.
Qed.

Lemma assign_beam_eq skip bitmask b v ues :
  existsb id bitmask = true ->
  assign_beam NumRbPerRbg skip bitmask b v ues
  = Ok (assign_loop NumRbPerRbg (skip b) b (remaining_rbgs bitmask) v ues).
Proof.
  intros X. unfold assign_beam. rewrite bool_decide_false; [done|]. by apply remaining_nonempty.
Qed.

(** Each beam works on UEs the other beams leave alone. *)
Lemma beams_fold skip bitmask (spb : list (BeamId * Z)) activeUl ues :
  existsb id bitmask = true ->
  (forall b, b ∈ activeUl.*1 -> is_Some (beam_at b spb)) ->
  NoDup (active_ptrs activeUl) ->
  exists ues',
    res_fold (fun el ues =>
      match beam_at el.1 spb with
      | None => Abort "std::out_of_range"
      | Some beamSym => assign_beam NumRbPerRbg skip bitmask beamSym el.2 ues
      end) activeUl ues = Ok ues' /\
    (forall p, p ∉ active_ptrs activeUl -> ues' !! p = ues !! p) /\
    (forall b v n, (b, v) ∈ activeUl -> beam_at b spb = Some n ->
       exists ues1, (forall p, p ∈ v.*1 -> ues1 !! p = ues !! p) /\
         forall p, p ∈ v.*1 ->
           ues' !! p = assign_loop NumRbPerRbg (skip n) n (remaining_rbgs bitmask) v ues1 !! p).
Proof.
  intros X. revert ues. induction activeUl as [|[b v] l IH]; intros ues S N.
  - exists ues. split_and!; [done|done|]. by intros b v n ?%elem_of_nil.
  - unfold active_ptrs in *. cbn [fmap list_fmap concat fst snd] in *.
    apply NoDup_app in N as (N1 & N2 & N3).
    destruct (S b) as [n Hn]; [by left|]. cbn [res_fold fst snd]. rewrite Hn, assign_beam_eq by done.
    cbn [res_bind].
    set (ues1 := assign_loop _ _ _ _ v ues).
    destruct (IH ues1) as (ues' & -> & F & B); [intros c Hc; apply S; by right|done|].
    exists ues'. split_and!; [done| |].
    + intros p Hp. rewrite F by set_solver. apply assign_loop_other. set_solver.
    + intros c u m [Hc|Hc]%elem_of_cons Hm.
      * injection Hc as -> ->. rewrite Hn in Hm. injection Hm as ->.
        exists ues. split; [done|]. intros p Hp. apply F. by apply N2.
      * destruct (B c u m Hc Hm) as (ues2 & E1 & E2). exists ues2. split; [|done].
        intros p Hp. rewrite E1 by done. apply assign_loop_other. intros Hv. apply (N2 p Hv).
        apply list_elem_of_In, in_concat. exists u.*1. split; apply list_elem_of_In; [|done].
        apply list_elem_of_fmap. by exists (c, u).
Qed.

(** at the end of a slot no UE has more logical RBGs than its uplink target, whatever the
    buffers, the transport block sizes, the beams and the masks. *)
Theorem target_respected targets bitmask policy activeUl ues :
  existsb id bitmask = true -> slot_start activeUl ues ->
  map_Forall (fun _ t => 0 <= t) targets -> Forall (fun e => 0 <= e.2) policy ->
  exists spb ues',
    AssignULRBG_target NumRbPerRbg targets bitmask policy activeUl ues = Ok (spb, ues') /\
    forall b v n p u t, (b, v) ∈ activeUl -> beam_at b spb = Some n -> p ∈ v.*1 ->
      ues' !! p = Some u -> targets !! u.(m_rnti) = Some t -> logical n u <= t.
Proof.
  intros X (N & Z & _) T P. unfold AssignULRBG_target, AssignULRBG.
  set (spb := GetSymPerBeam policy activeUl).
  destruct (beams_fold (skip_target targets) bitmask spb activeUl ues X) as (ues' & -> & _ & B);
    [by apply GetSymPerBeam_active|done|].
  exists spb, ues'. split; [done|]. intros b v n p u t Hv Hn Hp Hu Ht.
  destruct (B b v n Hv Hn) as (ues1 & E1 & E2). rewrite E2 in Hu by done.
  pose proof (GetSymPerBeam_nonneg _ _ _ _ P Hn) as Hn0.
  revert Hu Ht. assert (all_of v (within_target targets n)
    (assign_loop NumRbPerRbg (skip_target targets n) n (remaining_rbgs bitmask) v ues1)) as W.
  { apply assign_loop_bound.
    - intros r x buf _ S I. by eapply within_target_step.
    - intros q x Hq Hx. rewrite E1 in Hx by done. apply Z in Hx. unfold within_target, logical.
      rewrite Hx. destruct (targets !! m_rnti x) as [t'|] eqn:Et; [|done].
      cbn [length]. rewrite Zdiv_0_l. by apply T in Et. }
  intros Hu Ht. specialize (W p u Hp Hu). unfold within_target in W. by rewrite Ht in W.
Qed.

(** within a beam no RBG is given to two UEs, and only RBGs the bitmask leaves available
    are given. *)
Theorem rbg_exclusive skip bitmask policy activeUl ues :
  existsb id bitmask = true -> slot_start activeUl ues ->
  exists spb ues',
    AssignULRBG NumRbPerRbg skip bitmask policy activeUl ues = Ok (spb, ues') /\
    forall b v p q u x r, (b, v) ∈ activeUl -> p ∈ v.*1 -> q ∈ v.*1 ->
      ues' !! p = Some u -> ues' !! q = Some x -> r ∈ u.(m_ulRBG) ->
      bitmask !! Z.to_nat r = Some true /\ (r ∈ x.(m_ulRBG) -> p = q).
Proof.
  intros X (N & Z & A). unfold AssignULRBG. set (spb := GetSymPerBeam policy activeUl).
  destruct (beams_fold skip bitmask spb activeUl ues X) as (ues' & -> & _ & B);
    [by apply GetSymPerBeam_active|done|].
  exists spb, ues'. split; [done|]. intros b v p q u x r Hv Hp Hq Hu Hx Hr.
  destruct (GetSymPerBeam_active policy activeUl b) as [n Hn].
  { apply list_elem_of_fmap. by exists (b, v). }
  destruct (B b v n Hv Hn) as (ues1 & E1 & E2). rewrite E2 in Hu, Hx by done.
  assert (forall p, p ∈ v.*1 -> is_Some (ues1 !! p)) as Live.
  { intros p' Hp'. rewrite E1 by done. rewrite Forall_forall in A. apply A.
    apply list_elem_of_In, in_concat. exists v.*1. split; apply list_elem_of_In; [|done].
    apply list_elem_of_fmap. by exists (b, v). }
  destruct (assign_loop_owners NumRbPerRbg (skip n) n (remaining_rbgs bitmask) v ues1)
    as (owners & O1 & _ & O3 & _).
  { apply Forall_forall. intros e He. apply Live. by apply list_elem_of_fmap_2. }
  assert (forall p u, p ∈ v.*1 -> assign_loop NumRbPerRbg (skip n) n (remaining_rbgs bitmask) v ues1 !! p = Some u ->
    m_ulRBG u = share_of n owners p) as Sh.
  { intros p' u' Hp' Hu'. specialize (O3 p'). rewrite Hu' in O3. destruct (Live p' Hp') as [y Hy].
    rewrite Hy in O3. cbn in O3. injection O3 as _ ->. rewrite E1 in Hy by done. apply Z in Hy.
    by rewrite Hy. }
  rewrite (Sh p u Hp Hu) in Hr. apply share_elem in Hr as Hr'.
  assert (r ∈ remaining_rbgs bitmask) as Hrem.
  { destruct O1 as [k ->]. apply elem_of_app. left. apply list_elem_of_fmap. by exists (r, p). }
  split; [by apply remaining_elem in Hrem as [_ ?]|].
  rewrite (Sh q x Hq Hx). intros Hr2%share_elem.
  assert (NoDup owners.*1) as No.
  { pose proof (remaining_NoDup bitmask) as NR. destruct O1 as [k Ek]. rewrite Ek in NR.
    by apply NoDup_app in NR as [? _]. }
  apply (smap_elem_lookup r p) in Hr'; [|done]. apply (smap_elem_lookup r q) in Hr2; [|done].
  congruence.
Qed.

(** without targets the class allocates as the base OFDMA class in every beam that has
    symbols. *)
Theorem no_targets_base bitmask policy activeUl ues :
  (forall b n, b ∈ activeUl.*1 -> beam_at b (GetSymPerBeam policy activeUl) = Some n -> n <> 0) ->
  AssignULRBG_target NumRbPerRbg ∅ bitmask policy activeUl ues
  = AssignULRBG_base NumRbPerRbg bitmask policy activeUl ues.
Proof.
  intros S. unfold AssignULRBG_target, AssignULRBG_base, AssignULRBG.
  set (spb := GetSymPerBeam policy activeUl) in *. f_equal.
  revert S. generalize spb. clear spb. intros spb S. revert ues.
  induction activeUl as [|[b v] l IH]; intros ues; [done|]. cbn [res_fold fst snd].
  destruct (beam_at b spb) as [n|] eqn:En; [|done].
  assert (n <> 0) as Hn by (apply (S b n); [by left|done]).
  assert (assign_beam NumRbPerRbg (skip_target ∅) bitmask n v ues
          = assign_beam NumRbPerRbg (fun _ => skip_base) bitmask n v ues) as ->.
  { unfold assign_beam. destruct (bool_decide _); [done|]. cbn [abort_if res_bind]. f_equal.
    apply assign_loop_ext. intros u buf. unfold skip_target, skip_base, HasReachedUlTarget.
    rewrite (proj2 (Z.eqb_neq n 0)) by done. rewrite lookup_empty. apply orb_false_r. }
  destruct (assign_beam _ _ _ _ _ _); [|done]. cbn [res_bind].
  apply IH. intros c m Hc. apply S. by right.
Qed.

End props.

(** The target of a UE, 0 when it has none *)
Definition target_of (targets : gmap Z Z) (ues : gmap nat UeInfoUl) (p : nat) : Z :=
  match ues !! p with Some u => default 0 (targets !! u.(m_rnti)) | None => 0 end.

(** Every UE reaches its target when the targets fit and no buffer is covered. *)
Lemma exact_targets `{NrAmc} NumRbPerRbg targets bitmask n v ues big :
  0 < n -> NoDup v.*1 ->
  (forall mcs rank nprb, CalculateTbSize mcs rank nprb < big) ->
  Forall (fun buf => 0 < big <= buf) v.*2 ->
  (forall p, p ∈ v.*1 -> exists u t, ues !! p = Some u /\ u.(m_ulRBG) = [] /\ u.(m_ulTbSize) = 0 /\
     targets !! u.(m_rnti) = Some t /\ 0 <= t) ->
  existsb id bitmask = true ->
  sum_over (target_of targets ues) v.*1 <= Z.of_nat (length (remaining_rbgs bitmask)) ->
  exists ues', assign_beam NumRbPerRbg (skip_target targets) bitmask n v ues = Ok ues' /\
    forall p u, p ∈ v.*1 -> ues' !! p = Some u -> logical n u = target_of targets ues p.
Proof.
  intros Hn N Tb Bufs U X S. rewrite assign_beam_eq by done. eexists. split; [done|].
  set (ues' := assign_loop _ _ _ _ _ _).
  destruct (assign_loop_owners NumRbPerRbg (skip_target targets n) n (remaining_rbgs bitmask) v ues)
    as (owners & O1 & O2 & O3 & O4).
  { apply Forall_forall. intros e He. destruct (U e.1) as (u & t & Hu & _); [by apply list_elem_of_fmap_2|].
    by eexists. }
  fold ues' in O3, O4.
  assert (forall p, p ∈ v.*1 -> exists u, ues' !! p = Some u /\ logical n u = count_of owners p /\
    m_rnti u ∈ dom targets /\ target_of targets ues p = default 0 (targets !! m_rnti u)) as Fin.
  { intros p Hp. destruct (U p Hp) as (u & t & Hu & E1 & _ & E2 & _). specialize (O3 p).
    rewrite Hu in O3. cbn in O3. destruct (ues' !! p) as [u'|]; [|done]. injection O3 as Er Eg.
    exists u'. split; [done|]. rewrite E1 in Eg. cbn in Eg. unfold logical, target_of.
    rewrite Eg, Hu, Er, share_length by lia. rewrite Z.div_mul by lia. split_and!; [done|..|done].
    by eapply elem_of_dom_2. }
  assert (all_of v (within_target targets n) ues') as W.
  { apply assign_loop_bound.
    - intros r x buf _ Sk I. eapply (within_target_step NumRbPerRbg targets n r x buf); [lia|done|done].
    - intros q x Hq Hx. destruct (U q Hq) as (u & t & Hu & E1 & _ & E2 & Ht).
      rewrite Hx in Hu. injection Hu as ->. unfold within_target, logical. rewrite E1, E2.
      cbn [length]. rewrite Zdiv_0_l. done. }
  assert (forall p, p ∈ v.*1 -> count_of owners p <= target_of targets ues p) as Le.
  { intros p Hp. destruct (Fin p Hp) as (u & Hu & <- & Hd & ->). specialize (W p u Hp Hu).
    unfold within_target in W. apply elem_of_dom in Hd as [t Ht]. rewrite Ht in *. done. }
  intros p u Hp Hu. destruct (Fin p Hp) as (u0 & Hu0 & E & Hd & Et). rewrite Hu in Hu0.
  injection Hu0 as <-. rewrite E. destruct O4 as [O4|O4].
  - apply (sum_over_tight _ (target_of targets ues) v.*1); [done| |done].
    rewrite sum_count by done. rewrite <- O4, length_fmap in S. exact S.
  - apply list_elem_of_fmap in Hp as ([p' buf] & -> & Hv). cbn [fst] in *.
    specialize (O4 p' buf u Hv Hu). unfold skip_target in O4. apply orb_true_iff in O4 as [O4|O4].
    + exfalso. assert (all_of v (fun u => m_ulTbSize u < big) ues') as Big.
      { apply assign_loop_bound.
        - intros r x b Hb _ _. cbn. destruct (m_ulRBG x ++ _); [|apply Tb].
          rewrite Forall_forall in Bufs. apply (Bufs _ Hb).
        - intros q x Hq Hx. destruct (U q Hq) as (y & t & Hy & _ & E0 & _).
          rewrite Hx in Hy. injection Hy as ->. rewrite E0.
          apply list_elem_of_fmap in Hq as ([q' b] & -> & Hq).
          rewrite Forall_forall in Bufs. specialize (Bufs b (list_elem_of_fmap_2 snd _ _ Hq)). cbn in Bufs. lia. }
      specialize (Big p' u (list_elem_of_fmap_2 fst _ _ Hv) Hu). cbn in Big.
      rewrite Forall_forall in Bufs. specialize (Bufs buf (list_elem_of_fmap_2 snd _ _ Hv)).
      cbn in Bufs. unfold covered in O4. zlia.
    + unfold HasReachedUlTarget in O4. rewrite (proj2 (Z.eqb_neq n 0)) in O4 by lia.
      specialize (Le p' (list_elem_of_fmap_2 fst _ _ Hv)). rewrite Et in *.
      unfold logical in E. apply elem_of_dom in Hd as [t Ht]. rewrite Ht in *. cbn in *. zlia.
Qed.

(** when every UE of a beam has a target, the targets fit into the available RBGs and no
    buffer is covered, every UE is given exactly its target. *)
Theorem targets_met `{NrAmc} NumRbPerRbg targets bitmask n v ues big :
  0 < n -> NoDup v.*1 ->
  (forall mcs rank nprb, CalculateTbSize mcs rank nprb < big) ->
  Forall (fun buf => 0 < big <= buf) v.*2 ->
  (forall p, p ∈ v.*1 -> exists u t, ues !! p = Some u /\ u.(m_ulRBG) = [] /\ u.(m_ulTbSize) = 0 /\
     targets !! u.(m_rnti) = Some t /\ 0 <= t) ->
  existsb id bitmask = true ->
  sum_over (target_of targets ues) v.*1 <= Z.of_nat (length (remaining_rbgs bitmask)) ->
  exists ues', assign_beam NumRbPerRbg (skip_target targets) bitmask n v ues = Ok ues' /\
    forall p u, p ∈ v.*1 -> ues' !! p = Some u -> logical n u = target_of targets ues p.
Proof. apply exact_targets. Qed.

(** ** Witnesses *)

(** A modulation that carries 30 bytes per RBG *)
Definition toy_amc : NrAmc := {| CalculateTbSize := fun _ _ nprb => Z.min (30 * nprb) 4000 |}.

(** Two beams: UE 0 (RNTI 1) and UE 1 (RNTI 2) in beam 0, UE 2 (RNTI 3) in beam 1. *)
Definition toy_ues : gmap nat UeInfoUl :=
  <[0%nat := mkUeUl 1 [] [] 0 9 1]> (<[1%nat := mkUeUl 2 [] [] 0 9 1]> {[2%nat := mkUeUl 3 [] [] 0 9 1]}).
Definition toy_active : list (Z * list (nat * Z)) := [(0, [(0%nat, 5000); (1%nat, 5000)]); (1, [(2%nat, 5000)])].
Definition toy_targets : gmap Z Z := <[1 := 2]> (<[2 := 1]> {[3 := 7]}).

Lemma toy_start : slot_start toy_active toy_ues.
Proof.
  split_and!.
  - vm_compute. repeat constructor; set_solver.
  - apply (bool_decide_unpack _). vm_compute. done.
  - vm_compute. repeat constructor; by eexists.
Qed.

Theorem target_respected_witness :
  exists spb ues',
    @AssignULRBG_target toy_amc Z _ 1 toy_targets [true; false; true; true; true] [(0, 2)] toy_active toy_ues
      = Ok (spb, ues') /\
    forall b v n p u t, (b, v) ∈ toy_active -> beam_at b spb = Some n -> p ∈ v.*1 ->
      ues' !! p = Some u -> toy_targets !! u.(m_rnti) = Some t -> logical n u <= t.
Proof.
  apply (@target_respected toy_amc 1 Z _ toy_targets _ [(0, 2)] toy_active toy_ues);
    [done|apply toy_start|apply (bool_decide_unpack _); vm_compute; done|repeat constructor; done].
Defined.

Theorem rbg_exclusive_witness :
  exists spb ues',
    @AssignULRBG Z _ toy_amc 1 (skip_target toy_targets) [true; false; true; true; true] [(0, 2)] toy_active toy_ues
      = Ok (spb, ues') /\
    forall b v p q u x r, (b, v) ∈ toy_active -> p ∈ v.*1 -> q ∈ v.*1 ->
      ues' !! p = Some u -> ues' !! q = Some x -> r ∈ u.(m_ulRBG) ->
      [true; false; true; true; true] !! Z.to_nat r = Some true /\ (r ∈ x.(m_ulRBG) -> p = q).
Proof.
  apply (@rbg_exclusive toy_amc 1 Z _ (skip_target toy_targets) _ [(0, 2)] toy_active toy_ues);
    [done|apply toy_start].
Defined.

Theorem no_targets_base_witness :
  @AssignULRBG_target toy_amc Z _ 1 ∅ [true; true; true] [(0, 2); (1, 1)] toy_active toy_ues
  = @AssignULRBG_base toy_amc Z _ 1 [true; true; true] [(0, 2); (1, 1)] toy_active toy_ues.
Proof.
  apply (@no_targets_base toy_amc 1 Z _ _ [(0, 2); (1, 1)] toy_active toy_ues).
  intros b n [->|[->|[]%elem_of_nil]%elem_of_cons]%elem_of_cons; vm_compute; congruence.
Defined.

Theorem targets_met_witness :
  exists ues', @assign_beam toy_amc 1 (skip_target toy_targets) [true; true; true; true] 2
      [(0%nat, 5000); (1%nat, 5000)] toy_ues = Ok ues' /\
    forall p u, p ∈ [0%nat; 1%nat] -> ues' !! p = Some u -> logical 2 u = target_of toy_targets toy_ues p.
Proof.
  apply (@targets_met toy_amc 1 toy_targets _ 2 [(0%nat, 5000); (1%nat, 5000)] toy_ues 4001).
  - done.
  - repeat constructor; set_solver.
  - intros mcs rank nprb. cbn. lia.
  - repeat constructor; done.
  - cbn. intros p [->|[->|[]%elem_of_nil]%elem_of_cons]%elem_of_cons; do 2 eexists; by vm_compute.
  - done.
  - vm_compute. done.
Defined.
