(* ===== verification/DlScheduler.v ===== *)
(** The downlink allocation: AssignDLRBG of src/nr/model/nr-mac-scheduler-ofdma.cc with the
    round-robin policy of nr-mac-scheduler-ofdma-rr.cc, and the DCIs made from it.

    A beam is allocated on a state of its own ([DlState]): the UEs, the set of RBGs left, what
    is assigned, and the round-robin queue, which is a mutable member and stays for the next
    beam and the next slot.  BeforeDlSched and NotAssignedDlResources are empty in the
    round-robin class.  There is no fronthaul control (m_nrFhSchedSapProvider is null unless a
    scenario installs one) and no gym agent (m_activeDlAi is false).

    [compared] is the order in which std::stable_sort first hands the UEs to the comparison,
    which has the side effect of queueing UEs it has not seen. *)
From Stdlib Require Import ZArith Lia SpecFloat.
From stdpp Require Import base list gmap strings list_numbers sets.
From coqutil Require Import Datatypes.RecordSettersUsingExistingGetters.
From S2P Require Import Prelude OrdMap Messages UlScheduler Amc DlUe.
Open Scope Z_scope.

(** The order of the first comparisons of std::stable_sort on these RNTIs *)
Class CppStableSort := { compared : list Z -> list Z }.

(** ** std::set<uint32_t> as the increasing list of its elements *)

Fixpoint set_emplace (r : Z) (l : list Z) : list Z :=
  match l with
  | [] => [r]
  | r' :: l' => if r <? r' then r :: l else if r =? r' then l else r' :: set_emplace r l'
  end.

Definition set_erase (r : Z) (l : list Z) : list Z := filter (fun r' => r' <> r) l.

(** ** The state of a beam *)

(** FTResources is (m_rbg, m_sym). *)
Record DlState := mkDlState {
  d_ues : gmap nat UeInfoDl;
  remainingRbgSet : list Z;
  m_rbg : Z;
  m_sym : Z;
  availableRbgs : list bool;
  m_dlRrRntiDeque : list Z;
  m_dlRntiSet : gset Z
}.

Definition get_ue (p : nat) (s : DlState) : res UeInfoDl :=
  match s.(d_ues) !! p with Some ue => Ok ue | None => Abort "null UE" end.

Definition set_ue (p : nat) (ue : UeInfoDl) (s : DlState) : DlState := s <| d_ues ::= <[p := ue]> |>.

(** availableRbgs.at (rbg) = b *)
Definition set_available (rbg : Z) (b : bool) (s : DlState) : res DlState :=
  let* _ := vec_at s.(availableRbgs) rbg in
  Ok (s <| availableRbgs ::= <[Z.to_nat rbg := b]> |>).

(** NrMacSchedulerOfdma::AllocateCurrentResourceToUe *)
Definition AllocateCurrentResourceToUe (p : nat) (currentRbg beamSym : Z) (s : DlState) : res DlState :=
  let* currentUe := get_ue p s in
  let currentUe := currentUe
    <| m_dlRBG ::= fun l => l ++ replicate (Z.to_nat beamSym) (u16 currentRbg) |>
    <| m_dlSym ::= fun l => l ++ (u8 <$> seqZ 0 beamSym) |> in
  let s := set_ue p currentUe s in
  let s := s <| m_rbg ::= fun n => u32 (n + 1) |> <| m_sym := beamSym |> in
  set_available currentRbg false s.

(** NrMacSchedulerOfdma::DeallocateCurrentResourceFromUe *)
Definition DeallocateCurrentResourceFromUe (p : nat) (currentRbg beamSym : Z) (s : DlState) : res DlState :=
  let* currentUe := get_ue p s in
  let rbgs := Z.of_nat (length currentUe.(m_dlRBG)) - beamSym in
  let syms := Z.of_nat (length currentUe.(m_dlSym)) - beamSym in
  let* _ := abort_if ((rbgs <? 0) || (syms <? 0)) "std::length_error" in
  let currentUe := currentUe
    <| m_dlRBG ::= take (Z.to_nat rbgs) |> <| m_dlSym ::= take (Z.to_nat syms) |> in
  let s := set_ue p currentUe s in
  let* _ := abort_if (s.(m_rbg) <=? 0) "Should have more than 0 resources allocated before deallocating" in
  let s := s <| m_rbg ::= fun n => n - 1 |> in
  let s := s <| m_sym ::= fun n => if s.(m_rbg) =? 0 then 0 else n |> in
  set_available currentRbg true s.

(** ** The round-robin policy *)

(** deque::erase (std::find (rnti)) *)
Fixpoint deque_erase (rnti : Z) (l : list Z) : list Z :=
  match l with
  | [] => []
  | r :: l => if r =? rnti then l else r :: deque_erase rnti l
  end.

(** A UE that is not known joins the queue at the front. *)
Definition meet (rnti : Z) (s : DlState) : DlState :=
  if decide (rnti ∈ s.(m_dlRntiSet)) then s
  else s <| m_dlRntiSet ::= fun known => {[rnti]} ∪ known |> <| m_dlRrRntiDeque ::= cons rnti |>.

(** The position in the queue, its length when it is not there *)
Fixpoint position (rnti : Z) (l : list Z) : Z :=
  match l with
  | [] => 0
  | r :: l => if r =? rnti then 0 else 1 + position rnti l
  end.

Definition rnti_at (s : DlState) (ue : nat * Z) : Z :=
  match s.(d_ues) !! ue.1 with Some u => u.(dl_rnti) | None => 0 end.

(** SortUeVector with NrMacSchedulerOfdmaRR::GetUeCompareDlFn: once both UEs are in the queue
    the comparison is that of their positions, and a UE that joins in front changes the order
    of no two others. *)
Definition SortUeVectorDl `{CppStableSort} (v : list (nat * Z)) (s : DlState) : list (nat * Z) * DlState :=
  if (length v <? 2)%nat then (v, s) else
  let s := foldl (fun s rnti => meet rnti s) s (compared (rnti_at s <$> v)) in
  (stable_sort (fun ue => position (rnti_at s ue) s.(m_dlRrRntiDeque)) v, s).

Section scheduler.
Context `{LibM} `{CppReduce} `{CppStableSort} `{StdSort}.
Context (NumRbPerRbg : Z) (m_mcsCsiSource : McsCsiSource) (amc : Amc).

(** NrMacSchedulerOfdmaRR::AssignedDlResources *)
Definition AssignedDlResources (p : nat) (s : DlState) : res DlState :=
  let* ue := get_ue p s in
  let oldTbSize := ue.(m_dlTbSize) in
  let* ue := UpdateDlMetric NumRbPerRbg amc ue in
  let newTbSize := ue.(m_dlTbSize) in
  let s := meet ue.(dl_rnti) (set_ue p ue s) in
  Ok (if oldTbSize <? newTbSize then
        s <| m_dlRrRntiDeque ::= fun q => deque_erase ue.(dl_rnti) q ++ [ue.(dl_rnti)] |>
      else if newTbSize <? oldTbSize then
        s <| m_dlRrRntiDeque ::= fun q => ue.(dl_rnti) :: deque_erase ue.(dl_rnti) q |>
      else s).

(** AdvanceToNextUeToSchedule skips a UE that has enough: m_dlTbSize >= std::max (bufQueueSize, 10U). *)
Definition dl_covered (ue : UeInfoDl) (bufQueueSize : Z) : bool := Z.max bufQueueSize 10 <=? ue.(m_dlTbSize).

(** The RBG of AttemptAllocationOfCurrentResourceToUe: the lowest one, or the first of the
    greatest CQI, unless that is lower than the CQI of the first RBG of the UE by more than 4. *)
Definition choose_rbg (ue : UeInfoDl) (remaining : list Z) : res (option Z) :=
  if bool_decide (m_mcsCsiSource = WIDEBAND_MCS) ||
     match ue.(m_dlSbMcsInfo) with [] => true | _ => false end
  then match remaining with [] => Abort "begin () of an empty set" | r :: _ => Ok (Some r) end
  else
    let* best := res_fold (fun resourcePos '(currentRbgPos, maxCqi) =>
        let* sb := sb_of ue resourcePos in
        Ok (if maxCqi <? sb.(sb_cqi) then (Some resourcePos, sb.(sb_cqi)) else (currentRbgPos, maxCqi)))
      remaining (None, 0) in
    let '(currentRbgPos, maxCqi) := best in
    match ue.(m_dlRBG) with
    | [] => Ok currentRbgPos
    | first :: _ =>
        let* sb := sb_of ue first in
        Ok (if maxCqi <? sb.(sb_cqi) - 4 then None else currentRbgPos)
    end.

(** NrMacSchedulerOfdma::AttemptAllocationOfCurrentResourceToUe *)
Definition AttemptAllocationOfCurrentResourceToUe (p : nat) (beamSym : Z) (s : DlState) : res (DlState * bool) :=
  let* currentUe := get_ue p s in
  let* choice := choose_rbg currentUe s.(remainingRbgSet) in
  match choice with
  | None => Ok (s, false)
  | Some currentRbgPos =>
      let* s := AllocateCurrentResourceToUe p currentRbgPos beamSym s in
      let previousTbSize := currentUe.(m_dlTbSize) in
      let* s := AssignedDlResources p s in
      let* currentUe := get_ue p s in
      let* bad :=
        if d_ltb (d_of_Z currentUe.(m_dlTbSize)) (d_mul (d_of_Z previousTbSize) (d_dec 99 2))
        then let* mcs := GetDlMcs amc currentUe in Ok (0 <? mcs)
        else Ok false in
      if bad : bool then
        let* s := DeallocateCurrentResourceFromUe p currentRbgPos beamSym s in
        let* s := AssignedDlResources p s in
        Ok (s, false)
      else Ok (s <| remainingRbgSet ::= set_erase currentRbgPos |>, true)
  end.

(** while (AdvanceToNextUeToSchedule (...)): the UEs of the vector in turn, until one takes an RBG *)
Fixpoint try_ues (beamSym : Z) (v : list (nat * Z)) (s : DlState) : res DlState :=
  match v with
  | [] => Ok s
  | (p, bufQueueSize) :: v =>
      let* ue := get_ue p s in
      if dl_covered ue bufQueueSize then try_ues beamSym v s else
      let* r := AttemptAllocationOfCurrentResourceToUe p beamSym s in
      let '(s, success) := r in
      if success : bool then Ok s else try_ues beamSym v s
  end.

(** while (!remainingRbgSet.empty ()); every iteration but the last takes an RBG. *)
Fixpoint fill (fuel : nat) (beamSym : Z) (v : list (nat * Z)) (s : DlState) : res (list (nat * Z) * DlState) :=
  match s.(remainingRbgSet) with
  | [] => Ok (v, s)
  | _ =>
      match fuel with
      | O => Abort "out of fuel"
      | S fuel =>
          let prevRemaining := length s.(remainingRbgSet) in
          let '(v, s) := SortUeVectorDl v s in
          let* s := try_ues beamSym v s in
          if (prevRemaining =? length s.(remainingRbgSet))%nat then Ok (v, s) else fill fuel beamSym v s
      end
  end.

(** while (!ue.first->m_dlRBG.empty ()): the RBGs of a UE go back to the set. *)
Fixpoint reap (fuel : nat) (p : nat) (beamSym : Z) (s : DlState) : res DlState :=
  let* ue := get_ue p s in
  match last ue.(m_dlRBG) with
  | None => Ok s
  | Some reapedRbg =>
      match fuel with
      | O => Abort "out of fuel"
      | S fuel =>
          let* s := DeallocateCurrentResourceFromUe p reapedRbg beamSym s in
          reap fuel p beamSym (s <| remainingRbgSet ::= set_emplace reapedRbg |>)
      end
  end.

Definition tb_size_at (s : DlState) (ue : nat * Z) : Z :=
  match s.(d_ues) !! ue.1 with Some u => u.(m_dlTbSize) | None => 0 end.

(** while (reapingResources): fill, then take everything from the UE with the smallest transport
    block when it is under 10 bytes, and start again without it. *)
Fixpoint reaping (fuel : nat) (beamSym : Z) (v : list (nat * Z)) (s : DlState) : res DlState :=
  match fuel with
  | O => Abort "out of fuel"
  | S fuel =>
      let* r := fill (length s.(remainingRbgSet)) beamSym v s in
      let '(v, s) := r in
      let v := sort_by_key (fun ue => - tb_size_at s ue) v in
      match last v with
      | None => Ok s
      | Some ue =>
          if tb_size_at s ue <? 10 then
            let* u := get_ue ue.1 s in
            let* s := reap (length u.(m_dlRBG)) ue.1 beamSym s in
            let* s := AssignedDlResources ue.1 s in
            reaping fuel beamSym (take (length v - 1) v) s
          else Ok s
      end
  end.

(** The members of the scheduler that AssignDLRBG changes: the UEs and the round-robin queue *)
Definition RrState : Type := gmap nat UeInfoDl * list Z * gset Z.

(** One beam *)
Definition assign_dl_beam (bitmask : list bool) (beamSym : Z) (v : list (nat * Z)) (rr : RrState) : res RrState :=
  let '(ues, deque, known) := rr in
  let remaining := remaining_rbgs bitmask in
  let* _ := abort_if (bool_decide (remaining = [])) "NS_ASSERT(!remainingRbgSet.empty())" in
  let* s := reaping (S (length v)) beamSym v (mkDlState ues remaining 0 0 bitmask deque known) in
  Ok (s.(d_ues), s.(m_dlRrRntiDeque), s.(m_dlRntiSet)).

(** NrMacSchedulerNs3::GetDlBitmask *)
Definition GetDlBitmask (bandwidthInRbg : nat) (notched : list bool) : list bool :=
  match notched with [] => replicate bandwidthInRbg true | _ => notched end.

(** NrMacSchedulerOfdma::AssignDLRBG *)
Definition AssignDLRBG {BeamId} `{EqDecision BeamId} (bitmask : list bool) (policy : list (BeamId * Z))
    (activeDl : list (BeamId * list (nat * Z))) (rr : RrState) : res (list (BeamId * Z) * RrState) :=
  let symPerBeam := GetSymPerBeam policy activeDl in
  let* rr := res_fold (fun el rr =>
      match beam_at el.1 symPerBeam with
      | None => Abort "std::out_of_range"
      | Some beamSym => assign_dl_beam bitmask beamSym el.2 rr
      end) activeDl rr in
  Ok (symPerBeam, rr).

End scheduler.
