(* ===== verification/DlFacts.v ===== *)
(** The downlink allocation: the state of a beam as a partition of the RBGs.

    [rep alloc s] says that a state of the code represents the abstract one in which UE [p] has
    the RBGs [alloc p]; every operation is an update of [alloc].  The loops end, and at the end
    every UE has an allocation worth sending or nothing. *)
From Stdlib Require Import ZArith Lia SpecFloat Sorting.Sorted.
From stdpp Require Import base list gmap strings list_numbers sets.
From coqutil Require Import Datatypes.RecordSettersUsingExistingGetters.
From S2P Require Import Prelude OrdMap Messages UlScheduler UlFacts Amc DlUe DlScheduler.
Open Scope Z_scope.
#[local] Arguments wrap : simpl never.

(** ** Sets of RBGs *)

Lemma set_emplace_fresh r l : r ∉ l -> set_emplace r l ≡ₚ r :: l.
Proof.
  induction l as [|r' l IH]; intros N; cbn [set_emplace]; [done|].
  destruct (Z.ltb_spec r r'); [done|]. destruct (Z.eqb_spec r r') as [->|]; [set_solver|].
  rewrite IH by set_solver. apply Permutation_swap.
Qed.

Lemma set_erase_perm r l : NoDup l -> r ∈ l -> l ≡ₚ r :: set_erase r l.
Proof.
  unfold set_erase. induction l as [|r' l IH]; intros N E; [by apply elem_of_nil in E|].
  apply NoDup_cons in N as [N1 N2]. rewrite filter_cons. destruct (decide (r' <> r)) as [D|D].
  - apply elem_of_cons in E as [->|E]; [done|]. rewrite (IH N2 E) at 1. apply Permutation_swap.
  - assert (r' = r) as -> by lia. rewrite filter_all; [done|]. apply Forall_forall. by intros x Hx ->.
Qed.

(** ** Functions of a list without repetitions *)

Definition upd (alloc : nat -> list Z) (p : nat) (l : list Z) : nat -> list Z :=
  fun q => if decide (q = p) then l else alloc q.

Lemma upd_eq alloc p l : upd alloc p l p = l.
Proof. unfold upd. by rewrite decide_True. Qed.

Lemma upd_ne alloc p l q : q <> p -> upd alloc p l q = alloc q.
Proof. intros. unfold upd. by rewrite decide_False. Qed.

Lemma upd_fmap alloc p l (ps : list nat) : p ∉ ps -> upd alloc p l <$> ps = alloc <$> ps.
Proof. intros N. apply list_fmap_ext. intros i q Hq. apply upd_ne. intros ->. by apply list_elem_of_lookup_2 in Hq. Qed.

Lemma concat_upd alloc p l (ps : list nat) :
  NoDup ps -> p ∈ ps -> exists rest, concat (alloc <$> ps) ≡ₚ alloc p ++ rest /\ concat (upd alloc p l <$> ps) ≡ₚ l ++ rest.
Proof.
  induction ps as [|q ps IH]; intros N E; [by apply elem_of_nil in E|]. apply NoDup_cons in N as [N1 N2].
  cbn [fmap list_fmap concat]. destruct (decide (q = p)) as [->|Ne].
  - exists (concat (alloc <$> ps)). rewrite upd_eq. fold (fmap (M := list) (upd alloc p l) ps).
    by rewrite upd_fmap.
  - apply elem_of_cons in E as [->|E]; [done|]. destruct (IH N2 E) as (rest & E1 & E2).
    exists (alloc q ++ rest). rewrite upd_ne by done. split.
    + change (alloc q ++ concat (alloc <$> ps) ≡ₚ alloc p ++ alloc q ++ rest). rewrite E1. solve_Permutation.
    + change (alloc q ++ concat (upd alloc p l <$> ps) ≡ₚ l ++ alloc q ++ rest). rewrite E2. solve_Permutation.
Qed.

Lemma concat_elem (alloc : nat -> list Z) p ps r : p ∈ ps -> r ∈ alloc p -> r ∈ concat (alloc <$> ps).
Proof.
  intros Hp Hr. apply list_elem_of_In, in_concat. exists (alloc p). split; apply list_elem_of_In; [|done].
  by apply list_elem_of_fmap_2.
Qed.

(** ** UEs with an allocation *)

Section place.
Context (b : Z).

Definition expand (l : list Z) : list Z := concat (replicate (Z.to_nat b) <$> l).
Definition expand_sym (l : list Z) : list Z := concat ((fun _ => u8 <$> seqZ 0 b) <$> l).

(** The UE [u] with the RBGs [l] over [b] symbols each and a transport block of [t] bytes *)
Definition place (u : UeInfoDl) (l : list Z) (t : Z) : UeInfoDl :=
  u <| m_dlRBG := expand l |> <| m_dlSym := expand_sym l |> <| m_dlTbSize := t |>.

Lemma expand_snoc l r : expand (l ++ [r]) = expand l ++ replicate (Z.to_nat b) r.
Proof. unfold expand. rewrite fmap_app, concat_app. cbn. by rewrite app_nil_r. Qed.

Lemma expand_sym_snoc l r : expand_sym (l ++ [r]) = expand_sym l ++ (u8 <$> seqZ 0 b).
Proof. unfold expand_sym. rewrite fmap_app, concat_app. cbn. by rewrite app_nil_r. Qed.

Lemma expand_length l : length (expand l) = (length l * Z.to_nat b)%nat.
Proof.
  unfold expand. induction l as [|r l IH]; [done|]. cbn [fmap list_fmap concat length].
  rewrite length_app, length_replicate. change (list_fmap _ _ _ l) with (replicate (Z.to_nat b) <$> l) in *.
  rewrite IH. lia.
Qed.

Lemma expand_sym_length l : length (expand_sym l) = (length l * Z.to_nat b)%nat.
Proof.
  unfold expand_sym. induction l as [|r l IH]; [done|]. cbn [fmap list_fmap concat length].
  rewrite length_app, length_fmap, length_seqZ.
  change (list_fmap _ _ _ l) with ((fun _ => u8 <$> seqZ 0 b) <$> l) in *. rewrite IH. lia.
Qed.

Lemma expand_elem l r : r ∈ expand l -> r ∈ l.
Proof.
  unfold expand. intros (k & Hk & Hr)%list_elem_of_In%in_concat. apply list_elem_of_In in Hk, Hr.
  apply list_elem_of_fmap in Hk as (r' & -> & Hr'). by apply elem_of_replicate in Hr as [-> _].
Qed.

Lemma elem_expand l r : 0 < b -> r ∈ l -> r ∈ expand l.
Proof.
  intros B Hr. unfold expand. apply list_elem_of_In, in_concat. exists (replicate (Z.to_nat b) r).
  split; apply list_elem_of_In; [by apply list_elem_of_fmap_2|]. apply elem_of_replicate. split; [done|lia].
Qed.

Lemma expand_nil l : 0 < b -> expand l = [] -> l = [].
Proof. intros B E%(f_equal length). rewrite expand_length in E. destruct l; [done|]. cbn in E. lia. Qed.

Lemma place_take u l r t :
  (place u (l ++ [r]) t) <| m_dlRBG ::= take (length l * Z.to_nat b) |>
                       <| m_dlSym ::= take (length l * Z.to_nat b) |> = place u l t.
Proof.
  transitivity (u <| m_dlRBG := take (length l * Z.to_nat b) (expand (l ++ [r])) |>
                  <| m_dlSym := take (length l * Z.to_nat b) (expand_sym (l ++ [r])) |> <| m_dlTbSize := t |>);
    [reflexivity|].
  rewrite expand_snoc, expand_sym_snoc.
  rewrite (take_app_length' (expand l)) by (symmetry; apply expand_length).
  by rewrite (take_app_length' (expand_sym l)) by (symmetry; apply expand_sym_length).
Qed.

End place.

(** ** The operations on a state that represents an allocation *)

Section beam.
Context `{LibM} `{CppReduce} `{CppStableSort} `{StdSort} `{!StdSortLaws}.
Context (NumRbPerRbg : Z) (m_mcsCsiSource : McsCsiSource) (amc : Amc).
Context (b : Z) (bitmask : list bool) (ptrs : list nat) (u0 : nat -> UeInfoDl) (ues0 : gmap nat UeInfoDl).

Abbreviation rem0 := (remaining_rbgs bitmask).

(** The transport block of UE [p] with the RBGs [l] *)
Definition tbs (p : nat) (l : list Z) : Z :=
  match UpdateDlMetric NumRbPerRbg amc (place b (u0 p) l 0) with Ok u => u.(m_dlTbSize) | Abort _ => 0 end.

(** What the allocation needs of the UEs: the sub-band of every RBG is known, and the transport
    block of every allocation can be computed. *)
Record beam_ok : Prop := {
  ok_b : 0 <= b;
  ok_ptrs : NoDup ptrs;
  ok_mask : Z.of_nat (length bitmask) <= 2 ^ 16;
  ok_sb : forall p r, p ∈ ptrs -> (u0 p).(m_dlSbMcsInfo) <> [] -> r ∈ rem0 -> is_ok (sb_of (u0 p) r) = true;
  ok_metric : forall p l, p ∈ ptrs -> NoDup l -> l ⊆ rem0 ->
    is_ok (UpdateDlMetric NumRbPerRbg amc (place b (u0 p) l 0)) = true
}.

Record rep (alloc : nat -> list Z) (s : DlState) : Prop := {
  rep_ues : forall p, p ∈ ptrs -> s.(d_ues) !! p = Some (place b (u0 p) (alloc p) (tbs p (alloc p)));
  rep_part : concat (alloc <$> ptrs) ++ s.(remainingRbgSet) ≡ₚ rem0;
  rep_rbg : s.(m_rbg) = Z.of_nat (length (concat (alloc <$> ptrs)));
  rep_len : length s.(availableRbgs) = length bitmask;
  rep_avail : forall i, (i < length bitmask)%nat ->
    s.(availableRbgs) !! i = Some (bool_decide (Z.of_nat i ∈ s.(remainingRbgSet)));
  rep_other : forall p, p ∉ ptrs -> s.(d_ues) !! p = ues0 !! p
}.

Hypothesis OK : beam_ok.

Lemma tbs_metric p l t :
  p ∈ ptrs -> NoDup l -> l ⊆ rem0 ->
  UpdateDlMetric NumRbPerRbg amc (place b (u0 p) l t) = Ok (place b (u0 p) l (tbs p l)).
Proof.
  intros Hp N S. pose proof (ok_metric OK p l Hp N S) as E. unfold tbs in *.
  unfold UpdateDlMetric in *. cbn [place m_dlRBG] in *.
  change (m_dlRBG (place b (u0 p) l t)) with (expand b l) in *.
  change (m_dlRBG (place b (u0 p) l 0)) with (expand b l) in *. destruct (expand b l) as [|x ex]; [done|].
  change (GetDlMcs amc (place b (u0 p) l t)) with (GetDlMcs amc (place b (u0 p) l 0)).
  destruct (GetDlMcs amc _) as [m|]; [|done]. cbn [res_bind] in *.
  change (m_dlRank (place b (u0 p) l t)) with (m_dlRank (place b (u0 p) l 0)).
  destruct (CalculateTbSize _ _ _ _) as [n|]; [|done]. done.
Qed.

Lemma tbs_nil p : tbs p [] = 0.
Proof. done. Qed.

Lemma rem0_NoDup : NoDup rem0.
Proof. apply remaining_NoDup. Qed.

Lemma rem0_range r : r ∈ rem0 -> 0 <= r < Z.of_nat (length bitmask) /\ u16 r = r.
Proof.
  intros Hr. apply remaining_elem in Hr as [R L]. apply lookup_lt_Some in L.
  pose proof (ok_mask OK). split; [lia|]. apply wrap_small. unfold fits. lia.
Qed.

Lemma rep_sub alloc s p : rep alloc s -> p ∈ ptrs -> NoDup (alloc p) /\ alloc p ⊆ rem0.
Proof.
  intros R Hp. destruct (concat_upd alloc p [] ptrs) as (rest & E & _); [apply OK|done|].
  pose proof (rep_part _ _ R) as P. rewrite E in P. split.
  - pose proof rem0_NoDup as N. rewrite <- P in N. by apply NoDup_app in N as [N _]; apply NoDup_app in N as [N _].
  - intros r Hr. rewrite <- P. set_solver.
Qed.

Lemma rep_rem alloc s : rep alloc s -> NoDup s.(remainingRbgSet) /\ s.(remainingRbgSet) ⊆ rem0.
Proof.
  intros R. pose proof (rep_part _ _ R) as P. split.
  - pose proof rem0_NoDup as N. rewrite <- P in N. by apply NoDup_app in N as (_ & _ & N).
  - intros r Hr. rewrite <- P. set_solver.
Qed.

Lemma rep_disj alloc s p r : rep alloc s -> p ∈ ptrs -> r ∈ s.(remainingRbgSet) -> r ∉ alloc p.
Proof.
  intros R Hp Hr Ha. pose proof (rep_part _ _ R) as P. pose proof rem0_NoDup as N. rewrite <- P in N.
  apply NoDup_app in N as (_ & N & _). apply (N r); [|done]. by eapply concat_elem.
Qed.

(** Changes of the queue are not seen by [rep]. *)
Lemma rep_rr alloc s q k :
  rep alloc s -> rep alloc (s <| m_dlRrRntiDeque := q |> <| m_dlRntiSet := k |>).
Proof. intros [R1 R2 R3 R4 R5 R6]. by split. Qed.

Lemma meet_eq rnti s : exists q k, meet rnti s = s <| m_dlRrRntiDeque := q |> <| m_dlRntiSet := k |>.
Proof.
  unfold meet. destruct (decide _).
  - exists (m_dlRrRntiDeque s), (m_dlRntiSet s). by destruct s.
  - do 2 eexists. by destruct s.
Qed.

(** AssignedDlResources brings the transport block of the UE up to date. *)
Lemma Assigned_eq p l t s :
  p ∈ ptrs -> NoDup l -> l ⊆ rem0 -> s.(d_ues) !! p = Some (place b (u0 p) l t) ->
  exists q k, AssignedDlResources NumRbPerRbg amc p s
    = Ok (s <| d_ues ::= <[p := place b (u0 p) l (tbs p l)]> |> <| m_dlRrRntiDeque := q |> <| m_dlRntiSet := k |>).
Proof.
  intros Hp N S E. unfold AssignedDlResources, get_ue. rewrite E. cbn [res_bind].
  rewrite tbs_metric by done. cbn [res_bind].
  set (s1 := set_ue p _ s). destruct (meet_eq (dl_rnti (place b (u0 p) l (tbs p l))) s1) as (q & k & ->).
  unfold s1, set_ue. destruct s as [ues rem rbg sym av q0 k0].
  destruct (_ <? _); [by eexists _, _|]. destruct (_ <? _); by eexists _, _.
Qed.

Lemma Allocate_eq p r l t s :
  s.(d_ues) !! p = Some (place b (u0 p) l t) -> r ∈ rem0 -> length s.(availableRbgs) = length bitmask ->
  0 <= s.(m_rbg) < 2 ^ 32 - 1 ->
  AllocateCurrentResourceToUe p r b s
  = Ok (s <| d_ues ::= <[p := place b (u0 p) (l ++ [r]) t]> |> <| m_rbg ::= fun n => n + 1 |> <| m_sym := b |>
          <| availableRbgs ::= <[Z.to_nat r := false]> |>).
Proof.
  intros E Hr La B. destruct (rem0_range r Hr) as [Rr Ur]. unfold AllocateCurrentResourceToUe, get_ue.
  rewrite E, Ur. cbn [res_bind]. unfold set_available, set_ue.
  destruct s as [ues rem rbg sym av q k]. cbn in *.
  destruct (vec_at_ok av r) as (a & -> & _); [lia|]. cbn.
  transitivity (Ok (mkDlState
    (<[p := (u0 p) <| m_dlRBG := expand b l ++ replicate (Z.to_nat b) r |>
                   <| m_dlSym := expand_sym b l ++ (u8 <$> seqZ 0 b) |> <| m_dlTbSize := t |>]> ues)
    rem (u32 (rbg + 1)) b (<[Z.to_nat r := false]> av) q k)); [reflexivity|].
  rewrite wrap_small by (unfold fits; lia). by rewrite <- expand_snoc, <- (expand_sym_snoc b l r).
Qed.

Lemma Dealloc_eq p r l r' t s :
  s.(d_ues) !! p = Some (place b (u0 p) (l ++ [r']) t) -> r ∈ rem0 ->
  length s.(availableRbgs) = length bitmask -> 0 < s.(m_rbg) ->
  exists sym, DeallocateCurrentResourceFromUe p r b s
  = Ok (s <| d_ues ::= <[p := place b (u0 p) l t]> |> <| m_rbg ::= fun n => n - 1 |> <| m_sym := sym |>
          <| availableRbgs ::= <[Z.to_nat r := true]> |>).
Proof.
  intros E Hr La B. destruct (rem0_range r Hr) as [Rr _]. pose proof (ok_b OK) as B0.
  unfold DeallocateCurrentResourceFromUe, get_ue. rewrite E. cbn [res_bind].
  change (m_dlRBG (place b (u0 p) (l ++ [r']) t)) with (expand b (l ++ [r'])).
  change (m_dlSym (place b (u0 p) (l ++ [r']) t)) with (expand_sym b (l ++ [r'])).
  rewrite expand_length, expand_sym_length, length_app. cbn [length].
  replace (Z.of_nat ((length l + 1) * Z.to_nat b) - b) with (Z.of_nat (length l * Z.to_nat b)) by lia.
  rewrite (proj2 (Z.ltb_ge _ 0)) by apply Nat2Z.is_nonneg. cbn [orb abort_if res_bind].
  destruct s as [ues rem rbg sym av q k]. unfold set_ue. cbn in *.
  replace (rbg <=? 0) with false by lia. cbn. unfold set_available. cbn.
  destruct (vec_at_ok av r) as (a & -> & _); [lia|]. rewrite Nat2Z.id. eexists.
  rewrite <- (place_take b (u0 p) l r' t). reflexivity.
Qed.

(** ** Giving and taking an RBG *)

Lemma avail_insert s r (a : bool) (rem' : list Z) :
  length s.(availableRbgs) = length bitmask -> r ∈ rem0 ->
  (forall i, (i < length bitmask)%nat -> s.(availableRbgs) !! i = Some (bool_decide (Z.of_nat i ∈ s.(remainingRbgSet)))) ->
  (r ∈ rem' <-> a = true) -> (forall x, x <> r -> x ∈ rem' <-> x ∈ s.(remainingRbgSet)) ->
  forall i, (i < length bitmask)%nat ->
    <[Z.to_nat r := a]> s.(availableRbgs) !! i = Some (bool_decide (Z.of_nat i ∈ rem')).
Proof.
  intros L Hr A Ra Rx i Hi. destruct (rem0_range r Hr) as [Rr _].
  destruct (decide (i = Z.to_nat r)) as [->|Ne].
  - rewrite list_lookup_insert_eq by lia. f_equal. rewrite Z2Nat.id by lia. destruct a; symmetry.
    + apply bool_decide_true. by apply Ra.
    + apply bool_decide_false. intros X%Ra. done.
  - rewrite list_lookup_insert_ne by done. rewrite A by done. f_equal. apply bool_decide_ext.
    symmetry. apply Rx. intros E. apply Ne. lia.
Qed.

Lemma rep_same alloc s s' p :
  rep alloc s -> p ∈ ptrs -> (forall q, q <> p -> s'.(d_ues) !! q = s.(d_ues) !! q) ->
  s'.(d_ues) !! p = Some (place b (u0 p) (alloc p) (tbs p (alloc p))) ->
  s'.(remainingRbgSet) = s.(remainingRbgSet) -> s'.(m_rbg) = s.(m_rbg) ->
  s'.(availableRbgs) = s.(availableRbgs) -> rep alloc s'.
Proof.
  intros [R1 R2 R3 R4 R5 R6] Hp Uo Up Er Em Ea. split; rewrite ?Er, ?Em, ?Ea; try done.
  - intros q Hq. destruct (decide (q = p)) as [->|Ne]; [done|]. rewrite Uo by done. by apply R1.
  - intros q Hq. rewrite Uo; [by apply R6|]. by intros ->.
Qed.

Lemma rep_give alloc s s' p r :
  rep alloc s -> p ∈ ptrs -> r ∈ s.(remainingRbgSet) -> (forall q, q <> p -> s'.(d_ues) !! q = s.(d_ues) !! q) ->
  s'.(d_ues) !! p = Some (place b (u0 p) (alloc p ++ [r]) (tbs p (alloc p ++ [r]))) ->
  s'.(remainingRbgSet) = set_erase r s.(remainingRbgSet) -> s'.(m_rbg) = s.(m_rbg) + 1 ->
  s'.(availableRbgs) = <[Z.to_nat r := false]> s.(availableRbgs) ->
  rep (upd alloc p (alloc p ++ [r])) s'.
Proof.
  intros R Hp Hr Uo Up Er Em Ea. destruct (rep_rem _ _ R) as [Nr Sr]. pose proof R as [R1 R2 R3 R4 R5 R6].
  destruct (concat_upd alloc p (alloc p ++ [r]) ptrs (ok_ptrs OK) Hp) as (rest & E1 & E2).
  split.
  - intros q Hq. destruct (decide (q = p)) as [->|Ne]; [by rewrite upd_eq|].
    rewrite Uo, upd_ne by done. by apply R1.
  - rewrite Er, E2. rewrite E1 in R2. rewrite (set_erase_perm r _ Nr Hr) in R2. rewrite <- R2. solve_Permutation.
  - rewrite Em, R3, E1, E2, !length_app. cbn. lia.
  - by rewrite Ea, length_insert.
  - rewrite Ea, Er. apply avail_insert; [done|by apply Sr|done| |].
    + unfold set_erase. rewrite list_elem_of_filter. naive_solver.
    + intros x Nx. unfold set_erase. rewrite list_elem_of_filter. naive_solver.
  - intros q Hq. rewrite Uo; [by apply R6|]. by intros ->.
Qed.

Lemma rep_take alloc s s' p l r :
  rep alloc s -> p ∈ ptrs -> alloc p = l ++ [r] -> (forall q, q <> p -> s'.(d_ues) !! q = s.(d_ues) !! q) ->
  s'.(d_ues) !! p = Some (place b (u0 p) l (tbs p l)) ->
  s'.(remainingRbgSet) = set_emplace r s.(remainingRbgSet) -> s'.(m_rbg) = s.(m_rbg) - 1 ->
  s'.(availableRbgs) = <[Z.to_nat r := true]> s.(availableRbgs) -> rep (upd alloc p l) s'.
Proof.
  intros R Hp El Uo Up Er Em Ea. destruct (rep_sub _ _ _ R Hp) as [Np Sp]. rewrite El in Np, Sp.
  assert (r ∉ s.(remainingRbgSet)) as Nr.
  { intros Hr. apply (rep_disj _ _ _ _ R Hp Hr). rewrite El. set_solver. }
  pose proof (set_emplace_fresh r _ Nr) as Pe. pose proof R as [R1 R2 R3 R4 R5 R6].
  destruct (concat_upd alloc p l ptrs (ok_ptrs OK) Hp) as (rest & E1 & E2). rewrite El in E1.
  split.
  - intros q Hq. destruct (decide (q = p)) as [->|Ne]; [by rewrite upd_eq|].
    rewrite Uo, upd_ne by done. by apply R1.
  - rewrite Er, Pe, E2. rewrite E1 in R2. rewrite <- R2. solve_Permutation.
  - rewrite Em, R3, E1, E2, !length_app. cbn. lia.
  - by rewrite Ea, length_insert.
  - rewrite Ea, Er. apply avail_insert; [done|apply Sp; set_solver|done|rewrite Pe; set_solver|].
    intros x Nx. rewrite Pe. set_solver.
  - intros q Hq. rewrite Uo; [by apply R6|]. by intros ->.
Qed.

Lemma rep_bound alloc s : rep alloc s -> 0 <= s.(m_rbg) < 2 ^ 32 - 1.
Proof.
  intros R. rewrite (rep_rbg _ _ R). pose proof (Permutation_length (rep_part _ _ R)) as L.
  rewrite length_app in L. pose proof (ok_mask OK). unfold remaining_rbgs in L at 1.
  rewrite length_fmap in L. pose proof (length_filter (fun i => bitmask !! i = Some true) (seq 0 (length bitmask))) as F.
  rewrite length_seq in F. lia.
Qed.

(** ** Attempts *)

Lemma best_ok ue (l : list Z) pos0 max0 :
  (forall r, r ∈ l -> is_ok (sb_of ue r) = true) ->
  exists pos maxCqi, res_fold (fun resourcePos '(currentRbgPos, maxCqi) =>
      let* sb := sb_of ue resourcePos in
      Ok (if maxCqi <? sb.(sb_cqi) then (Some resourcePos, sb.(sb_cqi)) else (currentRbgPos, maxCqi)))
    l (pos0, max0) = Ok (pos, maxCqi) /\ (pos = pos0 \/ exists r, pos = Some r /\ r ∈ l).
Proof.
  revert pos0 max0. induction l as [|r l IH]; intros pos0 max0 E; cbn [res_fold].
  - exists pos0, max0. split; [done|by left].
  - pose proof (E r ltac:(by left)) as Er. destruct (sb_of ue r) as [sb|]; [|done]. cbn [res_bind].
    destruct (max0 <? sb_cqi sb).
    + destruct (IH (Some r) (sb_cqi sb)) as (pos & m & -> & [->|(x & -> & Hx)]);
        [intros x Hx; apply E; by right|..]; do 2 eexists; (split; [done|]); right; eexists; (split; [done|]);
        by constructor.
    + destruct (IH pos0 max0) as (pos & m & -> & [->|(x & -> & Hx)]);
        [intros x Hx; apply E; by right|..]; do 2 eexists; (split; [done|]); [by left|].
      right. exists x. split; [done|by right].
Qed.

Lemma choose_ok alloc s p t :
  rep alloc s -> p ∈ ptrs -> s.(remainingRbgSet) <> [] ->
  exists c, choose_rbg m_mcsCsiSource (place b (u0 p) (alloc p) t) s.(remainingRbgSet) = Ok c /\
    forall r, c = Some r -> r ∈ s.(remainingRbgSet).
Proof.
  intros R Hp Ne. destruct (rep_rem _ _ R) as [_ Sr]. destruct (rep_sub _ _ _ R Hp) as [_ Sp].
  unfold choose_rbg. change (m_dlSbMcsInfo (place b (u0 p) (alloc p) t)) with (m_dlSbMcsInfo (u0 p)).
  destruct (bool_decide _ || _) eqn:Bd.
  - destruct (remainingRbgSet s) as [|r l]; [done|]. exists (Some r). split; [done|].
    intros r' [= <-]. by left.
  - apply orb_false_iff in Bd as [_ Bd].
    assert (m_dlSbMcsInfo (u0 p) <> []) as Ni by (destruct (m_dlSbMcsInfo (u0 p)); done).
    assert (forall r, r ∈ rem0 -> is_ok (sb_of (place b (u0 p) (alloc p) t) r) = true) as Sb.
    { intros r Hr. change (sb_of (place b (u0 p) (alloc p) t) r) with (sb_of (u0 p) r).
      by apply (ok_sb OK). }
    destruct (best_ok (place b (u0 p) (alloc p) t) s.(remainingRbgSet) None 0) as (pos & m & -> & Hpos);
      [intros r Hr; apply Sb, Sr, Hr|]. cbn [res_bind].
    assert (forall r, pos = Some r -> r ∈ remainingRbgSet s) as Hpos'.
    { intros r ->. destruct Hpos as [?|(r' & [= <-] & ?)]; done. }
    change (m_dlRBG (place b (u0 p) (alloc p) t)) with (expand b (alloc p)).
    destruct (expand b (alloc p)) as [|first rest] eqn:Ex; [by exists pos|].
    assert (is_ok (sb_of (place b (u0 p) (alloc p) t) first) = true) as Ef.
    { apply Sb, Sp, (expand_elem b). rewrite Ex. by left. }
    destruct (sb_of _ first) as [sb|]; [|done]. cbn [res_bind].
    eexists. split; [done|]. intros r. destruct (m <? _); [done|apply Hpos'].
Qed.

Lemma mcs_ok p l t :
  p ∈ ptrs -> NoDup l -> l ⊆ rem0 -> exists m, GetDlMcs amc (place b (u0 p) l t) = Ok m.
Proof.
  intros Hp N S. pose proof (tbs_metric p l t Hp N S) as E. unfold UpdateDlMetric in E.
  destruct (m_dlRBG (place b (u0 p) l t)) as [|x ex] eqn:Ex.
  - unfold GetDlMcs. rewrite Ex, bool_decide_true by done. cbn [orb].
    destruct (m_fhMaxMcsAssignable _); by eexists.
  - destruct (GetDlMcs amc _) as [m|]; [by exists m|done].
Qed.

(** Giving the RBG back undoes the allocation. *)
Lemma undo_rep alloc s s2 p r t :
  rep alloc s -> p ∈ ptrs -> r ∈ s.(remainingRbgSet) ->
  s2.(d_ues) !! p = Some (place b (u0 p) (alloc p ++ [r]) t) ->
  (forall q, q <> p -> s2.(d_ues) !! q = s.(d_ues) !! q) ->
  s2.(remainingRbgSet) = s.(remainingRbgSet) -> s2.(m_rbg) = s.(m_rbg) + 1 ->
  s2.(availableRbgs) = <[Z.to_nat r := false]> s.(availableRbgs) ->
  exists s', (let* s := DeallocateCurrentResourceFromUe p r b s2 in AssignedDlResources NumRbPerRbg amc p s) = Ok s' /\
    rep alloc s' /\ s'.(remainingRbgSet) = s.(remainingRbgSet).
Proof.
  intros R Hp Hr U2 O2 Er Em Ea. destruct (rep_sub _ _ _ R Hp) as [Np Sp]. destruct (rep_rem _ _ R) as [_ Sr].
  pose proof (rep_bound _ _ R) as B.
  destruct (Dealloc_eq p r (alloc p) r t s2 U2 (Sr r Hr)) as [sym ->];
    [rewrite Ea, length_insert; apply R|lia|].
  cbn [res_bind]. set (s3 := s2 <| d_ues ::= _ |> <| m_rbg ::= _ |> <| m_sym := sym |> <| availableRbgs ::= _ |>).
  destruct (Assigned_eq p (alloc p) t s3 Hp Np Sp) as (q2 & k2 & ->); [apply lookup_insert_eq|].
  eexists. split; [done|]. split; [|exact Er]. apply (rep_same alloc s _ p R Hp).
  - intros q Hq. change (<[p := place b (u0 p) (alloc p) (tbs p (alloc p))]>
      (<[p := place b (u0 p) (alloc p) t]> s2.(d_ues)) !! q = s.(d_ues) !! q).
    rewrite !lookup_insert_ne by done. by apply O2.
  - apply lookup_insert_eq.
  - exact Er.
  - change (s2.(m_rbg) - 1 = s.(m_rbg)). lia.
  - change (<[Z.to_nat r := true]> s2.(availableRbgs) = s.(availableRbgs)). rewrite Ea.
    rewrite list_insert_insert_eq. apply list_insert_id. destruct (rem0_range r (Sr r Hr)) as [Rr _].
    rewrite (rep_avail _ _ R) by lia. rewrite Z2Nat.id by lia. by rewrite bool_decide_true.
Qed.

(** Whether UE [p] with the RBGs [l] takes none of the RBGs left: the best is too bad, or it would
    lower the transport block by more than 1%. *)
Definition refuses (p : nat) (l remaining : list Z) : bool :=
  match choose_rbg m_mcsCsiSource (place b (u0 p) l (tbs p l)) remaining with
  | Ok (Some r) =>
      d_ltb (d_of_Z (tbs p (l ++ [r]))) (d_mul (d_of_Z (tbs p l)) (d_dec 99 2)) &&
      match GetDlMcs amc (place b (u0 p) (l ++ [r]) (tbs p (l ++ [r]))) with Ok m => 0 <? m | Abort _ => false end
  | _ => true
  end.

(** An attempt gives the UE one of the RBGs left, or leaves everything as it was. *)
Lemma Attempt_rep alloc s p :
  rep alloc s -> p ∈ ptrs -> s.(remainingRbgSet) <> [] ->
  exists s' success,
    AttemptAllocationOfCurrentResourceToUe NumRbPerRbg m_mcsCsiSource amc p b s = Ok (s', success) /\
    success = negb (refuses p (alloc p) s.(remainingRbgSet)) /\
    if success : bool
    then exists r, r ∈ s.(remainingRbgSet) /\ rep (upd alloc p (alloc p ++ [r])) s' /\
           s'.(remainingRbgSet) = set_erase r s.(remainingRbgSet)
    else rep alloc s' /\ s'.(remainingRbgSet) = s.(remainingRbgSet).
Proof.
  intros R Hp Ne. set (t := tbs p (alloc p)).
  pose proof (rep_ues _ _ R p Hp) as Hu. fold t in Hu.
  unfold AttemptAllocationOfCurrentResourceToUe, get_ue at 1. rewrite Hu. cbn [res_bind].
  unfold refuses. fold t. destruct (choose_ok alloc s p t R Hp Ne) as (c & -> & Hc). cbn [res_bind].
  destruct c as [r|]; [|by exists s, false]. specialize (Hc r eq_refl).
  destruct (rep_sub _ _ _ R Hp) as [Np Sp]. destruct (rep_rem _ _ R) as [Nr Sr].
  pose proof (rep_disj _ _ _ _ R Hp Hc) as Nd. set (l1 := alloc p ++ [r]).
  assert (NoDup l1) as N1 by (apply NoDup_app; split_and!; [done|set_solver|apply NoDup_singleton]).
  assert (l1 ⊆ rem0) as S1 by (unfold l1; set_solver).
  rewrite (Allocate_eq p r (alloc p) t s Hu (Sr r Hc) (rep_len _ _ R) (rep_bound _ _ R)). cbn [res_bind].
  set (s1 := s <| d_ues ::= _ |> <| m_rbg ::= _ |> <| m_sym := b |> <| availableRbgs ::= _ |>).
  destruct (Assigned_eq p l1 t s1 Hp N1 S1) as (q1 & k1 & ->); [apply lookup_insert_eq|]. cbn [res_bind].
  set (s2 := s1 <| d_ues ::= _ |> <| m_dlRrRntiDeque := q1 |> <| m_dlRntiSet := k1 |>).
  assert (s2.(d_ues) !! p = Some (place b (u0 p) l1 (tbs p l1))) as U2 by apply lookup_insert_eq.
  assert (forall q, q <> p -> s2.(d_ues) !! q = s.(d_ues) !! q) as O2.
  { intros q Hq. change (<[p := place b (u0 p) l1 (tbs p l1)]> (<[p := place b (u0 p) l1 t]> s.(d_ues)) !! q
      = s.(d_ues) !! q). by rewrite !lookup_insert_ne. }
  unfold get_ue. rewrite U2. cbn [res_bind].
  destruct (mcs_ok p l1 (tbs p l1) Hp N1 S1) as [m Em].
  change (m_dlTbSize (place b (u0 p) l1 (tbs p l1))) with (tbs p l1).
  change (m_dlTbSize (place b (u0 p) (alloc p) t)) with t. rewrite Em.
  set (bad := d_ltb (d_of_Z (tbs p l1)) (d_mul (d_of_Z t) (d_dec 99 2)) && (0 <? m)).
  assert ((if d_ltb (d_of_Z (tbs p l1)) (d_mul (d_of_Z t) (d_dec 99 2))
    then let* mcs := Ok m in Ok (0 <? mcs) else Ok false) = Ok bad) as -> by (unfold bad; by destruct (d_ltb _ _)).
  cbn [res_bind]. destruct bad; cbn [negb].
  - destruct (undo_rep alloc s s2 p r (tbs p l1) R Hp Hc U2 O2) as (s' & E & R'); [done..|].
    exists s', false. split; [|by split].
    etransitivity; [symmetry; apply res_bind_assoc|]. exact (f_equal (fun m => res_bind m _) E).
  - eexists _, true. split; [done|]. split; [done|]. exists r. split; [done|]. split; [|done].
    by apply (rep_give alloc s _ p r R Hp Hc).
Qed.

End beam.

(** The last element of a list sorted by a key has the greatest key. *)
Lemma sorted_last {A} (key : A -> Z) l a b :
  StronglySorted (fun a b => key a <= key b) l -> last l = Some b -> a ∈ l -> key a <= key b.
Proof.
  induction 1 as [|x l S IH F]; [done|]. intros L E. destruct l as [|y l].
  - injection L as <-. apply list_elem_of_singleton in E. by subst.
  - change (last (y :: l) = Some b) in L. apply elem_of_cons in E as [->|E]; [|by apply IH].
    rewrite Forall_forall in F. apply F. by apply last_Some_elem_of.
Qed.

Lemma last_take {A} (l : list A) a : last l = Some a -> l = take (length l - 1) l ++ [a].
Proof.
  intros E. apply last_Some in E as [l' ->]. rewrite length_app. cbn.
  replace (length l' + 1 - 1)%nat with (length l') by lia. by rewrite take_app_length.
Qed.

Lemma rev_case {A} (l : list A) : l = [] \/ exists l' a, l = l' ++ [a].
Proof. destruct l as [|a l] using rev_ind; [by left|right; by exists l, a]. Qed.

Lemma insert_id_ues p u (s : DlState) : s.(d_ues) !! p = Some u -> s <| d_ues ::= <[p := u]> |> = s.
Proof. intros E. destruct s as [ues rem rbg sym av q k]. cbn in *. unfold set. cbn. by rewrite insert_id. Qed.

Section loops.
Context `{LibM} `{CppReduce} `{CppStableSort} `{StdSort} `{!StdSortLaws}.
Context (NumRbPerRbg : Z) (m_mcsCsiSource : McsCsiSource) (amc : Amc).
Context (b : Z) (bitmask : list bool) (ptrs : list nat) (u0 : nat -> UeInfoDl) (ues0 : gmap nat UeInfoDl).
Hypothesis OK : beam_ok NumRbPerRbg amc b bitmask ptrs u0.

Abbreviation tbs := (tbs NumRbPerRbg amc b u0).
Abbreviation rep := (rep NumRbPerRbg amc b bitmask ptrs u0 ues0).
Abbreviation refuses := (refuses NumRbPerRbg m_mcsCsiSource amc b u0).

(** A UE that takes no RBG: it has enough, or it refuses what is left. *)
Definition settled (alloc : nat -> list Z) (remaining : list Z) (ue : nat * Z) : Prop :=
  Z.max ue.2 10 <= tbs ue.1 (alloc ue.1) \/ refuses ue.1 (alloc ue.1) remaining = true.

Lemma get_ue_rep alloc s p :
  rep alloc s -> p ∈ ptrs -> get_ue p s = Ok (place b (u0 p) (alloc p) (tbs p (alloc p))).
Proof. intros R Hp. unfold get_ue. by rewrite (rep_ues _ _ _ _ _ _ _ _ _ R p Hp). Qed.

Lemma Sort_eq v s :
  exists v' q k, SortUeVectorDl v s = (v', s <| m_dlRrRntiDeque := q |> <| m_dlRntiSet := k |>) /\ v' ≡ₚ v.
Proof.
  unfold SortUeVectorDl. destruct (_ <? _)%nat.
  - exists v, (m_dlRrRntiDeque s), (m_dlRntiSet s). split; [by destruct s|done].
  - assert (forall l s, exists q k, foldl (fun s rnti => meet rnti s) s l
      = s <| m_dlRrRntiDeque := q |> <| m_dlRntiSet := k |>) as F.
    { induction l as [|r l IH]; intros s1; cbn [foldl].
      - exists (m_dlRrRntiDeque s1), (m_dlRntiSet s1). by destruct s1.
      - destruct (meet_eq r s1) as (q & k & ->). destruct (IH (s1 <| m_dlRrRntiDeque := q |> <| m_dlRntiSet := k |>))
          as (q' & k' & ->). exists q', k'. by destruct s1. }
    destruct (F (compared (rnti_at s <$> v)) s) as (q & k & ->). do 3 eexists. split; [done|].
    apply stable_sort_perm.
Qed.

(** One UE takes one of the RBGs left, or all are settled. *)
Lemma try_ues_rep alloc v s :
  rep alloc s -> Forall (fun ue => ue.1 ∈ ptrs) v -> s.(remainingRbgSet) <> [] ->
  exists s', try_ues NumRbPerRbg m_mcsCsiSource amc b v s = Ok s' /\
    ((rep alloc s' /\ s'.(remainingRbgSet) = s.(remainingRbgSet) /\ Forall (settled alloc s.(remainingRbgSet)) v) \/
     exists p r, p ∈ v.*1 /\ r ∈ s.(remainingRbgSet) /\ rep (upd alloc p (alloc p ++ [r])) s' /\
       s'.(remainingRbgSet) = set_erase r s.(remainingRbgSet)).
Proof.
  revert s. induction v as [|[p buf] v IH]; intros s R V Ne; cbn [try_ues].
  - exists s. split; [done|]. left. by split_and!.
  - apply Forall_cons in V as [Hp V]. cbn [fst] in Hp. rewrite (get_ue_rep _ _ _ R Hp). cbn [res_bind].
    unfold dl_covered. change (m_dlTbSize (place b (u0 p) (alloc p) (tbs p (alloc p)))) with (tbs p (alloc p)).
    destruct (Z.leb_spec (Z.max buf 10) (tbs p (alloc p))) as [Cov|Cov].
    + destruct (IH s R V Ne) as (s' & E & [(R' & Er & St)|(q & r & Hq & Hr)]).
      * exists s'. split; [done|]. left. split_and!; [done|done|]. constructor; [by left|done].
      * exists s'. split; [done|]. right. exists q, r. split; [by right|done].
    + destruct (Attempt_rep NumRbPerRbg m_mcsCsiSource amc b bitmask ptrs u0 ues0 OK alloc s p R Hp Ne)
        as (s1 & ok & -> & Ek & A). cbn [res_bind]. destruct ok.
      * destruct A as (r & Hr & R' & Er). exists s1. split; [done|]. right. exists p, r.
        split; [by left|done].
      * destruct A as [R1 E1]. rewrite <- E1 in Ne.
        destruct (IH s1 R1 V Ne) as (s' & E & [(R' & Er & St)|(q & r & Hq & Hr & R' & Er)]); rewrite E1 in *.
        -- exists s'. split; [done|]. left. split_and!; [done|done|]. constructor; [|done].
           right. cbn. symmetry in Ek. by apply negb_false_iff in Ek.
        -- exists s'. split; [done|]. right. exists q, r. split; [by right|done].
Qed.

Lemma erase_length r l : NoDup l -> r ∈ l -> S (length (set_erase r l)) = length l.
Proof. intros N E. by rewrite (set_erase_perm r l N E) at 2. Qed.

Lemma fill_nil fuel v s :
  s.(remainingRbgSet) = [] -> fill NumRbPerRbg m_mcsCsiSource amc fuel b v s = Ok (v, s).
Proof. intros E. destruct fuel; cbn [fill]; by rewrite E. Qed.

Lemma fill_S fuel v s :
  s.(remainingRbgSet) <> [] ->
  fill NumRbPerRbg m_mcsCsiSource amc (S fuel) b v s
  = let '(v', s1) := SortUeVectorDl v s in
    let* s2 := try_ues NumRbPerRbg m_mcsCsiSource amc b v' s1 in
    if (length s.(remainingRbgSet) =? length s2.(remainingRbgSet))%nat then Ok (v', s2)
    else fill NumRbPerRbg m_mcsCsiSource amc fuel b v' s2.
Proof. intros Ne. cbn [fill]. by destruct (remainingRbgSet s). Qed.

(** The RBGs are handed out until none is left or all UEs are settled. *)
Lemma fill_rep fuel alloc v s :
  rep alloc s -> Forall (fun ue => ue.1 ∈ ptrs) v -> (length s.(remainingRbgSet) <= fuel)%nat ->
  exists v' s' alloc', fill NumRbPerRbg m_mcsCsiSource amc fuel b v s = Ok (v', s') /\ v' ≡ₚ v /\
    rep alloc' s' /\ (forall p, p ∉ v.*1 -> alloc' p = alloc p) /\
    (s'.(remainingRbgSet) = [] \/ Forall (settled alloc' s'.(remainingRbgSet)) v').
Proof.
  revert alloc v s. induction fuel as [|fuel IH]; intros alloc v s R V L;
    destruct (decide (s.(remainingRbgSet) = [])) as [Er|Er].
  1, 3: exists v, s, alloc; rewrite fill_nil by done; split_and!; try done; by left.
  - destruct (remainingRbgSet s); [done|cbn in L; lia].
  - rewrite fill_S by done. destruct (Sort_eq v s) as (v1 & q & k & -> & P1).
    set (s1 := s <| m_dlRrRntiDeque := q |> <| m_dlRntiSet := k |>).
    destruct (try_ues_rep alloc v1 s1) as (s2 & -> & [(R2 & E2 & St)|(p & r & Hp & Hr & R2 & E2)]);
      [by apply rep_rr|by rewrite P1|done|..]; cbn [res_bind];
      change (remainingRbgSet s1) with (remainingRbgSet s) in *.
    + rewrite E2, Nat.eqb_refl. exists v1, s2, alloc. split_and!; try done. right. by rewrite E2.
    + edestruct rep_rem as [Nr _]; [exact OK|exact R|]. pose proof (erase_length r _ Nr Hr) as Le.
      rewrite E2. rewrite (proj2 (Nat.eqb_neq _ _)) by lia.
      destruct (IH _ v1 s2 R2) as (v' & s' & alloc' & E & P & R' & O & St); [by rewrite P1|rewrite E2; lia|].
      exists v', s', alloc'. split_and!; [done|by rewrite P|done| |done].
      intros x Hx. rewrite O by (by rewrite P1). apply upd_ne. intros ->. apply Hx. by rewrite <- P1.
Qed.

(** ** Reaping *)

Lemma expand_last l r : 0 < b -> last (expand b (l ++ [r])) = Some r.
Proof.
  intros B. rewrite expand_snoc. rewrite last_app. destruct (Z.to_nat b) eqn:E; [lia|].
  by rewrite replicate_S_end, last_snoc.
Qed.

Lemma tbs_empty p l : expand b l = [] -> tbs p l = 0.
Proof.
  intros E. unfold DlFacts.tbs, UpdateDlMetric. change (m_dlRBG (place b (u0 p) l 0)) with (expand b l).
  by rewrite E.
Qed.

(** [s] represents [alloc] but for the transport block of [p], which is [t]. *)
Definition outdated (p : nat) (t : Z) (alloc : nat -> list Z) (s : DlState) : Prop :=
  s.(d_ues) !! p = Some (place b (u0 p) (alloc p) t) /\
  rep alloc (s <| d_ues ::= <[p := place b (u0 p) (alloc p) (tbs p (alloc p))]> |>).

Lemma outdated_take p t alloc s l r :
  outdated p t alloc s -> p ∈ ptrs -> alloc p = l ++ [r] ->
  exists s', DeallocateCurrentResourceFromUe p r b s = Ok s' /\
    outdated p t (upd alloc p l) (s' <| remainingRbgSet ::= set_emplace r |>).
Proof.
  intros [U R] Hp El. rewrite El in U.
  edestruct rep_sub as [_ Sp]; [exact OK|exact R|exact Hp|]. rewrite El in Sp.
  assert (r ∈ remaining_rbgs bitmask) as Hr by (apply Sp; set_solver).
  assert (0 < s.(m_rbg)) as B.
  { pose proof (rep_rbg _ _ _ _ _ _ _ _ _ R) as E. change (s.(m_rbg) = Z.of_nat (length (concat (alloc <$> ptrs)))) in E.
    rewrite E. destruct (concat_upd alloc p [] ptrs) as (rest & -> & _); [apply OK|done|].
    rewrite El, !length_app. cbn. lia. }
  edestruct Dealloc_eq as [sym ->]; [exact OK|exact U|exact Hr|apply (rep_len _ _ _ _ _ _ _ _ _ R)|exact B|].
  eexists. split; [done|]. split; [rewrite upd_eq; apply lookup_insert_eq|].
  eapply rep_take; [exact OK|exact R|exact Hp|exact El|..]; try done.
  - intros q Hq. cbn. by rewrite !lookup_insert_ne.
  - rewrite upd_eq. apply lookup_insert_eq.
Qed.

(** All the RBGs of a UE go back. *)
Lemma reap_outdated fuel p t alloc s :
  outdated p t alloc s -> p ∈ ptrs -> (length (expand b (alloc p)) <= fuel)%nat ->
  exists s' alloc', reap fuel p b s = Ok s' /\ outdated p t alloc' s' /\ expand b (alloc' p) = [] /\
    forall q, q <> p -> alloc' q = alloc q.
Proof.
  revert alloc s. induction fuel as [|fuel IH]; intros alloc s St Hp L; cbn [reap];
    unfold get_ue at 1; rewrite (proj1 St); cbn [res_bind];
    change (m_dlRBG (place b (u0 p) (alloc p) t)) with (expand b (alloc p)).
  - assert (expand b (alloc p) = []) as E by (destruct (expand b (alloc p)); [done|cbn in L; lia]).
    rewrite E. by exists s, alloc.
  - destruct (decide (expand b (alloc p) = [])) as [E|E]; [rewrite E; by exists s, alloc|].
    assert (0 < b) as B.
    { pose proof (ok_b _ _ _ _ _ _ OK). destruct (decide (b = 0)) as [->|]; [|lia].
      exfalso. apply E. apply length_zero_iff_nil. rewrite expand_length. lia. }
    destruct (rev_case (alloc p)) as [Ea|(l & r & El)]; [by rewrite Ea in E|].
    rewrite El, expand_last by done.
    destruct (outdated_take p t alloc s l r St Hp El) as (s1 & -> & St1). cbn [res_bind].
    destruct (IH _ _ St1 Hp) as (s' & alloc' & -> & St' & E' & O).
    + rewrite upd_eq. rewrite El, expand_snoc, length_app, length_replicate in L. lia.
    + exists s', alloc'. split_and!; [done|exact St'|done|].
      intros q Hq. rewrite O by done. by apply upd_ne.
Qed.

Lemma reap_rep alloc s p :
  rep alloc s -> p ∈ ptrs ->
  exists s' alloc', (let* u := get_ue p s in let* s := reap (length u.(m_dlRBG)) p b s in
                     AssignedDlResources NumRbPerRbg amc p s) = Ok s' /\
    rep alloc' s' /\ expand b (alloc' p) = [] /\ forall q, q <> p -> alloc' q = alloc q.
Proof.
  intros R Hp. rewrite (get_ue_rep _ _ _ R Hp). cbn [res_bind]. set (t := tbs p (alloc p)).
  change (m_dlRBG (place b (u0 p) (alloc p) t)) with (expand b (alloc p)).
  assert (outdated p t alloc s) as St.
  { split; [apply (rep_ues _ _ _ _ _ _ _ _ _ R p Hp)|]. fold t.
    rewrite insert_id_ues; [done|]. apply (rep_ues _ _ _ _ _ _ _ _ _ R p Hp). }
  destruct (reap_outdated _ p t alloc s St Hp (le_n _)) as (s1 & alloc1 & -> & [U R1] & E & O). cbn [res_bind].
  edestruct rep_sub as [N S]; [exact OK|exact R1|exact Hp|].
  edestruct Assigned_eq as (q & k & ->); [exact OK|exact Hp|exact N|exact S|exact U|].
  eexists _, alloc1. split; [done|]. split_and!; [by apply rep_rr|done|done].
Qed.

(** What a beam ends with: the UEs that are still in have a block of 10 bytes or more and, when
    RBGs are left, are settled; the others have nothing. *)
Definition beam_end (alloc : nat -> list Z) (remaining : list Z) (v v' : list (nat * Z)) : Prop :=
  v' ⊆ v /\ (forall ue, ue ∈ v -> ue ∉ v' -> expand b (alloc ue.1) = []) /\
  (forall ue, ue ∈ v' -> 10 <= tbs ue.1 (alloc ue.1)) /\
  (remaining = [] \/ Forall (settled alloc remaining) v').

Lemma tb_size_at_rep alloc s ue :
  rep alloc s -> ue.1 ∈ ptrs -> tb_size_at s ue = tbs ue.1 (alloc ue.1).
Proof. intros R Hp. unfold tb_size_at. by rewrite (rep_ues _ _ _ _ _ _ _ _ _ R _ Hp). Qed.

Lemma reaping_S fuel v s :
  reaping NumRbPerRbg m_mcsCsiSource amc (S fuel) b v s
  = let* r := fill NumRbPerRbg m_mcsCsiSource amc (length s.(remainingRbgSet)) b v s in
    let v := sort_by_key (fun ue => - tb_size_at r.2 ue) r.1 in
    match last v with
    | None => Ok r.2
    | Some ue =>
        if tb_size_at r.2 ue <? 10 then
          let* s := (let* u := get_ue ue.1 r.2 in let* s := reap (length u.(m_dlRBG)) ue.1 b r.2 in
                     AssignedDlResources NumRbPerRbg amc ue.1 s) in
          reaping NumRbPerRbg m_mcsCsiSource amc fuel b (take (length v - 1) v) s
        else Ok r.2
    end.
Proof.
  cbn [reaping]. destruct (fill _ _ _ _ _ _ _) as [[v1 s1]|]; [|done]. cbn [res_bind fst snd].
  destruct (last _) as [ue|]; [|done]. destruct (_ <? 10); [|done].
  destruct (get_ue _ _); [|done]. cbn [res_bind]. destruct (reap _ _ _ _); done.
Qed.

Lemma reaping_rep fuel alloc v s :
  rep alloc s -> NoDup v.*1 -> Forall (fun ue => ue.1 ∈ ptrs) v -> (length v < fuel)%nat ->
  exists s' alloc' v', reaping NumRbPerRbg m_mcsCsiSource amc fuel b v s = Ok s' /\ rep alloc' s' /\
    (forall p, p ∉ v.*1 -> alloc' p = alloc p) /\ beam_end alloc' s'.(remainingRbgSet) v v'.
Proof.
  revert alloc v s. induction fuel as [|fuel IH]; intros alloc v s R N V L; [lia|].
  rewrite reaping_S.
  destruct (fill_rep _ alloc v s R V (le_n _)) as (v1 & s1 & alloc1 & -> & P1 & R1 & O1 & St). cbn [res_bind fst snd].
  set (key := fun ue => - tb_size_at s1 ue).
  pose proof (sort_perm key v1) as P2. pose proof (sort_sorted key v1) as So.
  set (v2 := sort_by_key key v1) in *. assert (v2 ≡ₚ v) as P by by rewrite P2.
  assert (Forall (fun ue => ue.1 ∈ ptrs) v2) as V2 by by rewrite P.
  destruct (last v2) as [ue|] eqn:La.
  2:{ apply last_None in La. rewrite La in P. apply Permutation_nil_l in P as <-. exists s1, alloc1, [].
      unfold beam_end. split_and!; [done|done|done|done|set_solver|set_solver|by right]. }
  assert (ue ∈ v2) as Hue by (by apply last_Some_elem_of).
  assert (forall x, x ∈ v2 -> tb_size_at s1 x = tbs x.1 (alloc1 x.1)) as Tb.
  { intros x Hx. apply tb_size_at_rep; [done|]. rewrite Forall_forall in V2. by apply V2. }
  destruct (Z.ltb_spec (tb_size_at s1 ue) 10) as [Lt|Ge].
  - rewrite Forall_forall in V2. destruct (reap_rep alloc1 s1 ue.1 R1 (V2 _ Hue)) as (s2 & alloc2 & -> & R2 & E2 & O2).
    cbn [res_bind]. pose proof (last_take _ _ La) as Ev. set (v3 := take (length v2 - 1) v2) in *.
    assert (v ≡ₚ ue :: v3) as Pv by (rewrite <- P, Ev; solve_Permutation).
    assert (NoDup (ue :: v3).*1) as N3 by by rewrite <- Pv. apply NoDup_cons in N3 as [Nu N3].
    destruct (IH alloc2 v3 s2 R2 N3) as (s' & alloc' & v' & -> & R' & O' & B1 & B2 & B3 & B4).
    { apply Forall_forall. intros x Hx. apply V2. rewrite P, Pv. by right. }
    { rewrite Pv in L. cbn in L. lia. }
    exists s', alloc', v'. unfold beam_end. split_and!; [done|done| | | |done|done].
    + intros p Hp. rewrite Pv in Hp. rewrite O' by set_solver. rewrite O2 by set_solver.
      apply O1. rewrite Pv. done.
    + intros x Hx. rewrite Pv. right. by apply B1.
    + intros x Hx Nx. rewrite Pv in Hx. apply elem_of_cons in Hx as [->|Hx]; [|by apply B2].
      rewrite O' by done. done.
  - exists s1, alloc1, v2. unfold beam_end. split_and!; [done|done|done| | | |].
    + intros x Hx. by rewrite <- P.
    + intros x Hx []. by rewrite P.
    + intros x Hx. rewrite <- Tb by done. pose proof (sorted_last key v2 x ue So La Hx) as K.
      unfold key in K. lia.
    + destruct St as [St|St]; [by left|right]. by rewrite P2.
Qed.

End loops.
