(* ===== verification/Dci.v ===== *)
(** The DCIs of the OFDMA schedulers: CreateDlDci, CreateUlDci, ChangeDlBeam and ChangeUlBeam of
    src/nr/model/nr-mac-scheduler-ofdma.cc.

    Both make the bitmask with CreateRbgBitmaskFromAllocatedRbgs, which looks at the notched mask
    of the downlink.  The HARQ process number is set by the caller. *)
From Stdlib Require Import ZArith Lia SpecFloat.
From stdpp Require Import base list gmap strings list_numbers sets.
From coqutil Require Import Datatypes.RecordSettersUsingExistingGetters.
From S2P Require Import Prelude OrdMap Messages UlScheduler Amc DlUe DlScheduler.
Open Scope Z_scope.

(** struct PointInFTPlane *)
Record PointInFTPlane := mkPoint { spoint_rbg : Z; spoint_sym : Z }.

(** DciInfoElementTdma::VarTtiType; the format is the [Mode]. *)
Inductive VarTtiType := SRS | DATA | CTRL | MSG3.
#[export] Instance VarTtiType_eq_dec : EqDecision VarTtiType.
Proof. solve_decision. Defined.
#[export] Instance Mode_eq_dec : EqDecision Mode.
Proof. solve_decision. Defined.

(** struct DciInfoElementTdma; a precoding matrix is a pointer. *)
Record Dci := mkDci {
  dci_rnti : Z; dci_format : Mode; m_symStart : Z; m_numSym : Z; dci_mcs : Z; dci_rank : Z;
  dci_precMats : option nat; m_tbSize : Z; m_ndi : Z; m_rv : Z; dci_type : VarTtiType; m_bwpIndex : Z;
  m_harqProcess : Z; m_rbgBitmask : list bool; m_tpc : Z }.

(** NrMacSchedulerOfdma::GetTpc *)
Definition GetTpc : Z := 1.

(** NS_ASSERT (std::count (bitmask, 0) != GetBandwidthInRbg ()) *)
Definition check_mask (bandwidthInRbg : nat) (mask : list bool) : res unit :=
  abort_if (length (filter (fun x => x = false) mask) =? bandwidthInRbg)%nat "NS_ASSERT: empty bitmask".

(** NrMacSchedulerOfdma::CreateDlDci; [GetDlNotchedRbgMask] is empty or has one bit per RBG. *)
Definition CreateDlDci `{LibM} `{CppReduce} (NumRbPerRbg : Z) (bandwidthInRbg : nat)
    (GetDlNotchedRbgMask : list bool) (bwpId : Z) (amc : Amc) (spoint : PointInFTPlane) (maxSym : Z)
    (ue : UeInfoDl) : res (UeInfoDl * option Dci) :=
  let* dlMcs := GetDlMcs amc ue in
  let ue := ue <| m_fhMaxMcsAssignable := None |> in
  let rbgs := Z.of_nat (length ue.(m_dlRBG)) in
  let* tbs := CalculateTbSize dlMcs ue.(m_dlRank) (u32 (rbgs * NumRbPerRbg)) amc in
  let* _ := abort_if (maxSym * Z.of_nat bandwidthInRbg <? rbgs) "NS_ASSERT: too many RBGs" in
  let* _ := abort_if (Z.of_nat bandwidthInRbg <=? spoint.(spoint_rbg)) "NS_ASSERT(spoint->m_rbg < GetBandwidthInRbg())" in
  let* _ := abort_if (255 <? maxSym) "NS_ASSERT(maxSym <= UINT8_MAX)" in
  if tbs <? 10 then Ok (ue <| m_dlTbSize := 0 |>, None) else
  let* rbgBitmask := CreateRbgBitmaskFromAllocatedRbgs bandwidthInRbg GetDlNotchedRbgMask ue.(m_dlRBG) in
  let* _ := check_mask bandwidthInRbg rbgBitmask in
  Ok (ue, Some (mkDci ue.(dl_rnti) DL spoint.(spoint_sym) maxSym dlMcs ue.(m_dlRank) ue.(m_dlPrecMats)
                  tbs 1 0 DATA bwpId 0 rbgBitmask GetTpc)).

(** NrMacSchedulerOfdma::CreateUlDci *)
Definition CreateUlDci `{NrAmc} (NumRbPerRbg : Z) (bandwidthInRbg : nat)
    (GetDlNotchedRbgMask : list bool) (bwpId : Z) (m_ulPrecMats : option nat) (spoint : PointInFTPlane)
    (maxSym : Z) (ue : UeInfoUl) : res (option Dci) :=
  let tbs := UlScheduler.CalculateTbSize ue.(m_ulMcs) ue.(m_ulRank)
               (u32 (Z.of_nat (length ue.(m_ulRBG)) * NumRbPerRbg)) in
  if tbs <? 12 then Ok None else
  let* _ := abort_if (maxSym =? 0) "division by zero" in
  let* rbgBitmask := CreateRbgBitmaskFromAllocatedRbgs bandwidthInRbg GetDlNotchedRbgMask ue.(m_ulRBG) in
  let* _ := abort_if (spoint.(spoint_sym) <? maxSym) "NS_ASSERT(spoint->m_sym >= maxSym)" in
  let* _ := check_mask bandwidthInRbg rbgBitmask in
  Ok (Some (mkDci ue.(m_rnti) UL (u8 (spoint.(spoint_sym) - maxSym)) (u8 maxSym) ue.(m_ulMcs) ue.(m_ulRank)
              m_ulPrecMats tbs 1 0 DATA bwpId 0 rbgBitmask GetTpc)).

(** NrMacSchedulerOfdma::ChangeDlBeam and ChangeUlBeam *)
Definition ChangeDlBeam (symOfBeam : Z) (spoint : PointInFTPlane) : PointInFTPlane :=
  mkPoint 0 (u8 (spoint.(spoint_sym) + symOfBeam)).

Definition ChangeUlBeam (symOfBeam : Z) (spoint : PointInFTPlane) : PointInFTPlane :=
  mkPoint 0 (u8 (spoint.(spoint_sym) - symOfBeam)).
