(* ===== verification/DlProps.v ===== *)
(** The properties of the downlink allocation. *)
From Stdlib Require Import ZArith Lia SpecFloat Sorting.Sorted.
From stdpp Require Import base list gmap strings list_numbers sets.
From coqutil Require Import Datatypes.RecordSettersUsingExistingGetters.
From S2P Require Import Prelude OrdMap Messages UlScheduler UlFacts UlProps Amc AmcProps DlUe CqiManagement CqiProps.
From S2P Require Import DlScheduler DlFacts Dci.
Open Scope Z_scope.
(** ** One beam *)

(** A UE with nothing assigned *)
Definition unassigned (u : UeInfoDl) : Prop := u.(m_dlRBG) = [] /\ u.(m_dlSym) = [] /\ u.(m_dlTbSize) = 0.

Lemma place_unassigned b u : unassigned u -> place b u [] 0 = u.
Proof. intros (E1 & E2 & E3). destruct u. cbn in *. subst. reflexivity. Qed.

Section props.
Context `{LibM} `{CppReduce} `{CppStableSort} `{StdSort} `{!StdSortLaws}.
Context (NumRbPerRbg : Z) (m_mcsCsiSource : McsCsiSource) (amc : Amc) (bitmask : list bool).

(** A beam whose UEs hold the RBGs [alloc]: each UE is as it was at the start but for its RBGs,
    its symbols and its transport block, which is that of its RBGs; what is given and what is
    left ([rest]) are the RBGs of the mask; and the beam is at its end. *)
Definition beam_result (n : Z) (u0 : nat -> UeInfoDl) (v : list (nat * Z)) (ues : gmap nat UeInfoDl) : Prop :=
  exists alloc rest v',
    (forall p, p ∈ v.*1 ->
       ues !! p = Some (place n (u0 p) (alloc p) (tbs NumRbPerRbg amc n u0 p (alloc p)))) /\
    concat (alloc <$> v.*1) ++ rest ≡ₚ remaining_rbgs bitmask /\
    beam_end NumRbPerRbg m_mcsCsiSource amc n u0 alloc rest v v'.

Lemma beam_init b ptrs u0 ues q k :
  NoDup ptrs -> (forall p, p ∈ ptrs -> ues !! p = Some (u0 p) /\ unassigned (u0 p)) ->
  rep NumRbPerRbg amc b bitmask ptrs u0 ues (fun _ => [])
    (mkDlState ues (remaining_rbgs bitmask) 0 0 bitmask q k).
Proof.
  intros N U. assert (concat ((fun _ : nat => @nil Z) <$> ptrs) = []) as C by (clear; induction ptrs; done).
  split; cbn; try done.
  - intros p Hp. destruct (U p Hp) as [-> Un]. f_equal. symmetry. exact (place_unassigned b (u0 p) Un).
  - by rewrite C.
  - by rewrite C.
  - intros i Hi. destruct (lookup_lt_is_Some_2 bitmask i Hi) as [a Ha]. rewrite Ha. f_equal.
    destruct a; symmetry; [apply bool_decide_true|apply bool_decide_false].
    + by apply remaining_available.
    + intros [_ E]%remaining_elem. rewrite Nat2Z.id in E. congruence.
Qed.

Lemma assign_dl_beam_spec n u0 v ues q k :
  existsb id bitmask = true -> beam_ok NumRbPerRbg amc n bitmask v.*1 u0 ->
  (forall p, p ∈ v.*1 -> ues !! p = Some (u0 p) /\ unassigned (u0 p)) ->
  exists ues' q' k', assign_dl_beam NumRbPerRbg m_mcsCsiSource amc bitmask n v (ues, q, k) = Ok (ues', q', k') /\
    beam_result n u0 v ues' /\ (forall p, p ∉ v.*1 -> ues' !! p = ues !! p).
Proof.
  intros X OK U. unfold assign_dl_beam. rewrite bool_decide_false.
  2:{ by apply remaining_nonempty. }
  cbn [abort_if res_bind].
  edestruct reaping_rep as (s & alloc & v' & -> & R & _ & B);
    [exact OK|apply beam_init; [apply OK|exact U]|apply OK| |apply Nat.lt_succ_diag_r|].
  { apply Forall_forall. intros e He. by apply list_elem_of_fmap_2. }
  cbn [res_bind]. do 3 eexists. split; [done|]. split.
  - exists alloc, s.(remainingRbgSet), v'. split_and!; [apply R|apply R|exact B].
  - intros p Hp. by apply (rep_other _ _ _ _ _ _ _ _ _ R).
Qed.

(** What a beam's result says of a UE: its RBGs are over all the symbols of the beam, each once,
    and its transport block is that of its RBGs. *)
Lemma result_ue n u0 v ues p u :
  beam_ok NumRbPerRbg amc n bitmask v.*1 u0 -> beam_result n u0 v ues -> p ∈ v.*1 -> ues !! p = Some u ->
  exists l, NoDup l /\ l ⊆ remaining_rbgs bitmask /\ u = place n (u0 p) l u.(m_dlTbSize) /\
    UpdateDlMetric NumRbPerRbg amc u = Ok u.
Proof.
  intros OK (alloc & rest & v' & E & P & _) Hp Hu. rewrite (E p Hp) in Hu. injection Hu as <-.
  destruct (concat_upd alloc p [] v.*1) as (rest' & Ec & _); [apply OK|done|]. rewrite Ec in P.
  assert (NoDup (alloc p) /\ alloc p ⊆ remaining_rbgs bitmask) as [N S].
  { split.
    - pose proof (remaining_NoDup bitmask) as N. rewrite <- P in N.
      apply NoDup_app in N as [N _]. by apply NoDup_app in N as [N _].
    - intros r Hr. rewrite <- P. set_solver. }
  exists (alloc p). split_and!; [done|done|done|]. by apply (tbs_metric NumRbPerRbg amc n bitmask v.*1 u0 OK).
Qed.

(** Two UEs of a beam share no RBG. *)
Lemma result_exclusive n u0 v ues p p' u u' r :
  NoDup v.*1 -> beam_result n u0 v ues -> p ∈ v.*1 -> p' ∈ v.*1 -> ues !! p = Some u -> ues !! p' = Some u' ->
  r ∈ u.(m_dlRBG) -> r ∈ u'.(m_dlRBG) -> p' = p.
Proof.
  intros N (alloc & rest & v' & Eu & P & _) Hp Hp' Hu Hu' Hr Hr'.
  rewrite (Eu p Hp) in Hu. rewrite (Eu p' Hp') in Hu'. injection Hu as <-. injection Hu' as <-.
  apply expand_elem in Hr, Hr'. destruct (decide (p' = p)) as [|Ne]; [done|exfalso].
  destruct (concat_upd alloc p [] v.*1 N Hp) as (rest1 & E1 & E2).
  assert (r ∈ rest1) as Hr1.
  { change ([] ++ rest1) with rest1 in E2. rewrite <- E2. eapply concat_elem; [exact Hp'|]. by rewrite upd_ne. }
  pose proof (remaining_NoDup bitmask) as Nr. rewrite <- P, E1 in Nr.
  apply NoDup_app in Nr as [Nr _]. apply NoDup_app in Nr as (_ & Nr & _). by apply (Nr r).
Qed.

(** A UE with RBGs has a block of at least 10 bytes. *)
Lemma result_block n u0 v ues p u :
  beam_result n u0 v ues -> p ∈ v.*1 -> ues !! p = Some u ->
  u.(m_dlRBG) = [] /\ u.(m_dlTbSize) = 0 \/ u.(m_dlRBG) <> [] /\ 10 <= u.(m_dlTbSize).
Proof.
  intros (alloc & rest & v' & Eu & _ & B1 & B2 & B3 & _) Hp Hu. rewrite (Eu p Hp) in Hu. injection Hu as <-.
  change (m_dlRBG (place n (u0 p) (alloc p) (tbs NumRbPerRbg amc n u0 p (alloc p)))) with (expand n (alloc p)).
  change (m_dlTbSize (place n (u0 p) (alloc p) (tbs NumRbPerRbg amc n u0 p (alloc p))))
    with (tbs NumRbPerRbg amc n u0 p (alloc p)).
  destruct (decide (expand n (alloc p) = [])) as [Ex|Ex]; [left; split; [done|by apply tbs_empty]|right].
  split; [done|]. apply list_elem_of_fmap in Hp as (ue & -> & Hue).
  destruct (decide (ue ∈ v')) as [Hin|Hin]; [by apply B3|]. by destruct Ex; apply B2.
Qed.

(** ** A slot *)

Section slot.
Context {BeamId : Type} `{EqDecision BeamId} (em : NrErrorModel) `{!ErrorModelLaws em} (nsb : Z).
Implicit Types (activeDl : list (BeamId * list (nat * Z))) (spb policy : list (BeamId * Z)).

(** What a slot starts from.  The active UEs are in the store with nothing assigned and well
    formed, each in one beam; the MCS is the wideband one or the average one; the transport
    block of any allocation that fits a beam can be computed. *)
Record slot_ready (u0 : nat -> UeInfoDl) activeDl spb (ues : gmap nat UeInfoDl) : Prop := {
  sr_mask : existsb id bitmask = true /\ Z.of_nat (length bitmask) <= 2 ^ 16;
  sr_model : amc.(m_errorModel) = em;
  sr_ptrs : NoDup (active_ptrs activeDl);
  sr_beams : forall b n, b ∈ activeDl.*1 -> beam_at b spb = Some n ->
    0 <= n /\ 0 <= NumRbPerRbg /\ Z.of_nat (length bitmask) * n * NumRbPerRbg < 2 ^ 32;
  sr_ues : forall p, p ∈ active_ptrs activeDl ->
    ues !! p = Some (u0 p) /\ unassigned (u0 p) /\ ue_wf em (Z.of_nat (length bitmask)) nsb (u0 p) /\
    ((u0 p).(ue_mcsCsiSource) = AVG_MCS \/ (u0 p).(ue_mcsCsiSource) = WIDEBAND_MCS);
  sr_blocks : forall b n p mcs nprb, b ∈ activeDl.*1 -> beam_at b spb = Some n -> p ∈ active_ptrs activeDl ->
    0 <= mcs <= em.(GetMaxMcs) -> 0 <= nprb <= Z.of_nat (length bitmask) * n * NumRbPerRbg ->
    exists tbs, CalculateTbSize mcs (u0 p).(m_dlRank) nprb amc = Ok tbs
}.

Lemma in_active activeDl b v p : (b, v) ∈ activeDl -> p ∈ v.*1 -> p ∈ active_ptrs activeDl.
Proof.
  intros Hv Hp. apply list_elem_of_In, in_concat. exists v.*1. split; apply list_elem_of_In; [|done].
  apply list_elem_of_fmap. by exists (b, v).
Qed.

Lemma sub_length (l : list Z) : NoDup l -> l ⊆ remaining_rbgs bitmask -> (length l <= length bitmask)%nat.
Proof.
  intros N S. pose proof (NoDup_submseteq l _ N S) as M. apply submseteq_length in M.
  unfold remaining_rbgs in M. rewrite length_fmap in M.
  pose proof (length_filter (fun i => bitmask !! i = Some true) (seq 0 (length bitmask))) as F.
  rewrite length_seq in F. lia.
Qed.

(** The beams of such a slot are in order. *)
Lemma ready_beam_ok u0 activeDl spb ues b v n :
  slot_ready u0 activeDl spb ues -> (b, v) ∈ activeDl -> NoDup v.*1 -> beam_at b spb = Some n ->
  beam_ok NumRbPerRbg amc n bitmask v.*1 u0.
Proof.
  intros R Hv N Hn. assert (b ∈ activeDl.*1) as Hb by (apply list_elem_of_fmap; by exists (b, v)).
  destruct (sr_beams _ _ _ _ R b n Hb Hn) as (N0 & K0 & Lt).
  assert (forall r, r ∈ remaining_rbgs bitmask -> 0 <= r < Z.of_nat (length bitmask)) as Rng.
  { intros r [R0 L]%remaining_elem. apply lookup_lt_Some in L. lia. }
  split; [done|done|apply R| |].
  - intros p r Hp Ni Hr. destruct (sr_ues _ _ _ _ R p (in_active _ _ _ _ Hv Hp)) as (_ & _ & W & _).
    destruct (sb_of_ok em _ nsb (u0 p) r W Ni (Rng r Hr)) as (i & -> & _). done.
  - intros p l Hp Nl Sl. destruct (sr_ues _ _ _ _ R p (in_active _ _ _ _ Hv Hp)) as (_ & _ & W & Src).
    unfold UpdateDlMetric. change (m_dlRBG (place n (u0 p) l 0)) with (expand n l).
    destruct (expand n l) as [|r0 l0] eqn:Ex; [done|]. rewrite <- Ex.
    destruct (GetDlMcs_ok em (Z.of_nat (length bitmask)) nsb amc (place n (u0 p) l 0)) as (m & -> & Rm).
    { exact (sr_model _ _ _ _ R). } { exact W. }
    { apply Forall_forall. intros r Hr. exact (Rng r (Sl r (expand_elem n l r Hr))). } { exact Src. }
    cbn [res_bind]. change (m_dlRank (place n (u0 p) l 0)) with (m_dlRank (u0 p)).
    pose proof (sub_length l Nl Sl) as Le. rewrite expand_length.
    assert (0 <= Z.of_nat (length l * Z.to_nat n) * NumRbPerRbg <= Z.of_nat (length bitmask) * n * NumRbPerRbg) as Rp.
    { rewrite Nat2Z.inj_mul, Z2Nat.id by lia.
      assert (0 <= Z.of_nat (length l) * n <= Z.of_nat (length bitmask) * n) by nia. nia. }
    rewrite wrap_small by (unfold fits; lia).
    destruct (sr_blocks _ _ _ _ R b n p m _ Hb Hn (in_active _ _ _ _ Hv Hp) Rm Rp) as [t ->]. done.
Qed.

(** Each beam works on UEs the other beams leave alone. *)
Lemma dl_beams_fold u0 spb activeDl ues q k :
  existsb id bitmask = true -> NoDup (active_ptrs activeDl) ->
  (forall b v, (b, v) ∈ activeDl -> exists n, beam_at b spb = Some n /\ beam_ok NumRbPerRbg amc n bitmask v.*1 u0) ->
  (forall p, p ∈ active_ptrs activeDl -> ues !! p = Some (u0 p) /\ unassigned (u0 p)) ->
  exists ues' q' k',
    res_fold (fun el rr =>
      match beam_at el.1 spb with
      | None => Abort "std::out_of_range"
      | Some beamSym => assign_dl_beam NumRbPerRbg m_mcsCsiSource amc bitmask beamSym el.2 rr
      end) activeDl (ues, q, k) = Ok (ues', q', k') /\
    (forall p, p ∉ active_ptrs activeDl -> ues' !! p = ues !! p) /\
    forall b v n, (b, v) ∈ activeDl -> beam_at b spb = Some n -> beam_result n u0 v ues'.
Proof.
  intros X. revert ues q k. induction activeDl as [|[b v] l IH]; intros ues q k N B U.
  - exists ues, q, k. split_and!; [done|done|]. by intros b v n ?%elem_of_nil.
  - unfold active_ptrs in *. cbn [fmap list_fmap concat fst snd] in *.
    apply NoDup_app in N as (N1 & N2 & N3).
    destruct (B b v ltac:(by left)) as (n & Hn & Ok_b). cbn [res_fold fst snd]. rewrite Hn.
    destruct (assign_dl_beam_spec n u0 v ues q k X Ok_b) as (ues1 & q1 & k1 & -> & R1 & O1);
      [intros p Hp; apply U; set_solver|]. cbn [res_bind].
    destruct (IH ues1 q1 k1 N3) as (ues' & q' & k' & -> & O & R).
    { intros c u Hc. apply B. by right. }
    { intros p Hp. rewrite O1 by (intros Hv; by apply (N2 p Hv)). apply U. set_solver. }
    exists ues', q', k'. split_and!; [done| |].
    + intros p Hp. rewrite O, O1 by set_solver. done.
    + intros c u m [[= -> ->]|Hc]%elem_of_cons Hm; [|by eapply R].
      rewrite Hn in Hm. injection Hm as ->. destruct R1 as (alloc & rest & v' & E & P & Bend).
      exists alloc, rest, v'. split_and!; [|done|done]. intros p Hp. rewrite O by (by apply N2). by apply E.
Qed.

(** The allocation of a slot returns, with a result for every beam. *)
Lemma AssignDLRBG_spec u0 policy activeDl ues q k :
  slot_ready u0 activeDl (GetSymPerBeam policy activeDl) ues ->
  exists ues' q' k',
    AssignDLRBG NumRbPerRbg m_mcsCsiSource amc bitmask policy activeDl (ues, q, k)
      = Ok (GetSymPerBeam policy activeDl, (ues', q', k')) /\
    (forall p, p ∉ active_ptrs activeDl -> ues' !! p = ues !! p) /\
    forall b v n, (b, v) ∈ activeDl -> beam_at b (GetSymPerBeam policy activeDl) = Some n ->
      beam_result n u0 v ues'.
Proof.
  intros R. unfold AssignDLRBG. set (spb := GetSymPerBeam policy activeDl) in *.
  destruct (dl_beams_fold u0 spb activeDl ues q k) as (ues' & q' & k' & -> & O & B).
  - apply R.
  - apply R.
  - intros b v Hv. destruct (GetSymPerBeam_active policy activeDl b) as [n Hn].
    { apply list_elem_of_fmap. by exists (b, v). }
    exists n. split; [done|]. eapply ready_beam_ok; [done|done| |done].
    pose proof (sr_ptrs _ _ _ _ R) as N. unfold active_ptrs in N.
    clear - N Hv. induction activeDl as [|[c w] l IH]; [by apply elem_of_nil in Hv|].
    cbn in N. apply NoDup_app in N as (N1 & _ & N3). apply elem_of_cons in Hv as [[= -> ->]|Hv]; [done|by apply IH].
  - intros p Hp. destruct (sr_ues _ _ _ _ R p Hp) as (E & Un & _). done.
  - exists ues', q', k'. done.
Qed.

(** C30: the allocation of a downlink slot always ends: neither the filling nor the reaping of a
    beam can run forever or hit an assertion, whatever the order std::sort and the queue give
    the UEs; it changes nothing of a UE but its RBGs, its symbols and its transport block. *)
Theorem dl_allocation_returns u0 policy activeDl ues q k :
  slot_ready u0 activeDl (GetSymPerBeam policy activeDl) ues ->
  exists ues' q' k',
    AssignDLRBG NumRbPerRbg m_mcsCsiSource amc bitmask policy activeDl (ues, q, k)
      = Ok (GetSymPerBeam policy activeDl, (ues', q', k')) /\
    (forall p, p ∉ active_ptrs activeDl -> ues' !! p = ues !! p) /\
    forall b v p, (b, v) ∈ activeDl -> p ∈ v.*1 -> exists u, ues' !! p = Some u /\
      u = (u0 p) <| m_dlRBG := u.(m_dlRBG) |> <| m_dlSym := u.(m_dlSym) |> <| m_dlTbSize := u.(m_dlTbSize) |>.
Proof.
  intros R. destruct (AssignDLRBG_spec u0 policy activeDl ues q k R) as (ues' & q' & k' & E & O & B).
  exists ues', q', k'. split_and!; [done|done|]. intros b v p Hv Hp.
  destruct (GetSymPerBeam_active policy activeDl b) as [n Hn].
  { apply list_elem_of_fmap. by exists (b, v). }
  destruct (B b v n Hv Hn) as (alloc & rest & v' & Eu & _). rewrite (Eu p Hp). eexists. done.
Qed.

Lemma beam_NoDup activeDl b v : NoDup (active_ptrs activeDl) -> (b, v) ∈ activeDl -> NoDup v.*1.
Proof.
  unfold active_ptrs. intros N Hv. induction activeDl as [|[c w] l IH]; [by apply elem_of_nil in Hv|].
  cbn in N. apply NoDup_app in N as (N1 & _ & N3). apply elem_of_cons in Hv as [[= -> ->]|Hv]; [done|by apply IH].
Qed.

(** in a downlink beam no RBG is given to two UEs, only RBGs of the mask are given, and each
    is given once, for all the symbols of the beam. *)
Theorem dl_rbg_exclusive u0 policy activeDl ues q k :
  slot_ready u0 activeDl (GetSymPerBeam policy activeDl) ues ->
  exists spb ues' q' k',
    AssignDLRBG NumRbPerRbg m_mcsCsiSource amc bitmask policy activeDl (ues, q, k) = Ok (spb, (ues', q', k')) /\
    forall b v n p u, (b, v) ∈ activeDl -> beam_at b spb = Some n -> p ∈ v.*1 -> ues' !! p = Some u ->
      (exists l, NoDup l /\ u.(m_dlRBG) = expand n l /\ u.(m_dlSym) = expand_sym n l) /\
      forall r, r ∈ u.(m_dlRBG) -> bitmask !! Z.to_nat r = Some true /\
        forall p' u', p' ∈ v.*1 -> ues' !! p' = Some u' -> r ∈ u'.(m_dlRBG) -> p' = p.
Proof.
  intros R. destruct (AssignDLRBG_spec u0 policy activeDl ues q k R) as (ues' & q' & k' & E & _ & B).
  eexists _, ues', q', k'. split; [done|]. intros b v n p u Hv Hn Hp Hu. specialize (B b v n Hv Hn).
  pose proof (beam_NoDup _ _ _ (sr_ptrs _ _ _ _ R) Hv) as N.
  pose proof (ready_beam_ok _ _ _ _ _ _ _ R Hv N Hn) as OK.
  destruct (result_ue n u0 v ues' p u OK B Hp Hu) as (l & Nl & Sl & Ep & _).
  split; [exists l; rewrite Ep; done|]. intros r Hr. split.
  - rewrite Ep in Hr. apply expand_elem, Sl, remaining_elem in Hr. apply Hr.
  - intros p' u' Hp' Hu' Hr'. by apply (result_exclusive n u0 v ues' p p' u u' r).
Qed.

(** after the allocation a UE has RBGs worth sending, a transport block of at least 10
    bytes, or no RBG at all; and the block is that of its RBGs and of the MCS estimated on
    them, although RBGs have been given back and handed on. *)
Theorem dl_block_or_nothing u0 policy activeDl ues q k :
  slot_ready u0 activeDl (GetSymPerBeam policy activeDl) ues ->
  exists spb ues' q' k',
    AssignDLRBG NumRbPerRbg m_mcsCsiSource amc bitmask policy activeDl (ues, q, k) = Ok (spb, (ues', q', k')) /\
    forall b v p u, (b, v) ∈ activeDl -> p ∈ v.*1 -> ues' !! p = Some u ->
      UpdateDlMetric NumRbPerRbg amc u = Ok u /\
      (u.(m_dlRBG) = [] /\ u.(m_dlTbSize) = 0 \/ u.(m_dlRBG) <> [] /\ 10 <= u.(m_dlTbSize)).
Proof.
  intros R. destruct (AssignDLRBG_spec u0 policy activeDl ues q k R) as (ues' & q' & k' & E & _ & B).
  eexists _, ues', q', k'. split; [done|]. intros b v p u Hv Hp Hu.
  destruct (GetSymPerBeam_active policy activeDl b) as [n Hn].
  { apply list_elem_of_fmap. by exists (b, v). }
  specialize (B b v n Hv Hn). pose proof (beam_NoDup _ _ _ (sr_ptrs _ _ _ _ R) Hv) as N.
  pose proof (ready_beam_ok _ _ _ _ _ _ _ R Hv N Hn) as OK.
  destruct (result_ue n u0 v ues' p u OK B Hp Hu) as (_ & _ & _ & _ & M).
  split; [done|]. by apply (result_block n u0 v ues' p u).
Qed.

(** C31: the allocation leaves RBGs of the mask unused only when no UE takes them: every UE of the
    beam that has an allocation then has enough for its buffer, or refuses the RBGs that are
    left, because the best of them is far worse than its own or would lower its block. *)
Theorem dl_work_conserving u0 policy activeDl ues q k :
  slot_ready u0 activeDl (GetSymPerBeam policy activeDl) ues ->
  exists spb ues' q' k',
    AssignDLRBG NumRbPerRbg m_mcsCsiSource amc bitmask policy activeDl (ues, q, k) = Ok (spb, (ues', q', k')) /\
    forall b v n, (b, v) ∈ activeDl -> beam_at b spb = Some n -> 0 < n ->
      exists rest,
        (forall r, r ∈ rest <-> r ∈ remaining_rbgs bitmask /\
           forall p u, p ∈ v.*1 -> ues' !! p = Some u -> r ∉ u.(m_dlRBG)) /\
        (rest <> [] -> forall p buf u, (p, buf) ∈ v -> ues' !! p = Some u -> u.(m_dlRBG) <> [] ->
           Z.max buf 10 <= u.(m_dlTbSize) \/
           exists l, u.(m_dlRBG) = expand n l /\ refuses NumRbPerRbg m_mcsCsiSource amc n u0 p l rest = true).
Proof.
  intros R. destruct (AssignDLRBG_spec u0 policy activeDl ues q k R) as (ues' & q' & k' & E & _ & B).
  eexists _, ues', q', k'. split; [done|]. intros b v n Hv Hn Hn0.
  pose proof (beam_NoDup _ _ _ (sr_ptrs _ _ _ _ R) Hv) as N.
  destruct (B b v n Hv Hn) as (alloc & rest & v' & Eu & P & B1 & B2 & B3 & B4).
  exists rest. split.
  - intros r. pose proof (remaining_NoDup bitmask) as Nr. rewrite <- P in Nr.
    apply NoDup_app in Nr as (_ & Nd & _). split.
    + intros Hr. split; [rewrite <- P; set_solver|]. intros p u Hp Hu Hru. rewrite (Eu p Hp) in Hu.
      injection Hu as <-. apply expand_elem in Hru. apply (Nd r); [by eapply concat_elem|done].
    + intros [Hr Nu]. rewrite <- P in Hr. apply elem_of_app in Hr as [Hr|Hr]; [exfalso|done].
      apply list_elem_of_In, in_concat in Hr as (l & Hl & Hr). apply list_elem_of_In in Hl, Hr.
      apply list_elem_of_fmap in Hl as (p & -> & Hp). apply (Nu p _ Hp (Eu p Hp)).
      by apply elem_expand.
  - intros Nr p buf u Hue Hu Nx. destruct B4 as [?|B4]; [done|].
    assert (p ∈ v.*1) as Hp by (by apply (list_elem_of_fmap_2 fst _ _ Hue)).
    rewrite (Eu p Hp) in Hu. injection Hu as <-.
    destruct (decide ((p, buf) ∈ v')) as [Hin|Hin]; [|by destruct Nx; apply (B2 (p, buf))].
    rewrite Forall_forall in B4. destruct (B4 _ Hin) as [C|C]; [by left|right].
    exists (alloc p). done.
Qed.

End slot.
End props.

(** ** Witnesses *)

Lemma insert_by_sorted {A} (key : A -> Z) a l :
  StronglySorted (fun a b => key a <= key b) l -> StronglySorted (fun a b => key a <= key b) (insert_by key a l).
Proof.
  induction 1 as [|b l S IH F]; cbn [insert_by]; [by repeat constructor|].
  destruct (Z.ltb_spec (key b) (key a)) as [L|L].
  - constructor; [done|]. rewrite insert_by_perm. constructor; [lia|done].
  - constructor; [by constructor|]. constructor; [done|]. eapply Forall_impl; [exact F|]. cbn. lia.
Qed.

(** A standard library: insertion sorts, and sums from the left *)
Definition toy_sort : StdSort := {| sort_by_key := fun A key l => stable_sort key l |}.
Definition toy_stable : CppStableSort := {| compared := reverse |}.

#[export] Instance toy_sort_laws : @StdSortLaws toy_sort.
Proof.
  split; intros A key l; cbn.
  - apply stable_sort_perm.
  - induction l as [|a l IH]; [constructor|]. by apply insert_by_sorted.
Qed.

(** Beam 0 has UE 0, with two sub-bands, and UE 1, without; beam 1 has UE 2, whose
    MCS is so low that all the RBGs of its beam carry less than 10 bytes. *)
Definition toy_u0 (p : nat) : UeInfoDl :=
  match p with
  | O => mkUeDl 1 0 [] [] 0 9 None 1 None [mkSb 12 22 d_zero d_zero; mkSb 3 4 d_zero d_zero] [0; 0; 0; 1; 1]
           (mkSchedCqi WB [] 12 [12; 3] 10) AVG_MCS
  | S O => mkUeDl 2 0 [] [] 0 5 None 1 None [] [] (mkSchedCqi WB [] 4 [] 10) AVG_MCS
  | _ => mkUeDl 3 0 [] [] 0 0 None 1 None [] [] (mkSchedCqi WB [] 1 [] 10) WIDEBAND_MCS
  end.
Definition toy_dl_ues : gmap nat UeInfoDl := <[0%nat := toy_u0 0]> (<[1%nat := toy_u0 1]> {[2%nat := toy_u0 2]}).
Definition toy_dl_active : list (Z * list (nat * Z)) := [(0, [(0%nat, 60); (1%nat, 30)]); (1, [(2%nat, 500)])].
Definition toy_mask : list bool := [true; false; true; true; true].

Lemma lte_tb_table tbler rank top :
  forallb (fun k => forallb (fun n => is_ok (CalculateTbSize k rank n (lte_amc (fun _ _ _ _ => d_zero))))
                      (seqZ 0 (top + 1))) (seqZ 0 29) = true ->
  forall k n, 0 <= k <= 28 -> 0 <= n <= top -> exists tbs, CalculateTbSize k rank n (lte_amc tbler) = Ok tbs.
Proof.
  intros F k n Hk Hn. rewrite forallb_forall in F. specialize (F k ltac:(apply list_elem_of_In, elem_of_seqZ; lia)).
  rewrite forallb_forall in F. specialize (F n ltac:(apply list_elem_of_In, elem_of_seqZ; lia)).
  change (CalculateTbSize k rank n (lte_amc tbler)) with (CalculateTbSize k rank n (lte_amc (fun _ _ _ _ => d_zero))).
  destruct (CalculateTbSize k rank n _) as [tbs|]; [by exists tbs|done].
Qed.

Lemma toy_ready :
  slot_ready 6 (lte_amc toy_tbler) toy_mask (lte_error_model toy_tbler) 2 toy_u0 toy_dl_active
    (GetSymPerBeam [(0, 2); (1, 1)] toy_dl_active) toy_dl_ues.
Proof.
  split.
  - done.
  - done.
  - vm_compute. repeat constructor; set_solver.
  - intros b n [->|[->|[]%elem_of_nil]%elem_of_cons]%elem_of_cons [= <-]; cbn; lia.
  - intros p [->|[->|[->|[]%elem_of_nil]%elem_of_cons]%elem_of_cons]%elem_of_cons; (split; [done|]);
      (split; [done|]); (split; [|by (left + right)]); (split; [by vm_compute|]); (split; [done|]);
      (split; [(by left) || by right|]); split; repeat constructor; done.
  - intros b n p mcs nprb [->|[->|[]%elem_of_nil]%elem_of_cons]%elem_of_cons [= <-] Hp;
      (destruct p as [|[|p]]; apply lte_tb_table; by vm_compute).
Qed.

Section witnesses.
#[local] Existing Instance some_libm.
#[local] Existing Instance some_reduce.
#[local] Existing Instance toy_sort.
#[local] Existing Instance toy_stable.

Abbreviation toy_policy := ([(0, 2); (1, 1)] : list (Z * Z)).
Abbreviation toy_assign := (AssignDLRBG 6 AVG_MCS (lte_amc toy_tbler) toy_mask toy_policy toy_dl_active (toy_dl_ues, [], ∅)).

Theorem dl_allocation_returns_witness :
  exists ues' q' k', toy_assign = Ok (GetSymPerBeam toy_policy toy_dl_active, (ues', q', k')) /\
    (forall p, p ∉ active_ptrs toy_dl_active -> ues' !! p = toy_dl_ues !! p) /\
    forall b v p, (b, v) ∈ toy_dl_active -> p ∈ v.*1 -> exists u, ues' !! p = Some u /\
      u = (toy_u0 p) <| m_dlRBG := u.(m_dlRBG) |> <| m_dlSym := u.(m_dlSym) |> <| m_dlTbSize := u.(m_dlTbSize) |>.
Proof.
  apply (dl_allocation_returns 6 AVG_MCS (lte_amc toy_tbler) toy_mask (lte_error_model toy_tbler) 2 toy_u0
    toy_policy toy_dl_active toy_dl_ues [] ∅ toy_ready).
Defined.

Theorem dl_rbg_exclusive_witness :
  exists spb ues' q' k', toy_assign = Ok (spb, (ues', q', k')) /\
    forall b v n p u, (b, v) ∈ toy_dl_active -> beam_at b spb = Some n -> p ∈ v.*1 -> ues' !! p = Some u ->
      (exists l, NoDup l /\ u.(m_dlRBG) = expand n l /\ u.(m_dlSym) = expand_sym n l) /\
      forall r, r ∈ u.(m_dlRBG) -> toy_mask !! Z.to_nat r = Some true /\
        forall p' u', p' ∈ v.*1 -> ues' !! p' = Some u' -> r ∈ u'.(m_dlRBG) -> p' = p.
Proof.
  apply (dl_rbg_exclusive 6 AVG_MCS (lte_amc toy_tbler) toy_mask (lte_error_model toy_tbler) 2 toy_u0
    toy_policy toy_dl_active toy_dl_ues [] ∅ toy_ready).
Defined.

Theorem dl_block_or_nothing_witness :
  exists spb ues' q' k', toy_assign = Ok (spb, (ues', q', k')) /\
    forall b v p u, (b, v) ∈ toy_dl_active -> p ∈ v.*1 -> ues' !! p = Some u ->
      UpdateDlMetric 6 (lte_amc toy_tbler) u = Ok u /\
      (u.(m_dlRBG) = [] /\ u.(m_dlTbSize) = 0 \/ u.(m_dlRBG) <> [] /\ 10 <= u.(m_dlTbSize)).
Proof.
  apply (dl_block_or_nothing 6 AVG_MCS (lte_amc toy_tbler) toy_mask (lte_error_model toy_tbler) 2 toy_u0
    toy_policy toy_dl_active toy_dl_ues [] ∅ toy_ready).
Defined.

Theorem dl_work_conserving_witness :
  exists spb ues' q' k', toy_assign = Ok (spb, (ues', q', k')) /\
    forall b v n, (b, v) ∈ toy_dl_active -> beam_at b spb = Some n -> 0 < n ->
      exists rest,
        (forall r, r ∈ rest <-> r ∈ remaining_rbgs toy_mask /\
           forall p u, p ∈ v.*1 -> ues' !! p = Some u -> r ∉ u.(m_dlRBG)) /\
        (rest <> [] -> forall p buf u, (p, buf) ∈ v -> ues' !! p = Some u -> u.(m_dlRBG) <> [] ->
           Z.max buf 10 <= u.(m_dlTbSize) \/
           exists l, u.(m_dlRBG) = expand n l /\ refuses 6 AVG_MCS (lte_amc toy_tbler) n toy_u0 p l rest = true).
Proof.
  apply (dl_work_conserving 6 AVG_MCS (lte_amc toy_tbler) toy_mask (lte_error_model toy_tbler) 2 toy_u0
    toy_policy toy_dl_active toy_dl_ues [] ∅ toy_ready).
Defined.

End witnesses.
