(* ===== verification/DciProps.v ===== *)
(** The properties of the DCIs: what the downlink allocation gives the UEs is what they are told. *)
From Stdlib Require Import ZArith Lia SpecFloat Sorting.Sorted.
From stdpp Require Import base list gmap strings list_numbers sets.
From coqutil Require Import Datatypes.RecordSettersUsingExistingGetters.
From S2P Require Import Prelude OrdMap Messages UlScheduler UlFacts UlProps Amc AmcProps DlUe CqiManagement CqiProps.
From S2P Require Import DlScheduler DlFacts Dci DlProps.
Open Scope Z_scope.
(** ** The bitmask of a DCI *)

Lemma bitmask_fold notched rbgs mask :
  (forall r, r ∈ rbgs -> 0 <= r /\ notched !! Z.to_nat r = Some true) -> length mask = length notched ->
  exists mask', res_fold (fun rbg mask =>
      match notched !! Z.to_nat rbg with
      | None => Abort "std::out_of_range"
      | Some ok => let* _ := abort_if (negb ok) "Scheduled notched resource" in Ok (<[Z.to_nat rbg := true]> mask)
      end) rbgs mask = Ok mask' /\ length mask' = length notched /\
    forall i, mask' !! i = Some true <-> mask !! i = Some true \/ Z.of_nat i ∈ rbgs.
Proof.
  revert mask. induction rbgs as [|r rbgs IH]; intros mask Hr L; cbn [res_fold].
  - exists mask. split_and!; [done|done|]. intros i. split; [by left|]. by intros [?|?%elem_of_nil].
  - destruct (Hr r ltac:(by left)) as [R0 Er]. rewrite Er. cbn [negb abort_if res_bind].
    destruct (IH (<[Z.to_nat r := true]> mask)) as (mask' & -> & L' & M);
      [intros x Hx; apply Hr; by right|by rewrite length_insert|].
    exists mask'. split_and!; [done|done|]. intros i. rewrite M, elem_of_cons.
    destruct (decide (i = Z.to_nat r)) as [->|Ne].
    + rewrite list_lookup_insert_eq by (rewrite L; by eapply lookup_lt_Some). rewrite Z2Nat.id by lia. naive_solver.
    + rewrite list_lookup_insert_ne by done. assert (Z.of_nat i <> r) by (intros <-; apply Ne; lia). naive_solver.
Qed.

Lemma create_bitmask bw notched rbgs :
  length (GetDlBitmask bw notched) = bw ->
  (forall r, r ∈ rbgs -> 0 <= r /\ GetDlBitmask bw notched !! Z.to_nat r = Some true) ->
  exists mask, CreateRbgBitmaskFromAllocatedRbgs bw notched rbgs = Ok mask /\ length mask = bw /\
    forall i, mask !! i = Some true <-> Z.of_nat i ∈ rbgs.
Proof.
  intros L Hr. unfold CreateRbgBitmaskFromAllocatedRbgs. fold (GetDlBitmask bw notched).
  rewrite L, length_replicate, Nat.eqb_refl. cbn [negb abort_if res_bind].
  destruct (bitmask_fold (GetDlBitmask bw notched) rbgs (replicate bw false) Hr) as (mask & -> & L' & M);
    [by rewrite length_replicate|].
  exists mask. split_and!; [done|by rewrite L'|]. intros i. rewrite M. split; [|by right].
  by intros [[? _]%lookup_replicate|?].
Qed.

Lemma check_mask_ok bw mask i : length mask = bw -> mask !! i = Some true -> check_mask bw mask = Ok tt.
Proof.
  intros L Hi. unfold check_mask.
  pose proof (length_filter_lt (fun x => x = false) mask true) as F.
  rewrite (proj2 (Nat.eqb_neq _ _)); [done|].
  assert (true ∈ mask) by (by eapply list_elem_of_lookup_2). specialize (F H ltac:(done)). lia.
Qed.

(** ** Downlink *)

Section dl.
Context `{LibM} `{CppReduce} `{CppStableSort} `{StdSort} `{!StdSortLaws}.
Context (NumRbPerRbg : Z) (m_mcsCsiSource : McsCsiSource) (amc : Amc).
Context (bandwidthInRbg : nat) (notched : list bool).

(** The DCI of a UE whose transport block is up to date *)
Lemma CreateDlDci_ok bwpId spoint n u :
  UpdateDlMetric NumRbPerRbg amc u = Ok u -> u.(m_dlRBG) <> [] -> 10 <= u.(m_dlTbSize) ->
  length (GetDlBitmask bandwidthInRbg notched) = bandwidthInRbg ->
  (forall r, r ∈ u.(m_dlRBG) -> 0 <= r /\ GetDlBitmask bandwidthInRbg notched !! Z.to_nat r = Some true) ->
  Z.of_nat (length u.(m_dlRBG)) <= n * Z.of_nat bandwidthInRbg -> n <= 255 ->
  spoint.(spoint_rbg) < Z.of_nat bandwidthInRbg ->
  exists dci, CreateDlDci NumRbPerRbg bandwidthInRbg notched bwpId amc spoint n u
      = Ok (u <| m_fhMaxMcsAssignable := None |>, Some dci) /\
    m_tbSize dci = u.(m_dlTbSize) /\ m_numSym dci = n /\ m_symStart dci = spoint.(spoint_sym) /\
    dci_rnti dci = u.(dl_rnti) /\ GetDlMcs amc u = Ok (dci_mcs dci) /\
    length (m_rbgBitmask dci) = bandwidthInRbg /\
    forall i, m_rbgBitmask dci !! i = Some true <-> Z.of_nat i ∈ u.(m_dlRBG).
Proof.
  intros M Ne Tb L Hr Le N Sp. unfold UpdateDlMetric in M. destruct (m_dlRBG u) as [|r0 l0] eqn:Eu; [done|].
  rewrite <- Eu in *. unfold CreateDlDci. destruct (GetDlMcs amc u) as [m|]; [|done]. cbn [res_bind] in *.
  change (m_dlRBG (u <| m_fhMaxMcsAssignable := None |>)) with (m_dlRBG u).
  change (m_dlRank (u <| m_fhMaxMcsAssignable := None |>)) with (m_dlRank u).
  destruct (CalculateTbSize _ _ _ _) as [t|]; [|done]. cbn [res_bind] in *. injection M as M.
  assert (t = m_dlTbSize u) as -> by (by rewrite <- M).
  rewrite (proj2 (Z.ltb_ge _ _)) by lia. rewrite (proj2 (Z.leb_gt _ _)) by lia.
  rewrite (proj2 (Z.ltb_ge 255 n)) by lia. rewrite (proj2 (Z.ltb_ge _ 10)) by lia. cbn [abort_if res_bind].
  destruct (create_bitmask bandwidthInRbg notched (m_dlRBG u) L Hr) as (mask & -> & Lm & Mm). cbn [res_bind].
  assert (r0 ∈ m_dlRBG u) as H0u by (rewrite Eu; by left). destruct (Hr r0 H0u) as [R0 _].
  rewrite (check_mask_ok bandwidthInRbg mask (Z.to_nat r0) Lm); [|apply Mm; by rewrite Z2Nat.id by lia].
  cbn [res_bind]. eexists. split; [done|]. split_and!; done.
Qed.

(** The bitmask of a DCI is made from the RBGs of its UE. *)
Lemma CreateDlDci_mask bwpId spoint n u u' dci :
  CreateDlDci NumRbPerRbg bandwidthInRbg notched bwpId amc spoint n u = Ok (u', Some dci) ->
  CreateRbgBitmaskFromAllocatedRbgs bandwidthInRbg notched u.(m_dlRBG) = Ok (m_rbgBitmask dci).
Proof.
  unfold CreateDlDci. destruct (GetDlMcs amc u) as [m|]; [|done]. cbn [res_bind].
  destruct (CalculateTbSize _ _ _ _) as [t|]; [|done]. cbn [res_bind].
  unfold abort_if at 1 2 3. do 3 (destruct (_ : bool); [done|]; cbn [res_bind]). destruct (t <? 10); [done|].
  change (m_dlRBG (u <| m_fhMaxMcsAssignable := None |>)) with (m_dlRBG u).
  destruct (CreateRbgBitmaskFromAllocatedRbgs _ _ _) as [mask|]; [|done]. cbn [res_bind].
  destruct (check_mask _ _); [|done]. cbn [res_bind]. by intros [= _ <-].
Qed.

(** C29: after the allocation every UE of a beam with symbols that was given RBGs gets a DCI, with
    no assertion failing, for exactly its RBGs and the transport block computed for them; the
    DCIs of two UEs of the beam have no RBG in common. *)
Theorem dl_dcis_match {BeamId} `{EqDecision BeamId} em `{!ErrorModelLaws em} nsb u0 policy
    (activeDl : list (BeamId * list (nat * Z))) ues q k bwpId spoint :
  let bitmask := GetDlBitmask bandwidthInRbg notched in
  slot_ready NumRbPerRbg amc bitmask em nsb u0 activeDl (GetSymPerBeam policy activeDl) ues ->
  length bitmask = bandwidthInRbg -> spoint.(spoint_rbg) < Z.of_nat bandwidthInRbg ->
  exists spb ues' q' k',
    AssignDLRBG NumRbPerRbg m_mcsCsiSource amc bitmask policy activeDl (ues, q, k) = Ok (spb, (ues', q', k')) /\
    forall b v n p u, (b, v) ∈ activeDl -> beam_at b spb = Some n -> n <= 255 -> p ∈ v.*1 ->
      ues' !! p = Some u -> u.(m_dlRBG) <> [] ->
      exists u' dci, CreateDlDci NumRbPerRbg bandwidthInRbg notched bwpId amc spoint n u = Ok (u', Some dci) /\
        m_tbSize dci = u.(m_dlTbSize) /\ 10 <= m_tbSize dci /\ m_numSym dci = n /\ dci_rnti dci = u.(dl_rnti) /\
        (forall i, m_rbgBitmask dci !! i = Some true <-> Z.of_nat i ∈ u.(m_dlRBG)) /\
        forall p' x x' dci', p' ∈ v.*1 -> p' <> p -> ues' !! p' = Some x ->
          CreateDlDci NumRbPerRbg bandwidthInRbg notched bwpId amc spoint n x = Ok (x', Some dci') ->
          forall i, m_rbgBitmask dci !! i = Some true -> m_rbgBitmask dci' !! i = Some true -> False.
Proof.
  intros bitmask R L Sp.
  destruct (AssignDLRBG_spec NumRbPerRbg m_mcsCsiSource amc bitmask em nsb u0 policy activeDl ues q k R)
    as (ues' & q' & k' & E & _ & B).
  eexists _, ues', q', k'. split; [exact E|]. intros b v n p u Hv Hn N255 Hp Hu Ne. specialize (B b v n Hv Hn).
  assert (NoDup v.*1) as N by (eapply beam_NoDup; [eapply sr_ptrs; exact R|exact Hv]).
  assert (beam_ok NumRbPerRbg amc n bitmask v.*1 u0) as OK by
    (eapply ready_beam_ok; [exact _|exact R|exact Hv|exact N|exact Hn]).
  assert (forall p u r, p ∈ v.*1 -> ues' !! p = Some u -> r ∈ u.(m_dlRBG) ->
    0 <= r /\ bitmask !! Z.to_nat r = Some true) as Msk.
  { intros p1 u1 r Hp1 Hu1 Hr.
    destruct (result_ue NumRbPerRbg m_mcsCsiSource amc bitmask n u0 v ues' p1 u1 OK B Hp1 Hu1) as (l & _ & Sl & Ep & _).
    rewrite Ep in Hr. by apply expand_elem, Sl, remaining_elem in Hr. }
  destruct (result_ue NumRbPerRbg m_mcsCsiSource amc bitmask n u0 v ues' p u OK B Hp Hu) as (l & Nl & Sl & Ep & M).
  destruct (result_block NumRbPerRbg m_mcsCsiSource amc bitmask n u0 v ues' p u B Hp Hu) as [[? _]|[_ Tb]]; [done|].
  destruct (CreateDlDci_ok bwpId spoint n u M Ne Tb L) as (dci & Ed & T1 & T2 & _ & T3 & _ & _ & T4);
    [intros r; by apply (Msk p u r)| |done|done|].
  { rewrite Ep. change (Z.of_nat (length (expand n l)) <= n * Z.of_nat bandwidthInRbg).
    rewrite expand_length. pose proof (sub_length bitmask l Nl Sl). pose proof (ok_b _ _ _ _ _ _ OK). nia. }
  eexists _, dci. split; [exact Ed|]. rewrite T1. split_and!; [done|done|done|done|done|].
  intros p' x x' dci' Hp' Np Hx Ed' i Hi Hi'. apply CreateDlDci_mask in Ed'.
  destruct (create_bitmask bandwidthInRbg notched (m_dlRBG x) L) as (mask & Em & _ & Mm);
    [intros r; by apply (Msk p' x r)|].
  rewrite Ed' in Em. injection Em as <-. apply Np.
  apply (result_exclusive NumRbPerRbg m_mcsCsiSource amc bitmask n u0 v ues' p p' u x (Z.of_nat i) N B Hp Hp' Hu Hx);
    [by apply T4|by apply Mm].
Qed.

End dl.

(** ** Uplink *)

(** the DCI of an uplink allocation is checked against the notched mask of the downlink: a UE
    that was given an RBG the downlink notches ends the program, whatever the uplink mask says. *)
Theorem ul_dci_uses_dl_mask `{NrAmc} NumRbPerRbg bandwidthInRbg notched bwpId prec spoint maxSym ue r :
  r ∈ ue.(m_ulRBG) -> 0 <= r -> notched !! Z.to_nat r = Some false ->
  12 <= UlScheduler.CalculateTbSize ue.(m_ulMcs) ue.(m_ulRank) (u32 (Z.of_nat (length ue.(m_ulRBG)) * NumRbPerRbg)) ->
  exists msg, CreateUlDci NumRbPerRbg bandwidthInRbg notched bwpId prec spoint maxSym ue = Abort msg.
Proof.
  intros Hr R0 Hn Tb. unfold CreateUlDci. rewrite (proj2 (Z.ltb_ge _ 12)) by lia.
  destruct (maxSym =? 0); [by eexists|]. cbn [abort_if res_bind].
  assert (exists msg, CreateRbgBitmaskFromAllocatedRbgs bandwidthInRbg notched (m_ulRBG ue) = Abort msg) as [msg ->];
    [|by eexists].
  unfold CreateRbgBitmaskFromAllocatedRbgs. destruct notched as [|b0 l0]; [done|].
  destruct (negb _); [by eexists|]. cbn [abort_if res_bind].
  clear Tb. generalize (replicate bandwidthInRbg false). induction (m_ulRBG ue) as [|x l IH]; intros mask;
    [by apply elem_of_nil in Hr|]. cbn [res_fold].
  destruct ((b0 :: l0) !! Z.to_nat x) as [a|] eqn:Ea; [|by eexists].
  destruct a; [|by eexists]. cbn [negb abort_if res_bind]. apply IH.
  apply elem_of_cons in Hr as [->|Hr]; [congruence|done].
Qed.

(** ** Witnesses *)

Section witnesses.
#[local] Existing Instance some_libm.
#[local] Existing Instance some_reduce.
#[local] Existing Instance toy_sort.
#[local] Existing Instance toy_stable.

Theorem dl_dcis_match_witness :
  exists spb ues' q' k',
    AssignDLRBG 6 AVG_MCS (lte_amc toy_tbler) toy_mask ([(0, 2); (1, 1)] : list (Z * Z)) toy_dl_active
      (toy_dl_ues, [], ∅) = Ok (spb, (ues', q', k')) /\
    forall b v n p u, (b, v) ∈ toy_dl_active -> beam_at b spb = Some n -> n <= 255 -> p ∈ v.*1 ->
      ues' !! p = Some u -> u.(m_dlRBG) <> [] ->
      exists u' dci, CreateDlDci 6 5 toy_mask 0 (lte_amc toy_tbler) (mkPoint 0 1) n u = Ok (u', Some dci) /\
        m_tbSize dci = u.(m_dlTbSize) /\ 10 <= m_tbSize dci /\ m_numSym dci = n /\ dci_rnti dci = u.(dl_rnti) /\
        (forall i, m_rbgBitmask dci !! i = Some true <-> Z.of_nat i ∈ u.(m_dlRBG)) /\
        forall p' x x' dci', p' ∈ v.*1 -> p' <> p -> ues' !! p' = Some x ->
          CreateDlDci 6 5 toy_mask 0 (lte_amc toy_tbler) (mkPoint 0 1) n x = Ok (x', Some dci') ->
          forall i, m_rbgBitmask dci !! i = Some true -> m_rbgBitmask dci' !! i = Some true -> False.
Proof.
  apply (dl_dcis_match 6 AVG_MCS (lte_amc toy_tbler) 5 toy_mask (lte_error_model toy_tbler) 2 toy_u0
    ([(0, 2); (1, 1)] : list (Z * Z)) toy_dl_active toy_dl_ues [] ∅ 0 (mkPoint 0 1)); [exact toy_ready|done|done].
Defined.

End witnesses.

(** The uplink may use RBG 1, which the downlink notches. *)
Theorem ul_dci_uses_dl_mask_witness :
  exists msg, @CreateUlDci toy_amc 1 5 toy_mask 0 None (mkPoint 0 13) 2 (mkUeUl 1 [1; 1] [0; 1] 60 9 1) = Abort msg.
Proof.
  apply (@ul_dci_uses_dl_mask toy_amc 1 5 toy_mask 0 None (mkPoint 0 13) 2 (mkUeUl 1 [1; 1] [0; 1] 60 9 1) 1);
    [by left|done|done|by vm_compute].
Defined.
