(* ===== verification/LogicalChannels.v ===== *)
(** The logical channels of a UE in the scheduler: src/nr/model/nr-mac-scheduler-lcg.{h,cc}, the
    buffer size levels of nr-mac-short-bsr-ce.cc, and the round-robin split of a transport block
    of nr-mac-scheduler-lc-rr.cc.

    The members that only the QoS policies read (the delay budget, the priority, the guaranteed
    bit rate...) are left out.  An unordered_map from channel to channel data is a [gmap]: what
    is computed from it, sums and a std::map, does not depend on the order of iteration. *)
From Stdlib Require Import ZArith Lia.
From stdpp Require Import base list gmap strings.
From coqutil Require Import Datatypes.RecordSettersUsingExistingGetters.
From S2P Require Import Prelude OrdMap.
Open Scope Z_scope.

(** ** NrMacSchedulerLC *)

Record NrMacSchedulerLC := mkLC {
  lc_id : Z;
  m_rlcTransmissionQueueSize : Z;
  m_rlcTransmissionQueueHolDelay : Z;
  m_rlcRetransmissionHolDelay : Z;
  m_rlcRetransmissionQueueSize : Z;
  m_rlcStatusPduSize : Z
}.

(** The constructor: the queues are empty. *)
Definition CreateLC (m_logicalChannelIdentity : Z) : NrMacSchedulerLC :=
  mkLC m_logicalChannelIdentity 0 0 0 0 0.

(** struct SchedDlRlcBufferReqParameters *)
Record RlcBufferReq := mkBufferReq {
  req_rnti : Z;
  req_lcId : Z;
  req_txQueueSize : Z;
  req_txQueueHolDelay : Z;
  req_retxQueueSize : Z;
  req_retxHolDelay : Z;
  req_statusPduSize : Z
}.

(** NrMacSchedulerLC::Update *)
Definition LcUpdate (params : RlcBufferReq) (lc : NrMacSchedulerLC) : res NrMacSchedulerLC :=
  let* _ := abort_if (negb (params.(req_lcId) =? lc.(lc_id))) "NS_ASSERT(params.m_logicalChannelIdentity == m_id)" in
  Ok (mkLC lc.(lc_id) params.(req_txQueueSize) params.(req_txQueueHolDelay) params.(req_retxHolDelay)
        params.(req_retxQueueSize) params.(req_statusPduSize)).

(** NrMacSchedulerLC::GetTotalSize *)
Definition LcTotalSize (lc : NrMacSchedulerLC) : Z :=
  u32 (lc.(m_rlcTransmissionQueueSize) + lc.(m_rlcRetransmissionQueueSize) + lc.(m_rlcStatusPduSize)).

(** ** NrMacSchedulerLCG: its m_lcMap *)

Definition NrMacSchedulerLCG : Type := gmap Z NrMacSchedulerLC.

(** m_lcMap.at (lcId) *)
Definition lc_at (lcId : Z) (lcg : NrMacSchedulerLCG) : res NrMacSchedulerLC :=
  match lcg !! lcId with Some lc => Ok lc | None => Abort "std::out_of_range" end.

(** NrMacSchedulerLCG::Contains, NumOfLC *)
Definition Contains (lcId : Z) (lcg : NrMacSchedulerLCG) : bool := bool_decide (is_Some (lcg !! lcId)).
Definition NumOfLC (lcg : NrMacSchedulerLCG) : Z := Z.of_nat (size lcg).

(** NrMacSchedulerLCG::Insert *)
Definition LcgInsert (lc : NrMacSchedulerLC) (lcg : NrMacSchedulerLCG) : res NrMacSchedulerLCG :=
  let* _ := abort_if (Contains lc.(lc_id) lcg) "NS_ASSERT(!Contains(lc->m_id))" in
  Ok (<[lc.(lc_id) := lc]> lcg).

(** NrMacSchedulerLCG::UpdateInfo of a report of the RLC *)
Definition LcgUpdateInfo (params : RlcBufferReq) (lcg : NrMacSchedulerLCG) : res NrMacSchedulerLCG :=
  let* lc := lc_at params.(req_lcId) lcg in
  let* lc := LcUpdate params lc in
  Ok (<[params.(req_lcId) := lc]> lcg).

(** NrMacSchedulerLCG::UpdateInfo of the size in a BSR *)
Definition LcgUpdateQueue (lcgQueueSize : Z) (lcg : NrMacSchedulerLCG) : res NrMacSchedulerLCG :=
  let* _ := abort_if (1 <? NumOfLC lcg) "NS_ABORT_IF(m_lcMap.size() > 1)" in
  let* _ := abort_if (NumOfLC lcg =? 0) "division by zero" in
  let lcIdPart := u32 (lcgQueueSize / NumOfLC lcg) in
  Ok ((fun lc => lc <| m_rlcTransmissionQueueSize := lcIdPart |>) <$> lcg).

(** NrMacSchedulerLCG::GetTotalSize *)
Definition LcgTotalSize (lcg : NrMacSchedulerLCG) : Z :=
  map_fold (fun _ lc totalSize => u32 (totalSize + LcTotalSize lc)) 0 lcg.

(** NrMacSchedulerLCG::ReleaseLC *)
Definition LcgReleaseLC (lcId : Z) (lcg : NrMacSchedulerLCG) : NrMacSchedulerLCG := delete lcId lcg.

(** The last branch of AssignedData: data of the transmission queue goes out. *)
Definition assigned_tx (lcId size : Z) (type : string) (lc : NrMacSchedulerLC) : NrMacSchedulerLC :=
  let rlcOverhead := if (lcId =? 1) && bool_decide (type = "DL"%string) then 4 else 2 in
  let payload := u32 (size - rlcOverhead) in
  let lc := lc <| m_rlcTransmissionQueueSize ::= fun q => if q <=? payload then 0 else u32 (q - payload) |> in
  let lc := lc <| m_rlcTransmissionQueueSize ::= fun q =>
      if bool_decide (type = "UL"%string) && (0 <? q) && (q <? 12) then 12 else q |> in
  lc <| m_rlcTransmissionQueueSize ::= fun q =>
      if bool_decide (type = "DL"%string) && (0 <? q) && (q <? 10) then 10 else q |>.

(** NrMacSchedulerLCG::AssignedData *)
Definition assigned_lc (lcId size : Z) (type : string) (lc : NrMacSchedulerLC) : NrMacSchedulerLC :=
  if (0 <? lc.(m_rlcStatusPduSize)) && (lc.(m_rlcStatusPduSize) <=? size) then
    lc <| m_rlcStatusPduSize := 0 |>
  else if (0 <? lc.(m_rlcRetransmissionQueueSize)) && (lc.(m_rlcRetransmissionQueueSize) <=? size) then
    lc <| m_rlcRetransmissionQueueSize := 0 |>
  else if 0 <? lc.(m_rlcTransmissionQueueSize) then assigned_tx lcId size type lc
  else lc.

Definition AssignedData (lcId size : Z) (type : string) (lcg : NrMacSchedulerLCG) : res NrMacSchedulerLCG :=
  let* _ := abort_if (NumOfLC lcg =? 0) "NS_ASSERT(!m_lcMap.empty())" in
  let* lc := lc_at lcId lcg in
  Ok (<[lcId := assigned_lc lcId size type lc]> lcg).

(** ** Buffer size levels *)

(** Table 6.1.3-1 of TS 38.321 *)
Definition lookupVector : list Z :=
  [0; 10; 14; 20; 28; 38; 53; 74; 102; 142; 198; 276; 384; 535; 745; 1038; 1446; 2014; 2806; 3909; 5446;
   7587; 10570; 14726; 20516; 28581; 39818; 55474; 77284; 107669; 150000].

(** while (lookupVector[index] < bufferSize) index++ *)
Fixpoint level_loop (table : list Z) (bufferSize index : Z) : Z :=
  match table with
  | [] => index
  | b :: table => if b <? bufferSize then level_loop table bufferSize (index + 1) else index
  end.

(** NrMacShortBsrCe::FromBytesToLevel and FromLevelToBytes *)
Definition FromBytesToLevel (bufferSize : Z) : Z :=
  if 150000 <? bufferSize then 31
  else if bufferSize =? 0 then 0
  else level_loop lookupVector bufferSize 0.

Definition FromLevelToBytes (bufferLevel : Z) : Z :=
  if 30 <? bufferLevel then 150000 * 8 else nth (Z.to_nat bufferLevel) lookupVector 0.

(** ** NrMacSchedulerLcRR *)

(** An entry of activeLc: the channel, the bytes it still wants and the bytes it has. *)
Definition ActiveLc : Type := (Z * Z) * (Z * Z).

(** The map activeLc, built over the groups and their channels *)
Definition active_lcs (ueLCG : gmap Z NrMacSchedulerLCG) : list ActiveLc :=
  foldl (fun m lcg =>
      foldl (fun m lc =>
          if 0 <? LcTotalSize lc.2 then smap_insert (lcg.1, lc.1) (LcTotalSize lc.2, 0) m else m)
        m (map_to_list lcg.2))
    [] (map_to_list ueLCG).

Definition wanting (lc : ActiveLc) : bool := 0 <? lc.2.1.

(** std::count_if *)
Definition num_active (l : list ActiveLc) : Z := Z.of_nat (length (filter (fun lc => wanting lc = true) l)).

(** The block is capped to the smallest remaining buffer. *)
Definition cap_block (block : Z) (lc : ActiveLc) : Z := if wanting lc then Z.min block lc.2.1 else block.

(** assignBlockSize *)
Definition block_size (l : list ActiveLc) (tbs : Z) : Z :=
  let numActive := num_active l in
  let block := if 0 <? numActive then u32 (tbs / numActive) else 1 in
  Z.max (foldl cap_block block l) 1.

(** The loop that hands [block] to every channel, or to those that want bytes while there are *)
Fixpoint give_blocks (block numActive : Z) (l : list ActiveLc) (tbs : Z) : list ActiveLc * Z :=
  match l with
  | [] => ([], tbs)
  | lc :: l =>
      if (lc.2.1 =? 0) && (0 <? numActive) then
        let '(l, tbs) := give_blocks block numActive l tbs in (lc :: l, tbs)
      else
        let tbs := u32 (tbs - block) in
        let lc := (lc.1, (u32 (lc.2.1 - block), u32 (lc.2.2 + block))) in
        if tbs =? 0 then (lc :: l, tbs)
        else let '(l, tbs) := give_blocks block numActive l tbs in (lc :: l, tbs)
  end.

(** while (tbs > 0); every round hands out at least one byte. *)
Fixpoint give_rounds (fuel : nat) (l : list ActiveLc) (tbs : Z) : res (list ActiveLc) :=
  if tbs <=? 0 then Ok l else
  match fuel with
  | O => Abort "out of fuel"
  | S fuel =>
      let '(l, tbs) := give_blocks (block_size l tbs) (num_active l) l tbs in
      give_rounds fuel l tbs
  end.

(** struct Assignation *)
Record Assignation := mkAssignation { as_lcg : Z; as_lcId : Z; as_bytes : Z }.

(** NrMacSchedulerLcRR::AssignBytesToLC *)
Definition AssignBytesToLC (ueLCG : gmap Z NrMacSchedulerLCG) (tbs : Z) : res (list Assignation) :=
  let activeLc := active_lcs ueLCG in
  match activeLc with
  | [] => Ok []
  | _ =>
      let* l := give_rounds (Z.to_nat tbs) activeLc tbs in
      Ok ((fun lc => mkAssignation lc.1.1 lc.1.2 lc.2.2) <$> l)
  end.

(** NrMacSchedulerLcRR::AssignBytesToDlLC and AssignBytesToUlLC *)
Definition AssignBytesToDlLC := AssignBytesToLC.
Definition AssignBytesToUlLC := AssignBytesToLC.
