(* ===== verification/LcProps.v ===== *)
(** The properties of the logical channels: the buffer size levels, the split of a transport
    block between the channels, and what the scheduler believes is left in their queues. *)
From Stdlib Require Import ZArith Lia Sorting.Sorted.
From stdpp Require Import base list gmap strings list_numbers.
From coqutil Require Import Datatypes.RecordSettersUsingExistingGetters.
From S2P Require Import Prelude OrdMap LogicalChannels.
Open Scope Z_scope.
#[local] Arguments wrap : simpl never.

(** ** Buffer size levels *)

Lemma level_loop_spec table b i :
  StronglySorted Z.le table -> Exists (fun t => b <= t) table ->
  exists n t, level_loop table b i = i + Z.of_nat n /\ table !! n = Some t /\ b <= t /\
    forall m t', table !! m = Some t' -> b <= t' -> (n <= m)%nat.
Proof.
  revert i. induction table as [|t table IH]; intros i S E; [by apply Exists_nil in E|]. cbn [level_loop].
  apply StronglySorted_inv in S as [S F]. destruct (Z.ltb_spec t b) as [Hlt|Hge].
  - apply Exists_cons in E as [?|E]; [lia|]. destruct (IH (i + 1) S E) as (n & t' & -> & Hn & Hb & Hm).
    exists (Datatypes.S n), t'. split; [lia|]. split; [done|]. split; [done|].
    intros [|m] t'' Hm' Hb'; cbn in Hm'; [simplify_eq; lia|]. apply le_n_S. by eapply Hm.
  - exists O, t. split; [lia|]. split; [done|]. split; [done|]. intros; lia.
Qed.

(** The table decides: the check of a property for every level. *)
Lemma for_levels (P : Z -> bool) :
  forallb P (seqZ 0 32) = true -> forall l, 0 <= l <= 31 -> P l = true.
Proof. intros F l Hl. rewrite forallb_forall in F. apply F, list_elem_of_In, elem_of_seqZ. lia. Qed.

(** the level of a buffer of up to 1200000 bytes stands for at least its bytes, and no smaller
    level does; what a level stands for has that level; a greater buffer is cut to 1200000. *)
Theorem bsr_level_roundtrip :
  (forall level, 0 <= level <= 31 -> FromBytesToLevel (FromLevelToBytes level) = level) /\
  (forall b, 0 <= b ->
     0 <= FromBytesToLevel b <= 31 /\
     (b <= 1200000 -> b <= FromLevelToBytes (FromBytesToLevel b)) /\
     (forall level, 0 <= level < FromBytesToLevel b -> FromLevelToBytes level < b) /\
     (1200000 < b -> FromLevelToBytes (FromBytesToLevel b) = 1200000)).
Proof.
  split.
  { intros level Hl. apply Z.eqb_eq.
    exact (for_levels (fun l => FromBytesToLevel (FromLevelToBytes l) =? l) eq_refl level Hl). }
  intros b Hb. unfold FromBytesToLevel. destruct (Z.ltb_spec 150000 b) as [B|B].
  - split; [lia|]. split; [intros; cbn; lia|]. split; [|done]. intros level Hl.
    assert (level <= 30) by lia. assert (FromLevelToBytes level <=? 150000 = true); [|lia].
    assert ((30 <? level) || (FromLevelToBytes level <=? 150000) = true) as F by
      (apply (for_levels (fun l => (30 <? l) || (FromLevelToBytes l <=? 150000)) eq_refl); lia).
    apply orb_true_iff in F as [?|?]; [lia|done].
  - destruct (Z.eqb_spec b 0) as [->|N0]; [split; [lia|]; split; [intros; by vm_compute|]; split; lia|].
    destruct (level_loop_spec lookupVector b 0) as (n & t & -> & Hn & Ht & Hm).
    { unfold lookupVector. repeat (constructor; [|repeat (constructor; [lia|]); constructor]). constructor. }
    { apply Exists_exists. exists 150000. split; [|done].
      apply (list_elem_of_lookup_2 _ 30%nat). reflexivity. }
    assert (n < 31)%nat as Hn31 by (apply lookup_lt_Some in Hn; exact Hn).
    assert (forall m, (m < 31)%nat -> FromLevelToBytes (Z.of_nat m) = nth m lookupVector 0) as L.
    { intros m Hm31. unfold FromLevelToBytes. rewrite (proj2 (Z.ltb_ge _ _)) by lia. by rewrite Nat2Z.id. }
    rewrite Z.add_0_l, L by lia. split; [lia|]. split.
    { intros _. rewrite nth_lookup, Hn. done. }
    split; [|lia]. intros level Hl. rewrite <- (Z2Nat.id level), L by lia. rewrite nth_lookup.
    destruct (lookup_lt_is_Some_2 lookupVector (Z.to_nat level)) as [t' Ht']; [cbn; lia|].
    rewrite Ht'. cbn. destruct (Z.lt_ge_cases t' b) as [|Ge]; [done|]. specialize (Hm _ _ Ht' Ge). lia.
Qed.

(** ** The split of a transport block *)

Definition sum_have (l : list ActiveLc) : Z := foldr (fun lc n => lc.2.2 + n) 0 l.
Definition sum_want (l : list ActiveLc) : Z := foldr (fun lc n => lc.2.1 + n) 0 l.

(** The channels a round serves, and what it does to one of them *)
Definition served (numActive : Z) (lc : ActiveLc) : bool := negb ((lc.2.1 =? 0) && (0 <? numActive)).
Definition give (block numActive : Z) (lc : ActiveLc) : ActiveLc :=
  if served numActive lc then (lc.1, (u32 (lc.2.1 - block), u32 (lc.2.2 + block))) else lc.
Definition num_served (numActive : Z) (l : list ActiveLc) : Z :=
  Z.of_nat (length (filter (fun lc => served numActive lc = true) l)).

Lemma num_served_cons na lc l :
  num_served na (lc :: l) = (if served na lc then 1 else 0) + num_served na l.
Proof.
  unfold num_served. rewrite filter_cons. destruct (served na lc) eqn:E.
  - rewrite decide_True by done. cbn [length]. lia.
  - rewrite decide_False by done. lia.
Qed.

Lemma sum_have_give block na l :
  Forall (fun lc => 0 <= lc.2.2 /\ lc.2.2 + block < 2 ^ 32) l -> 0 <= block ->
  sum_have (give block na <$> l) = sum_have l + block * num_served na l.
Proof.
  induction 1 as [|lc l H _ IH]; intros B; [change (num_served na []) with 0; cbn; lia|].
  rewrite num_served_cons. cbn [fmap list_fmap sum_have foldr]. fold (sum_have (give block na <$> l)).
  fold (sum_have l). rewrite IH by done. unfold give. destruct (served na lc); cbn; [|lia].
  rewrite wrap_small by (unfold fits; lia). lia.
Qed.

Lemma give_none block na l : num_served na l = 0 -> give block na <$> l = l.
Proof.
  induction l as [|lc l IH]; intros E; [done|]. rewrite num_served_cons in E.
  assert (0 <= num_served na l) by (unfold num_served; lia). cbn [fmap list_fmap]. unfold give at 1.
  destruct (served na lc); [lia|]. f_equal. by apply IH.
Qed.

(** A round that has enough for everybody *)
Lemma give_blocks_all block na l tbs :
  1 <= block -> 0 < tbs < 2 ^ 32 -> block * num_served na l <= tbs ->
  give_blocks block na l tbs = (give block na <$> l, tbs - block * num_served na l).
Proof.
  intros B. revert tbs. induction l as [|lc l IH]; intros tbs T L.
  { cbn. rewrite Z.mul_0_r, Z.sub_0_r. done. }
  rewrite num_served_cons in *. assert (0 <= num_served na l) by (unfold num_served; lia).
  cbn [give_blocks fmap list_fmap]. unfold give at 1. unfold served in *.
  destruct ((lc.2.1 =? 0) && (0 <? na)); cbn [negb] in *; [rewrite IH by lia; f_equal; lia|].
  rewrite (wrap_small 32 (tbs - block)) by (unfold fits; nia).
  destruct (Z.eqb_spec (tbs - block) 0) as [E|E].
  - assert (num_served na l = 0) as E0 by nia. rewrite E0.
    rewrite (give_none block na l) by done. f_equal. lia.
  - rewrite IH by nia. f_equal. lia.
Qed.

(** A round of one byte each that has not *)
Lemma give_blocks_some na l tbs :
  0 < tbs < 2 ^ 32 -> tbs <= num_served na l -> Forall (fun lc => 0 <= lc.2.2 /\ lc.2.2 + 1 < 2 ^ 32) l ->
  exists l', give_blocks 1 na l tbs = (l', 0) /\ sum_have l' = sum_have l + tbs /\
    Forall2 (fun lc lc' => lc' = lc \/ served na lc = true /\ lc' = give 1 na lc) l l'.
Proof.
  intros T L H. revert tbs T L. induction H as [|lc l [H0 H1] H IH]; intros tbs T L.
  { change (num_served na []) with 0 in L. lia. }
  rewrite num_served_cons in L. cbn [give_blocks]. unfold give, served in *.
  destruct ((lc.2.1 =? 0) && (0 <? na)) eqn:E; cbn [negb] in *.
  - destruct (IH tbs T ltac:(lia)) as (l' & -> & S & F). exists (lc :: l'). split; [done|].
    split; [cbn; fold (sum_have l); fold (sum_have l'); lia|]. constructor; [by left|done].
  - rewrite (wrap_small 32 (tbs - 1)) by (unfold fits; lia).
    rewrite (wrap_small 32 (lc.2.2 + 1)) by (unfold fits; lia).
    destruct (Z.eqb_spec (tbs - 1) 0) as [E1|E1].
    + eexists. rewrite E1. split; [done|]. split; [cbn; fold (sum_have l); lia|].
      constructor; [right|]. { rewrite E, (wrap_small 32 (lc.2.2 + 1)) by (unfold fits; lia). done. }
      apply Forall_Forall2_diag, Forall_forall. by left.
    + destruct (IH (tbs - 1) ltac:(lia) ltac:(lia)) as (l' & -> & S & F). eexists. split; [done|].
      split; [cbn; fold (sum_have l); fold (sum_have l'); lia|].
      constructor; [right|done]. rewrite E, (wrap_small 32 (lc.2.2 + 1)) by (unfold fits; lia). done.
Qed.

(** The block of a round *)
Lemma cap_block_spec l b :
  foldl cap_block b l <= b /\
  Forall (fun lc => 0 < lc.2.1 -> foldl cap_block b l <= lc.2.1) l /\
  (1 <= b -> 1 <= foldl cap_block b l).
Proof.
  revert b. induction l as [|lc l IH]; intros b; cbn [foldl]; [by split; [lia|split]|].
  destruct (IH (cap_block b lc)) as (I1 & I2 & I3).
  assert (cap_block b lc <= b /\ (0 < lc.2.1 -> cap_block b lc <= lc.2.1) /\ (1 <= b -> 1 <= cap_block b lc))
    as (C1 & C2 & C3) by (unfold cap_block, wanting; destruct (Z.ltb_spec 0 lc.2.1); lia).
  split; [lia|]. split; [constructor; [lia|done]|]. intros B. apply I3. lia.
Qed.

(** As long as a channel wants bytes, the channels that do are those a round serves. *)
Lemma num_active_served na l :
  Forall (fun lc => 0 <= lc.2.1) l -> 0 < na -> num_served na l = num_active l.
Proof.
  intros W P. unfold num_served, num_active. do 2 f_equal.
  induction W as [|lc l W _ IH]; [done|]. rewrite !filter_cons, IH.
  unfold served, wanting. rewrite (proj2 (Z.ltb_lt 0 na)) by done. rewrite andb_true_r.
  destruct (Z.eqb_spec lc.2.1 0) as [->|N]; [done|]. by rewrite (proj2 (Z.ltb_lt 0 _)) by lia.
Qed.

Lemma num_active_served_none l :
  Forall (fun lc => 0 <= lc.2.1) l -> num_active l = 0 -> num_served 0 l = Z.of_nat (length l).
Proof.
  intros W _. unfold num_served. rewrite filter_all; [done|]. apply Forall_forall.
  intros lc _. unfold served. by rewrite andb_false_r.
Qed.

(** What holds of the channels while bytes are wanted: those that still want some have the same
    number [h] of bytes, the others have all they asked for, which is no more. *)
Definition level_with (h : Z) (demand : Z) (lc : ActiveLc) : Prop :=
  0 <= lc.2.1 /\ 0 <= lc.2.2 <= h /\ lc.2.1 + lc.2.2 = demand /\ (0 < lc.2.1 -> lc.2.2 = h).

(** What the split ends with, when the block is too small: nobody who wants more has two bytes
    less than another. *)
Definition fair_with (h : Z) (demand : Z) (lc : ActiveLc) : Prop :=
  0 <= lc.2.1 /\ 0 <= lc.2.2 <= h + 1 /\ lc.2.1 + lc.2.2 = demand /\ (0 < lc.2.1 -> h <= lc.2.2).

(** And when it is large enough: everybody has what they asked for. *)
Definition satisfied (demand : Z) (lc : ActiveLc) : Prop := 0 <= lc.2.1 /\ 0 <= demand <= lc.2.2.

Lemma sum_have_le l : Forall (fun lc => 0 <= lc.2.2) l -> 0 <= sum_have l /\ Forall (fun lc => lc.2.2 <= sum_have l) l.
Proof.
  induction 1 as [|lc l H _ [IH1 IH2]]; [done|]. cbn [sum_have foldr]. fold (sum_have l).
  split; [lia|]. constructor; [lia|]. eapply Forall_impl; [exact IH2|]. cbn. intros x Hx. lia.
Qed.

(** The block of a round: at least one byte, and enough for all it serves unless it is one byte. *)
Lemma block_size_spec l tbs :
  Forall (fun lc => 0 <= lc.2.1) l -> l <> [] -> 0 < tbs < 2 ^ 32 ->
  1 <= block_size l tbs <= tbs /\ 0 < num_served (num_active l) l /\
  (0 < num_active l -> Forall (fun lc => 0 < lc.2.1 -> block_size l tbs <= lc.2.1) l) /\
  (block_size l tbs * num_served (num_active l) l <= tbs \/ block_size l tbs = 1 /\ tbs <= num_served (num_active l) l).
Proof.
  intros W N T. unfold block_size.
  destruct (Z.ltb_spec 0 (num_active l)) as [P|P].
  - rewrite num_active_served by done. set (na := num_active l) in *.
    assert (0 <= tbs / na <= tbs) as Q by (split; [apply Z.div_pos; lia|apply Z.div_le_upper_bound; nia]).
    rewrite (wrap_small 32 (tbs / na)) by (unfold fits; lia).
    destruct (cap_block_spec l (tbs / na)) as (C1 & C2 & C3). set (b := foldl cap_block (tbs / na) l) in *.
    pose proof (Z.mul_div_le tbs na ltac:(lia)) as M.
    split; [lia|]. split; [lia|]. split.
    { intros _. eapply Forall_impl; [exact C2|]. cbn. intros lc Hlc Hw. specialize (Hlc Hw). lia. }
    destruct (Z.le_gt_cases 1 b) as [B|B]; [left; rewrite Z.max_l by lia; nia|right].
    destruct (Z.le_gt_cases 1 (tbs / na)); [lia|]. assert (tbs / na = 0) as Q0 by lia.
    apply Z.div_small_iff in Q0; lia.
  - assert (num_active l = 0) as E by (unfold num_active in *; lia). rewrite E.
    rewrite num_active_served_none by done.
    destruct (cap_block_spec l 1) as (C1 & _ & C3). assert (foldl cap_block 1 l = 1) as -> by lia.
    assert (0 < Z.of_nat (length l)) by (destruct l; [done|cbn; lia]). cbn [Z.max].
    split; [cbn; lia|]. split; [done|]. split; [lia|]. change (Z.max 1 1) with 1. lia.
Qed.

Lemma Forall2_level_wants h ds l : Forall2 (level_with h) ds l -> Forall (fun lc => 0 <= lc.2.1) l.
Proof. intros F. eapply Forall2_Forall_r; [exact F|]. apply Forall_forall. intros d _ lc H. apply H. Qed.

Lemma give_keys block na l : (give block na <$> l).*1 = l.*1.
Proof. rewrite <- list_fmap_compose. apply list_fmap_ext. intros i lc _. cbn. unfold give. by destruct (served na lc). Qed.

Lemma Forall2_keys (R : ActiveLc -> ActiveLc -> Prop) l l' :
  (forall a b, R a b -> b.1 = a.1) -> Forall2 R l l' -> l'.*1 = l.*1.
Proof. intros K. induction 1 as [|a b l l' H _ IH]; [done|]. cbn. by rewrite (K a b H), <- IH. Qed.

Lemma Forall2_step {D A B} (P : D -> A -> Prop) (R : A -> B -> Prop) (Q : D -> B -> Prop) ds l l' :
  Forall2 P ds l -> Forall2 R l l' ->
  (forall d a b, d ∈ ds -> a ∈ l -> P d a -> R a b -> Q d b) -> Forall2 Q ds l'.
Proof.
  intros F. revert l'. induction F as [|d a ds l H F IH]; intros l' G K; inversion G; subst; constructor.
  - eapply K; [by left|by left|done|done].
  - apply IH; [done|]. intros ? ? ? ? ?. apply K; by right.
Qed.

Lemma Forall2_give (P Q : Z -> ActiveLc -> Prop) ds l block na :
  Forall2 P ds l ->
  (forall d a, d ∈ ds -> a ∈ l -> P d a -> Q d (give block na a)) -> Forall2 Q ds (give block na <$> l).
Proof.
  intros F K. eapply (Forall2_step P (fun a b => b = give block na a)); [exact F| |].
  - apply Forall2_fmap_r, Forall_Forall2_diag, Forall_forall. done.
  - intros d a b Hd Ha Pa ->. by apply K.
Qed.

(** A round: the channels stay, and what they get comes out of the transport block. *)
Lemma round_spec (P Q : Z -> ActiveLc -> Prop) ds l tbs :
  Forall2 P ds l -> Forall (fun lc => 0 <= lc.2.1 /\ 0 <= lc.2.2) l -> l <> [] -> 0 < tbs -> sum_have l + tbs < 2 ^ 32 ->
  (forall d a b, d ∈ ds -> a ∈ l -> P d a -> b = give (block_size l tbs) (num_active l) a -> Q d b) ->
  exists l' tbs', give_blocks (block_size l tbs) (num_active l) l tbs = (l', tbs') /\ l'.*1 = l.*1 /\
    sum_have l' + tbs' = sum_have l + tbs /\ 0 <= tbs' < tbs /\
    (Forall2 Q ds l' \/ block_size l tbs = 1 /\ tbs' = 0 /\ Forall2 (fun d b => P d b \/ Q d b) ds l').
Proof.
  intros F W Ne T S K. assert (Forall (fun lc => 0 <= lc.2.2) l) as H0 by (eapply Forall_impl; [exact W|]; naive_solver).
  destruct (sum_have_le l H0) as [Sp Sl].
  destruct (block_size_spec l tbs) as (B & Sv & _ & E); [by eapply Forall_impl; [exact W|]; naive_solver|done|lia|].
  set (b := block_size l tbs) in *. set (na := num_active l) in *.
  assert (Forall (fun lc => 0 <= lc.2.2 /\ lc.2.2 + b < 2 ^ 32) l) as Hb.
  { rewrite Forall_forall in H0, Sl |- *. intros lc Hlc. specialize (H0 lc Hlc). specialize (Sl lc Hlc). cbn in Sl. lia. }
  destruct E as [E|[E1 E2]].
  - exists (give b na <$> l), (tbs - b * num_served na l). split; [apply give_blocks_all; lia|].
    split; [apply give_keys|]. split; [rewrite sum_have_give by (done || lia); lia|]. split; [nia|].
    left. eapply Forall2_give; [exact F|]. intros d a Hd Ha Pa. by eapply K.
  - rewrite E1 in *. destruct (give_blocks_some na l tbs ltac:(lia) E2 Hb) as (l' & -> & Sm & G).
    exists l', 0. split; [done|]. split.
    { eapply Forall2_keys; [|exact G]. intros x y [->|[_ ->]]; [done|]. unfold give. by destruct (served na x). }
    split; [lia|]. split; [lia|]. right. split; [done|]. split; [done|].
    eapply Forall2_step; [exact F|exact G|]. intros d x y Hd Hx Px [->|[_ ->]]; [by left|right; by eapply K].
Qed.

(** A round while bytes are wanted *)
Lemma round_wanted h ds l tbs :
  Forall2 (level_with h) ds l -> Forall (fun d => d < 2 ^ 32) ds -> 0 < num_active l -> 0 < tbs ->
  sum_have l + tbs < 2 ^ 32 ->
  exists l' tbs', give_blocks (block_size l tbs) (num_active l) l tbs = (l', tbs') /\ l'.*1 = l.*1 /\
    sum_have l' + tbs' = sum_have l + tbs /\ 0 <= tbs' < tbs /\
    ((exists h', Forall2 (level_with h') ds l') \/ tbs' = 0 /\ Forall2 (fair_with h) ds l').
Proof.
  intros F D P T S.
  assert (Forall (fun lc => 0 <= lc.2.1 /\ 0 <= lc.2.2) l) as W.
  { eapply Forall2_Forall_r; [exact F|]. apply Forall_forall. intros d _ lc H. split; apply H. }
  assert (l <> []) as Ne by (by intros ->).
  destruct (sum_have_le l) as [Sp _]; [by eapply Forall_impl; [exact W|]; naive_solver|].
  destruct (block_size_spec l tbs) as (B & _ & Bw & _); [by eapply Forall_impl; [exact W|]; naive_solver|done|lia|].
  specialize (Bw P). rewrite Forall_forall in Bw. rewrite Forall_forall in D.
  destruct (round_spec (level_with h) (level_with (h + block_size l tbs)) ds l tbs F W Ne T S)
    as (l' & tbs' & E & K & Sm & R & Q).
  - intros d a b Hd Ha (W1 & W2 & W3 & W4) ->. specialize (Bw a Ha). specialize (D d Hd). cbn in D.
    unfold give, served. rewrite (proj2 (Z.ltb_lt 0 _)) by done. rewrite andb_true_r.
    destruct (Z.eqb_spec a.2.1 0) as [E0|N0]; cbn [negb]; unfold level_with; cbn [fst snd]; [lia|].
    rewrite !wrap_small by (unfold fits; lia). lia.
  - exists l', tbs'. split; [done|]. split; [done|]. split; [done|]. split; [done|].
    destruct Q as [Q|(Eb & E0 & Q)]; [left; by eexists|right; split; [done|]].
    rewrite Eb in Q. eapply Forall2_impl; [exact Q|]. intros d a [(?&?&?&?)|(?&?&?&?)]; unfold fair_with; lia.
Qed.

(** A round when nobody wants more: every channel gets more than it asked for. *)
Lemma round_satisfied ds l tbs :
  Forall2 satisfied ds l -> l <> [] -> 0 < tbs -> sum_have l + tbs < 2 ^ 32 ->
  exists l' tbs', give_blocks (block_size l tbs) (num_active l) l tbs = (l', tbs') /\ l'.*1 = l.*1 /\
    sum_have l' + tbs' = sum_have l + tbs /\ 0 <= tbs' < tbs /\ Forall2 satisfied ds l'.
Proof.
  intros F Ne T S.
  assert (Forall (fun lc => 0 <= lc.2.1 /\ 0 <= lc.2.2) l) as W.
  { eapply Forall2_Forall_r; [exact F|]. apply Forall_forall. intros d _ lc (?&?&?). lia. }
  destruct (sum_have_le l) as [Sp Sl]; [by eapply Forall_impl; [exact W|]; naive_solver|]. rewrite Forall_forall in Sl.
  destruct (block_size_spec l tbs) as (B & _); [by eapply Forall_impl; [exact W|]; naive_solver|done|lia|].
  destruct (round_spec satisfied satisfied ds l tbs F W Ne T S) as (l' & tbs' & E & K & Sm & R & Q).
  - intros d a b Hd Ha (W1 & W2) ->. specialize (Sl a Ha). cbn in Sl. unfold give.
    destruct (served _ a); unfold satisfied; cbn [fst snd]; [|lia].
    rewrite (wrap_small 32 (a.2.2 + _)) by (unfold fits; lia).
    pose proof (wrap_fits 32 (a.2.1 - block_size l tbs) ltac:(lia)) as [? _]. lia.
  - exists l', tbs'. split; [done|]. split; [done|]. split; [done|]. split; [done|].
    destruct Q as [Q|(_ & _ & Q)]; [done|]. eapply Forall2_impl; [exact Q|]. tauto.
Qed.

(** When nobody wants more everybody is satisfied. *)
Lemma level_satisfied h ds l :
  Forall2 (level_with h) ds l -> num_active l <= 0 -> Forall2 satisfied ds l.
Proof.
  intros F N. eapply (Forall2_step _ (fun a b => b = a)); [exact F| |].
  { apply Forall_Forall2_diag, Forall_forall. done. }
  intros d a b _ Ha (W1 & W2 & W3 & W4) ->. unfold satisfied. assert (a.2.1 = 0); [|lia].
  destruct (Z.eq_dec a.2.1 0) as [|N0]; [done|exfalso]. unfold num_active in N.
  assert (a ∈ filter (fun lc => wanting lc = true) l) as Hf.
  { apply list_elem_of_filter. split; [|done]. unfold wanting. lia. }
  destruct (filter (fun lc => wanting lc = true) l); [by apply elem_of_nil in Hf|cbn in N; lia].
Qed.

Lemma give_rounds_spec ds fuel l tbs :
  Forall (fun d => d < 2 ^ 32) ds -> (Z.to_nat tbs <= fuel)%nat -> l <> [] -> 0 <= tbs -> sum_have l + tbs < 2 ^ 32 ->
  (exists h, Forall2 (level_with h) ds l) \/ Forall2 satisfied ds l ->
  exists l', give_rounds fuel l tbs = Ok l' /\ l'.*1 = l.*1 /\ sum_have l' = sum_have l + tbs /\
    ((exists h, Forall2 (fair_with h) ds l') \/ Forall2 satisfied ds l').
Proof.
  intros D. revert l tbs. induction fuel as [|fuel IH]; intros l tbs Fu Ne T S Q;
    cbn [give_rounds]; destruct (Z.leb_spec tbs 0) as [Z0|Z0]; try lia.
  1, 2: exists l; split; [done|]; split; [done|]; split; [lia|];
    destruct Q as [[h F]|F]; [left; exists h; eapply Forall2_impl; [exact F|]; unfold level_with, fair_with; lia|by right].
  assert (forall l' tbs', l'.*1 = l.*1 -> 0 <= tbs' < tbs -> sum_have l' + tbs' = sum_have l + tbs ->
    (exists h, Forall2 (level_with h) ds l') \/ Forall2 satisfied ds l' ->
    exists l'', give_rounds fuel l' tbs' = Ok l'' /\ l''.*1 = l.*1 /\ sum_have l'' = sum_have l + tbs /\
      ((exists h, Forall2 (fair_with h) ds l'') \/ Forall2 satisfied ds l'')) as Next.
  { intros l' tbs' K R Sm Q'. destruct (IH l' tbs') as (l'' & E & K' & S' & Q''); [lia| |lia|lia|done|].
    { intros ->. cbn in K. destruct l; [done|discriminate K]. }
    exists l''. rewrite K' , S', K. split; [done|]. split; [done|]. split; [lia|done]. }
  destruct Q as [[h F]|F].
  - destruct (Z.lt_ge_cases 0 (num_active l)) as [P|P].
    + destruct (round_wanted h ds l tbs F D P Z0 S) as (l' & tbs' & -> & K & Sm & R & [Q|[-> Q]]); [by apply Next; [..|left]|].
      exists l'. assert (give_rounds fuel l' 0 = Ok l') as -> by (by destruct fuel).
      split; [done|]. split; [done|]. split; [lia|]. left. by exists h.
    + apply level_satisfied in F; [|lia].
      destruct (round_satisfied ds l tbs F Ne Z0 S) as (l' & tbs' & -> & K & Sm & R & Q). by apply Next; [..|right].
  - destruct (round_satisfied ds l tbs F Ne Z0 S) as (l' & tbs' & -> & K & Sm & R & Q). by apply Next; [..|right].
Qed.

(** ** The active channels *)

(** What a group contributes to activeLc *)
Definition lcg_bindings (lcg : Z * NrMacSchedulerLCG) : list ActiveLc :=
  (fun lc => ((lcg.1, lc.1), (LcTotalSize lc.2, 0))) <$>
    filter (fun lc => 0 < LcTotalSize lc.2) (map_to_list lcg.2).

Definition insert_all (m L : list ActiveLc) : list ActiveLc := foldl (fun m b => smap_insert b.1 b.2 m) m L.

Lemma insert_lcg lcg (m : list ActiveLc) :
  foldl (fun m lc => if 0 <? LcTotalSize lc.2 then smap_insert (lcg.1, lc.1) (LcTotalSize lc.2, 0) m else m)
    m (map_to_list lcg.2) = insert_all m (lcg_bindings lcg).
Proof.
  unfold lcg_bindings, insert_all. revert m. induction (map_to_list lcg.2) as [|lc l IH]; intros m; [done|].
  cbn [foldl]. rewrite IH, filter_cons. destruct (Z.ltb_spec 0 (LcTotalSize lc.2)) as [P|P].
  - by rewrite decide_True.
  - by rewrite decide_False by lia.
Qed.

Lemma active_lcs_insert_all ueLCG :
  active_lcs ueLCG = insert_all [] (map_to_list ueLCG ≫= lcg_bindings).
Proof.
  unfold active_lcs.
  assert (forall l m, foldl (fun m lcg => foldl (fun m lc =>
      if 0 <? LcTotalSize lc.2 then smap_insert (lcg.1, lc.1) (LcTotalSize lc.2, 0) m else m)
      m (map_to_list lcg.2)) m l = insert_all m (l ≫= lcg_bindings)) as E; [|apply E].
  induction l as [|lcg l IH]; intros m; [done|]. cbn [foldl]. rewrite insert_lcg, IH.
  unfold insert_all. change ((lcg :: l) ≫= lcg_bindings) with (lcg_bindings lcg ++ (l ≫= lcg_bindings)).
  by rewrite foldl_app.
Qed.

Lemma insert_all_elem m L k v :
  NoDup L.*1 -> smap_lookup k (insert_all m L) = Some v <-> (k, v) ∈ L \/ k ∉ L.*1 /\ smap_lookup k m = Some v.
Proof.
  revert m. induction L as [|[k' v'] L IH]; intros m N; [cbn; set_solver|].
  cbn in N. apply NoDup_cons in N as [N1 N2]. unfold insert_all. cbn [foldl]. fold (insert_all (smap_insert k' v' m) L).
  rewrite IH by done. cbn. rewrite !elem_of_cons. destruct (decide (k = k')) as [->|Ne].
  - rewrite (smap_lookup_insert_eq k' v' m). assert (forall x, (k', x) ∉ L) as Nx.
    { intros x Hx. apply N1. apply list_elem_of_fmap. by exists (k', x). }
    naive_solver.
  - rewrite (smap_lookup_insert_ne k' k v' m) by congruence. naive_solver.
Qed.

Lemma insert_all_wf m L : smap_wf m -> smap_wf (insert_all m L).
Proof.
  revert m. induction L as [|b L IH]; intros m W; [done|]. apply IH. apply smap_wf_insert; [apply _|done].
Qed.

Lemma bindings_NoDup (l : list (Z * NrMacSchedulerLCG)) : NoDup l.*1 -> NoDup (l ≫= lcg_bindings).*1.
Proof.
  assert (forall lcg, NoDup (lcg_bindings lcg).*1) as N1.
  { intros lcg. unfold lcg_bindings. rewrite <- list_fmap_compose.
    assert (NoDup (filter (fun lc => 0 < LcTotalSize lc.2) (map_to_list lcg.2)).*1) as N.
    { assert (NoDup (map_to_list lcg.2).*1) as N by apply NoDup_fst_map_to_list. revert N.
      induction (map_to_list lcg.2) as [|x l' IH]; intros N; [constructor|]. cbn in N. apply NoDup_cons in N as [Nx N].
      rewrite filter_cons. case_decide; [|by apply IH]. cbn. constructor; [|by apply IH].
      intros (y & E & Hy)%list_elem_of_fmap. apply list_elem_of_filter in Hy as [_ Hy].
      apply Nx. rewrite E. by apply list_elem_of_fmap_2. }
    revert N. induction (filter _ _) as [|x l' IH]; intros N; [constructor|]. cbn in N |- *. apply NoDup_cons in N as [Nx N].
    constructor; [|by apply IH]. intros (y & E & Hy)%list_elem_of_fmap. cbn in E. injection E as E.
    apply Nx. rewrite E. by apply list_elem_of_fmap_2. }
  induction l as [|lcg l IH]; intros N; [constructor|]. cbn in N. apply NoDup_cons in N as [Nx N].
  change ((lcg :: l) ≫= lcg_bindings) with (lcg_bindings lcg ++ (l ≫= lcg_bindings)). rewrite fmap_app.
  apply NoDup_app. split; [apply N1|]. split; [|by apply IH].
  intros k (x & -> & Hx)%list_elem_of_fmap (y & E & Hy)%list_elem_of_fmap.
  apply list_elem_of_bind in Hy as (lcg' & Hy & Hl). unfold lcg_bindings in Hx, Hy.
  apply list_elem_of_fmap in Hx as (lc & -> & _). apply list_elem_of_fmap in Hy as (lc' & -> & _). cbn in E.
  injection E as E _. apply Nx. rewrite E. by apply list_elem_of_fmap_2.
Qed.

(** The channels with data, sorted, with what they want *)
Lemma active_lcs_spec ueLCG :
  smap_wf (active_lcs ueLCG) /\
  forall g c v, ((g, c), v) ∈ active_lcs ueLCG <->
    exists lcg lc, ueLCG !! g = Some lcg /\ lcg !! c = Some lc /\ 0 < LcTotalSize lc /\ v = (LcTotalSize lc, 0).
Proof.
  rewrite active_lcs_insert_all.
  assert (smap_wf (insert_all [] (map_to_list ueLCG ≫= lcg_bindings))) as W by (by apply insert_all_wf).
  split; [done|]. intros g c v. pose proof (bindings_NoDup _ (NoDup_fst_map_to_list ueLCG)) as N.
  transitivity (smap_lookup (g, c) (insert_all [] (map_to_list ueLCG ≫= lcg_bindings)) = Some v).
  { split; [apply smap_elem_lookup; by apply smap_wf_NoDup; [apply _|]|apply smap_lookup_Some_elem]. }
  rewrite insert_all_elem by done. rewrite list_elem_of_bind. split.
  - intros [(lcg & Hx & Hl)|[_ ?]]; [|done]. unfold lcg_bindings in Hx.
    apply list_elem_of_fmap in Hx as ([c' lc] & E & Hx). apply list_elem_of_filter in Hx as [P Hx].
    destruct lcg as [g' lcg]. cbn in *. simplify_eq. apply elem_of_map_to_list in Hx, Hl. naive_solver.
  - intros (lcg & lc & Eg & Ec & P & ->). left. exists (g, lcg). split; [|by apply elem_of_map_to_list].
    unfold lcg_bindings. apply list_elem_of_fmap. exists (c, lc). split; [done|].
    apply list_elem_of_filter. split; [done|]. by apply elem_of_map_to_list.
Qed.

(** The channel [c] of the group [g] has [d] > 0 bytes to send. *)
Definition wants (ueLCG : gmap Z NrMacSchedulerLCG) (g c d : Z) : Prop :=
  exists lcg lc, ueLCG !! g = Some lcg /\ lcg !! c = Some lc /\ d = LcTotalSize lc /\ 0 < d.

Definition sum_bytes (l : list Assignation) : Z := foldr (fun a n => a.(as_bytes) + n) 0 l.

Lemma wants_fun ueLCG g c d d' : wants ueLCG g c d -> wants ueLCG g c d' -> d' = d.
Proof. intros (lcg & lc & E1 & E2 & -> & _) (lcg' & lc' & E1' & E2' & -> & _). by simplify_eq. Qed.

Lemma active_lcs_wants ueLCG a : a ∈ active_lcs ueLCG -> wants ueLCG a.1.1 a.1.2 a.2.1 /\ a.2.2 = 0.
Proof.
  destruct a as [[g c] v]. intros (lcg & lc & E1 & E2 & P & ->)%active_lcs_spec. cbn.
  split; [|done]. by exists lcg, lc.
Qed.

Lemma active_lcs_start ueLCG :
  Forall (fun d => d < 2 ^ 32) ((fun a => a.2.1) <$> active_lcs ueLCG) /\
  Forall2 (level_with 0) ((fun a => a.2.1) <$> active_lcs ueLCG) (active_lcs ueLCG) /\ sum_have (active_lcs ueLCG) = 0.
Proof.
  assert (Forall (fun a => 0 < a.2.1 < 2 ^ 32 /\ a.2.2 = 0) (active_lcs ueLCG)) as F.
  { apply Forall_forall. intros a ((lcg & lc & _ & _ & -> & P) & E)%active_lcs_wants. split; [|done].
    split; [done|]. apply wrap_fits. lia. }
  split; [|split].
  - apply Forall_fmap. eapply Forall_impl; [exact F|]. cbn. lia.
  - apply Forall2_fmap_l, Forall_Forall2_diag. eapply Forall_impl; [exact F|]. cbn. unfold level_with. lia.
  - induction F as [|a l [_ E] _ IH]; [done|]. cbn [sum_have foldr]. fold (sum_have l). lia.
Qed.

(** What the split gives each channel, next to what it asked for *)
Lemma AssignBytesToLC_spec ueLCG tbs :
  0 <= tbs < 2 ^ 32 -> active_lcs ueLCG <> [] ->
  exists l, AssignBytesToLC ueLCG tbs = Ok ((fun lc => mkAssignation lc.1.1 lc.1.2 lc.2.2) <$> l) /\
    l.*1 = (active_lcs ueLCG).*1 /\ sum_have l = tbs /\
    ((exists h, Forall2 (fair_with h) ((fun a => a.2.1) <$> active_lcs ueLCG) l) \/
     Forall2 satisfied ((fun a => a.2.1) <$> active_lcs ueLCG) l).
Proof.
  intros T Ne. destruct (active_lcs_start ueLCG) as (D & F & S). unfold AssignBytesToLC.
  destruct (active_lcs ueLCG) as [|a0 l0] eqn:E; [done|]. rewrite <- E in *.
  destruct (give_rounds_spec _ (Z.to_nat tbs) (active_lcs ueLCG) tbs D) as (l & -> & K & Sm & Q);
    [done|by rewrite E|lia|lia|left; by exists 0|].
  exists l. split; [done|]. split; [done|]. split; [lia|done].
Qed.

(** The entries of the split are those of activeLc, in the same order. *)
Lemma split_entry (R : Z -> ActiveLc -> Prop) ueLCG l x :
  l.*1 = (active_lcs ueLCG).*1 -> Forall2 R ((fun a => a.2.1) <$> active_lcs ueLCG) l -> x ∈ l ->
  exists d, wants ueLCG x.1.1 x.1.2 d /\ R d x.
Proof.
  intros K F [i Hi]%list_elem_of_lookup_1.
  destruct (Forall2_lookup_r _ _ _ _ _ F Hi) as (d & Hd & Rx).
  apply list_lookup_fmap_Some in Hd as (a & -> & Ha). assert (a.1 = x.1) as Ek.
  { assert (l.*1 !! i = (active_lcs ueLCG).*1 !! i) as E by (by rewrite K).
    rewrite !list_lookup_fmap, Hi, Ha in E. by injection E. }
  apply list_elem_of_lookup_2, active_lcs_wants in Ha as [Ha _]. rewrite Ek in Ha. by exists a.2.1.
Qed.

(** C27: the round-robin split of a transport block serves exactly the channels with data, once each,
    and hands out all of it.  Either nobody gets more than it asked for, and whoever gets less
    has at most one byte less than any other; or everybody gets at least what it asked for. *)
Theorem rr_split_fair ueLCG tbs :
  0 <= tbs < 2 ^ 32 -> (exists g c d, wants ueLCG g c d) ->
  exists l, AssignBytesToLC ueLCG tbs = Ok l /\
    NoDup ((fun a => (a.(as_lcg), a.(as_lcId))) <$> l) /\
    (forall g c, (exists a, a ∈ l /\ a.(as_lcg) = g /\ a.(as_lcId) = c) <-> exists d, wants ueLCG g c d) /\
    sum_bytes l = tbs /\ Forall (fun a => 0 <= a.(as_bytes)) l /\
    ((forall a d, a ∈ l -> wants ueLCG a.(as_lcg) a.(as_lcId) d ->
        a.(as_bytes) <= d /\ (a.(as_bytes) < d -> forall b, b ∈ l -> b.(as_bytes) <= a.(as_bytes) + 1)) \/
     (forall a d, a ∈ l -> wants ueLCG a.(as_lcg) a.(as_lcId) d -> d <= a.(as_bytes))).
Proof.
  intros T (g0 & c0 & d0 & lcg0 & lc0 & W1 & W2 & -> & W4).
  assert (((g0, c0), (LcTotalSize lc0, 0)) ∈ active_lcs ueLCG) as H0 by (apply active_lcs_spec; by exists lcg0, lc0).
  destruct (AssignBytesToLC_spec ueLCG tbs T) as (l & -> & K & Sm & Q); [by intros Ne; rewrite Ne in H0; apply elem_of_nil in H0|].
  eexists. split; [done|]. split; [|split; [|split; [|split]]].
  - rewrite <- list_fmap_compose. replace (_ <$> l) with l.*1.
    + rewrite K. apply smap_wf_NoDup; [apply _|apply active_lcs_spec].
    + apply list_fmap_ext. intros i [[g c] v] _. done.
  - intros g c. split.
    + intros (a & (x & -> & Hx)%list_elem_of_fmap & <- & <-).
      destruct Q as [[h F]|F]; destruct (split_entry _ _ _ _ K F Hx) as (d & Hd & _); by exists d.
    + intros (d & lcg & lc & E1 & E2 & -> & P).
      assert ((g, c) ∈ l.*1) as Hk.
      { rewrite K. apply list_elem_of_fmap. exists ((g, c), (LcTotalSize lc, 0)). split; [done|].
        apply active_lcs_spec. by exists lcg, lc. }
      apply list_elem_of_fmap in Hk as (x & Ex & Hx). exists (mkAssignation x.1.1 x.1.2 x.2.2).
      split; [by apply (list_elem_of_fmap_2 (fun lc : ActiveLc => mkAssignation lc.1.1 lc.1.2 lc.2.2))|].
      by rewrite <- Ex.
  - rewrite <- Sm. clear. induction l as [|x l IH]; [done|]. cbn. f_equal. exact IH.
  - apply Forall_fmap, Forall_forall. intros x Hx. cbn.
    destruct Q as [[h F]|F]; destruct (split_entry _ _ _ _ K F Hx) as (d & _ & R); [apply R|].
    destruct R. lia.
  - destruct Q as [[h F]|F]; [left|right]; intros a d (x & -> & Hx)%list_elem_of_fmap Hd; cbn in *;
      destruct (split_entry _ _ _ _ K F Hx) as (d' & Hd' & R); rewrite (wants_fun _ _ _ _ _ Hd' Hd) in *.
    + destruct R as (R1 & R2 & R3 & R4). split; [lia|]. intros Lt b (y & -> & Hy)%list_elem_of_fmap. cbn.
      destruct (split_entry _ _ _ _ K F Hy) as (d'' & _ & (_ & R2' & _)). specialize (R4 ltac:(lia)). lia.
    + destruct R. lia.
Qed.

(** ** What is left in the queues *)

(** The header the scheduler expects, and the least it believes to be left *)
Definition rlc_overhead (lcId : Z) (type : string) : Z :=
  if (lcId =? 1) && bool_decide (type = "DL"%string) then 4 else 2.
Definition least_left (type : string) : Z :=
  if bool_decide (type = "UL"%string) then 12 else if bool_decide (type = "DL"%string) then 10 else 0.

Definition lc_wf (lc : NrMacSchedulerLC) : Prop :=
  0 <= lc.(m_rlcTransmissionQueueSize) < 2 ^ 32 - 4 /\ fits 32 lc.(m_rlcRetransmissionQueueSize) /\
  fits 16 lc.(m_rlcStatusPduSize).

(** The transmission queue after a grant *)
Definition tx_left (lcId size : Z) (type : string) (q : Z) : Z :=
  let left := if size <? rlc_overhead lcId type then 0 else Z.max 0 (q - (size - rlc_overhead lcId type)) in
  if left =? 0 then 0 else Z.max left (least_left type).

Lemma NumOfLC_pos (lcg : NrMacSchedulerLCG) c lc : lcg !! c = Some lc -> NumOfLC lcg <> 0.
Proof.
  intros Hl E. assert (lcg = ∅) as -> by (apply map_size_empty_inv, Nat2Z.inj; exact E).
  exact (lookup_empty_Some _ _ Hl).
Qed.

Lemma set_tx (f : Z -> Z) lc :
  lc <| m_rlcTransmissionQueueSize ::= f |>
  = mkLC lc.(lc_id) (f lc.(m_rlcTransmissionQueueSize)) lc.(m_rlcTransmissionQueueHolDelay)
      lc.(m_rlcRetransmissionHolDelay) lc.(m_rlcRetransmissionQueueSize) lc.(m_rlcStatusPduSize).
Proof. by destruct lc. Qed.

Lemma assigned_tx_eq lcId size type lc :
  lc_wf lc -> fits 32 size ->
  assigned_tx lcId size type lc = lc <| m_rlcTransmissionQueueSize ::= tx_left lcId size type |>.
Proof.
  intros ([Q0 Q1] & _) [S0 S1]. unfold assigned_tx. rewrite !set_tx. cbn. f_equal.
  set (q := m_rlcTransmissionQueueSize lc) in *. unfold tx_left, rlc_overhead, least_left.
  set (o := if (lcId =? 1) && bool_decide (type = "DL"%string) then 4 else 2).
  assert (o = 2 \/ o = 4) as Ho by (unfold o; destruct (_ && _); tauto).
  destruct (Z.ltb_spec size o) as [Lt|Ge].
  - assert (u32 (size - o) = size - o + 2 ^ 32) as ->.
    { symmetry. apply Z.mod_unique with (q := -1); lia. }
    rewrite (proj2 (Z.leb_le _ _)) by lia. by rewrite !andb_false_r.
  - rewrite (wrap_small 32 (size - o)) by (unfold fits; lia).
    destruct (Z.leb_spec q (size - o)) as [L|L].
    + rewrite Z.max_l by lia. by rewrite !andb_false_r.
    + rewrite (wrap_small 32) by (unfold fits; lia). rewrite Z.max_r by lia.
      rewrite (proj2 (Z.eqb_neq _ _)) by lia. set (x := q - (size - o)) in *.
      destruct (bool_decide_reflect (type = "UL"%string)) as [->|Nu]; cbn.
      * rewrite (bool_decide_false ("UL"%string = "DL"%string)) by done. cbn. destruct (Z.ltb_spec 0 x); [|lia]. destruct (Z.ltb_spec x 12); cbn; lia.
      * destruct (bool_decide_reflect (type = "DL"%string)); cbn; [|lia].
        destruct (Z.ltb_spec 0 x); [|lia]. destruct (Z.ltb_spec x 10); cbn; lia.
Qed.

Lemma tx_left_range lcId size type q :
  0 <= q < 2 ^ 32 - 4 -> fits 32 size -> 0 <= tx_left lcId size type q < 2 ^ 32 - 4.
Proof.
  intros Hq [S0 S1]. unfold tx_left. destruct (Z.ltb_spec size (rlc_overhead lcId type)) as [|Ge]; [cbn; lia|].
  assert (0 <= least_left type <= 12) by (unfold least_left; destruct (bool_decide _); [lia|]; destruct (bool_decide _); lia).
  destruct (Z.eqb_spec (Z.max 0 (q - (size - rlc_overhead lcId type))) 0); lia.
Qed.

Lemma AssignedData_ok lcId bytes type lcg lc :
  lcg !! lcId = Some lc -> lc_wf lc -> fits 32 bytes ->
  exists lc', AssignedData lcId bytes type lcg = Ok (<[lcId := lc']> lcg) /\ lc_wf lc' /\
    lc' = if (0 <? lc.(m_rlcStatusPduSize)) && (lc.(m_rlcStatusPduSize) <=? bytes) then
            lc <| m_rlcStatusPduSize := 0 |>
          else if (0 <? lc.(m_rlcRetransmissionQueueSize)) && (lc.(m_rlcRetransmissionQueueSize) <=? bytes) then
            lc <| m_rlcRetransmissionQueueSize := 0 |>
          else lc <| m_rlcTransmissionQueueSize ::= tx_left lcId bytes type |>.
Proof.
  intros Hl W S. unfold AssignedData, lc_at. rewrite Hl.
  rewrite (proj2 (Z.eqb_neq _ _)).
  2:{ by eapply NumOfLC_pos. }
  cbn [abort_if res_bind]. eexists. split; [done|]. unfold assigned_lc.
  assert (lc_wf (lc <| m_rlcTransmissionQueueSize ::= tx_left lcId bytes type |>)) as Wt.
  { rewrite set_tx. destruct W as (W1 & W2 & W3). split; [|by split]. by apply tx_left_range. }
  destruct ((0 <? m_rlcStatusPduSize lc) && _).
  { split; [|done]. destruct W as (W1 & W2 & W3). split; [done|]. split; [done|]. by destruct lc. }
  destruct ((0 <? m_rlcRetransmissionQueueSize lc) && _).
  { split; [|done]. destruct W as (W1 & W2 & W3). split; [done|]. split; [by destruct lc|done]. }
  rewrite <- (assigned_tx_eq lcId bytes type lc W S) in Wt |- *.
  destruct (Z.ltb_spec 0 (m_rlcTransmissionQueueSize lc)) as [P|P]; [done|].
  split; [done|]. rewrite assigned_tx_eq, set_tx by done. destruct lc as [i q h rh r s]. cbn in *.
  assert (q = 0) as -> by (destruct W as ([? ?] & _); cbn in *; lia). f_equal.
  unfold tx_left. destruct (bytes <? rlc_overhead lcId type) eqn:E; [done|].
  rewrite Z.max_l by lia. done.
Qed.

(** ** The split of a block over groups *)

(** The split names channels with data, and no share exceeds the block. *)
Lemma AssignBytesToLC_ok ueLCG tbs :
  0 <= tbs < 2 ^ 32 -> active_lcs ueLCG <> [] ->
  exists l, AssignBytesToLC ueLCG tbs = Ok l /\ l <> [] /\
    forall a, a ∈ l -> (exists d, wants ueLCG a.(as_lcg) a.(as_lcId) d) /\ 0 <= a.(as_bytes) <= tbs.
Proof.
  intros T Ne. destruct (AssignBytesToLC_spec ueLCG tbs T Ne) as (l & -> & K & Sm & Q).
  eexists. split; [done|]. split.
  { destruct l; [|done]. by destruct (active_lcs ueLCG). }
  assert (Forall (fun lc => 0 <= lc.2.2) l) as F.
  { apply Forall_forall. intros x Hx. destruct Q as [[h F]|F]; destruct (split_entry _ _ _ _ K F Hx) as (d & _ & R);
      [apply R|destruct R; lia]. }
  intros a (x & -> & Hx)%list_elem_of_fmap. cbn. split.
  - destruct Q as [[h Q]|Q]; destruct (split_entry _ _ _ _ K Q Hx) as (d & Hd & _); by exists d.
  - destruct (sum_have_le l F) as [_ Le]. rewrite Forall_forall in F, Le. specialize (F x Hx). specialize (Le x Hx). lia.
Qed.

(** Without data nothing wants bytes. *)
Lemma lcg_total_zero (lcg : NrMacSchedulerLCG) :
  (forall c lc, lcg !! c = Some lc -> LcTotalSize lc = 0) -> LcgTotalSize lcg = 0.
Proof.
  intros Z0. unfold LcgTotalSize. apply (map_fold_weak_ind (fun n m => (forall c lc, m !! c = Some lc -> LcTotalSize lc = 0) -> n = 0)); [done| |done].
  intros c lc m n Hn IH F. rewrite IH, (F c lc); [done|apply lookup_insert_eq|].
  intros c' lc' E. apply (F c'). rewrite lookup_insert_ne; [done|]. intros ->. congruence.
Qed.

Lemma LcTotalSize_nonneg lc : 0 <= LcTotalSize lc.
Proof. apply wrap_fits. lia. Qed.

(** a grant serves one queue of the channel, the status report, the retransmissions or the
    transmissions, the first two only as a whole, and no other channel.  What is left of the
    transmissions counts as at least 12 bytes (10 in the downlink); but a grant below the size
    of the RLC header makes the whole queue count as sent. *)
Theorem assigned_data_queues lcId bytes type lcg lc :
  lcg !! lcId = Some lc -> lc_wf lc -> fits 32 bytes ->
  exists lc', AssignedData lcId bytes type lcg = Ok (<[lcId := lc']> lcg) /\ lc_wf lc' /\
    lc' = if (0 <? lc.(m_rlcStatusPduSize)) && (lc.(m_rlcStatusPduSize) <=? bytes) then
            lc <| m_rlcStatusPduSize := 0 |>
          else if (0 <? lc.(m_rlcRetransmissionQueueSize)) && (lc.(m_rlcRetransmissionQueueSize) <=? bytes) then
            lc <| m_rlcRetransmissionQueueSize := 0 |>
          else lc <| m_rlcTransmissionQueueSize ::= tx_left lcId bytes type |>.
Proof. apply AssignedData_ok. Qed.

(** ** Witnesses *)

(** Two groups, with 100 bytes and 7 bytes to send, share a block of 60. *)
Definition two_groups : gmap Z NrMacSchedulerLCG :=
  <[1 := {[4 := mkLC 4 100 0 0 0 0]}]> {[2 := {[5 := mkLC 5 5 0 0 0 2]}]}.

Theorem rr_split_fair_witness :
  exists l, AssignBytesToLC two_groups 60 = Ok l /\
    NoDup ((fun a => (a.(as_lcg), a.(as_lcId))) <$> l) /\
    (forall g c, (exists a, a ∈ l /\ a.(as_lcg) = g /\ a.(as_lcId) = c) <-> exists d, wants two_groups g c d) /\
    sum_bytes l = 60 /\ Forall (fun a => 0 <= a.(as_bytes)) l /\
    ((forall a d, a ∈ l -> wants two_groups a.(as_lcg) a.(as_lcId) d ->
        a.(as_bytes) <= d /\ (a.(as_bytes) < d -> forall b, b ∈ l -> b.(as_bytes) <= a.(as_bytes) + 1)) \/
     (forall a d, a ∈ l -> wants two_groups a.(as_lcg) a.(as_lcId) d -> d <= a.(as_bytes))).
Proof.
  apply (rr_split_fair two_groups 60); [lia|]. exists 1, 4, 100. eexists _, _.
  split; [reflexivity|]. split; [reflexivity|]. split; [by vm_compute|lia].
Defined.

Theorem assigned_data_queues_witness :
  exists lc', AssignedData 4 1 "UL" {[4 := mkLC 4 100 0 0 0 0]} = Ok (<[4 := lc']> {[4 := mkLC 4 100 0 0 0 0]}) /\ lc_wf lc' /\
    lc' = (mkLC 4 100 0 0 0 0) <| m_rlcTransmissionQueueSize ::= tx_left 4 1 "UL" |>.
Proof.
  apply (assigned_data_queues 4 1 "UL" {[4 := mkLC 4 100 0 0 0 0]} (mkLC 4 100 0 0 0 0));
    [reflexivity|repeat split; cbn; lia|unfold fits; lia].
Defined.
