(* ===== verification/Harq.v ===== *)
(** The HARQ processes of a UE: src/nr/model/nr-mac-harq-process.h and nr-mac-harq-vector.{h,cc}.

    A DCI is shared between the process and the allocation that is sent; nobody writes to it after
    its process id has been set, so it is a value here. *)
From Stdlib Require Import ZArith Lia.
From stdpp Require Import base list gmap strings list_numbers.
From coqutil Require Import Datatypes.RecordSettersUsingExistingGetters.
From S2P Require Import Prelude Amc Dci.
Open Scope Z_scope.

(** struct RlcPduInfo *)
Record RlcPduInfo := mkPdu { pdu_lcid : Z; pdu_size : Z }.

(** HarqProcess::Status *)
Inductive HarqStatus := INACTIVE | WAITING_FEEDBACK | RECEIVED_FEEDBACK.
#[export] Instance HarqStatus_eq_dec : EqDecision HarqStatus.
Proof. solve_decision. Defined.

(** struct HarqProcess *)
Record HarqProcess := mkHarq {
  hp_active : bool;
  hp_status : HarqStatus;
  hp_timer : Z;
  m_dciElement : option Dci;
  m_rlcPduInfo : list RlcPduInfo
}.

(** HarqProcess () and HarqProcess::Erase *)
Definition idle_process : HarqProcess := mkHarq false INACTIVE 0 None [].

(** class NrMacHarqVector: the map it derives from, and its members *)
Record NrMacHarqVector := mkHarqVector {
  procs : gmap Z HarqProcess;
  m_maxSize : Z;
  m_usedSize : Z
}.

Definition empty_harq : NrMacHarqVector := mkHarqVector ∅ 0 0.

(** NrMacHarqVector::SetMaxSize; emplace keeps what is there. *)
Definition SetMaxSize (size : Z) (v : NrMacHarqVector) : NrMacHarqVector :=
  mkHarqVector
    (foldl (fun m i => match m !! i with Some _ => m | None => <[i := idle_process]> m end) v.(procs) (seqZ 0 size))
    size v.(m_usedSize).

(** NrMacHarqVector::Get; a missing process is an assertion or a dereferenced end (). *)
Definition harq_get (id : Z) (v : NrMacHarqVector) : res HarqProcess :=
  match v.(procs) !! id with Some p => Ok p | None => Abort "NS_ASSERT(Exist(id))" end.

Definition harq_set (id : Z) (p : HarqProcess) (v : NrMacHarqVector) : NrMacHarqVector :=
  v <| procs ::= <[id := p]> |>.

(** The number of active processes *)
Definition active_count (m : gmap Z HarqProcess) : Z :=
  Z.of_nat (length (filter (fun p => p.2.(hp_active) = true) (map_to_list m))).

(** NrMacHarqVector::Erase *)
Definition HarqErase (id : Z) (v : NrMacHarqVector) : res NrMacHarqVector :=
  let* _ := harq_get id v in
  let v := harq_set id idle_process v <| m_usedSize ::= fun n => u8 (n - 1) |> in
  let* _ := abort_if (negb (active_count v.(procs) =? v.(m_usedSize))) "NS_ASSERT(count == m_usedSize)" in
  Ok v.

(** NrMacHarqVector::CanInsert *)
Definition CanInsert (v : NrMacHarqVector) : bool := v.(m_usedSize) <? v.(m_maxSize).

Section hash.
Context `{CppHash}.

(** NrMacHarqVector::FirstAvailableId: the first in the order of the iteration *)
Definition FirstAvailableId (v : NrMacHarqVector) : Z :=
  match filter (fun p => p.2.(hp_active) = false) (hashed (map_to_list v.(procs))) with
  | [] => 255
  | p :: _ => p.1
  end.

(** NrMacHarqVector::Insert: the id, if there is room *)
Definition HarqInsert (element : HarqProcess) (v : NrMacHarqVector) : res (option Z * NrMacHarqVector) :=
  if v.(m_maxSize) <=? v.(m_usedSize) then Ok (None, v) else
  let* _ := abort_if (negb element.(hp_active)) "NS_ABORT_IF(element.m_active == false)" in
  let id := FirstAvailableId v in
  if id =? 255 then Ok (None, v) else
  let* p := harq_get id v in
  let* _ := abort_if p.(hp_active) "NS_ABORT_IF(at(*id).m_active == true)" in
  let v := harq_set id element v in
  let* _ := abort_if (FirstAvailableId v =? id) "NS_ABORT_IF(this->FirstAvailableId() == *id)" in
  Ok (Some id, v <| m_usedSize ::= fun n => u8 (n + 1) |>).

(** NrMacSchedulerNs3::ResetExpiredHARQ *)
Definition ResetExpiredHARQ (GetNumHarqProcess : Z) (v : NrMacHarqVector) : res NrMacHarqVector :=
  res_fold (fun id v =>
      let* process := harq_get id v in
      if decide (process.(hp_status) = INACTIVE) then Ok v
      else if process.(hp_timer) <? GetNumHarqProcess then
        Ok (harq_set id (process <| hp_timer ::= fun t => u8 (t + 1) |>) v)
      else HarqErase id v)
    (hashed (map_to_list v.(procs))).*1 v.

End hash.

(** ** Well-formed vectors *)

(** A process is active or idle; an active one has its DCI, which names the process and has been
    sent again at most [R] times. *)
Definition process_wf (R id : Z) (p : HarqProcess) : Prop :=
  0 <= p.(hp_timer) <= 255 /\
  if p.(hp_active) then p.(hp_status) <> INACTIVE /\
    exists d, p.(m_dciElement) = Some d /\ m_harqProcess d = id /\ 0 <= m_rv d <= R
  else p.(hp_status) = INACTIVE.

Record harq_wf (R : Z) (v : NrMacHarqVector) : Prop := {
  wf_max : 0 <= v.(m_maxSize) <= 255;
  wf_ids : forall id, is_Some (v.(procs) !! id) <-> 0 <= id < v.(m_maxSize);
  wf_used : v.(m_usedSize) = active_count v.(procs);
  wf_procs : map_Forall (process_wf R) v.(procs)
}.

(** How the active processes of a vector count *)
Lemma active_count_insert m id p q :
  m !! id = Some q ->
  active_count (<[id := p]> m) = active_count m + (if hp_active p then 1 else 0) - (if hp_active q then 1 else 0).
Proof.
  intros Hq. unfold active_count.
  assert (forall (m' : gmap Z HarqProcess) x, m' !! id = None ->
    Z.of_nat (length (filter (fun p => hp_active p.2 = true) (map_to_list (<[id := x]> m'))))
    = (if hp_active x then 1 else 0) + Z.of_nat (length (filter (fun p => hp_active p.2 = true) (map_to_list m')))) as E.
  { intros m' x Hn. rewrite (map_to_list_insert m' id x Hn), filter_cons. cbn.
    destruct (hp_active x); [rewrite decide_True by done|rewrite decide_False by done]; cbn [length]; lia. }
  rewrite <- (insert_delete_eq m id p). rewrite E by (by rewrite lookup_delete_eq).
  rewrite <- (insert_delete_id m id q Hq) at 2. rewrite E by (by rewrite lookup_delete_eq). lia.
Qed.

Lemma active_count_le m : 0 <= active_count m <= Z.of_nat (size m).
Proof.
  unfold active_count. rewrite <- length_map_to_list.
  pose proof (length_filter (fun p => hp_active p.2 = true) (map_to_list m)). lia.
Qed.

Lemma harq_size R v : harq_wf R v -> Z.of_nat (size v.(procs)) = v.(m_maxSize).
Proof.
  intros W. destruct (wf_max R v W) as [M0 M1].
  assert (dom (procs v) = list_to_set (seqZ 0 (m_maxSize v))) as D.
  { apply set_eq. intros id. rewrite elem_of_dom, (wf_ids R v W), elem_of_list_to_set, elem_of_seqZ. lia. }
  rewrite <- size_dom, D, size_list_to_set by apply NoDup_seqZ. rewrite length_seqZ. lia.
Qed.

Lemma process_wf_idle R id : process_wf R id idle_process.
Proof. split; cbn; [lia|done]. Qed.

(** Replacing a process by another *)
Lemma harq_set_wf R v id p q n :
  harq_wf R v -> v.(procs) !! id = Some q -> process_wf R id p ->
  n = v.(m_usedSize) + (if hp_active p then 1 else 0) - (if hp_active q then 1 else 0) ->
  harq_wf R (harq_set id p v <| m_usedSize := n |>).
Proof.
  intros W Hq Wp ->. destruct v as [m ma u]. cbn in *. destruct W as [W1 W2 W3 W4]. cbn in *.
  split; cbn; [done| |rewrite (active_count_insert m id p q Hq), W3; destruct (hp_active p), (hp_active q); unfold const; lia|by apply map_Forall_insert_2].
  intros j. destruct (decide (j = id)) as [->|Ne].
  - rewrite lookup_insert_eq. split; [intros _; apply W2; by eexists|by eexists].
  - by rewrite lookup_insert_ne.
Qed.

Lemma harq_set_used id p v : harq_set id p v = harq_set id p v <| m_usedSize := v.(m_usedSize) |>.
Proof. by destruct v. Qed.

(** A process of the same activity *)
Lemma harq_set_same_wf R v id p q :
  harq_wf R v -> v.(procs) !! id = Some q -> process_wf R id p -> hp_active p = hp_active q -> harq_wf R (harq_set id p v).
Proof. intros W Hq Wp A. rewrite harq_set_used. eapply harq_set_wf; [done..|]. rewrite A. destruct (hp_active q); lia. Qed.

Lemma harq_used_range R v : harq_wf R v -> 0 <= v.(m_usedSize) <= v.(m_maxSize).
Proof.
  intros W. rewrite (wf_used R v W), <- (harq_size R v W). apply active_count_le.
Qed.

(** ** The operations on well-formed vectors *)

Lemma HarqErase_ok R v id p :
  harq_wf R v -> v.(procs) !! id = Some p -> hp_active p = true ->
  exists v', HarqErase id v = Ok v' /\ harq_wf R v' /\ v'.(procs) = <[id := idle_process]> v.(procs) /\
    v'.(m_maxSize) = v.(m_maxSize) /\ v'.(m_usedSize) = v.(m_usedSize) - 1.
Proof.
  intros W Hp A. unfold HarqErase, harq_get. rewrite Hp. cbn [res_bind].
  pose proof (active_count_insert (procs v) id idle_process p Hp) as C. rewrite A in C. cbn in C.
  pose proof (active_count_le (<[id := idle_process]> (procs v))) as L.
  pose proof (harq_used_range R v W) as U. destruct (wf_max R v W) as [M0 M1].
  assert (harq_set id idle_process v <| m_usedSize ::= fun n => u8 (n - 1) |>
    = harq_set id idle_process v <| m_usedSize := m_usedSize v - 1 |>) as E.
  { assert (u8 (m_usedSize v - 1) = m_usedSize v - 1) as E1.
    { apply wrap_small. unfold fits. pose proof (wf_used R v W). lia. }
    transitivity (harq_set id idle_process v <| m_usedSize := u8 (m_usedSize v - 1) |>); [by destruct v|by rewrite E1]. }
  rewrite E. change (procs (harq_set id idle_process v <| m_usedSize := m_usedSize v - 1 |>))
    with (<[id := idle_process]> (procs v)).
  change (m_usedSize (harq_set id idle_process v <| m_usedSize := m_usedSize v - 1 |>)) with (m_usedSize v - 1).
  rewrite (proj2 (Z.eqb_eq _ _)) by (rewrite (wf_used R v W); lia).
  cbn [negb abort_if res_bind]. eexists. split; [done|]. split; [|done].
  eapply harq_set_wf; [done|done|apply process_wf_idle|]. rewrite A. cbn. lia.
Qed.

Section hash_facts.
Context `{CppHash, !CppHashLaws}.

(** When a process is idle, one is found. *)
Lemma FirstAvailableId_spec R v :
  harq_wf R v -> CanInsert v = true ->
  exists p, v.(procs) !! FirstAvailableId v = Some p /\ hp_active p = false /\ 0 <= FirstAvailableId v < v.(m_maxSize).
Proof.
  intros W C. unfold CanInsert in C. apply Z.ltb_lt in C. rewrite (wf_used R v W), <- (harq_size R v W) in C.
  unfold FirstAvailableId. destruct (filter _ _) as [|[id p] l] eqn:E.
  - exfalso. assert (active_count (procs v) = Z.of_nat (size (procs v))) as E'; [|lia].
    unfold active_count. rewrite filter_all; [by rewrite length_map_to_list|].
    apply Forall_forall. intros x Hx. destruct (hp_active x.2) eqn:A; [done|exfalso].
    assert (x ∈ filter (fun p => hp_active p.2 = false) (hashed (map_to_list (procs v)))) as Hf.
    { apply list_elem_of_filter. split; [done|]. by rewrite hashed_perm. }
    rewrite E in Hf. by apply elem_of_nil in Hf.
  - assert ((id, p) ∈ filter (fun p => hp_active p.2 = false) (hashed (map_to_list (procs v)))) as Hf by (rewrite E; by left).
    apply list_elem_of_filter in Hf as [A Hf]. rewrite hashed_perm in Hf. apply elem_of_map_to_list in Hf.
    exists p. cbn. split; [done|]. split; [done|]. apply (wf_ids R v W). by eexists.
Qed.

(** Insert takes an idle process; which one is up to the iteration of the map. *)
Lemma HarqInsert_ok R v element :
  harq_wf R v -> CanInsert v = true -> hp_active element = true ->
  exists id q v', HarqInsert element v = Ok (Some id, v') /\ v.(procs) !! id = Some q /\ hp_active q = false /\
    0 <= id < v.(m_maxSize) /\ v' = mkHarqVector (<[id := element]> v.(procs)) v.(m_maxSize) (v.(m_usedSize) + 1).
Proof.
  intros W C A. destruct (FirstAvailableId_spec R v W C) as (q & Hq & Aq & Rg). destruct (wf_max R v W) as [M0 M1].
  pose proof (harq_used_range R v W) as U. unfold CanInsert in C. apply Z.ltb_lt in C.
  unfold HarqInsert, harq_get. rewrite (proj2 (Z.leb_gt _ _)) by done. rewrite A. cbn [negb abort_if res_bind].
  rewrite (proj2 (Z.eqb_neq _ _)) by lia. rewrite Hq. cbn [res_bind]. rewrite Aq. cbn [abort_if res_bind].
  set (id := FirstAvailableId v) in *. rewrite (proj2 (Z.eqb_neq _ _)).
  - cbn [abort_if res_bind]. exists id, q. eexists. split; [done|]. split; [done|]. split; [done|]. split; [done|].
    transitivity (mkHarqVector (<[id := element]> (procs v)) (m_maxSize v) (u8 (m_usedSize v + 1))); [by destruct v|].
    by rewrite wrap_small by (unfold fits; lia).
  - unfold FirstAvailableId. destruct (filter _ _) as [|[j p] l] eqn:E; [lia|]. cbn. intros ->.
    assert ((id, p) ∈ filter (fun p => hp_active p.2 = false)
      (hashed (map_to_list (procs (harq_set id element v))))) as Hf by (rewrite E; by left).
    apply list_elem_of_filter in Hf as [Ap Hf]. rewrite hashed_perm in Hf. apply elem_of_map_to_list in Hf.
    assert (procs (harq_set id element v) !! id = Some element) as Hi by (by destruct v; apply lookup_insert_eq).
    rewrite Hf in Hi. injection Hi as ->. cbn in Ap. congruence.
Qed.

End hash_facts.

(** ** Expiry *)

(** What a slot does to a process: it ages, and is given up when it is too old. *)
Definition aged (GetNumHarqProcess : Z) (p : HarqProcess) : HarqProcess :=
  if decide (p.(hp_status) = INACTIVE) then p
  else if p.(hp_timer) <? GetNumHarqProcess then p <| hp_timer ::= fun t => u8 (t + 1) |>
  else idle_process.

Lemma aged_wf R N id p : 0 <= N <= 255 -> process_wf R id p -> process_wf R id (aged N p).
Proof.
  intros HN W. unfold aged. case_decide; [done|]. destruct (Z.ltb_spec (hp_timer p) N); [|apply process_wf_idle].
  destruct W as [T W]. destruct p as [a s t d l]. cbn in *. split; [|done]. cbn.
  pose proof (wrap_fits 8 (t + 1) ltac:(lia)) as [? ?]. lia.
Qed.

Lemma expire_fold R N l v :
  0 <= N <= 255 -> harq_wf R v -> NoDup l -> (forall id, id ∈ l -> is_Some (v.(procs) !! id)) ->
  exists v', res_fold (fun id v =>
      let* process := harq_get id v in
      if decide (process.(hp_status) = INACTIVE) then Ok v
      else if process.(hp_timer) <? N then Ok (harq_set id (process <| hp_timer ::= fun t => u8 (t + 1) |>) v)
      else HarqErase id v) l v = Ok v' /\
    harq_wf R v' /\ v'.(m_maxSize) = v.(m_maxSize) /\
    forall id, v'.(procs) !! id = if decide (id ∈ l) then aged N <$> v.(procs) !! id else v.(procs) !! id.
Proof.
  intros HN. revert v. induction l as [|i l IH]; intros v W Nd Ds; cbn [res_fold].
  { exists v. split; [done|]. split; [done|]. split; [done|]. intros id. by rewrite decide_False by apply not_elem_of_nil. }
  apply NoDup_cons in Nd as [Ni Nd]. destruct (Ds i ltac:(by left)) as [p Hp].
  assert (exists v1, (let* process := harq_get i v in
      if decide (hp_status process = INACTIVE) then Ok v
      else if hp_timer process <? N then Ok (harq_set i (process <| hp_timer ::= fun t => u8 (t + 1) |>) v)
      else HarqErase i v) = Ok v1 /\ harq_wf R v1 /\ m_maxSize v1 = m_maxSize v /\
      procs v1 = <[i := aged N p]> (procs v)) as (v1 & -> & W1 & M1 & P1).
  { unfold harq_get. rewrite Hp. cbn [res_bind]. pose proof (wf_procs R v W i p Hp) as Wp.
    pose proof (aged_wf R N i p HN Wp) as Wa. unfold aged in *. case_decide as E.
    { exists v. split; [done|]. split; [done|]. split; [done|]. by rewrite insert_id. }
    assert (hp_active p = true) as A by (destruct Wp as [_ Wp]; destruct (hp_active p); [done|congruence]).
    destruct (hp_timer p <? N).
    - eexists. split; [done|]. split; [|by destruct v]. eapply harq_set_same_wf; [done|done|done|by destruct p].
    - destruct (HarqErase_ok R v i p W Hp A) as (v1 & -> & W1 & P1 & M1 & _). by exists v1. }
  cbn [res_bind]. destruct (IH v1 W1 Nd) as (v' & -> & W' & M' & P').
  { intros id Hid. rewrite P1. destruct (decide (id = i)) as [->|Ne]; [rewrite lookup_insert_eq; by eexists|].
    rewrite lookup_insert_ne by done. apply Ds. by right. }
  exists v'. split; [done|]. split; [done|]. split; [congruence|]. intros id. rewrite P', P1.
  destruct (decide (id = i)) as [->|Ne].
  - rewrite decide_False by done. rewrite lookup_insert_eq, decide_True by (by left). by rewrite Hp.
  - rewrite lookup_insert_ne by done.
    destruct (decide (id ∈ l)); [rewrite decide_True by (by right)|rewrite decide_False by set_solver]; done.
Qed.

Lemma ResetExpiredHARQ_ok `{CppHash, !CppHashLaws} R N v :
  0 <= N <= 255 -> harq_wf R v ->
  exists v', ResetExpiredHARQ N v = Ok v' /\ harq_wf R v' /\ v'.(m_maxSize) = v.(m_maxSize) /\
    v'.(procs) = aged N <$> v.(procs).
Proof.
  intros HN W. unfold ResetExpiredHARQ.
  destruct (expire_fold R N (hashed (map_to_list (procs v))).*1 v HN W) as (v' & E & W' & M' & P').
  - rewrite hashed_perm. apply NoDup_fst_map_to_list.
  - intros id Hid. rewrite hashed_perm in Hid. apply list_elem_of_fmap in Hid as ([j p] & -> & Hj).
    apply elem_of_map_to_list in Hj. by eexists.
  - exists v'. split; [done|]. split; [done|]. split; [done|]. apply map_eq. intros id. rewrite P', lookup_fmap.
    case_decide as D; [done|]. destruct (procs v !! id) as [p|] eqn:Hp; [|done].
    exfalso. apply D. rewrite hashed_perm. apply list_elem_of_fmap. exists (id, p). split; [done|]. by apply elem_of_map_to_list.
Qed.
