(* ===== verification/Srs.v ===== *)
(** The offsets of the sounding reference signals: src/nr/model/nr-mac-scheduler-srs-default.cc.

    The UEs whose values are set again are given by their keys in the order of the iteration; the
    values are returned.  The shuffle of the offsets is an event of its own, planned for the
    current time; the permutation it applies is a parameter. *)
From Stdlib Require Import ZArith Lia.
From stdpp Require Import base list gmap strings list_numbers.
From coqutil Require Import Datatypes.RecordSettersUsingExistingGetters.
From S2P Require Import Prelude.
Open Scope Z_scope.

(** Shuffle of core/model/shuffle.h over a random stream *)
Class CppShuffle : Type := { Shuffle : list Z -> list Z }.
Class CppShuffleLaws `{CppShuffle} : Prop := { Shuffle_perm : forall l, Shuffle l ≡ₚ l }.

Definition StandardPeriodicity : list Z := [2; 4; 5; 8; 10; 16; 20; 32; 40; 64; 80; 160; 320; 640; 1280; 2560].

(** The members of NrMacSchedulerSrsDefault; [m_shufflePending] is m_shuffleEventId.IsPending (). *)
Record SrsDefault := mkSrs {
  m_periodicity : Z;
  m_availableOffsetValues : list Z;
  m_shufflePending : bool
}.

(** struct SrsPeriodicityAndOffset, when valid *)
Record SrsValue := mkSrsValue { srs_periodicity : Z; srs_offset : Z }.

(** NrMacSchedulerSrsDefault::AddUe: the last offset is taken. *)
Definition AddUe (s : SrsDefault) : option SrsValue * SrsDefault :=
  match last s.(m_availableOffsetValues) with
  | None => (None, s)
  | Some o =>
      (Some (mkSrsValue s.(m_periodicity) o),
       s <| m_availableOffsetValues ::= fun l => take (length l - 1) l |>)
  end.

(** NrMacSchedulerSrsDefault::RemoveUe *)
Definition RemoveUe (offset : Z) (s : SrsDefault) : SrsDefault :=
  s <| m_availableOffsetValues ::= fun l => l ++ [offset] |>.

(** NrMacSchedulerSrsDefault::SetStartingPeriodicity *)
Definition SetStartingPeriodicity (start : Z) (s : SrsDefault) : res SrsDefault :=
  let* _ := abort_if (negb (bool_decide (s.(m_availableOffsetValues) = [])))
              "We already started giving offset to UEs, you cannot alter the periodicity" in
  let* _ := abort_if (negb (bool_decide (start ∈ StandardPeriodicity))) "You cannot use this periodicity" in
  Ok (mkSrs start (seqZ 0 start) true).

(** NrMacSchedulerSrsDefault::ShuffleOffsets *)
Definition ShuffleOffsets `{CppShuffle} (s : SrsDefault) : SrsDefault :=
  s <| m_availableOffsetValues ::= Shuffle |> <| m_shufflePending := false |>.

(** NrMacSchedulerSrsDefault::ReassignSrsValue *)
Fixpoint ReassignSrsValue {K : Type} (ues : list K) (s : SrsDefault) : res (list (K * SrsValue) * SrsDefault) :=
  match ues with
  | [] => Ok ([], s)
  | ue :: ues =>
      let '(srs, s) := AddUe s in
      match srs with
      | None => Abort "NS_ASSERT(srs.m_isValid)"
      | Some srs =>
          let* r := ReassignSrsValue ues s in
          Ok ((ue, srs) :: r.1, r.2)
      end
  end.

(** The tail both changes of the periodicity share, with the new one *)
Definition change_periodicity {K : Type} (p : option Z) (ues : list K) (s : SrsDefault) :
    res (option (list (K * SrsValue)) * SrsDefault) :=
  let s := s <| m_availableOffsetValues := [] |> in
  match p with
  | None => Ok (None, s)
  | Some p =>
      let* s := SetStartingPeriodicity p s in
      let* r := ReassignSrsValue ues s in
      Ok (Some r.1, r.2)
  end.

(** NrMacSchedulerSrsDefault::IncreasePeriodicity, over std::upper_bound; None is false. *)
Definition IncreasePeriodicity {K : Type} (ues : list K) (s : SrsDefault) :=
  change_periodicity (head (filter (fun p => s.(m_periodicity) < p) StandardPeriodicity)) ues s.

(** NrMacSchedulerSrsDefault::DecreasePeriodicity, over std::lower_bound *)
Definition DecreasePeriodicity {K : Type} (ues : list K) (s : SrsDefault) :=
  change_periodicity (head (filter (fun p => s.(m_periodicity) <= p) StandardPeriodicity)) ues s.

(** NrMacSchedulerSrsDefault::IsMaxSrsReached *)
Definition IsMaxSrsReached (s : SrsDefault) : bool :=
  (s.(m_periodicity) =? 2560) && bool_decide (s.(m_availableOffsetValues) = []).

(** ** The offsets that are free and those that are given partition the period. *)

Definition srs_inv (s : SrsDefault) (given : list Z) : Prop :=
  s.(m_periodicity) ∈ StandardPeriodicity /\ s.(m_availableOffsetValues) ++ given ≡ₚ seqZ 0 s.(m_periodicity).

Lemma standard_positive p : p ∈ StandardPeriodicity -> 2 <= p <= 2560.
Proof.
  intros Hp. assert (Forall (fun p => 2 <= p <= 2560) StandardPeriodicity) as F by (repeat (constructor; [lia|]); constructor).
  rewrite Forall_forall in F. exact (F p Hp).
Qed.

Lemma take_last {A : Type} (l : list A) a : last l = Some a -> l = take (length l - 1) l ++ [a].
Proof.
  intros E. apply last_Some in E as [l' ->]. rewrite length_app. cbn.
  replace (length l' + 1 - 1)%nat with (length l') by lia. by rewrite take_app_length.
Qed.

Lemma AddUe_spec s given :
  srs_inv s given ->
  match AddUe s with
  | (None, s') => s' = s /\ s.(m_availableOffsetValues) = []
  | (Some v, s') => srs_inv s' (v.(srs_offset) :: given) /\ v.(srs_periodicity) = s.(m_periodicity) /\
      s'.(m_periodicity) = s.(m_periodicity) /\
      length s'.(m_availableOffsetValues) = (length s.(m_availableOffsetValues) - 1)%nat
  end.
Proof.
  intros [S P]. unfold AddUe. destruct (last _) as [o|] eqn:E; [|split; [done|by apply last_None in E]].
  cbn [srs_offset srs_periodicity]. destruct s as [p l b]. cbn in *.
  split; [split; [done|]|].
  - change (take (length l - 1) l ++ o :: given ≡ₚ seqZ 0 p). rewrite <- P. rewrite (take_last l o E) at 3.
    by rewrite <- app_assoc.
  - split; [done|]. split; [done|]. change (length (take (length l - 1) l) = (length l - 1)%nat). rewrite length_take. lia.
Qed.

Lemma RemoveUe_spec s o given : srs_inv s (o :: given) -> srs_inv (RemoveUe o s) given.
Proof.
  intros [S P]. destruct s as [p l b]. split; cbn in *; [done|].
  change ((l ++ [o]) ++ given ≡ₚ seqZ 0 p). rewrite <- app_assoc. exact P.
Qed.

Lemma ShuffleOffsets_spec `{CppShuffle, !CppShuffleLaws} s given : srs_inv s given -> srs_inv (ShuffleOffsets s) given.
Proof.
  intros [S P]. destruct s as [p l b]. split; cbn in *; [done|].
  change (Shuffle l ++ given ≡ₚ seqZ 0 p). by rewrite Shuffle_perm.
Qed.

Lemma ReassignSrsValue_spec {K : Type} (ues : list K) s given :
  srs_inv s given -> (length ues <= length s.(m_availableOffsetValues))%nat ->
  exists r s', ReassignSrsValue ues s = Ok (r, s') /\ r.*1 = ues /\
    srs_inv s' ((srs_offset <$> r.*2) ++ given) /\ s'.(m_periodicity) = s.(m_periodicity) /\
    Forall (fun v => v.(srs_periodicity) = s.(m_periodicity)) r.*2.
Proof.
  revert s given. induction ues as [|ue ues IH]; intros s given I L; cbn [ReassignSrsValue].
  { exists [], s. split; [done|]. split; [done|]. split; [done|]. split; [done|constructor]. }
  pose proof (AddUe_spec s given I) as A. destruct (AddUe s) as [[v|] s1].
  - destruct A as (I1 & Pv & P1 & L1). destruct (IH s1 _ I1) as (r & s' & -> & K1 & I' & P' & F); [cbn in L; lia|].
    cbn [res_bind fst snd]. eexists _, s'. split; [done|]. cbn. split; [by rewrite K1|]. split; [|split; [congruence|]].
    + destruct I' as [I1' I2']. split; [done|]. rewrite <- I2'. apply Permutation_app_head, Permutation_middle.
    + constructor; [done|]. by rewrite P1 in F.
  - destruct A as [_ A]. rewrite A in L. cbn in L. lia.
Qed.

(** The next standard periodicity *)
Lemma next_periodicity p :
  p ∈ StandardPeriodicity -> p <> 2560 ->
  exists q, head (filter (fun q => p < q) StandardPeriodicity) = Some q /\ q ∈ StandardPeriodicity /\ p < q.
Proof.
  intros Hp Np.
  assert (filter (fun q => p < q) StandardPeriodicity <> []) as Ne.
  { intros E. assert (2560 ∈ filter (fun q => p < q) StandardPeriodicity) as Hi.
    { apply list_elem_of_filter. split; [pose proof (standard_positive p Hp); lia|]. apply (bool_decide_unpack (2560 ∈ StandardPeriodicity)). exact I. }
    rewrite E in Hi. by apply elem_of_nil in Hi. }
  destruct (filter (fun q => p < q) StandardPeriodicity) as [|q l] eqn:E; [done|].
  assert (q ∈ filter (fun q => p < q) StandardPeriodicity) as Hq by (rewrite E; by left).
  apply list_elem_of_filter in Hq as [? ?]. by exists q.
Qed.

(** Increasing the periodicity gives every UE another offset, all different; it is only
    impossible at 2560. *)
Lemma IncreasePeriodicity_spec {K : Type} (ues : list K) s :
  s.(m_periodicity) ∈ StandardPeriodicity -> s.(m_periodicity) <> 2560 -> Z.of_nat (length ues) <= s.(m_periodicity) + 1 ->
  exists r s', IncreasePeriodicity ues s = Ok (Some r, s') /\ r.*1 = ues /\ srs_inv s' (srs_offset <$> r.*2) /\
    s.(m_periodicity) < s'.(m_periodicity) /\ Forall (fun v => v.(srs_periodicity) = s'.(m_periodicity)) r.*2.
Proof.
  intros Hp Np L. destruct (next_periodicity _ Hp Np) as (q & E & Hq & Lt). unfold IncreasePeriodicity, change_periodicity.
  rewrite E. unfold SetStartingPeriodicity. rewrite bool_decide_true by (by destruct s). cbn [negb abort_if res_bind].
  rewrite bool_decide_true by done. cbn [negb abort_if res_bind]. pose proof (standard_positive q Hq).
  destruct (ReassignSrsValue_spec ues (mkSrs q (seqZ 0 q) true) []) as (r & s' & -> & Kr & I & P & F).
  - split; [done|]. cbn. by rewrite app_nil_r.
  - cbn. rewrite length_seqZ. lia.
  - cbn [res_bind fst snd]. exists r, s'. split; [done|]. split; [done|]. rewrite app_nil_r in I. cbn in P.
    split; [done|]. split; [lia|]. by rewrite P.
Qed.
