(* ===== verification/SfnSf.v ===== *)
(** The number of a slot: src/nr/model/sfnsf.cc. *)
From Stdlib Require Import ZArith Lia.
From stdpp Require Import base strings.
From S2P Require Import Prelude.
Open Scope Z_scope.

(** class SfnSf: a uint32 and three uint8 *)
Record SfnSf := mkSfn { m_frameNum : Z; m_subframeNum : Z; m_slotNum : Z; m_numerology : Z }.

#[export] Instance SfnSf_eq_dec : EqDecision SfnSf.
Proof. solve_decision. Defined.

Definition GetSubframesPerFrame : Z := 10.
(** SfnSf::GetSlotPerSubframe: 1 << m_numerology *)
Definition GetSlotPerSubframe (s : SfnSf) : Z := Z.shiftl 1 s.(m_numerology).

Definition encoding_asserts (s : SfnSf) : res unit :=
  let* _ := abort_if (7 <=? s.(m_numerology)) "NS_ASSERT(m_numerology < 7)" in
  let* _ := abort_if (64 <=? s.(m_slotNum)) "NS_ASSERT(m_slotNum < 64)" in
  let* _ := abort_if (10 <=? s.(m_subframeNum)) "NS_ASSERT(m_subframeNum < 10)" in
  abort_if (16777215 <=? s.(m_frameNum)) "NS_ASSERT(m_frameNum < 16777215)".

(** SfnSf::GetEncoding *)
Definition GetEncoding (s : SfnSf) : res Z :=
  let* _ := encoding_asserts s in
  Ok (Z.lor (Z.lor (Z.lor (Z.shiftl s.(m_frameNum) 24) (Z.shiftl s.(m_subframeNum) 16))
        (Z.shiftl s.(m_slotNum) 8)) (Z.shiftl s.(m_numerology) 5)).

(** SfnSf::GetEncodingWithSymStartRnti *)
Definition GetEncodingWithSymStartRnti (symStart rnti : Z) (s : SfnSf) : res Z :=
  let* _ := abort_if (14 <=? symStart) "NS_ASSERT(symStart < 14)" in
  let* _ := encoding_asserts s in
  Ok (Z.lor (Z.lor (Z.lor (Z.lor (Z.lor (Z.shiftl rnti 48) (Z.shiftl s.(m_frameNum) 24))
        (Z.shiftl s.(m_subframeNum) 16)) (Z.shiftl s.(m_slotNum) 8)) (Z.shiftl s.(m_numerology) 5)) symStart).

(** SfnSf::FromEncoding *)
Definition FromEncoding (sfn : Z) : SfnSf :=
  mkSfn (Z.shiftr (Z.land sfn 0x0000FFFFFF000000) 24) (u8 (Z.shiftr (Z.land sfn 0x0000000000FF0000) 16))
    (u8 (Z.shiftr (Z.land sfn 0x000000000000FF00) 8)) (u8 (Z.shiftr (Z.land sfn 0x00000000000000E0) 5)).

(** SfnSf::Normalize; the products are of 32 bits. *)
Definition Normalize (s : SfnSf) : Z :=
  u64 (s.(m_slotNum) + u32 (s.(m_subframeNum) * GetSlotPerSubframe s)
       + u32 (s.(m_frameNum) * GetSubframesPerFrame * GetSlotPerSubframe s)).

(** SfnSf::Add and GetFutureSfnSf *)
Definition SfnAdd (slotN : Z) (s : SfnSf) : res SfnSf :=
  let* _ := abort_if (5 <? s.(m_numerology)) "Numerology invalid" in
  let subframes := u32 (s.(m_subframeNum) + u32 (s.(m_slotNum) + slotN) / GetSlotPerSubframe s) in
  Ok (mkSfn (u32 (s.(m_frameNum) + subframes / GetSubframesPerFrame)) (u8 (subframes mod GetSubframesPerFrame))
        (u8 (u32 (s.(m_slotNum) + slotN) mod GetSlotPerSubframe s)) s.(m_numerology)).

(** SfnSf::operator< *)
Definition sfn_ltb (s o : SfnSf) : res bool :=
  let* _ := abort_if (negb (o.(m_numerology) =? s.(m_numerology))) "Numerology does not match" in
  Ok ((s.(m_frameNum) <? o.(m_frameNum)) ||
      ((s.(m_frameNum) =? o.(m_frameNum)) && (s.(m_subframeNum) <? o.(m_subframeNum))) ||
      ((s.(m_frameNum) =? o.(m_frameNum)) && (s.(m_subframeNum) =? o.(m_subframeNum)) && (s.(m_slotNum) <? o.(m_slotNum)))).

(** ** Well-formed slot numbers: the counters of a numerology up to 5 *)

Record sfn_wf (s : SfnSf) : Prop := {
  wf_num : 0 <= s.(m_numerology) <= 5;
  wf_slot : 0 <= s.(m_slotNum) < 2 ^ s.(m_numerology);
  wf_sub : 0 <= s.(m_subframeNum) < 10;
  wf_frame : 0 <= s.(m_frameNum) < 13421772
}.

Lemma slots_eq s : GetSlotPerSubframe s = 2 ^ s.(m_numerology).
Proof. unfold GetSlotPerSubframe. by rewrite Z.shiftl_1_l. Qed.

Lemma slots_range s : 0 <= s.(m_numerology) <= 5 -> 1 <= 2 ^ s.(m_numerology) <= 32.
Proof.
  intros H. split; [change 1 with (2 ^ 0)|change 32 with (2 ^ 5)]; apply Z.pow_le_mono_r; lia.
Qed.

(** Bit fields that do not overlap add up. *)
Lemma lor_shiftl_add a b n : 0 <= n -> 0 <= b < 2 ^ n -> Z.lor (Z.shiftl a n) b = a * 2 ^ n + b.
Proof.
  intros Hn Hb. rewrite Z.shiftl_mul_pow2 by done.
  assert (Z.land (a * 2 ^ n) b = 0) as L; [|by rewrite <- Z.lxor_lor, <- Z.add_nocarry_lxor].
  apply Z.bits_inj'. intros i Hi. rewrite Z.land_spec, Z.bits_0.
  destruct (Z.lt_ge_cases i n).
  - by rewrite Z.mul_pow2_bits_low.
  - destruct (Z.eq_dec b 0) as [->|]; [by rewrite Z.bits_0, andb_false_r|].
    rewrite (Z.bits_above_log2 b i), andb_false_r; [done|lia|]. apply Z.log2_lt_pow2; [lia|].
    eapply Z.lt_le_trans; [apply Hb|]. apply Z.pow_le_mono_r; lia.
Qed.

Lemma encoding_eq s :
  0 <= m_subframeNum s < 256 -> 0 <= m_slotNum s < 256 -> 0 <= m_numerology s < 8 ->
  Z.lor (Z.lor (Z.lor (Z.shiftl s.(m_frameNum) 24) (Z.shiftl s.(m_subframeNum) 16))
    (Z.shiftl s.(m_slotNum) 8)) (Z.shiftl s.(m_numerology) 5)
  = m_frameNum s * 2 ^ 24 + m_subframeNum s * 2 ^ 16 + m_slotNum s * 2 ^ 8 + m_numerology s * 2 ^ 5.
Proof.
  intros H1 H2 H3.
  rewrite (Z.shiftl_mul_pow2 (m_subframeNum s)), (Z.shiftl_mul_pow2 (m_slotNum s)), (Z.shiftl_mul_pow2 (m_numerology s)) by lia.
  rewrite lor_shiftl_add by lia. rewrite <- !Z.lor_assoc.
  replace (Z.lor (m_frameNum s * 2 ^ 24 + m_subframeNum s * 2 ^ 16) (Z.lor (m_slotNum s * 2 ^ 8) (m_numerology s * 2 ^ 5)))
    with (Z.lor (Z.shiftl (m_frameNum s * 2 ^ 8 + m_subframeNum s) 16) (Z.lor (Z.shiftl (m_slotNum s) 8) (m_numerology s * 2 ^ 5))).
  2:{ rewrite !Z.shiftl_mul_pow2 by lia. f_equal. lia. }
  rewrite (lor_shiftl_add (m_slotNum s)) by lia. rewrite lor_shiftl_add by lia. lia.
Qed.

(** A field of the sum *)
Lemma field_eq x lo n m :
  0 <= lo -> 0 <= n -> m = Z.shiftl (Z.ones n) lo -> Z.shiftr (Z.land x m) lo = (x / 2 ^ lo) mod 2 ^ n.
Proof.
  intros Hl Hn ->. rewrite Z.shiftr_land, Z.shiftr_shiftl_l by done. rewrite Z.sub_diag, Z.shiftl_0_r.
  by rewrite Z.land_ones, Z.shiftr_div_pow2.
Qed.

(** decoding an encoded slot number gives it back: the allocations of different slots do not
    share a key. *)
Theorem sfn_roundtrip s :
  sfn_wf s -> exists e, GetEncoding s = Ok e /\ FromEncoding e = s /\ fits 64 e.
Proof.
  intros [N S B F]. pose proof (slots_range s N) as P. unfold GetEncoding, encoding_asserts.
  rewrite !(proj2 (Z.leb_gt _ _)) by lia. cbn [abort_if res_bind]. rewrite encoding_eq by lia.
  eexists. split; [done|]. split; [|unfold fits; lia]. unfold FromEncoding.
  rewrite (field_eq _ 24 24) by done. rewrite (field_eq _ 16 8) by done. rewrite (field_eq _ 8 8) by done.
  rewrite (field_eq _ 5 3) by done. destruct s as [f b l n]. cbn [m_frameNum m_subframeNum m_slotNum m_numerology] in *.
  set (e := f * 2 ^ 24 + b * 2 ^ 16 + l * 2 ^ 8 + n * 2 ^ 5).
  assert (e / 2 ^ 24 = f) as -> by (symmetry; apply Z.div_unique with (r := b * 2 ^ 16 + l * 2 ^ 8 + n * 2 ^ 5); unfold e; lia).
  assert (e / 2 ^ 16 = f * 2 ^ 8 + b) as -> by (symmetry; apply Z.div_unique with (r := l * 2 ^ 8 + n * 2 ^ 5); unfold e; lia).
  assert (e / 2 ^ 8 = f * 2 ^ 16 + b * 2 ^ 8 + l) as -> by (symmetry; apply Z.div_unique with (r := n * 2 ^ 5); unfold e; lia).
  assert (e / 2 ^ 5 = f * 2 ^ 19 + b * 2 ^ 11 + l * 2 ^ 3 + n) as -> by (symmetry; apply Z.div_unique with (r := 0); unfold e; lia).
  f_equal.
  - apply Z.mod_small. lia.
  - rewrite <- (Z.mod_unique (f * 2 ^ 8 + b) (2 ^ 8) f b) by lia. apply wrap_small. unfold fits. lia.
  - rewrite <- (Z.mod_unique (f * 2 ^ 16 + b * 2 ^ 8 + l) (2 ^ 8) (f * 2 ^ 8 + b) l) by lia. apply wrap_small. unfold fits. lia.
  - rewrite <- (Z.mod_unique (f * 2 ^ 19 + b * 2 ^ 11 + l * 2 ^ 3 + n) (2 ^ 3) (f * 2 ^ 16 + b * 2 ^ 8 + l) n) by lia.
    apply wrap_small. unfold fits. lia.
Qed.

Lemma normalize_eq s :
  sfn_wf s -> Normalize s = m_slotNum s + (m_subframeNum s + m_frameNum s * 10) * 2 ^ m_numerology s.
Proof.
  intros [N S B F]. pose proof (slots_range s N) as P. unfold Normalize, GetSubframesPerFrame. rewrite slots_eq.
  rewrite (wrap_small 32 (m_subframeNum s * _)) by (unfold fits; nia).
  rewrite (wrap_small 32 (m_frameNum s * 10 * _)) by (unfold fits; nia).
  rewrite wrap_small by (unfold fits; nia). lia.
Qed.

(** C28: slot numbers count slots: adding n moves the count by n, and the order is that of the
    counts, as long as the frame number stays below 13421772. *)
Theorem sfn_counts s o n :
  sfn_wf s -> sfn_wf o -> m_numerology o = m_numerology s -> 0 <= n ->
  Normalize s + n < 13421772 * 10 * 2 ^ m_numerology s ->
  sfn_ltb s o = Ok (Normalize s <? Normalize o) /\ (Normalize s = Normalize o <-> s = o) /\
  exists s', SfnAdd n s = Ok s' /\ sfn_wf s' /\ Normalize s' = Normalize s + n /\ m_numerology s' = m_numerology s.
Proof.
  intros Ws Wo En Hn Hb. rewrite (normalize_eq s Ws) in *. rewrite (normalize_eq o Wo), En.
  destruct Ws as [N S B F], Wo as [N' S' B' F']. rewrite En in *. pose proof (slots_range s N) as P.
  set (k := 2 ^ m_numerology s) in *. split; [|split].
  - unfold sfn_ltb. rewrite En, Z.eqb_refl. cbn [negb abort_if res_bind]. f_equal.
    destruct (Z.ltb_spec (m_frameNum s) (m_frameNum o)); cbn [orb]; [symmetry; apply Z.ltb_lt; nia|].
    destruct (Z.eqb_spec (m_frameNum s) (m_frameNum o)) as [Ef|]; cbn [andb orb]; [|symmetry; apply Z.ltb_ge; nia].
    rewrite Ef. destruct (Z.ltb_spec (m_subframeNum s) (m_subframeNum o)); cbn [orb]; [symmetry; apply Z.ltb_lt; nia|].
    destruct (Z.eqb_spec (m_subframeNum s) (m_subframeNum o)) as [Eb|]; cbn [andb orb]; [|symmetry; apply Z.ltb_ge; nia].
    rewrite Eb. destruct (Z.ltb_spec (m_slotNum s) (m_slotNum o)); symmetry; [apply Z.ltb_lt|apply Z.ltb_ge]; lia.
  - split; [|by intros ->]. intros E.
    destruct (Z.div_mod_unique k (m_subframeNum s + m_frameNum s * 10) (m_subframeNum o + m_frameNum o * 10)
      (m_slotNum s) (m_slotNum o)) as [E1 E2]; [lia|lia|lia|].
    destruct s as [f b l u], o as [f' b' l' u']. cbn in *. f_equal; lia.
  - unfold SfnAdd, GetSubframesPerFrame. rewrite (proj2 (Z.ltb_ge _ _)) by lia. cbn [abort_if res_bind]. rewrite slots_eq.
    fold k. assert (m_slotNum s + n < 2 ^ 32) as L by nia.
    rewrite (wrap_small 32 (m_slotNum s + n)) by (unfold fits; lia).
    pose proof (Z.div_mod (m_slotNum s + n) k ltac:(lia)) as D1. pose proof (Z.mod_pos_bound (m_slotNum s + n) k ltac:(lia)) as M1.
    set (q := (m_slotNum s + n) / k) in *. set (r := (m_slotNum s + n) mod k) in *.
    assert (0 <= q) by (apply Z.div_pos; lia). assert (m_subframeNum s + q < 2 ^ 32) by nia.
    rewrite (wrap_small 32 (m_subframeNum s + q)) by (unfold fits; lia).
    pose proof (Z.div_mod (m_subframeNum s + q) 10 ltac:(lia)) as D2.
    pose proof (Z.mod_pos_bound (m_subframeNum s + q) 10 ltac:(lia)) as M2.
    set (q2 := (m_subframeNum s + q) / 10) in *. set (r2 := (m_subframeNum s + q) mod 10) in *.
    assert (0 <= q2) by (apply Z.div_pos; lia). assert (m_frameNum s + q2 < 13421772) by nia.
    rewrite !wrap_small by (unfold fits; lia). eexists. split; [done|].
    assert (sfn_wf (mkSfn (m_frameNum s + q2) r2 r (m_numerology s))) as W by (split; cbn; lia).
    split; [done|]. split; [|done]. rewrite (normalize_eq _ W). cbn. fold k. nia.
Qed.

(** ** Witnesses *)

Theorem sfn_roundtrip_witness :
  exists e, GetEncoding (mkSfn 1023 9 5 3) = Ok e /\ FromEncoding e = mkSfn 1023 9 5 3 /\ fits 64 e.
Proof. apply (sfn_roundtrip (mkSfn 1023 9 5 3)). split; cbn; lia. Defined.

Theorem sfn_counts_witness :
  sfn_ltb (mkSfn 7 9 7 3) (mkSfn 8 0 0 3) = Ok (Normalize (mkSfn 7 9 7 3) <? Normalize (mkSfn 8 0 0 3)) /\
  (Normalize (mkSfn 7 9 7 3) = Normalize (mkSfn 8 0 0 3) <-> mkSfn 7 9 7 3 = mkSfn 8 0 0 3) /\
  exists s', SfnAdd 1 (mkSfn 7 9 7 3) = Ok s' /\ sfn_wf s' /\ Normalize s' = Normalize (mkSfn 7 9 7 3) + 1 /\
    m_numerology s' = 3.
Proof.
  apply (sfn_counts (mkSfn 7 9 7 3) (mkSfn 8 0 0 3) 1); [split; cbn; lia|split; cbn; lia|done|lia|by vm_compute].
Defined.
