(* ===== verification/MacScheduler.v ===== *)
(** The MAC scheduler: the state of src/nr/model/nr-mac-scheduler-ns3.{h,cc} and the requests that
    do not allocate, the configuration of UEs and channels, the reports and the HARQ feedback.

    The key of m_ueMap, the RNTI, serves as the pointer to a UE, whose scheduler object lives
    exactly as long as its entry.  There is no fronthaul control; CQIs are in CqiManagement.v. *)
From Stdlib Require Import ZArith Lia SpecFloat.
From stdpp Require Import base list gmap strings list_numbers.
From coqutil Require Import Datatypes.RecordSettersUsingExistingGetters.
From S2P Require Import Prelude OrdMap Messages UlScheduler Amc DlUe CqiManagement DlScheduler Dci.
From S2P Require Import LogicalChannels Harq Srs SfnSf.
Open Scope Z_scope.

(** ** The state *)

(** class BeamId; elevations are compared as values. *)
Record BeamId := mkBeam { m_sector : Z; m_elevation : double }.
#[export] Instance BeamId_eq_dec : EqDecision BeamId.
Proof.
  intros [s e] [s' e']. destruct (decide (s = s')) as [->|N]; [|right; congruence].
  destruct (spec_float_eq_dec e e') as [->|N]; [by left|right; congruence].
Defined.

Definition OMNI_BEAM_ID : BeamId := mkBeam 65535 (d_of_Z 65535).

(** class NrMacSchedulerUeInfo: the parts of the two directions, and the rest *)
Record SchedUe := mkSchedUe {
  ue_dl : UeInfoDl;
  ue_ul : UeInfoUl;
  m_beamId : BeamId;
  m_dlLCG : gmap Z NrMacSchedulerLCG;
  m_ulLCG : gmap Z NrMacSchedulerLCG;
  m_dlHarq : NrMacHarqVector;
  m_ulHarq : NrMacHarqVector;
  m_ulMRBRetx : Z;
  m_ulPrecMats : option nat;
  ue_ulCqi : SchedCqiInfo;
  m_srsPeriodicity : Z;
  m_srsOffset : Z;
  m_startMcsDlUe : Z
}.

(** struct AllocElem and struct SlotElem *)
Record AllocElem := mkAllocElem {
  al_rnti : Z; al_tbs : Z; al_symStart : Z; al_numSym : Z; al_mcs : Z; al_rank : Z; al_rbgMask : list bool }.
Record SlotElem := mkSlotElem { m_totUlSym : Z; m_ulAllocations : list AllocElem }.

(** struct RachListElement_s *)
Record RachReq := mkRach { rach_rnti : Z; m_estimatedSize : Z }.

(** DlHarqInfo and UlHarqInfo: whose process, and IsReceivedOk () *)
Record HarqInfo := mkHarqInfo { fb_rnti : Z; fb_process : Z; IsReceivedOk : bool }.
#[export] Instance HarqInfo_eq_dec : EqDecision HarqInfo.
Proof. solve_decision. Defined.

(** struct VarTtiAllocInfo *)
Record VarTti := mkVarTti { m_isOmni : bool; m_dci : Dci; tti_rlcPduInfo : list RlcPduInfo }.

(** struct SlotAllocInfo: what SchedConfigInd is given *)
Record SlotAllocInfo := mkSlotAlloc { m_numSymAlloc : Z; m_varTtiAllocInfo : list VarTti }.

(** The members of NrMacSchedulerNs3 that change, and m_rrBeams of its symbols-per-beam policy *)
Record MacSched := mkMac {
  m_ueMap : gmap nat SchedUe;
  m_ulAllocationMap : gmap Z SlotElem;
  m_dlHarqToRetransmit : list HarqInfo;
  m_ulHarqToRetransmit : list HarqInfo;
  m_srList : list Z;
  m_rachList : list RachReq;
  m_srsSlotCounter : Z;
  m_schedulerSrs : SrsDefault;
  m_rrBeams : list BeamId;
  m_ulTargets : gmap Z Z;
  sched_dlDeque : list Z;
  sched_dlRntiSet : gset Z;
  m_harqRrBeams : list BeamId
}.

(** The attributes and what the MAC tells: all that a simulation does not change *)
Record SchedConf := mkConf {
  GetSymbolsPerSlot : Z;
  m_dlCtrlSymbols : Z;
  m_ulCtrlSymbols : Z;
  m_srsCtrlSymbols : Z;
  m_enableSrsInUlSlots : bool;
  m_enableSrsInFSlots : bool;
  m_enableHarqReTx : bool;
  GetNumHarqProcess : Z;
  GetBandwidthInRbg : nat;
  GetNumRbPerRbg : Z;
  GetBwpId : Z;
  m_dlNotchedRbgsMask : list bool;
  m_ulNotchedRbgsMask : list bool;
  m_rachUlGrantMcs : Z;
  m_startMcsDl : Z;
  m_startMcsUl : Z;
  conf_mcsCsiSource : McsCsiSource
}.

(** NrMacSchedulerNs3::GetUlBitmask *)
Definition GetUlBitmask (conf : SchedConf) : list bool :=
  match conf.(m_ulNotchedRbgsMask) with [] => replicate conf.(GetBandwidthInRbg) true | _ => conf.(m_ulNotchedRbgsMask) end.

(** m_ueMap.find (rnti), where the source goes on without a check *)
Definition ue_key (rnti : Z) : nat := Z.to_nat rnti.
Definition find_ue (rnti : Z) (m : gmap nat SchedUe) : res SchedUe :=
  match m !! ue_key rnti with Some ue => Ok ue | None => Abort "no UE with this RNTI" end.
Definition put_ue (rnti : Z) (ue : SchedUe) (m : gmap nat SchedUe) : gmap nat SchedUe := <[ue_key rnti := ue]> m.

(** A loop over the UEs that changes each of them *)
Definition each_ue `{CppHash} (f : SchedUe -> res SchedUe) (m : gmap nat SchedUe) : res (gmap nat SchedUe) :=
  res_fold (fun k m =>
      match m !! k with
      | None => Ok m
      | Some ue => let* ue := f ue in Ok (<[k := ue]> m)
      end) (hashed (map_to_list m)).*1 m.

(** ** Configuration *)

(** NrMacSchedulerOfdmaRR::CreateUeRepresentation, and what DoCschedUeConfigReq sets *)
Definition new_ue (conf : SchedConf) (rnti : Z) (beam : BeamId) : SchedUe :=
  mkSchedUe
    (mkUeDl rnti 0 [] [] 0 conf.(m_startMcsDl) None 1 None [] [] (mkSchedCqi WB [] 0 [] 0) conf.(conf_mcsCsiSource))
    (mkUeUl rnti [] [] 0 conf.(m_startMcsUl) 1) beam ∅ ∅
    (SetMaxSize (u8 conf.(GetNumHarqProcess)) empty_harq) (SetMaxSize (u8 conf.(GetNumHarqProcess)) empty_harq)
    0 None (mkSchedCqi WB [] 0 [] 0) 0 0 conf.(m_startMcsDl).

Definition set_srs (v : SrsValue) (ue : SchedUe) : SchedUe :=
  ue <| m_srsPeriodicity := v.(srs_periodicity) |> <| m_srsOffset := v.(srs_offset) |>.

(** NrMacSchedulerNs3::DoCschedUeConfigReq *)
Definition DoCschedUeConfigReq `{CppHash} (conf : SchedConf) (rnti : Z) (beam : BeamId) (s : MacSched) : res MacSched :=
  match s.(m_ueMap) !! ue_key rnti with
  | Some ue => Ok (s <| m_ueMap ::= put_ue rnti (ue <| m_beamId := beam |>) |>)
  | None =>
      let m := put_ue rnti (new_ue conf rnti beam) s.(m_ueMap) in
      let '(srs, srsState) := AddUe s.(m_schedulerSrs) in
      match srs with
      | Some v => Ok (s <| m_ueMap := alter (set_srs v) (ue_key rnti) m |> <| m_schedulerSrs := srsState |>)
      | None =>
          let* r := IncreasePeriodicity (hashed (map_to_list m)).*1 srsState in
          match r.1 with
          | None => Abort "NS_ASSERT(ret)"
          | Some vs => Ok (s <| m_ueMap := foldl (fun m kv => alter (set_srs kv.2) kv.1 m) m vs |> <| m_schedulerSrs := r.2 |>)
          end
      end
  end.

(** NrMacSchedulerNs3::DoCschedUeReleaseReq *)
Definition DoCschedUeReleaseReq (rnti : Z) (s : MacSched) : res MacSched :=
  let* ue := find_ue rnti s.(m_ueMap) in
  Ok (s <| m_schedulerSrs ::= RemoveUe ue.(m_srsOffset) |> <| m_ueMap ::= delete (ue_key rnti) |>).

(** struct LogicalChannelConfigListElement_s, without the bearer *)
Inductive Direction := DIR_UL | DIR_DL | DIR_BOTH | NotValid.
Record LcConfig := mkLcConfig { m_logicalChannelIdentity : Z; m_logicalChannelGroup : Z; m_direction : Direction }.

(** The group of a channel, created when it is new *)
Definition get_lcg (g : Z) (m : gmap Z NrMacSchedulerLCG) : NrMacSchedulerLCG := default ∅ (m !! g).

(** In the uplink a channel is created only if it is the first of its group. *)
Definition config_dl (c : LcConfig) (m : gmap Z NrMacSchedulerLCG) : res (gmap Z NrMacSchedulerLCG) :=
  let* lcg := LcgInsert (CreateLC c.(m_logicalChannelIdentity)) (get_lcg c.(m_logicalChannelGroup) m) in
  Ok (<[c.(m_logicalChannelGroup) := lcg]> m).
Definition config_ul (c : LcConfig) (m : gmap Z NrMacSchedulerLCG) : res (gmap Z NrMacSchedulerLCG) :=
  let lcg := get_lcg c.(m_logicalChannelGroup) m in
  let* lcg := if NumOfLC lcg =? 0 then LcgInsert (CreateLC c.(m_logicalChannelIdentity)) lcg else Ok lcg in
  Ok (<[c.(m_logicalChannelGroup) := lcg]> m).

Definition config_lc (c : LcConfig) (ue : SchedUe) : res SchedUe :=
  let* dl := match c.(m_direction) with DIR_DL | DIR_BOTH => config_dl c ue.(m_dlLCG) | _ => Ok ue.(m_dlLCG) end in
  let* ul := match c.(m_direction) with DIR_UL | DIR_BOTH => config_ul c ue.(m_ulLCG) | _ => Ok ue.(m_ulLCG) end in
  Ok (ue <| m_dlLCG := dl |> <| m_ulLCG := ul |>).

(** NrMacSchedulerNs3::DoCschedLcConfigReq *)
Definition DoCschedLcConfigReq (rnti : Z) (channels : list LcConfig) (s : MacSched) : res MacSched :=
  let* ue := find_ue rnti s.(m_ueMap) in
  let* ue := res_fold config_lc channels ue in
  Ok (s <| m_ueMap ::= put_ue rnti ue |>).

(** NrMacSchedulerUeInfo::ReleaseLC: the channel goes, and the groups that are empty. *)
Definition release_lcg (lcid : Z) (m : gmap Z NrMacSchedulerLCG) : gmap Z NrMacSchedulerLCG :=
  filter (fun g => g.2 <> ∅) (LcgReleaseLC lcid <$> m).
Definition ReleaseLC (lcid : Z) (ue : SchedUe) : SchedUe :=
  ue <| m_dlLCG ::= release_lcg lcid |> <| m_ulLCG ::= release_lcg lcid |>.

(** NrMacSchedulerNs3::DoCschedLcReleaseReq *)
Definition DoCschedLcReleaseReq (rnti : Z) (lcIds : list Z) (s : MacSched) : res MacSched :=
  res_fold (fun lcId s =>
      let* ue := find_ue rnti s.(m_ueMap) in
      Ok (s <| m_ueMap ::= put_ue rnti (ReleaseLC lcId ue) |>)) lcIds s.

(** ** Reports *)

(** NrMacSchedulerNs3::DoSchedDlRlcBufferReq: the first group with the channel is updated. *)
Definition DoSchedDlRlcBufferReq `{CppHash} (params : RlcBufferReq) (s : MacSched) : res MacSched :=
  let* ue := find_ue params.(req_rnti) s.(m_ueMap) in
  match filter (fun g => Contains params.(req_lcId) g.2 = true) (hashed (map_to_list ue.(m_dlLCG))) with
  | [] => Ok s
  | (g, lcg) :: _ =>
      let* lcg := LcgUpdateInfo params lcg in
      Ok (s <| m_ueMap ::= put_ue params.(req_rnti) (ue <| m_dlLCG ::= <[g := lcg]> |>) |>)
  end.

(** struct MacCeElement *)
Inductive MacCeType := BSR | PHR | CRNTI.
Record MacCeElement := mkCe { ce_rnti : Z; m_macCeType : MacCeType; m_bufferStatus : list Z }.

(** NrMacSchedulerNs3::BSRReceivedFromUe *)
Definition BSRReceivedFromUe (bsr : MacCeElement) (s : MacSched) : res MacSched :=
  let* ue := find_ue bsr.(ce_rnti) s.(m_ueMap) in
  let* lcgs := res_fold (fun lcg m =>
      let* bsrId := vec_at bsr.(m_bufferStatus) lcg in
      let bufSize := FromLevelToBytes bsrId in
      match m !! lcg with
      | None => Ok m
      | Some g => let* g := LcgUpdateQueue bufSize g in Ok (<[lcg := g]> m)
      end) (seqZ 0 4) ue.(m_ulLCG) in
  Ok (s <| m_ueMap ::= put_ue bsr.(ce_rnti) (ue <| m_ulLCG := lcgs |>) |>).

(** NrMacSchedulerNs3::DoSchedUlMacCtrlInfoReq *)
Definition DoSchedUlMacCtrlInfoReq (elements : list MacCeElement) (s : MacSched) : res MacSched :=
  res_fold (fun element s =>
      match element.(m_macCeType) with BSR => BSRReceivedFromUe element s | _ => Ok s end) elements s.

(** NrMacSchedulerNs3::DoSchedUlSrInfoReq *)
Definition DoSchedUlSrInfoReq (srList : list Z) (s : MacSched) : res MacSched :=
  let srs := foldl (fun l ue => if bool_decide (ue ∈ l) then l else l ++ [ue]) s.(m_srList) srList in
  let* _ := abort_if (length srs <? length srList)%nat "NS_ASSERT(m_srList.size() >= params.m_srList.size())" in
  Ok (s <| m_srList := srs |>).

(** NrMacSchedulerNs3::DoSchedDlRachInfoReq *)
Definition DoSchedDlRachInfoReq (rachList : list RachReq) (s : MacSched) : MacSched := s <| m_rachList := rachList |>.

(** NrMacSchedulerOfdmaUlTarget::SetUlTargets *)
Definition SetUlTargets (targets : gmap Z Z) (s : MacSched) : MacSched := s <| m_ulTargets := targets |>.

(** ** HARQ feedback *)

(** GetDlHarqVector and GetUlHarqVector *)
Definition harq_of (direction : Mode) (ue : SchedUe) : NrMacHarqVector :=
  match direction with DL => ue.(m_dlHarq) | UL => ue.(m_ulHarq) end.
Definition set_harq (direction : Mode) (v : NrMacHarqVector) (ue : SchedUe) : SchedUe :=
  match direction with DL => ue <| m_dlHarq := v |> | UL => ue <| m_ulHarq := v |> end.

(** NrMacSchedulerNs3::ProcessHARQFeedbacks; maxHarqReTx is 3 or 0. *)
Definition maxHarqReTx (conf : SchedConf) : Z := if conf.(m_enableHarqReTx) then 3 else 0.

Fixpoint ProcessHARQFeedbacks (conf : SchedConf) (direction : Mode) (harqInfo : list HarqInfo)
    (m : gmap nat SchedUe) : res (list HarqInfo * gmap nat SchedUe) :=
  match harqInfo with
  | [] => Ok ([], m)
  | fb :: harqInfo =>
      let* ue := find_ue fb.(fb_rnti) m in
      let v := harq_of direction ue in
      let* p := harq_get fb.(fb_process) v in
      let* _ := abort_if (negb p.(hp_active)) "Received feedback for a process which is not active" in
      match p.(m_dciElement) with
      | None => Abort "NS_ABORT_IF(ueProcess.m_dciElement == nullptr)"
      | Some dci =>
          let* _ := abort_if (4 <=? m_rv dci) "NS_ASSERT(ueProcess.m_dciElement->m_rv < 4)" in
          if fb.(IsReceivedOk) || (m_rv dci =? maxHarqReTx conf) then
            let* v := HarqErase fb.(fb_process) v in
            ProcessHARQFeedbacks conf direction harqInfo (put_ue fb.(fb_rnti) (set_harq direction v ue) m)
          else
            let v := harq_set fb.(fb_process) (p <| hp_status := RECEIVED_FEEDBACK |>) v in
            let* r := ProcessHARQFeedbacks conf direction harqInfo (put_ue fb.(fb_rnti) (set_harq direction v ue) m) in
            Ok (fb :: r.1, r.2)
      end
  end.

(** The feedback for processes that have expired is dropped; in the downlink duplicates are too. *)
Fixpoint live_feedback (direction : Mode) (seen : list (Z * Z)) (l : list HarqInfo) (m : gmap nat SchedUe) :
    res (list HarqInfo) :=
  match l with
  | [] => Ok []
  | fb :: l =>
      let* ue := find_ue fb.(fb_rnti) m in
      let* p := harq_get fb.(fb_process) (harq_of direction ue) in
      let key := (fb.(fb_rnti), fb.(fb_process)) in
      if negb p.(hp_active) then live_feedback direction seen l m
      else if bool_decide (direction = DL) && bool_decide (key ∈ seen) then live_feedback direction seen l m
      else
        let* l := live_feedback direction (key :: seen) l m in
        Ok (fb :: l)
  end.

(** The start of DoSchedDlTriggerReq and DoSchedUlTriggerReq after the CQIs: expired processes are
    reset, the feedback kept from the last slot is merged with the new one and processed. *)
Definition process_feedback `{CppHash} (conf : SchedConf) (direction : Mode) (kept received : list HarqInfo)
    (m : gmap nat SchedUe) : res (list HarqInfo * gmap nat SchedUe) :=
  let* m := each_ue (fun ue =>
      let* v := ResetExpiredHARQ conf.(GetNumHarqProcess) (harq_of direction ue) in
      Ok (set_harq direction v ue)) m in
  match kept ++ received with
  | [] => Ok ([], m)
  | merged =>
      let* l := live_feedback direction [] merged m in
      ProcessHARQFeedbacks conf direction l m
  end.
