(* ===== verification/Reshape.v ===== *)
(** The reshaping of retransmissions: ReshapeAllocation of src/nr/model/nr-mac-scheduler-ns3.cc, which is
    DoReshapeAllocation of src/nr/model/nr-mac-scheduler-tdma.cc.

    ScheduleDlHarq calls it when the attribute ConsolidateHarqRetx is set, with one DCI at a time.
    The vector of RBGs is kept reversed, since the loops take RBGs off its back.  Quotients of
    integers that are rounded up, and sums of MCSs, are exact in the doubles of the source, so the first
    are integers here.  The loop over RBGs and symbols need not end: it has fuel, and is [None] when that
    is not enough. *)
From Stdlib Require Import ZArith Lia SpecFloat Lists.List.
From stdpp Require Import base list gmap strings list_numbers.
From coqutil Require Import Datatypes.RecordSettersUsingExistingGetters.
From S2P Require Import Prelude OrdMap Messages UlScheduler UlFacts Amc AmcProps DlUe CqiManagement CqiProps Dci.
From S2P Require Import LogicalChannels Harq MacScheduler.
Open Scope Z_scope.

(** The constructor of DciInfoElementTdma for reshaped allocations *)
Definition reshaped_dci (symStart numSym : Z) (rbgBitmask : list bool) (o : Dci) : Dci :=
  o <| m_symStart := symStart |> <| m_numSym := numSym |> <| m_rbgBitmask := rbgBitmask |>.

(** std::count (bitmask, true) *)
Definition count_rbgs (bitmask : list bool) : Z := Z.of_nat (length (filter (fun x => x = true) bitmask)).

(** The RBGs that are available, as uint16_t *)
Definition available_rbgs (bitmask : list bool) : list Z := u16 <$> remaining_rbgs bitmask.

(** The MCS of the sub-band of an RBG *)
Definition sb_mcs_of (ue : UeInfoDl) (rbg : Z) : res Z :=
  let* sb := sb_of ue rbg in Ok sb.(sb_mcs).

(** computeMcs, which is only called with isDl: the average MCS of the RBGs *)
Definition computeMcs (ue : UeInfoDl) (rbgVector : list Z) : res double :=
  match rbgVector with
  | [] => Ok (d_of_Z ue.(m_dlMcs))
  | _ =>
      let* mcss := res_map (sb_mcs_of ue) rbgVector in
      Ok (d_div (d_of_Z (foldr Z.add 0 mcss)) (d_of_Z (Z.of_nat (length rbgVector))))
  end.

(** The loop that takes bad RBGs off the back, [rbgs] from the back *)
Fixpoint drop_bad (ue : UeInfoDl) (dciMcs numResources availableSymbols : Z) (prevMcs : double) (rbgs : list Z) : res (list Z) :=
  match rbgs with
  | [] => Ok []
  | currRbg :: rest =>
      if numResources <=? Z.of_nat (length rest) * availableSymbols then
        let* mcs := sb_mcs_of ue currRbg in
        if Z.min dciMcs ue.(m_dlMcs) <=? mcs then Ok rbgs else
        let* currMcs := computeMcs ue (reverse rest) in
        if d_leb currMcs prevMcs then Ok rbgs else drop_bad ue dciMcs numResources availableSymbols prevMcs rest
      else Ok rbgs
  end.

(** Step 4: the RBGs sorted by the MCS of their sub-bands, without the bad ones *)
Definition best_rbgs (ue : UeInfoDl) (dciMcs numResources availableSymbols : Z) (allocatedRbgs : list Z) : res (list Z) :=
  let* prevMcs := computeMcs ue allocatedRbgs in
  let mcs_of rbg := match sb_mcs_of ue rbg with Ok mcs => mcs | Abort _ => 0 end in
  drop_bad ue dciMcs numResources availableSymbols prevMcs (reverse (stable_sort (fun rbg => - mcs_of rbg) allocatedRbgs)).

(** uint8_t minSymbols = ceil (numResources / allocatedRbgs.size ()); a quotient that does not fit, or is
    not a number, is undefined. *)
Definition first_symbols (numResources n : Z) : res Z :=
  let* _ := abort_if (n =? 0) "conversion of inf or nan to uint8_t" in
  let minSymbols := (numResources + n - 1) / n in
  let* _ := abort_if (255 <? minSymbols) "conversion out of the range of uint8_t" in
  Ok minSymbols.

(** currResources *)
Definition resources (minSymbols : Z) (rbgs : list Z) : Z := u32 (minSymbols * Z.of_nat (length rbgs)).

(** while (numResources != currResources && !allocatedRbgs.empty ()) *)
Fixpoint match_resources (fuel : nat) (numResources minSymbols : Z) (rbgs : list Z) : option (Z * list Z) :=
  if (numResources =? resources minSymbols rbgs) || bool_decide (rbgs = []) then Some (minSymbols, rbgs) else
  match fuel with
  | O => None
  | S fuel =>
      if resources minSymbols rbgs <? numResources
      then match_resources fuel numResources (u8 (minSymbols + 1)) rbgs
      else match_resources fuel numResources minSymbols (tail rbgs)
  end.

(** allocatedBitmask *)
Definition mask_of (size : nat) (rbgs : list Z) : res (list bool) :=
  res_fold (fun rbg mask =>
      let* _ := abort_if (Z.of_nat (length mask) <=? rbg) "std::out_of_range" in
      Ok (<[Z.to_nat rbg := true]> mask)) rbgs (replicate size false).

(** The variables of DoReshapeAllocation *)
Record Reshape := mkReshape { startingSymbol : Z; numSymbols : Z; availableSymbols : Z; reshapedDcis : list Dci }.

Section reshape.
Context (fuel : nat) (bitmask : list bool) (isDl : bool) (ueMap : gmap nat SchedUe).

(** The end of the body of the loop over the DCIs: as many symbols and RBGs as the DCI had in all *)
Definition place_dci (dci : Dci) (s : Reshape) (allocatedRbgs : list Z) : res (option Reshape) :=
  let numResources := dci.(m_numSym) * count_rbgs dci.(m_rbgBitmask) in
  let* minSymbols := first_symbols numResources (Z.of_nat (length allocatedRbgs)) in
  match match_resources fuel numResources minSymbols allocatedRbgs with
  | None => Ok None
  | Some (minSymbols, allocatedRbgs) =>
      if (minSymbols <=? s.(availableSymbols)) && (resources minSymbols allocatedRbgs =? numResources) then
        let* allocatedBitmask := mask_of (length bitmask) (reverse allocatedRbgs) in
        Ok (Some (mkReshape (u8 (s.(startingSymbol) + minSymbols)) (u8 (s.(numSymbols) - minSymbols))
                    (u8 (s.(availableSymbols) - minSymbols))
                    (s.(reshapedDcis) ++ [reshaped_dci s.(startingSymbol) minSymbols allocatedBitmask dci])))
      else Ok (Some s)
  end.

(** The body of the loop over the DCIs *)
Definition reshape_one (dci : Dci) (s : Reshape) : res (option Reshape) :=
  let* ueInfo := find_ue dci.(dci_rnti) ueMap in
  let numResources := dci.(m_numSym) * count_rbgs dci.(m_rbgBitmask) in
  let allocatedRbgs := available_rbgs bitmask in
  let* allocatedRbgs :=
    if isDl && negb (bool_decide (ueInfo.(ue_dl).(m_rbgToSb) = []))
    then best_rbgs ueInfo.(ue_dl) dci.(dci_mcs) numResources s.(availableSymbols) allocatedRbgs
    else Ok (reverse allocatedRbgs) in
  place_dci dci s allocatedRbgs.

(** NrMacSchedulerTdma::DoReshapeAllocation *)
Definition DoReshapeAllocation (dcis : list Dci) (symStart numSym : Z) : res (option Reshape) :=
  res_fold (fun dci s => match s with Some s => reshape_one dci s | None => Ok None end) dcis
    (Some (mkReshape symStart numSym numSym [])).

(** NrMacSchedulerNs3::ReshapeAllocation *)
Definition ReshapeAllocation (dcis : list Dci) (symStart numSym : Z) : res (option Reshape) :=
  match dcis with
  | [] => Ok (Some (mkReshape symStart numSym numSym []))
  | _ => DoReshapeAllocation dcis symStart numSym
  end.
End reshape.

(** * Theorems *)

(** ** RBGs and bitmasks *)

Lemma filter_same {A} (P Q : A -> Prop) `{forall x, Decision (P x)} `{forall x, Decision (Q x)} (l : list A) :
  (forall x, x ∈ l -> P x <-> Q x) -> filter P l = filter Q l.
Proof.
  induction l as [|a l IH]; intros E; [done|]. rewrite !filter_cons, IH by (intros x Hx; apply E; by right).
  pose proof (E a ltac:(by left)). do 2 case_decide; naive_solver.
Qed.

Lemma remaining_length bitmask : Z.of_nat (length (remaining_rbgs bitmask)) = count_rbgs bitmask.
Proof.
  unfold remaining_rbgs, count_rbgs. rewrite length_fmap. f_equal. induction bitmask as [|b l IH] using rev_ind; [done|].
  rewrite length_app, seq_app, !filter_app, !length_app. cbn [seq length Nat.add]. f_equal.
  - rewrite <- IH. f_equal. apply filter_same. intros i Hi%elem_of_seq. by rewrite lookup_app_l by lia.
  - rewrite !filter_cons, lookup_app_r, Nat.sub_diag by lia. cbn. by destruct b.
Qed.

Lemma available_remaining bitmask : Z.of_nat (length bitmask) <= 2 ^ 16 -> available_rbgs bitmask = remaining_rbgs bitmask.
Proof.
  intros L. unfold available_rbgs. rewrite <- (list_fmap_id (remaining_rbgs bitmask)) at 2. apply list_fmap_ext.
  intros i r Hr%list_elem_of_lookup_2%remaining_elem. destruct Hr as [R Hr%lookup_lt_Some]. apply wrap_small. unfold fits. cbn. lia.
Qed.

Lemma mask_fold rbgs mask :
  Forall (fun r => 0 <= r < Z.of_nat (length mask)) rbgs ->
  exists m, res_fold (fun rbg mask =>
      let* _ := abort_if (Z.of_nat (length mask) <=? rbg) "std::out_of_range" in Ok (<[Z.to_nat rbg := true]> mask)) rbgs mask = Ok m /\
    length m = length mask /\ forall i, m !! i = Some true <-> mask !! i = Some true \/ Z.of_nat i ∈ rbgs.
Proof.
  revert mask. induction rbgs as [|r rbgs IH]; intros mask F; cbn [res_fold]; [exists mask; split_and!; [done|done|set_solver]|].
  apply Forall_cons in F as [Fr F]. rewrite (proj2 (Z.leb_gt _ _)) by lia. cbn [abort_if res_bind].
  destruct (IH (<[Z.to_nat r := true]> mask)) as (m & -> & L & M); [by rewrite length_insert|].
  exists m. split; [done|]. rewrite length_insert in L. split; [done|]. intros i. rewrite M, elem_of_cons, list_lookup_insert_Some.
  split; [intros [[(<- & _ & _)|[_ ?]]|?]; [right; left; lia|by left|right; by right]|].
  intros [Hi|[Hi|Hi]]; [|left; left; lia|by right].
  destruct (decide (Z.to_nat r = i)) as [<-|Ne]; [left; left; split; [done|split; [done|lia]]|by left; right].
Qed.

Lemma remaining_part_NoDup bitmask rbgs : rbgs ⊆+ remaining_rbgs bitmask -> NoDup rbgs.
Proof. intros [k P]%submseteq_Permutation. pose proof (remaining_NoDup bitmask) as N. rewrite P in N. by apply NoDup_app in N as [? _]. Qed.

(** The bitmask of some of the RBGs of another one *)
Lemma mask_of_ok bitmask rbgs :
  rbgs ⊆+ remaining_rbgs bitmask ->
  exists m, mask_of (length bitmask) rbgs = Ok m /\ length m = length bitmask /\
    count_rbgs m = Z.of_nat (length rbgs) /\ forall i, m !! i = Some true -> bitmask !! i = Some true.
Proof.
  intros S. destruct (mask_fold rbgs (replicate (length bitmask) false)) as (m & E & L & M).
  { rewrite Forall_forall. intros r Hr. eapply elem_of_submseteq, remaining_elem in Hr as [R Hr%lookup_lt_Some]; [|exact S]. rewrite length_replicate. lia. }
  rewrite length_replicate in L. exists m. split; [exact E|]. split; [done|].
  assert (forall i, m !! i = Some true <-> Z.of_nat i ∈ rbgs) as M'.
  { intros i. rewrite M. split; [intros [[? _]%lookup_replicate|?]; [done|done]|by right]. }
  split.
  - rewrite <- remaining_length. f_equal. apply Permutation_length, NoDup_Permutation; [apply remaining_NoDup|by eapply remaining_part_NoDup|].
    intros r. split.
    + intros [R Hr]%remaining_elem. apply M' in Hr. by rewrite Z2Nat.id in Hr.
    + intros Hr. pose proof (elem_of_submseteq _ _ _ Hr S) as [R _]%remaining_elem. rewrite <- (Z2Nat.id r) by lia.
      apply remaining_available, M'. by rewrite Z2Nat.id.
  - intros i Hi%M'. eapply elem_of_submseteq in Hi; [|exact S]. apply remaining_elem in Hi as [_ Hi]. by rewrite Nat2Z.id in Hi.
Qed.

(** ** The loop over RBGs and symbols *)

Lemma resources_exact m (rbgs : list Z) : 0 <= m <= 255 -> Z.of_nat (length rbgs) <= 2 ^ 16 -> resources m rbgs = m * Z.of_nat (length rbgs).
Proof. intros M L. apply wrap_small. unfold fits. nia. Qed.

(** If [m'] symbols of [n'] RBGs are what is asked for, the loop from fewer symbols and more RBGs ends at
    the latest there: below it the symbols cannot pass [m'], nor the RBGs [n']. *)
Lemma match_resources_ends num m' n' fuel m rbgs :
  num = m' * n' -> 0 <= m <= m' -> m' <= 255 -> 1 <= n' <= Z.of_nat (length rbgs) -> Z.of_nat (length rbgs) <= 2 ^ 16 ->
  m' - m + (Z.of_nat (length rbgs) - n') <= Z.of_nat fuel ->
  exists m1 rbgs1, match_resources fuel num m rbgs = Some (m1, rbgs1) /\ m <= m1 <= m' /\ (exists k, rbgs1 = drop k rbgs) /\ rbgs1 <> [] /\
    m1 * Z.of_nat (length rbgs1) = num.
Proof.
  intros Num. revert m rbgs. induction fuel as [|fuel IH]; intros m rbgs M M' N L F; cbn [match_resources];
    rewrite !(resources_exact m rbgs) by lia; (rewrite (bool_decide_false (rbgs = [])) by (intros ->; cbn in N; lia)); rewrite orb_false_r.
  - assert (m = m' /\ Z.of_nat (length rbgs) = n') as [-> E] by lia. rewrite E, (proj2 (Z.eqb_eq _ _)) by lia.
    exists m', rbgs. split_and!; [done|lia|lia|by exists 0%nat|intros ->; cbn in N; lia|by rewrite E].
  - destruct (Z.eqb_spec num (m * Z.of_nat (length rbgs))) as [E|E].
    { exists m, rbgs. split_and!; [done|lia|lia|by exists 0%nat|intros ->; cbn in N; lia|done]. }
    destruct (Z.ltb_spec (m * Z.of_nat (length rbgs)) num) as [Lt|Ge].
    + assert (m < m') by nia. rewrite (wrap_small 8) by (unfold fits; lia).
      destruct (IH (m + 1) rbgs) as (m1 & r1 & -> & ? & ? & ? & ?); [lia..|]. exists m1, r1. split_and!; [done|lia|lia|done..].
    + assert (n' < Z.of_nat (length rbgs)) by nia. destruct rbgs as [|r rbgs]; [cbn in N; lia|]. cbn [tail] in *. cbn [length] in *.
      destruct (IH m rbgs) as (m1 & r1 & -> & ? & [k ->] & ? & ?); [lia..|]. exists m1, (drop k rbgs). split_and!; [done|lia|lia|by exists (S k)|done..].
Qed.

(** Without such a product the loop never ends, because the symbols are a uint8_t. *)
Lemma match_resources_diverges num fuel m rbgs :
  0 <= num -> 0 <= m <= 255 -> rbgs <> [] -> Z.of_nat (length rbgs) <= 2 ^ 16 ->
  (forall m' n', 0 <= m' <= 255 -> 1 <= n' <= Z.of_nat (length rbgs) -> num <> m' * n') ->
  match_resources fuel num m rbgs = None.
Proof.
  intros Num. revert m rbgs. induction fuel as [|fuel IH]; intros m rbgs M Ne L No; cbn [match_resources];
    rewrite !resources_exact, (bool_decide_false _ Ne), orb_false_r by lia;
    (assert (1 <= Z.of_nat (length rbgs)) as L1 by (destruct rbgs; [done|cbn [length]; lia]));
    (rewrite (proj2 (Z.eqb_neq _ _)) by (apply No; lia)); [done|].
  destruct (Z.ltb_spec (m * Z.of_nat (length rbgs)) num) as [Lt|Ge].
  - apply IH; try done. pose proof (wrap_fits 8 (m + 1) ltac:(lia)). unfold fits in *. lia.
  - assert (256 <= num) as Big.
    { destruct (Z.le_gt_cases 256 num); [done|]. destruct (No num 1); lia. }
    destruct rbgs as [|r [|r' rbgs]]; [done|cbn in Ge; lia|]. cbn [tail]. apply IH; [done|done|cbn [length] in *; lia|].
    intros m' n' M' N'. apply No; [done|]. cbn [length] in *. lia.
Qed.

(** ** One DCI *)

(** The bitmask of a reshaped DCI takes RBGs of [bitmask], and as many symbols and RBGs as [o] had. *)
Definition reshapes (bitmask : list bool) (o d : Dci) : Prop :=
  (exists mask, d = reshaped_dci d.(m_symStart) d.(m_numSym) mask o) /\ length d.(m_rbgBitmask) = length bitmask /\
  (forall i, d.(m_rbgBitmask) !! i = Some true -> bitmask !! i = Some true) /\
  d.(m_numSym) * count_rbgs d.(m_rbgBitmask) = o.(m_numSym) * count_rbgs o.(m_rbgBitmask).

(** The reshaped DCIs of [dcis], those that have room, each from the symbol where the one before ends *)
Inductive side_by_side (bitmask : list bool) : Z -> list Dci -> list Dci -> Z -> Prop :=
  | side_nil cur : side_by_side bitmask cur [] [] cur
  | side_skip cur o os ds fin : side_by_side bitmask cur os ds fin -> side_by_side bitmask cur (o :: os) ds fin
  | side_place cur o os d ds fin :
      d.(m_symStart) = cur -> reshapes bitmask o d -> 0 <= d.(m_numSym) ->
      side_by_side bitmask (cur + d.(m_numSym)) os ds fin -> side_by_side bitmask cur (o :: os) (d :: ds) fin.

(** The symbols that are left end where they did. *)
Definition within (fin : Z) (s : Reshape) : Prop :=
  0 <= s.(startingSymbol) /\ 0 <= s.(numSymbols) /\ s.(availableSymbols) = s.(numSymbols) /\ s.(startingSymbol) + s.(numSymbols) = fin.

(** The state after [d] is placed *)
Definition place_on (d : Dci) (s : Reshape) : Reshape :=
  mkReshape (s.(startingSymbol) + d.(m_numSym)) (s.(numSymbols) - d.(m_numSym)) (s.(availableSymbols) - d.(m_numSym)) (s.(reshapedDcis) ++ [d]).

Section reshaping.
Context (fuel : nat) (bitmask : list bool) (isDl : bool) (ueMap : gmap nat SchedUe) (fin : Z).
Context (Size : Z.of_nat (length bitmask) <= 2 ^ 16) (Fin : fin <= 255) (Fuel : 255 + Z.of_nat (length bitmask) <= Z.of_nat fuel).

(** A DCI is placed in at most [m'] symbols, or they are not there. *)
Definition places (m' : Z) (o : Dci) (s s' : Reshape) : Prop :=
  (exists d, s' = place_on d s /\ d.(m_symStart) = s.(startingSymbol) /\ reshapes bitmask o d /\ 0 <= d.(m_numSym) <= m' /\ d.(m_numSym) <= s.(numSymbols)) \/
  (s' = s /\ s.(numSymbols) < m').

Lemma placed_within d s : within fin s -> 0 <= d.(m_numSym) <= s.(numSymbols) -> within fin (place_on d s).
Proof. unfold within. cbn. lia. Qed.

Lemma place_dci_ok dci s rbgs m' n' :
  within fin s -> rbgs ⊆+ remaining_rbgs bitmask -> dci.(m_numSym) * count_rbgs dci.(m_rbgBitmask) = m' * n' ->
  0 <= m' <= 255 -> 1 <= n' <= Z.of_nat (length rbgs) ->
  exists s', place_dci fuel bitmask dci s rbgs = Ok (Some s') /\ places m' dci s s'.
Proof.
  intros (W1 & W2 & W3 & W4) S Num M N. unfold place_dci. rewrite Num. cbv zeta.
  assert (Z.of_nat (length rbgs) <= Z.of_nat (length bitmask)) as Lr.
  { apply submseteq_length in S. pose proof (remaining_length bitmask) as E. unfold count_rbgs in E.
    pose proof (length_filter (fun x => x = true) bitmask). lia. }
  set (n := Z.of_nat (length rbgs)) in *. unfold first_symbols.
  rewrite (proj2 (Z.eqb_neq n 0)) by lia. cbn [abort_if res_bind].
  assert (0 <= (m' * n' + n - 1) / n <= m') as F0.
  { split; [apply Z.div_pos; nia|]. apply Z.lt_succ_r, Z.div_lt_upper_bound; nia. }
  rewrite (proj2 (Z.ltb_ge _ _)) by lia. cbn [abort_if res_bind].
  destruct (match_resources_ends (m' * n') m' n' fuel ((m' * n' + n - 1) / n) rbgs) as (m1 & r1 & -> & M1 & [k ->] & Ne & E); [lia..|].
  assert (Z.of_nat (length (drop k rbgs)) <= Z.of_nat (length bitmask)) as Ld by (rewrite length_drop; lia).
  rewrite resources_exact, E, Z.eqb_refl, andb_true_r by lia. rewrite W3.
  destruct (Z.leb_spec m1 s.(numSymbols)) as [Le|Gt]; [|exists s; split; [done|]; right; split; [done|lia]].
  destruct (mask_of_ok bitmask (reverse (drop k rbgs))) as (mask & -> & L & C & Sub).
  { rewrite reverse_Permutation. etrans; [|exact S]. apply sublist_submseteq, sublist_drop. }
  cbn [res_bind]. rewrite !(wrap_small 8) by (unfold fits; lia). set (d := reshaped_dci _ _ _ _).
  assert (m_numSym d = m1 /\ m_symStart d = startingSymbol s /\ m_rbgBitmask d = mask) as (D1 & D2 & D3) by done.
  exists (place_on d s). split; [unfold place_on; by rewrite D1, W3|]. left. exists d. unfold reshapes. rewrite D1, D2, D3.
  split_and!; try done; [by exists mask|rewrite C, length_reverse, Num; lia|lia..].
Qed.

(** ** The best RBGs *)

Section best.
Context (ue : UeInfoDl).
Abbreviation known := (fun r => exists mcs, sb_mcs_of ue r = Ok mcs).

Lemma computeMcs_ok rbgs : Forall known rbgs -> exists mcs, computeMcs ue rbgs = Ok mcs.
Proof.
  intros F. destruct rbgs as [|r rbgs]; [by eexists|].
  destruct (res_map_ok (sb_mcs_of ue) (fun _ => True) (r :: rbgs)) as (mcss & E & _).
  { intros a Ha. rewrite Forall_forall in F. destruct (F a Ha) as [mcs Em]. by exists mcs. }
  unfold computeMcs. rewrite E. by eexists.
Qed.

Lemma drop_bad_ok dciMcs num avail prev rbgs :
  Forall known rbgs -> exists k, drop_bad ue dciMcs num avail prev rbgs = Ok (drop k rbgs) /\ (0 < num -> rbgs <> [] -> drop k rbgs <> []).
Proof.
  induction 1 as [|r rbgs [mcs E] F IH]; cbn [drop_bad]; [by exists 0%nat|].
  destruct (Z.leb_spec num (Z.of_nat (length rbgs) * avail)) as [Le|Gt]; [|by exists 0%nat].
  rewrite E. cbn [res_bind]. destruct (_ <=? mcs); [by exists 0%nat|].
  destruct (computeMcs_ok (reverse rbgs)) as [curr ->]; [by apply Forall_reverse|]. cbn [res_bind].
  destruct (d_leb curr prev); [by exists 0%nat|]. destruct IH as (k & -> & Ne). exists (S k). split; [done|].
  intros Pos _. apply Ne; [done|]. intros ->. cbn in Le. lia.
Qed.

Lemma best_rbgs_ok dciMcs num avail rbgs :
  Forall known rbgs -> exists l, best_rbgs ue dciMcs num avail rbgs = Ok l /\ l ⊆+ rbgs /\ (0 < num -> rbgs <> [] -> l <> []).
Proof.
  intros F. unfold best_rbgs. destruct (computeMcs_ok rbgs F) as [prev ->]. cbn [res_bind]. set (sorted := stable_sort _ _).
  assert (reverse sorted ≡ₚ rbgs) as P by (rewrite reverse_Permutation; apply stable_sort_perm).
  destruct (drop_bad_ok dciMcs num avail prev (reverse sorted)) as (k & -> & Ne); [by rewrite P|].
  exists (drop k (reverse sorted)). split; [done|]. split.
  - rewrite <- P. apply sublist_submseteq, sublist_drop.
  - intros Pos Nr. apply Ne; [done|]. intros E. rewrite E in P. by apply Permutation_nil_l in P.
Qed.
End best.

(** ** All of them *)

(** The symbols of some DCIs *)
Definition symbols_of (bound : Dci -> Z) (dcis : list Dci) : Z := foldr (fun o n => bound o + n) 0 dcis.

Lemma reshape_fold (bound : Dci -> Z) dcis s :
  Forall (fun o => 0 <= bound o /\ forall s, within fin s -> exists s', reshape_one fuel bitmask isDl ueMap o s = Ok (Some s') /\ places (bound o) o s s') dcis ->
  within fin s ->
  exists s' out, res_fold (fun dci s => match s with Some s => reshape_one fuel bitmask isDl ueMap dci s | None => Ok None end) dcis (Some s) = Ok (Some s') /\
    s'.(reshapedDcis) = s.(reshapedDcis) ++ out /\ side_by_side bitmask s.(startingSymbol) dcis out s'.(startingSymbol) /\ within fin s' /\
    (symbols_of bound dcis <= s.(numSymbols) -> Forall2 (fun o d => d.(m_numSym) <= bound o) dcis out).
Proof.
  intros F. revert s. induction F as [|o os [B P] F IH]; intros s W; cbn [res_fold].
  { exists s, []. rewrite app_nil_r. split_and!; try done; constructor. }
  destruct (P s W) as (s1 & -> & [(d & -> & D1 & D2 & D3 & D4)|[-> Lt]]); cbn [res_bind].
  - destruct (IH (place_on d s)) as (s' & out & -> & Eo & Sd & W' & Fit); [apply placed_within; [done|lia]|].
    exists s', (d :: out). cbn [place_on reshapedDcis startingSymbol numSymbols] in *. rewrite <- app_assoc in Eo. split_and!; [done|done| |done|].
    + apply side_place; [done|done|lia|done].
    + cbn [symbols_of foldr]. fold (symbols_of bound os). intros Le. constructor; [lia|]. apply Fit. lia.
  - destruct (IH s W) as (s' & out & -> & Eo & Sd & W' & Fit). exists s', out. split_and!; try done; [by apply side_skip|].
    cbn [symbols_of foldr]. fold (symbols_of bound os).
    assert (0 <= symbols_of bound os) by (clear - F; induction F as [|? ? [? _]]; cbn; [done|unfold symbols_of in *; lia]). lia.
Qed.

(** Any RBG is as good as another. *)
Definition wideband (o : Dci) : Prop :=
  exists ue, ueMap !! ue_key o.(dci_rnti) = Some ue /\ (isDl = false \/ ue.(ue_dl).(m_rbgToSb) = []).

(** Every available RBG has a sub-band with an MCS. *)
Definition sub_banded (o : Dci) : Prop :=
  exists ue, ueMap !! ue_key o.(dci_rnti) = Some ue /\ Forall (fun r => exists mcs, sb_mcs_of ue.(ue_dl) r = Ok mcs) (remaining_rbgs bitmask).

Lemma wideband_places o s :
  wideband o -> within fin s -> 0 <= o.(m_numSym) <= 255 -> 1 <= count_rbgs o.(m_rbgBitmask) <= count_rbgs bitmask ->
  exists s', reshape_one fuel bitmask isDl ueMap o s = Ok (Some s') /\ places (m_numSym o) o s s'.
Proof.
  intros (ue & E & Wb) W M C. unfold reshape_one, find_ue. rewrite E. cbn [res_bind].
  assert (isDl && negb (bool_decide (m_rbgToSb (ue_dl ue) = [])) = false) as ->.
  { destruct Wb as [->|Wb]; [done|]. rewrite (bool_decide_true _ Wb). apply andb_false_r. }
  cbn [res_bind]. rewrite available_remaining by done. apply (place_dci_ok o s _ (m_numSym o) (count_rbgs (m_rbgBitmask o))); try done.
  - by rewrite reverse_Permutation.
  - rewrite length_reverse, remaining_length. lia.
Qed.

Lemma small_places o s :
  wideband o \/ sub_banded o -> within fin s -> 1 <= o.(m_numSym) * count_rbgs o.(m_rbgBitmask) <= 255 -> existsb id bitmask = true ->
  exists s', reshape_one fuel bitmask isDl ueMap o s = Ok (Some s') /\ places (m_numSym o * count_rbgs (m_rbgBitmask o)) o s s'.
Proof.
  intros Known W C B%remaining_nonempty. unfold reshape_one, find_ue. set (num := m_numSym o * _) in *.
  assert (exists ue l, ueMap !! ue_key (dci_rnti o) = Some ue /\ l ⊆+ remaining_rbgs bitmask /\ l <> [] /\
    (if isDl && negb (bool_decide (m_rbgToSb (ue_dl ue) = [])) then best_rbgs (ue_dl ue) (dci_mcs o) num (availableSymbols s) (available_rbgs bitmask)
     else Ok (reverse (available_rbgs bitmask))) = Ok l) as (ue & l & -> & S & Ne & El).
  { rewrite available_remaining by done.
    assert (reverse (remaining_rbgs bitmask) ⊆+ remaining_rbgs bitmask /\ reverse (remaining_rbgs bitmask) <> []) as [S Ne].
    { split; [by rewrite reverse_Permutation|]. intros E%(f_equal reverse). by rewrite reverse_involutive in E. }
    destruct Known as [(ue & E & Wb)|(ue & E & F)]; exists ue.
    - exists (reverse (remaining_rbgs bitmask)). split_and!; try done.
      destruct Wb as [->|Wb]; [done|]. by rewrite (bool_decide_true _ Wb), andb_false_r.
    - destruct (isDl && _); [|by exists (reverse (remaining_rbgs bitmask))].
      destruct (best_rbgs_ok (ue_dl ue) (dci_mcs o) num (availableSymbols s) _ F) as (l & -> & Sl & Nl). exists l.
      split_and!; try done. apply Nl; [lia|done]. }
  cbn [res_bind]. rewrite El. cbn [res_bind]. apply (place_dci_ok o s l num 1); [done|done|unfold num; lia|lia|].
  destruct l; [done|]. cbn [length]. lia.
Qed.
End reshaping.

(** A UE with sub-bands, when what its best RBGs are asked for is not to be had *)
Lemma reshape_one_diverges fuel bitmask ueMap ue dci s num rbgs m0 :
  ueMap !! ue_key dci.(dci_rnti) = Some ue -> ue.(ue_dl).(m_rbgToSb) <> [] -> dci.(m_numSym) * count_rbgs dci.(m_rbgBitmask) = num ->
  best_rbgs ue.(ue_dl) dci.(dci_mcs) num s.(availableSymbols) (available_rbgs bitmask) = Ok rbgs ->
  first_symbols num (Z.of_nat (length rbgs)) = Ok m0 -> match_resources fuel num m0 rbgs = None ->
  reshape_one fuel bitmask true ueMap dci s = Ok None.
Proof.
  intros E Ne Num B F D. unfold reshape_one, find_ue, place_dci. rewrite E, Num. cbn [res_bind].
  rewrite bool_decide_false by done. cbn [negb andb]. rewrite B. cbn [res_bind]. rewrite F. cbn [res_bind]. by rewrite D.
Qed.

(** ** DoReshapeAllocation *)

Section run.
Context (fuel : nat) (bitmask : list bool) (isDl : bool) (ueMap : gmap nat SchedUe) (dcis : list Dci) (symStart numSym : Z).

(** What every call needs: symbols of a slot, and enough fuel *)
Record reshape_call : Prop := {
  rc_size : Z.of_nat (length bitmask) <= 2 ^ 16;
  rc_fuel : 255 + Z.of_nat (length bitmask) <= Z.of_nat fuel;
  rc_syms : 0 <= symStart /\ 0 <= numSym /\ symStart + numSym <= 255
}.

(** The retransmissions that are placed stand side by side from the first symbol on, each with RBGs of the mask and with
    as many resources as before. *)
Definition reshaped (r : Reshape) : Prop :=
  side_by_side bitmask symStart dcis r.(reshapedDcis) r.(startingSymbol) /\
  0 <= r.(numSymbols) /\ r.(startingSymbol) + r.(numSymbols) = symStart + numSym.

Lemma reshape_run (bound : Dci -> Z) :
  reshape_call ->
  Forall (fun o => 0 <= bound o /\ forall s, within (symStart + numSym) s ->
    exists s', reshape_one fuel bitmask isDl ueMap o s = Ok (Some s') /\ places bitmask (bound o) o s s') dcis ->
  exists r, DoReshapeAllocation fuel bitmask isDl ueMap dcis symStart numSym = Ok (Some r) /\ reshaped r /\
    (symbols_of bound dcis <= numSym -> Forall2 (fun o d => d.(m_numSym) <= bound o) dcis r.(reshapedDcis)).
Proof.
  intros [Size Fuel (S1 & S2 & S3)] F.
  destruct (reshape_fold fuel bitmask isDl ueMap (symStart + numSym) bound dcis (mkReshape symStart numSym numSym []) F)
    as (r & out & E & Eo & Sd & (W1 & W2 & W3 & W4) & Fit); [by unfold within|].
  exists r. cbn [reshapedDcis startingSymbol numSymbols app] in *. subst out. by unfold reshaped.
Qed.
End run.

(** C24: Retransmissions of UEs without sub-bands are all placed when none of them has more RBGs than are
    available and their symbols together are at most those available: the loop ends, each keeps its number of RBGs times
    symbols and takes at most as many symbols as before. *)
Theorem retransmissions_reshaped fuel bitmask isDl ueMap dcis symStart numSym :
  reshape_call fuel bitmask symStart numSym ->
  Forall (fun o => wideband isDl ueMap o /\ 0 <= o.(m_numSym) <= 255 /\ 1 <= count_rbgs o.(m_rbgBitmask) <= count_rbgs bitmask) dcis ->
  symbols_of m_numSym dcis <= numSym ->
  exists r, DoReshapeAllocation fuel bitmask isDl ueMap dcis symStart numSym = Ok (Some r) /\
    reshaped bitmask dcis symStart numSym r /\ Forall2 (fun o d => d.(m_numSym) <= o.(m_numSym)) dcis r.(reshapedDcis).
Proof.
  intros Call F Le. pose proof Call as [Size Fuel (S1 & S2 & S3)].
  destruct (reshape_run fuel bitmask isDl ueMap dcis symStart numSym m_numSym Call) as (r & E & R & Fit); [|exists r; split; [done|split; [done|by apply Fit]]].
  eapply Forall_impl; [exact F|]. intros o (Wb & M & C). split; [lia|]. intros s W.
  by apply (wideband_places fuel bitmask isDl ueMap (symStart + numSym) Size S3 Fuel).
Qed.

(** With or without sub-bands the loop ends for retransmissions of at most 255 RBGs times symbols; those that are
    placed stand side by side, with as many of them as before. *)
Theorem small_retransmissions_end fuel bitmask isDl ueMap dcis symStart numSym :
  reshape_call fuel bitmask symStart numSym -> existsb id bitmask = true ->
  Forall (fun o => (wideband isDl ueMap o \/ sub_banded bitmask ueMap o) /\ 1 <= o.(m_numSym) * count_rbgs o.(m_rbgBitmask) <= 255) dcis ->
  exists r, DoReshapeAllocation fuel bitmask isDl ueMap dcis symStart numSym = Ok (Some r) /\ reshaped bitmask dcis symStart numSym r.
Proof.
  intros Call B F. pose proof Call as [Size Fuel (S1 & S2 & S3)].
  destruct (reshape_run fuel bitmask isDl ueMap dcis symStart numSym (fun o => m_numSym o * count_rbgs (m_rbgBitmask o)) Call)
    as (r & E & R & _); [|by exists r].
  eapply Forall_impl; [exact F|]. intros o (K & C). split; [lia|]. intros s W.
  by apply (small_places fuel bitmask isDl ueMap (symStart + numSym) Size S3 Fuel).
Qed.

(** After a report without sub-bands the mapping of the RBGs is the old one, but the sub-bands are gone: reshaping a
    retransmission of the UE reads past their end. *)
Theorem stale_sub_bands_abort `{LibM} info expiration maxMcs bw amc ue amc' u fuel bitmask ueMap dci dcis symStart numSym :
  DlCqiReported info expiration maxMcs bw (amc, ue) = Ok (amc', u.(ue_dl)) -> info.(info_sbCqis) = [] -> ue.(m_rbgToSb) <> [] ->
  existsb id bitmask = true -> ueMap !! ue_key dci.(dci_rnti) = Some u ->
  DoReshapeAllocation fuel bitmask true ueMap (dci :: dcis) symStart numSym = Abort "std::out_of_range".
Proof.
  intros E Sb Ne B%remaining_nonempty L. assert (m_dlSbMcsInfo u.(ue_dl) = [] /\ m_rbgToSb u.(ue_dl) = m_rbgToSb ue) as [E1 E2].
  { clear - E Sb. revert E. generalize (ue_dl u). intros v. unfold DlCqiReported. rewrite Sb. intros E.
    destruct (GetMcsFromCqi _ _) as [[a m]|]; [|done]. cbn [res_bind length] in E.
    destruct (info_optPrecMat info); inv_res; by destruct ue. }
  unfold DoReshapeAllocation. cbn [res_fold]. unfold reshape_one at 1, find_ue. rewrite L. cbn [res_bind].
  rewrite E2, bool_decide_false by done. cbn [negb andb]. unfold best_rbgs.
  assert (computeMcs (ue_dl u) (available_rbgs bitmask) = Abort "std::out_of_range") as ->; [|done].
  unfold available_rbgs. destruct (remaining_rbgs bitmask) as [|r rest]; [done|]. cbn [fmap list_fmap computeMcs res_map].
  unfold sb_mcs_of at 1, sb_of, vec_at. rewrite E1, E2. by destruct (m_rbgToSb ue !! Z.to_nat (u16 r)).
Qed.

(** ** A small cell *)

(** A cell of 273 RBGs; its UE has reported 18 sub-bands, of 16 RBGs each, the first three much better than the rest. *)
Definition all_rbgs : list bool := replicate 273 true.
Definition toy_sched (ue : UeInfoDl) : SchedUe :=
  mkSchedUe ue (mkUeUl 1 [] [] 0 0 1) OMNI_BEAM_ID ∅ ∅ empty_harq empty_harq 0 None (mkSchedCqi WB [] 0 [] 0) 0 0 0.
Definition sb_report : DlCqiInfo := mkDlCqi 7 ([15; 15; 15] ++ replicate 15 3) 1 None.
Definition dl_reported (r : res (Amc * UeInfoDl)) : UeInfoDl := match r with Ok (_, ue) => ue | Abort _ => toy_ue end.
Definition sb_ue : UeInfoDl := dl_reported (@DlCqiReported some_libm sb_report 40 28 273 (lte_amc toy_tbler, toy_ue)).

(** A DCI of [numSym] symbols and the first [n] RBGs *)
Definition toy_dci (numSym : Z) (n : nat) : Dci :=
  mkDci 1 DL 1 numSym 10 1 None 1000 1 0 DATA 0 0 (replicate n true ++ replicate (273 - n) false) 1.

Lemma toy_call : reshape_call 528 all_rbgs 1 12.
Proof. by repeat split. Qed.

(** Three retransmissions are reshaped, each as its symbols and RBGs allow. *)
Example toy_reshaped :
  (fun r => match r with Ok (Some s) => (fun d => (m_symStart d, m_numSym d, count_rbgs (m_rbgBitmask d))) <$> reshapedDcis s | _ => [] end)
    (DoReshapeAllocation 528 all_rbgs true {[ue_key 1 := toy_sched toy_ue]} [toy_dci 6 20; toy_dci 2 257; toy_dci 3 91] 1 12) =
  [(1, 1, 120); (2, 2, 257); (4, 1, 273)].
Proof. vm_compute. reflexivity. Qed.

Theorem retransmissions_reshaped_witness :
  exists r, DoReshapeAllocation 528 all_rbgs true {[ue_key 1 := toy_sched toy_ue]} [toy_dci 6 20; toy_dci 2 257; toy_dci 3 91] 1 12 = Ok (Some r) /\
    reshaped all_rbgs [toy_dci 6 20; toy_dci 2 257; toy_dci 3 91] 1 12 r /\
    Forall2 (fun o d => d.(m_numSym) <= o.(m_numSym)) [toy_dci 6 20; toy_dci 2 257; toy_dci 3 91] r.(reshapedDcis).
Proof.
  apply (retransmissions_reshaped 528 all_rbgs true {[ue_key 1 := toy_sched toy_ue]} _ 1 12 toy_call); [|vm_compute; done].
  repeat constructor; try (vm_compute; done); (exists (toy_sched toy_ue); split; [apply lookup_singleton_eq|by right]).
Defined.

(** The RBGs that are left when the bad ones are taken off *)
Lemma toy_best : exists rbgs, best_rbgs sb_ue 10 514 12 (available_rbgs all_rbgs) = Ok rbgs /\ length rbgs = 48%nat.
Proof. eexists. split; [vm_compute; reflexivity|reflexivity]. Qed.

Lemma no_product m n : 0 <= m <= 255 -> 1 <= n <= 48 -> 514 <> m * n.
Proof.
  intros M N E. assert (Forall (fun n => 514 mod n <> 0) (seqZ 3 46)) as F by (apply (bool_decide_unpack _); vm_compute; exact I).
  assert (3 <= n) by nia. rewrite Forall_forall in F. apply (F n); [apply elem_of_seqZ; lia|]. rewrite E. apply Z.mod_mul. lia.
Qed.

(** With 257 RBGs in 2 symbols to place, and the sub-bands leaving only the 48 best RBGs, the loop over RBGs and
    symbols never ends: 514 is no product of at most 48 RBGs and at most 255 symbols, and the count of
    symbols, a uint8_t, wraps around. *)
Theorem reshape_never_ends fuel :
  DoReshapeAllocation fuel all_rbgs true {[ue_key 1 := toy_sched sb_ue]} [toy_dci 2 257] 1 12 = Ok None.
Proof.
  destruct toy_best as (rbgs & El & L). unfold DoReshapeAllocation. cbn [res_fold].
  rewrite (reshape_one_diverges fuel all_rbgs _ (toy_sched sb_ue) (toy_dci 2 257) _ 514 rbgs 11); [done| | | |exact El| |].
  - apply lookup_singleton_eq.
  - vm_compute. discriminate.
  - vm_compute. reflexivity.
  - clear El. by rewrite L.
  - clear El. apply match_resources_diverges; [lia|lia|by intros ->|rewrite L; vm_compute; discriminate|]. rewrite L. apply no_product.
Qed.
