(* ===== verification/ResourceMatrix.v ===== *)
(** The check of a slot: src/nr/model/resource-assignment-matrix.cc.

    The scheduler runs it on every allocation it hands out when assertions are enabled.  The
    methods only the tests and the plots use are left out. *)
From Stdlib Require Import ZArith Lia.
From stdpp Require Import base list gmap strings list_numbers.
From coqutil Require Import Datatypes.RecordSettersUsingExistingGetters.
From S2P Require Import Prelude Amc Dci Harq MacScheduler.
Open Scope Z_scope.

Definition EMPTY_RESOURCE_RNTI : Z := 65535.

(** enum class ResourceType *)
Inductive ResourceType :=
| EMPTY | DL_DATA | UL_DATA | HARQ | SRS_RES | CSI_RS | PDSCH_DMRS | PUSCH_DMRS | PBSCH_DMRS | PTRS | TRS
| DL_DCI | UL_DCI | MSG3_RES.

(** struct ResourceMatrixEntry and struct SymbolResources; [sr_beamId] is None while
    m_beamIdAssigned is false. *)
Record ResourceMatrixEntry := mkEntry { allocatedUe : Z; allocatedResourceType : ResourceType }.
Record SymbolResources := mkSymbol { sr_beamId : option BeamId; sr_rbgs : list ResourceMatrixEntry }.

Record ResourceAssignmentMatrix := mkMatrix {
  m_notchingMask : list bool;
  m_symbolResources : list SymbolResources;
  m_ueNumberOfResources : gmap Z Z
}.

(** The constructor *)
Definition new_matrix (notchingMask : list bool) (numSymbols : Z) : ResourceAssignmentMatrix :=
  mkMatrix notchingMask
    (replicate (Z.to_nat numSymbols)
       (mkSymbol None (replicate (length notchingMask) (mkEntry EMPTY_RESOURCE_RNTI EMPTY)))) ∅.

(** m_symbolResources of a symbol, after the assertion on the size *)
Definition symbol_at (symbol : Z) (m : ResourceAssignmentMatrix) : res SymbolResources :=
  match m.(m_symbolResources) !! Z.to_nat symbol with
  | Some s => Ok s
  | None => Abort "Mismatch between the symbol allocated and size of resource assignment matrix"
  end.
Definition set_symbol (symbol : Z) (s : SymbolResources) (m : ResourceAssignmentMatrix) : ResourceAssignmentMatrix :=
  m <| m_symbolResources ::= <[Z.to_nat symbol := s]> |>.

(** AssignBeamIdToSymbols *)
Definition AssignBeamIdToSymbols (beamId : BeamId) (startingSymbol numSymbols : Z) (m : ResourceAssignmentMatrix) :
    res ResourceAssignmentMatrix :=
  res_fold (fun symbol m =>
      let* s := symbol_at symbol m in
      let* _ := abort_if (match s.(sr_beamId) with Some b => negb (bool_decide (b = beamId)) | None => false end)
                  "Assigning more than a beam per symbol" in
      Ok (set_symbol symbol (s <| sr_beamId := Some beamId |>) m))
    (seqZ startingSymbol numSymbols) m.

(** The types a notched RBG is refused for *)
Definition notch_checked (type : ResourceType) : bool :=
  match type with DL_DATA | UL_DATA | SRS_RES | MSG3_RES | HARQ => true | _ => false end.

(** AssignOfdmaRbgDuringSymbolToUe *)
Definition AssignOfdmaRbgDuringSymbolToUe (type : ResourceType) (rnti rbg startingSymbol numSymbols : Z)
    (m : ResourceAssignmentMatrix) : res ResourceAssignmentMatrix :=
  res_fold (fun symbol m =>
      let* s := symbol_at symbol m in
      match m.(m_notchingMask) !! Z.to_nat rbg with
      | None => Abort "RBG is bigger than notching mask"
      | Some bit =>
          let* _ := abort_if (notch_checked type && negb bit) "Trying to assign a notched RBG" in
          match s.(sr_rbgs) !! Z.to_nat rbg with
          | None => Abort "std::out_of_range"
          | Some e =>
              let* _ := abort_if (negb (e.(allocatedUe) =? EMPTY_RESOURCE_RNTI))
                          "Allocating the same resource for two different UEs" in
              let m := set_symbol symbol (s <| sr_rbgs ::= <[Z.to_nat rbg := mkEntry rnti type]> |>) m in
              Ok (m <| m_ueNumberOfResources ::= fun n => <[rnti := u32 (default 0 (n !! rnti) + 1)]> n |>)
          end
      end)
    (seqZ startingSymbol numSymbols) m.

(** The type of an allocation in the matrix *)
Definition resource_type (d : Dci) : ResourceType :=
  match d.(dci_type), d.(dci_format) with
  | CTRL, DL => DL_DCI
  | CTRL, UL => UL_DCI
  | SRS, _ => SRS_RES
  | MSG3, _ => MSG3_RES
  | DATA, f => if 0 <? m_rv d then HARQ else match f with DL => DL_DATA | UL => UL_DATA end
  end.

(** The beam of an allocation *)
Definition alloc_beam (ueMap : gmap nat SchedUe) (alloc : VarTti) : BeamId :=
  match ueMap !! ue_key alloc.(m_dci).(dci_rnti) with
  | Some ue => if alloc.(m_isOmni) then OMNI_BEAM_ID else ue.(m_beamId)
  | None => OMNI_BEAM_ID
  end.

(** One allocation of CheckResourceMatrixFromVarTtiAllocInfo *)
Definition check_alloc (ueMap : gmap nat SchedUe) (alloc : VarTti) (m : ResourceAssignmentMatrix) :
    res ResourceAssignmentMatrix :=
  let d := alloc.(m_dci) in
  let* m := AssignBeamIdToSymbols (alloc_beam ueMap alloc) (m_symStart d) (m_numSym d) m in
  res_fold (fun rbg m =>
      if bool_decide (m_rbgBitmask d !! rbg = Some true)
      then AssignOfdmaRbgDuringSymbolToUe (resource_type d) (dci_rnti d) (Z.of_nat rbg) (m_symStart d) (m_numSym d) m
      else Ok m)
    (seq 0 (length (m_rbgBitmask d))) m.

(** CheckResourceMatrixFromVarTtiAllocInfo *)
Definition CheckResourceMatrix (allocInfo : list VarTti) (ueMap : gmap nat SchedUe) (notchingMask : list bool)
    (numSym : Z) : res unit :=
  let* _ := res_fold (check_alloc ueMap) allocInfo (new_matrix notchingMask numSym) in
  Ok tt.
