(* ===== verification/UlSlot.v ===== *)
(** The uplink slot: DoSchedUlTriggerReq of src/nr/model/nr-mac-scheduler-ns3.cc and what it
    calls, over the uplink scheduler with targets, with ScheduleUlHarq of
    nr-mac-scheduler-harq-rr.cc.

    A slot is filled from its last symbol backwards: control, SRS, message 3 of the random
    access, retransmissions, data. *)
From Stdlib Require Import ZArith Lia.
From stdpp Require Import base list gmap strings list_numbers.
From coqutil Require Import Datatypes.RecordSettersUsingExistingGetters.
From S2P Require Import Prelude OrdMap Messages UlScheduler Amc DlUe CqiManagement Dci.
From S2P Require Import LogicalChannels Harq Srs SfnSf MacScheduler ResourceMatrix.
Open Scope Z_scope.

(** LteNrTddSlotType *)
Inductive SlotType := SlotDL | SlotUL | SlotS | SlotF.
#[export] Instance SlotType_eq_dec : EqDecision SlotType.
Proof. solve_decision. Defined.

(** ActiveUeMap: the UEs of each beam with their buffers, in the order of the iteration *)
Abbreviation ActiveUes := (list (BeamId * list (nat * Z))).

(** NrMacSchedulerOfdmaSymbolPerBeam, with its round-robin queue *)
Class SymbolPolicy : Type := {
  policy_symbols : Z -> ActiveUes -> list BeamId -> res (list (BeamId * Z) * list BeamId)
}.

Definition rr_policy : SymbolPolicy := {|
  policy_symbols symAvail active m_rrBeams :=
    let '(q, ret) := GetSymPerBeamRR symAvail active m_rrBeams in Ok (ret, q) |}.
Definition lb_policy : SymbolPolicy := {|
  policy_symbols symAvail active m_rrBeams :=
    let* ret := GetSymPerBeamLB symAvail active in Ok (ret, m_rrBeams) |}.

(** A new entry of the allocation *)
Definition slot_info (d : Dci) : VarTti := mkVarTti false d [].
Definition push_front (v : VarTti) (a : SlotAllocInfo) : SlotAllocInfo := a <| m_varTtiAllocInfo ::= cons v |>.
Definition add_symbols (n : Z) (a : SlotAllocInfo) : SlotAllocInfo := a <| m_numSymAlloc ::= fun k => u32 (k + n) |>.

(** The control DCI of a symbol *)
Definition ctrl_dci (conf : SchedConf) (mode : Mode) (sym : Z) : Dci :=
  mkDci 0 mode (u8 sym) 1 0 1 None 0 0 0 CTRL 0 0 (replicate conf.(GetBandwidthInRbg) true) 0.

(** NrMacSchedulerNs3::AppendCtrlSym *)
Definition AppendCtrlSym (conf : SchedConf) (symStart numSymToAllocate : Z) (mode : Mode) (allocations : list VarTti) :
    res (list VarTti) :=
  let* _ := abort_if (bool_decide (mode = DL) && negb (bool_decide (allocations = []) && (symStart =? 0))) "NS_ASSERT" in
  Ok (allocations ++ ((fun sym => slot_info (ctrl_dci conf mode sym)) <$> seqZ symStart numSymToAllocate)).

(** The place of the next allocation, the UEs, and what has been allocated *)
Record SlotState := mkSlot { sl_point : PointInFTPlane; sl_ues : gmap nat SchedUe; sl_alloc : SlotAllocInfo }.

(** spoint->m_sym -= n *)
Definition back (n : Z) (p : PointInFTPlane) : PointInFTPlane := mkPoint p.(spoint_rbg) (u8 (p.(spoint_sym) - n)).

(** An element joins the list of its beam. *)
Fixpoint active_add {A : Type} (b : BeamId) (e : A) (active : list (BeamId * list A)) : list (BeamId * list A) :=
  match active with
  | [] => [(b, [e])]
  | (b', v) :: active => if decide (b' = b) then (b', v ++ [e]) :: active else (b', v) :: active_add b e active
  end.

Section ul.
Context `{CppHash} `{NrAmc} `{SymbolPolicy}.
Context (conf : SchedConf).

(** ** SRS *)

(** The UE whose offset it is: the last one of the iteration, 0 when there is none *)
Definition srs_rnti (offset_UEx : Z) (m : gmap nat SchedUe) : Z :=
  foldl (fun rnti e => if e.2.(m_srsOffset) =? offset_UEx then e.2.(ue_ul).(m_rnti) else rnti) 0 (hashed (map_to_list m)).

Definition srs_dci (rnti sym : Z) : Dci :=
  mkDci rnti UL sym 1 0 1 None 0 1 0 SRS conf.(GetBwpId) 0 (GetUlBitmask conf) GetTpc.

(** The body of the loop of DoScheduleSrs: the symbols used and the slot *)
Definition srs_symbol (rnti : Z) (us : Z * SlotState) (_ : Z) : Z * SlotState :=
  let p := back 1 us.2.(sl_point) in
  (u8 (us.1 + 1),
   mkSlot p us.2.(sl_ues) (push_front (slot_info (srs_dci rnti p.(spoint_sym))) (add_symbols 1 us.2.(sl_alloc)))).

(** NrMacSchedulerNs3::DoScheduleSrs: the symbols it used *)
Definition DoScheduleSrs (m_srsSlotCounter : Z) (s : SlotState) : res (Z * SlotState) :=
  match hashed (map_to_list s.(sl_ues)) with
  | [] => Ok (0, s)
  | first :: _ =>
      let* _ := abort_if (first.2.(m_srsPeriodicity) =? 0) "division by zero" in
      let rnti := srs_rnti (m_srsSlotCounter mod first.2.(m_srsPeriodicity)) s.(sl_ues) in
      if rnti =? 0 then Ok (0, s) else
      Ok (foldl (srs_symbol rnti) (0, s) (seqZ 0 conf.(m_srsCtrlSymbols)))
  end.

(** ** Message 3 *)

(** The number of RBGs the uplink may use *)
Definition usableRbgs : Z := u16 (Z.of_nat (length (filter (fun b => b = true) (GetUlBitmask conf)))).

Definition msg3_bits (allocSymbols : Z) : Z :=
  u16 (UlScheduler.CalculateTbSize conf.(m_rachUlGrantMcs) 1 (u32 (usableRbgs * conf.(GetNumRbPerRbg) * allocSymbols)) * 8).

(** while ((tbSizeBits < m_estimatedSize) && (symAvail - allocSymbols > 0)) *)
Fixpoint msg3_loop (fuel : nat) (estimated symAvail allocSymbols tbSizeBits : Z) : Z * Z :=
  match fuel with
  | O => (allocSymbols, tbSizeBits)
  | S fuel =>
      if (tbSizeBits <? estimated) && (0 <? symAvail - allocSymbols)
      then msg3_loop fuel estimated symAvail (allocSymbols + 1) (msg3_bits (allocSymbols + 1))
      else (allocSymbols, tbSizeBits)
  end.

Definition msg3_dci (rnti sym numSym tbSizeBits : Z) : Dci :=
  mkDci rnti UL sym numSym conf.(m_rachUlGrantMcs) 1 None (tbSizeBits / 8) 1 0 MSG3 conf.(GetBwpId) 0 (GetUlBitmask conf) GetTpc.

(** NrMacSchedulerNs3::DoScheduleUlMsg3: the symbols that are left; it stops at the first request
    that does not fit. *)
Fixpoint DoScheduleUlMsg3 (rachList : list RachReq) (symAvail : Z) (s : SlotState) : Z * SlotState :=
  match rachList with
  | [] => (symAvail, s)
  | rachReq :: rachList =>
      let '(allocSymbols, tbSizeBits) := msg3_loop (Z.to_nat symAvail) rachReq.(m_estimatedSize) symAvail 0 0 in
      if tbSizeBits <? rachReq.(m_estimatedSize) then (symAvail, s) else
      let p := back allocSymbols s.(sl_point) in
      let d := msg3_dci rachReq.(rach_rnti) p.(spoint_sym) allocSymbols tbSizeBits in
      DoScheduleUlMsg3 rachList (symAvail - allocSymbols) (mkSlot p s.(sl_ues) (push_front (slot_info d) s.(sl_alloc)))
  end.

(** ** Retransmissions *)

(** NrMacSchedulerNs3::ComputeActiveHarq: the processes of each beam, as (RNTI, id) *)
Definition ComputeActiveHarq (ulHarqFeedback : list HarqInfo) (m : gmap nat SchedUe) :
    res (list (BeamId * list (Z * Z))) :=
  res_fold (fun fb activeUlHarq =>
      let* ue := find_ue fb.(fb_rnti) m in
      let* p := harq_get fb.(fb_process) ue.(m_ulHarq) in
      let* _ := abort_if (negb p.(hp_active)) "NS_ASSERT: m_active" in
      Ok (active_add ue.(m_beamId) (fb.(fb_rnti), fb.(fb_process)) activeUlHarq)) ulHarqFeedback [].

(** The DCI of a retransmission *)
Definition retx_dci (harqId symStart : Z) (d : Dci) : Dci :=
  mkDci (dci_rnti d) (dci_format d) symStart (m_numSym d) (dci_mcs d) (dci_rank d) (dci_precMats d) (m_tbSize d) 0
    (u8 (m_rv d + 1)) DATA (m_bwpIndex d) harqId (m_rbgBitmask d) (m_tpc d).

(** NrMacSchedulerHarqRr::ScheduleUlHarq: the symbols left, what could not be sent again, the slot *)
Fixpoint ScheduleUlHarq (ulHarqFeedback : list HarqInfo) (symAvail : Z) (toRetransmit : list HarqInfo) (s : SlotState) :
    res (Z * list HarqInfo * SlotState) :=
  match ulHarqFeedback with
  | [] => Ok (symAvail, toRetransmit, s)
  | fb :: ulHarqFeedback =>
      if symAvail <=? 0 then Ok (symAvail, toRetransmit, s) else
      let* _ := abort_if fb.(IsReceivedOk) "NS_ABORT_IF(harqInfo.IsReceivedOk())" in
      let* ue := find_ue fb.(fb_rnti) s.(sl_ues) in
      let* p := harq_get fb.(fb_process) ue.(m_ulHarq) in
      let* _ := abort_if (negb (bool_decide (p.(hp_status) = RECEIVED_FEEDBACK))) "NS_ASSERT: RECEIVED_FEEDBACK" in
      let p := p <| hp_status := WAITING_FEEDBACK |> <| hp_timer := 0 |> in
      match p.(m_dciElement) with
      | None => Abort "null DCI"
      | Some d =>
          let put p u := put_ue fb.(fb_rnti) (u <| m_ulHarq ::= harq_set fb.(fb_process) p |>) s.(sl_ues) in
          if m_numSym d <=? symAvail then
            let* _ := abort_if (negb (bool_decide (dci_format d = UL))) "NS_ASSERT: UL" in
            let pt := back (m_numSym d) s.(sl_point) in
            let d := retx_dci fb.(fb_process) pt.(spoint_sym) d in
            let ues := put (p <| m_dciElement := Some d |>)
                         (ue <| m_ulMRBRetx := u32 (m_numSym d * Z.of_nat conf.(GetBandwidthInRbg)) |>) in
            ScheduleUlHarq ulHarqFeedback (symAvail - m_numSym d) toRetransmit
              (mkSlot pt ues (push_front (slot_info d) (add_symbols (m_numSym d) s.(sl_alloc))))
          else
            ScheduleUlHarq ulHarqFeedback symAvail (toRetransmit ++ [fb]) (mkSlot s.(sl_point) (put p ue) s.(sl_alloc))
      end
  end.

(** ** Data *)

(** NrMacSchedulerNs3::DoScheduleUlSr: a UE that asked counts as having 12 bytes in each group. *)
Definition DoScheduleUlSr (rntiList : list Z) (m : gmap nat SchedUe) : res (gmap nat SchedUe) :=
  res_fold (fun v m =>
      let* ue := find_ue v m in
      let* lcgs := res_fold (fun g lcgs =>
          match lcgs !! g with
          | None => Ok lcgs
          | Some lcg => let* lcg := LcgUpdateQueue 12 lcg in Ok (<[g := lcg]> lcgs)
          end) (map_to_list ue.(m_ulLCG)).*1 ue.(m_ulLCG) in
      Ok (put_ue v (ue <| m_ulLCG := lcgs |>) m)) rntiList m.

(** The bytes the channels of a UE have to send *)
Definition tot_buffer (lcgs : gmap Z NrMacSchedulerLCG) : Z :=
  map_fold (fun _ lcg totBuffer => u32 (totBuffer + LcgTotalSize lcg)) 0 lcgs.

(** GetUlLCG and GetDlLCG *)
Definition lcg_of (direction : Mode) (ue : SchedUe) : gmap Z NrMacSchedulerLCG :=
  match direction with DL => ue.(m_dlLCG) | UL => ue.(m_ulLCG) end.

(** NrMacSchedulerNs3::ComputeActiveUe *)
Definition ComputeActiveUe (direction : Mode) (m : gmap nat SchedUe) : ActiveUes :=
  hashed (foldl (fun active e =>
      let totBuffer := tot_buffer (lcg_of direction e.2) in
      if (0 <? totBuffer) && CanInsert (harq_of direction e.2)
      then active_add e.2.(m_beamId) (e.1, totBuffer) active else active)
    [] (hashed (map_to_list m))).

Definition ue_rnti (m : gmap nat SchedUe) (p : nat) : Z :=
  match m !! p with Some ue => ue.(ue_ul).(m_rnti) | None => 0 end.

(** A UE that already has an allocation in the slot leaves the active ones; the scan stops at a
    beam that is left empty. *)
Fixpoint erase_first (m : gmap nat SchedUe) (rnti : Z) (v : list (nat * Z)) : list (nat * Z) :=
  match v with
  | [] => []
  | e :: v => if ue_rnti m e.1 =? rnti then v else e :: erase_first m rnti v
  end.

Fixpoint remove_scheduled (m : gmap nat SchedUe) (rnti : Z) (active : ActiveUes) : ActiveUes :=
  match active with
  | [] => []
  | (b, v) :: active =>
      match erase_first m rnti v with
      | [] => active
      | v => (b, v) :: remove_scheduled m rnti active
      end
  end.

(** The DCI of a UE becomes a HARQ process, which gives it its id. *)
Definition insert_process (d : Dci) (v : NrMacHarqVector) : res (Dci * NrMacHarqVector) :=
  let* _ := abort_if (negb (CanInsert v)) "UE does not have HARQ space" in
  let* r := HarqInsert (mkHarq true WAITING_FEEDBACK 0 (Some d) []) v in
  match r.1 with
  | None => Abort "the id is not set"
  | Some id =>
      let d := d <| m_harqProcess := id |> in
      Ok (d, harq_set id (mkHarq true WAITING_FEEDBACK 0 (Some d) []) r.2)
  end.

(** The transport block is split between the channels. *)
Definition assign_to_lcs (type : string) (l : list Assignation) (lcgs : gmap Z NrMacSchedulerLCG) :
    res (gmap Z NrMacSchedulerLCG) :=
  res_fold (fun a lcgs =>
      match lcgs !! a.(as_lcg) with
      | None => Abort "std::out_of_range"
      | Some lcg => let* lcg := AssignedData a.(as_lcId) a.(as_bytes) type lcg in Ok (<[a.(as_lcg) := lcg]> lcgs)
      end) l lcgs.

(** What a beam has so far: whether a DCI was made, the symbols where they start, allocSym *)
Record BeamState := mkBeamState { bs_assigned : bool; bs_symbStart : list Z; bs_allocSym : Z }.

Definition count_start (d : Dci) (b : BeamState) : BeamState :=
  if bool_decide (m_symStart d ∈ b.(bs_symbStart)) then mkBeamState true b.(bs_symbStart) b.(bs_allocSym)
  else mkBeamState true (m_symStart d :: b.(bs_symbStart)) (u32 (b.(bs_allocSym) + m_numSym d)).

(** The body of the loop over the UEs of a beam in DoScheduleUlData *)
Definition ul_data_ue (beamSym : Z) (e : nat * Z) (st : SlotState * BeamState) : res (SlotState * BeamState) :=
  let '(s, b) := st in
  match s.(sl_ues) !! e.1 with
  | None => Abort "null UE"
  | Some ue =>
      match ue.(ue_ul).(m_ulRBG) with
      | [] => Ok (s, b)
      | _ =>
          let* dci := CreateUlDci conf.(GetNumRbPerRbg) conf.(GetBandwidthInRbg) conf.(m_dlNotchedRbgsMask) conf.(GetBwpId)
                        ue.(m_ulPrecMats) s.(sl_point) beamSym ue.(ue_ul) in
          match dci with
          | None =>
              Ok (mkSlot s.(sl_point) (<[e.1 := ue <| ue_ul ::= fun u => u <| m_ulTbSize := 0 |> |>]> s.(sl_ues)) s.(sl_alloc), b)
          | Some d =>
              let b := count_start d b in
              let* r := insert_process d ue.(m_ulHarq) in
              let '(d, harq) := r in
              let* distributedBytes := AssignBytesToUlLC ue.(m_ulLCG) (m_tbSize d) in
              let* lcgs := assign_to_lcs "UL" distributedBytes ue.(m_ulLCG) in
              let* _ := abort_if (bool_decide (distributedBytes = [])) "NS_ASSERT(assignedToLC)" in
              Ok (mkSlot s.(sl_point) (<[e.1 := ue <| m_ulHarq := harq |> <| m_ulLCG := lcgs |>]> s.(sl_ues))
                    (push_front (slot_info d) s.(sl_alloc)), b)
          end
      end
  end.

(** The body of the loop over the beams *)
Definition ul_data_beam (symPerBeam : list (BeamId * Z)) (beam : BeamId * list (nat * Z)) (st : SlotState * Z) :
    res (SlotState * Z) :=
  let '(s, usedSym) := st in
  match beam_at beam.1 symPerBeam with
  | None => Abort "std::out_of_range"
  | Some beamSym =>
      if beamSym =? 0 then Ok (s, usedSym) else
      let* r := res_fold (ul_data_ue beamSym) beam.2 (s, mkBeamState false [] 0) in
      let '(s, b) := r in
      if b.(bs_assigned) then
        Ok (mkSlot (ChangeUlBeam beamSym s.(sl_point)) s.(sl_ues) (add_symbols b.(bs_allocSym) s.(sl_alloc)),
            u8 (usedSym + b.(bs_allocSym)))
      else Ok (s, usedSym)
  end.

(** The uplink part of every UE, as a store of its own, and back *)
Definition ul_store (m : gmap nat SchedUe) : gmap nat UeInfoUl := ue_ul <$> m.
Definition put_ul (ues : gmap nat UeInfoUl) (m : gmap nat SchedUe) : gmap nat SchedUe :=
  map_imap (fun p ue => Some (match ues !! p with Some u => ue <| ue_ul := u |> | None => ue end)) m.

(** NrMacSchedulerUeInfo::ResetUlSchedInfo *)
Definition reset_ul (ue : SchedUe) : SchedUe := ue <| m_ulMRBRetx := 0 |> <| ue_ul ::= ResetUlSchedInfo |>.

(** NrMacSchedulerNs3::DoScheduleUlData: usedSym, the queue of the policy and the slot *)
Definition DoScheduleUlData (m_ulTargets : gmap Z Z) (symAvail : Z) (activeUl : ActiveUes) (m_rrBeams : list BeamId)
    (s : SlotState) : res (Z * list BeamId * SlotState) :=
  let* _ := abort_if (negb ((0 <? symAvail) && negb (bool_decide (activeUl = [])))) "NS_ASSERT(symAvail > 0 && !activeUl.empty())" in
  let* _ := abort_if (negb (s.(sl_point).(spoint_rbg) =? 0)) "NS_ASSERT(spoint->m_rbg == 0)" in
  let* policy := policy_symbols symAvail activeUl m_rrBeams in
  let* r := AssignULRBG_target conf.(GetNumRbPerRbg) m_ulTargets (GetUlBitmask conf) policy.1 activeUl (ul_store s.(sl_ues)) in
  let '(symPerBeam, ues) := r in
  let* r := res_fold (ul_data_beam symPerBeam) activeUl (mkSlot s.(sl_point) (put_ul ues s.(sl_ues)) s.(sl_alloc), 0) in
  let '(s, usedSym) := r in
  let m := foldl (fun m p => alter reset_ul p m) s.(sl_ues) (concat ((fun beam => beam.2.*1) <$> activeUl)) in
  let* _ := abort_if (negb (s.(sl_point).(spoint_rbg) =? 0)) "NS_ASSERT(spoint->m_rbg == 0)" in
  Ok (usedSym, policy.2, mkSlot s.(sl_point) m s.(sl_alloc)).

(** ** The slot *)

(** symToAl: the symbols of the uplink allocations by where they start *)
Definition to_al (alloc : VarTti) (symToAl : list Z) : res (list Z) :=
  let d := alloc.(m_dci) in
  if bool_decide (dci_format d = UL) then
    match symToAl !! Z.to_nat (m_symStart d) with
    | None => Abort "symToAl out of range"
    | Some _ => Ok (<[Z.to_nat (m_symStart d) := m_numSym d]> symToAl)
    end
  else Ok symToAl.
Definition sym_to_al (allocs : list VarTti) : res (list Z) := res_fold to_al allocs (replicate 15 0).

(** The data allocations that will get a CQI *)
Definition data_allocs (allocs : list VarTti) : list AllocElem :=
  (fun alloc => let d := alloc.(m_dci) in
     mkAllocElem (dci_rnti d) (m_tbSize d) (m_symStart d) (m_numSym d) (dci_mcs d) (dci_rank d) (m_rbgBitmask d))
  <$> filter (fun alloc => dci_format alloc.(m_dci) = UL /\
                           (dci_type alloc.(m_dci) = DATA \/ dci_type alloc.(m_dci) = MSG3)) allocs.

(** The last part of DoScheduleUl: the entry of m_ulAllocationMap and the final assertion *)
Definition record_ul (allSym ulSymAvail : Z) (allocs : list VarTti) (e : SlotElem) : res SlotElem :=
  let* symToAl := sym_to_al allocs in
  let totUlSym := foldl (fun t v => u8 (t + v)) e.(m_totUlSym) symToAl in
  let* _ := abort_if (negb (allSym - ulSymAvail =? totUlSym)) "UL symbols available and registered do not match" in
  Ok (mkSlotElem totUlSym (e.(m_ulAllocations) ++ data_allocs allocs)).

(** The parts of DoScheduleUl, in their order: the sounding signals... *)
Definition ul_srs (type : SlotType) (m_srsSlotCounter ulSymAvail : Z) (slot : SlotState) : res (Z * Z * SlotState) :=
  if (conf.(m_enableSrsInFSlots) && bool_decide (type = SlotF)) || (conf.(m_enableSrsInUlSlots) && bool_decide (type = SlotUL))
  then
    let counter := u32 (m_srsSlotCounter + 1) in
    let* _ := abort_if (ulSymAvail <? conf.(m_srsCtrlSymbols)) "NS_ASSERT(m_srsCtrlSymbols <= ulSymAvail)" in
    let* r := DoScheduleSrs counter slot in
    Ok (counter, u8 (ulSymAvail - r.1), r.2)
  else Ok (m_srsSlotCounter, ulSymAvail, slot).

(** ... message 3 ... *)
Definition ul_msg3 (type : SlotType) (m_rachList : list RachReq) (ulSymAvail : Z) (slot : SlotState) :
    list RachReq * Z * SlotState :=
  if negb (bool_decide (m_rachList = [])) && (bool_decide (type = SlotF) || bool_decide (type = SlotUL)) then
    let r := DoScheduleUlMsg3 m_rachList ulSymAvail slot in
    ([], r.1, mkSlot r.2.(sl_point) r.2.(sl_ues) (add_symbols (ulSymAvail - r.1) r.2.(sl_alloc)))
  else (m_rachList, ulSymAvail, slot).

(** ... the retransmissions ... *)
Definition ul_harq (activeUlHarq : list (BeamId * list (Z * Z))) (ulHarqFeedback : list HarqInfo) (ulSymAvail : Z)
    (m_ulHarqToRetransmit : list HarqInfo) (slot : SlotState) : res (Z * list HarqInfo * SlotState) :=
  if negb (bool_decide (activeUlHarq = [])) then ScheduleUlHarq ulHarqFeedback ulSymAvail m_ulHarqToRetransmit slot
  else Ok (ulSymAvail, m_ulHarqToRetransmit, slot).

(** ... the requests for scheduling ... *)
Definition ul_sr (ulSymAvail : Z) (m_srList : list Z) (slot : SlotState) : res (list Z * SlotState) :=
  if (0 <? ulSymAvail) && negb (bool_decide (m_srList = [])) then
    let* m := DoScheduleUlSr m_srList slot.(sl_ues) in
    Ok ([], mkSlot slot.(sl_point) m slot.(sl_alloc))
  else Ok (m_srList, slot).

(** ... and the data of the UEs that have no allocation yet. *)
Definition ul_data (m_ulTargets : gmap Z Z) (ulSymAvail : Z) (m_rrBeams : list BeamId) (slot : SlotState) :
    res (Z * list BeamId * SlotState) :=
  let activeUl := foldl (fun active alloc => remove_scheduled slot.(sl_ues) (dci_rnti alloc.(m_dci)) active)
                    (ComputeActiveUe UL slot.(sl_ues)) slot.(sl_alloc).(m_varTtiAllocInfo) in
  if (0 <? ulSymAvail) && negb (bool_decide (activeUl = [])) then
    let* r := DoScheduleUlData m_ulTargets ulSymAvail activeUl m_rrBeams slot in
    Ok (u8 (ulSymAvail - r.1.1), r.1.2, r.2)
  else Ok (ulSymAvail, m_rrBeams, slot).

(** NrMacSchedulerNs3::DoScheduleUl: the symbols used, the scheduler and the allocation *)
Definition DoScheduleUl (ulHarqFeedback : list HarqInfo) (ulSfn : Z) (type : SlotType) (allocInfo : SlotAllocInfo)
    (s : MacSched) : res (Z * MacSched * SlotAllocInfo) :=
  let* _ := abort_if (negb (length allocInfo.(m_varTtiAllocInfo) =? 1)%nat) "NS_ASSERT(allocInfo->m_varTtiAllocInfo.size() == 1)" in
  let dataSymPerSlot := u8 (conf.(GetSymbolsPerSlot) - conf.(m_ulCtrlSymbols)) in
  let dataSymPerSlot := if bool_decide (type = SlotF) then u8 (dataSymPerSlot - conf.(m_dlCtrlSymbols)) else dataSymPerSlot in
  let* activeUlHarq := ComputeActiveHarq ulHarqFeedback s.(m_ueMap) in
  let slot := mkSlot (mkPoint 0 (u8 (conf.(GetSymbolsPerSlot) - conf.(m_ulCtrlSymbols)))) s.(m_ueMap) allocInfo in
  let elem := default (mkSlotElem 0 []) (s.(m_ulAllocationMap) !! ulSfn) in
  let* r := ul_srs type s.(m_srsSlotCounter) dataSymPerSlot slot in
  let '(counter, ulSymAvail, slot) := r in
  let '(rachList, ulSymAvail, slot) := ul_msg3 type s.(m_rachList) ulSymAvail slot in
  let* r := ul_harq activeUlHarq ulHarqFeedback ulSymAvail s.(m_ulHarqToRetransmit) slot in
  let '(ulSymAvail, toRetransmit, slot) := r in
  let* _ := abort_if (negb (slot.(sl_point).(spoint_rbg) =? 0)) "NS_ASSERT(ulAssignationStartPoint.m_rbg == 0)" in
  let* r := ul_sr ulSymAvail s.(m_srList) slot in
  let '(srList, slot) := r in
  let* r := ul_data s.(m_ulTargets) ulSymAvail s.(m_rrBeams) slot in
  let '(ulSymAvail, rrBeams, slot) := r in
  let* elem := record_ul (dataSymPerSlot + conf.(m_ulCtrlSymbols)) ulSymAvail slot.(sl_alloc).(m_varTtiAllocInfo) elem in
  Ok (u8 (dataSymPerSlot - ulSymAvail),
      s <| m_ueMap := slot.(sl_ues) |> <| m_ulAllocationMap ::= <[ulSfn := elem]> |>
        <| m_ulHarqToRetransmit := toRetransmit |> <| m_srList := srList |> <| m_rachList := rachList |>
        <| m_srsSlotCounter := counter |> <| m_rrBeams := rrBeams |>,
      slot.(sl_alloc)).

(** NrMacSchedulerNs3::ScheduleUl: what SchedConfigInd is given, after the check of the matrix *)
Definition ScheduleUl (snfSf : SfnSf) (type : SlotType) (ulHarqFeedback : list HarqInfo) (s : MacSched) :
    res (MacSched * SlotAllocInfo) :=
  let* ctrl := AppendCtrlSym conf (u8 (conf.(GetSymbolsPerSlot) - 1)) conf.(m_ulCtrlSymbols) UL [] in
  let* ulSfn := GetEncoding snfSf in
  let* r := DoScheduleUl ulHarqFeedback ulSfn type (mkSlotAlloc (u32 conf.(m_ulCtrlSymbols)) ctrl) s in
  let '(_, s, alloc) := r in
  let* _ := CheckResourceMatrix alloc.(m_varTtiAllocInfo) s.(m_ueMap) (GetUlBitmask conf) 14 in
  Ok (s, alloc).

(** NrMacSchedulerCQIManagement::RefreshUlCqiMaps *)
Definition refresh_ul_ue (ue : SchedUe) : SchedUe :=
  let c := refresh_ul conf.(m_startMcsUl) (mkUlCqi ue.(ue_ulCqi) ue.(ue_ul).(m_ulMcs)) in
  ue <| ue_ulCqi := c.(m_ulCqi) |> <| ue_ul ::= fun u => u <| m_ulMcs := c.(uc_ulMcs) |> |>.

(** NrMacSchedulerNs3::DoSchedUlTriggerReq *)
Definition DoSchedUlTriggerReq (snfSf : SfnSf) (type : SlotType) (ulHarqInfoList : list HarqInfo) (s : MacSched) :
    res (MacSched * SlotAllocInfo) :=
  let m := refresh_ul_ue <$> s.(m_ueMap) in
  let* r := process_feedback conf UL s.(m_ulHarqToRetransmit) ulHarqInfoList m in
  ScheduleUl snfSf type r.1 (s <| m_ueMap := r.2 |> <| m_ulHarqToRetransmit := [] |>).

End ul.
