(* ===== verification/DlSlot.v ===== *)
(** The downlink slot: DoSchedDlTriggerReq of src/nr/model/nr-mac-scheduler-ns3.cc and what it
    calls, over the downlink allocation with the round-robin order, with ScheduleDlHarq of
    nr-mac-scheduler-harq-rr.cc.

    A slot is filled from its first symbol on: control, retransmissions, data; the symbols the
    uplink has taken of the same slot are left free at its end.  There is no fronthaul control,
    and ConsolidateHarqRetx is false, its default: a retransmission keeps its RBGs. *)
From Stdlib Require Import ZArith Lia.
From stdpp Require Import base list gmap strings list_numbers.
From coqutil Require Import Datatypes.RecordSettersUsingExistingGetters.
From S2P Require Import Prelude OrdMap Messages UlScheduler Amc DlUe CqiManagement DlScheduler Dci.
From S2P Require Import LogicalChannels Harq Srs SfnSf MacScheduler ResourceMatrix UlSlot.
Open Scope Z_scope.

(** NrMacSchedulerNs3::GetDlBitmask *)
Definition DlBitmask (conf : SchedConf) : list bool :=
  GetDlBitmask conf.(GetBandwidthInRbg) conf.(m_dlNotchedRbgsMask).

Definition push_back (v : VarTti) (a : SlotAllocInfo) : SlotAllocInfo := a <| m_varTtiAllocInfo ::= fun l => l ++ [v] |>.

(** spoint->m_sym += n *)
Definition forth (n : Z) (p : PointInFTPlane) : PointInFTPlane := mkPoint p.(spoint_rbg) (u8 (p.(spoint_sym) + n)).

(** NrMacSchedulerNs3::PrependCtrlSym *)
Definition PrependCtrlSym (conf : SchedConf) (symStart numSymToAllocate : Z) (mode : Mode) (allocations : list VarTti) :
    res (list VarTti) :=
  let* _ := abort_if (bool_decide (mode = DL) && negb (bool_decide (allocations = []) && (symStart =? 0))) "NS_ASSERT" in
  Ok (rev ((fun sym => slot_info (ctrl_dci conf mode sym)) <$> seqZ symStart numSymToAllocate) ++ allocations).

(** ** Retransmissions *)

(** NrMacSchedulerHarqRr::SortDlHarq: those with the most symbols first *)
Definition num_sym_of (m : gmap nat SchedUe) (process : Z * Z) : Z :=
  match m !! ue_key process.1 with
  | None => 0
  | Some ue =>
      match procs ue.(m_dlHarq) !! process.2 with
      | Some p => match m_dciElement p with Some d => m_numSym d | None => 0 end
      | None => 0
      end
  end.
Definition SortDlHarq (m : gmap nat SchedUe) (activeDlHarq : list (BeamId * list (Z * Z))) :
    list (BeamId * list (Z * Z)) :=
  (fun beam => (beam.1, stable_sort (fun process => - num_sym_of m process) beam.2)) <$> activeDlHarq.

(** NrMacSchedulerNs3::ComputeActiveHarq of the downlink: the processes of each beam, as (RNTI, id) *)
Definition ComputeActiveDlHarq (dlHarqFeedback : list HarqInfo) (m : gmap nat SchedUe) :
    res (list (BeamId * list (Z * Z))) :=
  let* active := res_fold (fun fb activeDlHarq =>
      let* ue := find_ue fb.(fb_rnti) m in
      let* p := harq_get fb.(fb_process) ue.(m_dlHarq) in
      let* _ := abort_if (negb p.(hp_active)) "NS_ASSERT: m_active" in
      let* _ := abort_if (negb (bool_decide (p.(hp_status) = RECEIVED_FEEDBACK))) "NS_ASSERT: RECEIVED_FEEDBACK" in
      Ok (active_add ue.(m_beamId) (fb.(fb_rnti), fb.(fb_process)) activeDlHarq)) dlHarqFeedback [] in
  Ok (SortDlHarq m active).

Section dl.
Context `{CppHash}.

(** NrMacSchedulerHarqRr::GetBeamOrderRR: one turn of the queue, in which the active beams are
    written to the positions they have in it; [ret] has one place for each active beam. *)
Definition order_beam (activeHarqMap : list BeamId) (i : nat) (s : list BeamId * list BeamId) :
    res (list BeamId * list BeamId) :=
  match s.1 with
  | [] => Ok s
  | front :: m_rrBeams =>
      let* ret :=
        if bool_decide (front ∈ activeHarqMap) then
          let* _ := abort_if (length s.2 <=? i)%nat "ret[i] out of range" in
          Ok (<[i := front]> s.2)
        else Ok s.2 in
      Ok (m_rrBeams ++ [front], ret)
  end.
Definition GetBeamOrderRR (activeHarqMap : list (BeamId * list (Z * Z))) (m_rrBeams : list BeamId) :
    res (list BeamId * list BeamId) :=
  let q := foldl (fun q b => if bool_decide (b ∈ q) then q else q ++ [b]) m_rrBeams (hashed activeHarqMap).*1 in
  res_fold (order_beam activeHarqMap.*1) (seq 0 (length q)) (q, replicate (length activeHarqMap) (mkBeam 0 d_zero)).

(** nr::CountUsedSymbolsFromVarAllocTtiRange *)
Definition count_symbols (acc : Z * Z) (v : VarTti) : Z * Z :=
  let d := v.(m_dci) in
  (if m_symStart d <? acc.1 then m_symStart d else acc.1,
   if acc.2 <? m_symStart d + m_numSym d then u8 (m_symStart d + m_numSym d) else acc.2).
Definition CountUsedSymbols (startSym : Z) (l : list VarTti) : res Z :=
  match l with
  | [] => Ok 0
  | _ =>
      let '(smallestStartSymbol, largestFinalSymbol) := foldl count_symbols (255, startSym) l in
      let* _ := abort_if (smallestStartSymbol =? 255) "There must have been a valid starting symbol" in
      Ok (u8 (largestFinalSymbol - smallestStartSymbol))
  end.

(** NrMacSchedulerHarqRr::BufferHARQFeedback *)
Definition BufferHARQFeedback (dlHarqFeedback dlHarqToRetransmit : list HarqInfo) (rnti harqProcess : Z) :
    res (list HarqInfo) :=
  match filter (fun fb => fb.(fb_rnti) = rnti /\ fb.(fb_process) = harqProcess) dlHarqFeedback with
  | [] => Abort "NS_ASSERT(found)"
  | fb :: _ => Ok (dlHarqToRetransmit ++ [fb])
  end.

(** The RBGs of [mask] are taken out of [bitmask]; None on a collision. *)
Definition take_rbgs (mask bitmask : list bool) : res (option (list bool)) :=
  res_fold (fun i acc =>
      match acc with
      | None => Ok None
      | Some bits =>
          match mask !! i with
          | None => Abort "std::out_of_range"
          | Some false => Ok (Some bits)
          | Some true => Ok (if bool_decide (bits !! i = Some true) then Some (<[i := false]> bits) else None)
          end
      end) (seq 0 (length bitmask)) (Some bitmask).

(** What ScheduleDlHarq changes: symAvail, dlBitmask, currStartingSymbol, the RNTIs in allocatedUe,
    dlHarqToRetransmit, the UEs and the allocation *)
Record DlHarqState := mkDlHarq {
  dh_symAvail : Z;
  dh_bitmask : list bool;
  dh_currSym : Z;
  dh_allocated : list Z;
  dh_kept : list HarqInfo;
  dh_ues : gmap nat SchedUe;
  dh_alloc : SlotAllocInfo
}.

Section harq.
Context (conf : SchedConf) (dlHarqFeedback : list HarqInfo).

(** The process of a UE is replaced. *)
Definition put_dl_process (rnti id : Z) (p : HarqProcess) (ue : SchedUe) (m : gmap nat SchedUe) : gmap nat SchedUe :=
  put_ue rnti (ue <| m_dlHarq ::= harq_set id p |>) m.

(** The feedback of a process that is not sent again is kept. *)
Definition buffer_process (rnti id : Z) (p : HarqProcess) (d : Dci) (ue : SchedUe) (h : DlHarqState) : res DlHarqState :=
  let* kept := BufferHARQFeedback dlHarqFeedback h.(dh_kept) (dci_rnti d) (m_harqProcess d) in
  Ok (h <| dh_kept := kept |> <| dh_ues ::= put_dl_process rnti id p ue |>).

(** The body of the loop over the processes of a beam in ScheduleDlHarq *)
Definition resend_dl (process : Z * Z) (h : DlHarqState) : res DlHarqState :=
  let '(rnti, id) := process in
  let* ue := find_ue rnti h.(dh_ues) in
  let* p := harq_get id ue.(m_dlHarq) in
  let* _ := abort_if (negb (bool_decide (p.(hp_status) = RECEIVED_FEEDBACK))) "NS_ASSERT: RECEIVED_FEEDBACK" in
  let p := p <| hp_status := WAITING_FEEDBACK |> <| hp_timer := 0 |> in
  match m_dciElement p with
  | None => Abort "null DCI"
  | Some d =>
      let rbgAssigned := u32 (Z.of_nat (length (remaining_rbgs (m_rbgBitmask d))) * m_numSym d) in
      let rbgAvail := u32 (Z.of_nat conf.(GetBandwidthInRbg) * h.(dh_symAvail)) in
      if bool_decide (dci_rnti d ∈ h.(dh_allocated)) || (rbgAvail <? rbgAssigned) then buffer_process rnti id p d ue h else
      let* bits := take_rbgs (m_rbgBitmask d) h.(dh_bitmask) in
      match bits with
      | None => buffer_process rnti id p d ue h
      | Some bits =>
          let d := d <| m_symStart := h.(dh_currSym) |> in
          let p := p <| m_dciElement := Some d |> in
          if h.(dh_symAvail) <? m_numSym d then buffer_process rnti id p d ue h else
          let* _ := abort_if (negb (bool_decide (dci_format d = DL))) "NS_ASSERT: DL" in
          let d := retx_dci (m_harqProcess d) (m_symStart d) d in
          let p := p <| m_dciElement := Some d |> in
          let m := put_dl_process rnti id p ue h.(dh_ues) in
          let* other := find_ue (dci_rnti d) m in
          let m := put_ue (dci_rnti d) (other <| ue_dl ::= fun u => u <| m_dlMRBRetx := u32 (m_numSym d * rbgAssigned) |> |>) m in
          Ok (mkDlHarq (u8 (h.(dh_symAvail) - m_numSym d)) bits h.(dh_currSym) (h.(dh_allocated) ++ [dci_rnti d])
                h.(dh_kept) m (push_back (mkVarTti false d p.(m_rlcPduInfo)) h.(dh_alloc)))
      end
  end.

(** One beam, from the symbol [startSym] of the first retransmission on *)
Definition resend_beam (startSym : Z) (activeDlHarq : list (BeamId * list (Z * Z))) (b : BeamId) (h : DlHarqState) :
    res DlHarqState :=
  match head (filter (fun beam => beam.1 = b) activeDlHarq) with
  | None => Abort "*activeDlHarq.find(beamId)"
  | Some (_, processes) =>
      let beamStartingSymbol := h.(dh_currSym) in
      let preexistingDciNumToBeam := length h.(dh_alloc).(m_varTtiAllocInfo) in
      let* h := res_fold resend_dl processes (h <| dh_allocated := [] |>) in
      if 0 <? h.(dh_symAvail) then
        let h := h <| dh_bitmask := DlBitmask conf |> in
        if beamStartingSymbol =? h.(dh_currSym) then
          let* symbolsUsedForBeam := CountUsedSymbols startSym (drop preexistingDciNumToBeam h.(dh_alloc).(m_varTtiAllocInfo)) in
          Ok (h <| dh_currSym ::= fun n => u8 (n + symbolsUsedForBeam) |>
                <| dh_symAvail ::= fun n => u8 (n - symbolsUsedForBeam) |>)
        else Ok h
      else Ok h
  end.

(** NrMacSchedulerHarqRr::ScheduleDlHarq: the symbols used, the queue of beams, dlHarqToRetransmit and the
    slot; the point itself is not moved. *)
Definition ScheduleDlHarq (symAvail : Z) (activeDlHarq : list (BeamId * list (Z * Z))) (m_rrBeams : list BeamId)
    (dlHarqToRetransmit : list HarqInfo) (s : SlotState) : res (Z * list BeamId * list HarqInfo * SlotState) :=
  let* _ := abort_if (negb (s.(sl_point).(spoint_rbg) =? 0)) "NS_ASSERT(startingPoint->m_rbg == 0)" in
  let startSym := s.(sl_point).(spoint_sym) in
  let preexistingDciNum := length s.(sl_alloc).(m_varTtiAllocInfo) in
  let* order := GetBeamOrderRR activeDlHarq m_rrBeams in
  let* h := res_fold (resend_beam startSym activeDlHarq) order.2
              (mkDlHarq symAvail (DlBitmask conf) startSym [] dlHarqToRetransmit s.(sl_ues) s.(sl_alloc)) in
  let* usedSymbols := CountUsedSymbols startSym (drop preexistingDciNum h.(dh_alloc).(m_varTtiAllocInfo)) in
  Ok (usedSymbols, order.1, h.(dh_kept), mkSlot s.(sl_point) h.(dh_ues) h.(dh_alloc)).
End harq.

(** ** Data *)

Section data.
Context `{LibM} `{CppReduce} `{CppStableSort} `{StdSort} `{SymbolPolicy}.
Context (conf : SchedConf) (amc : Amc).

(** The sub-PDU of a logical channel: 3 bytes of its share go to the header. *)
Definition dl_pdu (a : Assignation) (st : gmap Z NrMacSchedulerLCG * list RlcPduInfo) :
    res (gmap Z NrMacSchedulerLCG * list RlcPduInfo) :=
  let* _ := abort_if (a.(as_bytes) <? 3) "NS_ASSERT(byteDistribution.m_bytes >= 3)" in
  let bytes := a.(as_bytes) - 3 in
  match st.1 !! a.(as_lcg) with
  | None => Abort "std::out_of_range"
  | Some lcg =>
      let* lcg := AssignedData a.(as_lcId) bytes "DL" lcg in
      Ok (<[a.(as_lcg) := lcg]> st.1, st.2 ++ [mkPdu a.(as_lcId) bytes])
  end.

(** The body of the loop over the UEs of a beam in DoScheduleDlData *)
Definition dl_data_ue (beamSym : Z) (e : nat * Z) (st : SlotState * BeamState) : res (SlotState * BeamState) :=
  let '(s, b) := st in
  match s.(sl_ues) !! e.1 with
  | None => Abort "null UE"
  | Some ue =>
      match ue.(ue_dl).(m_dlRBG) with
      | [] => Ok (s, b)
      | _ =>
          let* r := CreateDlDci conf.(GetNumRbPerRbg) conf.(GetBandwidthInRbg) conf.(m_dlNotchedRbgsMask) conf.(GetBwpId)
                      amc s.(sl_point) beamSym ue.(ue_dl) in
          let '(u, dci) := r in
          let ue := ue <| ue_dl := u |> in
          match dci with
          | None => Ok (mkSlot s.(sl_point) (<[e.1 := ue <| ue_dl ::= ResetDlMetric |>]> s.(sl_ues)) s.(sl_alloc), b)
          | Some d =>
              let b := count_start d b in
              let* _ := abort_if (conf.(GetSymbolsPerSlot) <? m_symStart d + m_numSym d) "NS_ASSERT: symbols of the slot" in
              let* r := insert_process d ue.(m_dlHarq) in
              let '(d, harq) := r in
              let* distributedBytes := AssignBytesToDlLC ue.(m_dlLCG) (m_tbSize d) in
              let* r := res_fold dl_pdu distributedBytes (ue.(m_dlLCG), []) in
              let '(lcgs, pdus) := r in
              let* p := harq_get (m_harqProcess d) harq in
              let harq := harq_set (m_harqProcess d) (p <| m_rlcPduInfo ::= fun l => l ++ pdus |>) harq in
              let* _ := abort_if (bool_decide (pdus = [])) "NS_ABORT_IF(slotInfo.m_rlcPduInfo.empty())" in
              Ok (mkSlot s.(sl_point) (<[e.1 := ue <| m_dlHarq := harq |> <| m_dlLCG := lcgs |>]> s.(sl_ues))
                    (push_back (mkVarTti false d pdus) s.(sl_alloc)), b)
          end
      end
  end.

(** The body of the loop over the beams *)
Definition dl_data_beam (symPerBeam : list (BeamId * Z)) (beam : BeamId * list (nat * Z)) (st : SlotState * Z) :
    res (SlotState * Z) :=
  let '(s, usedSym) := st in
  match beam_at beam.1 symPerBeam with
  | None => Abort "std::out_of_range"
  | Some beamSym =>
      if beamSym =? 0 then Ok (s, usedSym) else
      let* r := res_fold (dl_data_ue beamSym) beam.2 (s, mkBeamState false [] 0) in
      let '(s, b) := r in
      if b.(bs_assigned) then
        Ok (mkSlot (ChangeDlBeam beamSym s.(sl_point)) s.(sl_ues) (add_symbols b.(bs_allocSym) s.(sl_alloc)),
            u8 (usedSym + b.(bs_allocSym)))
      else Ok (s, usedSym)
  end.

(** The downlink part of every UE, as a store of its own, and back *)
Definition dl_store (m : gmap nat SchedUe) : gmap nat UeInfoDl := ue_dl <$> m.
Definition put_dl (ues : gmap nat UeInfoDl) (m : gmap nat SchedUe) : gmap nat SchedUe :=
  map_imap (fun p ue => Some (match ues !! p with Some u => ue <| ue_dl := u |> | None => ue end)) m.
Definition reset_dl (ue : SchedUe) : SchedUe := ue <| ue_dl ::= ResetDlSchedInfo |>.

(** The round-robin queues of the scheduler: the beams of the policy, the UEs and those it knows *)
Record DlQueues := mkDlQueues { dq_rrBeams : list BeamId; dq_dlRrRntiDeque : list Z; dq_dlRntiSet : gset Z }.

(** NrMacSchedulerNs3::DoScheduleDlData *)
Definition DoScheduleDlData (symAvail : Z) (activeDl : ActiveUes) (q : DlQueues) (s : SlotState) :
    res (Z * DlQueues * SlotState) :=
  let* _ := abort_if (negb (s.(sl_point).(spoint_rbg) =? 0)) "NS_ASSERT(spoint->m_rbg == 0)" in
  let* policy := policy_symbols symAvail activeDl q.(dq_rrBeams) in
  let* r := AssignDLRBG conf.(GetNumRbPerRbg) conf.(conf_mcsCsiSource) amc (DlBitmask conf) policy.1 activeDl
              (dl_store s.(sl_ues), q.(dq_dlRrRntiDeque), q.(dq_dlRntiSet)) in
  let '(symPerBeam, (ues, deque, known)) := r in
  let* r := res_fold (dl_data_beam symPerBeam) activeDl (mkSlot s.(sl_point) (put_dl ues s.(sl_ues)) s.(sl_alloc), 0) in
  let '(s, usedSym) := r in
  let m := foldl (fun m p => alter reset_dl p m) s.(sl_ues) (concat ((fun beam => beam.2.*1) <$> activeDl)) in
  let* _ := abort_if (negb (s.(sl_point).(spoint_rbg) =? 0)) "NS_ASSERT(spoint->m_rbg == 0)" in
  Ok (usedSym, mkDlQueues policy.2 deque known, mkSlot s.(sl_point) m s.(sl_alloc)).

(** ** The slot *)

(** The parts of DoScheduleDl: the retransmissions... *)
Definition dl_harq (activeDlHarq : list (BeamId * list (Z * Z))) (dlHarqFeedback : list HarqInfo) (dlSymAvail : Z)
    (m_harqRrBeams : list BeamId) (m_dlHarqToRetransmit : list HarqInfo) (slot : SlotState) :
    res (Z * list BeamId * list HarqInfo * SlotState) :=
  if negb (bool_decide (activeDlHarq = [])) then
    let* r := ScheduleDlHarq conf dlHarqFeedback dlSymAvail activeDlHarq m_harqRrBeams m_dlHarqToRetransmit slot in
    let '(usedHarq, beams, kept, slot) := r in
    let* _ := abort_if (dlSymAvail <? usedHarq) "NS_ASSERT(dlSymAvail >= usedHarq)" in
    Ok (u8 (dlSymAvail - usedHarq), beams, kept,
        mkSlot (forth usedHarq slot.(sl_point)) slot.(sl_ues) (add_symbols usedHarq slot.(sl_alloc)))
  else Ok (dlSymAvail, m_harqRrBeams, m_dlHarqToRetransmit, slot).

(** ... and the data of the UEs that have no allocation yet. *)
Definition dl_data (dlSymAvail : Z) (activeDlUe : ActiveUes) (q : DlQueues) (slot : SlotState) :
    res (Z * DlQueues * SlotState) :=
  let activeDl := foldl (fun active alloc => remove_scheduled slot.(sl_ues) (dci_rnti alloc.(m_dci)) active)
                    activeDlUe slot.(sl_alloc).(m_varTtiAllocInfo) in
  if (0 <? dlSymAvail) && negb (bool_decide (activeDl = [])) then
    let* r := DoScheduleDlData dlSymAvail activeDl q slot in
    let* _ := abort_if (dlSymAvail <? r.1.1) "NS_ASSERT(dlSymAvail >= usedDl)" in
    Ok (u8 (dlSymAvail - r.1.1), r.1.2, r.2)
  else Ok (dlSymAvail, q, slot).

(** NrMacSchedulerNs3::DoScheduleDl: the scheduler and the allocation; nobody reads what it returns. *)
Definition DoScheduleDl (dlHarqFeedback : list HarqInfo) (activeDlHarq : list (BeamId * list (Z * Z)))
    (activeDlUe : ActiveUes) (m_totUlSym : Z) (allocInfo : SlotAllocInfo) (s : MacSched) :
    res (MacSched * SlotAllocInfo) :=
  let dataSymPerSlot := u8 (conf.(GetSymbolsPerSlot) - conf.(m_dlCtrlSymbols)) in
  let dlSymAvail := u8 (dataSymPerSlot - m_totUlSym) in
  let slot := mkSlot (mkPoint 0 conf.(m_dlCtrlSymbols)) s.(m_ueMap) allocInfo in
  let* r := dl_harq activeDlHarq dlHarqFeedback dlSymAvail s.(m_harqRrBeams) s.(m_dlHarqToRetransmit) slot in
  let '(dlSymAvail, harqBeams, toRetransmit, slot) := r in
  let* _ := abort_if (negb (slot.(sl_point).(spoint_rbg) =? 0)) "NS_ASSERT(dlAssignationStartPoint.m_rbg == 0)" in
  let* r := dl_data dlSymAvail activeDlUe (mkDlQueues s.(m_rrBeams) s.(sched_dlDeque) s.(sched_dlRntiSet)) slot in
  let '(_, q, slot) := r in
  Ok (s <| m_ueMap := slot.(sl_ues) |> <| m_dlHarqToRetransmit := toRetransmit |> <| m_rrBeams := q.(dq_rrBeams) |>
        <| sched_dlDeque := q.(dq_dlRrRntiDeque) |> <| sched_dlRntiSet := q.(dq_dlRntiSet) |>
        <| m_harqRrBeams := harqBeams |>,
      slot.(sl_alloc)).

(** The control symbols of a slot: those of the downlink, and in an S slot those of the uplink after
    them; the entry of m_ulAllocationMap counts the latter. *)
Definition dl_ctrl (type : SlotType) (e : SlotElem) : res (SlotElem * SlotAllocInfo) :=
  let* ctrl := PrependCtrlSym conf 0 conf.(m_dlCtrlSymbols) DL [] in
  let alloc := mkSlotAlloc (u32 conf.(m_dlCtrlSymbols)) ctrl in
  if bool_decide (type = SlotS) then
    let* l := AppendCtrlSym conf (u8 (conf.(GetSymbolsPerSlot) - 1)) conf.(m_ulCtrlSymbols) UL alloc.(m_varTtiAllocInfo) in
    Ok (mkSlotElem (u8 (e.(m_totUlSym) + conf.(m_ulCtrlSymbols))) e.(m_ulAllocations),
        add_symbols conf.(m_ulCtrlSymbols) (alloc <| m_varTtiAllocInfo := l |>))
  else Ok (e, alloc).

(** NrMacSchedulerNs3::ScheduleDl: what SchedConfigInd is given, after the check of the matrix *)
Definition ScheduleDl (snfSf : SfnSf) (type : SlotType) (dlHarqFeedback : list HarqInfo) (s : MacSched) :
    res (MacSched * SlotAllocInfo) :=
  let* dlSfn := GetEncoding snfSf in
  let* r := dl_ctrl type (default (mkSlotElem 0 []) (s.(m_ulAllocationMap) !! dlSfn)) in
  let '(ulAllocations, alloc) := r in
  let* activeDlHarq := ComputeActiveDlHarq dlHarqFeedback s.(m_ueMap) in
  let* r := DoScheduleDl dlHarqFeedback activeDlHarq (ComputeActiveUe DL s.(m_ueMap)) ulAllocations.(m_totUlSym) alloc s in
  let '(s, alloc) := r in
  let s := s <| m_ulAllocationMap ::= if ulAllocations.(m_totUlSym) <=? conf.(m_ulCtrlSymbols) then delete dlSfn
                                      else <[dlSfn := ulAllocations]> |> in
  let* _ := CheckResourceMatrix alloc.(m_varTtiAllocInfo) s.(m_ueMap) (DlBitmask conf) 14 in
  Ok (s, alloc).

(** NrMacSchedulerCQIManagement::RefreshDlCqiMaps *)
Definition refresh_dl_ue (ue : SchedUe) : SchedUe := ue <| ue_dl ::= refresh_dl conf.(m_startMcsDl) |>.

(** NrMacSchedulerNs3::DoSchedDlTriggerReq *)
Definition DoSchedDlTriggerReq (snfSf : SfnSf) (type : SlotType) (dlHarqInfoList : list HarqInfo) (s : MacSched) :
    res (MacSched * SlotAllocInfo) :=
  let m := refresh_dl_ue <$> s.(m_ueMap) in
  let* r := process_feedback conf DL s.(m_dlHarqToRetransmit) dlHarqInfoList m in
  ScheduleDl snfSf type r.1 (s <| m_ueMap := r.2 |> <| m_dlHarqToRetransmit := [] |>).
End data.
End dl.
