(* ===== verification/SlotLayout.v ===== *)
(** The layout of a slot, as pairs of allocations: two of them share no symbol, or they are in the
    same beam and share no RBG.  Such a slot passes the check of the resource matrix, whatever the
    order of the allocations. *)
From Stdlib Require Import ZArith Lia Lists.List.
From stdpp Require Import base list gmap strings list_numbers.
From coqutil Require Import Datatypes.RecordSettersUsingExistingGetters.
From S2P Require Import Prelude UlScheduler Amc DlUe Dci Harq MacScheduler ResourceMatrix.
Open Scope Z_scope.

(** The number of symbols of a slot *)
Definition slot_symbols : Z := 14.

(** ** The resource matrix *)

(** An update of the symbols from [st] to [st + n - 1] *)
Definition on_symbols (st n : Z) (f : SymbolResources -> SymbolResources) (m : ResourceAssignmentMatrix) :
    nat -> option SymbolResources :=
  fun i => if decide (st <= Z.of_nat i < st + n) then f <$> m_symbolResources m !! i else m_symbolResources m !! i.

Lemma symbols_fold (step : Z -> ResourceAssignmentMatrix -> res ResourceAssignmentMatrix)
    (ok : SymbolResources -> Prop) (f : SymbolResources -> SymbolResources) mask st n m :
  (forall i m s, 0 <= i -> m_notchingMask m = mask -> m_symbolResources m !! Z.to_nat i = Some s -> ok s ->
     exists m', step i m = Ok m' /\ m_notchingMask m' = mask /\
       m_symbolResources m' = <[Z.to_nat i := f s]> (m_symbolResources m)) ->
  m_notchingMask m = mask -> 0 <= st -> 0 <= n ->
  (forall i, st <= Z.of_nat i < st + n -> exists s, m_symbolResources m !! i = Some s /\ ok s) ->
  exists m', res_fold step (seqZ st n) m = Ok m' /\ m_notchingMask m' = mask /\
    forall i, m_symbolResources m' !! i = on_symbols st n f m i.
Proof.
  intros St. remember (Z.to_nat n) as k eqn:Ek. revert st n m Ek.
  induction k as [|k IH]; intros st n m Ek Em S N Ok1; unfold on_symbols.
  - rewrite seqZ_nil by lia. exists m. split; [done|]. split; [done|]. intros i. by rewrite decide_False by lia.
  - rewrite seqZ_cons by lia. cbn [res_fold]. destruct (Ok1 (Z.to_nat st) ltac:(lia)) as (s & Es & Os).
    destruct (St st m s S Em Es Os) as (m1 & -> & Em1 & E1). cbn [res_bind].
    destruct (IH (Z.succ st) (Z.pred n) m1) as (m' & -> & Em' & E'); [lia|done|lia|lia| |].
    { intros i Hi. rewrite E1, list_lookup_insert_ne by lia. apply Ok1. lia. }
    exists m'. split; [done|]. split; [done|]. intros i. rewrite E'. unfold on_symbols. rewrite E1.
    destruct (decide (i = Z.to_nat st)) as [->|Ne].
    + rewrite decide_False by lia. rewrite decide_True by lia.
      rewrite list_lookup_insert_eq by (by eapply lookup_lt_Some). by rewrite Es.
    + rewrite list_lookup_insert_ne by done. by repeat case_decide; try lia.
Qed.

Definition has_beam (b : BeamId) (s : SymbolResources) : Prop := sr_beamId s = None \/ sr_beamId s = Some b.
Definition free_rbg (r : nat) (s : SymbolResources) : Prop :=
  exists e, sr_rbgs s !! r = Some e /\ allocatedUe e = EMPTY_RESOURCE_RNTI.

Lemma symbol_at_ok i m s : m_symbolResources m !! Z.to_nat i = Some s -> symbol_at i m = Ok s.
Proof. intros E. unfold symbol_at. by rewrite E. Qed.

Lemma AssignBeam_ok b mask st n m :
  m_notchingMask m = mask -> 0 <= st -> 0 <= n ->
  (forall i, st <= Z.of_nat i < st + n -> exists s, m_symbolResources m !! i = Some s /\ has_beam b s) ->
  exists m', AssignBeamIdToSymbols b st n m = Ok m' /\ m_notchingMask m' = mask /\
    forall i, m_symbolResources m' !! i = on_symbols st n (fun s => mkSymbol (Some b) (sr_rbgs s)) m i.
Proof.
  apply symbols_fold. intros i m0 s I Em Es [B|B]; rewrite (symbol_at_ok i m0 s Es); cbn [res_bind]; rewrite B.
  2: rewrite bool_decide_true by done.
  all: cbn [negb abort_if res_bind]; eexists; split; [done|]; by destruct m0, s.
Qed.

Lemma AssignRbg_ok type rnti r mask st n m :
  m_notchingMask m = mask -> 0 <= st -> 0 <= n -> (r < length mask)%nat ->
  (notch_checked type = true -> mask !! r = Some true) ->
  (forall i, st <= Z.of_nat i < st + n -> exists s, m_symbolResources m !! i = Some s /\ free_rbg r s) ->
  exists m', AssignOfdmaRbgDuringSymbolToUe type rnti (Z.of_nat r) st n m = Ok m' /\ m_notchingMask m' = mask /\
    forall i, m_symbolResources m' !! i
      = on_symbols st n (fun s => mkSymbol (sr_beamId s) (<[r := mkEntry rnti type]> (sr_rbgs s))) m i.
Proof.
  intros Em S N R C. apply symbols_fold; [|done..]. intros i m0 s I Em0 Es (e & Ee & Ae).
  rewrite (symbol_at_ok i m0 s Es). cbn [res_bind]. rewrite Em0, Nat2Z.id.
  destruct (lookup_lt_is_Some_2 mask r R) as [bit Hb]. rewrite Hb.
  assert (notch_checked type && negb bit = false) as -> by (destruct (notch_checked type); [|done]; rewrite (C eq_refl) in Hb; by injection Hb as <-).
  cbn [abort_if res_bind]. rewrite Ee, Ae, Z.eqb_refl. cbn [negb abort_if res_bind]. eexists. split; [done|]. by destruct m0, s.
Qed.

(** What an allocation does to the symbols: those from [st] on are of beam [b], and only the RBGs of
    the bitmask change. *)
Definition takes (st n : Z) (bits : nat -> Prop) (m m' : ResourceAssignmentMatrix) : Prop :=
  forall i, if decide (st <= Z.of_nat i < st + n)
            then forall s, m_symbolResources m !! i = Some s -> exists s', m_symbolResources m' !! i = Some s' /\
                   (sr_beamId s' = sr_beamId s) /\ forall r, bits r \/ sr_rbgs s' !! r = sr_rbgs s !! r
            else m_symbolResources m' !! i = m_symbolResources m !! i.

Lemma check_rbgs_ok d mask st n l m :
  m_notchingMask m = mask -> 0 <= st -> 0 <= n -> NoDup l -> (forall r, r ∈ l -> (r < length mask)%nat) ->
  (forall r, m_rbgBitmask d !! r = Some true -> notch_checked (resource_type d) = true -> mask !! r = Some true) ->
  (forall i, st <= Z.of_nat i < st + n -> exists s, m_symbolResources m !! i = Some s /\
     forall r, r ∈ l -> m_rbgBitmask d !! r = Some true -> free_rbg r s) ->
  exists m', res_fold (fun rbg m =>
      if bool_decide (m_rbgBitmask d !! rbg = Some true)
      then AssignOfdmaRbgDuringSymbolToUe (resource_type d) (dci_rnti d) (Z.of_nat rbg) st n m
      else Ok m) l m = Ok m' /\ m_notchingMask m' = mask /\
    takes st n (fun r => m_rbgBitmask d !! r = Some true) m m'.
Proof.
  intros Em S N Nd Lt C. revert m Em. induction Nd as [|r l Nr Nd IH]; intros m Em Fr.
  { exists m. split; [done|]. split; [done|]. intros i. case_decide; [|done]. intros s Es. exists s. auto. }
  cbn [res_fold]. destruct (bool_decide_reflect (m_rbgBitmask d !! r = Some true)) as [B|B].
  - destruct (AssignRbg_ok (resource_type d) (dci_rnti d) r mask st n m Em S N) as (m1 & -> & Em1 & E1).
    + apply Lt. by left.
    + by apply C.
    + intros i Hi. destruct (Fr i Hi) as (s & Es & F). exists s. split; [done|]. apply F; [by left|done].
    + cbn [res_bind]. destruct (IH (fun x Hx => Lt x (list_elem_of_further _ _ _ Hx)) m1 Em1) as (m' & -> & Em' & T).
      { intros i Hi. destruct (Fr i Hi) as (s & Es & F). specialize (E1 i). unfold on_symbols in E1.
        rewrite decide_True, Es in E1 by done. eexists. split; [exact E1|]. intros x Hx Bx.
        destruct (F x ltac:(by right) Bx) as (e & Ee & Ae). exists e. split; [|done]. cbn.
        rewrite list_lookup_insert_ne; [done|]. by intros ->. }
      exists m'. split; [done|]. split; [done|]. intros i. specialize (T i). specialize (E1 i). unfold on_symbols in E1.
      case_decide as D; [|by rewrite T]. intros s Es. rewrite Es in E1.
      destruct (T _ E1) as (s' & Es' & Eb & Er). exists s'. split; [done|]. split; [done|]. intros x.
      destruct (Er x) as [?|Ex]; [by left|]. cbn in Ex. destruct (decide (x = r)) as [->|Nx]; [by left|right].
      by rewrite Ex, list_lookup_insert_ne.
  - cbn [res_bind]. apply IH; [intros x Hx; apply Lt; by right|done|].
    intros i Hi. destruct (Fr i Hi) as (s & Es & F). exists s. split; [done|]. intros x Hx. apply F. by right.
Qed.

(** An allocation changes its symbols only, which are of its beam then, and of those only its RBGs. *)
Definition covers (v : VarTti) (i : nat) : Prop :=
  m_symStart (m_dci v) <= Z.of_nat i < m_symStart (m_dci v) + m_numSym (m_dci v).

Lemma check_alloc_ok mask ueMap v m :
  0 <= m_symStart (m_dci v) -> 0 <= m_numSym (m_dci v) -> length (m_rbgBitmask (m_dci v)) = length mask ->
  (dci_type (m_dci v) = CTRL \/ forall r, m_rbgBitmask (m_dci v) !! r = Some true -> mask !! r = Some true) ->
  m_notchingMask m = mask ->
  (forall i, covers v i -> exists s, m_symbolResources m !! i = Some s /\ has_beam (alloc_beam ueMap v) s /\
     forall r, m_rbgBitmask (m_dci v) !! r = Some true -> free_rbg r s) ->
  exists m', check_alloc ueMap v m = Ok m' /\ m_notchingMask m' = mask /\
    (forall i, covers v i -> exists s s', m_symbolResources m !! i = Some s /\
       m_symbolResources m' !! i = Some s' /\ sr_beamId s' = Some (alloc_beam ueMap v) /\
       forall r, m_rbgBitmask (m_dci v) !! r = Some true \/ sr_rbgs s' !! r = sr_rbgs s !! r) /\
    (forall i, ~ covers v i -> m_symbolResources m' !! i = m_symbolResources m !! i).
Proof.
  intros S N Len Msk Em R. unfold check_alloc. set (st := m_symStart (m_dci v)) in *. set (n := m_numSym (m_dci v)) in *.
  destruct (AssignBeam_ok (alloc_beam ueMap v) mask st n m Em S N) as (m1 & -> & Em1 & E1).
  { intros i Hi. destruct (R i Hi) as (s & Es & Hb & _). by exists s. }
  cbn [res_bind].
  destruct (check_rbgs_ok (m_dci v) mask st n (seq 0 (length (m_rbgBitmask (m_dci v)))) m1 Em1 S N) as (m' & -> & Em' & T).
  - apply NoDup_seq.
  - intros r Hr. rewrite elem_of_seq in Hr. lia.
  - intros r Br Nc. destruct Msk as [Ct|Sub]; [|by apply Sub].
    unfold resource_type in Nc. rewrite Ct in Nc. by destruct (dci_format (m_dci v)).
  - intros i Hi. destruct (R i Hi) as (s & Es & _ & F). specialize (E1 i).
    unfold on_symbols in E1. rewrite decide_True, Es in E1 by done. eexists. split; [exact E1|].
    intros r _ Br. exact (F r Br).
  - exists m'. split; [done|]. split; [done|]. split; intros i Hi; specialize (T i); specialize (E1 i); unfold on_symbols in E1.
    + rewrite decide_True in T by done. rewrite decide_True in E1 by done. destruct (R i Hi) as (s & Es & _). rewrite Es in E1.
      destruct (T _ E1) as (s' & Es' & B' & R'). exists s, s'. by rewrite B'.
    + rewrite decide_False in T by done. rewrite decide_False in E1 by done. by rewrite T.
Qed.

(** ** Layouts *)

(** Two allocations that share no RBG *)
Definition apart (v w : VarTti) : Prop :=
  forall i, m_rbgBitmask (m_dci v) !! i = Some true -> m_rbgBitmask (m_dci w) !! i = Some true -> False.

(** The symbols of [v] are before those of [w]. *)
Definition before (v w : VarTti) : Prop := m_symStart (m_dci v) + m_numSym (m_dci v) <= m_symStart (m_dci w).

Section layout.
Context (beam : Z -> BeamId).
Abbreviation beam_for v := (beam (dci_rnti (m_dci v))).

Definition compatible (v w : VarTti) : Prop :=
  before v w \/ before w v \/ beam_for v = beam_for w /\ apart v w.

Lemma compatible_sym v w : compatible v w -> compatible w v.
Proof.
  intros [?|[?|[E A]]]; [by right; left|by left|right; right]. split; [done|]. intros i Hi Hj. by apply (A i).
Qed.

Context (mask : list bool).

(** An allocation within the slot and the mask; only control ignores the mask. *)
Record placed (v : VarTti) : Prop := {
  pl_start : 0 <= m_symStart (m_dci v);
  pl_num : 0 <= m_numSym (m_dci v);
  pl_end : m_symStart (m_dci v) + m_numSym (m_dci v) <= slot_symbols;
  pl_length : length (m_rbgBitmask (m_dci v)) = length mask;
  pl_mask : dci_type (m_dci v) = CTRL \/ forall i, m_rbgBitmask (m_dci v) !! i = Some true -> mask !! i = Some true
}.

(** What the allocations [l] have left of the matrix *)
Definition matrix_of (l : list VarTti) (m : ResourceAssignmentMatrix) : Prop :=
  m_notchingMask m = mask /\ forall i, Z.of_nat i < slot_symbols -> exists s, m_symbolResources m !! i = Some s /\
    (forall b, sr_beamId s = Some b -> exists v, v ∈ l /\ covers v i /\ beam_for v = b) /\
    forall r, (r < length mask)%nat -> free_rbg r s \/ exists v, v ∈ l /\ covers v i /\ m_rbgBitmask (m_dci v) !! r = Some true.

Lemma covers_both v w i : covers v i -> covers w i -> compatible v w -> beam_for v = beam_for w /\ apart v w.
Proof. unfold covers, compatible, before. intros A B [?|[?|?]]; [lia|lia|done]. Qed.

Lemma check_next_ok ueMap l v m :
  placed v -> Forall (fun w => compatible w v) l -> alloc_beam ueMap v = beam_for v -> matrix_of l m ->
  exists m', check_alloc ueMap v m = Ok m' /\ matrix_of (v :: l) m'.
Proof.
  intros [P1 P2 P3 P5 P6] C B [Em M]. rewrite Forall_forall in C.
  destruct (check_alloc_ok mask ueMap v m P1 P2 P5 P6 Em) as (m' & -> & Em' & In & Out).
  { intros i Hi. destruct (M i) as (s & Es & Sb & Sr); [unfold covers in Hi; lia|]. exists s. split; [done|]. rewrite B. split.
    - destruct (sr_beamId s) as [b|] eqn:Eb; [right|by left]. destruct (Sb b eq_refl) as (w & Hw & Cw & <-).
      rewrite Eb. f_equal. by apply (covers_both w v i Cw Hi (C w Hw)).
    - intros r Br. destruct (Sr r) as [?|(w & Hw & Cw & Bw)]; [rewrite <- P5; by eapply lookup_lt_Some|done|exfalso].
      destruct (covers_both w v i Cw Hi (C w Hw)) as [_ Ap]. by apply (Ap r). }
  exists m'. split; [done|]. split; [done|]. intros i Hi. destruct (M i Hi) as (s & Es & Sb & Sr).
  assert (covers v i \/ ~ covers v i) as [Ci|Ci] by (unfold covers; lia).
  - destruct (In i Ci) as (s0 & s' & Es0 & Es' & Eb & Er). rewrite Es in Es0. injection Es0 as <-. exists s'. split; [done|]. split.
    + intros b. rewrite Eb. intros [= <-]. exists v. rewrite B. split; [by left|done].
    + intros r Hr. destruct (Er r) as [Br|Er']; [right; exists v; split; [by left|done]|].
      destruct (Sr r Hr) as [(e & Ee & Ae)|(w & Hw & ?)]; [left; exists e; by rewrite Er'|right; exists w; split; [by right|done]].
  - rewrite (Out i Ci). exists s. split; [done|]. split.
    + intros b Hb. destruct (Sb b Hb) as (w & Hw & ?). exists w. split; [by right|done].
    + intros r Hr. destruct (Sr r Hr) as [?|(w & Hw & ?)]; [by left|right; exists w; split; [by right|done]].
Qed.

(** A layout passes the check. *)
Lemma layout_checked ueMap l :
  Forall placed l -> ForallOrdPairs compatible l -> Forall (fun v => alloc_beam ueMap v = beam_for v) l ->
  CheckResourceMatrix l ueMap mask slot_symbols = Ok tt.
Proof.
  intros P C B. unfold CheckResourceMatrix.
  assert (forall l0 m, matrix_of l0 m -> Forall (fun v => Forall (fun w => compatible w v) l0) l ->
    exists m', res_fold (check_alloc ueMap) l m = Ok m') as L.
  { induction C as [|v l Cv C IH]; intros l0 m M F; [by exists m|].
    apply Forall_cons in P as [Pv P], B as [Bv B], F as [Fv F]. cbn [res_fold].
    destruct (check_next_ok ueMap l0 v m Pv Fv Bv M) as (m' & -> & M'). cbn [res_bind].
    apply (IH P B (v :: l0) m' M'). apply Forall_forall. intros w Hw. rewrite Forall_forall in Cv, F. constructor; [by apply Cv|by apply F]. }
  destruct (L [] (new_matrix mask slot_symbols)) as (m' & ->); [|by apply Forall_true|done].
  split; [done|]. intros i Hi. eexists. split.
  - unfold new_matrix. cbn. apply lookup_replicate. split; [done|]. unfold slot_symbols in *. lia.
  - split; [done|]. intros r Hr. left. cbn. eexists. split; [by apply lookup_replicate|done].
Qed.
End layout.
