(* ===== verification/UlTiling.v ===== *)
(** The shape of an uplink slot: groups of allocations, each a block of whole symbols, laid one
    below the other from the end of the slot.  Such a slot passes the check of the resource
    matrix, and its symbols add up. *)
From Stdlib Require Import ZArith Lia Lists.List.
From stdpp Require Import base list gmap strings list_numbers.
From coqutil Require Import Datatypes.RecordSettersUsingExistingGetters.
From S2P Require Import Prelude UlScheduler Amc DlUe Dci Harq MacScheduler ResourceMatrix SlotLayout UlSlot.
Open Scope Z_scope.

Section tiling.
Context (beam : Z -> BeamId) (mask : list bool) (entry_ok : VarTti -> Prop).

(** An allocation of [n] symbols from [st], in the beam [b]; only control ignores the mask. *)
Record alloc_in (st n : Z) (b : BeamId) (v : VarTti) : Prop := {
  ai_start : m_symStart (m_dci v) = st;
  ai_num : m_numSym (m_dci v) = n;
  ai_ul : dci_format (m_dci v) = UL;
  ai_beam : beam (dci_rnti (m_dci v)) = b;
  ai_omni : m_isOmni v = false;
  ai_length : length (m_rbgBitmask (m_dci v)) = length mask;
  ai_mask : dci_type (m_dci v) = CTRL \/ forall i, m_rbgBitmask (m_dci v) !! i = Some true -> mask !! i = Some true;
  ai_entry : entry_ok v
}.

Inductive tiling : Z -> list VarTti -> Prop :=
| tiling_end : tiling slot_symbols []
| tiling_group st n b g rest :
    0 <= st -> 1 <= n -> g <> [] -> Forall (alloc_in st n b) g -> ForallOrdPairs apart g ->
    tiling (st + n) rest -> tiling st (g ++ rest).

Lemma tiling_one st n b v rest :
  0 <= st -> 1 <= n -> alloc_in st n b v -> tiling (st + n) rest -> tiling st (v :: rest).
Proof.
  intros S N A T. apply (tiling_group st n b [v] rest); [done..|by constructor|by repeat constructor|done].
Qed.

Lemma tiling_range st l : tiling st l -> 0 <= st <= slot_symbols.
Proof. induction 1; unfold slot_symbols in *; lia. Qed.

Lemma tiling_starts st l : tiling st l -> forall v, v ∈ l -> st <= m_symStart (m_dci v).
Proof.
  induction 1 as [|st n b g rest S N Ne F A T IH]; intros v Hv; [by apply elem_of_nil in Hv|].
  apply elem_of_app in Hv as [Hv|Hv]; [|specialize (IH v Hv); lia]. rewrite Forall_forall in F. rewrite (ai_start _ _ _ _ (F v Hv)). lia.
Qed.

End tiling.

(** The entries may satisfy less. *)
Lemma tiling_weaken beam mask (P Q : VarTti -> Prop) st l :
  (forall v, P v -> Q v) -> tiling beam mask P st l -> tiling beam mask Q st l.
Proof.
  intros I T. induction T as [|st n b g rest S N Ne F D T IH]; [constructor|].
  apply (tiling_group _ _ _ st n b); [done..| |done|done].
  eapply Forall_impl; [exact F|]. intros v []. split; auto.
Qed.

Lemma tiling_entries beam mask P st l : tiling beam mask P st l -> Forall P l.
Proof.
  induction 1 as [|st n b g rest S N Ne F D T IH]; [constructor|]. apply Forall_app. split; [|done].
  eapply Forall_impl; [exact F|]. by intros v [].
Qed.

Lemma tiling_each beam mask P st l :
  tiling beam mask P st l -> Forall (fun v => 1 <= m_numSym (m_dci v) /\ length (m_rbgBitmask (m_dci v)) = length mask) l.
Proof.
  induction 1 as [|st n b g rest S N Ne F D T IH]; [constructor|]. apply Forall_app. split; [|done].
  eapply Forall_impl; [exact F|]. intros v []. split; [lia|done].
Qed.

Lemma tiling_ul beam mask P st l : tiling beam mask P st l -> Forall (fun v => dci_format (m_dci v) = UL) l.
Proof.
  induction 1 as [|st n b g rest S N Ne F D T IH]; [constructor|]. apply Forall_app. split; [|done].
  eapply Forall_impl; [exact F|]. by intros v [].
Qed.

(** ** The symbols add up *)

Definition zsum (l : list Z) : Z := foldr Z.add 0 l.

Lemma zsum_insert l i x y : l !! i = Some y -> zsum (<[i := x]> l) = zsum l + x - y.
Proof.
  revert i. induction l as [|z l IH]; intros [|i] E; [done|done| |].
  - injection E as ->. cbn. lia.
  - change (z + zsum (<[i := x]> l) = z + zsum l + x - y). rewrite IH by exact E. lia.
Qed.

(** What recording a slot does to symToAl, whose entries from [st] on are 0 *)
Lemma to_al_in beam mask P st n b v syms y :
  alloc_in beam mask P st n b v -> syms !! Z.to_nat st = Some y -> to_al v syms = Ok (<[Z.to_nat st := n]> syms).
Proof. intros [A1 A2 A3 _ _ _ _ _] E. unfold to_al. by rewrite A1, A2, A3, E, bool_decide_true. Qed.

Lemma to_al_group beam mask P st n b g syms y :
  Forall (alloc_in beam mask P st n b) g -> g <> [] -> syms !! Z.to_nat st = Some y ->
  res_fold to_al g syms = Ok (<[Z.to_nat st := n]> syms).
Proof.
  intros F. revert syms y. induction F as [|v g A F IH]; intros syms y Ne E; [done|]. cbn [res_fold].
  rewrite (to_al_in _ _ _ _ _ _ _ _ _ A E). cbn [res_bind]. destruct g as [|w g]; [done|].
  rewrite (IH _ n); [by rewrite list_insert_insert_eq|done|].
  apply list_lookup_insert_eq. by eapply lookup_lt_Some.
Qed.

Lemma sym_to_al_ok beam mask P st l syms :
  tiling beam mask P st l -> length syms = 15%nat ->
  (forall i, st <= Z.of_nat i -> (i < 15)%nat -> syms !! i = Some 0) ->
  exists syms', res_fold to_al l syms = Ok syms' /\
    zsum syms' = zsum syms + (slot_symbols - st) /\ (Forall (fun n => 0 <= n) syms -> Forall (fun n => 0 <= n) syms').
Proof.
  intros T. revert syms. induction T as [|st n b g rest S N Ne F D T IH]; intros syms L Z0.
  { exists syms. split; [done|]. split; [lia|done]. }
  pose proof (tiling_range _ _ _ _ _ T) as [_ R]. unfold slot_symbols in R.
  rewrite res_fold_app, (to_al_group _ _ _ _ _ _ _ _ 0 F Ne) by (apply Z0; lia). cbn [res_bind].
  destruct (IH (<[Z.to_nat st := n]> syms)) as (syms' & -> & Sm & Nn).
  - by rewrite length_insert.
  - intros i Hi Li. rewrite list_lookup_insert_ne by lia. apply Z0; lia.
  - exists syms'. split; [done|]. rewrite Sm, (zsum_insert _ _ _ 0) by (apply Z0; lia). split; [lia|].
    intros Fn. apply Nn. apply Forall_insert; [done|lia].
Qed.

Lemma zsum_nonneg l : Forall (fun n => 0 <= n) l -> 0 <= zsum l.
Proof. induction 1 as [|n l N F IH]; [done|]. change (0 <= n + zsum l). lia. Qed.

Lemma u8_total t l :
  0 <= t -> Forall (fun n => 0 <= n) l -> t + zsum l < 256 -> foldl (fun t v => u8 (t + v)) t l = t + zsum l.
Proof.
  intros T F. revert t T. induction F as [|n l N F IH]; intros t T S; [cbn; lia|].
  change (zsum (n :: l)) with (n + zsum l) in *. cbn [foldl]. pose proof (zsum_nonneg l F).
  rewrite wrap_small by (unfold fits; lia). rewrite IH; lia.
Qed.

(** The final assertion of DoScheduleUl *)
Lemma record_ul_ok beam mask P st l allSym ulSymAvail :
  tiling beam mask P st l -> allSym - ulSymAvail = slot_symbols - st ->
  record_ul allSym ulSymAvail l (mkSlotElem 0 []) = Ok (mkSlotElem (slot_symbols - st) (data_allocs l)).
Proof.
  intros T E. unfold record_ul, sym_to_al. pose proof (tiling_range _ _ _ _ _ T) as [S0 S1].
  destruct (sym_to_al_ok beam mask P st l (replicate 15 0) T) as (syms & -> & Sm & Nn);
    [by rewrite length_replicate|intros i _ Hi; by apply lookup_replicate|].
  cbn [res_bind m_totUlSym m_ulAllocations]. rewrite u8_total; [|done|apply Nn; repeat constructor; done|].
  - rewrite Sm. change (zsum (replicate 15 0)) with 0. rewrite E, (proj2 (Z.eqb_eq _ _)) by lia. done.
  - rewrite Sm. change (zsum (replicate 15 0)) with 0. unfold slot_symbols in *. lia.
Qed.

(** ** The layout *)

Lemma alloc_in_placed beam mask P st n b v :
  0 <= st -> 0 <= n -> st + n <= slot_symbols -> alloc_in beam mask P st n b v -> placed mask v.
Proof. intros S N E [A1 A2 _ _ _ A6 A7 _]. split; rewrite ?A1, ?A2; done. Qed.

(** A tiling is a layout. *)
Lemma tiling_layout beam mask P st l :
  tiling beam mask P st l ->
  Forall (placed mask) l /\ ForallOrdPairs (compatible beam) l /\ Forall (fun v => st <= m_symStart (m_dci v)) l.
Proof.
  induction 1 as [|st n b g rest S N Ne F D T (IH1 & IH2 & IH3)]; [by repeat constructor|].
  pose proof (tiling_range _ _ _ _ _ T) as R. split; [|split].
  - apply Forall_app. split; [|done]. eapply Forall_impl; [exact F|]. intros v. by apply alloc_in_placed; [|lia|apply R].
  - clear Ne. induction D as [|v g Dv D IH]; [done|]. apply Forall_cons in F as [A F]. cbn. constructor; [|by apply IH].
    apply Forall_app. split.
    + apply Forall_forall. intros w Hw. rewrite Forall_forall in Dv, F. right. right. split; [|by apply Dv].
      by rewrite (ai_beam _ _ _ _ _ _ _ A), (ai_beam _ _ _ _ _ _ _ (F w Hw)).
    + eapply Forall_impl; [exact IH3|]. intros w Hw. left. unfold before. rewrite (ai_start _ _ _ _ _ _ _ A), (ai_num _ _ _ _ _ _ _ A). exact Hw.
  - apply Forall_app. split.
    + eapply Forall_impl; [exact F|]. intros v A. rewrite (ai_start _ _ _ _ _ _ _ A). lia.
    + eapply Forall_impl; [exact IH3|]. cbn. intros v. lia.
Qed.

(** A tiling passes the check. *)
Lemma tiling_checked beam P mask ueMap st l :
  tiling beam mask P st l -> Forall (fun v => alloc_beam ueMap v = beam (dci_rnti (m_dci v))) l ->
  CheckResourceMatrix l ueMap mask slot_symbols = Ok tt.
Proof. intros T B. destruct (tiling_layout _ _ _ _ _ T) as (L1 & L2 & _). by apply (layout_checked beam). Qed.
