(* ===== verification/HarqFacts.v ===== *)
(** The HARQ processes of the UEs in one direction: what the expiry of processes and the HARQ feedback
    at the start of a slot do to them.  [dci_ok] is what the DCIs of that direction satisfy. *)
From Stdlib Require Import ZArith Lia.
From stdpp Require Import base list gmap strings list_numbers.
From coqutil Require Import Datatypes.RecordSettersUsingExistingGetters.
From S2P Require Import Prelude UlScheduler Amc DlUe Dci LogicalChannels LcProps Harq MacScheduler.
Open Scope Z_scope.

(** ** Relations between stores of UEs *)

Definition ues_rel (R : nat -> SchedUe -> SchedUe -> Prop) (m m' : gmap nat SchedUe) : Prop :=
  forall k, option_Forall2 (R k) (m !! k) (m' !! k).

Lemma ues_rel_refl (R : nat -> SchedUe -> SchedUe -> Prop) m : (forall k ue, R k ue ue) -> ues_rel R m m.
Proof. intros I k. destruct (m !! k); constructor; auto. Qed.

Lemma ues_rel_trans (R : nat -> SchedUe -> SchedUe -> Prop) m m' m'' :
  (forall k u v w, R k u v -> R k v w -> R k u w) -> ues_rel R m m' -> ues_rel R m' m'' -> ues_rel R m m''.
Proof. intros T A B k. specialize (A k). specialize (B k). destruct A; inversion B; subst; constructor. eauto. Qed.

Lemma ues_rel_weaken (R S : nat -> SchedUe -> SchedUe -> Prop) m m' :
  (forall k u v, R k u v -> S k u v) -> ues_rel R m m' -> ues_rel S m m'.
Proof. intros I A k. specialize (A k). destruct A; constructor; auto. Qed.

Lemma ues_rel_insert (R : nat -> SchedUe -> SchedUe -> Prop) m m' k ue ue' :
  ues_rel R m m' -> m !! k = Some ue -> R k ue ue' -> ues_rel R m (<[k := ue']> m').
Proof.
  intros A E H j. destruct (decide (j = k)) as [->|Ne].
  - rewrite lookup_insert_eq, E. by constructor.
  - rewrite lookup_insert_ne by done. apply A.
Qed.

Lemma ues_rel_lookup (R : nat -> SchedUe -> SchedUe -> Prop) m m' k ue :
  ues_rel R m m' -> m !! k = Some ue -> exists ue', m' !! k = Some ue' /\ R k ue ue'.
Proof. intros A E. specialize (A k). rewrite E in A. inversion A; subst. eauto. Qed.

Lemma ues_rel_lookup_r (R : nat -> SchedUe -> SchedUe -> Prop) m m' k ue' :
  ues_rel R m m' -> m' !! k = Some ue' -> exists ue, m !! k = Some ue /\ R k ue ue'.
Proof. intros A E. specialize (A k). rewrite E in A. inversion A; subst. eauto. Qed.

Lemma ues_rel_forall (R : nat -> SchedUe -> SchedUe -> Prop) (P : nat -> SchedUe -> Prop) m m' :
  ues_rel R m m' -> map_Forall P m -> (forall k u v, R k u v -> P k u -> P k v) -> map_Forall P m'.
Proof. intros A F I k ue' E. destruct (ues_rel_lookup_r R m m' k ue' A E) as (ue & E' & H). eauto. Qed.

(** A loop over the UEs *)
Lemma each_ue_ok `{CppHash, !CppHashLaws} (R : nat -> SchedUe -> SchedUe -> Prop) f m :
  (forall k ue, m !! k = Some ue -> exists ue', f ue = Ok ue' /\ R k ue ue') ->
  exists m', each_ue f m = Ok m' /\ ues_rel R m m'.
Proof.
  intros F. unfold each_ue. set (l := (hashed (map_to_list m)).*1).
  assert (NoDup l) as Nd by (unfold l; rewrite hashed_perm; apply NoDup_fst_map_to_list).
  assert (forall k, is_Some (m !! k) -> k ∈ l) as All.
  { intros k [ue E]. unfold l. rewrite hashed_perm. apply list_elem_of_fmap. exists (k, ue). split; [done|].
    by apply elem_of_map_to_list. }
  assert (forall m0 : gmap nat SchedUe, (forall k, k ∈ l -> m0 !! k = m !! k) -> exists m' : gmap nat SchedUe, res_fold (fun k (m : gmap nat SchedUe) =>
      match m !! k with None => Ok m | Some ue => let* ue := f ue in Ok (<[k := ue]> m) end) l m0 = Ok m' /\
      forall k, if decide (k ∈ l) then option_Forall2 (R k) (m !! k) (m' !! k) else m' !! k = m0 !! k) as L.
  { clear All. induction Nd as [|k l Nk Nd IH]; intros m0 E0.
    { exists m0. split; [done|]. intros k. by rewrite decide_False by apply not_elem_of_nil. }
    cbn [res_fold]. rewrite (E0 k) by (by left). destruct (m !! k) as [ue|] eqn:E.
    - destruct (F k ue E) as (ue' & -> & H'). cbn [res_bind].
      destruct (IH (<[k := ue']> m0)) as (m' & -> & E').
      { intros j Hj. rewrite lookup_insert_ne; [apply E0; by right|]. by intros ->. }
      exists m'. split; [done|]. intros j. specialize (E' j). destruct (decide (j = k)) as [->|Ne].
      + rewrite decide_True by (by left). rewrite decide_False in E' by done.
        rewrite E', lookup_insert_eq, E. by constructor.
      + rewrite lookup_insert_ne in E' by done.
        destruct (decide (j ∈ l)); [rewrite decide_True by (by right)|rewrite decide_False by set_solver]; done.
    - cbn [res_bind]. destruct (IH m0) as (m' & -> & E'); [intros j Hj; apply E0; by right|].
      exists m'. split; [done|]. intros j. specialize (E' j). destruct (decide (j = k)) as [->|Ne].
      + rewrite decide_True by (by left). rewrite decide_False in E' by done. rewrite E', (E0 k), E by (by left). constructor.
      + destruct (decide (j ∈ l)); [rewrite decide_True by (by right)|rewrite decide_False by set_solver]; done. }
  destruct (L m ltac:(done)) as (m' & -> & E). exists m'. split; [done|]. intros k. specialize (E k).
  destruct (m !! k) as [ue|] eqn:Ek.
  - rewrite decide_True in E by (apply All; by eexists). done.
  - case_decide; [done|]. rewrite E. constructor.
Qed.

(** ** Feedback *)

Definition fb_key (fb : HarqInfo) : Z * Z := (fb.(fb_rnti), fb.(fb_process)).

Lemma fb_key_ne fb fb' : 0 <= fb.(fb_rnti) -> 0 <= fb'.(fb_rnti) -> fb_key fb <> fb_key fb' ->
  (ue_key fb.(fb_rnti), fb.(fb_process)) <> (ue_key fb'.(fb_rnti), fb'.(fb_process)).
Proof. unfold fb_key, ue_key. intros A B Ne [= E1 E2]. apply Ne. f_equal; lia. Qed.

Lemma maxHarqReTx_range conf : 0 <= maxHarqReTx conf <= 3.
Proof. unfold maxHarqReTx. destruct (m_enableHarqReTx conf); lia. Qed.

Lemma find_ue_ok rnti m ue : m !! ue_key rnti = Some ue -> find_ue rnti m = Ok ue.
Proof. unfold find_ue. by intros ->. Qed.

Lemma harq_get_ok id v p : procs v !! id = Some p -> harq_get id v = Ok p.
Proof. unfold harq_get. by intros ->. Qed.

Lemma aged_young N p :
  hp_status p <> INACTIVE -> hp_timer p < N ->
  hp_active (aged N p) = hp_active p /\ m_dciElement (aged N p) = m_dciElement p.
Proof. intros S T. unfold aged. rewrite decide_False by done. rewrite (proj2 (Z.ltb_lt _ _)) by done. by destruct p. Qed.

Section side.
Context (dir : Mode).

Lemma harq_set_harq v ue : harq_of dir (set_harq dir v ue) = v.
Proof. by destruct dir. Qed.
Lemma set_harq_twice v w ue : set_harq dir v (set_harq dir w ue) = set_harq dir v ue.
Proof. by destruct dir, ue. Qed.
Lemma set_harq_id ue : set_harq dir (harq_of dir ue) ue = ue.
Proof. by destruct dir, ue. Qed.

(** The process [id] of the UE [k] *)
Definition proc_of (m : gmap nat SchedUe) (k : nat) (id : Z) : option HarqProcess :=
  m !! k ≫= fun ue => procs (harq_of dir ue) !! id.

Lemma proc_of_Some m k id p :
  proc_of m k id = Some p <-> exists ue, m !! k = Some ue /\ procs (harq_of dir ue) !! id = Some p.
Proof. unfold proc_of. destruct (m !! k); cbn; naive_solver. Qed.

(** Data waits for its feedback in the process its DCI names. *)
Definition grant_waits (m : gmap nat SchedUe) (v : VarTti) : Prop :=
  dci_type (m_dci v) = DATA ->
  exists p, proc_of m (ue_key (dci_rnti (m_dci v))) (m_harqProcess (m_dci v)) = Some p /\ hp_active p = true /\
    hp_status p = WAITING_FEEDBACK /\ hp_timer p = 0 /\ m_dciElement p = Some (m_dci v).

(** Processes that wait for feedback are left alone. *)
Definition waits_kept (m m' : gmap nat SchedUe) : Prop :=
  forall k id p, proc_of m k id = Some p -> hp_active p = true -> hp_status p = WAITING_FEEDBACK -> proc_of m' k id = Some p.

Lemma waits_kept_refl m : waits_kept m m.
Proof. by intros k id p. Qed.
Lemma waits_kept_trans m m' m'' : waits_kept m m' -> waits_kept m' m'' -> waits_kept m m''.
Proof. unfold waits_kept. eauto. Qed.
Lemma waits_kept_same m m' : (forall k id, proc_of m' k id = proc_of m k id) -> waits_kept m m'.
Proof. intros E k id p Ep _ _. by rewrite E. Qed.

Lemma grant_waits_kept m m' v : waits_kept m m' -> grant_waits m v -> grant_waits m' v.
Proof. intros K G T. destruct (G T) as (p & P & A & S & Q). exists p. split; [by apply K|done]. Qed.

(** Only the process [id] of the UE [k] is replaced, and it was not waiting. *)
Lemma waits_kept_proc m m' k id p :
  proc_of m k id = Some p -> (hp_active p = true -> hp_status p <> WAITING_FEEDBACK) ->
  (forall k' id', (k', id') <> (k, id) -> proc_of m' k' id' = proc_of m k' id') -> waits_kept m m'.
Proof.
  intros E N F k' id' q Eq A S. destruct (decide ((k', id') = (k, id))) as [[= -> ->]|Ne]; [|by rewrite F].
  rewrite E in Eq. injection Eq as <-. by destruct (N A).
Qed.

Context (dci_ok : nat -> Dci -> Prop).

(** The vector of a UE, with [R] retransmissions at most *)
Record side_wf (R : Z) (k : nat) (ue : SchedUe) : Prop := {
  si_harq : harq_wf R (harq_of dir ue);
  si_procs : forall id p d, procs (harq_of dir ue) !! id = Some p -> hp_active p = true ->
               m_dciElement p = Some d -> dci_ok k d
}.

(** Only the processes of a UE change. *)
Definition only_harq (_ : nat) (ue ue' : SchedUe) : Prop :=
  exists v, ue' = set_harq dir v ue /\ v.(m_maxSize) = (harq_of dir ue).(m_maxSize).

Lemma only_harq_refl k ue : only_harq k ue ue.
Proof. exists (harq_of dir ue). by rewrite set_harq_id. Qed.
Lemma only_harq_trans k u v w : only_harq k u v -> only_harq k v w -> only_harq k u w.
Proof.
  intros (a & -> & A) (b & -> & B). exists b. rewrite set_harq_twice. split; [done|].
  by rewrite B, harq_set_harq.
Qed.
Lemma only_harqs_trans m m' m'' : ues_rel only_harq m m' -> ues_rel only_harq m' m'' -> ues_rel only_harq m m''.
Proof. apply ues_rel_trans, only_harq_trans. Qed.
Lemma only_harqs_refl m : ues_rel only_harq m m.
Proof. apply ues_rel_refl, only_harq_refl. Qed.

(** Feedback for a process of a UE that is there, for an active process, and negative feedback whose
    process waits to be sent again *)
Definition known (m : gmap nat SchedUe) (fb : HarqInfo) : Prop :=
  0 <= fb.(fb_rnti) /\ exists ue, m !! ue_key fb.(fb_rnti) = Some ue /\ 0 <= fb.(fb_process) < (harq_of dir ue).(m_maxSize).
Definition live (m : gmap nat SchedUe) (fb : HarqInfo) : Prop :=
  0 <= fb.(fb_rnti) /\ exists p, proc_of m (ue_key fb.(fb_rnti)) fb.(fb_process) = Some p /\ hp_active p = true.
Definition ready (R : Z) (m : gmap nat SchedUe) (fb : HarqInfo) : Prop :=
  IsReceivedOk fb = false /\ 0 <= fb.(fb_rnti) /\
  exists p d, proc_of m (ue_key fb.(fb_rnti)) fb.(fb_process) = Some p /\ hp_active p = true /\
    hp_status p = RECEIVED_FEEDBACK /\ m_dciElement p = Some d /\ 0 <= m_rv d < R.

(** A process of a vector that is replaced keeps the rest in order. *)
Lemma procs_insert_ok k (m : gmap Z HarqProcess) i q :
  (forall id p d, m !! id = Some p -> hp_active p = true -> m_dciElement p = Some d -> dci_ok k d) ->
  (hp_active q = true -> forall d, m_dciElement q = Some d -> dci_ok k d) ->
  forall id p d, <[i := q]> m !! id = Some p -> hp_active p = true -> m_dciElement p = Some d -> dci_ok k d.
Proof.
  intros F Q id p d. destruct (decide (id = i)) as [->|Ne].
  - rewrite lookup_insert_eq. intros [= <-]. auto.
  - rewrite lookup_insert_ne by done. apply F.
Qed.

(** A UE whose vector has one process replaced *)
Lemma put_side_ok R m k ue v id q :
  map_Forall (side_wf R) m -> m !! k = Some ue -> harq_wf R v -> v.(m_maxSize) = (harq_of dir ue).(m_maxSize) ->
  procs v = <[id := q]> (procs (harq_of dir ue)) -> (hp_active q = true -> forall d, m_dciElement q = Some d -> dci_ok k d) ->
  let m1 := <[k := set_harq dir v ue]> m in
  map_Forall (side_wf R) m1 /\ ues_rel only_harq m m1 /\ proc_of m1 k id = Some q /\
  forall k' id', (k', id') <> (k, id) -> proc_of m1 k' id' = proc_of m k' id'.
Proof.
  intros W E Wv Mv Pv Q m1. split; [|split; [|split]].
  - apply map_Forall_insert_2; [|done]. split; rewrite harq_set_harq; [done|]. rewrite Pv.
    apply procs_insert_ok; [apply (si_procs _ _ _ (W k ue E))|done].
  - eapply ues_rel_insert; [apply only_harqs_refl|exact E|]. by exists v.
  - unfold proc_of, m1. rewrite lookup_insert_eq. cbn. by rewrite harq_set_harq, Pv, lookup_insert_eq.
  - intros k' id' Ne. unfold proc_of, m1. destruct (decide (k' = k)) as [->|Nk].
    + rewrite lookup_insert_eq, E. cbn. rewrite harq_set_harq, Pv, lookup_insert_ne; [done|]. by intros ->.
    + by rewrite lookup_insert_ne.
Qed.

Section feedback.
Context `{CppHash, !CppHashLaws} (conf : SchedConf).
Abbreviation R := (maxHarqReTx conf).

(** Expiry *)
Lemma expire_side m :
  0 <= conf.(GetNumHarqProcess) <= 255 -> map_Forall (side_wf R) m ->
  exists m', each_ue (fun ue =>
      let* v := ResetExpiredHARQ conf.(GetNumHarqProcess) (harq_of dir ue) in Ok (set_harq dir v ue)) m = Ok m' /\
    map_Forall (side_wf R) m' /\ ues_rel only_harq m m' /\
    forall k id, proc_of m' k id = aged conf.(GetNumHarqProcess) <$> proc_of m k id.
Proof.
  intros N W. set (Q := fun k ue ue' => side_wf R k ue' /\ only_harq k ue ue' /\
    procs (harq_of dir ue') = aged conf.(GetNumHarqProcess) <$> procs (harq_of dir ue)).
  destruct (each_ue_ok Q (fun ue => let* v := ResetExpiredHARQ conf.(GetNumHarqProcess) (harq_of dir ue) in
    Ok (set_harq dir v ue)) m) as (m' & E & Rl).
  - intros k ue Ek. destruct (W k ue Ek) as [Wh Wp].
    destruct (ResetExpiredHARQ_ok _ conf.(GetNumHarqProcess) _ N Wh) as (v & -> & Wv & Mv & Pv).
    cbn [res_bind]. eexists. split; [done|]. split; [|split; [by exists v|by rewrite harq_set_harq]].
    split; rewrite harq_set_harq; [done|]. intros id p d. rewrite Pv, lookup_fmap. intros (q & Eq & ->)%fmap_Some.
    unfold aged. case_decide; [by apply (Wp id)|]. destruct (_ <? _); [|done].
    intros Ap Ed. apply (Wp id q d Eq); by destruct q.
  - exists m'. split; [done|]. split; [|split].
    + intros k ue' E'. by destruct (ues_rel_lookup_r _ _ _ _ _ Rl E') as (ue & _ & ? & _).
    + eapply ues_rel_weaken; [|exact Rl]. by intros k u v (_ & ? & _).
    + intros k id. unfold proc_of. specialize (Rl k). destruct Rl as [ue ue' (_ & _ & P)|]; [|done]. cbn. by rewrite P, lookup_fmap.
Qed.

(** What is kept of the feedback: that of active processes, once per process in the downlink *)
Lemma live_feedback_ok m seen l :
  map_Forall (side_wf R) m -> Forall (known m) l -> (dir = UL -> NoDup (fb_key <$> l)) ->
  exists l', live_feedback dir seen l m = Ok l' /\ l' `sublist_of` l /\ Forall (live m) l' /\ NoDup (fb_key <$> l') /\
    (dir = DL -> Forall (fun fb => fb_key fb ∉ seen) l') /\
    forall fb, fb ∈ l -> live m fb -> fb ∈ l' \/ dir = DL /\ (fb_key fb ∈ seen \/ fb_key fb ∈ fb_key <$> l').
Proof.
  intros W F. revert seen. induction F as [|fb l (R0 & ue & E & I) F IH]; intros seen Nd; cbn [live_feedback].
  { exists []. split_and!; try done; [constructor|by intros fb ?%elem_of_nil]. }
  rewrite (find_ue_ok _ _ _ E). cbn [res_bind].
  destruct (proj2 (wf_ids _ _ (si_harq _ _ _ (W _ ue E)) fb.(fb_process)) I) as [p Ep].
  rewrite (harq_get_ok _ _ _ Ep). cbn [res_bind].
  assert (proc_of m (ue_key (fb_rnti fb)) (fb_process fb) = Some p) as Pa by (apply proc_of_Some; by exists ue).
  assert (dir = UL -> NoDup (fb_key <$> l)) as Nd'.
  { intros U. specialize (Nd U). by apply NoDup_cons in Nd as [_ Nd]. }
  destruct (hp_active p) eqn:A; cbn [negb].
  2:{ destruct (IH seen Nd') as (l' & -> & S & L & N & Sn & K). exists l'. split_and!; [done|by constructor|done..|].
      intros x [->|Hx]%elem_of_cons Lx; [|auto]. destruct Lx as (_ & q & Eq & Aq). congruence. }
  destruct (bool_decide (dir = DL) && bool_decide ((fb_rnti fb, fb_process fb) ∈ seen)) eqn:Dup.
  - apply andb_true_iff in Dup as [D%bool_decide_eq_true Sx%bool_decide_eq_true].
    destruct (IH seen Nd') as (l' & -> & S & L & N & Sn & K). exists l'. split_and!; [done|by constructor|done..|].
    intros x [->|Hx]%elem_of_cons Lx; [right; split; [done|by left]|auto].
  - destruct (IH (fb_key fb :: seen) Nd') as (l' & El & S & L & N & Sn & K). change (fb_rnti fb, fb_process fb) with (fb_key fb) in *.
    rewrite El. cbn [res_bind]. exists (fb :: l'). split_and!; [done|by constructor|constructor; [by split; [|exists p]|done]|..].
    + cbn. apply NoDup_cons. split; [|done]. intros Hin. destruct dir eqn:D.
      * specialize (Sn eq_refl). apply list_elem_of_fmap in Hin as (x & Ex & Hx). rewrite Forall_forall in Sn.
        apply (Sn x Hx). rewrite <- Ex. by left.
      * specialize (Nd eq_refl). apply NoDup_cons in Nd as [Nd _]. apply Nd. eapply elem_of_sublist; [exact Hin|].
        by apply fmap_sublist.
    + intros D. specialize (Sn D). rewrite (bool_decide_true _ D) in Dup. apply bool_decide_eq_false in Dup.
      constructor; [done|]. eapply Forall_impl; [exact Sn|]. cbn. set_solver.
    + intros x [->|Hx]%elem_of_cons Lx; [left; by left|]. destruct (K x Hx Lx) as [?|[D [Hs|?]]]; [left; by right| |].
      * right. split; [done|]. apply elem_of_cons in Hs as [->|Hs]; [right; by left|by left].
      * right. split; [done|]. right. by right.
Qed.

(** The DCI of a live process *)
Lemma live_process m fb :
  map_Forall (side_wf R) m -> live m fb ->
  exists ue p d, m !! ue_key fb.(fb_rnti) = Some ue /\ procs (harq_of dir ue) !! fb.(fb_process) = Some p /\
    hp_active p = true /\ hp_status p <> INACTIVE /\ 0 <= hp_timer p <= 255 /\ m_dciElement p = Some d /\
    m_harqProcess d = fb.(fb_process) /\ 0 <= m_rv d <= R /\ dci_ok (ue_key fb.(fb_rnti)) d /\ harq_wf R (harq_of dir ue).
Proof.
  intros W (R0 & p & (ue & E & Ep)%proc_of_Some & A). destruct (W _ ue E) as [Wh Wd].
  pose proof (wf_procs _ _ Wh _ _ Ep) as [T Wp]. rewrite A in Wp. destruct Wp as (St & d & Ed & Hd & Rv).
  pose proof (Wd _ _ _ Ep A Ed). exists ue, p, d. split_and!; try done; lia.
Qed.

(** What is needed of a process to send it again *)
Lemma ready_side m fb :
  map_Forall (side_wf R) m -> ready R m fb ->
  exists ue p d, m !! ue_key fb.(fb_rnti) = Some ue /\ procs (harq_of dir ue) !! fb.(fb_process) = Some p /\
    hp_active p = true /\ hp_status p = RECEIVED_FEEDBACK /\ m_dciElement p = Some d /\ m_harqProcess d = fb.(fb_process) /\
    0 <= m_rv d < R /\ dci_ok (ue_key fb.(fb_rnti)) d.
Proof.
  intros W (Nok & R0 & p & d & Pa & A & St & Ed & Rv).
  destruct (live_process m fb W) as (ue & p' & d' & E & Ep & _ & _ & _ & Ed' & Hd & _ & Dk & _); [by split; [|exists p]|].
  assert (p' = p) as -> by (apply proc_of_Some in Pa as (ue' & E' & Ep'); rewrite E in E'; injection E' as <-; congruence).
  rewrite Ed in Ed'. injection Ed' as <-. by exists ue, p, d.
Qed.

(** Feedback of other processes stays ready. *)
Lemma ready_frame m m' fb l :
  fb_key fb ∉ fb_key <$> l -> 0 <= fb.(fb_rnti) ->
  (forall k id, (k, id) <> (ue_key fb.(fb_rnti), fb.(fb_process)) -> proc_of m' k id = proc_of m k id) ->
  Forall (ready R m) l -> Forall (ready R m') l.
Proof.
  intros Nf R0 F. intros L. apply Forall_forall. intros x Hx. rewrite Forall_forall in L.
  destruct (L x Hx) as (Nok & R1 & p & d & Pa & Q). split; [done|]. split; [done|]. exists p, d. split; [|done].
  rewrite F; [done|]. apply fb_key_ne; [done..|]. intros Ek. apply Nf. rewrite <- Ek. by apply list_elem_of_fmap_2.
Qed.

(** Processes that no feedback of [l] is for stay as they are. *)
Definition frame_of (l : list HarqInfo) (m m' : gmap nat SchedUe) : Prop :=
  forall k id, (Z.of_nat k, id) ∉ fb_key <$> l -> proc_of m' k id = proc_of m k id.

Lemma frame_cons fb l m m1 m' :
  0 <= fb.(fb_rnti) ->
  (forall k id, (k, id) <> (ue_key fb.(fb_rnti), fb.(fb_process)) -> proc_of m1 k id = proc_of m k id) ->
  frame_of l m1 m' -> frame_of (fb :: l) m m'.
Proof.
  intros R0 F1 F2 k id Nk. cbn in Nk. apply not_elem_of_cons in Nk as [Ne Nk]. rewrite F2, F1; [done| |done].
  intros [= -> ->]. apply Ne. unfold fb_key, ue_key. f_equal. lia.
Qed.

Lemma frame_keeps fb l m m' :
  0 <= fb.(fb_rnti) -> fb_key fb ∉ fb_key <$> l -> frame_of l m m' ->
  proc_of m' (ue_key fb.(fb_rnti)) fb.(fb_process) = proc_of m (ue_key fb.(fb_rnti)) fb.(fb_process).
Proof. intros R0 Nf F. apply F. unfold ue_key. rewrite Z2Nat.id by done. exact Nf. Qed.

(** Feedback of other processes stays live. *)
Lemma live_other m m1 fb l :
  0 <= fb.(fb_rnti) -> fb_key fb ∉ fb_key <$> l -> Forall (live m) l ->
  (forall k id, (k, id) <> (ue_key fb.(fb_rnti), fb.(fb_process)) -> proc_of m1 k id = proc_of m k id) ->
  Forall (live m1) l.
Proof.
  intros R0 Nf L F. apply Forall_forall. intros x Hx. rewrite Forall_forall in L. destruct (L x Hx) as (R1 & p & Pa & A).
  split; [done|]. exists p. split; [|done]. rewrite F; [done|].
  apply fb_key_ne; [done..|]. intros Ek. apply Nf. rewrite <- Ek. by apply list_elem_of_fmap_2.
Qed.

(** The process of [fb] has been sent again as often as it may be. *)
Definition last_try (m : gmap nat SchedUe) (fb : HarqInfo) : Prop :=
  exists p d, proc_of m (ue_key fb.(fb_rnti)) fb.(fb_process) = Some p /\ m_dciElement p = Some d /\ m_rv d = R.

Lemma last_try_frame m m1 fb (l : list HarqInfo) x :
  0 <= fb.(fb_rnti) -> fb_key fb ∉ fb_key <$> l -> 0 <= x.(fb_rnti) -> x ∈ l ->
  (forall k id, (k, id) <> (ue_key fb.(fb_rnti), fb.(fb_process)) -> proc_of m1 k id = proc_of m k id) ->
  last_try m1 x -> last_try m x.
Proof.
  intros R0 Nf Rx Hx F (p & d & E & Q). exists p, d. rewrite <- F; [done|]. apply fb_key_ne; [done..|].
  intros Ek. apply Nf. rewrite <- Ek. by apply list_elem_of_fmap_2.
Qed.

(** A positive answer ends a process, and so does a negative one when it has been sent again as
    often as it may be; the rest wait for their turn. *)
Lemma ProcessHARQFeedbacks_ok m l :
  map_Forall (side_wf R) m -> Forall (live m) l -> NoDup (fb_key <$> l) ->
  exists l' m', ProcessHARQFeedbacks conf dir l m = Ok (l', m') /\ map_Forall (side_wf R) m' /\
    ues_rel only_harq m m' /\ l' `sublist_of` l /\ Forall (ready R m') l' /\ frame_of l m m' /\
    (forall fb, fb ∈ l -> fb ∈ l' \/
       proc_of m' (ue_key fb.(fb_rnti)) fb.(fb_process) = Some idle_process /\ (IsReceivedOk fb = true \/ last_try m fb)).
Proof.
  revert m. induction l as [|fb l IH]; intros m W L Nd; cbn [ProcessHARQFeedbacks].
  { exists [], m. split_and!; try done; [apply only_harqs_refl|by intros fb ?%elem_of_nil]. }
  apply Forall_cons in L as [Lf L]. cbn in Nd. apply NoDup_cons in Nd as [Nf Nd]. pose proof (proj1 Lf) as R0.
  destruct (live_process m fb W Lf) as (ue & p & d & E & Ep & A & St & T & Ed & Hd & Rv & Dk & Wh).
  rewrite (find_ue_ok _ _ _ E). cbn [res_bind]. rewrite (harq_get_ok _ _ _ Ep). cbn [res_bind].
  rewrite A, Ed. cbn [negb abort_if res_bind]. pose proof (maxHarqReTx_range conf) as Mx.
  rewrite (proj2 (Z.leb_gt _ _)) by lia. cbn [abort_if res_bind].
  pose proof (fun v q => put_side_ok R m _ ue v fb.(fb_process) q W E) as Put.
  destruct (IsReceivedOk fb || (m_rv d =? R)) eqn:Done.
  - destruct (HarqErase_ok _ _ _ _ Wh Ep A) as (v & -> & Wv & Pv & Mv & _). cbn [res_bind]. unfold put_ue.
    destruct (Put v idle_process Wv Mv Pv ltac:(done)) as (P1 & P3 & P5 & P6).
    destruct (IH _ P1 (live_other _ _ _ _ R0 Nf L P6) Nd) as (l' & m' & -> & I1 & I3 & I4 & I5 & I6 & I7).
    exists l', m'. split_and!; [done|done|by eapply only_harqs_trans|by constructor|done|by eapply frame_cons|].
    intros x [->|Hx]%elem_of_cons.
    + right. rewrite (frame_keeps _ _ _ _ R0 Nf I6). split; [done|]. apply orb_true_iff in Done as [?|Rm%Z.eqb_eq]; [by left|right].
      exists p, d. split; [apply proc_of_Some; by exists ue|done].
    + destruct (I7 x Hx) as [?|[? [?|Lt]]]; [by left|right; by split; [|left]|right; split; [done|right]].
      eapply (last_try_frame m _ fb l x R0 Nf); [by rewrite Forall_forall in L; apply (L x Hx)|done|exact P6|exact Lt].
  - apply orb_false_iff in Done as [Nok Nrv]. apply Z.eqb_neq in Nrv. set (q := p <| hp_status := RECEIVED_FEEDBACK |>).
    assert (hp_active q = true /\ m_dciElement q = Some d /\ hp_status q = RECEIVED_FEEDBACK /\ hp_timer q = hp_timer p)
      as (Q1 & Q2 & Q3 & Q4) by (by destruct p).
    destruct (Put (harq_set (fb_process fb) q (harq_of dir ue)) q) as (P1 & P3 & P5 & P6);
      [|by destruct (harq_of dir ue)|by destruct (harq_of dir ue)|by rewrite Q2; intros _ ? [= <-]|].
    { eapply harq_set_same_wf; [exact Wh|exact Ep| |by rewrite Q1].
      split; [by rewrite Q4|]. rewrite Q1, Q3, Q2. split; [done|]. by exists d. }
    destruct (IH _ P1 (live_other _ _ _ _ R0 Nf L P6) Nd) as (l' & m' & Ep' & I1 & I3 & I4 & I5 & I6 & I7).
    unfold put_ue. rewrite Ep'. cbn [res_bind].
    exists (fb :: l'), m'. split_and!; [done|done|by eapply only_harqs_trans|by constructor| |by eapply frame_cons|].
    + constructor; [|done]. split; [done|]. split; [done|]. exists q, d. rewrite (frame_keeps _ _ _ _ R0 Nf I6).
      split_and!; try done; lia.
    + intros x [->|Hx]%elem_of_cons; [left; by left|]. destruct (I7 x Hx) as [?|[? [?|Lt]]];
        [left; by right|right; by split; [|left]|right; split; [done|right]].
      eapply (last_try_frame m _ fb l x R0 Nf); [by rewrite Forall_forall in L; apply (L x Hx)|done|exact P6|exact Lt].
Qed.

(** The process of [fb] has not expired and may be sent again. *)
Definition resendable (m : gmap nat SchedUe) (fb : HarqInfo) : Prop :=
  exists p d, proc_of m (ue_key fb.(fb_rnti)) fb.(fb_process) = Some p /\ hp_active p = true /\
    hp_timer p < conf.(GetNumHarqProcess) /\ m_dciElement p = Some d /\ m_rv d < R.

(** The start of a slot *)
Lemma process_side_ok m kept received :
  0 <= conf.(GetNumHarqProcess) <= 255 -> map_Forall (side_wf R) m -> Forall (known m) (kept ++ received) ->
  (dir = UL -> NoDup (fb_key <$> kept ++ received)) ->
  exists l m', process_feedback conf dir kept received m = Ok (l, m') /\ map_Forall (side_wf R) m' /\
    ues_rel only_harq m m' /\ l `sublist_of` (kept ++ received) /\ NoDup (fb_key <$> l) /\ Forall (ready R m') l /\
    (forall k id, (Z.of_nat k, id) ∉ fb_key <$> kept ++ received ->
      proc_of m' k id = aged conf.(GetNumHarqProcess) <$> proc_of m k id) /\
    forall fb, fb ∈ kept ++ received -> IsReceivedOk fb = false -> resendable m fb ->
      fb ∈ l \/ dir = DL /\ exists fb', fb' ∈ kept ++ received /\ fb_key fb' = fb_key fb /\ (fb' ∈ l \/ IsReceivedOk fb' = true).
Proof.
  intros N W F Nd. unfold process_feedback. destruct (expire_side m N W) as (m1 & -> & W1 & S1 & Ag). cbn [res_bind].
  destruct (decide (kept ++ received = [])) as [->|Ne].
  { exists [], m1. split_and!; try done; [constructor|]. by intros fb ?%elem_of_nil. }
  assert (Forall (known m1) (kept ++ received)) as F1.
  { eapply Forall_impl; [exact F|]. intros fb (R0 & ue & E & I). split; [done|].
    destruct (ues_rel_lookup _ _ _ _ _ S1 E) as (ue' & E' & v & -> & M). eexists. split; [exact E'|]. by rewrite harq_set_harq, M. }
  destruct (live_feedback_ok m1 [] _ W1 F1 Nd) as (l & El & Sl & Ll & Nl & _ & Kl).
  destruct (ProcessHARQFeedbacks_ok m1 l W1 Ll Nl) as (l' & m' & Ep & W' & S' & Sl' & R' & Fr & Kp).
  exists l', m'. split.
  { destruct (kept ++ received); [done|]. by rewrite El. }
  split_and!; [done|by eapply only_harqs_trans|by etrans| |done| |].
  { eapply sublist_NoDup; [exact Nl|]. by apply fmap_sublist. }
  { intros k id Hk. rewrite Fr; [apply Ag|]. intros Hl. apply Hk. eapply elem_of_sublist; [exact Hl|]. by apply fmap_sublist. }
  intros fb Hfb Nok (p & d & Pa & A & T & Ed & Rv).
  assert (proc_of m1 (ue_key (fb_rnti fb)) (fb_process fb) = Some (aged conf.(GetNumHarqProcess) p)) as Pa1 by (by rewrite Ag, Pa).
  assert (hp_status p <> INACTIVE) as St.
  { apply proc_of_Some in Pa as (ue & E & Ep'). pose proof (wf_procs _ _ (si_harq _ _ _ (W _ _ E)) _ _ Ep') as [_ Wp].
    rewrite A in Wp. apply Wp. }
  destruct (aged_young _ p St T) as [Aa Ad].
  assert (live m1 fb) as Lf.
  { rewrite Forall_forall in F1. split; [apply (F1 fb Hfb)|]. eexists. split; [exact Pa1|by rewrite Aa]. }
  assert (forall x, x ∈ l -> fb_key x = fb_key fb -> x ∈ l' \/ IsReceivedOk x = true) as Dn.
  { intros x Hx Ek. destruct (Kp x Hx) as [?|[_ [?|(p' & d' & E1 & E2 & E3)]]]; [by left|by right|exfalso].
    injection Ek as E4 E5. rewrite E4, E5, Pa1 in E1. injection E1 as <-. rewrite Ad, Ed in E2. injection E2 as <-. lia. }
  destruct (Kl fb Hfb Lf) as [Hl|[D [?%elem_of_nil|Hl]]]; [|done|].
  - destruct (Dn fb Hl eq_refl) as [?|?]; [by left|congruence].
  - right. split; [done|]. apply list_elem_of_fmap in Hl as (x & Ex & Hx). exists x.
    split; [by eapply elem_of_sublist|]. split; [done|]. by apply Dn.
Qed.
End feedback.
End side.
