(* ===== verification/MacFacts.v ===== *)
(** The UEs of the scheduler: what is true of each between two slots, and how the start of an
    uplink slot, the expiry of processes and the HARQ feedback, keeps it. *)
From Stdlib Require Import ZArith Lia.
From stdpp Require Import base list gmap strings list_numbers.
From coqutil Require Import Datatypes.RecordSettersUsingExistingGetters.
From S2P Require Import Prelude UlScheduler Amc DlUe Dci LogicalChannels LcProps Harq MacScheduler HarqFacts.
Open Scope Z_scope.

(** ** A well-formed UE *)

(** A DCI that may be sent again in the uplink *)
Record ul_dci_ok (conf : SchedConf) (k : nat) (d : Dci) : Prop := {
  ud_rnti : dci_rnti d = Z.of_nat k;
  ud_ul : dci_format d = UL;
  ud_num : 1 <= m_numSym d <= 13;
  ud_tb : 0 < m_tbSize d;
  ud_length : length (m_rbgBitmask d) = length (GetUlBitmask conf);
  ud_mask : forall i, m_rbgBitmask d !! i = Some true -> GetUlBitmask conf !! i = Some true
}.

(** A group of the uplink has exactly one channel. *)
Definition lcg_wf (lcg : NrMacSchedulerLCG) : Prop := exists c lc, lcg = {[c := lc]} /\ lc_wf lc.

Record ue_wf (conf : SchedConf) (k : nat) (ue : SchedUe) : Prop := {
  uw_rnti : ue.(ue_ul).(m_rnti) = Z.of_nat k;
  uw_harq : harq_wf (maxHarqReTx conf) ue.(m_ulHarq);
  uw_procs : forall id p d, procs ue.(m_ulHarq) !! id = Some p -> hp_active p = true ->
               m_dciElement p = Some d -> ul_dci_ok conf k d;
  uw_lcgs : map_Forall (fun _ => lcg_wf) ue.(m_ulLCG);
  uw_srs : 2 <= ue.(m_srsPeriodicity)
}.

(** A UE to which no uplink RBG is assigned *)
Definition ul_clear (ue : SchedUe) : Prop := ue.(ue_ul).(m_ulRBG) = [].

(** What a slot never changes *)
Definition same_ue (k : nat) (u v : SchedUe) : Prop :=
  v.(m_beamId) = u.(m_beamId) /\ v.(m_srsPeriodicity) = u.(m_srsPeriodicity) /\ v.(m_srsOffset) = u.(m_srsOffset) /\
  (v.(m_dlLCG) = u.(m_dlLCG) /\ v.(ue_dl) = u.(ue_dl) /\ v.(m_dlHarq) = u.(m_dlHarq)) /\
  v.(m_ulHarq).(m_maxSize) = u.(m_ulHarq).(m_maxSize).

Lemma same_ue_refl k u : same_ue k u u.
Proof. done. Qed.
Lemma same_ue_trans k u v w : same_ue k u v -> same_ue k v w -> same_ue k u w.
Proof. unfold same_ue. intuition congruence. Qed.

Lemma same_ues_refl m : ues_rel same_ue m m.
Proof. apply ues_rel_refl, same_ue_refl. Qed.
Lemma same_ues_trans m m' m'' : ues_rel same_ue m m' -> ues_rel same_ue m' m'' -> ues_rel same_ue m m''.
Proof. apply ues_rel_trans, same_ue_trans. Qed.
#[export] Hint Resolve same_ue_refl same_ues_refl : oran.

(** The process [id] of the UE [k] *)
Abbreviation proc_at := (proc_of UL).

Lemma proc_at_Some m k id p :
  proc_at m k id = Some p <-> exists ue, m !! k = Some ue /\ procs ue.(m_ulHarq) !! id = Some p.
Proof. exact (proc_of_Some UL m k id p). Qed.

(** Replacing a process of a UE, along with anything that is not part of the invariant *)
Lemma put_proc_wf conf m k ue ue' id p :
  map_Forall (ue_wf conf) m -> m !! k = Some ue -> ue_wf conf k ue' -> same_ue k ue ue' -> (ul_clear ue -> ul_clear ue') ->
  procs ue'.(m_ulHarq) = <[id := p]> (procs ue.(m_ulHarq)) ->
  map_Forall (ue_wf conf) (<[k := ue']> m) /\
  (map_Forall (fun _ => ul_clear) m -> map_Forall (fun _ => ul_clear) (<[k := ue']> m)) /\
  ues_rel same_ue m (<[k := ue']> m) /\
  proc_at (<[k := ue']> m) k id = Some p /\
  forall k' id', (k', id') <> (k, id) -> proc_at (<[k := ue']> m) k' id' = proc_at m k' id'.
Proof.
  intros W E W' S C P. split; [by apply map_Forall_insert_2|]. split; [|split; [|split]].
  - intros F. apply map_Forall_insert_2; [|done]. apply C. exact (F k ue E).
  - eapply ues_rel_insert; [apply ues_rel_refl, same_ue_refl|exact E|done].
  - unfold proc_of. rewrite lookup_insert_eq. cbn. by rewrite P, lookup_insert_eq.
  - intros k' id' Ne. unfold proc_of. destruct (decide (k' = k)) as [->|Nk].
    + rewrite lookup_insert_eq, E. cbn. rewrite P, lookup_insert_ne; [done|]. by intros ->.
    + by rewrite lookup_insert_ne.
Qed.

(** ** Feedback *)

(** Feedback for a process of a UE that is there *)
Definition fb_known (m : gmap nat SchedUe) (fb : HarqInfo) : Prop :=
  0 <= fb.(fb_rnti) /\ exists ue, m !! ue_key fb.(fb_rnti) = Some ue /\ 0 <= fb.(fb_process) < ue.(m_ulHarq).(m_maxSize).

(** Feedback for an active process *)
Definition fb_live (m : gmap nat SchedUe) (fb : HarqInfo) : Prop :=
  0 <= fb.(fb_rnti) /\ exists p, proc_at m (ue_key fb.(fb_rnti)) fb.(fb_process) = Some p /\ hp_active p = true.

(** Negative feedback whose process waits to be sent again *)
Definition fb_ready (conf : SchedConf) (m : gmap nat SchedUe) (fb : HarqInfo) : Prop :=
  IsReceivedOk fb = false /\ 0 <= fb.(fb_rnti) /\
  exists p d, proc_at m (ue_key fb.(fb_rnti)) fb.(fb_process) = Some p /\ hp_active p = true /\
    hp_status p = RECEIVED_FEEDBACK /\ m_dciElement p = Some d /\ 0 <= m_rv d < maxHarqReTx conf.

Lemma set_ulHarq_same conf k ue v :
  ue_wf conf k ue -> harq_wf (maxHarqReTx conf) v ->
  (forall id p d, procs v !! id = Some p -> hp_active p = true -> m_dciElement p = Some d -> ul_dci_ok conf k d) ->
  v.(m_maxSize) = ue.(m_ulHarq).(m_maxSize) ->
  ue_wf conf k (set_harq UL v ue) /\ same_ue k ue (set_harq UL v ue) /\ (ul_clear ue -> ul_clear (set_harq UL v ue)).
Proof. intros [W1 W2 W3 W4 W5] Hv Hp M. split; [by split|]. split; [by repeat split|done]. Qed.

Section facts.
Context `{CppHash, !CppHashLaws} (conf : SchedConf).

(** The process of [fb] has not expired and may be sent again. *)
Definition may_resend (m : gmap nat SchedUe) (fb : HarqInfo) : Prop :=
  exists p d, proc_at m (ue_key fb.(fb_rnti)) fb.(fb_process) = Some p /\ hp_active p = true /\
    hp_timer p < conf.(GetNumHarqProcess) /\ m_dciElement p = Some d /\ m_rv d < maxHarqReTx conf.

(** The uplink vector of a well-formed UE, and a UE of which only that changes *)
Lemma ue_wf_side k ue : ue_wf conf k ue -> side_wf UL (ul_dci_ok conf) (maxHarqReTx conf) k ue.
Proof. intros W. split; [apply (uw_harq _ _ _ W)|apply (uw_procs _ _ _ W)]. Qed.

Lemma only_ulHarq_wf m m' :
  map_Forall (ue_wf conf) m -> map_Forall (side_wf UL (ul_dci_ok conf) (maxHarqReTx conf)) m' -> ues_rel (only_harq UL) m m' ->
  map_Forall (ue_wf conf) m' /\ (map_Forall (fun _ => ul_clear) m -> map_Forall (fun _ => ul_clear) m') /\ ues_rel same_ue m m'.
Proof.
  intros W W' S. split; [|split].
  - intros k ue' E'. destruct (ues_rel_lookup_r _ _ _ _ _ S E') as (ue & E & v & -> & M). destruct (W' _ _ E') as [Wh Wp].
    by apply (set_ulHarq_same conf k ue v (W k ue E)).
  - intros C. eapply ues_rel_forall; [exact S|exact C|]. by intros k u v (w & -> & _).
  - eapply ues_rel_weaken; [|exact S]. intros k u v (w & -> & M). by repeat split.
Qed.

(** The start of an uplink slot *)
Lemma process_feedback_ok m kept received :
  0 <= conf.(GetNumHarqProcess) <= 255 -> map_Forall (ue_wf conf) m ->
  Forall (fb_known m) (kept ++ received) -> NoDup (fb_key <$> kept ++ received) ->
  exists l m', process_feedback conf UL kept received m = Ok (l, m') /\
    map_Forall (ue_wf conf) m' /\ (map_Forall (fun _ => ul_clear) m -> map_Forall (fun _ => ul_clear) m') /\
    ues_rel same_ue m m' /\ l `sublist_of` (kept ++ received) /\ Forall (fb_ready conf m') l /\
    (forall k id, (Z.of_nat k, id) ∉ fb_key <$> kept ++ received ->
      proc_at m' k id = aged conf.(GetNumHarqProcess) <$> proc_at m k id) /\
    forall fb, fb ∈ kept ++ received -> IsReceivedOk fb = false -> may_resend m fb -> fb ∈ l.
Proof.
  intros N W F Nd.
  destruct (process_side_ok UL (ul_dci_ok conf) conf m kept received N) as (l & m' & E & W' & S & Sl & _ & Rd & Ag & Re);
    [intros k ue Ek; apply ue_wf_side, (W k ue Ek)|exact F|done|].
  destruct (only_ulHarq_wf m m' W W' S) as (X & Y & Z0).
  exists l, m'. split_and!; try done. intros fb Hfb Nok May. by destruct (Re fb Hfb Nok May) as [?|[? _]].
Qed.
End facts.
