(* ===== verification/UlGrant.v ===== *)
(** One uplink grant: the DCI of a UE that was given RBGs, its HARQ process, the bytes its channels
    are credited with. *)
From Stdlib Require Import ZArith Lia.
From stdpp Require Import base list gmap strings list_numbers.
From coqutil Require Import Datatypes.RecordSettersUsingExistingGetters.
From S2P Require Import Prelude OrdMap UlScheduler UlFacts UlProps Amc DlUe DlScheduler Dci DciProps.
From S2P Require Import LogicalChannels LcProps Harq MacScheduler UlSlot HarqFacts MacFacts.
Open Scope Z_scope.

(** A transport block size is a uint32_t. *)
Class NrAmcLaws `{NrAmc} : Prop := { tb_fits : forall mcs rank nprb, fits 32 (UlScheduler.CalculateTbSize mcs rank nprb) }.

(** A configuration the uplink can work with: a slot of 14 symbols of which the last is for control, and
    an uplink mask that leaves RBGs, all of them available in the downlink too *)
Record conf_ok (conf : SchedConf) : Prop := {
  co_symbols : conf.(GetSymbolsPerSlot) = 14;
  co_ulCtrl : conf.(m_ulCtrlSymbols) = 1;
  co_dlCtrl : 0 <= conf.(m_dlCtrlSymbols);
  co_srs : 0 <= conf.(m_srsCtrlSymbols);
  co_room : conf.(m_dlCtrlSymbols) + conf.(m_srsCtrlSymbols) <= 13;
  co_harq : 0 <= conf.(GetNumHarqProcess) <= 255;
  co_length : length (GetUlBitmask conf) = conf.(GetBandwidthInRbg);
  co_some : existsb id (GetUlBitmask conf) = true;
  co_dlLength : length (GetDlBitmask conf.(GetBandwidthInRbg) conf.(m_dlNotchedRbgsMask)) = conf.(GetBandwidthInRbg);
  co_sub : forall i, GetUlBitmask conf !! i = Some true ->
             GetDlBitmask conf.(GetBandwidthInRbg) conf.(m_dlNotchedRbgsMask) !! i = Some true
}.

(** ** The RBGs *)

(** The allocation of a slot, with the owners of the RBGs of each beam *)
Lemma AssignULRBG_target_spec `{NrAmc} {B} `{EqDecision B} NumRbPerRbg targets bitmask policy
    (activeUl : list (B * list (nat * Z))) ues :
  existsb id bitmask = true -> slot_start activeUl ues ->
  map_Forall (fun _ t => 0 <= t) targets -> Forall (fun e => 0 <= e.2) policy ->
  exists ues', AssignULRBG_target NumRbPerRbg targets bitmask policy activeUl ues = Ok (GetSymPerBeam policy activeUl, ues') /\
    (forall p, p ∉ active_ptrs activeUl -> ues' !! p = ues !! p) /\
    forall b v n, (b, v) ∈ activeUl -> beam_at b (GetSymPerBeam policy activeUl) = Some n ->
      exists owners : list (Z * nat), NoDup owners.*1 /\ (forall r p, (r, p) ∈ owners -> r ∈ remaining_rbgs bitmask) /\
        forall p, p ∈ v.*1 -> exists u u', ues !! p = Some u /\ ues' !! p = Some u' /\ m_rnti u' = m_rnti u /\
          m_ulRBG u' = share_of n owners p /\ within_target targets n u'.
Proof.
  intros X (N & Z & A) T P. unfold AssignULRBG_target, AssignULRBG. set (spb := GetSymPerBeam policy activeUl).
  destruct (beams_fold NumRbPerRbg (skip_target targets) bitmask spb activeUl ues X) as (ues' & -> & F & Bm);
    [by apply GetSymPerBeam_active|done|].
  exists ues'. split; [done|]. split; [done|]. intros b v n Hv Hn. destruct (Bm b v n Hv Hn) as (ues1 & E1 & E2).
  pose proof (GetSymPerBeam_nonneg _ _ _ _ P Hn) as Hn0.
  assert (forall p, p ∈ v.*1 -> exists u, ues !! p = Some u /\ m_ulRBG u = []) as Live.
  { intros p Hp. rewrite Forall_forall in A. destruct (A p) as [u Hu].
    - apply list_elem_of_In, in_concat. exists v.*1. split; apply list_elem_of_In; [|done].
      apply list_elem_of_fmap. by exists (b, v).
    - exists u. split; [done|]. by apply Z in Hu. }
  destruct (assign_loop_owners NumRbPerRbg (skip_target targets n) n (remaining_rbgs bitmask) v ues1)
    as (owners & O1 & _ & O3 & _).
  { apply Forall_forall. intros e He. destruct (Live e.1) as (u & Hu & _); [by apply list_elem_of_fmap_2|].
    rewrite E1 by (by apply list_elem_of_fmap_2). by eexists. }
  assert (all_of v (within_target targets n)
    (assign_loop NumRbPerRbg (skip_target targets n) n (remaining_rbgs bitmask) v ues1)) as W.
  { apply assign_loop_bound; [intros r x buf _ S I; by eapply within_target_step|].
    intros q x Hq Hx. rewrite E1 in Hx by done. destruct (Live q Hq) as (u & Hu & Eu). rewrite Hx in Hu. injection Hu as <-.
    unfold within_target, logical. rewrite Eu. destruct (targets !! m_rnti x) as [t'|] eqn:Et; [|done].
    cbn [length]. rewrite Zdiv_0_l. by apply T in Et. }
  exists owners. split; [|split].
  - pose proof (remaining_NoDup bitmask) as NR. destruct O1 as [k Ek]. rewrite Ek in NR. by apply NoDup_app in NR as [? _].
  - intros r p Hr. destruct O1 as [k ->]. apply elem_of_app. left. apply list_elem_of_fmap. by exists (r, p).
  - intros p Hp. destruct (Live p Hp) as (u & Hu & Eu). specialize (O3 p). rewrite E1, Hu in O3 by done. cbn in O3.
    destruct (assign_loop _ _ _ _ v ues1 !! p) as [u'|] eqn:Eu'; [|done]. cbn in O3. injection O3 as Er Eg.
    exists u, u'. split; [done|]. split; [by rewrite E2|]. split; [done|]. split; [by rewrite Eg, Eu|].
    by apply (W p u').
Qed.

(** ** The DCI *)

Section grant.
Context `{NrAmc} `{!NrAmcLaws} (conf : SchedConf) (Ok_conf : conf_ok conf).

(** A grant of all of [rbgs] over the [n] symbols that end at [sym] *)
Record grant_of (k : nat) (sym n : Z) (rbgs : list Z) (d : Dci) : Prop := {
  go_start : m_symStart d = sym - n;
  go_num : m_numSym d = n;
  go_ul : dci_format d = UL;
  go_type : dci_type d = DATA;
  go_rv : m_rv d = 0;
  go_rnti : dci_rnti d = Z.of_nat k;
  go_tb : 12 <= m_tbSize d < 2 ^ 32;
  go_length : length (m_rbgBitmask d) = conf.(GetBandwidthInRbg);
  go_mask : forall i, m_rbgBitmask d !! i = Some true <-> Z.of_nat i ∈ rbgs
}.

Lemma CreateUlDci_ok k sym n prec u :
  1 <= n <= sym -> sym <= 13 -> m_rnti u = Z.of_nat k -> m_ulRBG u <> [] ->
  (forall r, r ∈ m_ulRBG u -> r ∈ remaining_rbgs (GetUlBitmask conf)) ->
  CreateUlDci conf.(GetNumRbPerRbg) conf.(GetBandwidthInRbg) conf.(m_dlNotchedRbgsMask) conf.(GetBwpId) prec (mkPoint 0 sym) n u
    = Ok None \/
  exists d, CreateUlDci conf.(GetNumRbPerRbg) conf.(GetBandwidthInRbg) conf.(m_dlNotchedRbgsMask) conf.(GetBwpId) prec (mkPoint 0 sym) n u
    = Ok (Some d) /\ grant_of k sym n (m_ulRBG u) d.
Proof.
  intros N S R Ne Sub. unfold CreateUlDci. set (tbs := UlScheduler.CalculateTbSize _ _ _).
  pose proof (tb_fits (m_ulMcs u) (m_ulRank u) (u32 (Z.of_nat (length (m_ulRBG u)) * GetNumRbPerRbg conf))) as Tf. fold tbs in Tf.
  destruct (Z.ltb_spec tbs 12) as [|Ge]; [by left|right].
  rewrite (proj2 (Z.eqb_neq n 0)) by lia. cbn [abort_if res_bind].
  destruct (create_bitmask conf.(GetBandwidthInRbg) conf.(m_dlNotchedRbgsMask) (m_ulRBG u)) as (mask & -> & Lm & Mm).
  - apply (co_dlLength _ Ok_conf).
  - intros r Hr. apply Sub, remaining_elem in Hr as [R0 Hr]. split; [done|]. by apply (co_sub _ Ok_conf).
  - cbn [res_bind spoint_sym]. rewrite (proj2 (Z.ltb_ge sym n)) by lia. cbn [abort_if res_bind].
    destruct (m_ulRBG u) as [|r l] eqn:E; [done|]. rewrite <- E in *.
    assert (r ∈ m_ulRBG u) as Hr by (rewrite E; by left). destruct (remaining_elem _ _ (Sub r Hr)) as [R0 _].
    rewrite (check_mask_ok _ mask (Z.to_nat r) Lm) by (apply Mm; by rewrite Z2Nat.id).
    cbn [res_bind]. eexists. split; [done|]. unfold fits in Tf.
    split; cbn; [by apply wrap_small; unfold fits; lia|by apply wrap_small; unfold fits; lia|done..| |done|done]. lia.
Qed.

(** The mask of a grant has at most as many bits as its UE has logical RBGs. *)
Lemma grant_count k sym n owners p d :
  grant_of k sym n (share_of n owners p) d -> NoDup owners.*1 -> 1 <= n ->
  Z.of_nat (length (remaining_rbgs (m_rbgBitmask d))) <= count_of owners p.
Proof.
  intros G N Hn. unfold count_of. apply inj_le.
  rewrite <- (length_fmap fst (filter (fun o => o.2 = p) owners)). apply NoDup_incl_length; [apply NoDup_ListNoDup, remaining_NoDup|].
  intros r Hr%list_elem_of_In. apply list_elem_of_In. apply remaining_elem in Hr as [R0 Hr].
  apply (go_mask _ _ _ _ _ G) in Hr. rewrite Z2Nat.id in Hr by done. apply share_elem in Hr.
  apply list_elem_of_fmap. exists (r, p). split; [done|]. by apply list_elem_of_filter.
Qed.

(** ** The process *)

Definition waiting (d : Dci) : HarqProcess := mkHarq true WAITING_FEEDBACK 0 (Some d) [].

Context `{CppHash, !CppHashLaws}.

Lemma set_process_eq (id : Z) (d : Dci) : m_harqProcess (d <| m_harqProcess := id |>) = id /\
  m_rv (d <| m_harqProcess := id |>) = m_rv d.
Proof. by destruct d. Qed.

Lemma harq_set_mk id p m a u : harq_set id p (mkHarqVector m a u) = mkHarqVector (<[id := p]> m) a u.
Proof. done. Qed.

Lemma insert_process_ok R d v :
  harq_wf R v -> CanInsert v = true -> 0 <= m_rv d <= R ->
  exists id q v', insert_process d v = Ok (d <| m_harqProcess := id |>, v') /\ harq_wf R v' /\
    v'.(m_maxSize) = v.(m_maxSize) /\ procs v !! id = Some q /\ hp_active q = false /\
    procs v' = <[id := waiting (d <| m_harqProcess := id |>)]> (procs v).
Proof.
  intros W C Rv. unfold insert_process. rewrite C. cbn [negb abort_if res_bind].
  destruct (HarqInsert_ok R v (waiting d) W C eq_refl) as (id & q & v1 & E & Hq & Aq & Rg & ->).
  fold (waiting d). rewrite E. cbn [res_bind fst snd]. destruct (set_process_eq id d) as [E1 E2].
  exists id, q, (mkHarqVector (<[id := waiting (d <| m_harqProcess := id |>)]> (procs v)) (m_maxSize v) (m_usedSize v + 1)).
  split.
  - cbn [m_harqProcess]. fold (waiting (d <| m_harqProcess := id |>)). by rewrite harq_set_mk, insert_insert_eq.
  - split; [|done]. apply (harq_set_wf R v id (waiting (d <| m_harqProcess := id |>)) q (m_usedSize v + 1)) in W; [|done| |].
    + exact W.
    + split; [cbn; lia|]. cbn. split; [done|]. eexists. split; [done|]. by rewrite E1, E2.
    + rewrite Aq. cbn. lia.
Qed.

(** ** The channels *)

Lemma tot_buffer_active lcgs : 0 < tot_buffer lcgs -> active_lcs lcgs <> [].
Proof.
  intros P E. assert (tot_buffer lcgs = 0); [|lia].
  assert (forall g lcg, lcgs !! g = Some lcg -> LcgTotalSize lcg = 0) as Z0.
  { intros g lcg Hg. apply lcg_total_zero. intros c lc Hc. pose proof (LcTotalSize_nonneg lc).
    destruct (decide (LcTotalSize lc = 0)) as [|Ne]; [done|exfalso].
    assert (((g, c), (LcTotalSize lc, 0)) ∈ active_lcs lcgs) as Hin by (apply active_lcs_spec; exists lcg, lc; split_and!; try done; lia).
    rewrite E in Hin. by apply elem_of_nil in Hin. }
  clear P E. unfold tot_buffer.
  apply (map_fold_weak_ind (fun n (m : gmap Z NrMacSchedulerLCG) => (forall g lcg, m !! g = Some lcg -> LcgTotalSize lcg = 0) -> n = 0)); [done| |done].
  intros g lcg m n Hn IH F. rewrite IH, (F g lcg); [done|apply lookup_insert_eq|].
  intros g' lcg' E. apply (F g'). rewrite lookup_insert_ne; [done|]. intros ->. congruence.
Qed.

Lemma lcg_wf_lc c lc : lcg_wf {[c := lc]} -> lc_wf lc.
Proof.
  intros (c' & lc' & E & W). assert (({[c := lc]} : NrMacSchedulerLCG) !! c = Some lc) as L by apply lookup_singleton_eq.
  rewrite E in L. apply lookup_singleton_Some in L as [_ <-]. done.
Qed.

(** Crediting the channels of the split *)
Lemma assign_to_lcs_ok type lcgs0 l lcgs :
  (forall a, a ∈ l -> (exists d, wants lcgs0 a.(as_lcg) a.(as_lcId) d) /\ fits 32 a.(as_bytes)) ->
  map_Forall (fun _ => lcg_wf) lcgs ->
  (forall g c lc, lcgs0 !! g = Some {[c := lc]} -> exists lc', lcgs !! g = Some {[c := lc']}) ->
  map_Forall (fun _ => lcg_wf) lcgs0 ->
  exists lcgs', assign_to_lcs type l lcgs = Ok lcgs' /\ map_Forall (fun _ => lcg_wf) lcgs'.
Proof.
  intros A W S W0. revert lcgs W S. induction l as [|a l IH]; intros lcgs W S; unfold assign_to_lcs; cbn [res_fold]; [by exists lcgs|].
  destruct (A a ltac:(by left)) as [(d & lcg0 & lc0 & E1 & E2 & _) Fb].
  destruct (W0 _ _ E1) as (c & lc & -> & Wc). apply lookup_singleton_Some in E2 as [<- <-].
  destruct (S _ _ _ E1) as [lc' E']. rewrite E'. pose proof (lcg_wf_lc _ _ (W _ _ E')) as Wl.
  destruct (AssignedData_ok c a.(as_bytes) type ({[c := lc']} : NrMacSchedulerLCG) lc' ltac:(apply lookup_singleton_eq) Wl Fb)
    as (lc'' & Ea & Wl' & _).
  match goal with |- context [AssignedData ?x ?y ?z ?w] =>
    assert (AssignedData x y z w = Ok (<[c := lc'']> ({[c := lc']} : NrMacSchedulerLCG))) as -> by exact Ea end.
  cbn [res_bind]. apply IH; [intros x Hx; apply A; by right| |].
  - apply map_Forall_insert_2; [|done]. exists c, lc''. split; [|done]. apply insert_singleton_eq.
  - intros g c0 lc0 E0. destruct (decide (g = a.(as_lcg))) as [->|Ne].
    + rewrite E1 in E0. apply (inj Some) in E0. rewrite lookup_insert_eq. exists lc''. f_equal.
      assert (c0 = c) as ->.
      { assert (({[c0 := lc0]} : NrMacSchedulerLCG) !! c0 = Some lc0) as L by apply lookup_singleton_eq.
        rewrite <- E0 in L. by apply lookup_singleton_Some in L as [-> _]. }
      apply insert_singleton_eq.
    + rewrite lookup_insert_ne by done. by apply (S g c0 lc0).
Qed.

(** The transport block of a grant is credited to the channels of its UE. *)
Lemma credit_ok lcgs tbs :
  map_Forall (fun _ => lcg_wf) lcgs -> 0 < tot_buffer lcgs -> 0 <= tbs < 2 ^ 32 ->
  exists l lcgs', AssignBytesToUlLC lcgs tbs = Ok l /\ l <> [] /\ assign_to_lcs "UL" l lcgs = Ok lcgs' /\
    map_Forall (fun _ => lcg_wf) lcgs'.
Proof.
  intros W P T. destruct (AssignBytesToLC_ok lcgs tbs T (tot_buffer_active lcgs P)) as (l & E & Ne & A).
  destruct (assign_to_lcs_ok "UL" lcgs l lcgs) as (lcgs' & E' & W'); [| done|by intros g c lc E1; exists lc|done|by exists l, lcgs'].
  intros a Ha. destruct (A a Ha) as [? ?]. split; [done|]. unfold fits. lia.
Qed.

End grant.
