(* ===== verification/UlSlotFacts.v ===== *)
(** How the steps of an uplink slot before the data extend it: the sounding signals, message 3 of the
    random access, the retransmissions; and who is scheduled for data: scheduling requests, the active UEs
    of each beam in either direction, those that already have an allocation in the slot. *)
From Stdlib Require Import ZArith Lia Lists.List.
From stdpp Require Import base list gmap strings list_numbers.
From coqutil Require Import Datatypes.RecordSettersUsingExistingGetters.
From S2P Require Import Prelude UlScheduler UlFacts UlProps Amc DlUe Dci LogicalChannels LcProps Harq MacScheduler.
From S2P Require Import ResourceMatrix UlSlot SlotLayout UlTiling HarqFacts MacFacts UlGrant.
Open Scope Z_scope.
(** The beam of a UE, the omnidirectional one for an RNTI that is not there *)
Definition beam_of (m : gmap nat SchedUe) (rnti : Z) : BeamId :=
  match m !! ue_key rnti with Some ue => ue.(m_beamId) | None => OMNI_BEAM_ID end.

(** What gets a CQI carries a block. *)
Definition carries (v : VarTti) : Prop := dci_type (m_dci v) = DATA \/ dci_type (m_dci v) = MSG3 -> 0 < m_tbSize (m_dci v).

(** The data laid so far is sent again. *)
Definition sent_before (v : VarTti) : Prop := (dci_type (m_dci v) = DATA -> 0 < m_rv (m_dci v)) /\ carries v.

(** Data waits for its feedback; processes that wait are left alone. *)
Abbreviation granted := (grant_waits UL).
Abbreviation waiting_kept := (waits_kept UL).

Lemma waiting_kept_refl m : waiting_kept m m.
Proof. apply waits_kept_refl. Qed.
#[export] Hint Resolve waiting_kept_refl : oran.

Section slot.
Context `{CppHash, !CppHashLaws} `{NrAmc, !NrAmcLaws} (conf : SchedConf) (Ok_conf : conf_ok conf).
Context (m0 : gmap nat SchedUe).

(** A slot under construction: it is filled down to the symbol [st], and [num] symbols count as used. *)
Record slot_wf (st num : Z) (s : SlotState) : Prop := {
  sw_point : s.(sl_point) = mkPoint 0 st;
  sw_tiling : tiling (beam_of m0) (GetUlBitmask conf) sent_before st s.(sl_alloc).(m_varTtiAllocInfo);
  sw_num : s.(sl_alloc).(m_numSymAlloc) = num;
  sw_ues : map_Forall (ue_wf conf) s.(sl_ues);
  sw_clear : map_Forall (fun _ => ul_clear) s.(sl_ues);
  sw_same : ues_rel same_ue m0 s.(sl_ues);
  sw_granted : Forall (granted s.(sl_ues)) s.(sl_alloc).(m_varTtiAllocInfo);
  sw_kept : waiting_kept m0 s.(sl_ues)
}.

(** The UEs change, the slot stays. *)
Lemma slot_ues st num s ues :
  slot_wf st num s -> map_Forall (ue_wf conf) ues -> map_Forall (fun _ => ul_clear) ues ->
  ues_rel same_ue s.(sl_ues) ues -> waiting_kept s.(sl_ues) ues -> slot_wf st num (mkSlot s.(sl_point) ues s.(sl_alloc)).
Proof.
  intros [P T N U C S G Kp] W Cl Sm K. split; cbn; try done.
  - by eapply same_ues_trans.
  - eapply Forall_impl; [exact G|]. intros v. by apply grant_waits_kept.
  - by eapply waits_kept_trans.
Qed.

(** One allocation of [n] symbols below the rest *)
Lemma slot_push st num s n v num' :
  slot_wf st num s -> 1 <= n <= st ->
  alloc_in (beam_of m0) (GetUlBitmask conf) sent_before (st - n) n (beam_of m0 (dci_rnti (m_dci v))) v ->
  granted s.(sl_ues) v ->
  slot_wf (st - n) num' (mkSlot (back n s.(sl_point)) s.(sl_ues) (mkSlotAlloc num' (v :: s.(sl_alloc).(m_varTtiAllocInfo)))).
Proof.
  intros [P T N U C S G Kp] Hn A Gv. pose proof (tiling_range _ _ _ _ _ T) as R. unfold slot_symbols in R.
  split; cbn; try done.
  - unfold back. rewrite P. cbn. by rewrite wrap_small by (unfold fits; lia).
  - apply (tiling_one _ _ _ (st - n) n (beam_of m0 (dci_rnti (m_dci v)))); [lia|lia|done|]. by replace (st - n + n) with st by lia.
  - by constructor.
Qed.

Lemma push_add (v : VarTti) (a : SlotAllocInfo) n :
  push_front v (add_symbols n a) = mkSlotAlloc (u32 (a.(m_numSymAlloc) + n)) (v :: a.(m_varTtiAllocInfo)).
Proof. by destruct a. Qed.
Lemma push_eq (v : VarTti) (a : SlotAllocInfo) : push_front v a = mkSlotAlloc a.(m_numSymAlloc) (v :: a.(m_varTtiAllocInfo)).
Proof. by destruct a. Qed.
Lemma add_eq (a : SlotAllocInfo) n : add_symbols n a = mkSlotAlloc (u32 (a.(m_numSymAlloc) + n)) a.(m_varTtiAllocInfo).
Proof. by destruct a. Qed.

(** An allocation of the whole mask *)
Lemma whole_mask_in v st n :
  m_symStart (m_dci v) = st -> m_numSym (m_dci v) = n -> dci_format (m_dci v) = UL -> m_isOmni v = false ->
  m_rbgBitmask (m_dci v) = GetUlBitmask conf -> dci_type (m_dci v) <> DATA -> carries v ->
  alloc_in (beam_of m0) (GetUlBitmask conf) sent_before st n (beam_of m0 (dci_rnti (m_dci v))) v.
Proof. intros E1 E2 E3 E4 E5 E6 E7. split; try done; [by rewrite E5|right; by rewrite E5]. Qed.

(** ** SRS *)

Lemma srs_fold rnti st num n us j :
  0 <= n -> slot_wf (st - us.1) (num + us.1) us.2 -> 0 <= us.1 -> us.1 + n <= st <= 14 -> 0 <= num < 200 ->
  let r := foldl (srs_symbol conf rnti) us (seqZ j n) in
  r.1 = us.1 + n /\ slot_wf (st - r.1) (num + r.1) r.2 /\ r.2.(sl_ues) = us.2.(sl_ues).
Proof.
  intros N0. revert us j. pattern n. apply natlike_ind; [| |done]; clear n N0.
  { intros us j Wu U0 _ _. rewrite seqZ_nil by lia. cbn. by rewrite Z.add_0_r. }
  intros n N0 IH us j Wu U0 Lt Nm. rewrite seqZ_cons by lia. cbn [foldl]. rewrite Z.pred_succ.
  pose proof (tiling_range _ _ _ _ _ (sw_tiling _ _ _ Wu)) as R. unfold slot_symbols in R.
  set (us1 := srs_symbol conf rnti us j). assert (us1.1 = us.1 + 1) as E1 by (apply wrap_small; unfold fits; lia).
  destruct (IH us1 (Z.succ j)) as (I1 & I2 & I3); [|rewrite E1; lia|rewrite E1; lia|done|].
  - rewrite E1. unfold us1, srs_symbol. cbn [snd]. rewrite push_add, (sw_num _ _ _ Wu), wrap_small by (unfold fits; lia).
    replace (st - (us.1 + 1)) with (st - us.1 - 1) by lia. replace (num + (us.1 + 1)) with (num + us.1 + 1) by lia.
    apply (slot_push _ _ _ 1 _ _ Wu); [lia| |done]. apply whole_mask_in; try done; [|by intros [?|?]].
    cbn. rewrite (sw_point _ _ _ Wu). cbn. apply wrap_small. unfold fits. lia.
  - split; [rewrite I1, E1; lia|]. by split.
Qed.

Lemma DoScheduleSrs_ok counter st num s :
  slot_wf st num s -> conf.(m_srsCtrlSymbols) <= st -> 0 <= num < 200 ->
  exists used s', DoScheduleSrs conf counter s = Ok (used, s') /\
    (used = 0 \/ used = conf.(m_srsCtrlSymbols)) /\ slot_wf (st - used) (num + used) s' /\ s'.(sl_ues) = s.(sl_ues).
Proof.
  intros W Le Nm. assert (slot_wf (st - 0) (num + 0) s) as W0 by (by rewrite Z.sub_0_r, Z.add_0_r).
  pose proof (tiling_range _ _ _ _ _ (sw_tiling _ _ _ W)) as R. unfold slot_symbols in R.
  unfold DoScheduleSrs. destruct (hashed (map_to_list (sl_ues s))) as [|[k ue] l] eqn:E; [exists 0, s; auto|]. cbn [snd].
  assert (2 <= m_srsPeriodicity ue) as Pe.
  { assert ((k, ue) ∈ map_to_list (sl_ues s)) as Hk by (rewrite <- hashed_perm, E; by left).
    apply elem_of_map_to_list in Hk. apply (uw_srs _ _ _ (sw_ues _ _ _ W k ue Hk)). }
  rewrite (proj2 (Z.eqb_neq _ _)) by lia. cbn [abort_if res_bind].
  set (rnti := srs_rnti _ _). destruct (rnti =? 0); [exists 0, s; auto|].
  destruct (srs_fold rnti st num conf.(m_srsCtrlSymbols) (0, s) 0 (co_srs _ Ok_conf) W0 ltac:(done) ltac:(cbn; lia) Nm) as (L1 & L2 & L3).
  cbn [fst] in L1. destruct (foldl _ _ _) as [used s']. cbn in L1, L2, L3.
  exists used, s'. split; [done|]. split; [right; lia|done].
Qed.

(** ** Message 3 *)

(** A number of bits that is one of bytes *)
Lemma msg3_bits_bytes a : (8 | msg3_bits conf a).
Proof.
  unfold msg3_bits, wrap. rewrite Z.mod_eq by done. apply Z.divide_sub_r; [by apply Z.divide_factor_r|].
  apply Z.divide_mul_l. by exists (2 ^ 13).
Qed.

Lemma msg3_loop_ok fuel estimated sym a t :
  0 <= a <= sym -> (a = 0 -> t = 0) -> (8 | t) -> (Z.to_nat (sym - a) <= fuel)%nat ->
  let r := msg3_loop conf fuel estimated sym a t in
  a <= r.1 <= sym /\ (r.1 = 0 -> r.2 = 0) /\ (8 | r.2) /\ (estimated <= r.2 \/ r.1 = sym).
Proof.
  revert a t. induction fuel as [|fuel IH]; intros a t A T D F; cbn [msg3_loop].
  { cbn. split; [lia|]. split; [done|]. split; [done|]. right. lia. }
  destruct (Z.ltb_spec t estimated); [|cbn; split; [lia|split; [done|split; [done|by left]]]].
  destruct (Z.ltb_spec 0 (sym - a)); cbn [andb]; [|cbn; split; [lia|split; [done|split; [done|right; lia]]]].
  destruct (IH (a + 1) (msg3_bits conf (a + 1))) as (I1 & I2); [lia|lia|apply msg3_bits_bytes|lia|]. split; [lia|done].
Qed.

Lemma DoScheduleUlMsg3_ok rachList sym st num s :
  slot_wf st num s -> 0 <= sym <= st -> Forall (fun r => 0 < r.(m_estimatedSize)) rachList ->
  let r := DoScheduleUlMsg3 conf rachList sym s in
  0 <= r.1 <= sym /\ slot_wf (st - (sym - r.1)) num r.2 /\ r.2.(sl_ues) = s.(sl_ues).
Proof.
  intros W S F. revert sym st s W S. induction F as [|q l Q F IH]; intros sym st s W S; cbn [DoScheduleUlMsg3].
  { cbn. rewrite Z.sub_diag, Z.sub_0_r. split; [lia|done]. }
  pose proof (tiling_range _ _ _ _ _ (sw_tiling _ _ _ W)) as R. unfold slot_symbols in R.
  destruct (msg3_loop_ok (Z.to_nat sym) q.(m_estimatedSize) sym 0 0) as (M1 & M2 & [c Mc] & _); [lia|done|by exists 0|lia|].
  destruct (msg3_loop _ _ _ _ _ _) as [a t]. cbn [fst snd] in *.
  destruct (Z.ltb_spec t q.(m_estimatedSize)); [cbn; rewrite Z.sub_diag, Z.sub_0_r; split; [lia|done]|].
  assert (1 <= a) by (destruct (decide (a = 0)); [specialize (M2 ltac:(done)); lia|lia]).
  set (v := slot_info (msg3_dci conf (rach_rnti q) (spoint_sym (back a (sl_point s))) a t)).
  destruct (IH (sym - a) (st - a) (mkSlot (back a (sl_point s)) (sl_ues s) (push_front v (sl_alloc s)))) as (I1 & I2 & I3).
  - rewrite push_eq, (sw_num _ _ _ W). apply (slot_push _ _ _ a _ _ W); [lia| |done].
    apply whole_mask_in; try done; [|intros _; cbn; subst t; rewrite Z.div_mul by done; lia].
    cbn. rewrite (sw_point _ _ _ W). cbn. apply wrap_small. unfold fits. lia.
  - lia.
  - split; [lia|]. split; [|done]. by replace (st - (sym - _)) with (st - a - (sym - a - (DoScheduleUlMsg3 conf l (sym - a)
      {| sl_point := back a (sl_point s); sl_ues := sl_ues s; sl_alloc := push_front v (sl_alloc s) |}).1)) by lia.
Qed.

(** ** Retransmissions *)

(** A DCI that answers the feedback [fb] *)
Definition resends (fb : HarqInfo) (v : VarTti) : Prop :=
  dci_type (m_dci v) = DATA /\ dci_rnti (m_dci v) = fb.(fb_rnti) /\ m_harqProcess (m_dci v) = fb.(fb_process) /\ 0 < m_rv (m_dci v).

(** The process of a negative answer that waits again, with the DCI it was or will be sent with *)
Lemma put_resend_ok m fb ue p q d :
  map_Forall (ue_wf conf) m -> map_Forall (fun _ => ul_clear) m -> 0 <= fb.(fb_rnti) ->
  m !! ue_key fb.(fb_rnti) = Some ue -> procs ue.(m_ulHarq) !! fb.(fb_process) = Some p ->
  hp_active p = true -> hp_status p = RECEIVED_FEEDBACK ->
  hp_active q = true -> hp_status q = WAITING_FEEDBACK -> hp_timer q = 0 -> m_dciElement q = Some d ->
  m_harqProcess d = fb.(fb_process) -> 0 <= m_rv d <= maxHarqReTx conf -> ul_dci_ok conf (ue_key fb.(fb_rnti)) d ->
  forall mrb, let m' := put_ue fb.(fb_rnti) (ue <| m_ulMRBRetx := mrb |> <| m_ulHarq ::= harq_set fb.(fb_process) q |>) m in
  map_Forall (ue_wf conf) m' /\ map_Forall (fun _ => ul_clear) m' /\ ues_rel same_ue m m' /\ waiting_kept m m' /\
  proc_at m' (ue_key fb.(fb_rnti)) fb.(fb_process) = Some q /\
  forall k id, (k, id) <> (ue_key fb.(fb_rnti), fb.(fb_process)) -> proc_at m' k id = proc_at m k id.
Proof.
  intros W C R0 E Ep A St Aq Sq Tq Eq Hd Rv Dk mrb m'. pose proof (W _ ue E) as Wu.
  set (u1 := ue <| m_ulMRBRetx := mrb |>). assert (ue_wf conf (ue_key (fb_rnti fb)) u1) as W1 by (by destruct Wu; split).
  destruct (set_ulHarq_same conf _ u1 (harq_set (fb_process fb) q (m_ulHarq ue)) W1) as (X & Y & Z0).
  { eapply harq_set_same_wf; [apply (uw_harq _ _ _ Wu)|exact Ep| |by rewrite A, Aq].
    split; [lia|]. rewrite Aq, Sq, Eq. split; [done|]. by exists d. }
  { change (procs (harq_set (fb_process fb) q (m_ulHarq ue))) with (<[fb_process fb := q]> (procs (m_ulHarq ue))).
    apply procs_insert_ok; [apply (uw_procs _ _ _ Wu)|]. intros _ d' Ed'. rewrite Eq in Ed'. by injection Ed' as <-. }
  { done. }
  destruct (put_proc_wf conf m _ ue (set_harq UL (harq_set (fb_process fb) q (m_ulHarq ue)) u1) (fb_process fb) q W E X Y Z0 eq_refl)
    as (P1 & P2 & P3 & P4 & P5).
  assert (proc_at m (ue_key (fb_rnti fb)) (fb_process fb) = Some p) as Pa by (apply proc_at_Some; by exists ue).
  split; [exact P1|]. split; [exact (P2 C)|]. split; [exact P3|]. split; [|split; [exact P4|exact P5]].
  eapply (waits_kept_proc UL _ _ _ _ _ Pa); [|exact P5]. intros _. by rewrite St.
Qed.

(** What is needed of a process to send it again *)
Lemma ready_process m fb :
  map_Forall (ue_wf conf) m -> fb_ready conf m fb ->
  exists ue p d, m !! ue_key fb.(fb_rnti) = Some ue /\ procs ue.(m_ulHarq) !! fb.(fb_process) = Some p /\
    hp_active p = true /\ hp_status p = RECEIVED_FEEDBACK /\ m_dciElement p = Some d /\ m_harqProcess d = fb.(fb_process) /\
    0 <= m_rv d < maxHarqReTx conf /\ ul_dci_ok conf (ue_key fb.(fb_rnti)) d.
Proof.
  intros W. apply (ready_side UL (ul_dci_ok conf) conf). intros k ue E. apply ue_wf_side, (W k ue E).
Qed.

Lemma fb_ready_frame m m' fb l :
  fb_key fb ∉ fb_key <$> l -> 0 <= fb.(fb_rnti) ->
  (forall k id, (k, id) <> (ue_key fb.(fb_rnti), fb.(fb_process)) -> proc_at m' k id = proc_at m k id) ->
  Forall (fb_ready conf m) l -> Forall (fb_ready conf m') l.
Proof. apply (ready_frame UL). Qed.

(** The DCI of a retransmission lies below the rest of the slot. *)
Lemma retx_in k harqId sym d :
  ul_dci_ok conf k d -> 0 <= m_rv d < 3 -> m_numSym d <= sym ->
  let v := slot_info (retx_dci harqId (sym - m_numSym d) d) in
  alloc_in (beam_of m0) (GetUlBitmask conf) sent_before (sym - m_numSym d) (m_numSym d)
    (beam_of m0 (dci_rnti (m_dci v))) v /\
  ul_dci_ok conf k (m_dci v) /\ m_rv (m_dci v) = m_rv d + 1.
Proof.
  intros [D1 D2 D3 Dt D4 D5] Rv Le v. assert (m_rv (m_dci v) = m_rv d + 1) as Er by (apply wrap_small; unfold fits; lia).
  split; [|split; [by split|done]]. split; try done; [by right|]. split; [|by intros _]. intros _. rewrite Er. lia.
Qed.

(** Nothing is taken back from a slot. *)
Definition grows (s s' : SlotState) : Prop :=
  forall v, v ∈ s.(sl_alloc).(m_varTtiAllocInfo) -> v ∈ s'.(sl_alloc).(m_varTtiAllocInfo).

Lemma grows_refl s : grows s s.
Proof. by intros v. Qed.
#[local] Hint Resolve grows_refl : oran.

Definition sent_again (s : SlotState) (fb : HarqInfo) : Prop := exists v, v ∈ s.(sl_alloc).(m_varTtiAllocInfo) /\ resends fb v.

(** The process [p] waits for feedback from now on. *)
Definition waits (p : HarqProcess) : HarqProcess := p <| hp_status := WAITING_FEEDBACK |> <| hp_timer := 0 |>.
Definition with_dci (d : Dci) (p : HarqProcess) : HarqProcess := p <| m_dciElement := Some d |>.

Lemma waits_eq p : hp_active (waits p) = hp_active p /\ hp_status (waits p) = WAITING_FEEDBACK /\ hp_timer (waits p) = 0 /\
  m_dciElement (waits p) = m_dciElement p.
Proof. by destruct p. Qed.
Lemma with_dci_eq d p : hp_active (with_dci d p) = hp_active p /\ hp_status (with_dci d p) = hp_status p /\
  hp_timer (with_dci d p) = hp_timer p /\ m_dciElement (with_dci d p) = Some d.
Proof. by destruct p. Qed.

(** The step of ScheduleUlHarq for a process that fits *)
Lemma resend_fits st num s fb ue p d mrb :
  slot_wf st num s -> 0 <= num < 200 -> m_numSym d <= st -> 0 <= fb.(fb_rnti) ->
  s.(sl_ues) !! ue_key fb.(fb_rnti) = Some ue -> procs ue.(m_ulHarq) !! fb.(fb_process) = Some p ->
  hp_active p = true -> hp_status p = RECEIVED_FEEDBACK -> 0 <= m_rv d < maxHarqReTx conf ->
  ul_dci_ok conf (ue_key fb.(fb_rnti)) d ->
  let d' := retx_dci fb.(fb_process) (st - m_numSym d) d in
  let ues := put_ue fb.(fb_rnti) (ue <| m_ulMRBRetx := mrb |> <| m_ulHarq ::= harq_set fb.(fb_process) (with_dci d' (waits p)) |>) s.(sl_ues) in
  slot_wf (st - m_numSym d) (num + m_numSym d)
    (mkSlot (back (m_numSym d) s.(sl_point)) ues (push_front (slot_info d') (add_symbols (m_numSym d) s.(sl_alloc)))) /\
  waiting_kept s.(sl_ues) ues /\ ues_rel same_ue s.(sl_ues) ues /\ resends fb (slot_info d') /\
  forall k id, (k, id) <> (ue_key fb.(fb_rnti), fb.(fb_process)) -> proc_at ues k id = proc_at s.(sl_ues) k id.
Proof.
  intros W Nm Le R0 E Ep A St Rv Dk d' ues. pose proof (maxHarqReTx_range conf) as Mx. pose proof (ud_num _ _ _ Dk) as Dn.
  destruct (retx_in _ (fb_process fb) st d Dk ltac:(lia) Le) as (Ain & Dk' & Er). fold d' in Ain, Dk', Er.
  change (m_dci (slot_info d')) with d' in *.
  destruct (waits_eq p) as (W1 & W2 & W3 & W4). destruct (with_dci_eq d' (waits p)) as (V1 & V2 & V3 & V4).
  destruct (put_resend_ok _ fb ue p (with_dci d' (waits p)) d' (sw_ues _ _ _ W) (sw_clear _ _ _ W) R0 E Ep A St
    ltac:(by rewrite V1, W1) ltac:(by rewrite V2) ltac:(by rewrite V3) V4 eq_refl ltac:(lia) Dk' mrb) as (P1 & P2 & P3 & P4 & P5 & P6).
  fold ues in P1, P2, P3, P4, P5, P6.
  assert (dci_rnti d' = fb_rnti fb) as Ern by (change (dci_rnti d') with (dci_rnti d); rewrite (ud_rnti _ _ _ Dk); unfold ue_key; lia).
  assert (granted ues (slot_info d')) as Gr.
  { intros _. exists (with_dci d' (waits p)). change (m_dci (slot_info d')) with d'. rewrite Ern, V1, V2, V3, W1. by split_and!. }
  split; [|split; [done|split; [done|split; [|done]]]].
  - rewrite push_add, (sw_num _ _ _ W), wrap_small by (unfold fits; pose proof (ud_num _ _ _ Dk); lia).
    exact (slot_push _ _ _ (m_numSym d) (slot_info d') (num + m_numSym d) (slot_ues _ _ _ ues W P1 P2 P3 P4) ltac:(lia) Ain Gr).
  - split; [done|]. split; [done|]. split; [done|]. change (m_dci (slot_info d')) with d'. lia.
Qed.

(** Each process is sent again if there is room for it, and is kept for the next slot if not; but
    once no symbol is left the rest of the feedback is dropped. *)
Lemma ScheduleUlHarq_ok l sym keep0 st num s :
  slot_wf st num s -> 0 <= sym <= st -> 0 <= num -> num + sym < 200 -> Forall (fb_ready conf s.(sl_ues)) l -> NoDup (fb_key <$> l) ->
  exists sym' keep s', ScheduleUlHarq conf l sym keep0 s = Ok (sym', keep0 ++ keep, s') /\ 0 <= sym' <= sym /\
    slot_wf (st - (sym - sym')) (num + (sym - sym')) s' /\ keep `sublist_of` l /\
    waiting_kept s.(sl_ues) s'.(sl_ues) /\ ues_rel same_ue s.(sl_ues) s'.(sl_ues) /\
    grows s s' /\
    forall fb, fb ∈ l -> sent_again s' fb \/ fb ∈ keep \/ sym' = 0.
Proof.
  revert sym keep0 st num s. induction l as [|fb l IH]; intros sym keep0 st num s W S N0 Nm Rd Nd; cbn [ScheduleUlHarq].
  { exists sym, [], s. rewrite app_nil_r, Z.sub_diag, Z.sub_0_r, Z.add_0_r. split_and!; try lia; auto with oran. }
  destruct (Z.leb_spec sym 0) as [Z0|Pos].
  { exists sym, [], s. rewrite app_nil_r, Z.sub_diag, Z.sub_0_r, Z.add_0_r. split_and!; try lia; auto with oran. apply sublist_nil_l. }
  apply Forall_cons in Rd as [Rf Rd]. cbn in Nd. apply NoDup_cons in Nd as [Nf Nd]. pose proof Rf as (Nok & R0 & _).
  destruct (ready_process _ _ (sw_ues _ _ _ W) Rf) as (ue & p & d & E & Ep & A & St & Ed & Hd & Rv & Dk).
  pose proof (ud_num _ _ _ Dk) as Dn. pose proof (tiling_range _ _ _ _ _ (sw_tiling _ _ _ W)) as R. unfold slot_symbols in R.
  rewrite Nok, (find_ue_ok _ _ _ E). cbn [abort_if res_bind]. rewrite (harq_get_ok _ _ _ Ep). cbn [res_bind]. rewrite St.
  rewrite bool_decide_true by done. cbn [negb abort_if res_bind]. fold (waits p).
  destruct (waits_eq p) as (W1 & W2 & W3 & W4). rewrite W4, Ed.
  destruct (Z.leb_spec (m_numSym d) sym) as [Fit|NoFit].
  - rewrite (ud_ul _ _ _ Dk), bool_decide_true by done. cbn [negb abort_if res_bind].
    assert (spoint_sym (back (m_numSym d) (sl_point s)) = st - m_numSym d) as ->.
    { rewrite (sw_point _ _ _ W). cbn. apply wrap_small. unfold fits. lia. }
    fold (with_dci (retx_dci (fb_process fb) (st - m_numSym d) d) (waits p)).
    destruct (resend_fits st num s fb ue p d (u32 (m_numSym d * Z.of_nat conf.(GetBandwidthInRbg))) W ltac:(lia) ltac:(lia) R0 E Ep A St Rv Dk)
      as (Ws & K & Sm & Rs & Fr).
    destruct (IH (sym - m_numSym d) keep0 _ _ _ Ws) as (sym' & keep & s' & Es & I1 & I2 & I3 & I4 & I5 & I6 & I7);
      [lia|lia|lia|exact (fb_ready_frame _ _ fb l Nf R0 Fr Rd)|done|].
    cbn [sl_ues sl_alloc] in *. exists sym', keep, s'. split; [exact Es|]. split; [lia|]. split; [|split; [by constructor|split; [|split; [|split]]]].
    + replace (st - (sym - sym')) with (st - m_numSym d - (sym - m_numSym d - sym')) by lia.
      by replace (num + (sym - sym')) with (num + m_numSym d + (sym - m_numSym d - sym')) by lia.
    + by eapply waits_kept_trans.
    + by eapply same_ues_trans.
    + intros v Hv. apply I6. rewrite push_add. by right.
    + intros x [->|Hx]%elem_of_cons; [|by apply I7]. left. eexists. split; [apply I6; rewrite push_add; by left|exact Rs].
  - destruct (put_resend_ok _ fb ue p (waits p) d (sw_ues _ _ _ W) (sw_clear _ _ _ W) R0 E Ep A St
      ltac:(by rewrite W1) W2 W3 ltac:(by rewrite W4) Hd ltac:(lia) Dk ue.(m_ulMRBRetx)) as (P1 & P2 & P3 & P4 & P5 & P6).
    assert (ue <| m_ulMRBRetx := m_ulMRBRetx ue |> = ue) as Eu by (by destruct ue). rewrite Eu in *.
    destruct (IH sym (keep0 ++ [fb]) st num _ (slot_ues _ _ _ _ W P1 P2 P3 P4) S N0 Nm)
      as (sym' & keep & s' & Es & I1 & I2 & I3 & I4 & I5 & I6 & I7);
      [exact (fb_ready_frame _ _ fb l Nf R0 P6 Rd)|done|].
    exists sym', (fb :: keep), s'. rewrite <- app_assoc in Es. split; [exact Es|]. split; [done|]. split; [done|]. split; [by constructor|].
    split; [by eapply waits_kept_trans|]. split; [by eapply same_ues_trans|]. split; [done|].
    intros x [->|Hx]%elem_of_cons; [right; left; by left|]. destruct (I7 x Hx) as [?|[?|?]]; [by left|right; left; by right|by right; right].
Qed.
End slot.

(** ** Scheduling requests *)

Lemma LcgUpdateQueue_ok n lcg :
  lcg_wf lcg -> 0 <= n < 2 ^ 32 - 4 -> exists lcg', LcgUpdateQueue n lcg = Ok lcg' /\ lcg_wf lcg'.
Proof.
  intros (c & lc & -> & W) Hn. unfold LcgUpdateQueue, NumOfLC.
  assert (size ({[c := lc]} : NrMacSchedulerLCG) = 1%nat) as Sz by apply map_size_singleton.
  rewrite Sz. cbn [abort_if Z.ltb Z.eqb res_bind]. change (Z.of_nat 1) with 1. cbn [Z.ltb Z.eqb Z.compare Pos.compare Pos.compare_cont abort_if res_bind].
  eexists. split; [done|]. exists c, (lc <| m_rlcTransmissionQueueSize := n |>). 
  rewrite Z.div_1_r, wrap_small by (unfold fits; lia). split; [apply map_fmap_singleton|]. destruct W as (W1 & W2 & W3). by destruct lc.
Qed.

(** A change of the groups of a UE *)
Lemma set_ulLCG_ok conf k ue lcgs :
  ue_wf conf k ue -> map_Forall (fun _ => lcg_wf) lcgs ->
  ue_wf conf k (ue <| m_ulLCG := lcgs |>) /\ same_ue k ue (ue <| m_ulLCG := lcgs |>) /\
  (ul_clear ue -> ul_clear (ue <| m_ulLCG := lcgs |>)) /\ m_ulHarq (ue <| m_ulLCG := lcgs |>) = m_ulHarq ue.
Proof. intros [W1 W2 W3 W4 W5] L. split; [by split|]. by split_and!. Qed.

Lemma put_lcgs_ok conf m k ue lcgs :
  map_Forall (ue_wf conf) m -> map_Forall (fun _ => ul_clear) m -> m !! k = Some ue -> map_Forall (fun _ => lcg_wf) lcgs ->
  let m' := <[k := ue <| m_ulLCG := lcgs |>]> m in
  map_Forall (ue_wf conf) m' /\ map_Forall (fun _ => ul_clear) m' /\ ues_rel same_ue m m' /\
  (forall k id, proc_at m' k id = proc_at m k id).
Proof.
  intros W C E L m'. destruct (set_ulLCG_ok conf k ue lcgs (W k ue E) L) as (W1 & S1 & C1 & P1).
  split; [by apply map_Forall_insert_2|]. split; [apply map_Forall_insert_2; [apply C1; exact (C k ue E)|done]|].
  split; [by eapply ues_rel_insert; [apply same_ues_refl|exact E|]|].
  intros k' id. unfold proc_of, m'. destruct (decide (k' = k)) as [->|Ne]; [by rewrite lookup_insert_eq, E|by rewrite lookup_insert_ne].
Qed.

Lemma sr_groups_ok (lcgs : gmap Z NrMacSchedulerLCG) (l : list Z) :
  map_Forall (fun _ => lcg_wf) lcgs ->
  exists lcgs' : gmap Z NrMacSchedulerLCG, res_fold (fun g (lcgs : gmap Z NrMacSchedulerLCG) =>
      match lcgs !! g with
      | None => Ok lcgs
      | Some lcg => let* lcg := LcgUpdateQueue 12 lcg in Ok (<[g := lcg]> lcgs)
      end) l lcgs = Ok lcgs' /\ map_Forall (fun _ => lcg_wf) lcgs'.
Proof.
  revert lcgs. induction l as [|g l IH]; intros lcgs W; cbn [res_fold]; [by exists lcgs|].
  destruct (lcgs !! g) as [lcg|] eqn:E; [|cbn [res_bind]; auto].
  destruct (LcgUpdateQueue_ok 12 lcg (W g lcg E) ltac:(lia)) as (lcg' & -> & W'). cbn [res_bind].
  apply IH. by apply map_Forall_insert_2.
Qed.

Lemma DoScheduleUlSr_ok conf rntis m :
  map_Forall (ue_wf conf) m -> map_Forall (fun _ => ul_clear) m -> Forall (fun r => is_Some (m !! ue_key r)) rntis ->
  exists m', DoScheduleUlSr rntis m = Ok m' /\ map_Forall (ue_wf conf) m' /\ map_Forall (fun _ => ul_clear) m' /\
    ues_rel same_ue m m' /\ forall k id, proc_at m' k id = proc_at m k id.
Proof.
  unfold DoScheduleUlSr. revert m. induction rntis as [|r l IH]; intros m W C F; cbn [res_fold].
  { exists m. split_and!; auto with oran. }
  apply Forall_cons in F as [[ue E] F]. rewrite (find_ue_ok _ _ _ E). cbn [res_bind].
  destruct (sr_groups_ok (m_ulLCG ue) (map_to_list (m_ulLCG ue)).*1 (uw_lcgs _ _ _ (W _ _ E))) as (lcgs & -> & L). cbn [res_bind].
  destruct (put_lcgs_ok conf m (ue_key r) ue lcgs W C E L) as (W1 & C1 & S1 & P1).
  destruct (IH _ W1 C1) as (m' & Em & W' & C' & S' & P').
  { eapply Forall_impl; [exact F|]. intros x [u Eu]. destruct (ues_rel_lookup _ _ _ _ _ S1 Eu) as (u' & Eu' & _). by exists u'. }
  exists m'. split; [exact Em|]. split; [done|]. split; [done|]. split; [by eapply same_ues_trans|].
  intros k id. by rewrite P', P1.
Qed.

(** The feedback of an uplink slot names active processes. *)
Lemma ComputeActiveHarq_ok conf l m :
  Forall (fb_ready conf m) l -> exists a, ComputeActiveHarq l m = Ok a /\ (a = [] <-> l = []).
Proof.
  intros F. unfold ComputeActiveHarq.
  assert (forall a0 : list (BeamId * list (Z * Z)), exists a, res_fold (fun fb activeUlHarq =>
      let* ue := find_ue fb.(fb_rnti) m in
      let* p := harq_get fb.(fb_process) ue.(m_ulHarq) in
      let* _ := abort_if (negb p.(hp_active)) "NS_ASSERT: m_active" in
      Ok (active_add ue.(m_beamId) (fb.(fb_rnti), fb.(fb_process)) activeUlHarq)) l a0 = Ok a /\
      (a = [] <-> a0 = [] /\ l = [])) as G.
  { induction F as [|fb l (Nok & R0 & p & d & (ue & E & Ep)%proc_at_Some & A & _) F IH]; intros a0; cbn [res_fold].
    - exists a0. naive_solver.
    - rewrite (find_ue_ok _ _ _ E). cbn [res_bind]. rewrite (harq_get_ok _ _ _ Ep). cbn [res_bind]. rewrite A. cbn [negb abort_if res_bind].
      destruct (IH (active_add (m_beamId ue) (fb_rnti fb, fb_process fb) a0)) as (a & -> & Ia). exists a. split; [done|].
      split; [|by intros [_ ?]]. intros [Ea _]%Ia. exfalso. by destruct a0 as [|[b v] a0]; cbn in Ea; [|destruct (decide _)]. }
  destruct (G []) as (a & -> & Ia). exists a. split; [done|]. naive_solver.
Qed.

(** ** The active UEs *)

(** A UE with data and a free process *)
Definition may_send (dir : Mode) (ue : SchedUe) : bool := (0 <? tot_buffer (lcg_of dir ue)) && CanInsert (harq_of dir ue).

(** The active UEs are in the store, under their beam, and may send. *)
Definition active_ok (dir : Mode) (m : gmap nat SchedUe) (active : ActiveUes) : Prop :=
  NoDup active.*1 /\ NoDup (active_ptrs active) /\
  Forall (fun e => e.2 <> [] /\
    Forall (fun x => exists ue, m !! x.1 = Some ue /\ ue.(m_beamId) = e.1 /\ may_send dir ue = true) e.2) active.

Lemma active_ptrs_cons b v (active : ActiveUes) : active_ptrs ((b, v) :: active) = v.*1 ++ active_ptrs active.
Proof. done. Qed.

Lemma active_add_ptrs b e (active : ActiveUes) : active_ptrs (active_add b e active) ≡ₚ e.1 :: active_ptrs active.
Proof.
  induction active as [|[c v] a IH]; [done|]. cbn [active_add]. destruct (decide (c = b)); rewrite !active_ptrs_cons.
  - rewrite fmap_app, <- app_assoc. cbn. by rewrite Permutation_middle.
  - rewrite IH. by rewrite Permutation_middle.
Qed.

Lemma active_add_beams b (e : nat * Z) (active : ActiveUes) c : c ∈ (active_add b e active).*1 <-> c = b \/ c ∈ active.*1.
Proof.
  induction active as [|[d v] a IH]; cbn [active_add]; [cbn; set_solver|].
  destruct (decide (d = b)) as [->|Ne]; cbn [fmap list_fmap fst]; [set_solver|]. rewrite !elem_of_cons, IH. set_solver.
Qed.

Lemma active_add_ok dir m b e ue active :
  active_ok dir m active -> e.1 ∉ active_ptrs active -> m !! e.1 = Some ue -> m_beamId ue = b -> may_send dir ue = true ->
  active_ok dir m (active_add b e active).
Proof.
  intros (N & P & F) Ne E B S. split; [|split].
  - clear P F. induction active as [|[c v] a IH]; cbn [active_add]; [repeat constructor; set_solver|].
    rewrite active_ptrs_cons in Ne. cbn in N. apply NoDup_cons in N as [Nc N].
    destruct (decide (c = b)) as [->|Nb]; cbn; [by constructor|].
    constructor; [|apply IH; [done|set_solver]]. rewrite active_add_beams. naive_solver.
  - rewrite active_add_ptrs. by constructor.
  - clear N P Ne. induction F as [|[c v] a [Fv Fe] F IH]; cbn [active_add].
    { repeat constructor; [done|]. by exists ue. }
    destruct (decide (c = b)) as [->|Nb]; [|by constructor]. constructor; [|done]. cbn. split; [by destruct v|].
    apply Forall_app. split; [done|]. repeat constructor. by exists ue.
Qed.

#[export] Instance active_ptrs_perm : Proper ((≡ₚ) ==> (≡ₚ)) (active_ptrs (BeamId := BeamId)).
Proof.
  intros a a' P. unfold active_ptrs. induction P as [|[b v] a a' P IH|[b v] [c w] a|a a' a'' P IH P' IH']; cbn; [done|by rewrite IH| |by etrans].
  rewrite !app_assoc. f_equiv. apply Permutation_app_comm.
Qed.

Lemma active_ok_perm dir m active active' : active ≡ₚ active' -> active_ok dir m active -> active_ok dir m active'.
Proof. intros P (N & Q & F). unfold active_ok. by rewrite <- P. Qed.

Section active.
Context `{CppHash, !CppHashLaws}.

Lemma ComputeActiveUe_ok dir m : active_ok dir m (ComputeActiveUe dir m).
Proof.
  unfold ComputeActiveUe. eapply active_ok_perm; [symmetry; apply hashed_perm|].
  set (step := fun active e => _).
  assert (forall l, (forall e, e ∈ l -> m !! e.1 = Some e.2) -> NoDup l.*1 -> forall a, active_ok dir m a ->
    (forall p, p ∈ l.*1 -> p ∉ active_ptrs a) -> active_ok dir m (foldl step a l)) as G.
  { induction l as [|[k ue] l IH]; intros M N a A D; [done|]. cbn in N. apply NoDup_cons in N as [Nk N].
    cbn [foldl]. apply IH; [intros e He; apply M; by right|done| |].
    - unfold step. cbn [fst snd]. destruct ((0 <? tot_buffer (lcg_of dir ue)) && CanInsert (harq_of dir ue)) eqn:S; [|done].
      eapply (active_add_ok dir m (m_beamId ue) (k, tot_buffer (lcg_of dir ue)) ue); try done; [apply D; by left|apply (M (k, ue)); by left].
    - intros p Hp. unfold step. cbn [fst snd].
      destruct (_ && _); [|apply D; by right]. rewrite active_add_ptrs. cbn. apply not_elem_of_cons. split; [|apply D; by right].
      by intros ->. }
  apply G.
  - intros [k ue] He. rewrite hashed_perm in He. by apply elem_of_map_to_list in He.
  - rewrite hashed_perm. apply NoDup_fst_map_to_list.
  - split; [constructor|]. split; constructor.
  - intros p _. apply not_elem_of_nil.
Qed.

End active.

(** ** Removal *)

Lemma erase_first_sub m rnti v : erase_first m rnti v `sublist_of` v.
Proof. induction v as [|e v IH]; cbn; [done|]. destruct (_ =? _); [by constructor|by constructor]. Qed.

Lemma erase_first_keeps m rnti v e : e ∈ v -> ue_rnti m e.1 <> rnti -> e ∈ erase_first m rnti v.
Proof.
  induction v as [|x v IH]; cbn; intros He Ne; [done|]. apply elem_of_cons in He as [->|He].
  - rewrite (proj2 (Z.eqb_neq _ _)) by done. by left.
  - destruct (_ =? _); [done|]. right. auto.
Qed.

Lemma remove_scheduled_ptrs m rnti active :
  active_ptrs (remove_scheduled m rnti active) `sublist_of` active_ptrs active.
Proof.
  induction active as [|[b v] a IH]; [done|]. cbn [remove_scheduled]. rewrite active_ptrs_cons.
  pose proof (erase_first_sub m rnti v) as S. destruct (erase_first m rnti v) as [|e v'] eqn:E.
  - by apply sublist_inserts_l.
  - rewrite active_ptrs_cons. apply sublist_app; [by apply fmap_sublist|done].
Qed.

Lemma remove_scheduled_ok dir m rnti active : active_ok dir m active -> active_ok dir m (remove_scheduled m rnti active).
Proof.
  intros (N & P & F). split; [|split].
  - clear P F. eapply sublist_NoDup; [exact N|]. clear N. induction active as [|[b v] a IH]; [done|]. cbn [remove_scheduled].
    destruct (erase_first m rnti v); [by constructor|by constructor].
  - eapply sublist_NoDup; [exact P|]. apply remove_scheduled_ptrs.
  - clear N P. induction F as [|[b v] a [Fv Fe] F IH]; [constructor|]. cbn [remove_scheduled].
    pose proof (erase_first_sub m rnti v) as S. destruct (erase_first m rnti v) as [|e v'] eqn:E; [done|].
    constructor; [|done]. cbn. split; [done|]. rewrite <- E in S |- *. 
    apply Forall_forall. intros x Hx. rewrite Forall_forall in Fe. apply Fe. by eapply elem_of_sublist.
Qed.

(** A UE is filed under its RNTI. *)
Definition has_rnti (k : nat) (ue : SchedUe) : Prop := ue.(ue_ul).(m_rnti) = Z.of_nat k.

Lemma ue_wf_rnti conf (m : gmap nat SchedUe) : map_Forall (ue_wf conf) m -> map_Forall has_rnti m.
Proof. intros W k ue E. apply (uw_rnti _ _ _ (W k ue E)). Qed.

(** A UE that has an allocation is not among the active ones any more. *)
Lemma remove_scheduled_gone dir m k active :
  map_Forall has_rnti m -> active_ok dir m active -> k ∉ active_ptrs (remove_scheduled m (Z.of_nat k) active).
Proof.
  intros W (_ & P & F).
  assert (Forall (fun e => e.2 <> [] /\ Forall (fun x => ue_rnti m x.1 = Z.of_nat x.1) e.2) active) as R.
  { eapply Forall_impl; [exact F|]. intros e [Ne Fe]. split; [done|]. eapply Forall_impl; [exact Fe|]. intros x (ue & E & _).
    unfold ue_rnti. rewrite E. exact (W _ _ E). }
  clear F W. induction R as [|[b v] a [Ne Fv] R IH]; [by intros ?%elem_of_nil|]. cbn [remove_scheduled]. rewrite active_ptrs_cons in P.
  apply NoDup_app in P as (P1 & P2 & P3).
  assert (k ∉ (erase_first m (Z.of_nat k) v).*1 /\ (k ∈ v.*1 \/ erase_first m (Z.of_nat k) v = v)) as [G1 G2].
  { cbn in Fv. clear P2 IH Ne. induction Fv as [|e v He Fv IHv]; [split; [by intros ?%elem_of_nil|by right]|]. cbn in P1. apply NoDup_cons in P1 as [Ne P1].
    cbn [erase_first]. destruct (Z.eqb_spec (ue_rnti m e.1) (Z.of_nat k)) as [E|E].
    - assert (e.1 = k) as <- by lia. split; [done|]. left. cbn. by left.
    - destruct (IHv P1) as [I1 I2]. split; [|destruct I2 as [?|E2]; [left; by right|right; by rewrite E2]].
      cbn. apply not_elem_of_cons. split; [|done]. intros ->. lia. }
  destruct (erase_first m (Z.of_nat k) v) as [|e v'] eqn:E.
  - destruct G2 as [Hk|<-]; [by apply P2|done].
  - rewrite active_ptrs_cons. rewrite not_elem_of_app. split; [done|]. by apply IH.
Qed.

Lemma remove_all_ok dir m l active :
  map_Forall has_rnti m -> active_ok dir m active ->
  let active' := foldl (fun active alloc => remove_scheduled m (dci_rnti alloc.(m_dci)) active) active l in
  active_ok dir m active' /\ active_ptrs active' `sublist_of` active_ptrs active /\
  forall k v, k ∈ active_ptrs active' -> v ∈ l -> dci_rnti (m_dci v) <> Z.of_nat k.
Proof.
  intros W. revert active. induction l as [|v l IH]; intros active A; cbn [foldl].
  { split; [done|]. split; [done|]. by intros k v _ ?%elem_of_nil. }
  destruct (IH _ (remove_scheduled_ok dir m (dci_rnti (m_dci v)) active A)) as (I1 & I2 & I3). split; [done|].
  split; [etrans; [exact I2|apply remove_scheduled_ptrs]|]. intros k w Hk [->|Hw]%elem_of_cons; [|by apply I3].
  intros E. eapply elem_of_sublist in Hk; [|exact I2]. rewrite E in Hk. by eapply remove_scheduled_gone in Hk.
Qed.
