(* ===== verification/UlData.v ===== *)
(** New uplink data of a slot: each beam with symbols adds a group of grants below the rest; and the
    uplink data of a whole slot. *)
From Stdlib Require Import ZArith Lia Lists.List.
From stdpp Require Import base list gmap strings list_numbers.
From coqutil Require Import Datatypes.RecordSettersUsingExistingGetters.
From S2P Require Import Prelude UlScheduler UlFacts UlProps Amc DlUe Dci LogicalChannels LcProps Harq MacScheduler.
From S2P Require Import ResourceMatrix UlSlot SlotLayout UlTiling HarqFacts MacFacts UlGrant UlSlotFacts.
Open Scope Z_scope.
(** A UE that gets new data has no other allocation in the slot. *)
Definition served_once (v w : VarTti) : Prop :=
  dci_type (m_dci v) = DATA -> m_rv (m_dci v) = 0 -> dci_rnti (m_dci v) <> dci_rnti (m_dci w).

(** New data of a UE keeps to its target. *)
Definition within_grant (targets : gmap Z Z) (v : VarTti) : Prop :=
  (dci_type (m_dci v) = DATA -> m_rv (m_dci v) = 0 ->
   forall t, targets !! dci_rnti (m_dci v) = Some t -> Z.of_nat (length (remaining_rbgs (m_rbgBitmask (m_dci v)))) <= t) /\
  carries v.

Section data.
Context `{CppHash, !CppHashLaws} `{NrAmc, !NrAmcLaws} (conf : SchedConf) (Ok_conf : conf_ok conf).
Context (m0 : gmap nat SchedUe) (targets : gmap Z Z).

(** A UE that is to get [owners]'s RBGs over [n] symbols of the beam [b] *)
Definition ready_ue (b : BeamId) (n : Z) (owners : list (Z * nat)) (m : gmap nat SchedUe) (p : nat) : Prop :=
  exists ue, m !! p = Some ue /\ ue.(m_beamId) = b /\ may_send UL ue = true /\
    m_ulRBG ue.(ue_ul) = share_of n owners p /\ within_target targets n ue.(ue_ul).

(** What holds of the UEs and of the allocations throughout *)
Record entries_wf (todo : list nat) (m : gmap nat SchedUe) (l : list VarTti) : Prop := {
  ew_ues : map_Forall (ue_wf conf) m;
  ew_same : ues_rel same_ue m0 m;
  ew_granted : Forall (granted m) l;
  ew_once : ForallOrdPairs served_once l;
  ew_fresh : forall p v, p ∈ todo -> v ∈ l -> dci_rnti (m_dci v) <> Z.of_nat p;
  ew_kept : waiting_kept m0 m
}.

(** The grants [g] of a beam so far, over the symbols from [st - n] to [st], on top of [rest] *)
Record group_wf (st n num : Z) (b : BeamId) (owners : list (Z * nat)) (todo : list nat) (g rest : list VarTti)
    (s : SlotState) (bs : BeamState) : Prop := {
  gw_point : s.(sl_point) = mkPoint 0 st;
  gw_alloc : s.(sl_alloc) = mkSlotAlloc num (g ++ rest);
  gw_in : Forall (alloc_in (beam_of m0) (GetUlBitmask conf) (within_grant targets) (st - n) n b) g;
  gw_apart : ForallOrdPairs apart g;
  gw_owner : Forall (fun v => exists q, dci_rnti (m_dci v) = Z.of_nat q /\
               forall i, m_rbgBitmask (m_dci v) !! i = Some true -> (Z.of_nat i, q) ∈ owners) g;
  gw_entries : entries_wf todo s.(sl_ues) (g ++ rest);
  gw_state : bs = match g with [] => mkBeamState false [] 0 | _ => mkBeamState true [st - n] n end
}.

(** Any change of the uplink part of a UE that leaves its RNTI *)
Lemma set_ue_ul k ue u :
  ue_wf conf k ue -> m_rnti u = m_rnti ue.(ue_ul) ->
  ue_wf conf k (ue <| ue_ul := u |>) /\ same_ue k ue (ue <| ue_ul := u |>) /\ m_ulHarq (ue <| ue_ul := u |>) = m_ulHarq ue.
Proof. intros [W1 W2 W3 W4 W5] E. split; [|by split_and!]. split; [change (m_rnti u = Z.of_nat k); congruence|done|exact W3|done|done]. Qed.

Lemma proc_at_same m p ue ue' :
  m !! p = Some ue -> m_ulHarq ue' = m_ulHarq ue -> forall k id, proc_at (<[p := ue']> m) k id = proc_at m k id.
Proof.
  intros E Eh k id. unfold proc_of. destruct (decide (k = p)) as [->|Ne]; [by rewrite lookup_insert_eq, E; cbn; rewrite Eh|by rewrite lookup_insert_ne].
Qed.

(** One UE fewer to come *)
Lemma entries_wf_skip p todo m m' l :
  entries_wf (p :: todo) m l -> map_Forall (ue_wf conf) m' -> ues_rel same_ue m m' -> waiting_kept m m' ->
  entries_wf todo m' l.
Proof.
  intros [W S G O F Kp] W' S' K. split; [done|by eapply same_ues_trans| |done|intros q v Hq; apply F; by right|by eapply waits_kept_trans].
  eapply Forall_impl; [exact G|]. intros v. by apply grant_waits_kept.
Qed.

(** A grant for the next UE *)
Lemma entries_wf_grant p todo m m' l v :
  entries_wf (p :: todo) m l -> NoDup (p :: todo) -> map_Forall (ue_wf conf) m' -> ues_rel same_ue m m' -> waiting_kept m m' ->
  dci_rnti (m_dci v) = Z.of_nat p -> granted m' v -> entries_wf todo m' (v :: l).
Proof.
  intros E N W' S' K R Gv. destruct (entries_wf_skip p todo m m' l E W' S' K) as [W S G O F Kp]. apply NoDup_cons in N as [Np N].
  split; [done|done|by constructor| | |done].
  - constructor; [|done]. apply Forall_forall. intros w Hw _ _. rewrite R. intros Ew.
    by apply (ew_fresh _ _ _ E p w ltac:(by left) Hw).
  - intros q w Hq [->|Hw]%elem_of_cons; [|by apply F]. rewrite R. intros Eq. assert (p = q) as -> by lia. done.
Qed.

(** The grant of a UE fits the group of its beam. *)
Lemma slot_info_in st n b owners p d id u :
  grant_of conf p st n (share_of n owners p) d -> NoDup owners.*1 ->
  (forall r q, (r, q) ∈ owners -> r ∈ remaining_rbgs (GetUlBitmask conf)) -> 1 <= n ->
  beam_of m0 (Z.of_nat p) = b -> m_rnti u = Z.of_nat p -> m_ulRBG u = share_of n owners p -> within_target targets n u ->
  alloc_in (beam_of m0) (GetUlBitmask conf) (within_grant targets) (st - n) n b (slot_info (d <| m_harqProcess := id |>)).
Proof.
  intros G No Sub N B Er Eg Wt. pose proof (grant_count conf p st n owners p d G No N) as Cnt.
  destruct G as [G1 G2 G3 G4 G5 G6 G7 G8 G9]. set (d' := d <| m_harqProcess := id |>).
  assert (m_symStart d' = m_symStart d /\ m_numSym d' = m_numSym d /\ dci_format d' = dci_format d /\ dci_rnti d' = dci_rnti d /\
    m_rbgBitmask d' = m_rbgBitmask d) as (D1 & D2 & D3 & D4 & D5) by (by destruct d).
  split; change (m_dci (slot_info d')) with d'; rewrite ?D1, ?D2, ?D3, ?D4, ?D5; try done.
  - by rewrite G6.
  - rewrite G8. symmetry. apply (co_length _ Ok_conf).
  - right. intros i Hi. apply G9, share_elem, Sub, remaining_elem in Hi as [_ Hi]. by rewrite Nat2Z.id in Hi.
  - split; [|intros _; change (m_tbSize (m_dci (slot_info d'))) with (m_tbSize d); lia].
    intros _ _ t Ht. change (m_dci (slot_info d')) with d' in *. rewrite D4, G6 in Ht. rewrite D5.
    unfold within_target in Wt. rewrite Er, Ht in Wt. unfold logical in Wt. rewrite Eg, share_length, Z.div_mul in Wt by lia. lia.
Qed.

Lemma slot_info_apart st n owners p d id g todo :
  grant_of conf p st n (share_of n owners p) d -> NoDup owners.*1 ->
  Forall (fun v => exists q, dci_rnti (m_dci v) = Z.of_nat q /\
    forall i, m_rbgBitmask (m_dci v) !! i = Some true -> (Z.of_nat i, q) ∈ owners) g ->
  (forall q v, q ∈ p :: todo -> v ∈ g -> dci_rnti (m_dci v) <> Z.of_nat q) ->
  Forall (apart (slot_info (d <| m_harqProcess := id |>))) g /\
  exists q, dci_rnti (m_dci (slot_info (d <| m_harqProcess := id |>))) = Z.of_nat q /\
    forall i, m_rbgBitmask (m_dci (slot_info (d <| m_harqProcess := id |>))) !! i = Some true -> (Z.of_nat i, q) ∈ owners.
Proof.
  intros G No Ow Fr. set (d' := d <| m_harqProcess := id |>).
  assert (dci_rnti d' = dci_rnti d /\ m_rbgBitmask d' = m_rbgBitmask d) as (D4 & D5) by (by destruct d).
  assert (forall i, m_rbgBitmask d' !! i = Some true -> (Z.of_nat i, p) ∈ owners) as Own.
  { intros i. rewrite D5. intros Hi. by apply (go_mask _ _ _ _ _ _ G), share_elem in Hi. }
  split; [|exists p; change (m_dci (slot_info d')) with d'; split; [rewrite D4; apply (go_rnti _ _ _ _ _ _ G)|done]].
  apply Forall_forall. intros w Hw i Hi Hj. rewrite Forall_forall in Ow. destruct (Ow w Hw) as (q & Eq & Oq).
  apply (Fr p w ltac:(by left) Hw). rewrite Eq. f_equal.
  apply Own in Hi. apply Oq in Hj. apply list_elem_of_lookup in Hi as [a Ha], Hj as [c Hc].
  assert (a = c) as -> by (eapply (NoDup_lookup owners.*1); [done|by rewrite list_lookup_fmap, Ha|by rewrite list_lookup_fmap, Hc]).
  congruence.
Qed.

(** A grant to a UE: what changes of it *)
Lemma granted_ue m p ue d id q v' lcgs :
  map_Forall (ue_wf conf) m -> m !! p = Some ue -> ul_dci_ok conf p (d <| m_harqProcess := id |>) ->
  harq_wf (maxHarqReTx conf) v' -> m_maxSize v' = m_maxSize (m_ulHarq ue) ->
  procs (m_ulHarq ue) !! id = Some q -> hp_active q = false ->
  procs v' = <[id := waiting (d <| m_harqProcess := id |>)]> (procs (m_ulHarq ue)) -> map_Forall (fun _ => lcg_wf) lcgs ->
  let m' := <[p := ue <| m_ulHarq := v' |> <| m_ulLCG := lcgs |>]> m in
  map_Forall (ue_wf conf) m' /\ ues_rel same_ue m m' /\ waiting_kept m m' /\
  proc_at m' p id = Some (waiting (d <| m_harqProcess := id |>)).
Proof.
  intros W E Dk Wv Mv Eq Aq Pv L m'. pose proof (W p ue E) as Wu.
  destruct (set_ulHarq_same conf p ue v' Wu Wv) as (W1 & S1 & _); [|done|].
  { rewrite Pv. apply procs_insert_ok; [apply (uw_procs _ _ _ Wu)|]. intros _ d' [= <-]. done. }
  destruct (set_ulLCG_ok conf p _ lcgs W1 L) as (W2 & S2 & _ & _).
  destruct (put_proc_wf conf m p ue ((set_harq UL v' ue) <| m_ulLCG := lcgs |>) id (waiting (d <| m_harqProcess := id |>)) W E W2) as (P1 & _ & P3 & P4 & P5).
  - by eapply same_ue_trans.
  - done.
  - exact Pv.
  - split; [exact P1|]. split; [exact P3|]. split; [|exact P4].
    eapply waits_kept_proc; [apply proc_at_Some; exists ue; by split| |exact P5]. by rewrite Aq.
Qed.

Lemma count_start_ok st n (g : list VarTti) (d : Dci) bs :
  m_symStart d = st - n -> m_numSym d = n -> 1 <= n <= 13 ->
  bs = match g with [] => mkBeamState false [] 0 | _ => mkBeamState true [st - n] n end ->
  count_start d bs = mkBeamState true [st - n] n.
Proof.
  intros E1 E2 N ->. unfold count_start. destruct g; cbn [bs_symbStart bs_allocSym bs_assigned].
  - rewrite bool_decide_false by apply not_elem_of_nil. rewrite E1, E2. by rewrite wrap_small by (unfold fits; lia).
  - rewrite E1, bool_decide_true by (by left). done.
Qed.

Lemma may_send_spec ue : may_send UL ue = true -> 0 < tot_buffer ue.(m_ulLCG) /\ CanInsert ue.(m_ulHarq) = true.
Proof. unfold may_send. intros [A B]%andb_true_iff. split; [by apply Z.ltb_lt|done]. Qed.

(** One UE of a beam: no RBGs, too small a block, or a grant *)
Lemma ul_data_ue_ok st n num b owners p buf todo g rest s bs :
  group_wf st n num b owners (p :: todo) g rest s bs -> NoDup (p :: todo) -> 1 <= n <= st -> st <= 13 ->
  NoDup owners.*1 -> (forall r q, (r, q) ∈ owners -> r ∈ remaining_rbgs (GetUlBitmask conf)) ->
  ready_ue b n owners s.(sl_ues) p ->
  exists s' bs' g', ul_data_ue conf n (p, buf) (s, bs) = Ok (s', bs') /\ group_wf st n num b owners todo g' rest s' bs' /\
    (forall k, k <> p -> s'.(sl_ues) !! k = s.(sl_ues) !! k).
Proof.
  intros [Pt Al In Ap Ow En Bs] Nd N S13 No Sub (ue & E & Eb & May & Eg & Wt). unfold ul_data_ue. cbn [fst]. rewrite E.
  pose proof (ew_ues _ _ _ En p ue E) as Wu. destruct (may_send_spec ue May) as [Buf Ins].
  destruct (decide (m_ulRBG (ue_ul ue) = [])) as [Emp|Ne].
  { exists s, bs, g. rewrite Emp. split; [done|]. split; [|done]. split; try done.
    eapply entries_wf_skip; [exact En|apply (ew_ues _ _ _ En)|auto with oran|auto with oran]. }
  destruct (m_ulRBG (ue_ul ue)) as [|r0 l0] eqn:Er; [done|]. rewrite <- Er in *.
  destruct (CreateUlDci_ok conf Ok_conf p st n (m_ulPrecMats ue) (ue_ul ue)) as [Ed|(d & Ed & G)];
    [lia|lia|apply (uw_rnti _ _ _ Wu)|by rewrite Er|..]; rewrite ?Pt, ?Ed.
  { intros r. rewrite Eg. intros Hr%share_elem. by eapply Sub. }
  - cbn [res_bind].
    set (u0 := (ue_ul ue) <| m_ulTbSize := 0 |>).
    destruct (set_ue_ul p ue u0 Wu) as (W1 & S1 & H1'); [by destruct (ue_ul ue)|].
    exists (mkSlot (mkPoint 0 st) (<[p := ue <| ue_ul := u0 |>]> s.(sl_ues)) s.(sl_alloc)), bs, g. split; [done|].
    split; [|intros k Nk; cbn; by rewrite lookup_insert_ne]. split; try done. cbn [sl_ues].
    eapply entries_wf_skip; [exact En|apply map_Forall_insert_2; [done|apply (ew_ues _ _ _ En)]|..].
    + eapply ues_rel_insert; [auto with oran|exact E|done].
    + apply waits_kept_same. by eapply proc_at_same.
  - rewrite Eg in G. cbn [res_bind]. rewrite (count_start_ok st n g d bs (go_start _ _ _ _ _ _ G) (go_num _ _ _ _ _ _ G) ltac:(lia) Bs).
    pose proof (maxHarqReTx_range conf) as Mx. pose proof (go_rv _ _ _ _ _ _ G) as Rv0. pose proof (go_tb _ _ _ _ _ _ G) as Tb.
    destruct (insert_process_ok (maxHarqReTx conf) d (m_ulHarq ue) (uw_harq _ _ _ Wu) Ins ltac:(lia))
      as (id & q & v' & -> & Wv & Mv & Eq & Aq & Pv). cbn [res_bind].
    destruct (credit_ok (m_ulLCG ue) (m_tbSize d) (uw_lcgs _ _ _ Wu) Buf ltac:(lia)) as (la & lcgs & Ela & Nla & Elc & Wl).
    set (d' := d <| m_harqProcess := id |>) in *. assert (m_tbSize d' = m_tbSize d) as -> by (by destruct d).
    rewrite Ela. cbn [res_bind]. rewrite Elc. cbn [res_bind]. rewrite bool_decide_false by done. cbn [abort_if res_bind].
    assert (ul_dci_ok conf p d') as Dk.
    { destruct G as [G1 G2 G3 G4 G5 G6 G7 G8 G9]. assert (m_rbgBitmask d' = m_rbgBitmask d) as D5 by (by destruct d).
      split; [by destruct d|by destruct d|change (m_numSym d') with (m_numSym d); lia|change (m_tbSize d') with (m_tbSize d); lia|rewrite D5, G8; symmetry; apply (co_length _ Ok_conf)|].
      rewrite D5. intros i Hi. apply G9, share_elem, Sub, remaining_elem in Hi as [_ Hi]. by rewrite Nat2Z.id in Hi. }
    destruct (granted_ue _ p ue d id q v' lcgs (ew_ues _ _ _ En) E Dk Wv Mv Eq Aq Pv Wl) as (P1 & P3 & P4 & P5).
    set (ues := <[p := _]> _) in P1, P3, P4, P5. fold d' in P5.
    eexists (mkSlot (mkPoint 0 st) ues _), _, (slot_info d' :: g). split; [reflexivity|].
    split; [|intros k Nk; cbn; unfold ues; by rewrite lookup_insert_ne].
    assert (forall q v, q ∈ p :: todo -> v ∈ g -> dci_rnti (m_dci v) <> Z.of_nat q) as Frg.
    { intros x v Hx Hv. apply (ew_fresh _ _ _ En); [done|]. apply elem_of_app. by left. }
    destruct (slot_info_apart st n owners p d id g todo G No Ow Frg) as (A1 & A2).
    assert (dci_rnti d' = Z.of_nat p) as Ern by apply (ud_rnti _ _ _ Dk).
    split; cbn [sl_point sl_alloc sl_ues]; [done|by rewrite push_eq, Al| |by constructor|by constructor| |done].
    + constructor; [|done]. eapply (slot_info_in st n b owners p d id (ue_ul ue)); try done; [lia| |apply (uw_rnti _ _ _ Wu)].
      unfold beam_of, ue_key. rewrite Nat2Z.id. destruct (ues_rel_lookup_r _ _ _ _ _ (ew_same _ _ _ En) E) as (u0 & -> & (Sb & _)). congruence.
    + cbn [app]. eapply entries_wf_grant; [exact En|done..|].
      intros _. exists (waiting d'). change (m_dci (slot_info d')) with d'. rewrite Ern. unfold ue_key. rewrite Nat2Z.id.
      assert (m_harqProcess d' = id) as -> by (by destruct d). by split_and!.
Qed.

Lemma ready_ue_frame b n owners m m' p : m' !! p = m !! p -> ready_ue b n owners m p -> ready_ue b n owners m' p.
Proof. intros E (ue & Eu & R). exists ue. by rewrite E. Qed.

(** The UEs of a beam *)
Lemma ul_beam_fold st n num b owners v todo g rest s bs :
  group_wf st n num b owners (v.*1 ++ todo) g rest s bs -> NoDup (v.*1 ++ todo) -> 1 <= n <= st -> st <= 13 ->
  NoDup owners.*1 -> (forall r q, (r, q) ∈ owners -> r ∈ remaining_rbgs (GetUlBitmask conf)) ->
  Forall (ready_ue b n owners s.(sl_ues)) v.*1 ->
  exists s' bs' g', res_fold (ul_data_ue conf n) v (s, bs) = Ok (s', bs') /\ group_wf st n num b owners todo g' rest s' bs' /\
    (forall k, k ∉ v.*1 -> s'.(sl_ues) !! k = s.(sl_ues) !! k).
Proof.
  intros W Nd N S13 No Sub. revert g s bs W Nd. induction v as [|[p buf] v IH]; intros g s bs W Nd F; cbn [res_fold].
  { by exists s, bs, g. }
  cbn in W, Nd, F. apply Forall_cons in F as [Fp F].
  destruct (ul_data_ue_ok st n num b owners p buf (v.*1 ++ todo) g rest s bs W Nd N S13 No Sub Fp) as (s1 & bs1 & g1 & -> & W1 & Fr).
  cbn [res_bind]. apply NoDup_cons in Nd as [Np Nd].
  destruct (IH g1 s1 bs1 W1 Nd) as (s' & bs' & g' & -> & W' & Fr').
  { apply Forall_forall. intros q Hq. rewrite Forall_forall in F. eapply ready_ue_frame; [|by apply F]. apply Fr. intros ->. set_solver. }
  exists s', bs', g'. split; [done|]. split; [done|]. intros k Hk. cbn in Hk. rewrite Fr', Fr by set_solver. done.
Qed.

(** Between two beams *)
Record data_wf (st num : Z) (todo : list nat) (s : SlotState) : Prop := {
  dw_point : s.(sl_point) = mkPoint 0 st;
  dw_tiling : tiling (beam_of m0) (GetUlBitmask conf) (within_grant targets) st s.(sl_alloc).(m_varTtiAllocInfo);
  dw_num : s.(sl_alloc).(m_numSymAlloc) = num;
  dw_entries : entries_wf todo s.(sl_ues) s.(sl_alloc).(m_varTtiAllocInfo)
}.

Lemma entries_wf_todo todo todo' m l : (forall p, p ∈ todo' -> p ∈ todo) -> entries_wf todo m l -> entries_wf todo' m l.
Proof. intros I [W S G O F Kp]. split; try done. intros p v Hp. by apply F, I. Qed.

(** A beam takes its symbols if one of its UEs is granted something, and none if not. *)
Lemma ul_data_beam_ok st num b n owners v todo s spb usedSym :
  data_wf st num (v.*1 ++ todo) s -> NoDup (v.*1 ++ todo) -> beam_at b spb = Some n -> 0 <= n <= st -> st <= 13 ->
  0 <= num < 200 -> 0 <= usedSym < 200 ->
  NoDup owners.*1 -> (forall r q, (r, q) ∈ owners -> r ∈ remaining_rbgs (GetUlBitmask conf)) ->
  Forall (ready_ue b n owners s.(sl_ues)) v.*1 ->
  exists s' used, ul_data_beam conf spb (b, v) (s, usedSym) = Ok (s', usedSym + used) /\ (used = 0 \/ used = n) /\
    data_wf (st - used) (num + used) todo s' /\ (forall k, k ∉ v.*1 -> s'.(sl_ues) !! k = s.(sl_ues) !! k) /\ grows s s'.
Proof.
  intros [P T Nm En] Nd Bn N S13 R1 R2 No Sub Rd. unfold ul_data_beam. cbn [fst snd]. rewrite Bn.
  assert (data_wf (st - 0) (num + 0) todo s) as D0.
  { rewrite Z.sub_0_r, Z.add_0_r. split; try done. eapply entries_wf_todo; [|exact En]. set_solver. }
  destruct (Z.eqb_spec n 0) as [->|Nz].
  { exists s, 0. rewrite Z.add_0_r at 1. split; [done|]. split; [by left|]. split; [done|]. split; [done|by intros x]. }
  assert (s.(sl_alloc) = mkSlotAlloc num (m_varTtiAllocInfo s.(sl_alloc))) as Ea by (rewrite <- Nm; by destruct (sl_alloc s)).
  destruct (ul_beam_fold st n num b owners v todo [] (m_varTtiAllocInfo s.(sl_alloc)) s (mkBeamState false [] 0))
    as (s1 & bs1 & g & -> & [W1 W2 W3 W4 W5 W6 W7] & Fr); [split; first [done|constructor]|done|lia|lia|done|done|done|]. cbn [res_bind]. subst bs1.
  destruct g as [|v0 g0]; cbn [bs_assigned].
  - cbn [app] in *. exists s1, 0. rewrite Z.add_0_r at 1. split; [done|]. split; [by left|]. rewrite Z.sub_0_r, Z.add_0_r.
    split; [|split; [done|intros x; by rewrite W2]]. split; [done|by rewrite W2|by rewrite W2|by rewrite W2].
  - set (g := v0 :: g0) in *. cbn [bs_allocSym]. unfold ChangeUlBeam. rewrite W1, W2, add_eq. cbn [spoint_sym m_numSymAlloc m_varTtiAllocInfo].
    rewrite !wrap_small by (unfold fits; lia).
    exists (mkSlot (mkPoint 0 (st - n)) (sl_ues s1) (mkSlotAlloc (num + n) (g ++ m_varTtiAllocInfo (sl_alloc s)))), n.
    split; [done|]. split; [by right|]. split; [|split; [done|intros x Hx; cbn [sl_alloc m_varTtiAllocInfo]; apply elem_of_app; by right]].
    split; cbn [sl_point sl_alloc sl_ues m_varTtiAllocInfo m_numSymAlloc]; try done.
    apply (tiling_group _ _ _ (st - n) n b); [lia|lia|done|done|done|]. by replace (st - n + n) with st by lia.
Qed.

(** ** All beams *)

(** The symbols the beams are given *)
Definition beam_sum (spb : list (BeamId * Z)) (l : list BeamId) : Z := sum_over (fun b => default 0 (beam_at b spb)) l.

(** Every beam of [active] has its share of [spb] and of the RBGs. *)
Definition shares_ready (spb : list (BeamId * Z)) (m : gmap nat SchedUe) (active : ActiveUes) : Prop :=
  Forall (fun e => exists n owners, beam_at e.1 spb = Some n /\ 0 <= n /\ NoDup owners.*1 /\
    (forall r q, (r, q) ∈ owners -> r ∈ remaining_rbgs (GetUlBitmask conf)) /\ Forall (ready_ue e.1 n owners m) e.2.*1) active.

Lemma ul_data_beams_ok spb active st num s usedSym :
  data_wf st num (active_ptrs active) s -> NoDup (active_ptrs active) -> beam_sum spb active.*1 <= st -> st <= 13 ->
  0 <= num -> num + st < 200 -> 0 <= usedSym -> usedSym + st < 200 -> shares_ready spb s.(sl_ues) active ->
  exists s' used, res_fold (ul_data_beam conf spb) active (s, usedSym) = Ok (s', usedSym + used) /\
    0 <= used <= beam_sum spb active.*1 /\ data_wf (st - used) (num + used) [] s' /\
    (forall k, k ∉ active_ptrs active -> s'.(sl_ues) !! k = s.(sl_ues) !! k) /\ grows s s'.
Proof.
  revert st num s usedSym. induction active as [|[b v] active IH]; intros st num s usedSym D Nd Sm S13 N0 N1 U0 U1 F; cbn [res_fold].
  { exists s, 0. rewrite Z.sub_0_r, !Z.add_0_r. split_and!; try done; by intros x. }
  rewrite active_ptrs_cons in D, Nd. apply Forall_cons in F as [(n & owners & Bn & Nn & No & Sub & Rd) F]. cbn [fst snd] in *.
  unfold beam_sum in *. cbn [fmap list_fmap fst] in *. rewrite sum_over_cons, Bn in Sm |- *. change (default 0 (Some n)) with n in *.
  assert (0 <= sum_over (fun b => default 0 (beam_at b spb)) active.*1) as Pos.
  { clear -F. induction F as [|e l (n & owners & Bn & Nn & _) F IH]; [done|]. cbn [fmap list_fmap]. rewrite sum_over_cons, Bn. cbn. lia. }
  destruct (ul_data_beam_ok st num b n owners v (active_ptrs active) s spb usedSym D Nd Bn) as (s1 & u1 & -> & Hu & D1 & Fr1 & Gr1);
    [lia|lia|lia|lia|done|done|done|]. cbn [res_bind]. apply NoDup_app in Nd as (Nd1 & Nd2 & Nd3).
  destruct (IH (st - u1) (num + u1) s1 (usedSym + u1) D1 Nd3) as (s' & u2 & -> & Hu2 & D2 & Fr2 & Gr2); [lia|lia|lia|lia|lia|lia| |].
  { apply Forall_forall. intros e He. rewrite Forall_forall in F. destruct (F e He) as (n' & ow & B1 & B2 & B3 & B4 & B5).
    exists n', ow. split_and!; try done. apply Forall_forall. intros p Hp. rewrite Forall_forall in B5.
    eapply ready_ue_frame; [|by apply B5]. apply Fr1. intros Hv. apply (Nd2 p Hv).
    apply list_elem_of_In, in_concat. exists e.2.*1. split; apply list_elem_of_In; [|done].
    apply list_elem_of_fmap. by exists e. }
  exists s', (u1 + u2). split; [by rewrite Z.add_assoc|]. split; [lia|].
  replace (st - (u1 + u2)) with (st - u1 - u2) by lia. replace (num + (u1 + u2)) with (num + u1 + u2) by lia. split; [done|].
  split; [|intros x Hx; by apply Gr2, Gr1].
  intros k Hk. rewrite active_ptrs_cons in Hk. rewrite Fr2, Fr1 by set_solver. done.
Qed.
End data.

(** What DoScheduleUlData asks of the policy that shares the symbols between beams *)
Class SymbolPolicyLaws `{SymbolPolicy} : Prop := {
  policy_ok : forall symAvail (active : ActiveUes) q, 0 < symAvail <= 14 -> active <> [] ->
    exists ret q', policy_symbols symAvail active q = Ok (ret, q') /\ Forall (fun e => 0 <= e.2) ret /\
      zsum ret.*2 <= symAvail
}.

(** ** Shares of beams *)

Lemma GetSymPerBeam_default (policy : list (BeamId * Z)) (active : ActiveUes) b :
  default 0 (beam_at b (GetSymPerBeam policy active)) = default 0 (beam_at b policy).
Proof.
  unfold GetSymPerBeam. revert policy. induction active as [|e l IH]; intros policy; [done|]. cbn [foldl]. rewrite IH.
  destruct (beam_at e.1 policy) eqn:E; [done|]. rewrite beam_at_snoc. destruct (beam_at b policy) eqn:Eb; [done|].
  by destruct (decide (e.1 = b)).
Qed.

Lemma beam_sum_le (policy : list (BeamId * Z)) bs :
  NoDup bs -> Forall (fun e => 0 <= e.2) policy -> beam_sum policy bs <= zsum policy.*2.
Proof.
  intros N F. induction F as [|[c n] policy Hn F IH].
  { clear N. unfold beam_sum. induction bs as [|b bs IH]; [done|]. rewrite sum_over_cons. cbn. done. }
  change (zsum ((c, n) :: policy).*2) with (n + zsum policy.*2). cbn in Hn.
  assert (forall bs, NoDup bs -> beam_sum ((c, n) :: policy) bs <= (if bool_decide (c ∈ bs) then n else 0) + beam_sum policy bs) as L.
  { clear IH N bs. induction bs as [|b bs IH]; intros N; [done|]. apply NoDup_cons in N as [Nb N]. specialize (IH N).
    unfold beam_sum in *. rewrite !sum_over_cons.
    assert (beam_at b ((c, n) :: policy) = if decide (c = b) then Some n else beam_at b policy) as -> by done.
    assert (0 <= default 0 (beam_at b policy)) as P.
    { clear -F. induction F as [|[d m] p Hm F IH]; [done|]. cbn. by destruct (decide (d = b)). }
    destruct (decide (c = b)) as [->|Ne].
    - rewrite bool_decide_true by (by left). rewrite bool_decide_false in IH by done. change (default 0 (Some n)) with n. lia.
    - destruct (bool_decide_reflect (c ∈ bs)); [rewrite bool_decide_true by (by right)|rewrite bool_decide_false by set_solver]; lia. }
  specialize (L bs N). destruct (bool_decide _); lia.
Qed.

(** ** The round-robin policy shares exactly what it is given. *)

Lemma beam_add_sum b n (m : list (BeamId * Z)) :
  Forall (fun e => 0 <= e.2) m -> 0 <= n -> zsum m.*2 + n < 2 ^ 32 ->
  zsum (beam_add b n m).*2 = zsum m.*2 + n /\ Forall (fun e => 0 <= e.2) (beam_add b n m).
Proof.
  intros F N. induction F as [|[c v] m Hv F IH]; intros S; cbn [beam_add].
  { split; [cbn; lia|]. repeat constructor. done. }
  change (zsum ((c, v) :: m).*2) with (v + zsum m.*2) in *. cbn in Hv.
  assert (0 <= zsum m.*2) by (apply zsum_nonneg, Forall_fmap; exact F).
  destruct (decide (c = b)).
  - rewrite wrap_small by (unfold fits; lia). change (zsum ((b, v + n) :: m).*2) with (v + n + zsum m.*2). split; [lia|].
    constructor; [change (0 <= v + n); lia|done].
  - destruct (IH ltac:(lia)) as [I1 I2]. change (zsum ((c, v) :: beam_add b n m).*2) with (v + zsum (beam_add b n m).*2).
    rewrite I1. split; [lia|]. by constructor.
Qed.

Lemma rr_symbol_sum n active q (ret : list (BeamId * Z)) :
  Forall (fun e => 0 <= e.2) ret -> zsum ret.*2 + 1 < 2 ^ 32 ->
  let r := rr_symbol n active q ret in Forall (fun e => 0 <= e.2) r.2 /\ zsum r.2.*2 <= zsum ret.*2 + 1.
Proof.
  intros F S. revert q. induction n as [|n IH]; intros q; cbn [rr_symbol]; [cbn [fst snd]; split; [done|lia]|].
  destruct q as [|b q]; [cbn [fst snd]; split; [done|lia]|]. destruct (bool_decide _); [|apply IH].
  destruct (beam_add_sum b 1 ret F ltac:(lia) S) as [B1 B2]. cbn [fst snd]. split; [done|lia].
Qed.

Lemma rr_symbols_sum k active q (ret : list (BeamId * Z)) :
  Forall (fun e => 0 <= e.2) ret -> zsum ret.*2 + Z.of_nat k < 2 ^ 32 ->
  let r := rr_symbols k active q ret in Forall (fun e => 0 <= e.2) r.2 /\ zsum r.2.*2 <= zsum ret.*2 + Z.of_nat k.
Proof.
  revert q ret. induction k as [|k IH]; intros q ret F S; cbn [rr_symbols]; [cbn [fst snd]; split; [done|lia]|].
  destruct (rr_symbol_sum (length q) active q ret F ltac:(lia)) as [F1 S1].
  destruct (rr_symbol _ _ _ _) as [q1 ret1]. cbn [fst snd] in F1, S1. destruct (IH q1 ret1 F1 ltac:(lia)) as [F2 S2]. split; [done|lia].
Qed.

#[export] Instance rr_policy_laws : @SymbolPolicyLaws rr_policy.
Proof.
  constructor. intros symAvail active q S _. unfold policy_symbols, rr_policy, GetSymPerBeamRR.
  destruct (rr_symbols_sum (Z.to_nat symAvail) active.*1 (rr_join active q) [] ltac:(done) ltac:(change (zsum [].*2) with 0; lia)) as [F1 S1].
  destruct (rr_symbols _ _ _ _) as [q' ret]. cbn [fst snd] in *. change (zsum ([] : list (BeamId * Z)).*2) with 0 in S1. exists ret, q'. split; [done|]. split; [done|]. lia.
Qed.

(** ** DoScheduleUlData *)

Section data.
Context `{CppHash, !CppHashLaws} `{NrAmc, !NrAmcLaws} `{SymbolPolicy, !SymbolPolicyLaws}.
Context (conf : SchedConf) (Ok_conf : conf_ok conf) (m0 : gmap nat SchedUe) (targets : gmap Z Z).

Lemma sent_before_once l : Forall sent_before l -> ForallOrdPairs served_once l.
Proof.
  induction 1 as [|v l S F IH]; [constructor|]. constructor; [|done]. apply Forall_forall. intros w _ T R.
  specialize (proj1 S T). lia.
Qed.

Lemma sent_before_within v : sent_before v -> within_grant targets v.
Proof. intros [S C]. split; [|done]. intros T R. specialize (S T). lia. Qed.

(** The allocation starts from a store in which no RBG is assigned. *)
Lemma active_start m active :
  active_ok UL m active -> map_Forall (fun _ => ul_clear) m -> slot_start active (ul_store m).
Proof.
  intros (N & P & F) C. split; [done|]. split.
  - intros p u Hu. apply lookup_fmap_Some in Hu as (ue & <- & E). exact (C p ue E).
  - apply Forall_forall. intros p Hp. apply list_elem_of_In, in_concat in Hp as (l & Hl & Hp).
    apply list_elem_of_In, list_elem_of_fmap in Hl as ([b v] & -> & Hv). apply list_elem_of_In, list_elem_of_fmap in Hp as ([q x] & -> & Hx).
    rewrite Forall_forall in F. destruct (F (b, v) Hv) as [_ Fv]. rewrite Forall_forall in Fv.
    destruct (Fv (q, x) Hx) as (ue & E & _). cbn in *. exists (ue_ul ue). unfold ul_store. by rewrite lookup_fmap, E.
Qed.

Lemma put_ul_lookup ues m p ue u : m !! p = Some ue -> ues !! p = Some u -> put_ul ues m !! p = Some (ue <| ue_ul := u |>).
Proof. intros E1 E2. unfold put_ul. by rewrite map_lookup_imap, E1, E2. Qed.

Lemma set_ue_ul_id ue : ue <| ue_ul := ue_ul ue |> = ue.
Proof. by destruct ue. Qed.

(** The UEs after the allocation, RBGs assigned *)
Lemma put_ul_rel ues m (active : ActiveUes) :
  (forall p, p ∉ active_ptrs active -> ues !! p = ul_store m !! p) ->
  (forall p, p ∈ active_ptrs active -> exists u u', ul_store m !! p = Some u /\ ues !! p = Some u' /\ m_rnti u' = m_rnti u) ->
  ues_rel (fun k ue ue' => exists u', ue' = ue <| ue_ul := u' |> /\ m_rnti u' = m_rnti (ue_ul ue) /\
    (k ∉ active_ptrs active -> ue' = ue)) m (put_ul ues m).
Proof.
  intros F1 F2 k. unfold put_ul. rewrite map_lookup_imap. destruct (m !! k) as [ue|] eqn:E; cbn; [|constructor].
  assert (ul_store m !! k = Some (ue_ul ue)) as Eu by (unfold ul_store; by rewrite lookup_fmap, E). constructor.
  destruct (decide (k ∈ active_ptrs active)) as [Hk|Hk].
  - destruct (F2 k Hk) as (u & u' & E1 & -> & Er). rewrite E1 in Eu. injection Eu as ->. by exists u'.
  - rewrite (F1 k Hk), Eu. exists (ue_ul ue). by rewrite set_ue_ul_id.
Qed.

Lemma reset_ul_ok k ue : ue_wf conf k ue -> ue_wf conf k (reset_ul ue) /\ same_ue k ue (reset_ul ue) /\ ul_clear (reset_ul ue).
Proof. intros [W1 W2 W3 W4 W5]. split; [by split|]. by split_and!. Qed.

(** The last loop: the UEs that were active are cleared. *)
Lemma reset_fold l m todo ls :
  entries_wf conf m0 todo m ls ->
  (forall k ue, m !! k = Some ue -> k ∉ l -> ul_clear ue) ->
  let m' := foldl (fun m p => alter reset_ul p m) m l in
  entries_wf conf m0 todo m' ls /\ map_Forall (fun _ => ul_clear) m'.
Proof.
  revert m. induction l as [|p l IH]; intros m E C; cbn [foldl].
  { split; [done|]. intros k ue Ek. apply (C k ue Ek). apply not_elem_of_nil. }
  destruct E as [W S G O F Kp]. apply IH.
  - assert (forall k id, proc_at (alter reset_ul p m) k id = proc_at m k id) as Pr.
    { intros k id. unfold proc_of. destruct (decide (k = p)) as [->|Ne]; [rewrite lookup_alter_eq; by destruct (m !! p)|by rewrite lookup_alter_ne]. }
    split; [| |eapply Forall_impl; [exact G|intros v; apply grant_waits_kept, waits_kept_same; exact Pr]|done|done|eapply waits_kept_trans; [exact Kp|by apply waits_kept_same]].
    + intros k ue. destruct (decide (k = p)) as [->|Ne]; [rewrite lookup_alter_eq|rewrite lookup_alter_ne by done; apply W]. intros (u & Eu & ->)%fmap_Some.
      by apply reset_ul_ok, W.
    + eapply same_ues_trans; [exact S|]. intros k. destruct (decide (k = p)) as [->|Ne]; [rewrite lookup_alter_eq|rewrite lookup_alter_ne by done; apply same_ues_refl].
      destruct (m !! p) as [u|] eqn:Eu; cbn; constructor. by apply (reset_ul_ok p u (W p u Eu)).
  - intros k ue. destruct (decide (k = p)) as [->|Ne]; [rewrite lookup_alter_eq|rewrite lookup_alter_ne by done].
    + intros (u & Eu & ->)%fmap_Some _. by apply (reset_ul_ok p u (W p u Eu)).
    + intros Ek Nk. apply (C k ue Ek). by apply not_elem_of_cons.
Qed.


(** What the allocation gives DoScheduleUlData to work with *)
Lemma assigned_ready st num symAvail active q s :
  slot_wf conf m0 st num s -> active_ok UL s.(sl_ues) active -> active <> [] -> 0 < symAvail <= 14 ->
  map_Forall (fun _ t => 0 <= t) targets ->
  (forall k v, k ∈ active_ptrs active -> v ∈ s.(sl_alloc).(m_varTtiAllocInfo) -> dci_rnti (m_dci v) <> Z.of_nat k) ->
  exists ret q' spb ues, policy_symbols symAvail active q = Ok (ret, q') /\
    AssignULRBG_target conf.(GetNumRbPerRbg) targets (GetUlBitmask conf) ret active (ul_store s.(sl_ues)) = Ok (spb, ues) /\
    let m := put_ul ues s.(sl_ues) in
    data_wf conf m0 targets st num (active_ptrs active) (mkSlot s.(sl_point) m s.(sl_alloc)) /\
    beam_sum spb active.*1 <= symAvail /\ shares_ready conf targets spb m active /\
    (forall k ue, m !! k = Some ue -> k ∉ active_ptrs active -> ul_clear ue).
Proof.
  intros [P T Nm U C S G Kp] A Ne Sy Tg Fr. destruct (policy_ok symAvail active q Sy Ne) as (ret & q' & Ep & Fp & Sp).
  destruct (AssignULRBG_target_spec conf.(GetNumRbPerRbg) targets (GetUlBitmask conf) ret active (ul_store s.(sl_ues))
    (co_some _ Ok_conf) (active_start _ _ A C) Tg Fp) as (ues & Ea & Fo & Bm).
  exists ret, q', (GetSymPerBeam ret active), ues. split; [done|]. split; [done|]. intros m.
  destruct A as (N & Np & F).
  assert (forall b v, (b, v) ∈ active -> exists n, beam_at b (GetSymPerBeam ret active) = Some n /\ 0 <= n) as Bn.
  { intros b v Hv. destruct (GetSymPerBeam_active ret active b) as [n Hn]; [apply list_elem_of_fmap; by exists (b, v)|].
    exists n. split; [done|]. by eapply GetSymPerBeam_nonneg. }
  assert (ues_rel (fun k ue ue' => exists u', ue' = ue <| ue_ul := u' |> /\ m_rnti u' = m_rnti (ue_ul ue) /\
    (k ∉ active_ptrs active -> ue' = ue)) s.(sl_ues) m) as Rl.
  { apply put_ul_rel; [exact Fo|]. intros p Hp. apply list_elem_of_In, in_concat in Hp as (l & Hl & Hp).
    apply list_elem_of_In, list_elem_of_fmap in Hl as ([b v] & -> & Hv). apply list_elem_of_In in Hp.
    destruct (Bn b v Hv) as (n & Hn & _). destruct (Bm b v n Hv Hn) as (ow & _ & _ & Sh).
    destruct (Sh p Hp) as (u & u' & E1 & E2 & Er & _). by exists u, u'. }
  assert (waiting_kept s.(sl_ues) m) as Km.
  { apply waits_kept_same. intros k id. unfold proc_of. specialize (Rl k). destruct Rl as [ue ue' (u' & -> & _)|]; done. }
  split; [split; cbn [sl_point sl_alloc sl_ues]; [done| |done|]|split; [|split]].
  - eapply tiling_weaken; [|exact T]. apply sent_before_within.
  - split; [| | |by apply sent_before_once, (tiling_entries _ _ _ _ _ T)|done|by eapply waits_kept_trans].
    + eapply ues_rel_forall; [exact Rl|exact U|]. intros k ue ue' (u' & -> & Er & _) W. by apply set_ue_ul.
    + eapply same_ues_trans; [exact S|]. eapply ues_rel_weaken; [|exact Rl]. by intros k ue ue' (u' & -> & _).
    + eapply Forall_impl; [exact G|]. intros v. by apply grant_waits_kept.
  - transitivity (beam_sum ret active.*1); [|transitivity (zsum ret.*2); [by apply beam_sum_le|done]].
    unfold beam_sum. apply Z.eq_le_incl, sum_over_ext. intros b _. apply GetSymPerBeam_default.
  - apply Forall_forall. intros [b v] Hv. destruct (Bn b v Hv) as (n & Hn & N0). destruct (Bm b v n Hv Hn) as (ow & No & Sub & Sh).
    exists n, ow. split_and!; try done. apply Forall_forall. intros p Hp. destruct (Sh p Hp) as (u & u' & E1 & E2 & Er & Eg & Wt).
    rewrite Forall_forall in F. destruct (F (b, v) Hv) as [_ Fv]. cbn in Fv, Hp. apply list_elem_of_fmap in Hp as ([p' x] & -> & Hx).
    rewrite Forall_forall in Fv. destruct (Fv _ Hx) as (ue & E & Eb & May). cbn in *.
    exists (ue <| ue_ul := u' |>). split; [by apply put_ul_lookup|]. by split_and!.
  - intros k ue Ek Nk. destruct (ues_rel_lookup_r _ _ _ _ _ Rl Ek) as (ue0 & E0 & (u' & _ & _ & Same)). rewrite (Same Nk). exact (C k ue0 E0).
Qed.

(** The data of a slot: the allocation ends, trips no assertion and uses no more than the symbols it has. *)
Lemma DoScheduleUlData_ok st num symAvail active q s :
  slot_wf conf m0 st num s -> active_ok UL s.(sl_ues) active -> active <> [] -> 0 < symAvail <= st -> st <= 13 -> 0 <= num < 100 ->
  map_Forall (fun _ t => 0 <= t) targets ->
  (forall k v, k ∈ active_ptrs active -> v ∈ s.(sl_alloc).(m_varTtiAllocInfo) -> dci_rnti (m_dci v) <> Z.of_nat k) ->
  exists used q' s', DoScheduleUlData conf targets symAvail active q s = Ok (used, q', s') /\ 0 <= used <= symAvail /\
    data_wf conf m0 targets (st - used) (num + used) [] s' /\ map_Forall (fun _ => ul_clear) s'.(sl_ues) /\ grows s s'.
Proof.
  intros W A Ne Sy S13 Nm Tg Fr.
  destruct (assigned_ready st num symAvail active q s W A Ne ltac:(lia) Tg Fr) as (ret & q' & spb & ues & Ep & Ea & D & Sm & Rd & Cl).
  unfold DoScheduleUlData. rewrite (proj2 (Z.ltb_lt _ _)) by lia. rewrite bool_decide_false by done. cbn [negb andb abort_if res_bind].
  rewrite (sw_point _ _ _ _ _ W) in D |- *. cbn [spoint_rbg Z.eqb negb abort_if res_bind]. rewrite Ep. cbn [res_bind fst snd].
  rewrite Ea. cbn [res_bind].
  destruct (ul_data_beams_ok conf Ok_conf m0 targets spb active st num _ 0 D) as (s1 & used & Ed & Hu & D1 & F1 & G1);
    [apply A|lia|lia|lia|lia|lia|lia|done|]. cbn [sl_point] in *. rewrite Ed. cbn [res_bind].
  destruct D1 as [P1 T1 N1 En1]. rewrite P1. cbn [spoint_rbg Z.eqb negb abort_if res_bind].
  exists used, q'. eexists. split; [reflexivity|]. split; [lia|].
  destruct (reset_fold (active_ptrs active) s1.(sl_ues) [] _ En1) as [R1 R2].
  { intros k ue Ek Nk. rewrite F1 in Ek by done. by eapply Cl. }
  split; [|split; [exact R2|exact G1]]. split; [done|exact T1|exact N1|exact R1].
Qed.
End data.
