(* ===== verification/UlSlotProps.v ===== *)
(** The properties of an uplink slot of the MAC scheduler. *)
From Stdlib Require Import ZArith Lia Lists.List.
From stdpp Require Import base list gmap strings list_numbers.
From coqutil Require Import Datatypes.RecordSettersUsingExistingGetters.
From S2P Require Import Prelude UlScheduler UlFacts UlProps Amc DlUe CqiManagement Dci LogicalChannels LcProps Harq.
From S2P Require Import Srs SfnSf MacScheduler ResourceMatrix UlSlot SlotLayout UlTiling HarqFacts MacFacts UlGrant.
From S2P Require Import UlSlotFacts UlData.
Open Scope Z_scope.
(** What is true of the scheduler between two slots: its UEs are well formed, the feedback it keeps, the
    requests for scheduling and those for message 3 are sound, and no target is negative. *)
Record mac_wf (conf : SchedConf) (s : MacSched) : Prop := {
  mw_ues : map_Forall (ue_wf conf) s.(m_ueMap);
  mw_clear : map_Forall (fun _ => ul_clear) s.(m_ueMap);
  mw_kept : Forall (fb_known s.(m_ueMap)) s.(m_ulHarqToRetransmit);
  mw_once : NoDup (fb_key <$> s.(m_ulHarqToRetransmit));
  mw_sr : Forall (fun r => is_Some (s.(m_ueMap) !! ue_key r)) s.(m_srList);
  mw_rach : Forall (fun r => 0 < r.(m_estimatedSize)) s.(m_rachList);
  mw_targets : map_Forall (fun _ t => 0 <= t) s.(m_ulTargets)
}.

(** The symbols at the start of the slot that the uplink leaves to the control of the downlink *)
Definition dl_symbols (conf : SchedConf) (type : SlotType) : Z := if bool_decide (type = SlotF) then conf.(m_dlCtrlSymbols) else 0.

Section slot.
Context `{CppHash, !CppHashLaws} `{NrAmc, !NrAmcLaws} `{SymbolPolicy, !SymbolPolicyLaws}.
Context (conf : SchedConf) (Ok_conf : conf_ok conf).

(** A slot laid over the UEs [m0]: its allocations tile the symbols from [st] on; what SchedConfigInd is
    given, what is recorded for the CQIs, and what the processes of the UEs [m] hold agree with them. *)
Record slot_result (m0 m : gmap nat SchedUe) (targets : gmap Z Z) (type : SlotType) (st : Z) (alloc : SlotAllocInfo) : Prop := {
  sr_start : dl_symbols conf type <= st <= 13;
  sr_tiling : tiling (beam_of m0) (GetUlBitmask conf) (within_grant targets) st alloc.(m_varTtiAllocInfo);
  sr_symbols : alloc.(m_numSymAlloc) = slot_symbols - st;
  sr_granted : Forall (granted m) alloc.(m_varTtiAllocInfo);
  sr_once : ForallOrdPairs served_once alloc.(m_varTtiAllocInfo)
}.

Lemma same_ue_beam m m' rnti : ues_rel same_ue m m' -> beam_of m' rnti = beam_of m rnti.
Proof. intros S. unfold beam_of. specialize (S (ue_key rnti)). destruct S as [u v (E & _)|]; done. Qed.

Lemma fb_known_same m m' fb : ues_rel same_ue m m' -> fb_known m fb -> fb_known m' fb.
Proof.
  intros S (R0 & ue & E & I). split; [done|]. destruct (ues_rel_lookup _ _ _ _ _ S E) as (ue' & E' & (_ & _ & _ & _ & M)).
  exists ue'. split; [done|]. by rewrite M.
Qed.

Lemma fb_ready_known m fb : map_Forall (ue_wf conf) m -> fb_ready conf m fb -> fb_known m fb.
Proof.
  intros W R. pose proof R as (_ & R0 & _). destruct (ready_process conf m fb W R) as (ue & p & d & E & Ep & _).
  split; [done|]. exists ue. split; [done|]. apply (wf_ids _ _ (uw_harq _ _ _ (W _ _ E))). by exists p.
Qed.

Lemma slot_add m0 st num s n :
  slot_wf conf m0 st num s -> 0 <= num + n < 200 ->
  slot_wf conf m0 st (num + n) (mkSlot s.(sl_point) s.(sl_ues) (add_symbols n s.(sl_alloc))).
Proof. intros [P T Nm U C S G Kp] R. rewrite add_eq, Nm, wrap_small by (unfold fits; lia). by split. Qed.

(** The slot before anything but the control is placed *)
Lemma slot_wf_start m :
  map_Forall (ue_wf conf) m -> map_Forall (fun _ => ul_clear) m ->
  slot_wf conf m 13 1 (mkSlot (mkPoint 0 13) m (mkSlotAlloc 1 [slot_info (ctrl_dci conf UL 13)])).
Proof.
  intros W C. split; cbn; try done; [|apply same_ues_refl|by constructor|apply waiting_kept_refl].
  apply (tiling_one _ _ _ 13 1 (beam_of m 0)); [lia|lia| |constructor].
  split; try done; [|by left|by split; [|intros [?|?]]]. cbn. rewrite length_replicate. symmetry. apply (co_length _ Ok_conf).
Qed.

(** The first three steps *)
Lemma srs_step m0 type counter s :
  slot_wf conf m0 13 1 s -> type = SlotUL \/ type = SlotF ->
  let sym0 := 13 - dl_symbols conf type in
  exists r, ul_srs conf type counter sym0 s = Ok r /\
    (0 <= r.1.2 <= sym0 /\ sym0 - conf.(m_srsCtrlSymbols) <= r.1.2) /\ slot_wf conf m0 (r.1.2 + dl_symbols conf type) (slot_symbols - (r.1.2 + dl_symbols conf type)) r.2 /\ r.2.(sl_ues) = s.(sl_ues).
Proof.
  intros W Ty sym0. pose proof (co_dlCtrl _ Ok_conf) as D0. pose proof (co_srs _ Ok_conf) as S0. pose proof (co_room _ Ok_conf) as Rm.
  assert (0 <= dl_symbols conf type <= conf.(m_dlCtrlSymbols)) as Dl by (unfold dl_symbols; destruct (bool_decide _); lia).
  unfold ul_srs. destruct (_ || _) eqn:E.
  - rewrite (proj2 (Z.ltb_ge _ _)) by (unfold sym0; lia). cbn [abort_if res_bind].
    destruct (DoScheduleSrs_ok conf Ok_conf m0 (u32 (counter + 1)) 13 1 s W ltac:(lia) ltac:(lia)) as (used & s1 & -> & Hu & W1 & Us).
    cbn [res_bind fst snd]. eexists. split; [done|]. cbn [fst snd].
    rewrite wrap_small by (unfold fits, sym0; destruct Hu as [-> | ->]; lia).
    split; [unfold sym0; destruct Hu as [-> | ->]; lia|]. split; [|done].
    replace (sym0 - used + dl_symbols conf type) with (13 - used) by (unfold sym0; lia).
    by replace (slot_symbols - (13 - used)) with (1 + used) by (unfold slot_symbols; lia).
  - eexists. split; [done|]. cbn [fst snd]. split; [unfold sym0; lia|]. split; [|done].
    replace (sym0 + dl_symbols conf type) with 13 by (unfold sym0; lia). exact W.
Qed.

Lemma msg3_step m0 type dl sym rachList s :
  slot_wf conf m0 (sym + dl) (slot_symbols - (sym + dl)) s -> 0 <= sym -> 0 <= dl -> Forall (fun r => 0 < r.(m_estimatedSize)) rachList ->
  let r := ul_msg3 conf type rachList sym s in
  Forall (fun r => 0 < r.(m_estimatedSize)) r.1.1 /\ 0 <= r.1.2 <= sym /\
  slot_wf conf m0 (r.1.2 + dl) (slot_symbols - (r.1.2 + dl)) r.2 /\ r.2.(sl_ues) = s.(sl_ues).
Proof.
  intros W S D F. unfold ul_msg3. destruct (_ && _); cbn [fst snd]; [|split; [done|split; [lia|done]]].
  pose proof (tiling_range _ _ _ _ _ (sw_tiling _ _ _ _ _ W)) as R. unfold slot_symbols in R.
  destruct (DoScheduleUlMsg3_ok conf m0 rachList sym (sym + dl) _ s W ltac:(lia) F) as (M1 & M2 & M3).
  split; [constructor|]. split; [lia|]. split; [|done].
  apply (slot_add _ _ _ _ (sym - (DoScheduleUlMsg3 conf rachList sym s).1)) in M2; [|unfold slot_symbols; lia].
  replace (sym + dl - (sym - (DoScheduleUlMsg3 conf rachList sym s).1)) with ((DoScheduleUlMsg3 conf rachList sym s).1 + dl) in M2 by lia.
  by replace (slot_symbols - (sym + dl) + (sym - (DoScheduleUlMsg3 conf rachList sym s).1))
    with (slot_symbols - ((DoScheduleUlMsg3 conf rachList sym s).1 + dl)) in M2 by lia.
Qed.

(** The feedback: sent again, kept, or dropped because the slot is full *)
Lemma harq_step m0 dl a l sym s :
  slot_wf conf m0 (sym + dl) (slot_symbols - (sym + dl)) s -> 0 <= sym -> 0 <= dl -> (a = [] <-> l = []) ->
  Forall (fb_ready conf s.(sl_ues)) l -> NoDup (fb_key <$> l) ->
  exists sym' keep s', ul_harq conf a l sym [] s = Ok (sym', keep, s') /\
    0 <= sym' <= sym /\ slot_wf conf m0 (sym' + dl) (slot_symbols - (sym' + dl)) s' /\ keep `sublist_of` l /\
    ues_rel same_ue s.(sl_ues) s'.(sl_ues) /\ forall fb, fb ∈ l -> sent_again s' fb \/ fb ∈ keep \/ sym' = 0.
Proof.
  intros W S D E R N. unfold ul_harq. destruct (bool_decide_reflect (a = [])) as [Ea|Na]; cbn [negb].
  { exists sym, [], s. rewrite (proj1 E Ea). split; [done|]. split; [lia|]. split; [done|]. split; [done|]. split; [apply same_ues_refl|by intros fb ?%elem_of_nil]. }
  pose proof (tiling_range _ _ _ _ _ (sw_tiling _ _ _ _ _ W)) as Rg. unfold slot_symbols in Rg.
  destruct (ScheduleUlHarq_ok conf m0 l sym [] (sym + dl) (slot_symbols - (sym + dl)) s W
    ltac:(lia) ltac:(unfold slot_symbols; lia) ltac:(unfold slot_symbols; lia) R N)
    as (sym' & keep & s' & -> & I1 & I2 & I3 & _ & I5 & _ & I7). exists sym', keep, s'. split; [done|]. split; [done|]. split; [|done].
  replace (sym' + dl) with (sym + dl - (sym - sym')) by lia.
  by replace (slot_symbols - (sym + dl - (sym - sym'))) with (slot_symbols - (sym + dl) + (sym - sym')) by lia.
Qed.

(** The requests for scheduling *)
Lemma sr_step m0 st num sym srList s :
  slot_wf conf m0 st num s -> Forall (fun r => is_Some (m0 !! ue_key r)) srList ->
  exists srList' s', ul_sr sym srList s = Ok (srList', s') /\ slot_wf conf m0 st num s' /\ srList' `sublist_of` srList /\
    ues_rel same_ue s.(sl_ues) s'.(sl_ues) /\ s'.(sl_alloc) = s.(sl_alloc).
Proof.
  intros W F. unfold ul_sr. destruct (_ && _).
  - destruct (DoScheduleUlSr_ok conf srList s.(sl_ues) (sw_ues _ _ _ _ _ W) (sw_clear _ _ _ _ _ W)) as (m & -> & W' & C' & S' & P').
    { eapply Forall_impl; [exact F|]. intros r [ue E]. destruct (ues_rel_lookup _ _ _ _ _ (sw_same _ _ _ _ _ W) E) as (ue' & E' & _). by exists ue'. }
    cbn [res_bind]. eexists [], _. split; [done|]. split; [by apply slot_ues, waits_kept_same|]. split; [apply sublist_nil_l|done].
  - exists srList, s. split_and!; try done. apply same_ues_refl.
Qed.

(** The data, when there are symbols left and somebody has data *)
Lemma data_step m0 targets dl sym q s :
  slot_wf conf m0 (sym + dl) (slot_symbols - (sym + dl)) s -> 0 <= sym -> 0 <= dl -> sym + dl <= 13 ->
  map_Forall (fun _ t => 0 <= t) targets ->
  exists sym' q' s', ul_data conf targets sym q s = Ok (sym', q', s') /\ 0 <= sym' <= sym /\
    data_wf conf m0 targets (sym' + dl) (slot_symbols - (sym' + dl)) [] s' /\ map_Forall (fun _ => ul_clear) s'.(sl_ues) /\
    grows s s'.
Proof.
  intros W S D S13 Tg. unfold ul_data. set (active := foldl _ _ _). pose proof (remove_all_ok UL s.(sl_ues) s.(sl_alloc).(m_varTtiAllocInfo) (ComputeActiveUe UL s.(sl_ues))
    (ue_wf_rnti _ _ (sw_ues _ _ _ _ _ W)) (ComputeActiveUe_ok _ _)) as (A & _ & Fr). fold active in A, Fr.
  destruct ((0 <? sym) && negb (bool_decide (active = []))) eqn:Go.
  - apply andb_true_iff in Go as [Pos%Z.ltb_lt Ne%negb_true_iff%bool_decide_eq_false].
    destruct (DoScheduleUlData_ok conf Ok_conf m0 targets (sym + dl) (slot_symbols - (sym + dl)) sym active q s W A Ne)
      as (used & q' & s' & -> & Hu & D' & C' & G'); [lia|lia|unfold slot_symbols; lia|done|done|]. cbn [res_bind fst snd].
    rewrite wrap_small by (unfold fits; lia). exists (sym - used), q', s'. split; [done|]. split; [lia|]. split; [|done].
    replace (sym - used + dl) with (sym + dl - used) by lia.
    by replace (slot_symbols - (sym + dl - used)) with (slot_symbols - (sym + dl) + used) by lia.
  - exists sym, q, s. split; [done|]. split; [lia|]. destruct W as [P T Nm U C Sm G Kp]. split; [|split; [done|by intros x]].
    split; [done|by eapply tiling_weaken; [apply sent_before_within|]|done|].
    split; try done; [by apply sent_before_once, (tiling_entries _ _ _ _ _ T)|by intros p v ?%elem_of_nil].
Qed.

Definition sent_in (alloc : SlotAllocInfo) (fb : HarqInfo) : Prop := exists v, v ∈ alloc.(m_varTtiAllocInfo) /\ resends fb v.

(** The slot as a whole *)
Lemma DoScheduleUl_ok l ulSfn type s :
  mac_wf conf s -> type = SlotUL \/ type = SlotF -> s.(m_ulHarqToRetransmit) = [] -> Forall (fb_ready conf s.(m_ueMap)) l ->
  NoDup (fb_key <$> l) -> s.(m_ulAllocationMap) !! ulSfn = None ->
  exists st s' alloc,
    DoScheduleUl conf l ulSfn type (mkSlotAlloc 1 [slot_info (ctrl_dci conf UL 13)]) s = Ok (13 - st, s', alloc) /\
    mac_wf conf s' /\ slot_result s.(m_ueMap) s'.(m_ueMap) s.(m_ulTargets) type st alloc /\
    ues_rel same_ue s.(m_ueMap) s'.(m_ueMap) /\ (s'.(m_schedulerSrs) = s.(m_schedulerSrs) /\ s'.(m_dlHarqToRetransmit) = s.(m_dlHarqToRetransmit)) /\
    waiting_kept s.(m_ueMap) s'.(m_ueMap) /\
    s'.(m_ulAllocationMap) = <[ulSfn := mkSlotElem (slot_symbols - st) (data_allocs alloc.(m_varTtiAllocInfo))]> s.(m_ulAllocationMap) /\
    s'.(m_ulHarqToRetransmit) `sublist_of` l /\
    forall fb, fb ∈ l -> sent_in alloc fb \/ fb ∈ s'.(m_ulHarqToRetransmit) \/ st = dl_symbols conf type.
Proof.
  intros W Ty Kept Rd Nd New. unfold DoScheduleUl. cbn [length Nat.eqb m_varTtiAllocInfo negb abort_if res_bind].
  rewrite (co_symbols _ Ok_conf), (co_ulCtrl _ Ok_conf), Kept. change (u8 (14 - 1)) with 13.
  pose proof (co_dlCtrl _ Ok_conf) as D0. pose proof (co_srs _ Ok_conf) as S0. pose proof (co_room _ Ok_conf) as Rm.
  assert ((if bool_decide (type = SlotF) then u8 (13 - m_dlCtrlSymbols conf) else 13) = 13 - dl_symbols conf type) as ->.
  { unfold dl_symbols. destruct (bool_decide _); [apply wrap_small; unfold fits; lia|done]. }
  assert (0 <= dl_symbols conf type <= 13) as Dl by (unfold dl_symbols; destruct (bool_decide _); lia).
  destruct (ComputeActiveHarq_ok conf l s.(m_ueMap) Rd) as (ah & -> & Eh). cbn [res_bind].
  rewrite New. cbn [default from_option].
  destruct (srs_step s.(m_ueMap) type s.(m_srsSlotCounter) _ (slot_wf_start _ (mw_ues _ _ W) (mw_clear _ _ W)) Ty)
    as ([[counter sym1] s1] & -> & B1 & W1 & U1). cbn [res_bind fst snd] in *.
  destruct (msg3_step _ type _ sym1 s.(m_rachList) s1 W1 ltac:(lia) ltac:(lia) (mw_rach _ _ W))
    as (R2 & B2 & W2 & U2). destruct (ul_msg3 _ _ _ _ _) as [[rach sym2] s2]. cbn [fst snd] in R2, B2, W2, U2.
  assert (Forall (fb_ready conf s2.(sl_ues)) l) as Rd2 by (by rewrite U2, U1).
  destruct (harq_step _ _ ah l sym2 s2 W2 ltac:(lia) ltac:(lia) Eh Rd2 Nd) as (sym3 & keep & s3 & -> & B3 & W3 & K3 & S3 & Q3).
  cbn [res_bind]. rewrite (sw_point _ _ _ _ _ W3). cbn [spoint_rbg Z.eqb negb abort_if res_bind].
  destruct (sr_step _ _ _ sym3 s.(m_srList) s3 W3 (mw_sr _ _ W)) as (srs & s4 & E4 & W4 & K4 & S4 & A4).
  rewrite E4. cbn [res_bind].
  destruct (data_step _ s.(m_ulTargets) _ sym3 s.(m_rrBeams) s4 W4 ltac:(lia) ltac:(lia) ltac:(lia) (mw_targets _ _ W))
    as (sym5 & q5 & s5 & E5 & B5 & W5 & C5 & G5). rewrite E5. cbn [res_bind]. destruct W5 as [P5 T5 N5 [U5 Sm5 Gr5 On5 _ Kp5]].
  rewrite (record_ul_ok _ _ _ _ _ _ _ T5) by (unfold slot_symbols; lia). cbn [res_bind].
  exists (sym5 + dl_symbols conf type). eexists _, (sl_alloc s5). rewrite wrap_small by (unfold fits; lia).
  split; [do 3 f_equal; lia|]. cbn.
  split; [|split; [|split; [done|split; [done|split; [done|split; [done|split; [done|]]]]]]].
  - split; cbn; try done.
    + apply Forall_forall. intros fb Hfb. eapply fb_known_same; [exact Sm5|]. apply (fb_ready_known _ _ (mw_ues _ _ W)).
      rewrite Forall_forall in Rd. apply Rd. by eapply elem_of_sublist.
    + eapply sublist_NoDup; [exact Nd|]. by apply fmap_sublist.
    + apply Forall_forall. intros r Hr. pose proof (mw_sr _ _ W) as Sr. rewrite Forall_forall in Sr.
      destruct (Sr r) as [ue E]; [by eapply elem_of_sublist|]. destruct (ues_rel_lookup _ _ _ _ _ Sm5 E) as (ue' & E' & _). by exists ue'.
    + apply (mw_targets _ _ W).
  - split; [lia|done..].
  - intros fb Hfb. destruct (Q3 fb Hfb) as [(v & Hv & Rv)|[?|Z3]]; [left|by right; left|right; right; lia].
    exists v. split; [apply G5; by rewrite A4|done].
Qed.

(** The refreshed CQIs change nothing the slot relies on. *)
Lemma refresh_ues m :
  map_Forall (ue_wf conf) m -> map_Forall (fun _ => ul_clear) m ->
  let m' := refresh_ul_ue conf <$> m in
  map_Forall (ue_wf conf) m' /\ map_Forall (fun _ => ul_clear) m' /\ ues_rel same_ue m m' /\
  forall k id, proc_at m' k id = proc_at m k id.
Proof.
  intros W C m'. split; [|split; [|split]].
  - intros k ue' E. apply lookup_fmap_Some in E as (ue & <- & E). destruct (W k ue E) as [W1 W2 W3 W4 W5]. by split.
  - intros k ue' E. apply lookup_fmap_Some in E as (ue & <- & E). exact (C k ue E).
  - intros k. unfold m'. rewrite lookup_fmap. destruct (m !! k); constructor. by split_and!.
  - intros k id. unfold proc_of, m'. rewrite lookup_fmap. by destruct (m !! k).
Qed.

(** Everything the allocations of a slot say is about UEs under their own beam. *)
Lemma alloc_beam_of m0 m targets st l :
  ues_rel same_ue m0 m -> tiling (beam_of m0) (GetUlBitmask conf) (within_grant targets) st l ->
  Forall (fun v => alloc_beam m v = beam_of m0 (dci_rnti (m_dci v))) l.
Proof.
  intros S T. induction T as [|st n b g rest S0 N Ne F D T IH]; [constructor|]. apply Forall_app. split; [|done].
  eapply Forall_impl; [exact F|]. intros v A. rewrite <- (same_ue_beam m0 m _ S). unfold alloc_beam, beam_of.
  rewrite (ai_omni _ _ _ _ _ _ _ A). done.
Qed.

(** What an uplink slot needs: a sound scheduler, a slot number that can be encoded and has no allocation yet,
    and at most one answer for each process of the UEs that are there *)
Record slot_request (snfSf : SfnSf) (type : SlotType) (ulSfn : Z) (received : list HarqInfo) (s : MacSched) : Prop := {
  rq_sched : mac_wf conf s;
  rq_type : type = SlotUL \/ type = SlotF;
  rq_sfn : GetEncoding snfSf = Ok ulSfn;
  rq_new : s.(m_ulAllocationMap) !! ulSfn = None;
  rq_known : Forall (fb_known s.(m_ueMap)) received;
  rq_once : NoDup (fb_key <$> s.(m_ulHarqToRetransmit) ++ received)
}.

Lemma DoSchedUlTriggerReq_ok snfSf type ulSfn received s :
  slot_request snfSf type ulSfn received s ->
  exists st s' alloc, DoSchedUlTriggerReq conf snfSf type received s = Ok (s', alloc) /\
    mac_wf conf s' /\ slot_result s.(m_ueMap) s'.(m_ueMap) s.(m_ulTargets) type st alloc /\
    ues_rel same_ue s.(m_ueMap) s'.(m_ueMap) /\ (s'.(m_schedulerSrs) = s.(m_schedulerSrs) /\ s'.(m_dlHarqToRetransmit) = s.(m_dlHarqToRetransmit)) /\
    (forall k id p, proc_at s.(m_ueMap) k id = Some p -> hp_active p = true -> hp_status p = WAITING_FEEDBACK ->
       (Z.of_nat k, id) ∉ fb_key <$> s.(m_ulHarqToRetransmit) ++ received -> hp_timer p < conf.(GetNumHarqProcess) ->
       proc_at s'.(m_ueMap) k id = Some (aged conf.(GetNumHarqProcess) p)) /\
    s'.(m_ulAllocationMap) = <[ulSfn := mkSlotElem (slot_symbols - st) (data_allocs alloc.(m_varTtiAllocInfo))]> s.(m_ulAllocationMap) /\
    s'.(m_ulHarqToRetransmit) `sublist_of` s.(m_ulHarqToRetransmit) ++ received /\
    forall fb, fb ∈ s.(m_ulHarqToRetransmit) ++ received -> IsReceivedOk fb = false -> may_resend conf s.(m_ueMap) fb ->
      sent_in alloc fb \/ fb ∈ s'.(m_ulHarqToRetransmit) \/ st = dl_symbols conf type.
Proof.
  intros [W Ty En New Kn Nd]. unfold DoSchedUlTriggerReq.
  destruct (refresh_ues _ (mw_ues _ _ W) (mw_clear _ _ W)) as (W1 & C1 & S1 & P1). set (m1 := refresh_ul_ue conf <$> m_ueMap s) in *.
  assert (Forall (fb_known m1) (s.(m_ulHarqToRetransmit) ++ received)) as Kn1.
  { apply Forall_app. split; [eapply Forall_impl; [exact (mw_kept _ _ W)|]|eapply Forall_impl; [exact Kn|]]; intros fb; by apply fb_known_same. }
  destruct (process_feedback_ok conf m1 _ received (co_harq _ Ok_conf) W1 Kn1 Nd) as (l & m2 & -> & W2 & C2 & S2 & Sl & R2 & A2 & K2).
  cbn [res_bind fst snd]. unfold ScheduleUl. rewrite (co_symbols _ Ok_conf), (co_ulCtrl _ Ok_conf).
  change (AppendCtrlSym conf (u8 (14 - 1)) 1 UL []) with (Ok [slot_info (ctrl_dci conf UL 13)] : res (list VarTti)). cbn [res_bind].
  rewrite En. cbn [res_bind]. change (u32 1) with 1.
  set (s2 := s <| m_ueMap := m2 |> <| m_ulHarqToRetransmit := [] |>).
  assert (ues_rel same_ue (m_ueMap s) m2) as S02 by (by eapply same_ues_trans).
  assert (mac_wf conf s2) as Ws2.
  { split; cbn; try done; [by apply C2|constructor| |apply (mw_rach _ _ W)|apply (mw_targets _ _ W)].
    eapply Forall_impl; [exact (mw_sr _ _ W)|]. intros r [ue E]. destruct (ues_rel_lookup _ _ _ _ _ S02 E) as (ue' & E' & _). by exists ue'. }
  assert (NoDup (fb_key <$> l)) as Ndl by (eapply sublist_NoDup; [exact Nd|]; by apply fmap_sublist).
  destruct (DoScheduleUl_ok l ulSfn type s2 Ws2 Ty eq_refl R2 Ndl New) as (st & s' & alloc & -> & W' & Res & S' & Srs & Wk & Map & Kp & Fb).
  cbn [res_bind]. destruct Res as [Rs Rt Rn Rg Ro]. change (m_ueMap s2) with m2 in *. change (m_ulTargets s2) with (m_ulTargets s) in *.
  assert (CheckResourceMatrix (m_varTtiAllocInfo alloc) (m_ueMap s') (GetUlBitmask conf) 14 = Ok tt) as ->
    by exact (tiling_checked _ _ _ _ _ _ Rt (alloc_beam_of _ _ _ _ _ S' Rt)). cbn [res_bind].
  exists st, s', alloc. split; [done|]. split; [done|]. split.
  - split; try done. clear -Rt S02. induction Rt as [|st n b g rest S0 N Ne F D T IH]; [constructor|].
    apply (tiling_group _ _ _ st n b); try done. eapply Forall_impl; [exact F|]. intros v []. split; try done.
    by rewrite <- (same_ue_beam _ _ _ S02).
  - split; [by eapply same_ues_trans|]. split; [exact Srs|]. split.
    { intros k id p Ep Ap Sp Nk Tp. apply Wk.
      - change (m_ueMap s2) with m2. by rewrite A2, P1, Ep.
      - rewrite (proj1 (aged_young _ p ltac:(by rewrite Sp) Tp)). done.
      - unfold aged. rewrite decide_False by (by rewrite Sp). rewrite (proj2 (Z.ltb_lt _ _)) by done. by destruct p. }
    split; [exact Map|]. split; [by etrans|]. intros fb Hfb Nok (p & d & Pa & Q).
    apply Fb, K2; [done|done|]. exists p, d. rewrite P1. by split.
Qed.
End slot.
