(* ===== verification/DlGrant.v ===== *)
(** One downlink grant: the bytes of the transport block that the channels of the UE are given, each
    with a header of three bytes. *)
From Stdlib Require Import ZArith Lia.
From stdpp Require Import base list gmap strings list_numbers.
From coqutil Require Import Datatypes.RecordSettersUsingExistingGetters.
From S2P Require Import Prelude OrdMap Messages UlScheduler Amc DlUe CqiManagement DlScheduler Dci.
From S2P Require Import LogicalChannels LcProps Harq MacScheduler ResourceMatrix UlSlot DlSlot HarqFacts MacFacts UlGrant.
Open Scope Z_scope.

(** ** The channels of the downlink *)

(** Three bytes is the header of a sub-PDU. *)
Definition queue_ok (n : Z) : Prop := n = 0 \/ 3 <= n.

(** The queues of a channel are empty or hold more than a header, and their sum does not wrap around. *)
Record dl_lc_ok (lc : NrMacSchedulerLC) : Prop := {
  dl_tx : 0 <= lc.(m_rlcTransmissionQueueSize) < 2 ^ 31 /\ queue_ok lc.(m_rlcTransmissionQueueSize);
  dl_retx : 0 <= lc.(m_rlcRetransmissionQueueSize) < 2 ^ 30 /\ queue_ok lc.(m_rlcRetransmissionQueueSize);
  dl_status : fits 16 lc.(m_rlcStatusPduSize) /\ queue_ok lc.(m_rlcStatusPduSize)
}.

(** At most three channels, in whatever groups: the split of a block of at least ten bytes then gives
    each of them a header at least. *)
Definition dl_groups_ok (lcgs : gmap Z NrMacSchedulerLCG) : Prop :=
  exists chans : list (Z * Z), (length chans <= 3)%nat /\
    forall g lcg c lc, lcgs !! g = Some lcg -> lcg !! c = Some lc -> (g, c) ∈ chans /\ lc.(lc_id) = c /\ dl_lc_ok lc.

Lemma dl_lc_wf lc : dl_lc_ok lc -> lc_wf lc.
Proof. intros [[T _] [Rt _] [S _]]. split; [lia|]. split; [unfold fits; lia|done]. Qed.

Lemma dl_total lc : dl_lc_ok lc -> queue_ok (LcTotalSize lc).
Proof.
  intros [[T T'] [Rt R'] [[S0 S1] S']]. unfold queue_ok, LcTotalSize in *. rewrite wrap_small by (unfold fits; lia). lia.
Qed.

Lemma tx_left_dl c size q : 0 <= q -> queue_ok (tx_left c size "DL" q) /\ 0 <= tx_left c size "DL" q <= Z.max q 10.
Proof.
  intros Q. unfold tx_left. change (least_left "DL") with 10.
  assert (0 <= rlc_overhead c "DL") by (unfold rlc_overhead; destruct (_ && _); lia).
  destruct (Z.ltb_spec size (rlc_overhead c "DL")); [cbn; unfold queue_ok; lia|].
  destruct (Z.eqb_spec (Z.max 0 (q - (size - rlc_overhead c "DL"))) 0); unfold queue_ok; lia.
Qed.

(** A channel that was given bytes *)
Lemma dl_assigned c bytes lcg lc :
  lcg !! c = Some lc -> dl_lc_ok lc -> fits 32 bytes ->
  exists lc', AssignedData c bytes "DL" lcg = Ok (<[c := lc']> lcg) /\ lc'.(lc_id) = lc.(lc_id) /\ dl_lc_ok lc'.
Proof.
  intros E W F. destruct (AssignedData_ok c bytes "DL" lcg lc E (dl_lc_wf lc W) F) as (lc' & -> & _ & El).
  exists lc'. split; [done|]. destruct W as [T Rt S]. subst lc'. split; [by repeat match goal with |- context [if ?b then _ else _] => destruct b end|].
  destruct (_ && _); [split; [by destruct lc..|]; split; [done|by left]|].
  destruct (_ && _); [split; [by destruct lc| |by destruct lc]; split; [done|by left]|].
  rewrite set_tx. destruct (tx_left_dl c bytes (m_rlcTransmissionQueueSize lc) ltac:(lia)) as [L1 L2].
  split; cbn; [split; [lia|done]|done|done].
Qed.

(** ** The split *)

Lemma sum_have_small l x :
  Forall (fun lc => lc.2.2 <= 3) l -> x ∈ l -> x.2.2 <= 2 -> sum_have l <= 3 * Z.of_nat (length l) - 1.
Proof.
  intros F Hx X. induction F as [|y l Hy F IH]; [by apply elem_of_nil in Hx|]. cbn [sum_have foldr length]. fold (sum_have l).
  apply elem_of_cons in Hx as [<-|Hx]; [|specialize (IH Hx); lia].
  assert (sum_have l <= 3 * Z.of_nat (length l)); [|lia].
  clear -F. induction F as [|y l Hy F IH]; [done|]. cbn [sum_have foldr length]. fold (sum_have l). lia.
Qed.

Lemma active_few lcgs : dl_groups_ok lcgs -> (length (active_lcs lcgs) <= 3)%nat.
Proof.
  intros (chans & L & C). etrans; [|exact L]. replace (length (active_lcs lcgs)) with (length (active_lcs lcgs).*1) by apply length_fmap. apply submseteq_length, NoDup_submseteq.
  - apply smap_wf_NoDup; [apply _|apply active_lcs_spec].
  - intros [g c] ([[g' c'] v] & [= -> ->] & Ha)%list_elem_of_fmap.
    apply active_lcs_wants in Ha as [(lcg & lc & E1 & E2 & _) _]. by apply (C g' lcg c' lc).
Qed.

(** Every channel of the split has a header at least. *)
Lemma dl_shares lcgs tbs :
  dl_groups_ok lcgs -> active_lcs lcgs <> [] -> 10 <= tbs < 2 ^ 32 ->
  exists l, AssignBytesToDlLC lcgs tbs = Ok l /\ l <> [] /\ sum_bytes l = tbs /\
    forall a, a ∈ l -> (exists d, wants lcgs a.(as_lcg) a.(as_lcId) d) /\ 3 <= a.(as_bytes) <= tbs.
Proof.
  intros G Ne T. pose proof (active_few lcgs G) as Few. destruct G as (chans & _ & C).
  destruct (AssignBytesToLC_spec lcgs tbs ltac:(lia) Ne) as (l & E & K & Sm & Q).
  assert (length l = length (active_lcs lcgs)) as Ll by (apply (f_equal length) in K; by rewrite !length_fmap in K).
  unfold AssignBytesToDlLC. rewrite E. eexists. split; [done|]. split; [by destruct l, (active_lcs lcgs)|]. split.
  { rewrite <- Sm. clear. induction l as [|x l IH]; [done|]. cbn. f_equal. exact IH. }
  assert (forall x, x ∈ l -> (exists d, wants lcgs x.1.1 x.1.2 d) /\ 3 <= x.2.2) as Three.
  { intros x Hx. assert (forall d, wants lcgs x.1.1 x.1.2 d -> 3 <= d) as D3.
    { intros d (lcg & lc & E1 & E2 & -> & P). destruct (dl_total lc (proj2 (proj2 (C _ _ _ _ E1 E2)))); lia. }
    destruct Q as [[h Q]|Q]; destruct (split_entry _ _ _ _ K Q Hx) as (d & Hd & R); (split; [by exists d|]); specialize (D3 d Hd).
    - destruct (decide (3 <= x.2.2)) as [|Lt]; [done|exfalso]. destruct R as (R1 & R2 & R3 & R4). specialize (R4 ltac:(lia)).
      assert (Forall (fun lc => lc.2.2 <= 3) l) as F.
      { apply Forall_forall. intros y Hy. destruct (split_entry _ _ _ _ K Q Hy) as (d' & _ & (_ & R2' & _)). lia. }
      pose proof (sum_have_small l x F Hx ltac:(lia)). lia.
    - destruct R. lia. }
  assert (Forall (fun lc => 0 <= lc.2.2) l) as F by (apply Forall_forall; intros x Hx; destruct (Three x Hx); lia).
  destruct (sum_have_le l F) as [_ Le]. rewrite Forall_forall in Le.
  intros a (x & -> & Hx)%list_elem_of_fmap. cbn. destruct (Three x Hx) as [? ?]. split; [done|]. specialize (Le x Hx). lia.
Qed.

(** ** The sub-PDUs *)

(** The bytes of the sub-PDUs with their headers *)
Definition pdu_bytes (l : list RlcPduInfo) : Z := foldr (fun p n => pdu_size p + 3 + n) 0 l.

Lemma pdu_bytes_snoc l p : pdu_bytes (l ++ [p]) = pdu_bytes l + (pdu_size p + 3).
Proof.
  induction l as [|q l IH]; [cbn; lia|]. change (pdu_bytes ((q :: l) ++ [p])) with (pdu_size q + 3 + pdu_bytes (l ++ [p])).
  change (pdu_bytes (q :: l)) with (pdu_size q + 3 + pdu_bytes l). lia.
Qed.

Lemma lcg_put (lcg : NrMacSchedulerLCG) c lc c' :
  (<[c := lc]> lcg : NrMacSchedulerLCG) !! c' = if decide (c' = c) then Some lc else lcg !! c'.
Proof. destruct (decide (c' = c)) as [->|Ne]; [apply lookup_insert_eq|by apply lookup_insert_ne]. Qed.

Lemma dl_pdus_fold lcgs0 (chans : list (Z * Z)) l lcgs pdus :
  (forall a, a ∈ l -> (exists d, wants lcgs0 a.(as_lcg) a.(as_lcId) d) /\ 3 <= a.(as_bytes) < 2 ^ 32) ->
  (forall g lcg c lc, lcgs0 !! g = Some lcg -> lcg !! c = Some lc -> exists lcg' lc', lcgs !! g = Some lcg' /\ lcg' !! c = Some lc') ->
  (forall g lcg c lc, lcgs !! g = Some lcg -> lcg !! c = Some lc -> (g, c) ∈ chans /\ lc.(lc_id) = c /\ dl_lc_ok lc) ->
  exists lcgs' pdus', res_fold dl_pdu l (lcgs, pdus) = Ok (lcgs', pdus') /\
    pdu_bytes pdus' = pdu_bytes pdus + sum_bytes l /\ (length pdus' = length pdus + length l)%nat /\
    forall g lcg c lc, lcgs' !! g = Some lcg -> lcg !! c = Some lc -> (g, c) ∈ chans /\ lc.(lc_id) = c /\ dl_lc_ok lc.
Proof.
  revert lcgs pdus. induction l as [|a l IH]; intros lcgs pdus A S C; cbn [res_fold].
  { exists lcgs, pdus. split; [done|]. split; [cbn; lia|]. split; [cbn; lia|done]. }
  destruct (A a ltac:(by left)) as [(d & lcg0 & lc0 & E1 & E2 & _) Fb]. destruct (S _ _ _ _ E1 E2) as (lcg & lc & E3 & E4).
  destruct (C _ _ _ _ E3 E4) as (Hc & Hid & Wl).
  destruct (dl_assigned (as_lcId a) (as_bytes a - 3) lcg lc E4 Wl ltac:(unfold fits; lia)) as (lc' & Ea & Il' & Wl').
  unfold dl_pdu at 1. rewrite (proj2 (Z.ltb_ge _ _)) by lia. cbn [abort_if res_bind fst snd]. rewrite E3, Ea. cbn [res_bind].
  destruct (IH (<[as_lcg a := <[as_lcId a := lc']> lcg]> lcgs) (pdus ++ [mkPdu (as_lcId a) (as_bytes a - 3)])) as (lcgs' & pdus' & -> & B & L & C').
  - intros x Hx. apply A. by right.
  - intros g lcg1 c lc1 X1 X2. destruct (S _ _ _ _ X1 X2) as (lcg2 & lc2 & Y1 & Y2). destruct (decide (g = as_lcg a)) as [->|Ne].
    + rewrite lookup_insert_eq. rewrite E3 in Y1. injection Y1 as <-. eexists. 
      exists (if decide (c = as_lcId a) then lc' else lc2). split; [done|]. rewrite lcg_put, Y2. by destruct (decide _).
    + rewrite lookup_insert_ne by done. by exists lcg2, lc2.
  - intros g lcg1 c lc1. destruct (decide (g = as_lcg a)) as [->|Ne].
    + rewrite lookup_insert_eq. intros [= <-]. rewrite lcg_put. destruct (decide (c = as_lcId a)) as [->|Nc]; [intros [= <-]; by rewrite Il'|].
      intros X. by apply (C _ lcg).
    + rewrite lookup_insert_ne by done. apply C.
  - exists lcgs', pdus'. split; [done|]. rewrite B, pdu_bytes_snoc. cbn [pdu_size]. change (sum_bytes (a :: l)) with (as_bytes a + sum_bytes l).
    split; [lia|]. split; [|exact C']. rewrite L, length_app. cbn. lia.
Qed.

(** A transport block of a UE with data is split into sub-PDUs that fill it. *)
Lemma dl_pdus_ok lcgs tbs :
  dl_groups_ok lcgs -> 0 < tot_buffer lcgs -> 10 <= tbs < 2 ^ 32 ->
  exists l lcgs' pdus, AssignBytesToDlLC lcgs tbs = Ok l /\ res_fold dl_pdu l (lcgs, []) = Ok (lcgs', pdus) /\
    pdus <> [] /\ pdu_bytes pdus = tbs /\ dl_groups_ok lcgs'.
Proof.
  intros G P T. destruct (dl_shares lcgs tbs G (tot_buffer_active lcgs P) T) as (l & El & Nl & Sl & Al). destruct G as (chans & L & C).
  destruct (dl_pdus_fold lcgs chans l lcgs []) as (lcgs' & pdus & Ep & Bp & Lp & C'); [|by intros g lcg c lc ? ?; exists lcg, lc|exact C|].
  { intros a Ha. destruct (Al a Ha). split; [done|lia]. }
  exists l, lcgs', pdus. split; [done|]. split; [done|]. split; [intros ->; by destruct l|]. split; [rewrite Bp, Sl; cbn; lia|]. by exists chans.
Qed.
