(* ===== verification/DlSlotFacts.v ===== *)
(** What a downlink slot keeps: the UEs, of which only the downlink part changes, and the layout of what
    is allocated, up to a symbol and from the symbols of the uplink on. *)
From Stdlib Require Import ZArith Lia Lists.List.
From stdpp Require Import base list gmap strings list_numbers.
From coqutil Require Import Datatypes.RecordSettersUsingExistingGetters.
From S2P Require Import Prelude OrdMap Messages UlScheduler Amc AmcProps DlUe CqiManagement CqiProps DlScheduler.
From S2P Require Import DlProps Dci LogicalChannels LcProps Harq Srs SfnSf MacScheduler ResourceMatrix UlSlot DlSlot.
From S2P Require Import SlotLayout UlTiling HarqFacts MacFacts UlGrant UlSlotFacts DlGrant.
Open Scope Z_scope.
(** ** The UEs *)

(** A DCI that may be sent again in the downlink *)
Record dl_dci_ok (conf : SchedConf) (k : nat) (d : Dci) : Prop := {
  dd_rnti : dci_rnti d = Z.of_nat k;
  dd_dl : dci_format d = DL;
  dd_num : 1 <= m_numSym d <= 13;
  dd_length : length (m_rbgBitmask d) = length (DlBitmask conf);
  dd_mask : forall i, m_rbgBitmask d !! i = Some true -> DlBitmask conf !! i = Some true
}.

(** The downlink of a UE, whose channels have at most [nsb] sub-bands *)
Record dl_ue_wf (conf : SchedConf) (em : NrErrorModel) (nsb : Z) (k : nat) (ue : SchedUe) : Prop := {
  dw_rnti : ue.(ue_dl).(dl_rnti) = Z.of_nat k;
  dw_ul : has_rnti k ue;
  dw_side : side_wf DL (dl_dci_ok conf) (maxHarqReTx conf) k ue;
  dw_cqi : CqiProps.ue_wf em (Z.of_nat conf.(GetBandwidthInRbg)) nsb ue.(ue_dl);
  dw_src : ue.(ue_dl).(ue_mcsCsiSource) = AVG_MCS \/ ue.(ue_dl).(ue_mcsCsiSource) = WIDEBAND_MCS;
  dw_rank : 1 <= ue.(ue_dl).(m_dlRank) <= 4;
  dw_groups : dl_groups_ok ue.(m_dlLCG)
}.

(** A UE to which no downlink RBG is assigned *)
Definition dl_clear (ue : SchedUe) : Prop := unassigned ue.(ue_dl).

(** What a downlink slot changes of a UE *)
Definition dl_only (_ : nat) (u v : SchedUe) : Prop :=
  exists d l h, v = u <| ue_dl := d |> <| m_dlLCG := l |> <| m_dlHarq := h |> /\ h.(m_maxSize) = u.(m_dlHarq).(m_maxSize).

Lemma dl_only_refl k u : dl_only k u u.
Proof. exists (ue_dl u), (m_dlLCG u), (m_dlHarq u). split; [by destruct u|done]. Qed.
Lemma dl_only_trans k u v w : dl_only k u v -> dl_only k v w -> dl_only k u w.
Proof. intros (d & l & h & -> & E) (d' & l' & h' & -> & E'). exists d', l', h'. split; [by destruct u|]. by rewrite E'. Qed.
Lemma dl_onlys_refl m : ues_rel dl_only m m.
Proof. apply ues_rel_refl, dl_only_refl. Qed.
Lemma dl_onlys_trans m m' m'' : ues_rel dl_only m m' -> ues_rel dl_only m' m'' -> ues_rel dl_only m m''.
Proof. apply ues_rel_trans, dl_only_trans. Qed.
#[export] Hint Resolve dl_only_refl dl_onlys_refl waits_kept_refl : oran.

Lemma dl_only_beam m0 m rnti : ues_rel dl_only m0 m -> beam_of m rnti = beam_of m0 rnti.
Proof. intros S. unfold beam_of. specialize (S (ue_key rnti)). by destruct S as [u v (d & l & h & -> & _)|]. Qed.

Section ues.
Context (conf : SchedConf) (em : NrErrorModel) (nsb : Z).
Abbreviation R := (maxHarqReTx conf).
Abbreviation uwf := (dl_ue_wf conf em nsb).

(** The vector of a UE *)
Lemma dl_ue_harq k ue v :
  uwf k ue -> harq_wf R v ->
  (forall id p d, procs v !! id = Some p -> hp_active p = true -> m_dciElement p = Some d -> dl_dci_ok conf k d) ->
  uwf k (ue <| m_dlHarq := v |>).
Proof. intros [W1 W2 W3 W4 W5 W6 W7] H P. by split. Qed.

(** The expiry of processes and the feedback at the start of the slot *)
Lemma only_dlHarq_wf m m' :
  map_Forall uwf m -> map_Forall (side_wf DL (dl_dci_ok conf) R) m' -> ues_rel (only_harq DL) m m' ->
  map_Forall uwf m' /\ (map_Forall (fun _ => dl_clear) m -> map_Forall (fun _ => dl_clear) m') /\ ues_rel dl_only m m'.
Proof.
  intros W W' S. split; [|split].
  - intros k ue' E'. destruct (ues_rel_lookup_r _ _ _ _ _ S E') as (ue & E & v & -> & M). destruct (W' _ _ E') as [Wh Wp].
    by apply (dl_ue_harq k ue v (W k ue E)).
  - intros C. eapply ues_rel_forall; [exact S|exact C|]. by intros k u v (w & -> & _).
  - eapply ues_rel_weaken; [|exact S]. intros k u v (w & -> & M). exists (ue_dl u), (m_dlLCG u), w. split; [by destruct u|done].
Qed.

(** A process of a UE that was not waiting is replaced, along with anything else of its downlink. *)
Lemma put_dl_wf m k ue ue' id p q :
  map_Forall uwf m -> m !! k = Some ue -> uwf k ue' -> dl_only k ue ue' ->
  procs ue.(m_dlHarq) !! id = Some p -> (hp_active p = true -> hp_status p <> WAITING_FEEDBACK) ->
  procs ue'.(m_dlHarq) = <[id := q]> (procs ue.(m_dlHarq)) ->
  let m' := <[k := ue']> m in
  map_Forall uwf m' /\ ues_rel dl_only m m' /\ waits_kept DL m m' /\ proc_of DL m' k id = Some q /\
  forall k' id', (k', id') <> (k, id) -> proc_of DL m' k' id' = proc_of DL m k' id'.
Proof.
  intros W E W' S Ep Np P m'.
  assert (forall k' id', (k', id') <> (k, id) -> proc_of DL m' k' id' = proc_of DL m k' id') as F.
  { intros k' id' Ne. unfold proc_of, m'. destruct (decide (k' = k)) as [->|Nk]; [|by rewrite lookup_insert_ne].
    rewrite lookup_insert_eq, E. cbn. rewrite P, lookup_insert_ne; [done|]. by intros ->. }
  split; [by apply map_Forall_insert_2|]. split; [eapply ues_rel_insert; [apply dl_onlys_refl|exact E|done]|].
  split; [eapply waits_kept_proc; [apply (proc_of_Some DL); by exists ue|done|exact F]|]. split; [|exact F].
  unfold proc_of, m'. rewrite lookup_insert_eq. cbn. by rewrite P, lookup_insert_eq.
Qed.
End ues.

(** ** The layout *)

(** An allocation of at most [n] symbols from [cur], in the beam [b] *)
Record in_group (beam : Z -> BeamId) (mask : list bool) (cur n : Z) (b : BeamId) (v : VarTti) : Prop := {
  ig_start : m_symStart (m_dci v) = cur;
  ig_num : 1 <= m_numSym (m_dci v) <= n;
  ig_beam : beam (dci_rnti (m_dci v)) = b;
  ig_omni : m_isOmni v = false;
  ig_length : length (m_rbgBitmask (m_dci v)) = length mask;
  ig_mask : forall i, m_rbgBitmask (m_dci v) !! i = Some true -> mask !! i = Some true
}.

(** A layout that is free between the symbols [cur] and [fin], with nothing but control after them *)
Record laid (beam : Z -> BeamId) (mask : list bool) (cur fin : Z) (l : list VarTti) : Prop := {
  la_placed : Forall (placed mask) l;
  la_pairs : ForallOrdPairs (compatible beam) l;
  la_free : Forall (fun v => m_symStart (m_dci v) + m_numSym (m_dci v) <= cur \/ dci_type (m_dci v) = CTRL /\ fin <= m_symStart (m_dci v)) l;
  la_omni : Forall (fun v => m_isOmni v = false) l
}.

Lemma pairs_app {A} (P : A -> A -> Prop) l l' :
  ForallOrdPairs P l -> ForallOrdPairs P l' -> (forall x y, x ∈ l -> y ∈ l' -> P x y) -> ForallOrdPairs P (l ++ l').
Proof.
  intros F F' X. induction F as [|x l Fx F IH]; [done|]. cbn. constructor.
  - apply Forall_app. split; [done|]. apply Forall_forall. intros y Hy. apply X; [by left|done].
  - apply IH. intros y z Hy. apply X. by right.
Qed.

Lemma pairs_impl {A} (P Q : A -> A -> Prop) l : (forall x y, P x y -> Q x y) -> ForallOrdPairs P l -> ForallOrdPairs Q l.
Proof. intros I F. induction F as [|x l Fx F IH]; constructor; [|done]. eapply Forall_impl; [exact Fx|]. auto. Qed.

Lemma pairs_snoc {A} (P : A -> A -> Prop) l x :
  ForallOrdPairs P l -> Forall (fun y => P y x) l -> ForallOrdPairs P (l ++ [x]).
Proof.
  intros F X. apply pairs_app; [done|by repeat constructor|]. intros y z Hy ->%list_elem_of_singleton.
  rewrite Forall_forall in X. by apply X.
Qed.

Lemma laid_group beam mask cur n fin b l g :
  laid beam mask cur fin l -> 0 <= cur -> 0 <= n -> cur + n <= fin -> fin <= slot_symbols ->
  Forall (in_group beam mask cur n b) g -> ForallOrdPairs apart g -> laid beam mask (cur + n) fin (l ++ g).
Proof.
  intros [P C Fr Om] C0 N0 Le Fin G A. split.
  - apply Forall_app. split; [done|]. eapply Forall_impl; [exact G|]. intros v [I1 I2 I3 I4 I5 I6].
    split; rewrite ?I1; [lia|lia|lia|done|by right].
  - apply pairs_app; [done| |].
    + clear -G A. induction A as [|v g Fv A IH]; [constructor|]. apply Forall_cons in G as [Gv G]. constructor; [|by apply IH].
      apply Forall_forall. intros w Hw. rewrite Forall_forall in Fv, G. right. right. split; [|by apply Fv].
      by rewrite (ig_beam _ _ _ _ _ _ Gv), (ig_beam _ _ _ _ _ _ (G w Hw)).
    + intros v w Hv Hw. rewrite Forall_forall in Fr, G. destruct (G w Hw) as [I1 I2 I3 I4 I5 I6].
      destruct (Fr v Hv) as [Q|[_ Q]]; [left|right; left]; unfold before; lia.
  - apply Forall_app. split.
    + eapply Forall_impl; [exact Fr|]. cbn. intros v [?|?]; [left; lia|by right].
    + eapply Forall_impl; [exact G|]. intros v [I1 I2 I3 I4 I5 I6]. left. lia.
  - apply Forall_app. split; [done|]. eapply Forall_impl; [exact G|]. by intros v [].
Qed.

(** ** Counting symbols *)

Abbreviation end_of v := (m_symStart (m_dci v) + m_numSym (m_dci v)).

Lemma count_fold l acc :
  Forall (fun v => 0 <= m_symStart (m_dci v) /\ 1 <= m_numSym (m_dci v) /\ end_of v <= 14) l ->
  let r := foldl count_symbols acc l in
  (r.1 = acc.1 \/ exists v, v ∈ l /\ r.1 = m_symStart (m_dci v)) /\ (r.2 = acc.2 \/ exists v, v ∈ l /\ r.2 = end_of v) /\
  r.1 <= acc.1 /\ acc.2 <= r.2 /\ Forall (fun v => r.1 <= m_symStart (m_dci v) /\ end_of v <= r.2) l.
Proof.
  intros F. revert acc. induction F as [|v l (S & N & E) F IH]; intros acc; cbn [foldl]; [by split_and!; try left|].
  assert (let a := count_symbols acc v in (a.1 = acc.1 \/ a.1 = m_symStart (m_dci v)) /\ (a.2 = acc.2 \/ a.2 = end_of v) /\
    a.1 <= acc.1 /\ acc.2 <= a.2 /\ a.1 <= m_symStart (m_dci v) /\ end_of v <= a.2) as (A1 & A2 & A3 & A4 & A5 & A6).
  { unfold count_symbols. cbn [fst snd]. rewrite wrap_small by (unfold fits; lia).
    destruct (Z.ltb_spec (m_symStart (m_dci v)) acc.1), (Z.ltb_spec acc.2 (end_of v)); split_and!; lia. }
  destruct (IH (count_symbols acc v)) as (I1 & I2 & I3 & I4 & I5). set (a := count_symbols acc v) in *. set (r := foldl _ _ _) in *.
  split; [|split; [|split; [lia|split; [lia|constructor; [lia|done]]]]].
  - destruct I1 as [I1|(w & Hw & I1)]; [|right; exists w; by split; [right|]].
    destruct A1 as [A1|A1]; [left; lia|right; exists v; split; [by left|lia]].
  - destruct I2 as [I2|(w & Hw & I2)]; [|right; exists w; by split; [right|]].
    destruct A2 as [A2|A2]; [left; lia|right; exists v; split; [by left|lia]].
Qed.

(** The allocations from [cur] on reach as far as the longest one. *)
Lemma CountUsed_ok start cur l :
  0 <= start <= cur -> Forall (fun v => cur <= m_symStart (m_dci v) /\ 1 <= m_numSym (m_dci v) /\ end_of v <= 14) l ->
  Exists (fun v => m_symStart (m_dci v) = cur) l ->
  exists v, v ∈ l /\ CountUsedSymbols start l = Ok (end_of v - cur) /\ Forall (fun w => end_of w <= end_of v) l.
Proof.
  intros S F (v0 & H0 & E0)%Exists_exists.
  destruct (count_fold l (255, start)) as (I1 & I2 & I3 & I4 & I5); [eapply Forall_impl; [exact F|]; cbn; intros; lia|].
  cbn [fst snd] in *. rewrite Forall_forall in F, I5. pose proof (F v0 H0) as F0. pose proof (I5 v0 H0) as J0.
  assert (CountUsedSymbols start l = let r := foldl count_symbols (255, start) l in
    let* _ := abort_if (r.1 =? 255) "There must have been a valid starting symbol" in Ok (u8 (r.2 - r.1))) as ->.
  { unfold CountUsedSymbols. destruct l; [by apply elem_of_nil in H0|]. by destruct (foldl _ _ _). }
  cbv zeta. set (r := foldl _ _ _) in *.
  assert (r.1 = cur) as E1.
  { destruct I1 as [I1|(v & Hv & I1)]; [|specialize (F v Hv)]; lia. }
  destruct I2 as [I2|(v & Hv & I2)]; [lia|]. exists v. split; [done|]. pose proof (F v Hv).
  rewrite (proj2 (Z.eqb_neq _ _)) by lia. cbn [abort_if res_bind]. split; [|].
  - rewrite wrap_small by (unfold fits; lia). f_equal. lia.
  - apply Forall_forall. intros w Hw. specialize (I5 w Hw). lia.
Qed.
