(* ===== verification/DlHarq.v ===== *)
(** The retransmissions of a downlink slot: the order of the beams and the processes of each, and how
    each beam lays a group of retransmissions, side by side, behind the rest. *)
From Stdlib Require Import ZArith Lia Lists.List.
From stdpp Require Import base list gmap strings list_numbers.
From coqutil Require Import Datatypes.RecordSettersUsingExistingGetters.
From S2P Require Import Prelude OrdMap Messages UlScheduler UlFacts Amc DlUe CqiManagement CqiProps DlScheduler Dci.
From S2P Require Import DlProps LogicalChannels LcProps Harq Srs SfnSf MacScheduler ResourceMatrix UlSlot DlSlot.
From S2P Require Import SlotLayout UlTiling HarqFacts MacFacts UlGrant UlSlotFacts DlGrant DlSlotFacts.
Open Scope Z_scope.
(** ** Who is sent again *)

(** Feedback that is kept is that of the process. *)
Lemma BufferHARQFeedback_ok l kept fb :
  NoDup (fb_key <$> l) -> fb ∈ l -> BufferHARQFeedback l kept fb.(fb_rnti) fb.(fb_process) = Ok (kept ++ [fb]).
Proof.
  intros N H. unfold BufferHARQFeedback. destruct (filter _ l) as [|x r] eqn:E.
  - exfalso. assert (fb ∈ filter (fun x => fb_rnti x = fb_rnti fb /\ fb_process x = fb_process fb) l) as Hf by by apply list_elem_of_filter.
    rewrite E in Hf. by apply elem_of_nil in Hf.
  - assert (x ∈ filter (fun x => fb_rnti x = fb_rnti fb /\ fb_process x = fb_process fb) l) as Hx by (rewrite E; by left).
    apply list_elem_of_filter in Hx as [[X1 X2] Hx]. do 2 f_equal. f_equal.
    apply list_elem_of_lookup in H as [i Hi], Hx as [j Hj].
    assert (i = j) as -> by (eapply (NoDup_lookup (fb_key <$> l)); [done|by rewrite list_lookup_fmap, Hi|]; rewrite list_lookup_fmap, Hj; cbn; unfold fb_key; congruence).
    congruence.
Qed.

(** RBGs are taken all or none. *)
Lemma take_fold mask (l : list nat) bits :
  (forall i, i ∈ l -> (i < length mask)%nat) ->
  exists r, res_fold (fun i acc =>
      match acc with
      | None => Ok None
      | Some bits =>
          match mask !! i with
          | None => Abort "std::out_of_range"
          | Some false => Ok (Some bits)
          | Some true => Ok (if bool_decide (bits !! i = Some true) then Some (<[i := false]> bits) else None)
          end
      end) l (Some bits) = Ok r /\
    match r with
    | None => True
    | Some bits' => length bits' = length bits /\ (forall i, i ∈ l -> mask !! i = Some true -> bits !! i = Some true) /\
        forall i, bits' !! i = Some true -> bits !! i = Some true /\ (i ∈ l -> mask !! i <> Some true)
    end.
Proof.
  set (step := fun i acc => _). revert bits. induction l as [|i l IH]; intros bits L; cbn [res_fold].
  { exists (Some bits). split; [done|]. split; [done|]. split; [by intros i ?%elem_of_nil|]. intros i Hi. split; [done|]. by intros ?%elem_of_nil. }
  assert (forall l, res_fold step l None = Ok None) as None_l.
  { clear. intros l. induction l as [|i l IH]; [done|]. cbn [res_fold]. unfold step at 1. cbn [res_bind]. exact IH. }
  destruct (lookup_lt_is_Some_2 mask i (L i ltac:(by left))) as [[|] Em]; unfold step at 1; rewrite Em; cbn [res_bind].
  - destruct (bool_decide_reflect (bits !! i = Some true)) as [B|B]; [|exists None; by rewrite None_l].
    destruct (IH (<[i := false]> bits)) as (r & -> & Q); [intros j Hj; apply L; by right|]. exists r. split; [done|].
    destruct r as [bits'|]; [|done]. destruct Q as (Q1 & Q2 & Q3). split; [by rewrite Q1, length_insert|].
    assert (forall j, <[i := false]> bits !! j = Some true -> bits !! j = Some true /\ j <> i) as Ins.
    { intros j. destruct (decide (j = i)) as [->|Ne]; [|by rewrite list_lookup_insert_ne].
      rewrite list_lookup_insert_eq by (by eapply lookup_lt_Some). done. }
    split.
    + intros j [->|Hj]%elem_of_cons Mj; [done|]. by apply Ins, Q2.
    + intros j Hj. destruct (Q3 j Hj) as [[Q4 Ne]%Ins Q5]. split; [done|]. intros [->|Hl]%elem_of_cons; [done|by apply Q5].
  - destruct (IH bits) as (r & -> & Q); [intros j Hj; apply L; by right|]. exists r. split; [done|].
    destruct r as [bits'|]; [|done]. destruct Q as (Q1 & Q2 & Q3). split; [done|]. split.
    + intros j [->|Hj]%elem_of_cons Mj; [congruence|by apply Q2].
    + intros j Hj. destruct (Q3 j Hj) as [Q4 Q5]. split; [done|]. intros [->|Hl]%elem_of_cons; [congruence|by apply Q5].
Qed.

Lemma take_rbgs_ok mask bits :
  length mask = length bits ->
  exists r, take_rbgs mask bits = Ok r /\
    match r with
    | None => True
    | Some bits' => length bits' = length bits /\ (forall i, mask !! i = Some true -> bits !! i = Some true) /\
        forall i, bits' !! i = Some true -> bits !! i = Some true /\ mask !! i <> Some true
    end.
Proof.
  intros L. destruct (take_fold mask (seq 0 (length bits)) bits) as (r & E & Q); [intros i ?%elem_of_seq; lia|].
  exists r. split; [exact E|]. destruct r as [bits'|]; [|done]. destruct Q as (Q1 & Q2 & Q3). split; [done|].
  split; intros i Hi; [apply Q2; [apply elem_of_seq; pose proof (lookup_lt_Some _ _ _ Hi); lia|done]|].
  destruct (Q3 i Hi) as [Q4 Q5]. split; [done|]. apply Q5, elem_of_seq. pose proof (lookup_lt_Some _ _ _ Q4). lia.
Qed.

(** ** The active processes of a slot *)

Lemma active_add_concat {A} b (e : A) (active : list (BeamId * list A)) :
  concat (active_add b e active).*2 ≡ₚ e :: concat active.*2.
Proof.
  induction active as [|[c v] a IH]; [done|]. cbn [active_add]. destruct (decide (c = b)); cbn [fmap list_fmap concat snd].
  - rewrite <- app_assoc. cbn. by rewrite Permutation_middle.
  - rewrite IH. by rewrite Permutation_middle.
Qed.

Lemma active_add_dom {A} b (e : A) (active : list (BeamId * list A)) c : c ∈ (active_add b e active).*1 <-> c = b \/ c ∈ active.*1.
Proof.
  induction active as [|[d v] a IH]; cbn [active_add]; [cbn; set_solver|].
  destruct (decide (d = b)) as [->|Ne]; cbn [fmap list_fmap fst]; [set_solver|]. rewrite !elem_of_cons, IH. set_solver.
Qed.

(** Every beam is there once, with something to send. *)
Definition beams_ok {A} (P : BeamId -> A -> Prop) (active : list (BeamId * list A)) : Prop :=
  NoDup active.*1 /\ Forall (fun e => e.2 <> [] /\ Forall (P e.1) e.2) active.

Lemma active_add_beams_ok {A} (P : BeamId -> A -> Prop) b e active :
  beams_ok P active -> P b e -> beams_ok P (active_add b e active).
Proof.
  intros [N F] Pe. split.
  - clear F. induction active as [|[c v] a IH]; cbn [active_add]; [repeat constructor; set_solver|].
    cbn in N. apply NoDup_cons in N as [Nc N]. destruct (decide (c = b)) as [->|Nb]; cbn; [by constructor|].
    constructor; [|by apply IH]. rewrite active_add_dom. naive_solver.
  - clear N. induction F as [|[c v] a [Fv Fe] F IH]; cbn [active_add]; [by repeat constructor|].
    destruct (decide (c = b)) as [->|Nb]; [|by constructor]. constructor; [|done]. cbn. split; [by destruct v|].
    apply Forall_app. split; [done|by repeat constructor].
Qed.

(** A process of a UE in the beam [b] *)
Definition in_beam (m : gmap nat SchedUe) (b : BeamId) (process : Z * Z) : Prop :=
  exists ue, m !! ue_key process.1 = Some ue /\ ue.(m_beamId) = b.

Lemma SortDlHarq_ok m active :
  beams_ok (in_beam m) active -> beams_ok (in_beam m) (SortDlHarq m active) /\
  concat (SortDlHarq m active).*2 ≡ₚ concat active.*2 /\ (SortDlHarq m active).*1 = active.*1.
Proof.
  unfold SortDlHarq. set (key := fun process : Z * Z => - num_sym_of m process).
  assert (forall a : list (BeamId * list (Z * Z)), ((fun beam : BeamId * list (Z * Z) => (beam.1, stable_sort key beam.2)) <$> a).*1 = a.*1) as Fst.
  { intros a. rewrite <- list_fmap_compose. apply list_fmap_ext. by intros. }
  intros [N F]. split; [|split; [|apply Fst]].
  - split; [by rewrite Fst|]. apply Forall_fmap. eapply Forall_impl; [exact F|]. intros [b v] [Ne Fv]. cbn in *.
    assert (stable_sort key v ≡ₚ v) as P by apply stable_sort_perm. split; [|by rewrite P].
    intros E. change (stable_sort key v = []) in E. rewrite E in P. by apply Permutation_nil_l in P.
  - clear. induction active as [|[b v] a IH]; [done|]. cbn [fmap list_fmap concat fst snd]. rewrite (stable_sort_perm key v).
    by apply Permutation_app_head.
Qed.

Lemma ComputeActiveDlHarq_ok R l m :
  Forall (ready DL R m) l ->
  exists a, ComputeActiveDlHarq l m = Ok a /\ beams_ok (in_beam m) a /\ concat a.*2 ≡ₚ fb_key <$> l.
Proof.
  intros F. unfold ComputeActiveDlHarq.
  assert (forall a0, beams_ok (in_beam m) a0 -> exists a, res_fold (fun fb activeDlHarq =>
      let* ue := find_ue fb.(fb_rnti) m in
      let* p := harq_get fb.(fb_process) ue.(m_dlHarq) in
      let* _ := abort_if (negb p.(hp_active)) "NS_ASSERT: m_active" in
      let* _ := abort_if (negb (bool_decide (p.(hp_status) = RECEIVED_FEEDBACK))) "NS_ASSERT: RECEIVED_FEEDBACK" in
      Ok (active_add ue.(m_beamId) (fb.(fb_rnti), fb.(fb_process)) activeDlHarq)) l a0 = Ok a /\
      beams_ok (in_beam m) a /\ concat a.*2 ≡ₚ (fb_key <$> l) ++ concat a0.*2) as G.
  { induction F as [|fb l (Nok & R0 & p & d & (ue & E & Ep)%(proc_of_Some DL) & A & St & _) F IH]; intros a0 B; cbn [res_fold].
    - by exists a0.
    - rewrite (find_ue_ok _ _ _ E). cbn [res_bind]. cbn [harq_of] in Ep. rewrite (harq_get_ok _ _ _ Ep). cbn [res_bind]. rewrite A.
      rewrite bool_decide_true by done. cbn [negb abort_if res_bind].
      destruct (IH (active_add (m_beamId ue) (fb_rnti fb, fb_process fb) a0)) as (a & -> & Ba & Ca).
      { apply active_add_beams_ok; [done|]. by exists ue. }
      exists a. split; [done|]. split; [done|]. rewrite Ca, active_add_concat. cbn. by rewrite Permutation_middle. }
  destruct (G []) as (a & -> & Ba & Ca); [split; constructor|]. cbn [res_bind].
  destruct (SortDlHarq_ok m a Ba) as (S1 & S2 & _). exists (SortDlHarq m a). split; [done|]. split; [done|].
  rewrite S2, Ca. cbn. by rewrite app_nil_r.
Qed.

(** Processes of feedback *)
Lemma processes_feedback (l : list HarqInfo) (ks : list (Z * Z)) :
  ks ⊆ fb_key <$> l -> exists todo, ks = fb_key <$> todo /\ todo ⊆ l.
Proof.
  induction ks as [|k ks IH]; intros S; [exists []; split; [done|by intros x ?%elem_of_nil]|].
  destruct IH as (todo & -> & St); [intros x Hx; apply S; by right|].
  assert (k ∈ fb_key <$> l) as (fb & -> & Hfb)%list_elem_of_fmap by (apply S; by left).
  exists (fb :: todo). split; [done|]. intros x [->|Hx]%elem_of_cons; [done|by apply St].
Qed.

(** ** The beams *)

(** The order of the beams, when only one has ever sent anything again *)
Lemma GetBeamOrderRR_one `{CppHash, !CppHashLaws} b (ps : list (Z * Z)) q :
  q = [] \/ q = [b] -> GetBeamOrderRR [(b, ps)] q = Ok ([b], [b]).
Proof.
  intros Hq. unfold GetBeamOrderRR.
  assert (hashed [(b, ps)] = [(b, ps)]) as -> by apply Permutation_singleton_r, hashed_perm. cbn [fmap list_fmap foldl fst].
  assert ((if bool_decide (b ∈ q) then q else q ++ [b]) = [b]) as ->.
  { destruct Hq as [->| ->]; [by rewrite bool_decide_false by apply not_elem_of_nil|by rewrite bool_decide_true by (by left)]. }
  cbn [length seq res_fold]. unfold order_beam. cbn [fst snd]. rewrite bool_decide_true by (by left). done.
Qed.

(** The order of the beams, when another beam has sent something again *)
Lemma GetBeamOrderRR_other `{CppHash, !CppHashLaws} b b' (ps : list (Z * Z)) :
  b' <> b -> GetBeamOrderRR [(b', ps)] [b] = Abort "ret[i] out of range".
Proof.
  intros Ne. unfold GetBeamOrderRR.
  assert (hashed [(b', ps)] = [(b', ps)]) as -> by apply Permutation_singleton_r, hashed_perm. cbn [fmap list_fmap foldl fst].
  rewrite (bool_decide_false (b' ∈ [b])) by set_solver. cbn [app length seq res_fold]. unfold order_beam at 1. cbn [fst snd].
  rewrite (bool_decide_false (b ∈ [b'])) by set_solver. cbn [res_bind app]. unfold order_beam. cbn [fst snd].
  by rewrite (bool_decide_true (b' ∈ [b'])) by (by left).
Qed.

(** Two grants of data are for two UEs. *)
Definition one_dci (v w : VarTti) : Prop :=
  dci_type (m_dci v) = DATA -> dci_type (m_dci w) = DATA -> dci_rnti (m_dci v) <> dci_rnti (m_dci w).

Section resend.
Context (conf : SchedConf) (Ok_conf : conf_ok conf) (em : NrErrorModel) (nsb : Z) (m0 : gmap nat SchedUe).
Abbreviation R := (maxHarqReTx conf).
Abbreviation uwf := (dl_ue_wf conf em nsb).
Abbreviation mask := (DlBitmask conf).
Abbreviation grp := (in_group (beam_of m0) mask).

(** What holds of the UEs and of the allocations throughout *)
Record dl_entries (m : gmap nat SchedUe) (l : list VarTti) : Prop := {
  de_ues : map_Forall uwf m;
  de_only : ues_rel dl_only m0 m;
  de_granted : Forall (grant_waits DL m) l;
  de_once : ForallOrdPairs one_dci l;
  de_kept : waits_kept DL m0 m
}.

Lemma dl_entries_ues m m' l :
  dl_entries m l -> map_Forall uwf m' -> ues_rel dl_only m m' -> waits_kept DL m m' -> dl_entries m' l.
Proof.
  intros [U S G O K] W S' K'. split; [done|by eapply dl_onlys_trans| |done|by eapply waits_kept_trans].
  eapply Forall_impl; [exact G|]. intros v. by apply grant_waits_kept.
Qed.

Lemma dl_entries_snoc m l v :
  dl_entries m l -> grant_waits DL m v -> Forall (fun w => one_dci w v) l -> dl_entries m (l ++ [v]).
Proof.
  intros [U S G O K] Gv F. split; try done; [apply Forall_app; split; [done|by constructor]|by apply pairs_snoc].
Qed.

(** Nothing changes for the UEs with data to send. *)
Definition sends_same (_ : nat) (u v : SchedUe) : Prop := may_send DL v = may_send DL u.

Lemma sends_same_refl m : ues_rel sends_same m m.
Proof. by apply ues_rel_refl. Qed.
Lemma sends_same_trans m m' m'' : ues_rel sends_same m m' -> ues_rel sends_same m' m'' -> ues_rel sends_same m m''.
Proof. apply ues_rel_trans. unfold sends_same. intros k u v w. congruence. Qed.

(** ** A process of negative feedback waits again. *)

Lemma harq_set_procs id q v : procs (harq_set id q v) = <[id := q]> (procs v) /\ m_maxSize (harq_set id q v) = m_maxSize v.
Proof. by destruct v. Qed.

Lemma put_waits m l todo fb ue p q d mrb :
  dl_entries m l -> map_Forall (fun _ => dl_clear) m ->
  Forall (ready DL R m) (fb :: todo) -> NoDup (fb_key <$> fb :: todo) ->
  m !! ue_key fb.(fb_rnti) = Some ue -> procs ue.(m_dlHarq) !! fb.(fb_process) = Some p ->
  hp_active p = true -> hp_status p = RECEIVED_FEEDBACK ->
  hp_active q = true -> hp_status q = WAITING_FEEDBACK -> hp_timer q = 0 -> m_dciElement q = Some d ->
  m_harqProcess d = fb.(fb_process) -> 0 <= m_rv d <= R -> dl_dci_ok conf (ue_key fb.(fb_rnti)) d ->
  let m' := put_ue fb.(fb_rnti) (ue <| m_dlHarq ::= harq_set fb.(fb_process) q |> <| ue_dl ::= fun u => u <| m_dlMRBRetx := mrb |> |>) m in
  dl_entries m' l /\ map_Forall (fun _ => dl_clear) m' /\ Forall (ready DL R m') todo /\
  proc_of DL m' (ue_key fb.(fb_rnti)) fb.(fb_process) = Some q /\ ues_rel sends_same m m'.
Proof.
  intros De C Rd Nd E Ep Ap Sp Aq Sq Tq Eq Hd Rv Dk m'. pose proof (de_ues _ _ De _ ue E) as Wu.
  set (u1 := ue <| m_dlHarq := harq_set (fb_process fb) q (m_dlHarq ue) |>).
  destruct (harq_set_procs (fb_process fb) q (m_dlHarq ue)) as [Hp Hm].
  assert (uwf (ue_key (fb_rnti fb)) u1) as W1.
  { apply dl_ue_harq; [done| |].
    - eapply harq_set_same_wf; [apply (si_harq _ _ _ _ _ (dw_side _ _ _ _ _ Wu))|exact Ep| |by rewrite Ap, Aq].
      split; [lia|]. rewrite Aq, Sq, Eq. split; [done|]. by exists d.
    - rewrite Hp. apply procs_insert_ok; [apply (si_procs _ _ _ _ _ (dw_side _ _ _ _ _ Wu))|].
      intros _ d' Ed'. rewrite Eq in Ed'. by injection Ed' as <-. }
  set (u2 := u1 <| ue_dl ::= fun u => u <| m_dlMRBRetx := mrb |> |>).
  assert (uwf (ue_key (fb_rnti fb)) u2) as W2 by (destruct W1 as [X1 X2 X3 X4 X5 X6 X7]; split; [exact X1|exact X2|destruct X3; by split|exact X4|exact X5|exact X6|exact X7]).
  destruct (put_dl_wf conf em nsb m _ ue u2 (fb_process fb) p q (de_ues _ _ De) E W2) as (P1 & P2 & P3 & P4 & P5);
    [exists ((ue_dl ue) <| m_dlMRBRetx := mrb |>), (m_dlLCG ue), (harq_set (fb_process fb) q (m_dlHarq ue)); split; [by destruct ue|done]
    |exact Ep|by rewrite Sp|exact Hp|].
  apply Forall_cons in Rd as [Rf Rd]. cbn in Nd. apply NoDup_cons in Nd as [Nf Nd].
  split; [by eapply dl_entries_ues|]. split; [|split; [|split; [exact P4|]]].
  - apply map_Forall_insert_2; [|done]. exact (C _ ue E).
  - eapply (ready_frame DL); [exact Nf|apply Rf|exact P5|exact Rd].
  - eapply ues_rel_insert; [apply sends_same_refl|exact E|]. by destruct ue as [? ? ? ? ? [] ?].
Qed.

(** ** One process *)

(** A beam under way: the group [g] so far, on top of [rest], the feedback [todo] to come; [avail] symbols
    were left at its start. *)
Record resending (cur avail num : Z) (b : BeamId) (todo : list HarqInfo) (g rest : list VarTti) (h : DlHarqState) : Prop := {
  rs_avail : h.(dh_symAvail) = avail - zsum ((fun v => m_numSym (m_dci v)) <$> g);
  rs_room : 0 <= h.(dh_symAvail);
  rs_curr : h.(dh_currSym) = cur;
  rs_alloc : h.(dh_alloc) = mkSlotAlloc num (rest ++ g);
  rs_in : Forall (grp cur avail b) g;
  rs_apart : ForallOrdPairs apart g;
  rs_again : Forall (fun v => 0 < m_rv (m_dci v)) g;
  rs_length : length h.(dh_bitmask) = length mask;
  rs_bits : forall i, h.(dh_bitmask) !! i = Some true -> mask !! i = Some true /\ Forall (fun v => m_rbgBitmask (m_dci v) !! i <> Some true) g;
  rs_rntis : h.(dh_allocated) = (fun v => dci_rnti (m_dci v)) <$> g;
  rs_others : Forall (fun v => dci_type (m_dci v) = DATA -> beam_of m0 (dci_rnti (m_dci v)) <> b) rest;
  rs_entries : dl_entries h.(dh_ues) (rest ++ g);
  rs_clear : map_Forall (fun _ => dl_clear) h.(dh_ues);
  rs_sends : ues_rel sends_same m0 h.(dh_ues);
  rs_ready : Forall (ready DL R h.(dh_ues)) todo
}.

Lemma mrb_id ue : (ue <| ue_dl ::= fun u => u <| m_dlMRBRetx := m_dlMRBRetx (ue_dl ue) |> |>) = ue.
Proof. destruct ue as [[]]. reflexivity. Qed.

(** A process that is not sent again: its feedback is kept. *)
Lemma buffer_ok l cur avail num b fb todo g rest h ue p q d :
  resending cur avail num b (fb :: todo) g rest h -> NoDup (fb_key <$> fb :: todo) -> NoDup (fb_key <$> l) -> fb ∈ l ->
  h.(dh_ues) !! ue_key fb.(fb_rnti) = Some ue -> procs ue.(m_dlHarq) !! fb.(fb_process) = Some p ->
  hp_active p = true -> hp_status p = RECEIVED_FEEDBACK ->
  hp_active q = true -> hp_status q = WAITING_FEEDBACK -> hp_timer q = 0 -> m_dciElement q = Some d ->
  m_harqProcess d = fb.(fb_process) -> 0 <= m_rv d <= R -> dl_dci_ok conf (ue_key fb.(fb_rnti)) d ->
  exists h', buffer_process l fb.(fb_rnti) fb.(fb_process) q d ue h = Ok h' /\ resending cur avail num b todo g rest h' /\
    h'.(dh_kept) = h.(dh_kept) ++ [fb].
Proof.
  intros Rs Nd Nl Hl E Ep Ap Sp Aq Sq Tq Eq Hd Rv Dk. pose proof (rs_ready _ _ _ _ _ _ _ _ Rs) as Rd.
  assert (0 <= fb.(fb_rnti)) as R0 by (apply Forall_cons in Rd as [(_ & ? & _) _]; done).
  unfold buffer_process. rewrite (dd_rnti _ _ _ Dk), Hd. unfold ue_key at 1. rewrite Z2Nat.id by done.
  rewrite (BufferHARQFeedback_ok l _ fb Nl Hl). cbn [res_bind].
  assert (forall k f, h <| dh_kept := k |> <| dh_ues ::= f |>
    = mkDlHarq (dh_symAvail h) (dh_bitmask h) (dh_currSym h) (dh_allocated h) k (f (dh_ues h)) (dh_alloc h)) as -> by (by destruct h).
  eexists. split; [done|].
  destruct (put_waits h.(dh_ues) (rest ++ g) todo fb ue p q d (m_dlMRBRetx (ue_dl ue)) (rs_entries _ _ _ _ _ _ _ _ Rs)
    (rs_clear _ _ _ _ _ _ _ _ Rs) Rd Nd E Ep Ap Sp Aq Sq Tq Eq Hd Rv Dk) as (P1 & P2 & P3 & _ & P5).
  assert (put_dl_process (fb_rnti fb) (fb_process fb) q ue (dh_ues h) = put_ue (fb_rnti fb)
    (ue <| m_dlHarq ::= harq_set (fb_process fb) q |> <| ue_dl ::= fun u => u <| m_dlMRBRetx := m_dlMRBRetx (ue_dl ue) |> |>) (dh_ues h)) as Em.
  { unfold put_dl_process. f_equal. by destruct ue as [[]]. }
  destruct Rs as [A B C D I J Ag K L M N O Q Sn S]. split; [|done]. rewrite Em. split; try done. by eapply sends_same_trans.
Qed.

(** The allocation of a retransmission joins the group. *)
Lemma resending_snoc cur avail num b fb todo g rest h bits d v ues :
  resending cur avail num b (fb :: todo) g rest h -> 0 <= avail <= 14 ->
  dl_dci_ok conf (ue_key fb.(fb_rnti)) d -> 0 <= fb.(fb_rnti) -> in_beam m0 b (fb_key fb) ->
  m_numSym d <= h.(dh_symAvail) -> dci_rnti d ∉ h.(dh_allocated) ->
  length bits = length h.(dh_bitmask) -> (forall i, m_rbgBitmask d !! i = Some true -> h.(dh_bitmask) !! i = Some true) ->
  (forall i, bits !! i = Some true -> h.(dh_bitmask) !! i = Some true /\ m_rbgBitmask d !! i <> Some true) ->
  m_dci v = retx_dci fb.(fb_process) cur d -> 0 < m_rv (m_dci v) -> m_isOmni v = false ->
  dl_entries ues (rest ++ g) -> grant_waits DL ues v ->
  map_Forall (fun _ => dl_clear) ues -> ues_rel sends_same h.(dh_ues) ues -> Forall (ready DL R ues) todo ->
  forall kept, resending cur avail num b todo (g ++ [v]) rest
    (mkDlHarq (u8 (h.(dh_symAvail) - m_numSym d)) bits h.(dh_currSym) (h.(dh_allocated) ++ [dci_rnti d]) kept ues (push_back v h.(dh_alloc))).
Proof.
  intros [A B C D I J Ag L M N O Q Cl Sn Rd] Av Dk R0 (ue0 & E0 & B0) Le Nal Lb Sub Bits Ev Rv Om De Gv C' Sn' R' kept.
  assert (dci_rnti (m_dci v) = fb.(fb_rnti) /\ m_numSym (m_dci v) = m_numSym d /\ m_symStart (m_dci v) = cur /\
    m_rbgBitmask (m_dci v) = m_rbgBitmask d) as (V1 & V2 & V3 & V4).
  { rewrite Ev. cbn. rewrite (dd_rnti _ _ _ Dk). unfold ue_key. by rewrite Z2Nat.id. }
  assert (dci_rnti d = fb.(fb_rnti)) as Ed by (rewrite (dd_rnti _ _ _ Dk); unfold ue_key; by rewrite Z2Nat.id).
  assert (beam_of m0 fb.(fb_rnti) = b) as Bb by (unfold beam_of; cbn in E0; by rewrite E0).
  pose proof (dd_num _ _ _ Dk) as Nd.
  assert (0 <= zsum ((fun v => m_numSym (m_dci v)) <$> g)) as Zs.
  { apply zsum_nonneg, Forall_fmap. eapply Forall_impl; [exact I|]. intros w G. cbn. pose proof (ig_num _ _ _ _ _ _ G). lia. }
  split; cbn [dh_symAvail dh_bitmask dh_currSym dh_allocated dh_kept dh_ues dh_alloc]; try done.
  - rewrite wrap_small by (unfold fits; lia). rewrite fmap_app, A. unfold zsum at 2. rewrite foldr_app.
    cbn [fmap list_fmap foldr]. rewrite V2, Z.add_0_r.
    assert (forall l x, foldr Z.add x l = zsum l + x) as F.
    { induction l as [|y l IH]; intros x; [done|]. cbn [foldr]. rewrite IH. change (zsum (y :: l)) with (y + zsum l). lia. }
    rewrite F. lia.
  - rewrite wrap_small by (unfold fits; lia). lia.
  - rewrite D. change (mkSlotAlloc num ((rest ++ g) ++ [v]) = mkSlotAlloc num (rest ++ g ++ [v])). by rewrite app_assoc.
  - apply Forall_app. split; [done|]. constructor; [|done]. split; rewrite ?V1, ?V2, ?V3, ?V4; try done; [lia|apply (dd_length _ _ _ Dk)|apply (dd_mask _ _ _ Dk)].
  - apply pairs_snoc; [done|]. apply Forall_forall. intros w Hw i Hi Hj. rewrite V4 in Hj.
    destruct (M i (Sub i Hj)) as [_ F]. rewrite Forall_forall in F. exact (F w Hw Hi).
  - apply Forall_app. split; [done|by constructor].
  - by rewrite Lb.
  - intros i Hi. destruct (Bits i Hi) as [B1 B2]. destruct (M i B1) as [M1 M2]. split; [done|]. apply Forall_app.
    split; [done|]. constructor; [by rewrite V4|done].
  - rewrite N, fmap_app. cbn. by rewrite V1, Ed.
  - rewrite app_assoc. apply dl_entries_snoc; [done|done|]. apply Forall_forall. intros w Hw Dw Dv. rewrite V1.
    apply elem_of_app in Hw as [Hw|Hw].
    + rewrite Forall_forall in O. specialize (O w Hw Dw). congruence.
    + intros Ew. apply Nal. rewrite N, Ed, <- Ew. by apply (list_elem_of_fmap_2 (fun v => dci_rnti (m_dci v))).
  - by eapply sends_same_trans.
Qed.

(** One process of a beam: it is sent again, or its feedback is kept. *)
Lemma resend_dl_ok l cur avail num b fb todo g rest h :
  resending cur avail num b (fb :: todo) g rest h -> 0 <= avail <= 14 ->
  NoDup (fb_key <$> fb :: todo) -> NoDup (fb_key <$> l) -> fb ∈ l -> in_beam m0 b (fb_key fb) ->
  exists h' g', resend_dl conf l (fb_key fb) h = Ok h' /\ resending cur avail num b todo (g ++ g') rest h' /\
    (h'.(dh_kept) = h.(dh_kept) /\ Exists (resends fb) g' \/ h'.(dh_kept) = h.(dh_kept) ++ [fb]).
Proof.
  intros Rs Av Nd Nl Hl Ib. pose proof (rs_ready _ _ _ _ _ _ _ _ Rs) as Rd. pose proof (rs_entries _ _ _ _ _ _ _ _ Rs) as De.
  assert (0 <= fb.(fb_rnti)) as R0 by (apply Forall_cons in Rd as [(_ & ? & _) _]; done).
  destruct (ready_side DL (dl_dci_ok conf) conf h.(dh_ues) fb) as (ue & p & d & E & Ep & Ap & Sp & Ed & Hd & Rv & Dk);
    [intros k u Eu; apply (dw_side _ _ _ _ _ (de_ues _ _ De k u Eu))|by apply Forall_cons in Rd as [? _]|].
  cbn [harq_of] in Ep. unfold resend_dl, fb_key. rewrite (find_ue_ok _ _ _ E). cbn [res_bind]. rewrite (harq_get_ok _ _ _ Ep). cbn [res_bind].
  rewrite bool_decide_true by done. cbn [negb abort_if res_bind]. change (p <| hp_status := _ |> <| hp_timer := 0 |>) with (waits p).
  destruct (waits_eq p) as (W1 & W2 & W3 & W4). rewrite W4, Ed. rewrite Ap in W1. rewrite Ed in W4.
  assert (exists h', buffer_process l fb.(fb_rnti) fb.(fb_process) (waits p) d ue h = Ok h' /\ resending cur avail num b todo g rest h' /\
    h'.(dh_kept) = h.(dh_kept) ++ [fb]) as (hb & Eb & Rb & Kb) by (eapply (buffer_ok l); try done; lia).
  destruct (bool_decide (dci_rnti d ∈ h.(dh_allocated)) || _) eqn:Skip; [exists hb, []; rewrite app_nil_r; by split_and!; [| |right]|].
  apply orb_false_iff in Skip as [Nal%bool_decide_eq_false _].
  destruct (take_rbgs_ok (m_rbgBitmask d) h.(dh_bitmask)) as (r & -> & Tk).
  { by rewrite (dd_length _ _ _ Dk), (rs_length _ _ _ _ _ _ _ _ Rs). }
  cbn [res_bind]. destruct r as [bits|]; [|exists hb, []; rewrite app_nil_r; by split_and!; [| |right]].
  destruct Tk as (Tk1 & Tk2 & Tk3). set (d1 := d <| m_symStart := h.(dh_currSym) |>).
  assert (m_harqProcess d1 = fb.(fb_process) /\ m_rv d1 = m_rv d /\ dl_dci_ok conf (ue_key fb.(fb_rnti)) d1) as (D1 & D2 & D3).
  { split; [by rewrite <- Hd; destruct d|]. split; [by destruct d|]. destruct Dk. by destruct d; split. }
  assert (m_numSym d1 = m_numSym d /\ dci_format d1 = dci_format d /\ dci_rnti d1 = dci_rnti d) as (D4 & D5 & D6) by (by destruct d).
  change ((waits p) <| m_dciElement := Some d1 |>) with (with_dci d1 (waits p)).
  destruct (Z.ltb_spec h.(dh_symAvail) (m_numSym d1)) as [Lt|Ge].
  { destruct (buffer_ok l cur avail num b fb todo g rest h ue p (with_dci d1 (waits p)) d1) as (h' & E' & R' & K'); try done; [rewrite D2; lia|].
    exists h', []. rewrite app_nil_r. by split_and!; [| |right]. }
  rewrite D5, (dd_dl _ _ _ Dk), bool_decide_true by done. cbn [negb abort_if res_bind]. rewrite D1.
  assert (m_symStart d1 = cur) as -> by (rewrite <- (rs_curr _ _ _ _ _ _ _ _ Rs); by destruct d).
  set (d2 := retx_dci (fb_process fb) cur d1).
  assert (d2 = retx_dci (fb_process fb) cur d) as E2 by (by destruct d).
  change ((with_dci d1 (waits p)) <| m_dciElement := Some d2 |>) with (with_dci d2 (with_dci d1 (waits p))).
  set (q := with_dci d2 (with_dci d1 (waits p))).
  assert (hp_active q = true /\ hp_status q = WAITING_FEEDBACK /\ hp_timer q = 0 /\ m_dciElement q = Some d2) as (Q1 & Q2 & Q3 & Q4) by (by destruct p).
  set (mrb := u32 _). set (ues1 := put_dl_process _ _ _ _ _).
  assert (dci_rnti d2 = fb.(fb_rnti)) as Er.
  { rewrite E2. cbn. rewrite (dd_rnti _ _ _ Dk). unfold ue_key. by rewrite Z2Nat.id. }
  rewrite Er. unfold find_ue at 1. unfold ues1, put_dl_process, put_ue at 1. rewrite lookup_insert_eq. cbn [res_bind].
  pose proof (maxHarqReTx_range conf) as Mx.
  assert (dl_dci_ok conf (ue_key fb.(fb_rnti)) d2) as Dk2 by (rewrite E2; destruct Dk; by split).
  assert (m_rv d2 = m_rv d + 1) as Rv2 by (rewrite E2; apply wrap_small; unfold fits; lia).
  destruct (put_waits h.(dh_ues) (rest ++ g) todo fb ue p q d2 mrb De (rs_clear _ _ _ _ _ _ _ _ Rs) Rd Nd E Ep Ap Sp Q1 Q2 Q3 Q4)
    as (P1 & P2 & P3 & P4 & P5); [by rewrite E2|lia|done|].
  set (m2 := put_ue _ _ _) in P1, P2, P3, P4, P5.
  match goal with |- context [mkDlHarq _ _ _ _ _ ?x _] => assert (x = m2) as -> by (unfold m2, put_ue; by rewrite insert_insert_eq) end.
  eexists _, [mkVarTti false d2 (m_rlcPduInfo q)]. split; [rewrite <- Er, E2; reflexivity|]. split.
  - change (m_numSym (retx_dci (fb_process fb) cur d)) with (m_numSym d). change (dci_rnti (retx_dci (fb_process fb) cur d)) with (dci_rnti d).
    eapply (resending_snoc cur avail num b fb todo g rest h bits d); try done; [cbn [m_dci]; rewrite <- E2, Rv2; lia|].
    intros _. cbn [m_dci]. exists q. rewrite <- E2, Er. assert (m_harqProcess d2 = fb_process fb) as -> by (by rewrite E2). done.
  - left. split; [done|]. constructor. cbn [m_dci]. unfold resends. cbn [m_dci]. rewrite Er, E2. split; [done|]. split; [done|]. split; [done|]. rewrite <- E2, Rv2. lia.
Qed.

(** ** A beam *)

Definition all_sent (extra : list HarqInfo) (g : list VarTti) (fb : HarqInfo) : Prop := fb ∈ extra \/ Exists (resends fb) g.

Lemma resend_fold l cur avail num b todo g rest h :
  resending cur avail num b todo g rest h -> 0 <= avail <= 14 ->
  NoDup (fb_key <$> todo) -> NoDup (fb_key <$> l) -> todo ⊆ l -> Forall (fun fb => in_beam m0 b (fb_key fb)) todo ->
  exists h' g' extra, res_fold (resend_dl conf l) (fb_key <$> todo) h = Ok h' /\ resending cur avail num b [] (g ++ g') rest h' /\
    h'.(dh_kept) = h.(dh_kept) ++ extra /\ extra ⊆ todo /\ Forall (all_sent extra g') todo.
Proof.
  intros Rs Av Nd Nl. revert g h Rs. induction todo as [|fb todo IH]; intros g h Rs S Ib.
  { exists h, [], []. rewrite !app_nil_r. by split_and!. }
  apply Forall_cons in Ib as [Ibf Ib]. cbn [fmap list_fmap res_fold].
  destruct (resend_dl_ok l cur avail num b fb todo g rest h Rs Av Nd Nl (S fb ltac:(by left)) Ibf) as (h1 & g1 & -> & Rs1 & K1).
  cbn [res_bind]. destruct (IH ltac:(by apply NoDup_cons in Nd as [_ ?]) (g ++ g1) h1 Rs1 ltac:(intros x Hx; apply S; by right) Ib)
    as (h' & g' & extra & -> & Rs' & K' & Se & Al).
  rewrite <- app_assoc in Rs'. destruct K1 as [[K1 Ex]|K1].
  - exists h', (g1 ++ g'), extra. split; [done|]. split; [done|]. split; [by rewrite K', K1|]. split; [intros x Hx; right; by apply Se|].
    constructor; [right; apply Exists_app; by left|]. eapply Forall_impl; [exact Al|]. intros x [?|?]; [by left|right; apply Exists_app; by right].
  - exists h', (g1 ++ g'), (fb :: extra). split; [done|]. split; [done|]. split; [by rewrite K', K1, <- app_assoc|].
    split; [intros x [->|Hx]%elem_of_cons; [by left|right; by apply Se]|].
    constructor; [left; by left|]. eapply Forall_impl; [exact Al|]. intros x [?|?]; [left; by right|right; apply Exists_app; by right].
Qed.

(** The symbols of a group *)
Lemma group_symbols start cur avail b g :
  0 <= start <= cur -> 0 <= avail -> cur + avail <= 14 -> Forall (grp cur avail b) g ->
  exists used, CountUsedSymbols start g = Ok used /\ 0 <= used <= avail /\ Forall (grp cur used b) g.
Proof.
  intros S Av Le F. destruct g as [|v0 g]; [exists 0; split; [done|split; [lia|constructor]]|].
  destruct (CountUsed_ok start cur (v0 :: g) S) as (v & Hv & -> & Mx).
  - eapply Forall_impl; [exact F|]. intros v []. lia.
  - apply Exists_cons. left. apply Forall_cons in F as [F _]. apply F.
  - eexists. split; [done|]. rewrite Forall_forall in F, Mx. destruct (F v Hv) as [I1 I2 _ _ _ _]. split; [lia|].
    apply Forall_forall. intros w Hw. destruct (F w Hw) as [J1 J2 J3 J4 J5 J6]. specialize (Mx w Hw). split; try done. lia.
Qed.

(** ** ScheduleDlHarq *)

(** A slot under construction: it is laid up to the symbol [cur], and from [fin] on. *)
Record dl_slot_wf (cur fin num : Z) (s : SlotState) : Prop := {
  ds_point : s.(sl_point) = mkPoint 0 cur;
  ds_num : s.(sl_alloc).(m_numSymAlloc) = num;
  ds_laid : laid (beam_of m0) mask cur fin s.(sl_alloc).(m_varTtiAllocInfo);
  ds_entries : dl_entries s.(sl_ues) s.(sl_alloc).(m_varTtiAllocInfo);
  ds_clear : map_Forall (fun _ => dl_clear) s.(sl_ues)
}.

Lemma ScheduleDlHarq_ok `{CppHash, !CppHashLaws} l cur fin num b todo q kept s :
  dl_slot_wf cur fin num s -> 0 <= cur <= fin -> fin <= 14 ->
  Forall (ready DL R s.(sl_ues)) todo -> NoDup (fb_key <$> todo) -> NoDup (fb_key <$> l) -> todo ⊆ l ->
  Forall (fun fb => in_beam m0 b (fb_key fb)) todo -> q = [] \/ q = [b] ->
  Forall (fun v => dci_type (m_dci v) <> DATA) s.(sl_alloc).(m_varTtiAllocInfo) -> ues_rel sends_same m0 s.(sl_ues) ->
  exists used g extra s', ScheduleDlHarq conf l (fin - cur) [(b, fb_key <$> todo)] q kept s = Ok (used, [b], kept ++ extra, s') /\
    0 <= used <= fin - cur /\ dl_slot_wf (cur + used) fin num (mkSlot (forth used s'.(sl_point)) s'.(sl_ues) s'.(sl_alloc)) /\
    s'.(sl_alloc).(m_varTtiAllocInfo) = s.(sl_alloc).(m_varTtiAllocInfo) ++ g /\ extra ⊆ todo /\ Forall (all_sent extra g) todo /\
    Forall (fun v => 0 < m_rv (m_dci v)) g /\ ues_rel sends_same m0 s'.(sl_ues).
Proof.
  intros [P N L E C] Cu Fi Rd Nd Nl S Ib Hq Ct Sn. unfold ScheduleDlHarq. rewrite P. cbn [spoint_rbg spoint_sym Z.eqb negb abort_if res_bind].
  rewrite (GetBeamOrderRR_one b _ q Hq). cbn [res_bind fst snd res_fold]. set (rest := m_varTtiAllocInfo _) in *.
  unfold resend_beam at 1. cbn [head]. rewrite filter_cons_True by done. cbn [head dh_currSym dh_alloc]. fold rest.
  set (h0 := mkDlHarq _ _ _ _ _ _ _). change (h0 <| dh_allocated := [] |>) with h0.
  assert (resending cur (fin - cur) num b todo [] rest h0) as Rs.
  { split; cbn; rewrite ?app_nil_r; try done; [lia|lia|unfold rest; rewrite <- N; by destruct (sl_alloc s)|constructor|].
    eapply Forall_impl; [exact Ct|]. cbn. intros v Nv Dv. by destruct Nv. }
  destruct (resend_fold l cur (fin - cur) num b todo [] rest h0 Rs ltac:(lia) Nd Nl S Ib) as (h & g & extra & -> & Rs' & K & Se & Al).
  cbn [res_bind app] in *. destruct Rs' as [A Rm Cr Al' I Ap Ag Lb Bt Rn Ot De Cl Sn' _]. cbn [app] in *.
  destruct (group_symbols cur cur (fin - cur) b g ltac:(lia) ltac:(lia) ltac:(lia) I) as (used & Eu & Hu & Iu).
  assert (drop (length rest) (m_varTtiAllocInfo (dh_alloc h)) = g) as Dr by (rewrite Al'; cbn; by rewrite drop_app_length).
  match goal with |- context [if 0 <? dh_symAvail h then ?x else Ok h] =>
    assert (exists h', (if 0 <? dh_symAvail h then x else Ok h) = Ok h' /\
      dh_alloc h' = dh_alloc h /\ dh_ues h' = dh_ues h /\ dh_kept h' = dh_kept h) as (h' & -> & E1 & E2 & E3) end.
  { destruct (0 <? dh_symAvail h); [|by exists h]. change (dh_alloc (h <| dh_bitmask := mask |>)) with (dh_alloc h).
    change (dh_currSym (h <| dh_bitmask := mask |>)) with (dh_currSym h). cbv zeta. destruct (cur =? dh_currSym h); [|eexists; split; [done|by destruct h]].
    rewrite Dr, Eu. cbn [res_bind]. eexists. split; [done|by destruct h]. }
  cbn [res_bind]. rewrite E1, Dr, Eu. cbn [res_bind]. rewrite E2, E3, K.
  exists used, g, extra. eexists. split; [done|]. split; [lia|]. cbn [sl_point sl_ues sl_alloc]. rewrite Al'. split; [|done].
  split; cbn [sl_point sl_ues sl_alloc m_numSymAlloc m_varTtiAllocInfo]; try done.
  - unfold forth. cbn. by rewrite wrap_small by (unfold fits; lia).
  - eapply laid_group; [exact L|lia|lia|lia|unfold slot_symbols; lia|exact Iu|done].
Qed.
End resend.
