(* ===== verification/DlData.v ===== *)
(** New downlink data of a slot: each beam with symbols lays a group of grants behind the rest; and
    DoScheduleDlData, from the allocation of the RBGs to the grants of the slot. *)
From Stdlib Require Import ZArith Lia Lists.List SpecFloat.
From stdpp Require Import base list gmap strings list_numbers.
From coqutil Require Import Datatypes.RecordSettersUsingExistingGetters.
From S2P Require Import Prelude OrdMap Messages UlScheduler UlFacts UlProps Amc AmcProps DlUe CqiManagement CqiProps.
From S2P Require Import DlScheduler DlFacts Dci DlProps DciProps LogicalChannels LcProps Harq Srs SfnSf MacScheduler.
From S2P Require Import ResourceMatrix UlSlot DlSlot SlotLayout UlTiling HarqFacts MacFacts UlGrant UlSlotFacts UlData.
From S2P Require Import DlGrant DlSlotFacts DlHarq.
Open Scope Z_scope.
(** The sub-PDUs of new data fill its transport block. *)
Definition fills (v : VarTti) : Prop :=
  dci_type (m_dci v) = DATA -> m_rv (m_dci v) = 0 ->
  tti_rlcPduInfo v <> [] /\ pdu_bytes (tti_rlcPduInfo v) = m_tbSize (m_dci v).

Section data.
Context `{LibM} `{CppReduce} `{CppHash, !CppHashLaws}.
Context (conf : SchedConf) (Ok_conf : conf_ok conf) (amc : Amc) (em : NrErrorModel) (nsb : Z) (m0 : gmap nat SchedUe).
Abbreviation R := (maxHarqReTx conf).
Abbreviation uwf := (dl_ue_wf conf em nsb).
Abbreviation mask := (DlBitmask conf).
Abbreviation grp := (in_group (beam_of m0) mask).
Abbreviation bw := conf.(GetBandwidthInRbg).
Abbreviation metric := (UpdateDlMetric conf.(GetNumRbPerRbg) amc).

(** A UE that is to get the RBGs [rb] over [n] symbols of the beam [b] *)
Record ready_dl (b : BeamId) (n : Z) (rb : nat -> list Z) (m : gmap nat SchedUe) (p : nat) (ue : SchedUe) : Prop := {
  rd_ue : m !! p = Some ue;
  rd_beam : ue.(m_beamId) = b;
  rd_send : may_send DL ue = true;
  rd_rbg : m_dlRBG ue.(ue_dl) = rb p;
  rd_metric : metric ue.(ue_dl) = Ok ue.(ue_dl);
  rd_block : m_dlRBG ue.(ue_dl) = [] \/ 10 <= m_dlTbSize ue.(ue_dl) < 2 ^ 32;
  rd_mask : forall r, r ∈ m_dlRBG ue.(ue_dl) -> 0 <= r /\ mask !! Z.to_nat r = Some true;
  rd_length : Z.of_nat (length (m_dlRBG ue.(ue_dl))) <= n * Z.of_nat bw
}.

(** The grants [g] of a beam so far, over [n] symbols from [cur], on top of [rest]; the RBGs of the UEs [vs]
    of the beam are [rb], and the UEs [todo] have no allocation yet. *)
Record dl_group (cur n num : Z) (b : BeamId) (vs : list nat) (rb : nat -> list Z) (todo : list nat) (g rest : list VarTti)
    (s : SlotState) (bs : BeamState) : Prop := {
  dg_point : s.(sl_point) = mkPoint 0 cur;
  dg_alloc : s.(sl_alloc) = mkSlotAlloc num (rest ++ g);
  dg_in : Forall (grp cur n b) g;
  dg_num : Forall (fun v => m_numSym (m_dci v) = n) g;
  dg_apart : ForallOrdPairs apart g;
  dg_owner : Forall (fun v => exists q, q ∈ vs /\ dci_rnti (m_dci v) = Z.of_nat q /\
               forall i, m_rbgBitmask (m_dci v) !! i = Some true -> Z.of_nat i ∈ rb q) g;
  dg_entries : dl_entries conf em nsb m0 s.(sl_ues) (rest ++ g);
  dg_fresh : forall p v, p ∈ todo -> v ∈ rest ++ g -> dci_rnti (m_dci v) <> Z.of_nat p;
  dg_fills : Forall fills g;
  dg_state : bs = match g with [] => mkBeamState false [] 0 | _ => mkBeamState true [cur] n end
}.

(** The DCI of new data *)
Lemma CreateDlDci_form bwpId spoint n u u' d :
  CreateDlDci conf.(GetNumRbPerRbg) bw conf.(m_dlNotchedRbgsMask) bwpId amc spoint n u = Ok (u', Some d) ->
  dci_format d = DL /\ m_rv d = 0 /\ dci_type d = DATA.
Proof.
  unfold CreateDlDci. destruct (GetDlMcs amc u) as [m|]; [|done]. cbn [res_bind].
  destruct (CalculateTbSize _ _ _ _) as [t|]; [|done]. cbn [res_bind].
  unfold abort_if at 1 2 3. do 3 (destruct (_ : bool); [done|]; cbn [res_bind]). destruct (t <? 10); [done|].
  destruct (CreateRbgBitmaskFromAllocatedRbgs _ _ _) as [msk|]; [|done]. cbn [res_bind].
  destruct (check_mask _ _); [|done]. cbn [res_bind]. by intros [= _ <-].
Qed.

(** A process with the sub-PDUs of its block *)
Definition sending (d : Dci) (pdus : list RlcPduInfo) : HarqProcess := mkHarq true WAITING_FEEDBACK 0 (Some d) pdus.

(** The UE of a grant *)
Lemma granted_dl p ue m id q v' u' lcgs d pdus :
  map_Forall uwf m -> m !! p = Some ue -> procs ue.(m_dlHarq) !! id = Some q -> hp_active q = false ->
  harq_wf R v' -> m_maxSize v' = m_maxSize ue.(m_dlHarq) -> procs v' = <[id := waiting d]> (procs ue.(m_dlHarq)) ->
  m_harqProcess d = id -> 0 <= m_rv d <= R -> dl_dci_ok conf p d -> dl_groups_ok lcgs ->
  u' = (ue_dl ue) <| m_fhMaxMcsAssignable := None |> ->
  let m' := <[p := ue <| ue_dl := u' |> <| m_dlHarq := harq_set id (sending d pdus) v' |> <| m_dlLCG := lcgs |>]> m in
  map_Forall uwf m' /\ ues_rel dl_only m m' /\ waits_kept DL m m' /\ proc_of DL m' p id = Some (sending d pdus).
Proof.
  intros W E Eq Aq Wv Mv Pv Hd Rv Dk G -> m'. pose proof (W p ue E) as Wu.
  destruct (harq_set_procs id (sending d pdus) v') as [Hp Hm]. rewrite Pv, insert_insert_eq in Hp.
  set (u1 := ue <| ue_dl := (ue_dl ue) <| m_fhMaxMcsAssignable := None |> |> <| m_dlHarq := harq_set id (sending d pdus) v' |> <| m_dlLCG := lcgs |>).
  assert (uwf p u1) as W1.
  { destruct Wu as [X1 X2 [X3 X3'] (Y1 & Y2 & Y3) X5 X6 X7]. split; try done. split.
    - change (harq_wf R (harq_set id (sending d pdus) v')).
      eapply harq_set_same_wf; [exact Wv|rewrite Pv; apply lookup_insert_eq| |done].
      split; [cbn; lia|]. cbn. split; [done|]. by exists d.
    - change (forall i x y, procs (harq_set id (sending d pdus) v') !! i = Some x -> hp_active x = true -> m_dciElement x = Some y -> dl_dci_ok conf p y).
      rewrite Hp. apply procs_insert_ok; [exact X3'|]. by intros _ y [= <-]. }
  destruct (put_dl_wf conf em nsb m p ue u1 id q (sending d pdus) W E W1) as (P1 & P2 & P3 & P4 & P5); [|exact Eq|by rewrite Aq|exact Hp|done].
  exists ((ue_dl ue) <| m_fhMaxMcsAssignable := None |>), lcgs, (harq_set id (sending d pdus) v'). split; [by destruct ue|]. by rewrite Hm.
Qed.

Lemma dl_entries_put p ue v m m' l :
  dl_entries conf em nsb m0 m l -> map_Forall uwf m' -> ues_rel dl_only m m' -> waits_kept DL m m' ->
  m !! p = Some ue -> dci_rnti (m_dci v) = Z.of_nat p -> grant_waits DL m' v ->
  (forall w, w ∈ l -> dci_rnti (m_dci w) <> Z.of_nat p) -> dl_entries conf em nsb m0 m' (l ++ [v]).
Proof.
  intros De W S K E Er G F. apply dl_entries_snoc; [by eapply dl_entries_ues|done|].
  apply Forall_forall. intros w Hw _ _. rewrite Er. by apply F.
Qed.

(** The allocation of a grant joins the group. *)
Lemma dl_group_snoc cur n num b vs rb p todo g rest s bs v ues ue :
  dl_group cur n num b vs rb (p :: todo) g rest s bs -> p ∈ vs -> NoDup (p :: todo) -> 1 <= n <= 13 ->
  (forall q q' r, q ∈ vs -> q' ∈ vs -> r ∈ rb q -> r ∈ rb q' -> q' = q) ->
  s.(sl_ues) !! p = Some ue -> ue.(m_beamId) = b -> dl_dci_ok conf p (m_dci v) -> m_isOmni v = false ->
  m_symStart (m_dci v) = cur -> m_numSym (m_dci v) = n ->
  (forall i, m_rbgBitmask (m_dci v) !! i = Some true -> Z.of_nat i ∈ rb p) -> fills v ->
  map_Forall uwf ues -> ues_rel dl_only s.(sl_ues) ues -> waits_kept DL s.(sl_ues) ues -> grant_waits DL ues v ->
  dl_group cur n num b vs rb todo (g ++ [v]) rest (mkSlot s.(sl_point) ues (push_back v s.(sl_alloc))) (mkBeamState true [cur] n).
Proof.
  intros [P Al I Nn Ap Ow De Fr Fi St] Hp Nd N Ex E Eb Dk Om V1 V2 V3 Fv W S K G. apply NoDup_cons in Nd as [Np Nd].
  pose proof (dd_rnti _ _ _ Dk) as Er.
  assert (beam_of m0 (dci_rnti (m_dci v)) = b) as Bv.
  { rewrite Er. unfold beam_of, ue_key. rewrite Nat2Z.id.
    destruct (ues_rel_lookup_r _ _ _ _ _ (de_only _ _ _ _ _ _ De) E) as (u0 & -> & d & l & h & -> & _). exact Eb. }
  split; cbn [sl_point sl_ues sl_alloc].
  - done.
  - rewrite Al. change (mkSlotAlloc num ((rest ++ g) ++ [v]) = mkSlotAlloc num (rest ++ g ++ [v])). by rewrite app_assoc.
  - apply Forall_app. split; [done|]. constructor; [|done].
    split; [done|rewrite V2; lia|done|done|apply (dd_length _ _ _ Dk)|apply (dd_mask _ _ _ Dk)].
  - apply Forall_app. split; [done|by constructor].
  - apply pairs_snoc; [done|]. apply Forall_forall. intros w Hw i Hi Hj. rewrite Forall_forall in Ow.
    destruct (Ow w Hw) as (q & Hq & Eq & Oq). pose proof (Ex p q _ Hp Hq (V3 i Hj) (Oq i Hi)) as ->.
    apply (Fr p w ltac:(by left)); [apply elem_of_app; by right|done].
  - apply Forall_app. split; [done|]. constructor; [|done]. by exists p.
  - rewrite app_assoc. eapply dl_entries_put; [exact De|done..|]. intros w Hw. apply Fr; [by left|done].
  - intros q w Hq. rewrite app_assoc. intros [Hw| ->%list_elem_of_singleton]%elem_of_app; [apply Fr; [by right|done]|].
    rewrite Er. intros Eq. assert (p = q) as -> by lia. done.
  - apply Forall_app. split; [done|by constructor].
  - by destruct g.
Qed.

Lemma harq_get_set id q v : harq_get id (harq_set id q v) = Ok q.
Proof. apply harq_get_ok. destruct (harq_set_procs id q v) as [-> _]. apply lookup_insert_eq. Qed.

Lemma may_send_dl ue : may_send DL ue = true -> 0 < tot_buffer ue.(m_dlLCG) /\ CanInsert ue.(m_dlHarq) = true.
Proof. unfold may_send. intros [A B]%andb_true_iff. split; [by apply Z.ltb_lt|done]. Qed.

(** One UE of a beam: it has RBGs and gets a grant, or it has none. *)
Lemma dl_data_ue_ok cur n num b vs rb p buf todo g rest s bs ue :
  dl_group cur n num b vs rb (p :: todo) g rest s bs -> p ∈ vs -> NoDup (p :: todo) -> 1 <= n <= 13 -> 0 <= cur -> cur + n <= 14 ->
  (forall q q' r, q ∈ vs -> q' ∈ vs -> r ∈ rb q -> r ∈ rb q' -> q' = q) -> (0 < bw)%nat ->
  ready_dl b n rb s.(sl_ues) p ue ->
  exists s' bs' g', dl_data_ue conf amc n (p, buf) (s, bs) = Ok (s', bs') /\ dl_group cur n num b vs rb todo g' rest s' bs' /\
    (forall k, k <> p -> s'.(sl_ues) !! k = s.(sl_ues) !! k).
Proof.
  intros Gr Hp Nd N C0 C14 Ex Bw [E Eb May Rb Me Bl Mk Le]. unfold dl_data_ue. cbn [fst]. rewrite E.
  destruct (decide (m_dlRBG (ue_dl ue) = [])) as [Emp|Ne].
  { exists s, bs, g. rewrite Emp. split; [done|]. split; [|done]. destruct Gr as [P Al I Nn Ap Ow De Fr Fi St]. split; try done.
    intros q v Hq. apply Fr. by right. }
  destruct Bl as [?|[Bl0 Bl1]]; [done|]. destruct (m_dlRBG (ue_dl ue)) as [|r0 l0] eqn:Er; [done|]. rewrite <- Er in *.
  pose proof (dg_entries _ _ _ _ _ _ _ _ _ _ _ Gr) as De. pose proof (de_ues _ _ _ _ _ _ De p ue E) as Wu. destruct (may_send_dl ue May) as [Buf Ins].
  rewrite (dg_point _ _ _ _ _ _ _ _ _ _ _ Gr).
  destruct (CreateDlDci_ok conf.(GetNumRbPerRbg) amc bw conf.(m_dlNotchedRbgsMask) conf.(GetBwpId) (mkPoint 0 cur) n (ue_dl ue) Me)
    as (d & Ed & T1 & T2 & T3 & T4 & _ & T5 & T6); [by rewrite Er|done|apply (co_dlLength _ Ok_conf)|exact Mk|exact Le|lia|cbn; lia|].
  destruct (CreateDlDci_form _ _ _ _ _ _ Ed) as (F1 & F2 & F3). rewrite Ed. cbn [res_bind].
  cbn [spoint_sym] in T3.
  assert (count_start d bs = mkBeamState true [cur] n) as ->.
  { replace cur with (cur + n - n) by lia. apply (count_start_ok (cur + n) n g); [rewrite T3; lia|done|lia|].
    replace (cur + n - n) with cur by lia. apply Gr. }
  rewrite T3, T2, (co_symbols _ Ok_conf), (proj2 (Z.ltb_ge _ _)) by lia. cbn [abort_if res_bind].
  pose proof (maxHarqReTx_range conf) as Mx.
  destruct (insert_process_ok R d (m_dlHarq ue) (si_harq _ _ _ _ _ (dw_side _ _ _ _ _ Wu)) Ins ltac:(lia))
    as (id & q & v' & Ei & Wv & Mv & Eq & Aq & Pv).
  change (m_dlHarq (ue <| ue_dl := _ |>)) with (m_dlHarq ue). change (m_dlLCG (ue <| ue_dl := _ |>)) with (m_dlLCG ue).
  rewrite Ei. cbn [res_bind]. set (d' := d <| m_harqProcess := id |>) in *.
  assert (m_tbSize d' = m_tbSize d /\ m_harqProcess d' = id /\ m_rv d' = 0 /\ dci_type d' = DATA /\ m_symStart d' = cur /\ m_numSym d' = n /\
    dci_rnti d' = Z.of_nat p /\ m_rbgBitmask d' = m_rbgBitmask d /\ dci_format d' = DL)
    as (D1 & D2 & D3 & D4 & D5 & D6 & D7 & D8 & D9).
  { rewrite <- (dw_rnti _ _ _ _ _ Wu), <- T4. destruct d. cbn in *. by split_and!. }
  destruct (dl_pdus_ok (m_dlLCG ue) (m_tbSize d) (dw_groups _ _ _ _ _ Wu) Buf ltac:(rewrite T1; lia)) as (la & lcgs & pdus & Ela & Epd & Npd & Bpd & Gl).
  rewrite D1, Ela. cbn [res_bind]. rewrite Epd. cbn [res_bind]. rewrite D2.
  assert (harq_get id v' = Ok (waiting d')) as -> by (apply harq_get_ok; by rewrite Pv, lookup_insert_eq). cbn [res_bind].
  rewrite bool_decide_false by done. cbn [abort_if res_bind].
  change ((waiting d') <| m_rlcPduInfo ::= fun l => l ++ pdus |>) with (sending d' pdus).
  assert (dl_dci_ok conf p d') as Dk.
  { split; [done|done|rewrite D6; lia|rewrite D8, T5; symmetry; apply (co_dlLength _ Ok_conf)|].
    rewrite D8. intros i Hi. apply T6, Mk in Hi as [_ Hi]. by rewrite Nat2Z.id in Hi. }
  destruct (granted_dl p ue s.(sl_ues) id q v' _ lcgs d' pdus (de_ues _ _ _ _ _ _ De) E Eq Aq Wv Mv Pv D2 ltac:(lia) Dk Gl eq_refl) as (P1 & P2 & P3 & P4).
  set (ues := <[p := _]> (sl_ues s)) in P1, P2, P3, P4.
  eexists (mkSlot (mkPoint 0 cur) ues _), _, (g ++ [mkVarTti false d' pdus]). split; [reflexivity|].
  split; [|intros k Nk; cbn; unfold ues; by rewrite lookup_insert_ne].
  rewrite <- (dg_point _ _ _ _ _ _ _ _ _ _ _ Gr).
  eapply (dl_group_snoc cur n num b vs rb p todo g rest s bs); try done; cbn [m_dci tti_rlcPduInfo].
  - intros i Hi. rewrite <- Rb. apply T6. by rewrite <- D8.
  - intros _. cbn [m_dci]. exists (sending d' pdus). rewrite D7, D2. unfold ue_key. rewrite Nat2Z.id. done.
Qed.

(** The UEs of a beam *)
Lemma dl_beam_fold cur n num b vs rb v todo g rest s bs :
  dl_group cur n num b vs rb (v.*1 ++ todo) g rest s bs -> v.*1 ⊆ vs -> NoDup (v.*1 ++ todo) -> 1 <= n <= 13 -> 0 <= cur -> cur + n <= 14 ->
  (forall q q' r, q ∈ vs -> q' ∈ vs -> r ∈ rb q -> r ∈ rb q' -> q' = q) -> (0 < bw)%nat ->
  Forall (fun p => exists ue, ready_dl b n rb s.(sl_ues) p ue) v.*1 ->
  exists s' bs' g', res_fold (dl_data_ue conf amc n) v (s, bs) = Ok (s', bs') /\ dl_group cur n num b vs rb todo g' rest s' bs' /\
    (forall k, k ∉ v.*1 -> s'.(sl_ues) !! k = s.(sl_ues) !! k).
Proof.
  intros W Sv Nd N C0 C14 Ex Bw. revert g s bs W Sv Nd. induction v as [|[p buf] v IH]; intros g s bs W Sv Nd F; cbn [res_fold].
  { by exists s, bs, g. }
  cbn in W, Nd, F, Sv. apply Forall_cons in F as [[ue Fp] F].
  destruct (dl_data_ue_ok cur n num b vs rb p buf (v.*1 ++ todo) g rest s bs ue W (Sv p ltac:(by left)) Nd N C0 C14 Ex Bw Fp)
    as (s1 & bs1 & g1 & -> & W1 & Fr).
  cbn [res_bind]. apply NoDup_cons in Nd as [Np Nd].
  destruct (IH g1 s1 bs1 W1 ltac:(intros x Hx; apply Sv; by right) Nd) as (s' & bs' & g' & -> & W' & Fr').
  { apply Forall_forall. intros q Hq. rewrite Forall_forall in F. destruct (F q Hq) as [u [A1 A2 A3 A4 A5 A6 A7 A8]]. exists u.
    split; try done. rewrite Fr; [done|]. intros ->. set_solver. }
  exists s', bs', g'. split; [done|]. split; [done|]. intros k Hk. cbn in Hk. rewrite Fr', Fr by set_solver. done.
Qed.

(** Between two beams *)
Record dl_data_wf (cur fin num : Z) (todo : list nat) (s : SlotState) : Prop := {
  dt_point : s.(sl_point) = mkPoint 0 cur;
  dt_num : s.(sl_alloc).(m_numSymAlloc) = num;
  dt_laid : laid (beam_of m0) mask cur fin s.(sl_alloc).(m_varTtiAllocInfo);
  dt_entries : dl_entries conf em nsb m0 s.(sl_ues) s.(sl_alloc).(m_varTtiAllocInfo);
  dt_fresh : forall p v, p ∈ todo -> v ∈ s.(sl_alloc).(m_varTtiAllocInfo) -> dci_rnti (m_dci v) <> Z.of_nat p;
  dt_fills : Forall fills s.(sl_alloc).(m_varTtiAllocInfo)
}.

(** What the allocation of RBGs gives a beam *)
Definition beam_ready (b : BeamId) (n : Z) (v : list (nat * Z)) (m : gmap nat SchedUe) : Prop :=
  exists rb, (forall q q' r, q ∈ v.*1 -> q' ∈ v.*1 -> r ∈ rb q -> r ∈ rb q' -> q' = q) /\
    Forall (fun p => exists ue, ready_dl b n rb m p ue) v.*1.

Lemma ready_dl_frame b n rb m m' p ue : m' !! p = m !! p -> ready_dl b n rb m p ue -> ready_dl b n rb m' p ue.
Proof. intros E []. split; try done. by rewrite E. Qed.

(** A beam takes its symbols if one of its UEs is granted something, and none if not. *)
Lemma dl_data_beam_ok cur fin num b n v todo s spb usedSym :
  dl_data_wf cur fin num (v.*1 ++ todo) s -> NoDup (v.*1 ++ todo) -> beam_at b spb = Some n -> 0 <= n <= 13 ->
  0 <= cur -> cur + n <= fin -> fin <= 14 -> 0 <= num < 200 -> 0 <= usedSym < 200 -> (0 < bw)%nat -> beam_ready b n v s.(sl_ues) ->
  exists s' used, dl_data_beam conf amc spb (b, v) (s, usedSym) = Ok (s', usedSym + used) /\ (used = 0 \/ used = n) /\
    dl_data_wf (cur + used) fin (num + used) todo s' /\ (forall k, k ∉ v.*1 -> s'.(sl_ues) !! k = s.(sl_ues) !! k) /\ grows s s'.
Proof.
  intros [P Nm L De Fr Fi] Nd Bn N C0 Cn F14 R1 R2 Bw (rb & Ex & Rd). unfold dl_data_beam. cbn [fst snd]. rewrite Bn.
  assert (dl_data_wf (cur + 0) fin (num + 0) todo s) as D0.
  { rewrite !Z.add_0_r. split; try done. intros p w Hp. apply Fr. apply elem_of_app. by right. }
  destruct (Z.eqb_spec n 0) as [->|Nz].
  { exists s, 0. rewrite Z.add_0_r at 1. split; [done|]. split; [by left|]. split; [done|]. split; [done|by intros x]. }
  set (rest := m_varTtiAllocInfo (sl_alloc s)) in *.
  assert (s.(sl_alloc) = mkSlotAlloc num rest) as Ea by (unfold rest; rewrite <- Nm; by destruct (sl_alloc s)).
  destruct (dl_beam_fold cur n num b v.*1 rb v todo [] rest s (mkBeamState false [] 0))
    as (s1 & bs1 & g & -> & [W1 W2 W3 W3' W4 W5 W6 W7 W8 W9] & Fr1);
    [split; rewrite ?app_nil_r; first [done|constructor]|done|done|lia|lia|lia|done|done|done|]. cbn [res_bind]. subst bs1.
  destruct g as [|v0 g0]; cbn [bs_assigned].
  - rewrite app_nil_r in *. exists s1, 0. rewrite Z.add_0_r at 1. split; [done|]. split; [by left|]. rewrite !Z.add_0_r.
    split; [|split; [done|intros x; by rewrite W2]]. split; [done|by rewrite W2|by rewrite W2|by rewrite W2|by rewrite W2|by rewrite W2].
  - set (g := v0 :: g0) in *. cbn [bs_allocSym]. unfold ChangeDlBeam. rewrite W1, W2, add_eq. cbn [spoint_sym m_numSymAlloc m_varTtiAllocInfo].
    rewrite !wrap_small by (unfold fits; lia).
    exists (mkSlot (mkPoint 0 (cur + n)) (sl_ues s1) (mkSlotAlloc (num + n) (rest ++ g))), n.
    split; [done|]. split; [by right|]. split; [|split; [done|intros x Hx; cbn [sl_alloc m_varTtiAllocInfo]; apply elem_of_app; by left]].
    split; cbn [sl_point sl_alloc sl_ues m_varTtiAllocInfo m_numSymAlloc]; try done.
    + eapply laid_group; [exact L|lia|lia|lia|unfold slot_symbols; lia|done|done].
    + apply Forall_app. by split.
Qed.

(** Every beam of [active] has its share of [spb] and of the RBGs. *)
Definition dl_shares_ready (spb : list (BeamId * Z)) (m : gmap nat SchedUe) (active : ActiveUes) : Prop :=
  Forall (fun e => exists n, beam_at e.1 spb = Some n /\ 0 <= n <= 13 /\ beam_ready e.1 n e.2 m) active.

Lemma dl_data_beams_ok spb active cur fin num s usedSym :
  dl_data_wf cur fin num (active_ptrs active) s -> NoDup (active_ptrs active) -> 0 <= cur -> cur + beam_sum spb active.*1 <= fin -> fin <= 14 ->
  0 <= num -> num + (fin - cur) < 200 -> 0 <= usedSym -> usedSym + (fin - cur) < 200 -> (0 < bw)%nat -> dl_shares_ready spb s.(sl_ues) active ->
  exists s' used, res_fold (dl_data_beam conf amc spb) active (s, usedSym) = Ok (s', usedSym + used) /\
    0 <= used <= beam_sum spb active.*1 /\ dl_data_wf (cur + used) fin (num + used) [] s' /\
    (forall k, k ∉ active_ptrs active -> s'.(sl_ues) !! k = s.(sl_ues) !! k) /\ grows s s'.
Proof.
  revert cur num s usedSym. induction active as [|[b v] active IH]; intros cur num s usedSym D Nd C0 Sm F14 N0 N1 U0 U1 Bw F; cbn [res_fold].
  { exists s, 0. rewrite !Z.add_0_r. split_and!; try done; by intros x. }
  rewrite active_ptrs_cons in D, Nd. apply Forall_cons in F as [(n & Bn & Nn & Rd) F]. cbn [fst snd] in *.
  unfold beam_sum in *. cbn [fmap list_fmap fst] in *. rewrite sum_over_cons, Bn in Sm |- *. change (default 0 (Some n)) with n in *.
  assert (0 <= sum_over (fun b => default 0 (beam_at b spb)) active.*1) as Pos.
  { clear -F. induction F as [|e l (n & Bn & Nn & _) F IH]; [done|]. cbn [fmap list_fmap]. rewrite sum_over_cons, Bn. cbn. lia. }
  destruct (dl_data_beam_ok cur fin num b n v (active_ptrs active) s spb usedSym D Nd Bn) as (s1 & u1 & -> & Hu & D1 & Fr1 & Gr1);
    [lia|lia|lia|lia|lia|lia|done|done|]. cbn [res_bind]. apply NoDup_app in Nd as (Nd1 & Nd2 & Nd3).
  destruct (IH (cur + u1) (num + u1) s1 (usedSym + u1) D1 Nd3) as (s' & u2 & -> & Hu2 & D2 & Fr2 & Gr2); [lia|lia|lia|lia|lia|lia|lia|done| |].
  { apply Forall_forall. intros e He. rewrite Forall_forall in F. destruct (F e He) as (n' & B1 & B2 & rb & B3 & B4).
    exists n'. split; [done|]. split; [done|]. exists rb. split; [done|]. apply Forall_forall. intros p Hp. rewrite Forall_forall in B4.
    destruct (B4 p Hp) as [ue Rp]. exists ue. eapply ready_dl_frame; [|exact Rp]. apply Fr1. intros Hv. apply (Nd2 p Hv).
    apply list_elem_of_In, in_concat. exists e.2.*1. split; apply list_elem_of_In; [|done]. apply list_elem_of_fmap. by exists e. }
  exists s', (u1 + u2). split; [by rewrite Z.add_assoc|]. split; [lia|]. rewrite !Z.add_assoc. split; [done|].
  split; [|intros x Hx; by apply Gr2, Gr1].
  intros k Hk. rewrite active_ptrs_cons in Hk. rewrite Fr2, Fr1 by set_solver. done.
Qed.
End data.

(** A configuration the downlink can work with: a control symbol at the start of the slot, a mask that
    leaves RBGs, and tables that have a block size for every grant that fits the slot *)
Record dl_conf_ok `{LibM} (conf : SchedConf) (amc : Amc) (em : NrErrorModel) : Prop := {
  dc_model : amc.(m_errorModel) = em;
  dc_ctrl : 1 <= conf.(m_dlCtrlSymbols);
  dc_start : 0 <= conf.(m_startMcsDl) <= em.(GetMaxMcs);
  dc_source : conf.(conf_mcsCsiSource) = AVG_MCS \/ conf.(conf_mcsCsiSource) = WIDEBAND_MCS;
  dc_some : existsb id (DlBitmask conf) = true;
  dc_rbgs : Z.of_nat conf.(GetBandwidthInRbg) <= 2 ^ 16;
  dc_rb : 0 <= conf.(GetNumRbPerRbg) /\ Z.of_nat conf.(GetBandwidthInRbg) * 14 * conf.(GetNumRbPerRbg) < 2 ^ 32;
  dc_blocks : forall mcs rank nprb, 0 <= mcs <= em.(GetMaxMcs) -> 1 <= rank <= 4 ->
    0 <= nprb <= Z.of_nat conf.(GetBandwidthInRbg) * 14 * conf.(GetNumRbPerRbg) ->
    exists tbs, CalculateTbSize mcs rank nprb amc = Ok tbs /\ tbs < 2 ^ 32
}.

Section data.
Context `{LibM} `{CppReduce} `{CppStableSort} `{StdSort} `{!StdSortLaws} `{CppHash, !CppHashLaws} `{SymbolPolicy, !SymbolPolicyLaws}.
Context (conf : SchedConf) (Ok_conf : conf_ok conf) (amc : Amc) (em : NrErrorModel) `{!ErrorModelLaws em} (nsb : Z).
Context (Ok_dl : dl_conf_ok conf amc em) (m0 : gmap nat SchedUe).
Abbreviation uwf := (dl_ue_wf conf em nsb).
Abbreviation mask := (DlBitmask conf).
Abbreviation bw := conf.(GetBandwidthInRbg).
Abbreviation rpr := conf.(GetNumRbPerRbg).

Lemma mask_length : length mask = bw.
Proof. apply (co_dlLength _ Ok_conf). Qed.

Lemma bw_pos : (0 < bw)%nat.
Proof. rewrite <- mask_length. pose proof (dc_some _ _ _ Ok_dl). destruct mask; [done|cbn; lia]. Qed.

(** ** The allocation *)

Definition no_ue : UeInfoDl := mkUeDl 0 0 [] [] 0 0 None 1 None [] [] (mkSchedCqi WB [] 0 [] 0) AVG_MCS.
Definition dl_of (m : gmap nat SchedUe) (p : nat) : UeInfoDl := default no_ue (dl_store m !! p).

Lemma dl_of_ue m p ue : m !! p = Some ue -> dl_store m !! p = Some (ue_dl ue) /\ dl_of m p = ue_dl ue.
Proof. intros E. unfold dl_of, dl_store. by rewrite lookup_fmap, E. Qed.

(** A slot the allocation can start from *)
Lemma dl_slot_ready m active spb :
  map_Forall uwf m -> map_Forall (fun _ => dl_clear) m -> active_ok DL m active ->
  (forall b n, beam_at b spb = Some n -> 0 <= n <= 14) -> slot_ready rpr amc mask em nsb (dl_of m) active spb (dl_store m).
Proof.
  intros W C (_ & Np & F) Bn. destruct (dc_rb _ _ _ Ok_dl) as [K0 K1].
  assert (forall p, p ∈ active_ptrs active -> exists ue, m !! p = Some ue) as In.
  { intros p Hp. apply list_elem_of_In, in_concat in Hp as (l & Hl & Hp). apply list_elem_of_In, list_elem_of_fmap in Hl as ([b v] & -> & Hv).
    apply list_elem_of_In, list_elem_of_fmap in Hp as ([q x] & -> & Hx). rewrite Forall_forall in F.
    destruct (F (b, v) Hv) as [_ Fv]. rewrite Forall_forall in Fv. destruct (Fv (q, x) Hx) as (ue & E & _). by exists ue. }
  split.
  - split; [apply (dc_some _ _ _ Ok_dl)|]. rewrite mask_length. apply (dc_rbgs _ _ _ Ok_dl).
  - apply (dc_model _ _ _ Ok_dl).
  - exact Np.
  - intros b n _ Hn. specialize (Bn b n Hn). rewrite mask_length. split; [lia|]. split; [done|]. nia.
  - intros p Hp. destruct (In p Hp) as [ue E]. destruct (dl_of_ue m p ue E) as [-> ->]. split; [done|]. split; [exact (C p ue E)|].
    rewrite mask_length. split; [apply (dw_cqi _ _ _ _ _ (W p ue E))|apply (dw_src _ _ _ _ _ (W p ue E))].
  - intros b n p mcs nprb _ Hn Hp Rm. rewrite mask_length. intros Rn. destruct (In p Hp) as [ue E]. destruct (dl_of_ue m p ue E) as [_ ->].
    specialize (Bn b n Hn). destruct (dc_blocks _ _ _ Ok_dl mcs (m_dlRank (ue_dl ue)) nprb Rm (dw_rank _ _ _ _ _ (W p ue E))) as (t & Et & _); [nia|by exists t].
Qed.

(** The block of a UE is a uint32_t. *)
Lemma metric_bound k ue n u (l : list Z) :
  uwf k ue -> u = place n (ue_dl ue) l (m_dlTbSize u) -> NoDup l -> l ⊆ remaining_rbgs mask -> 0 <= n <= 14 ->
  UpdateDlMetric rpr amc u = Ok u -> m_dlRBG u <> [] -> m_dlTbSize u < 2 ^ 32.
Proof.
  intros W Eu Nl Sl N M Ne. unfold UpdateDlMetric in M. destruct (m_dlRBG u) as [|r0 l0] eqn:Er; [done|]. rewrite <- Er in *.
  assert (m_dlRBG u = expand n l) as Ex by (by rewrite Eu).
  destruct (dc_rb _ _ _ Ok_dl) as [K0 K1].
  destruct (GetDlMcs_ok em (Z.of_nat bw) nsb amc u) as (mcs & Em & Rm); [apply (dc_model _ _ _ Ok_dl)|rewrite Eu; apply (dw_cqi _ _ _ _ _ W)| |rewrite Eu; apply (dw_src _ _ _ _ _ W)|].
  { rewrite Ex. apply Forall_forall. intros r Hr. apply expand_elem, Sl, remaining_elem in Hr as [R0 L].
    apply lookup_lt_Some in L. rewrite mask_length in L. lia. }
  rewrite Em in M. cbn [res_bind] in M. assert (m_dlRank u = m_dlRank (ue_dl ue)) as Ek by (by rewrite Eu). rewrite Ek in M.
  pose proof (sub_length mask l Nl Sl) as Le. rewrite mask_length in Le.
  assert (0 <= Z.of_nat (length (m_dlRBG u)) * rpr <= Z.of_nat bw * 14 * rpr) as B.
  { split; [nia|]. rewrite Ex, expand_length, Nat2Z.inj_mul, Z2Nat.id by lia. apply Z.mul_le_mono_nonneg_r; [done|]. apply Z.mul_le_mono_nonneg; lia. }
  rewrite wrap_small in M by (unfold fits; lia).
  destruct (dc_blocks _ _ _ Ok_dl mcs (m_dlRank (ue_dl ue)) (Z.of_nat (length (m_dlRBG u)) * rpr) Rm (dw_rank _ _ _ _ _ W)) as (t & Et & Lt); [lia|].
  rewrite Et in M. cbn [res_bind] in M. injection M as M. assert (m_dlTbSize u = t) as -> by (by rewrite <- M). done.
Qed.

(** The UEs after the allocation, RBGs assigned *)
Definition gets_rbgs (_ : nat) (ue ue' : SchedUe) : Prop :=
  exists n l t, ue' = ue <| ue_dl := place n (ue_dl ue) l t |> \/ ue' = ue.

Lemma put_dl_lookup ues m p ue u : m !! p = Some ue -> ues !! p = Some u -> put_dl ues m !! p = Some (ue <| ue_dl := u |>).
Proof. intros E1 E2. unfold put_dl. by rewrite map_lookup_imap, E1, E2. Qed.

Lemma put_dl_other ues m p : ues !! p = dl_store m !! p -> put_dl ues m !! p = m !! p.
Proof.
  intros E. unfold put_dl, dl_store in *. rewrite map_lookup_imap, E, lookup_fmap. destruct (m !! p) as [ue|]; [|done]. cbn. f_equal. by destruct ue.
Qed.

(** What a change of the allocation of a UE leaves as it was *)
Lemma gets_rbgs_ok k ue ue' : uwf k ue -> gets_rbgs k ue ue' -> uwf k ue' /\ dl_only k ue ue' /\ m_dlHarq ue' = m_dlHarq ue.
Proof.
  intros W (n & l & t & [->| ->]); [|split; [done|split; [apply dl_only_refl|done]]].
  destruct W as [X1 X2 [X3 X3'] X4 X5 X6 X7]. split; [by split|]. split; [|done].
  exists (place n (ue_dl ue) l t), (m_dlLCG ue), (m_dlHarq ue). split; [by destruct ue|done].
Qed.

Lemma entries_gets_rbgs m m' l :
  dl_entries conf em nsb m0 m l -> ues_rel gets_rbgs m m' -> dl_entries conf em nsb m0 m' l.
Proof.
  intros De Rl. pose proof (de_ues _ _ _ _ _ _ De) as W.
  assert (ues_rel (fun k ue ue' => uwf k ue' /\ dl_only k ue ue' /\ m_dlHarq ue' = m_dlHarq ue) m m') as G.
  { intros k. specialize (Rl k). specialize (W k). destruct Rl as [ue ue' Q|]; constructor. eapply gets_rbgs_ok; [by apply W|exact Q]. }
  eapply dl_entries_ues; [exact De|..].
  - intros k ue' E'. by destruct (ues_rel_lookup_r _ _ _ _ _ G E') as (ue & _ & ? & _).
  - eapply ues_rel_weaken; [|exact G]. by intros k u v (_ & ? & _).
  - apply waits_kept_same. intros k id. unfold proc_of. specialize (G k). destruct G as [ue ue' (_ & _ & E)|]; [|done]. cbn. by rewrite E.
Qed.

(** What the allocation of a beam gives its UEs *)
Lemma beam_result_ready m b n v ues' :
  map_Forall uwf m -> NoDup v.*1 -> 0 <= n <= 13 -> beam_ok rpr amc n mask v.*1 (dl_of m) ->
  beam_result rpr conf.(conf_mcsCsiSource) amc mask n (dl_of m) v ues' ->
  (forall p, p ∈ v.*1 -> exists ue, m !! p = Some ue /\ ue.(m_beamId) = b /\ may_send DL ue = true) ->
  beam_ready conf amc b n v (put_dl ues' m).
Proof.
  intros W N Rn OK B In. pose proof B as (alloc & _ & _ & Eu & _).
  exists (fun p => match ues' !! p with Some u => m_dlRBG u | None => [] end). split.
  - intros q q' r Hq Hq'. destruct (ues' !! q) as [u|] eqn:E; [|by intros ?%elem_of_nil].
    destruct (ues' !! q') as [u'|] eqn:E'; [|by intros _ ?%elem_of_nil].
    intros R1 R2. exact (result_exclusive rpr conf.(conf_mcsCsiSource) amc mask n (dl_of m) v ues' q q' u u' r N B Hq Hq' E E' R1 R2).
  - apply Forall_forall. intros p Hp. destruct (In p Hp) as (ue & E & Eb & May). pose proof (Eu p Hp) as Hu.
    set (u := place _ _ _ _) in Hu. destruct (dl_of_ue m p ue E) as [_ Ed].
    destruct (result_ue rpr conf.(conf_mcsCsiSource) amc mask n (dl_of m) v ues' p u OK B Hp Hu) as (l & Nl & Sl & Ep & M).
    rewrite Ed in Ep. exists (ue <| ue_dl := u |>). split; try done.
    + by apply put_dl_lookup.
    + by rewrite Hu.
    + change (m_dlRBG u = [] \/ 10 <= m_dlTbSize u < 2 ^ 32).
      destruct (result_block rpr conf.(conf_mcsCsiSource) amc mask n (dl_of m) v ues' p u B Hp Hu) as [[? _]|[Ne T]]; [by left|right].
      split; [done|]. by eapply (metric_bound p ue n u l (W p ue E)); [done..|lia|done|done].
    + change (forall r, r ∈ m_dlRBG u -> 0 <= r /\ mask !! Z.to_nat r = Some true). intros r. rewrite Ep.
      intros Hr%expand_elem%Sl%remaining_elem. exact Hr.
    + change (Z.of_nat (length (m_dlRBG u)) <= n * Z.of_nat bw). rewrite Ep.
      change (Z.of_nat (length (expand n l)) <= n * Z.of_nat bw). rewrite expand_length.
      pose proof (sub_length mask l Nl Sl) as Le. rewrite mask_length in Le. nia.
Qed.

(** What the allocation gives DoScheduleDlData to work with *)
Lemma assigned_dl_ready cur fin num s active q :
  dl_slot_wf conf em nsb m0 cur fin num s -> active_ok DL s.(sl_ues) active -> active <> [] -> 0 < fin - cur <= 13 ->
  exists ret q' spb ues deque known, policy_symbols (fin - cur) active q.(dq_rrBeams) = Ok (ret, q') /\
    AssignDLRBG rpr conf.(conf_mcsCsiSource) amc mask ret active (dl_store s.(sl_ues), q.(dq_dlRrRntiDeque), q.(dq_dlRntiSet))
      = Ok (spb, (ues, deque, known)) /\
    let m := put_dl ues s.(sl_ues) in
    ues_rel gets_rbgs s.(sl_ues) m /\ beam_sum spb active.*1 <= fin - cur /\ dl_shares_ready conf amc spb m active /\
    (forall k, k ∉ active_ptrs active -> m !! k = s.(sl_ues) !! k).
Proof.
  intros [_ _ _ De C] A Ne Sy. pose proof (de_ues _ _ _ _ _ _ De) as W.
  destruct (policy_ok (fin - cur) active q.(dq_rrBeams) ltac:(lia) Ne) as (ret & q' & Ep & Fp & Sp).
  assert (forall b n, beam_at b (GetSymPerBeam ret active) = Some n -> 0 <= n <= 13) as Bn.
  { intros b n Hn. split; [by eapply GetSymPerBeam_nonneg|].
    pose proof (beam_sum_le ret [b] ltac:(apply NoDup_singleton) Fp) as Sm. unfold beam_sum in Sm.
    rewrite sum_over_cons, <- (GetSymPerBeam_default ret active), Hn in Sm. change (sum_over _ []) with 0 in Sm. cbn in Sm. lia. }
  assert (slot_ready rpr amc mask em nsb (dl_of s.(sl_ues)) active (GetSymPerBeam ret active) (dl_store s.(sl_ues))) as Rd.
  { apply dl_slot_ready; [done..|]. intros b n Hn. specialize (Bn b n Hn). lia. }
  destruct (AssignDLRBG_spec rpr conf.(conf_mcsCsiSource) amc mask em nsb (dl_of s.(sl_ues)) ret active (dl_store s.(sl_ues))
    q.(dq_dlRrRntiDeque) q.(dq_dlRntiSet) Rd) as (ues & deque & known & Ea & Fo & Bm).
  exists ret, q', (GetSymPerBeam ret active), ues, deque, known. split; [done|]. split; [done|]. intros m. destruct A as (N & Np & F).
  assert (forall b v, (b, v) ∈ active -> exists n, beam_at b (GetSymPerBeam ret active) = Some n) as Bs.
  { intros b v Hv. apply GetSymPerBeam_active. apply list_elem_of_fmap. by exists (b, v). }
  split; [|split; [|split]].
  - intros k. destruct (decide (k ∈ active_ptrs active)) as [Hk|Hk].
    + apply list_elem_of_In, in_concat in Hk as (l & Hl & Hk). apply list_elem_of_In, list_elem_of_fmap in Hl as ([b v] & -> & Hv).
      apply list_elem_of_In in Hk. destruct (Bs b v Hv) as [n Hn]. destruct (Bm b v n Hv Hn) as (alloc & _ & _ & Eu & _).
      rewrite Forall_forall in F. destruct (F (b, v) Hv) as [_ Fv]. cbn in Fv, Hk. pose proof (Eu k Hk) as Hu.
      apply list_elem_of_fmap in Hk as ([k' x] & -> & Hx). rewrite Forall_forall in Fv. destruct (Fv _ Hx) as (ue & E & _). cbn in *.
      destruct (dl_of_ue (sl_ues s) k' ue E) as [_ Ed]. unfold m. rewrite E, (put_dl_lookup _ _ _ _ _ E Hu), Ed. constructor.
      do 3 eexists. left. reflexivity.
    + unfold m. rewrite put_dl_other by by apply Fo. destruct (sl_ues s !! k); constructor. exists 0, [], 0. by right.
  - transitivity (beam_sum ret active.*1); [|transitivity (zsum ret.*2); [by apply beam_sum_le|done]].
    unfold beam_sum. apply Z.eq_le_incl, sum_over_ext. intros b _. apply GetSymPerBeam_default.
  - apply Forall_forall. intros [b v] Hv. destruct (Bs b v Hv) as [n Hn]. exists n. split; [done|]. split; [by eapply Bn|].
    assert (NoDup v.*1) as Nv by (eapply beam_NoDup; [exact Np|exact Hv]).
    apply beam_result_ready; [done|done|by eapply Bn| |by apply (Bm b v n)|].
    + eapply ready_beam_ok; [exact _|exact Rd|exact Hv|exact Nv|exact Hn].
    + intros p Hp. rewrite Forall_forall in F. destruct (F (b, v) Hv) as [_ Fv]. cbn in Fv, Hp.
      apply list_elem_of_fmap in Hp as ([p' x] & -> & Hx). rewrite Forall_forall in Fv. by destruct (Fv _ Hx) as (ue & ?); exists ue.
  - intros k Hk. by apply put_dl_other, Fo.
Qed.

(** ** The end *)

Lemma reset_dl_ok k ue : uwf k ue -> uwf k (reset_dl ue) /\ dl_only k ue (reset_dl ue) /\ m_dlHarq (reset_dl ue) = m_dlHarq ue /\ dl_clear (reset_dl ue).
Proof.
  intros [X1 X2 [X3 X3'] X4 X5 X6 X7]. split; [by split|]. split; [|done].
  exists (ResetDlSchedInfo (ue_dl ue)), (m_dlLCG ue), (m_dlHarq ue). split; [by destruct ue|done].
Qed.

(** The last loop: the UEs that were active are cleared. *)
Lemma reset_dl_fold l m ls :
  dl_entries conf em nsb m0 m ls -> (forall k ue, m !! k = Some ue -> k ∉ l -> dl_clear ue) ->
  let m' := foldl (fun m p => alter reset_dl p m) m l in
  dl_entries conf em nsb m0 m' ls /\ map_Forall (fun _ => dl_clear) m'.
Proof.
  revert m. induction l as [|p l IH]; intros m De C; cbn [foldl].
  { split; [done|]. intros k ue Ek. apply (C k ue Ek). apply not_elem_of_nil. }
  pose proof (de_ues _ _ _ _ _ _ De) as W. apply IH.
  - eapply dl_entries_ues; [exact De|..].
    + intros k ue. destruct (decide (k = p)) as [->|Ne]; [rewrite lookup_alter_eq|rewrite lookup_alter_ne by done; apply W].
      intros (u & Eu & ->)%fmap_Some. by apply reset_dl_ok, W.
    + intros k. destruct (decide (k = p)) as [->|Ne]; [rewrite lookup_alter_eq|rewrite lookup_alter_ne by done; apply dl_onlys_refl].
      destruct (m !! p) as [u|] eqn:Eu; cbn; constructor. by apply (reset_dl_ok p u (W p u Eu)).
    + apply waits_kept_same. intros k id. unfold proc_of. destruct (decide (k = p)) as [->|Ne]; [rewrite lookup_alter_eq|by rewrite lookup_alter_ne].
      by destruct (m !! p).
  - intros k ue. destruct (decide (k = p)) as [->|Ne]; [rewrite lookup_alter_eq|rewrite lookup_alter_ne by done].
    + intros (u & Eu & ->)%fmap_Some _. by apply (reset_dl_ok p u (W p u Eu)).
    + intros Ek Nk. apply (C k ue Ek). by apply not_elem_of_cons.
Qed.

(** The data of a slot: the allocation ends, trips no assertion and uses no more than the symbols it has. *)
Lemma DoScheduleDlData_ok cur fin num s active q :
  dl_slot_wf conf em nsb m0 cur fin num s -> active_ok DL s.(sl_ues) active -> active <> [] -> 0 <= cur -> 0 < fin - cur <= 13 -> fin <= 14 ->
  0 <= num < 100 -> Forall fills s.(sl_alloc).(m_varTtiAllocInfo) ->
  (forall k v, k ∈ active_ptrs active -> v ∈ s.(sl_alloc).(m_varTtiAllocInfo) -> dci_rnti (m_dci v) <> Z.of_nat k) ->
  exists used q' s', DoScheduleDlData conf amc (fin - cur) active q s = Ok (used, q', s') /\ 0 <= used <= fin - cur /\
    dl_data_wf conf em nsb m0 (cur + used) fin (num + used) [] s' /\ map_Forall (fun _ => dl_clear) s'.(sl_ues) /\ grows s s'.
Proof.
  intros W A Ne C0 Sy F14 Nm Fi Fr.
  destruct (assigned_dl_ready cur fin num s active q W A Ne Sy) as (ret & q' & spb & ues & deque & known & Ep & Ea & Rl & Sm & Rd & Ot).
  destruct W as [P Nu L De C]. unfold DoScheduleDlData. rewrite P. cbn [spoint_rbg Z.eqb negb abort_if res_bind].
  rewrite Ep. cbn [res_bind fst snd]. rewrite Ea. cbn [res_bind].
  set (s0 := mkSlot (mkPoint 0 cur) (put_dl ues (sl_ues s)) (sl_alloc s)).
  assert (dl_data_wf conf em nsb m0 cur fin num (active_ptrs active) s0) as D.
  { split; try done. by eapply entries_gets_rbgs. }
  destruct (dl_data_beams_ok conf Ok_conf amc em nsb m0 spb active cur fin num s0 0 D) as (s1 & used & Ed & Hu & D1 & F1 & G1);
    [apply A|lia|lia|lia|lia|lia|lia|lia|apply bw_pos|done|]. rewrite Ed. cbn [res_bind].
  destruct D1 as [P1 N1 L1 E1 _ Fi1]. rewrite P1. cbn [spoint_rbg Z.eqb negb abort_if res_bind].
  exists used. do 2 eexists. split; [reflexivity|]. split; [lia|].
  destruct (reset_dl_fold (active_ptrs active) s1.(sl_ues) _ E1) as [R1 R2].
  { intros k ue Ek Nk. rewrite F1 in Ek by done. cbn [sl_ues] in Ek. unfold s0 in Ek. cbn in Ek. rewrite Ot in Ek by done. by apply (C k). }
  split; [|split; [exact R2|exact G1]]. split; try done. by intros p v ?%elem_of_nil.
Qed.
End data.
