(* ===== verification/DlSlotProps.v ===== *)
(** The properties of a downlink slot of the MAC scheduler. *)
From Stdlib Require Import ZArith Lia Lists.List SpecFloat.
From stdpp Require Import base list gmap strings list_numbers.
From coqutil Require Import Datatypes.RecordSettersUsingExistingGetters.
From S2P Require Import Prelude OrdMap Messages UlScheduler UlFacts UlProps Amc AmcProps DlUe CqiManagement CqiProps.
From S2P Require Import DlScheduler DlFacts Dci DlProps DciProps LogicalChannels LcProps Harq Srs SfnSf MacScheduler.
From S2P Require Import ResourceMatrix UlSlot DlSlot SlotLayout UlTiling HarqFacts MacFacts UlGrant UlSlotFacts UlData.
From S2P Require Import DlGrant DlSlotFacts DlHarq DlData.
Open Scope Z_scope.
(** ** The control symbols *)

Definition is_ctrl (v : VarTti) : Prop := dci_type (m_dci v) = CTRL.

(** The symbols of the uplink in a slot: those that are recorded, and the control symbol of an S slot *)
Definition ul_part (conf : SchedConf) (type : SlotType) (e : SlotElem) : Z :=
  e.(m_totUlSym) + if bool_decide (type = SlotS) then conf.(m_ulCtrlSymbols) else 0.

(** What the uplink has taken of a slot *)
Definition taken (s : MacSched) (sfn : Z) : SlotElem := default (mkSlotElem 0 []) (s.(m_ulAllocationMap) !! sfn).

Section slot.
Context `{LibM} `{CppReduce} `{CppStableSort} `{StdSort} `{!StdSortLaws} `{CppHash, !CppHashLaws} `{SymbolPolicy, !SymbolPolicyLaws}.
Context (conf : SchedConf) (Ok_conf : conf_ok conf) (amc : Amc) (em : NrErrorModel) `{!ErrorModelLaws em} (nsb : Z).
Context (Ok_dl : dl_conf_ok conf amc em).
Abbreviation uwf := (dl_ue_wf conf em nsb).
Abbreviation mask := (DlBitmask conf).
Abbreviation R := (maxHarqReTx conf).

Lemma ctrl_placed mode sym : 0 <= sym <= 13 -> placed mask (slot_info (ctrl_dci conf mode sym)).
Proof.
  intros S. assert (u8 sym = sym) as E by (apply wrap_small; unfold fits; lia).
  split; cbn; rewrite ?E; unfold slot_symbols; try lia; [|by left]. rewrite length_replicate. symmetry. apply (co_dlLength _ Ok_conf).
Qed.

(** The control symbols at the start of the slot *)
Lemma dl_ctrl_laid beam k :
  0 <= k <= 13 ->
  let l := rev ((fun sym => slot_info (ctrl_dci conf DL sym)) <$> seqZ 0 k) in
  laid beam mask k slot_symbols l /\ Forall is_ctrl l.
Proof.
  intros [K0 K]. revert K. pattern k. apply natlike_ind; [| |done]; clear k K0.
  { intros _. rewrite seqZ_nil by done. split; [split|]; constructor. }
  intros k K0 IH K. unfold Z.succ. rewrite seqZ_app by lia. rewrite fmap_app, rev_app_distr, Z.add_0_l.
  assert (seqZ k 1 = [k]) as -> by (rewrite seqZ_cons by lia; by rewrite seqZ_nil by lia). cbn [fmap list_fmap rev app].
  specialize (IH ltac:(lia)). cbv zeta in IH. destruct IH as [L I]. destruct L as [P C F O]. split; [|by constructor].
  assert (u8 k = k) as E by (apply wrap_small; unfold fits; lia).
  split.
  - constructor; [apply ctrl_placed; lia|done].
  - constructor; [|done]. rewrite Forall_forall in F, P. apply Forall_forall. intros w Hw. unfold compatible, before. cbn. rewrite E.
    destruct (F w Hw) as [?|?]; [by right; left|left]. unfold slot_symbols in *. lia.
  - constructor; [left; cbn; lia|]. eapply Forall_impl; [exact F|]. cbn. intros w [?|?]; [left; lia|by right].
  - by constructor.
Qed.

(** ** The steps of the slot *)

(** The control of the slot: [fin] symbols are left for the downlink, its control included. *)
Lemma dl_ctrl_ok beam type e :
  type <> SlotUL -> 0 <= e.(m_totUlSym) -> conf.(m_dlCtrlSymbols) + ul_part conf type e <= 14 ->
  exists e' alloc, dl_ctrl conf type e = Ok (e', alloc) /\ e'.(m_totUlSym) = ul_part conf type e /\
    alloc.(m_numSymAlloc) = conf.(m_dlCtrlSymbols) + (if bool_decide (type = SlotS) then 1 else 0) /\
    laid beam mask conf.(m_dlCtrlSymbols) (14 - ul_part conf type e) alloc.(m_varTtiAllocInfo) /\
    Forall is_ctrl alloc.(m_varTtiAllocInfo).
Proof.
  intros Ty T0 Rm. unfold dl_ctrl, PrependCtrlSym, ul_part in *. rewrite (bool_decide_true ([] = [])) by done. rewrite Z.eqb_refl. cbn [andb negb].
  rewrite andb_false_r. cbn [abort_if res_bind]. rewrite app_nil_r. pose proof (dc_ctrl _ _ _ Ok_dl) as D1. pose proof (co_room _ Ok_conf) as D2.
  pose proof (co_srs _ Ok_conf) as D3. rewrite (co_ulCtrl _ Ok_conf) in *. rewrite (co_symbols _ Ok_conf).
  destruct (dl_ctrl_laid beam (m_dlCtrlSymbols conf)) as [L I]; [lia|]. set (l := rev _) in *. rewrite wrap_small by (unfold fits; lia).
  assert (forall fin, m_dlCtrlSymbols conf <= fin <= 14 -> laid beam mask (m_dlCtrlSymbols conf) fin l) as L'.
  { intros fin F. destruct L as [P C Fr O]. split; try done. eapply Forall_impl; [exact Fr|]. cbn. unfold slot_symbols. intros v [?|[? ?]]; [by left|right; split; [done|lia]]. }
  destruct (bool_decide_reflect (type = SlotS)) as [S|S].
  - unfold AppendCtrlSym. rewrite (bool_decide_false (UL = DL)) by done. cbn [andb abort_if res_bind]. change (u8 (14 - 1)) with 13.
    cbn [fmap list_fmap m_varTtiAllocInfo]. eexists _, _. split; [done|].
    rewrite add_eq. cbn [m_numSymAlloc m_varTtiAllocInfo m_totUlSym]. rewrite !wrap_small by (unfold fits; lia). split; [done|]. split; [cbn; by rewrite !wrap_small by (unfold fits; cbn; rewrite ?wrap_small by (unfold fits; lia); lia)|].
    split; [|apply Forall_app; split; [done|by constructor]].
    change (m_varTtiAllocInfo _) with (l ++ [slot_info (ctrl_dci conf UL 13)]).
    destruct (L' 13 ltac:(lia)) as [P C Fr O]. split.
    + apply Forall_app. split; [done|]. constructor; [apply ctrl_placed; lia|done].
    + apply pairs_snoc; [done|]. eapply Forall_impl; [exact (la_free _ _ _ _ _ L)|]. unfold compatible, before, slot_symbols. cbn. change (u8 13) with 13. intros v [?|[_ ?]]; [left; lia|right; left; lia].
    + apply Forall_app. split; [|constructor; [right; cbn; change (u8 13) with 13; split; [done|lia]|done]]. eapply Forall_impl; [exact Fr|]. cbn. intros v [?|[? ?]]; [by left|right; split; [done|lia]].
    + apply Forall_app. split; [done|by constructor].
  - eexists _, _. split; [done|]. cbn [m_numSymAlloc m_varTtiAllocInfo]. split; [lia|]. split; [rewrite ?wrap_small by (unfold fits; lia); lia|]. split; [|done]. apply L'. lia.
Qed.

(** The slot before anything but the control is placed *)
Lemma dl_slot_start m cur fin num l :
  map_Forall uwf m -> map_Forall (fun _ => dl_clear) m -> laid (beam_of m) mask cur fin l -> Forall is_ctrl l ->
  dl_slot_wf conf em nsb m cur fin num (mkSlot (mkPoint 0 cur) m (mkSlotAlloc num l)).
Proof.
  intros W C L I. split; try done. cbn. split; auto with oran.
  - eapply Forall_impl; [exact I|]. intros v Iv Dv. unfold is_ctrl in Iv. congruence.
  - clear -I. induction I as [|v l Iv I IH]; [constructor|]. constructor; [|done]. apply Forall_forall. intros w _ Dv. unfold is_ctrl in Iv. congruence.
Qed.

(** The processes to send again, when they are all in one beam *)
Lemma one_beam m a b (l : list HarqInfo) :
  beams_ok (in_beam m) a -> concat a.*2 ≡ₚ fb_key <$> l -> Forall (fun fb => in_beam m b (fb_key fb)) l -> NoDup (fb_key <$> l) ->
  a = [] /\ l = [] \/ exists todo, a = [(b, fb_key <$> todo)] /\ NoDup (fb_key <$> todo) /\ todo ⊆ l /\ l ⊆ todo.
Proof.
  intros [N F] P B Nd. rewrite Forall_forall in B.
  assert (forall e, e ∈ a -> e.1 = b) as Eb.
  { intros [c v] He. rewrite Forall_forall in F. destruct (F _ He) as [Ne Fv]. cbn in *. destruct v as [|x v]; [done|].
    apply Forall_cons in Fv as [(ue & E & Ec) _].
    assert (x ∈ fb_key <$> l) as Hx.
    { rewrite <- P. apply list_elem_of_In, in_concat. exists (x :: v). split; [|by left]. apply list_elem_of_In, list_elem_of_fmap. by exists (c, x :: v). }
    apply list_elem_of_fmap in Hx as (fb & -> & Hfb). destruct (B fb Hfb) as (ue' & E' & Eb). congruence. }
  destruct a as [|[c v] [|[c' v'] a]].
  - left. split; [done|]. symmetry in P. apply Permutation_nil_r in P. by destruct l.
  - right. pose proof (Eb (c, v) ltac:(by left)) as Ec. cbn in Ec. subst c. cbn in P. rewrite app_nil_r in P.
    destruct (processes_feedback l v) as (todo & -> & S); [intros x Hx; by rewrite <- P|]. exists todo. split; [done|].
    split; [by rewrite P|]. split; [done|]. intros fb Hfb. assert (fb_key fb ∈ fb_key <$> todo) as Hk by (rewrite P; by apply list_elem_of_fmap_2).
    apply list_elem_of_fmap in Hk as (fb' & Ek & Hfb'). apply S in Hfb' as Hl.
    apply list_elem_of_lookup in Hfb as [i Hi], Hl as [j Hj].
    assert (i = j) as -> by (eapply (NoDup_lookup (fb_key <$> l)); [done|by rewrite list_lookup_fmap, Hi|]; rewrite list_lookup_fmap, Hj; cbn; congruence).
    rewrite Hi in Hj. by injection Hj as ->.
  - exfalso. pose proof (Eb (c, v) ltac:(by left)). pose proof (Eb (c', v') ltac:(right; by left)). cbn in *. subst.
    apply NoDup_cons in N as [N _]. apply N. by left.
Qed.

(** The feedback: sent again or kept *)
Lemma dl_harq_ok m0 cur fin num b l a q s :
  dl_slot_wf conf em nsb m0 cur fin num s -> Forall is_ctrl s.(sl_alloc).(m_varTtiAllocInfo) -> 0 <= cur <= fin -> fin <= 14 -> 0 <= num < 100 ->
  Forall (ready DL R s.(sl_ues)) l -> NoDup (fb_key <$> l) -> Forall (fun fb => in_beam m0 b (fb_key fb)) l ->
  beams_ok (in_beam m0) a -> concat a.*2 ≡ₚ fb_key <$> l -> q = [] \/ q = [b] -> ues_rel sends_same m0 s.(sl_ues) ->
  exists used q' extra g s', dl_harq conf a l (fin - cur) q [] s = Ok (fin - cur - used, q', extra, s') /\
    0 <= used <= fin - cur /\ (q' = [] \/ q' = [b]) /\ dl_slot_wf conf em nsb m0 (cur + used) fin (num + used) s' /\
    s'.(sl_alloc).(m_varTtiAllocInfo) = s.(sl_alloc).(m_varTtiAllocInfo) ++ g /\ extra ⊆ l /\ Forall (all_sent extra g) l /\
    Forall (fun v => 0 < m_rv (m_dci v)) g /\ ues_rel sends_same m0 s'.(sl_ues).
Proof.
  intros W Ct Cu F14 Nm Rd Nd B Ba P Q Sn. unfold dl_harq.
  destruct (one_beam m0 a b l Ba P B Nd) as [[-> ->]|(todo & -> & Nt & St & Sl)].
  { rewrite bool_decide_true by done. exists 0, q, [], [], s. cbn [negb]. rewrite Z.sub_0_r, !Z.add_0_r, app_nil_r.
    split; [done|]. split; [lia|]. split; [done|]. split; [done|]. split; [done|]. split; [done|]. by repeat split. }
  rewrite bool_decide_false by done. cbn [negb].
  destruct (ScheduleDlHarq_ok conf em nsb m0 l cur fin num b todo q [] s W Cu F14) as (used & g & extra & s1 & -> & Hu & W1 & Eg & Se & Al & Ag & Sn1).
  - apply Forall_forall. intros fb Hfb. rewrite Forall_forall in Rd. by apply Rd, St.
  - done.
  - done.
  - done.
  - apply Forall_forall. intros fb Hfb. rewrite Forall_forall in B. by apply B, St.
  - done.
  - eapply Forall_impl; [exact Ct|]. intros v Iv. unfold is_ctrl in Iv. by rewrite Iv.
  - done.
  - cbn [res_bind app]. rewrite (proj2 (Z.ltb_ge _ _)) by lia. cbn [abort_if res_bind]. rewrite wrap_small by (unfold fits; lia).
    exists used, [b], extra, g. eexists. split; [done|]. split; [done|]. split; [by right|]. rewrite add_eq.
    destruct W1 as [W1 W2 W3 W4 W5]. cbn [sl_point sl_ues sl_alloc] in *. rewrite W2, wrap_small by (unfold fits; lia).
    split; [by split|]. split; [exact Eg|]. split; [by etrans|]. split; [|by split].
    apply Forall_forall. intros fb Hfb. rewrite Forall_forall in Al. by apply Al, Sl.
Qed.

(** The UEs that were active are so after the retransmissions. *)
Lemma active_ok_same m0 m a :
  ues_rel dl_only m0 m -> ues_rel sends_same m0 m -> active_ok DL m0 a -> active_ok DL m a.
Proof.
  intros D S (N & P & F). split; [done|]. split; [done|]. eapply Forall_impl; [exact F|]. intros e [Ne Fe]. split; [done|].
  eapply Forall_impl; [exact Fe|]. intros x (ue & E & B & M). destruct (ues_rel_lookup _ _ _ _ _ S E) as (ue' & E' & Se).
  destruct (ues_rel_lookup _ _ _ _ _ D E) as (ue'' & E'' & d & l & h & -> & _). rewrite E' in E''. injection E'' as ->.
  eexists. split; [exact E'|]. split; [exact B|]. unfold sends_same in Se. by rewrite Se.
Qed.

(** The data, when there are symbols left and somebody has data *)
Lemma dl_data_ok m0 cur fin num q s :
  dl_slot_wf conf em nsb m0 cur fin num s -> ues_rel sends_same m0 s.(sl_ues) -> 1 <= cur <= fin -> fin <= 14 -> 0 <= num < 100 ->
  Forall fills s.(sl_alloc).(m_varTtiAllocInfo) ->
  exists left q' used s', dl_data conf amc (fin - cur) (ComputeActiveUe DL m0) q s = Ok (left, q', s') /\ 0 <= used <= fin - cur /\
    dl_data_wf conf em nsb m0 (cur + used) fin (num + used) [] s' /\ map_Forall (fun _ => dl_clear) s'.(sl_ues) /\ grows s s'.
Proof.
  intros W Sn Cu F14 Nm Fi. pose proof W as [P N L De C]. unfold dl_data. set (active := foldl _ _ _).
  assert (map_Forall has_rnti s.(sl_ues)) as Hr by (intros k ue E; apply (dw_ul _ _ _ _ _ (de_ues _ _ _ _ _ _ De k ue E))).
  destruct (remove_all_ok DL s.(sl_ues) s.(sl_alloc).(m_varTtiAllocInfo) (ComputeActiveUe DL m0) Hr
    (active_ok_same _ _ _ (de_only _ _ _ _ _ _ De) Sn (ComputeActiveUe_ok DL m0))) as (A & _ & Fr). fold active in A, Fr.
  destruct ((0 <? fin - cur) && negb (bool_decide (active = []))) eqn:Go.
  - apply andb_true_iff in Go as [Pos%Z.ltb_lt Ne%negb_true_iff%bool_decide_eq_false].
    destruct (DoScheduleDlData_ok conf Ok_conf amc em nsb Ok_dl m0 cur fin num s active q W A Ne) as (used & q' & s' & -> & Hu & D & C' & G);
      [lia|lia|lia|lia|done|done|]. cbn [res_bind fst snd]. rewrite (proj2 (Z.ltb_ge _ _)) by lia. cbn [abort_if res_bind].
    eexists _, q', used, s'. split; [done|]. by split.
  - exists (fin - cur), q, 0, s. split; [done|]. rewrite !Z.add_0_r. split; [lia|]. split; [|split; [done|by intros x]].
    split; try done. by intros p v ?%elem_of_nil.
Qed.

(** ** The slot *)

(** What is allocated up to the symbol [last], of which the slot has [slot_symbols - ul_part] *)
Record dl_result (m0 m : gmap nat SchedUe) (type : SlotType) (e : SlotElem) (last : Z) (alloc : SlotAllocInfo) : Prop := {
  dr_last : conf.(m_dlCtrlSymbols) <= last <= slot_symbols - ul_part conf type e;
  dr_laid : laid (beam_of m0) mask last (slot_symbols - ul_part conf type e) alloc.(m_varTtiAllocInfo);
  dr_symbols : alloc.(m_numSymAlloc) = last + if bool_decide (type = SlotS) then 1 else 0;
  dr_granted : Forall (grant_waits DL m) alloc.(m_varTtiAllocInfo);
  dr_once : ForallOrdPairs one_dci alloc.(m_varTtiAllocInfo);
  dr_fills : Forall fills alloc.(m_varTtiAllocInfo)
}.

(** The scheduler between two slots, as far as the downlink of the UEs is concerned *)
Record dl_mac_wf (b : BeamId) (s : MacSched) : Prop := {
  dm_ues : map_Forall uwf s.(m_ueMap);
  dm_clear : map_Forall (fun _ => dl_clear) s.(m_ueMap);
  dm_kept : Forall (known DL s.(m_ueMap)) s.(m_dlHarqToRetransmit);
  dm_beam : Forall (fun fb => in_beam s.(m_ueMap) b (fb_key fb)) s.(m_dlHarqToRetransmit);
  dm_queue : s.(m_harqRrBeams) = [] \/ s.(m_harqRrBeams) = [b]
}.

Lemma known_dl_only m m' fb : ues_rel dl_only m m' -> known DL m fb -> known DL m' fb.
Proof.
  intros S (R0 & ue & E & I). split; [done|]. destruct (ues_rel_lookup _ _ _ _ _ S E) as (ue' & E' & d & l & h & -> & M).
  eexists. split; [exact E'|]. cbn [harq_of] in I. rewrite <- M in I. exact I.
Qed.

Lemma in_beam_dl_only m m' b x : ues_rel dl_only m m' -> in_beam m b x -> in_beam m' b x.
Proof.
  intros S (ue & E & B). destruct (ues_rel_lookup _ _ _ _ _ S E) as (ue' & E' & d & l & h & -> & M). by eexists.
Qed.

(** What the uplink keeps in the scheduler *)
Definition ul_kept (s s' : MacSched) : Prop :=
  s'.(m_ulHarqToRetransmit) = s.(m_ulHarqToRetransmit) /\ s'.(m_srList) = s.(m_srList) /\ s'.(m_rachList) = s.(m_rachList) /\
  s'.(m_ulTargets) = s.(m_ulTargets) /\ s'.(m_schedulerSrs) = s.(m_schedulerSrs).

Definition dl_sent_in (alloc : SlotAllocInfo) (fb : HarqInfo) : Prop := Exists (resends fb) alloc.(m_varTtiAllocInfo).

Lemma DoScheduleDl_ok b l type e alloc s :
  dl_mac_wf b s -> s.(m_dlHarqToRetransmit) = [] -> 
  Forall (ready DL R s.(m_ueMap)) l -> NoDup (fb_key <$> l) -> Forall (known DL s.(m_ueMap)) l ->
  Forall (fun fb => in_beam s.(m_ueMap) b (fb_key fb)) l ->
  0 <= ul_part conf type e -> conf.(m_dlCtrlSymbols) + ul_part conf type e <= 14 ->
  alloc.(m_numSymAlloc) = conf.(m_dlCtrlSymbols) + (if bool_decide (type = SlotS) then 1 else 0) ->
  laid (beam_of s.(m_ueMap)) mask conf.(m_dlCtrlSymbols) (14 - ul_part conf type e) alloc.(m_varTtiAllocInfo) ->
  Forall is_ctrl alloc.(m_varTtiAllocInfo) ->
  exists a last s' alloc', ComputeActiveDlHarq l s.(m_ueMap) = Ok a /\
    DoScheduleDl conf amc l a (ComputeActiveUe DL s.(m_ueMap)) (ul_part conf type e) alloc s = Ok (s', alloc') /\
    dl_mac_wf b s' /\ dl_result s.(m_ueMap) s'.(m_ueMap) type e last alloc' /\ ues_rel dl_only s.(m_ueMap) s'.(m_ueMap) /\
    waits_kept DL s.(m_ueMap) s'.(m_ueMap) /\ (s'.(m_ulAllocationMap) = s.(m_ulAllocationMap) /\ ul_kept s s') /\
    s'.(m_dlHarqToRetransmit) ⊆ l /\ forall fb, fb ∈ l -> dl_sent_in alloc' fb \/ fb ∈ s'.(m_dlHarqToRetransmit).
Proof.
  intros W Kept Rd Nd Kn Ib U0 Rm Nm L Ct. pose proof (dc_ctrl _ _ _ Ok_dl) as D1. pose proof (co_room _ Ok_conf) as D2. pose proof (co_srs _ Ok_conf) as D3.
  destruct (ComputeActiveDlHarq_ok R l s.(m_ueMap) Rd) as (a & Ea & Ba & Ca). exists a.
  unfold DoScheduleDl. rewrite (co_symbols _ Ok_conf), Kept.
  set (cur := m_dlCtrlSymbols conf) in *. set (ul := ul_part conf type e) in *.
  assert (u8 (u8 (14 - cur) - ul) = 14 - ul - cur) as ->.
  { rewrite (wrap_small 8 (14 - cur)) by (unfold fits; lia). rewrite wrap_small by (unfold fits; lia). lia. }
  set (sb := if bool_decide (type = SlotS) then 1 else 0) in *. assert (0 <= sb <= 1) as Sb by (unfold sb; destruct (bool_decide _); lia).
  assert (alloc = mkSlotAlloc (cur + sb) (m_varTtiAllocInfo alloc)) as Eal by (rewrite <- Nm; by destruct alloc).
  pose proof (dl_slot_start s.(m_ueMap) cur (14 - ul) (cur + sb) _ (dm_ues _ _ W) (dm_clear _ _ W) L Ct) as W0. rewrite <- Eal in W0.
  destruct (dl_harq_ok s.(m_ueMap) cur (14 - ul) (cur + sb) b l a s.(m_harqRrBeams) _ W0 Ct) as (used & q' & extra & g & s1 & -> & Hu & Hq & W1 & Eg & Se & Al & Ag & Sn);
    [lia|lia|lia|exact Rd|exact Nd|exact Ib|exact Ba|exact Ca|apply (dm_queue _ _ W)|apply sends_same_refl|].
  cbn [res_bind]. pose proof (ds_point _ _ _ _ _ _ _ _ W1) as ->. cbn [spoint_rbg Z.eqb negb abort_if res_bind].
  replace (14 - ul - cur - used) with (14 - ul - (cur + used)) by lia.
  destruct (dl_data_ok s.(m_ueMap) (cur + used) (14 - ul) (cur + sb + used) (mkDlQueues s.(m_rrBeams) s.(sched_dlDeque) s.(sched_dlRntiSet)) s1 W1 Sn)
    as (lft & q2 & used2 & s2 & -> & Hu2 & [P2 N2 L2 E2 _ F2] & C2 & G2); [lia|lia|lia| |].
  { cbn [sl_alloc] in Eg. rewrite Eg. apply Forall_app. split.
    - eapply Forall_impl; [exact Ct|]. intros v Iv Dv. unfold is_ctrl in Iv. congruence.
    - eapply Forall_impl; [exact Ag|]. cbn. intros v Rv _ Zv. lia. }
  cbn [res_bind]. exists (cur + used + used2). eexists _, (sl_alloc s2). split; [exact Ea|]. split; [done|]. cbn.
  destruct E2 as [U2 S2 Gr2 On2 Kp2].
  split; [|split; [|split; [exact S2|split; [exact Kp2|split; [done|split; [exact Se|]]]]]].
  - split; cbn; [exact U2|exact C2| | |exact Hq].
    + apply Forall_forall. intros fb Hfb. eapply known_dl_only; [exact S2|]. rewrite Forall_forall in Kn. by apply Kn, Se.
    + apply Forall_forall. intros fb Hfb. eapply in_beam_dl_only; [exact S2|]. rewrite Forall_forall in Ib. by apply Ib, Se.
  - split; try done; unfold slot_symbols; [fold ul cur; lia|fold sb; lia].
  - intros fb Hfb. rewrite Forall_forall in Al. destruct (Al fb Hfb) as [?|Ex]; [by right|left].
    apply Exists_exists in Ex as (v & Hv & Rv). apply Exists_exists. exists v. split; [|done]. apply G2. cbn [sl_alloc] in Eg. rewrite Eg.
    apply elem_of_app. by right.
Qed.
(** What a downlink slot needs: a sound scheduler, a slot number that can be encoded, feedback of processes
    of UEs of the beam [b], and room for the control next to what the uplink has taken *)
Record dl_request (b : BeamId) (snfSf : SfnSf) (type : SlotType) (dlSfn : Z) (received : list HarqInfo) (s : MacSched) : Prop := {
  dq_sched : dl_mac_wf b s;
  dq_type : type <> SlotUL;
  dq_sfn : GetEncoding snfSf = Ok dlSfn;
  dq_known : Forall (known DL s.(m_ueMap)) received;
  dq_beam : Forall (fun fb => in_beam s.(m_ueMap) b (fb_key fb)) received;
  dq_room : 0 <= (taken s dlSfn).(m_totUlSym) /\ conf.(m_dlCtrlSymbols) + ul_part conf type (taken s dlSfn) <= 14
}.

Lemma dl_alloc_beam m0 m l :
  ues_rel dl_only m0 m -> Forall (fun v => m_isOmni v = false) l -> Forall (fun v => alloc_beam m v = beam_of m0 (dci_rnti (m_dci v))) l.
Proof.
  intros S O. eapply Forall_impl; [exact O|]. cbn. intros v Ov. rewrite <- (dl_only_beam m0 m _ S). unfold alloc_beam, beam_of. by rewrite Ov.
Qed.

Lemma ScheduleDl_ok b snfSf type dlSfn l s :
  dl_mac_wf b s -> s.(m_dlHarqToRetransmit) = [] -> type <> SlotUL -> GetEncoding snfSf = Ok dlSfn ->
  Forall (ready DL R s.(m_ueMap)) l -> NoDup (fb_key <$> l) -> Forall (known DL s.(m_ueMap)) l ->
  Forall (fun fb => in_beam s.(m_ueMap) b (fb_key fb)) l ->
  0 <= (taken s dlSfn).(m_totUlSym) -> conf.(m_dlCtrlSymbols) + ul_part conf type (taken s dlSfn) <= 14 ->
  exists last s' alloc, ScheduleDl conf amc snfSf type l s = Ok (s', alloc) /\
    dl_mac_wf b s' /\ dl_result s.(m_ueMap) s'.(m_ueMap) type (taken s dlSfn) last alloc /\ ues_rel dl_only s.(m_ueMap) s'.(m_ueMap) /\
    waits_kept DL s.(m_ueMap) s'.(m_ueMap) /\ ((forall k, k <> dlSfn -> s'.(m_ulAllocationMap) !! k = s.(m_ulAllocationMap) !! k) /\ ul_kept s s') /\
    s'.(m_dlHarqToRetransmit) ⊆ l /\ forall fb, fb ∈ l -> dl_sent_in alloc fb \/ fb ∈ s'.(m_dlHarqToRetransmit).
Proof.
  intros W Kept Ty En Rd Nd Kn Ib T0 Rm. unfold ScheduleDl. rewrite En. cbn [res_bind]. change (default _ (m_ulAllocationMap s !! dlSfn)) with (taken s dlSfn).
  destruct (dl_ctrl_ok (beam_of s.(m_ueMap)) type (taken s dlSfn) Ty T0 Rm) as (e' & alloc0 & -> & Et & Nm & L & I). cbn [res_bind].
  assert (0 <= ul_part conf type (taken s dlSfn)) as U0.
  { unfold ul_part. rewrite (co_ulCtrl _ Ok_conf). destruct (bool_decide _); lia. }
  destruct (DoScheduleDl_ok b l type (taken s dlSfn) alloc0 s W Kept Rd Nd Kn Ib U0 Rm Nm L I)
    as (a & last & s' & alloc & -> & Ed & W' & Rs & S' & Wk & [Um Uk] & Se & Fb).
  cbn [res_bind]. rewrite Et, Ed. cbn [res_bind].
  destruct W' as [X1 X2 X3 X4 X5], Rs as [R1 [P2 C2 F2 O2] R3 R4 R5 R6].
  match goal with |- context [CheckResourceMatrix _ ?m _ _] => change m with (m_ueMap s') end.
  change 14 with slot_symbols.
  rewrite (layout_checked (beam_of s.(m_ueMap)) mask s'.(m_ueMap) _ P2 C2 (dl_alloc_beam _ _ _ S' O2)). cbn [res_bind].
  exists last. eexists _, alloc. split; [done|]. cbn.
  split; [by split|]. split; [by split|]. split; [exact S'|]. split; [exact Wk|]. split; [|by split]. split; [|exact Uk].
  intros k Nk. rewrite Um. destruct (_ <=? _); [by rewrite lookup_delete_ne|by rewrite lookup_insert_ne].
Qed.

(** The refreshed CQIs change nothing the slot relies on. *)
Lemma refresh_dl_ues m :
  map_Forall uwf m -> map_Forall (fun _ => dl_clear) m ->
  let m' := refresh_dl_ue conf <$> m in
  map_Forall uwf m' /\ map_Forall (fun _ => dl_clear) m' /\ ues_rel dl_only m m' /\ forall k id, proc_of DL m' k id = proc_of DL m k id.
Proof.
  intros W C m'.
  assert (forall ue, exists d, refresh_dl_ue conf ue = ue <| ue_dl := d |> /\
    (forall k, uwf k ue -> uwf k (refresh_dl_ue conf ue)) /\ (dl_clear ue -> dl_clear (refresh_dl_ue conf ue))) as F.
  { intros ue. exists (refresh_dl conf.(m_startMcsDl) ue.(ue_dl)). split; [done|]. pose proof (dc_start _ _ _ Ok_dl) as St.
    change (refresh_dl_ue conf ue) with (ue <| ue_dl := refresh_dl conf.(m_startMcsDl) ue.(ue_dl) |>). unfold refresh_dl. cbv zeta.
    destruct (m_timer (m_dlCqi (ue_dl ue)) =? 0).
    all: split; [|by intros (Y1 & Y2 & Y3); split].
    all: intros k [X1 X2 [X3 X4] (Y1 & Y2) X5 X6 X7]; split; [exact X1|exact X2|by split| |exact X5|exact X6|exact X7]; by split. }
  split; [|split; [|split]].
  - intros k ue' (ue & <- & E)%lookup_fmap_Some. destruct (F ue) as (d & _ & Q & _). by apply Q, W.
  - intros k ue' (ue & <- & E)%lookup_fmap_Some. destruct (F ue) as (d & _ & _ & Q). by apply Q, (C k).
  - intros k. unfold m'. rewrite lookup_fmap. destruct (m !! k) as [ue|]; constructor. destruct (F ue) as (d & -> & _).
    exists d, (m_dlLCG ue), (m_dlHarq ue). split; [by destruct ue|done].
  - intros k id. unfold proc_of, m'. rewrite lookup_fmap. by destruct (m !! k).
Qed.

(** The start of the slot: what is left of the feedback, and the processes it is for *)
Lemma dl_feedback_ok kept received m :
  map_Forall uwf m -> map_Forall (fun _ => dl_clear) m -> Forall (known DL m) (kept ++ received) ->
  exists l m', process_feedback conf DL kept received (refresh_dl_ue conf <$> m) = Ok (l, m') /\
    map_Forall uwf m' /\ map_Forall (fun _ => dl_clear) m' /\ ues_rel dl_only m m' /\
    l `sublist_of` kept ++ received /\ NoDup (fb_key <$> l) /\ Forall (ready DL R m') l /\
    (forall k id, (Z.of_nat k, id) ∉ fb_key <$> kept ++ received -> proc_of DL m' k id = aged conf.(GetNumHarqProcess) <$> proc_of DL m k id) /\
    forall fb, fb ∈ kept ++ received -> IsReceivedOk fb = false -> resendable DL conf m fb ->
      exists fb', fb' ∈ kept ++ received /\ fb_key fb' = fb_key fb /\ (fb' ∈ l \/ IsReceivedOk fb' = true).
Proof.
  intros W C Kn. destruct (refresh_dl_ues m W C) as (W1 & C1 & S1 & P1). set (m1 := refresh_dl_ue conf <$> m) in *.
  destruct (process_side_ok DL (dl_dci_ok conf) conf m1 kept received (co_harq _ Ok_conf)) as (l & m2 & -> & Sd2 & Oh & Sl & Nl & Rd & Ag & Fb).
  - intros k ue E. apply (dw_side _ _ _ _ _ (W1 k ue E)).
  - eapply Forall_impl; [exact Kn|]. intros fb. by apply known_dl_only.
  - done.
  - destruct (only_dlHarq_wf conf em nsb m1 m2 W1 Sd2 Oh) as (W2 & C2 & S2). exists l, m2.
    split; [done|]. split; [done|]. split; [by apply C2|]. split; [by eapply dl_onlys_trans|]. split; [done|]. split; [done|]. split; [done|]. split.
    + intros k id Nk. by rewrite Ag, P1.
    + intros fb Hfb Nok (p & d & Pa & Q). destruct (Fb fb Hfb Nok) as [Hl|[_ ?]]; [exists p, d; rewrite P1; by split| |done].
      exists fb. split; [done|]. split; [done|by left].
Qed.

Lemma DoSchedDlTriggerReq_ok b snfSf type dlSfn received s :
  dl_request b snfSf type dlSfn received s ->
  exists last s' alloc, DoSchedDlTriggerReq conf amc snfSf type received s = Ok (s', alloc) /\
    dl_mac_wf b s' /\ dl_result s.(m_ueMap) s'.(m_ueMap) type (taken s dlSfn) last alloc /\ ues_rel dl_only s.(m_ueMap) s'.(m_ueMap) /\
    (forall k id p, proc_of DL s.(m_ueMap) k id = Some p -> hp_active p = true -> hp_status p = WAITING_FEEDBACK ->
       (Z.of_nat k, id) ∉ fb_key <$> s.(m_dlHarqToRetransmit) ++ received -> hp_timer p < conf.(GetNumHarqProcess) ->
       proc_of DL s'.(m_ueMap) k id = Some (aged conf.(GetNumHarqProcess) p)) /\
    ((forall k, k <> dlSfn -> s'.(m_ulAllocationMap) !! k = s.(m_ulAllocationMap) !! k) /\ ul_kept s s') /\
    s'.(m_dlHarqToRetransmit) ⊆ s.(m_dlHarqToRetransmit) ++ received /\
    forall fb, fb ∈ s.(m_dlHarqToRetransmit) ++ received -> IsReceivedOk fb = false -> resendable DL conf s.(m_ueMap) fb ->
      dl_sent_in alloc fb \/
      exists fb', fb_key fb' = fb_key fb /\ (fb' ∈ s'.(m_dlHarqToRetransmit) \/ fb' ∈ s.(m_dlHarqToRetransmit) ++ received /\ IsReceivedOk fb' = true).
Proof.
  intros [W Ty En Kn Ib [T0 Rm]]. unfold DoSchedDlTriggerReq. set (fbs := s.(m_dlHarqToRetransmit) ++ received) in *.
  assert (Forall (known DL s.(m_ueMap)) fbs) as Kn1 by (apply Forall_app; split; [exact (dm_kept _ _ W)|exact Kn]).
  assert (Forall (fun fb => in_beam s.(m_ueMap) b (fb_key fb)) fbs) as Ib1 by (apply Forall_app; split; [exact (dm_beam _ _ W)|exact Ib]).
  destruct (dl_feedback_ok _ received _ (dm_ues _ _ W) (dm_clear _ _ W) Kn1) as (l & m2 & -> & W2 & C2 & S02 & Sl & Nl & Rd & Ag & Fb). cbn [res_bind fst snd].
  set (s2 := s <| m_ueMap := m2 |> <| m_dlHarqToRetransmit := [] |>).
  assert (dl_mac_wf b s2) as Ws2 by (split; cbn; [exact W2|exact C2|constructor|constructor|exact (dm_queue _ _ W)]).
  rewrite Forall_forall in Kn1, Ib1.
  assert (forall fb, fb ∈ l -> known DL m2 fb /\ in_beam m2 b (fb_key fb)) as Kb.
  { intros fb Hl. assert (fb ∈ fbs) as Hfb by by eapply elem_of_sublist. split; [by eapply known_dl_only, Kn1|by eapply in_beam_dl_only, Ib1]. }
  destruct (ScheduleDl_ok b snfSf type dlSfn l s2 Ws2 eq_refl Ty En Rd Nl) as (last & s' & alloc & -> & W' & Rs & S' & Wk & Um & Se & Fb').
  { apply Forall_forall. intros fb Hfb. by apply Kb. }
  { apply Forall_forall. intros fb Hfb. by apply Kb. }
  { exact T0. } { exact Rm. }
  exists last, s', alloc. change (m_ueMap s2) with m2 in *. change (taken s2 dlSfn) with (taken s dlSfn) in *.
  split; [done|]. split; [done|]. split; [|split; [by eapply dl_onlys_trans|split; [|split; [exact Um|split]]]].
  - destruct Rs as [R1 [P2 Cm F2 O2] R3 R4 R5 R6]. split; try done. split; try done. 
    eapply pairs_impl; [|exact Cm]. intros v w. unfold compatible. by rewrite !(dl_only_beam _ _ _ S02).
  - intros k id p Ep Ap Sp Nk Tp. apply Wk.
    + change (m_ueMap s2) with m2. by rewrite Ag, Ep.
    + rewrite (proj1 (aged_young _ p ltac:(by rewrite Sp) Tp)). done.
    + unfold aged. rewrite decide_False by (by rewrite Sp). rewrite (proj2 (Z.ltb_lt _ _)) by done. by destruct p.
  - intros fb Hfb. eapply elem_of_sublist; [|exact Sl]. by apply Se.
  - intros fb Hfb Nok Re. destruct (Fb fb Hfb Nok Re) as (fb' & Hfb' & Ek & [Hl|Okf]); [|right; exists fb'; split; [done|right; by split]].
    destruct (Fb' fb' Hl) as [Sn|?]; [left|right; exists fb'; split; [done|by left]].
    unfold dl_sent_in in *. eapply Exists_impl; [exact Sn|]. intros v. unfold resends. injection Ek as -> ->. done.
Qed.
End slot.
