(* ===== verification/DlMacProps.v ===== *)
(** What the MAC scheduler guarantees of a downlink slot, and of a slot that the two directions share. *)
From Stdlib Require Import ZArith Lia Lists.List SpecFloat.
From stdpp Require Import base list gmap strings list_numbers.
From coqutil Require Import Datatypes.RecordSettersUsingExistingGetters.
From S2P Require Import Prelude OrdMap Messages UlScheduler UlFacts UlProps Amc AmcProps DlUe CqiManagement CqiProps.
From S2P Require Import DlScheduler DlFacts Dci DlProps DciProps LogicalChannels LcProps Harq Srs SfnSf MacScheduler.
From S2P Require Import ResourceMatrix UlSlot DlSlot SlotLayout UlTiling HarqFacts MacFacts UlGrant UlSlotFacts UlData.
From S2P Require Import UlSlotProps DlGrant DlSlotFacts DlHarq DlData DlSlotProps.
Open Scope Z_scope.
Section slot.
Context `{LibM} `{CppReduce} `{CppStableSort} `{StdSort} `{!StdSortLaws} `{CppHash, !CppHashLaws} `{SymbolPolicy, !SymbolPolicyLaws}.
Context (conf : SchedConf) (Ok_conf : conf_ok conf) (amc : Amc) (em : NrErrorModel) `{!ErrorModelLaws em} (nsb : Z).
Context (Ok_dl : dl_conf_ok conf amc em).
Abbreviation request := (dl_request conf em nsb).
Abbreviation trigger := (DoSchedDlTriggerReq conf amc).

(** C4: A downlink slot whose feedback, new and kept, is all of the beam [b], with the round-robin queue of the
    retransmissions empty or holding just [b] ([dl_request]), is always laid out next to what the uplink has taken
    of it: every allocation is within
    the slot and the mask, two of them share no symbol or are in one beam and share no RBG, and nothing but
    the uplink control of an S slot is behind the symbol [last]; the symbols add up. *)
Theorem downlink_slot_laid_out b snfSf type dlSfn received s :
  request b snfSf type dlSfn received s ->
  exists last s' alloc, trigger snfSf type received s = Ok (s', alloc) /\
    conf.(m_dlCtrlSymbols) <= last <= 14 - ul_part conf type (taken s dlSfn) /\
    Forall (placed (DlBitmask conf)) alloc.(m_varTtiAllocInfo) /\
    ForallOrdPairs (compatible (beam_of s.(m_ueMap))) alloc.(m_varTtiAllocInfo) /\
    Forall (fun v => m_symStart (m_dci v) + m_numSym (m_dci v) <= last \/
                     dci_type (m_dci v) = CTRL /\ 14 - ul_part conf type (taken s dlSfn) <= m_symStart (m_dci v)) alloc.(m_varTtiAllocInfo) /\
    alloc.(m_numSymAlloc) = last + if bool_decide (type = SlotS) then 1 else 0.
Proof.
  intros Q. destruct (DoSchedDlTriggerReq_ok conf Ok_conf amc em nsb Ok_dl b snfSf type dlSfn received s Q)
    as (last & s' & alloc & E & _ & [L [P C F _] N _ _ _] & _). exists last, s', alloc. by repeat (split; [done|]).
Qed.

(** C22: In a downlink slot whose feedback, new and kept, is all of the beam [b], with the round-robin queue of the
    retransmissions empty or holding just [b], every grant waits for feedback in the HARQ process it names, whose
    DCI it is; no two grants of the slot are for one UE; and the sub-PDUs of new data with their headers are exactly as long as its
    transport block. *)
Theorem downlink_grants_wait b snfSf type dlSfn received s s' alloc :
  request b snfSf type dlSfn received s -> trigger snfSf type received s = Ok (s', alloc) ->
  (forall v, v ∈ alloc.(m_varTtiAllocInfo) -> dci_type (m_dci v) = DATA ->
     (exists p, proc_of DL s'.(m_ueMap) (ue_key (dci_rnti (m_dci v))) (m_harqProcess (m_dci v)) = Some p /\ hp_active p = true /\
        hp_status p = WAITING_FEEDBACK /\ hp_timer p = 0 /\ m_dciElement p = Some (m_dci v)) /\
     (m_rv (m_dci v) = 0 -> tti_rlcPduInfo v <> [] /\ pdu_bytes (tti_rlcPduInfo v) = m_tbSize (m_dci v))) /\
  ForallOrdPairs (fun v w => dci_type (m_dci v) = DATA -> dci_type (m_dci w) = DATA -> dci_rnti (m_dci v) <> dci_rnti (m_dci w))
    alloc.(m_varTtiAllocInfo).
Proof.
  intros Q E. destruct (DoSchedDlTriggerReq_ok conf Ok_conf amc em nsb Ok_dl b snfSf type dlSfn received s Q)
    as (last & s1 & alloc1 & E1 & _ & [_ _ _ G O Fi] & _). rewrite E in E1. injection E1 as <- <-. split; [|exact O].
  intros v Hv D. rewrite Forall_forall in G, Fi. split; [exact (G v Hv D)|exact (Fi v Hv D)].
Qed.


(** C5: The two directions share a flexible slot without a collision: whatever happens between the two triggers
    for the slot, as long as the record the uplink has made of it is unchanged (a CQI report for the slot takes
    allocations off it), all downlink feedback is of the beam [b] and the round-robin queue of the retransmissions
    is empty or holds just [b], every downlink grant ends before the first symbol of every uplink allocation, and those leave the downlink control free. *)
Theorem flexible_slot_shared `{NrAmc, !NrAmcLaws} b ulSnfSf dlSnfSf sfn ulReceived dlReceived s s' ul s1 s2 dl v w :
  slot_request conf ulSnfSf SlotF sfn ulReceived s -> DoSchedUlTriggerReq conf ulSnfSf SlotF ulReceived s = Ok (s', ul) ->
  s1.(m_ulAllocationMap) !! sfn = s'.(m_ulAllocationMap) !! sfn ->
  request b dlSnfSf SlotF sfn dlReceived s1 -> trigger dlSnfSf SlotF dlReceived s1 = Ok (s2, dl) ->
  v ∈ dl.(m_varTtiAllocInfo) -> dci_type (m_dci v) = DATA -> w ∈ ul.(m_varTtiAllocInfo) ->
  before v w /\ conf.(m_dlCtrlSymbols) <= m_symStart (m_dci w).
Proof.
  intros Qu Eu Em Qd Ed Hv Dv Hw.
  destruct (DoSchedUlTriggerReq_ok conf Ok_conf ulSnfSf SlotF sfn ulReceived s Qu) as (st & s0 & ul0 & E0 & _ & [St T _ _ _] & _ & _ & _ & M & _).
  rewrite Eu in E0. injection E0 as <- <-.
  destruct (DoSchedDlTriggerReq_ok conf Ok_conf amc em nsb Ok_dl b dlSnfSf SlotF sfn dlReceived s1 Qd)
    as (last & s3 & dl3 & E3 & _ & [La [_ _ F _] _ _ _ _] & _). rewrite Ed in E3. injection E3 as <- <-.
  assert (ul_part conf SlotF (taken s1 sfn) = slot_symbols - st) as Up.
  { unfold ul_part, taken. rewrite Em, M, lookup_insert_eq, bool_decide_false by done. cbn. lia. }
  rewrite Up in *. rewrite Forall_forall in F. unfold dl_symbols in St. rewrite bool_decide_true in St by done.
  pose proof (tiling_starts _ _ _ _ _ T w Hw) as Sw. unfold before. destruct (F v Hv) as [?|[? _]]; [lia|congruence].
Qed.

(** C40: Only the first beam that ever sends something again may do so alone: once the round-robin queue of the
    retransmissions holds one beam, a slot in which only another beam has a block to send again writes the
    order of the beams behind its end. *)
Theorem second_beam_resends_out_of_range b b' snfSf type dlSfn received s fb :
  map_Forall (dl_ue_wf conf em nsb) s.(m_ueMap) -> map_Forall (fun _ => dl_clear) s.(m_ueMap) -> type <> SlotUL -> GetEncoding snfSf = Ok dlSfn ->
  0 <= (taken s dlSfn).(m_totUlSym) -> conf.(m_dlCtrlSymbols) + ul_part conf type (taken s dlSfn) <= 14 ->
  Forall (known DL s.(m_ueMap)) (s.(m_dlHarqToRetransmit) ++ received) -> NoDup (fb_key <$> s.(m_dlHarqToRetransmit) ++ received) ->
  Forall (fun fb => in_beam s.(m_ueMap) b' (fb_key fb)) (s.(m_dlHarqToRetransmit) ++ received) ->
  s.(m_harqRrBeams) = [b] -> b' <> b ->
  fb ∈ s.(m_dlHarqToRetransmit) ++ received -> IsReceivedOk fb = false -> resendable DL conf s.(m_ueMap) fb ->
  trigger snfSf type received s = Abort "ret[i] out of range".
Proof.
  intros W C Ty En T0 Rm Kn Nd Ib Hq Nb Hfb Nok Re. unfold DoSchedDlTriggerReq.
  destruct (dl_feedback_ok conf Ok_conf amc em nsb Ok_dl _ received _ W C Kn) as (l & m2 & -> & W2 & C2 & S2 & Sl & Nl & Rd & _ & Fb). cbn [res_bind fst snd].
  assert (l <> []) as Ne.
  { destruct (Fb fb Hfb Nok Re) as (fb' & Hfb' & Ek & [Hl|Okf]); [by intros ->; apply elem_of_nil in Hl|].
    exfalso. apply list_elem_of_lookup in Hfb as [i Hi], Hfb' as [j Hj].
    assert (i = j) as -> by (eapply (NoDup_lookup (fb_key <$> _)); [exact Nd|by rewrite list_lookup_fmap, Hi|]; rewrite list_lookup_fmap, Hj; cbn; congruence).
    congruence. }
  unfold ScheduleDl. rewrite En. cbn [res_bind]. change (default _ _) with (taken s dlSfn).
  destruct (dl_ctrl_ok conf Ok_conf amc em Ok_dl (beam_of m2) type (taken s dlSfn) Ty T0 Rm) as (e' & alloc0 & -> & _). cbn [res_bind].
  match goal with |- context [ComputeActiveDlHarq l ?m] => change m with m2 end.
  destruct (ComputeActiveDlHarq_ok (maxHarqReTx conf) l m2 Rd) as (a & -> & Ba & Ca). cbn [res_bind].
  destruct (one_beam m2 a b' l Ba Ca) as [[_ ->]|(todo & -> & _)]; [|done|done|].
  { apply Forall_forall. intros x Hx. eapply in_beam_dl_only; [exact S2|]. rewrite Forall_forall in Ib. apply Ib. by eapply elem_of_sublist. }
  unfold DoScheduleDl, dl_harq. rewrite bool_decide_false by done. cbn [negb]. unfold ScheduleDlHarq.
  cbn [sl_point spoint_rbg Z.eqb negb abort_if res_bind].
  match goal with |- context [GetBeamOrderRR _ ?q] => change q with (m_harqRrBeams s) end.
  by rewrite Hq, GetBeamOrderRR_other.
Qed.
End slot.
