(* ===== verification/MacInvariant.v ===== *)
(** The invariant of the MAC scheduler under all requests it is given, and the schedulers that can be
    reached. *)
From Stdlib Require Import ZArith Lia Lists.List.
From stdpp Require Import base list gmap strings list_numbers.
From coqutil Require Import Datatypes.RecordSettersUsingExistingGetters.
From S2P Require Import Prelude OrdMap UlScheduler Amc DlUe CqiManagement Dci LogicalChannels LcProps Harq Srs SfnSf.
From S2P Require Import MacScheduler ResourceMatrix UlSlot HarqFacts MacFacts UlGrant UlSlotFacts UlData UlSlotProps.
Open Scope Z_scope.
(** ** Offsets of the sounding signals *)

(** The offsets that are given out, and the periodicity every UE has *)
Definition offsets (m : gmap nat SchedUe) : list Z := (map_to_list (m_srsOffset <$> m)).*2.

Definition srs_ok (s : MacSched) : Prop :=
  srs_inv s.(m_schedulerSrs) (offsets s.(m_ueMap)) /\
  map_Forall (fun _ ue => ue.(m_srsPeriodicity) = s.(m_schedulerSrs).(m_periodicity)) s.(m_ueMap).

Lemma offsets_insert k ue m : m !! k = None -> offsets (<[k := ue]> m) ≡ₚ ue.(m_srsOffset) :: offsets m.
Proof.
  intros E. unfold offsets. rewrite fmap_insert, map_to_list_insert; [done|]. by rewrite lookup_fmap, E.
Qed.

Lemma offsets_delete k ue m : m !! k = Some ue -> offsets m ≡ₚ ue.(m_srsOffset) :: offsets (delete k m).
Proof. intros E. rewrite <- (insert_delete_id m k ue E) at 1. apply offsets_insert, lookup_delete_eq. Qed.

Lemma offsets_same m m' : ues_rel same_ue m m' -> offsets m' = offsets m.
Proof.
  intros S. unfold offsets. do 2 f_equal. apply map_eq. intros k. rewrite !lookup_fmap. specialize (S k).
  destruct S as [u v (_ & _ & E & _)|]; cbn; by rewrite ?E.
Qed.

Lemma offsets_size m : length (offsets m) = size m.
Proof. unfold offsets. by rewrite length_fmap, length_map_to_list, map_size_fmap. Qed.

(** The offsets of UEs whose values were all set *)
Lemma offsets_values (m : gmap nat SchedUe) (l : list (nat * SrsValue)) :
  NoDup l.*1 -> (forall k, is_Some (m !! k) -> k ∈ l.*1) ->
  (forall k v, (k, v) ∈ l -> exists ue, m !! k = Some ue /\ ue.(m_srsOffset) = v.(srs_offset)) ->
  offsets m ≡ₚ srs_offset <$> l.*2.
Proof.
  intros N D V. unfold offsets.
  assert (m_srsOffset <$> m = srs_offset <$> (list_to_map l : gmap nat SrsValue)) as ->.
  { apply map_eq. intros k. rewrite !lookup_fmap. destruct (list_to_map l !! k) as [v|] eqn:E.
    - apply elem_of_list_to_map in E; [|done]. destruct (V k v E) as (ue & -> & Eo). cbn. by rewrite Eo.
    - destruct (m !! k) as [ue|] eqn:Em; [|done]. exfalso. apply not_elem_of_list_to_map in E. apply E, D. by exists ue. }
  rewrite map_to_list_fmap, map_to_list_to_map by done. rewrite <- !list_fmap_compose. done.
Qed.

(** Setting the values of UEs *)
Lemma set_values_lookup (vs : list (nat * SrsValue)) (m : gmap nat SchedUe) k :
  NoDup vs.*1 ->
  foldl (fun (m : gmap nat SchedUe) kv => alter (set_srs kv.2) kv.1 m) m vs !! k
  = match list_find (fun kv => kv.1 = k) vs with Some (_, kv) => set_srs kv.2 <$> m !! k | None => m !! k end.
Proof.
  revert m. induction vs as [|[j v] vs IH]; intros m N; [done|]. cbn in N. apply NoDup_cons in N as [Nj N]. cbn [foldl fst snd].
  rewrite IH by done. cbn [list_find fst]. destruct (decide (j = k)) as [->|Ne].
  - assert (list_find (fun kv : nat * SrsValue => kv.1 = k) vs = None) as ->.
    { apply list_find_None, Forall_forall. intros [k' v'] Hx Ek. cbn in Ek. subst k'. apply Nj. apply list_elem_of_fmap. by exists (k, v'). }
    by rewrite lookup_alter_eq.
  - rewrite lookup_alter_ne by done. by destruct (list_find _ vs) as [[i kv]|].
Qed.

Lemma set_values_elem (vs : list (nat * SrsValue)) k v :
  NoDup vs.*1 -> (k, v) ∈ vs -> exists i, list_find (fun kv => kv.1 = k) vs = Some (i, (k, v)).
Proof.
  intros N Hv. destruct (list_find (fun kv : nat * SrsValue => kv.1 = k) vs) as [[i [k' v']]|] eqn:E.
  - apply list_find_Some in E as (E1 & E2 & _). cbn in E2. subst k'. exists i. do 3 f_equal.
    apply list_elem_of_lookup in Hv as [j Hj].
    assert (i = j) as -> by (eapply (NoDup_lookup vs.*1); [done|by rewrite list_lookup_fmap, E1|by rewrite list_lookup_fmap, Hj]). congruence.
  - apply list_find_None in E. rewrite Forall_forall in E. by destruct (E _ Hv).
Qed.

(** ** The invariant *)

(** A channel of the downlink carries the id it is filed under. *)
Definition dl_ids (ue : SchedUe) : Prop :=
  map_Forall (fun _ lcg => map_Forall (fun c lc => lc.(lc_id) = c) (lcg : NrMacSchedulerLCG)) ue.(m_dlLCG).

Record mac_inv (conf : SchedConf) (s : MacSched) : Prop := {
  mi_wf : mac_wf conf s;
  mi_srs : srs_ok s;
  mi_dl : map_Forall (fun _ => dl_ids) s.(m_ueMap)
}.

(** What the feedback that is kept and the scheduling requests ask of the UEs *)
Definition keeps_ues (m m' : gmap nat SchedUe) : Prop :=
  forall k ue, m !! k = Some ue -> exists ue', m' !! k = Some ue' /\ ue'.(m_ulHarq).(m_maxSize) = ue.(m_ulHarq).(m_maxSize).

Lemma fb_known_keeps m m' fb : keeps_ues m m' -> fb_known m fb -> fb_known m' fb.
Proof. intros K (R0 & ue & E & I). destruct (K _ _ E) as (ue' & E' & M). split; [done|]. exists ue'. by rewrite M. Qed.

(** The UEs change, the rest of what the invariant is about does not. *)
Lemma mac_wf_ues conf s s' :
  mac_wf conf s -> map_Forall (ue_wf conf) s'.(m_ueMap) -> map_Forall (fun _ => ul_clear) s'.(m_ueMap) ->
  keeps_ues s.(m_ueMap) s'.(m_ueMap) -> s'.(m_ulHarqToRetransmit) = s.(m_ulHarqToRetransmit) ->
  s'.(m_srList) = s.(m_srList) -> s'.(m_rachList) = s.(m_rachList) -> s'.(m_ulTargets) = s.(m_ulTargets) -> mac_wf conf s'.
Proof.
  intros [W1 W2 W3 W4 W5 W6 W7] U C K E1 E2 E3 E4. split; rewrite ?E1, ?E2, ?E3, ?E4; try done.
  - eapply Forall_impl; [exact W3|]. intros fb. by apply fb_known_keeps.
  - eapply Forall_impl; [exact W5|]. intros r [ue E]. destruct (K _ _ E) as (ue' & E' & _). by exists ue'.
Qed.

(** One UE changes, its signals do not. *)
Lemma mac_inv_put conf s rnti ue ue' :
  mac_inv conf s -> s.(m_ueMap) !! ue_key rnti = Some ue -> ue_wf conf (ue_key rnti) ue' -> ul_clear ue' -> dl_ids ue' ->
  ue'.(m_srsPeriodicity) = ue.(m_srsPeriodicity) -> ue'.(m_srsOffset) = ue.(m_srsOffset) ->
  ue'.(m_ulHarq).(m_maxSize) = ue.(m_ulHarq).(m_maxSize) -> mac_inv conf (s <| m_ueMap ::= put_ue rnti ue' |>).
Proof.
  intros [W [S1 S2] D] E Wu Cu Du Sp So Mx. split.
  - eapply mac_wf_ues; [exact W|..|done|done|done|done]; cbn.
    + apply map_Forall_insert_2; [done|apply (mw_ues _ _ W)].
    + apply map_Forall_insert_2; [done|apply (mw_clear _ _ W)].
    + intros k u Eu. unfold put_ue. destruct (decide (k = ue_key rnti)) as [->|Ne].
      * rewrite lookup_insert_eq. exists ue'. split; [done|]. congruence.
      * rewrite lookup_insert_ne by done. by exists u.
  - split; cbn.
    + assert (offsets (put_ue rnti ue' (m_ueMap s)) = offsets (m_ueMap s)) as ->; [|done].
      unfold offsets, put_ue. rewrite fmap_insert, So. do 2 f_equal. apply insert_id. by rewrite lookup_fmap, E.
    + apply map_Forall_insert_2; [rewrite Sp; exact (S2 _ _ E)|done].
  - cbn. by apply map_Forall_insert_2.
Qed.

(** The members the UEs' invariant is not about *)
Lemma mac_inv_other conf s s' :
  mac_inv conf s -> s'.(m_ueMap) = s.(m_ueMap) -> s'.(m_schedulerSrs) = s.(m_schedulerSrs) -> mac_wf conf s' -> mac_inv conf s'.
Proof. intros [W [S1 S2] D] E1 E2 W'. split; [done| |by rewrite E1]. split; by rewrite E1, E2. Qed.

(** ** New UEs *)

Lemma SetMaxSize_lookup n id :
  0 <= n -> procs (SetMaxSize n empty_harq) !! id = if decide (0 <= id < n) then Some idle_process else None.
Proof.
  intros N. cbn. revert id.
  assert (forall k st (m : gmap Z HarqProcess) id, 0 <= k ->
    (forall j, st <= j -> m !! j = None) ->
    foldl (fun m i => match m !! i with Some _ => m | None => <[i := idle_process]> m end) m (seqZ st k) !! id
    = if decide (st <= id < st + k) then Some idle_process else m !! id) as G.
  { intros k st m id K. revert st m. pattern k. apply natlike_ind; [| |exact K]; clear k K.
    - intros st m _. rewrite seqZ_nil by lia. cbn. by rewrite decide_False by lia.
    - intros k K IH st m F. rewrite seqZ_cons by lia. cbn [foldl]. rewrite Z.pred_succ, (F st) by lia. rewrite IH.
      + destruct (decide (id = st)) as [->|Ne].
        * rewrite decide_False by lia. rewrite decide_True by lia. by rewrite lookup_insert_eq.
        * rewrite lookup_insert_ne by done. by repeat case_decide; try lia.
      + intros j Hj. rewrite lookup_insert_ne by lia. apply F. lia. }
  intros id. rewrite G; [|done|by intros]. by rewrite Z.add_0_l.
Qed.

Lemma SetMaxSize_wf R n : 0 <= n <= 255 -> harq_wf R (SetMaxSize n empty_harq).
Proof.
  intros N. split; [done| | |].
  - intros id. rewrite SetMaxSize_lookup by lia. case_decide; split; intros X; try done.
  - change (m_usedSize (SetMaxSize n empty_harq)) with 0. symmetry. unfold active_count.
    rewrite filter_none; [done|]. apply Forall_forall. intros [id p] Hp. apply elem_of_map_to_list in Hp.
    rewrite SetMaxSize_lookup in Hp by lia. case_decide; [|done]. injection Hp as <-. done.
  - intros id p Hp. rewrite SetMaxSize_lookup in Hp by lia. case_decide; [|done]. injection Hp as <-. apply process_wf_idle.
Qed.

Lemma new_ue_wf conf rnti beam v :
  0 <= conf.(GetNumHarqProcess) <= 255 -> 0 <= rnti -> 2 <= v.(srs_periodicity) ->
  ue_wf conf (ue_key rnti) (set_srs v (new_ue conf rnti beam)) /\ ul_clear (set_srs v (new_ue conf rnti beam)) /\
  dl_ids (set_srs v (new_ue conf rnti beam)).
Proof.
  intros N R P. split; [|by split]. unfold ue_key. split; cbn; try done; [lia|apply SetMaxSize_wf; rewrite wrap_small; unfold fits; lia|].
  intros id p d Hp. change (foldl _ ∅ _) with (procs (SetMaxSize (u8 (GetNumHarqProcess conf)) empty_harq)) in Hp.
  rewrite SetMaxSize_lookup in Hp by (rewrite wrap_small; unfold fits; lia). case_decide; [|done]. by injection Hp as <-.
Qed.

Lemma set_srs_wf conf k ue v :
  ue_wf conf k ue -> 2 <= v.(srs_periodicity) -> ue_wf conf k (set_srs v ue).
Proof. intros [W1 W2 W3 W4 W5] P. by split. Qed.
