(* ===== verification/MacRequests.v ===== *)
(** The requests of the MAC keep the invariant of the scheduler, and what a downlink slot needs of the
    UEs; none of them is refused when its precondition holds. *)
From Stdlib Require Import ZArith Lia Lists.List SpecFloat.
From stdpp Require Import base list gmap strings list_numbers.
From coqutil Require Import Datatypes.RecordSettersUsingExistingGetters.
From S2P Require Import Prelude OrdMap Messages UlScheduler UlFacts UlProps Amc AmcProps DlUe CqiManagement CqiProps.
From S2P Require Import DlScheduler DlFacts Dci DlProps DciProps LogicalChannels LcProps Harq Srs SfnSf MacScheduler.
From S2P Require Import ResourceMatrix UlSlot DlSlot SlotLayout UlTiling HarqFacts MacFacts UlGrant UlSlotFacts UlData.
From S2P Require Import UlSlotProps DlGrant DlSlotFacts DlHarq DlData DlSlotProps MacInvariant.
Open Scope Z_scope.
Section requests.
Context `{CppHash, !CppHashLaws} (conf : SchedConf) (Ok_conf : conf_ok conf).

(** ** UEs *)

(** Other UEs and other offsets *)
Lemma mac_inv_ues s m' srs' :
  mac_inv conf s -> map_Forall (ue_wf conf) m' -> map_Forall (fun _ => ul_clear) m' -> map_Forall (fun _ => dl_ids) m' ->
  keeps_ues s.(m_ueMap) m' -> srs_inv srs' (offsets m') ->
  map_Forall (fun _ ue => ue.(m_srsPeriodicity) = srs'.(m_periodicity)) m' ->
  mac_inv conf (s <| m_ueMap := m' |> <| m_schedulerSrs := srs' |>).
Proof. intros I W C D K S P. split; [by eapply mac_wf_ues; [exact (mi_wf _ _ I)|..]|by split|done]. Qed.

(** A UE that is there moves to another beam. *)
Lemma config_old_ok rnti beam s ue :
  mac_inv conf s -> s.(m_ueMap) !! ue_key rnti = Some ue ->
  exists s', DoCschedUeConfigReq conf rnti beam s = Ok s' /\ mac_inv conf s'.
Proof.
  intros I E. unfold DoCschedUeConfigReq. rewrite E. eexists. split; [done|].
  apply (mac_inv_put conf s rnti ue); try done.
  - destruct (mw_ues _ _ (mi_wf _ _ I) _ _ E) as [W1 W2 W3 W4 W5]. by split.
  - exact (mw_clear _ _ (mi_wf _ _ I) _ _ E).
  - exact (mi_dl _ _ I _ _ E).
Qed.

(** What a UE is once its sounding is set *)
Definition set_sound (k : nat) (ue : SchedUe) : Prop :=
  forall v, 2 <= v.(srs_periodicity) -> ue_wf conf k (set_srs v ue) /\ ul_clear (set_srs v ue) /\ dl_ids (set_srs v ue).

Lemma config_sound rnti beam s :
  mac_inv conf s -> 0 <= rnti -> map_Forall set_sound (put_ue rnti (new_ue conf rnti beam) s.(m_ueMap)).
Proof.
  intros I R. apply map_Forall_insert_2.
  - intros v P. by apply new_ue_wf; [apply (co_harq _ Ok_conf)|..].
  - intros k ue E v P. split; [by apply set_srs_wf; [apply (mw_ues _ _ (mi_wf _ _ I))|]|].
    split; [exact (mw_clear _ _ (mi_wf _ _ I) _ _ E)|exact (mi_dl _ _ I _ _ E)].
Qed.

(** A store in which every UE has been given its values *)
Lemma resounded_ok s rnti beam (vs : list (nat * SrsValue)) srs :
  mac_inv conf s -> 0 <= rnti -> s.(m_ueMap) !! ue_key rnti = None ->
  let m := put_ue rnti (new_ue conf rnti beam) s.(m_ueMap) in
  vs.*1 ≡ₚ (map_to_list m).*1 -> srs_inv srs (srs_offset <$> vs.*2) ->
  Forall (fun v => v.(srs_periodicity) = srs.(m_periodicity)) vs.*2 ->
  let m' := foldl (fun (m : gmap nat SchedUe) kv => alter (set_srs kv.2) kv.1 m) m vs in
  mac_inv conf (s <| m_ueMap := m' |> <| m_schedulerSrs := srs |>) /\ is_Some (m' !! ue_key rnti).
Proof.
  intros I R New m K Is F m'. pose proof (config_sound rnti beam s I R) as So. fold m in So.
  assert (NoDup vs.*1) as N by (rewrite K; apply NoDup_fst_map_to_list).
  assert (2 <= srs.(m_periodicity)) as P2 by (destruct Is as [Hp _]; apply standard_positive in Hp; lia).
  assert (forall k ue v, (k, v) ∈ vs -> m !! k = Some ue -> m' !! k = Some (set_srs v ue)) as L.
  { intros k ue v Hv E. unfold m'. rewrite set_values_lookup by done. destruct (set_values_elem vs k v N Hv) as (i & ->). cbn. by rewrite E. }
  assert (forall k ue, m !! k = Some ue -> exists v, (k, v) ∈ vs /\ m' !! k = Some (set_srs v ue) /\ v.(srs_periodicity) = srs.(m_periodicity)) as G.
  { intros k ue E. assert (k ∈ vs.*1) as Hk by (rewrite K; apply list_elem_of_fmap; exists (k, ue); by rewrite elem_of_map_to_list).
    apply list_elem_of_fmap in Hk as ([k' v] & Ek & Hv). cbn in Ek. subst k'. exists v. split; [done|]. split.
    - by apply L.
    - rewrite Forall_forall in F. apply F, list_elem_of_fmap. by exists (k, v). }
  assert (forall k ue', m' !! k = Some ue' -> exists v ue, (k, v) ∈ vs /\ m !! k = Some ue /\ ue' = set_srs v ue /\ v.(srs_periodicity) = srs.(m_periodicity)) as B.
  { intros k ue' E'. destruct (m !! k) as [ue|] eqn:E.
    - destruct (G k ue E) as (v & Hv & Em & Pv). exists v, ue. split; [done|]. split; [done|]. split; [congruence|done].
    - unfold m' in E'. rewrite set_values_lookup, E in E' by done. by destruct (list_find _ vs) as [[? ?]|]. }
  split; [apply mac_inv_ues; [done|..]|].
  - intros k ue' E'. destruct (B k ue' E') as (v & ue & _ & E & -> & Pv). apply So; [done|lia].
  - intros k ue' E'. destruct (B k ue' E') as (v & ue & _ & E & -> & Pv). apply (So k ue E v). lia.
  - intros k ue' E'. destruct (B k ue' E') as (v & ue & _ & E & -> & Pv). apply (So k ue E v). lia.
  - intros k ue E. destruct (G k ue) as (v & _ & Em & _); [|by exists (set_srs v ue)].
    unfold m, put_ue. rewrite lookup_insert_ne; [done|]. intros <-. congruence.
  - destruct Is as [Is1 Is2]. split; [done|]. rewrite <- Is2. apply Permutation_app_head. apply offsets_values; [done|..].
    + intros k [ue' E']. destruct (B k ue' E') as (v & ue & Hv & _). apply list_elem_of_fmap. by exists (k, v).
    + intros k v Hv. assert (k ∈ (map_to_list m).*1) as Hk by (rewrite <- K; apply list_elem_of_fmap; by exists (k, v)).
      apply list_elem_of_fmap in Hk as ([k' ue] & Ek & E%elem_of_map_to_list). cbn in Ek. subst k'.
      exists (set_srs v ue). split; [by apply L|done].
  - intros k ue' E'. destruct (B k ue' E') as (v & ue & _ & _ & -> & Pv). exact Pv.
  - destruct (G (ue_key rnti) (new_ue conf rnti beam)) as (v & _ & Em & _); [apply lookup_insert_eq|by exists (set_srs v (new_ue conf rnti beam))].
Qed.

(** A new UE is given an offset of its own; when none is free the period grows, which it cannot do
    beyond 2560. *)
Lemma config_new_ok rnti beam s :
  mac_inv conf s -> 0 <= rnti -> s.(m_ueMap) !! ue_key rnti = None -> (size s.(m_ueMap) < 2560)%nat ->
  exists s', DoCschedUeConfigReq conf rnti beam s = Ok s' /\ mac_inv conf s' /\ is_Some (s'.(m_ueMap) !! ue_key rnti).
Proof.
  intros I R New Sz. unfold DoCschedUeConfigReq. rewrite New. set (m := put_ue rnti (new_ue conf rnti beam) _).
  destruct (mi_srs _ _ I) as [Si Sp]. pose proof (AddUe_spec _ _ Si) as A. destruct (AddUe _) as [[v|] srs].
  - destruct A as (Si' & Pv & Ps & _). eexists. split; [done|]. cbn.
    assert (alter (set_srs v) (ue_key rnti) m = <[ue_key rnti := set_srs v (new_ue conf rnti beam)]> s.(m_ueMap)) as Em.
    { unfold m, put_ue. by rewrite alter_insert_eq. }
    assert (2 <= v.(srs_periodicity)) as P2 by (destruct Si as [Hp _]; apply standard_positive in Hp; lia).
    destruct (new_ue_wf conf rnti beam v (co_harq _ Ok_conf) R P2) as (Wn & Cn & Dn). rewrite Em. split; [|eexists; apply lookup_insert_eq].
    apply mac_inv_ues; [done|..].
    + apply map_Forall_insert_2; [done|apply (mw_ues _ _ (mi_wf _ _ I))].
    + apply map_Forall_insert_2; [done|apply (mw_clear _ _ (mi_wf _ _ I))].
    + apply map_Forall_insert_2; [done|apply (mi_dl _ _ I)].
    + intros k ue E. exists ue. split; [|done]. rewrite lookup_insert_ne; [done|]. intros <-. congruence.
    + destruct Si' as [Si1 Si2]. split; [done|]. rewrite <- Si2. apply Permutation_app_head. by rewrite offsets_insert.
    + apply map_Forall_insert_2; [change (srs_periodicity v = m_periodicity srs); congruence|]. by rewrite Ps.
  - destruct A as [-> Em]. destruct Si as [Si1 Si2]. rewrite Em in Si2. cbn [app] in Si2.
    apply Permutation_length in Si2. rewrite offsets_size, length_seqZ in Si2.
    pose proof (standard_positive _ Si1) as Hp.
    assert (size m = S (size s.(m_ueMap))) as Szm by (unfold m, put_ue; by rewrite map_size_insert_None).
    destruct (IncreasePeriodicity_spec (hashed (map_to_list m)).*1 s.(m_schedulerSrs) Si1) as (vs & srs' & -> & Kv & Iv & _ & Fv).
    + lia.
    + rewrite length_fmap, (Permutation_length (hashed_perm _)), length_map_to_list. lia.
    + cbn [res_bind fst snd]. eexists. split; [done|].
      assert (vs.*1 ≡ₚ (map_to_list m).*1) as K by (by rewrite Kv, hashed_perm). by apply (resounded_ok s rnti beam vs srs').
Qed.
(** A UE leaves: the offset it had is free again. *)
Lemma release_ok rnti s ue :
  mac_inv conf s -> s.(m_ueMap) !! ue_key rnti = Some ue ->
  Forall (fun r => ue_key r <> ue_key rnti) s.(m_srList) ->
  Forall (fun fb => ue_key fb.(fb_rnti) <> ue_key rnti) s.(m_ulHarqToRetransmit) ->
  exists s', DoCschedUeReleaseReq rnti s = Ok s' /\ mac_inv conf s' /\ s'.(m_ueMap) = delete (ue_key rnti) s.(m_ueMap).
Proof.
  intros [[W1 W2 W3 W4 W5 W6 W7] [S1 S2] D] E Sr Kp. unfold DoCschedUeReleaseReq. rewrite (find_ue_ok _ _ _ E). cbn [res_bind].
  eexists. split; [done|]. split; [|done]. split.
  - split; try done.
    + by apply map_Forall_delete.
    + by apply map_Forall_delete.
    + apply Forall_forall. intros fb Hfb. rewrite Forall_forall in W3, Kp. destruct (W3 fb Hfb) as (R & u & Eu & Iu).
      split; [done|]. exists u. split; [|done]. etrans; [apply lookup_delete_ne; intros Q; by apply (Kp fb Hfb)|done].
    + apply Forall_forall. intros r Hr. rewrite Forall_forall in W5, Sr. destruct (W5 r Hr) as [u Eu].
      exists u. etrans; [apply lookup_delete_ne; intros Q; by apply (Sr r Hr)|done].
  - split; [|by apply map_Forall_delete]. apply RemoveUe_spec. destruct S1 as [S11 S12]. split; [done|].
    by rewrite <- (offsets_delete _ _ _ E).
  - by apply map_Forall_delete.
Qed.

(** ** Logical channels *)

Lemma lcg_insert_ok lc (lcg : NrMacSchedulerLCG) :
  lcg !! lc.(lc_id) = None -> LcgInsert lc lcg = Ok (<[lc.(lc_id) := lc]> lcg).
Proof. intros E. unfold LcgInsert, Contains. rewrite bool_decide_false by (rewrite E; by intros []). done. Qed.

Lemma CreateLC_wf c : lc_wf (CreateLC c).
Proof. repeat split; cbn; lia. Qed.

Lemma config_ul_ok c m :
  map_Forall (fun _ => lcg_wf) m -> exists m', config_ul c m = Ok m' /\ map_Forall (fun _ => lcg_wf) m'.
Proof.
  intros W. unfold config_ul, get_lcg. destruct (m !! _) as [lcg|] eqn:E; cbn [default from_option].
  - pose proof (W _ _ E) as Wg. destruct Wg as (c' & lc & -> & Wc).
    match goal with |- context [NumOfLC ?x] => assert (NumOfLC x = 1) as -> by exact (f_equal Z.of_nat (map_size_singleton c' lc)) end.
    change (1 =? 0) with false. cbn [res_bind].
    eexists. split; [done|]. apply map_Forall_insert_2; [|done]. by exists c', lc.
  - change (NumOfLC ∅ =? 0) with true. cbn [res_bind]. rewrite lcg_insert_ok by apply lookup_empty. cbn [res_bind]. eexists. split; [done|].
    apply map_Forall_insert_2; [|done]. eexists _, _. split; [by apply insert_empty|]. apply CreateLC_wf.
Qed.

(** The channels of a UE in the downlink *)
Definition has_dl (ue : SchedUe) (lcid : Z) : Prop := exists g lcg, ue.(m_dlLCG) !! g = Some lcg /\ is_Some (lcg !! lcid).

Lemma config_dl_ok c m :
  map_Forall (fun _ lcg => map_Forall (fun c lc => lc.(lc_id) = c) (lcg : NrMacSchedulerLCG)) m ->
  (forall g lcg, m !! g = Some lcg -> lcg !! c.(m_logicalChannelIdentity) = None) ->
  exists m', config_dl c m = Ok m' /\
    map_Forall (fun _ lcg => map_Forall (fun c lc => lc.(lc_id) = c) (lcg : NrMacSchedulerLCG)) m' /\
    forall g lcg id, m' !! g = Some lcg -> is_Some (lcg !! id) ->
      id = c.(m_logicalChannelIdentity) \/ exists lcg', m !! g = Some lcg' /\ is_Some (lcg' !! id).
Proof.
  intros D N. unfold config_dl, get_lcg. set (lcg := default ∅ _).
  assert (lcg !! c.(m_logicalChannelIdentity) = None) as Nc.
  { unfold lcg. destruct (m !! _) as [x|] eqn:E; [by apply (N _ _ E)|apply lookup_empty]. }
  rewrite lcg_insert_ok by done. cbn [res_bind]. eexists. split; [done|]. split.
  - apply map_Forall_insert_2; [|done]. apply map_Forall_insert_2; [done|].
    unfold lcg. destruct (m !! _) as [x|] eqn:E; [by apply (D _ _ E)|apply map_Forall_empty].
  - intros g lcg' id E I. destruct (decide (g = m_logicalChannelGroup c)) as [->|Ng].
    + rewrite lookup_insert_eq in E. injection E as <-. change (lc_id (CreateLC (m_logicalChannelIdentity c))) with (m_logicalChannelIdentity c) in I.
      destruct (decide (id = m_logicalChannelIdentity c)) as [->|Ni]; [by left|right].
      match type of I with is_Some ?x => assert (x = lcg !! id) as Ei by (by apply lookup_insert_ne) end. rewrite Ei in I.
      unfold lcg in I. destruct (m !! m_logicalChannelGroup c) as [x|] eqn:Em; [|by destruct I as [? Q]].
      by exists x.
    + rewrite lookup_insert_ne in E by done. right. by exists lcg'.
Qed.
(** What a change of the channels leaves as it was *)
Definition same_harq (u v : SchedUe) : Prop :=
  v.(m_srsPeriodicity) = u.(m_srsPeriodicity) /\ v.(m_srsOffset) = u.(m_srsOffset) /\ v.(m_ulHarq) = u.(m_ulHarq).

Definition sound_ue (k : nat) (ue : SchedUe) : Prop := ue_wf conf k ue /\ ul_clear ue /\ dl_ids ue.

Lemma set_groups_ok k ue dl ul :
  sound_ue k ue -> map_Forall (fun _ lcg => map_Forall (fun c lc => lc.(lc_id) = c) (lcg : NrMacSchedulerLCG)) dl ->
  map_Forall (fun _ => lcg_wf) ul ->
  sound_ue k (ue <| m_dlLCG := dl |> <| m_ulLCG := ul |>) /\ same_harq ue (ue <| m_dlLCG := dl |> <| m_ulLCG := ul |>).
Proof. intros ([W1 W2 W3 W4 W5] & C & D) Hd Hu. split; [|done]. split; [by split|done]. Qed.

Lemma mac_inv_sound s rnti ue ue' :
  mac_inv conf s -> s.(m_ueMap) !! ue_key rnti = Some ue -> sound_ue (ue_key rnti) ue' -> same_harq ue ue' ->
  mac_inv conf (s <| m_ueMap ::= put_ue rnti ue' |>).
Proof. intros I E (W & C & D) (P & O & M). apply (mac_inv_put conf s rnti ue); try done. by rewrite M. Qed.

Lemma sound_at s rnti ue : mac_inv conf s -> s.(m_ueMap) !! ue_key rnti = Some ue -> sound_ue (ue_key rnti) ue.
Proof. intros [W _ D] E. split; [exact (mw_ues _ _ W _ _ E)|]. split; [exact (mw_clear _ _ W _ _ E)|exact (D _ _ E)]. Qed.

Definition in_dl (c : LcConfig) : Prop := c.(m_direction) = DIR_DL \/ c.(m_direction) = DIR_BOTH.
#[export] Instance in_dl_dec c : Decision (in_dl c).
Proof. unfold in_dl. destruct (m_direction c); [right|left|left|right]; naive_solver. Defined.

Lemma config_lc_ok k c ue :
  sound_ue k ue -> (in_dl c -> ~ has_dl ue c.(m_logicalChannelIdentity)) ->
  exists ue', config_lc c ue = Ok ue' /\ sound_ue k ue' /\ same_harq ue ue' /\
    forall id, has_dl ue' id -> (in_dl c /\ id = c.(m_logicalChannelIdentity)) \/ has_dl ue id.
Proof.
  intros S N. pose proof S as (W & C & D). unfold config_lc.
  assert (exists dl, match m_direction c with DIR_DL | DIR_BOTH => config_dl c (m_dlLCG ue) | _ => Ok (m_dlLCG ue) end = Ok dl /\
    map_Forall (fun _ lcg => map_Forall (fun c lc => lc.(lc_id) = c) (lcg : NrMacSchedulerLCG)) dl /\
    forall g lcg id, dl !! g = Some lcg -> is_Some (lcg !! id) -> (in_dl c /\ id = c.(m_logicalChannelIdentity)) \/ has_dl ue id)
    as (dl & -> & Dd & Hd).
  { destruct (decide (in_dl c)) as [Hin|Hno].
    - destruct (config_dl_ok c ue.(m_dlLCG) D) as (dl & E & Dd & Hd).
      { intros g lcg E. apply eq_None_not_Some. intros Q. apply (N Hin). by exists g, lcg. }
      exists dl. split; [by destruct Hin as [Q|Q]; rewrite Q|]. split; [done|]. intros g lcg id E' I.
      destruct (Hd g lcg id E' I) as [->|(lcg' & E2 & I2)]; [by left|right; by exists g, lcg'].
    - exists ue.(m_dlLCG). split; [destruct (m_direction c) eqn:Q; unfold in_dl in Hno; rewrite ?Q in Hno; naive_solver|]. split; [exact D|].
      intros g lcg id E I. right. by exists g, lcg. }
  cbn [res_bind].
  assert (exists ul, match m_direction c with DIR_UL | DIR_BOTH => config_ul c (m_ulLCG ue) | _ => Ok (m_ulLCG ue) end = Ok ul /\
    map_Forall (fun _ => lcg_wf) ul) as (ul & -> & Wu).
  { destruct (config_ul_ok c ue.(m_ulLCG) (uw_lcgs _ _ _ W)) as (ul & E & Wu).
    destruct (m_direction c); eexists; (split; [done|]); (exact (uw_lcgs _ _ _ W) || exact Wu). }
  cbn [res_bind]. eexists. split; [done|]. destruct (set_groups_ok k ue dl ul S Dd Wu) as [S' H']. split; [done|]. split; [done|].
  intros id (g & lcg & E & I). exact (Hd g lcg id E I).
Qed.

Lemma config_lcs_ok k channels ue :
  sound_ue k ue -> Forall (fun c => in_dl c -> ~ has_dl ue c.(m_logicalChannelIdentity)) channels ->
  NoDup (m_logicalChannelIdentity <$> filter in_dl channels) ->
  exists ue', res_fold config_lc channels ue = Ok ue' /\ sound_ue k ue' /\ same_harq ue ue'.
Proof.
  revert ue. induction channels as [|c l IH]; intros ue S F N; cbn [res_fold]; [by exists ue|].
  apply Forall_cons in F as [Fc Fl]. destruct (config_lc_ok k c ue S Fc) as (ue' & -> & S' & H' & Q). cbn [res_bind].
  rewrite filter_cons in N. destruct (IH ue' S') as (ue'' & -> & S'' & H'').
  - apply Forall_forall. intros c' Hc' I' Hd. rewrite Forall_forall in Fl. destruct (Q _ Hd) as [[Ic E]|Hu]; [|by eapply Fl].
    rewrite decide_True in N by done. cbn in N. apply NoDup_cons in N as [Nc _]. apply Nc. apply list_elem_of_fmap. exists c'.
    split; [done|]. by apply list_elem_of_filter.
  - case_decide; [|done]. cbn in N. by apply NoDup_cons in N as [_ N].
  - exists ue''. split; [done|]. split; [done|]. unfold same_harq in *. intuition congruence.
Qed.

Lemma config_channels_ok rnti channels s ue :
  mac_inv conf s -> s.(m_ueMap) !! ue_key rnti = Some ue ->
  Forall (fun c => in_dl c -> ~ has_dl ue c.(m_logicalChannelIdentity)) channels ->
  NoDup (m_logicalChannelIdentity <$> filter in_dl channels) ->
  exists s', DoCschedLcConfigReq rnti channels s = Ok s' /\ mac_inv conf s'.
Proof.
  intros I E F N. unfold DoCschedLcConfigReq. rewrite (find_ue_ok _ _ _ E). cbn [res_bind].
  destruct (config_lcs_ok _ channels ue (sound_at _ _ _ I E) F N) as (ue' & -> & S & H'). cbn [res_bind].
  eexists. split; [done|]. by apply (mac_inv_sound s rnti ue).
Qed.

(** Channels are released one by one; groups that lose their last channel go. *)
Lemma release_lcgs_ok k lcid ue : sound_ue k ue -> sound_ue k (ReleaseLC lcid ue) /\ same_harq ue (ReleaseLC lcid ue).
Proof.
  intros S. pose proof S as (W & C & D). apply (set_groups_ok k ue (release_lcg lcid ue.(m_dlLCG)) (release_lcg lcid ue.(m_ulLCG)) S).
  - intros g lcg [E _]%map_lookup_filter_Some. rewrite lookup_fmap in E. apply fmap_Some in E as (x & Ex & ->).
    apply map_Forall_delete. exact (D _ _ Ex).
  - intros g lcg [E Ne]%map_lookup_filter_Some. rewrite lookup_fmap in E. apply fmap_Some in E as (x & Ex & ->).
    destruct (uw_lcgs _ _ _ W _ _ Ex) as (c & lc & -> & Wc). cbn in Ne. unfold LcgReleaseLC in *.
    destruct (decide (c = lcid)) as [->|Nc]; [exfalso; apply Ne; apply (delete_singleton_eq (M := gmap Z))|]. exists c, lc. split; [by apply delete_singleton_ne|done].
Qed.

Lemma release_channels_ok rnti lcIds s :
  mac_inv conf s -> is_Some (s.(m_ueMap) !! ue_key rnti) ->
  exists s', DoCschedLcReleaseReq rnti lcIds s = Ok s' /\ mac_inv conf s'.
Proof.
  unfold DoCschedLcReleaseReq. revert s. induction lcIds as [|c l IH]; intros s I [ue E]; cbn [res_fold]; [by exists s|].
  rewrite (find_ue_ok _ _ _ E). cbn [res_bind]. destruct (release_lcgs_ok _ c ue (sound_at _ _ _ I E)) as [S' H'].
  apply IH; [by apply (mac_inv_sound s rnti ue)|]. eexists. apply lookup_insert_eq.
Qed.

(** ** Reports *)

(** The report of the RLC about a channel; a channel that is not there is passed over. *)
Lemma buffer_report_ok params s :
  mac_inv conf s -> is_Some (s.(m_ueMap) !! ue_key params.(req_rnti)) ->
  exists s', DoSchedDlRlcBufferReq params s = Ok s' /\ mac_inv conf s'.
Proof.
  intros I [ue E]. unfold DoSchedDlRlcBufferReq. rewrite (find_ue_ok _ _ _ E). cbn [res_bind].
  destruct (filter _ (hashed _)) as [|[g lcg] l] eqn:Ef; [by exists s|].
  assert ((g, lcg) ∈ filter (fun g => Contains (req_lcId params) g.2 = true) (hashed (map_to_list ue.(m_dlLCG)))) as Hg by (rewrite Ef; by left).
  apply list_elem_of_filter in Hg as [Hc Hg]. cbn in Hc. unfold Contains in Hc. apply bool_decide_eq_true in Hc as [lc Elc].
  rewrite hashed_perm, elem_of_map_to_list in Hg. pose proof (sound_at _ _ _ I E) as S. pose proof S as (W & C & D).
  pose proof (D _ _ Hg _ _ Elc) as Id. cbn in Id. unfold LcgUpdateInfo, lc_at. rewrite Elc. cbn [res_bind]. unfold LcUpdate.
  rewrite Id, Z.eqb_refl. cbn [negb abort_if res_bind]. eexists. split; [done|].
  apply (mac_inv_sound s _ ue); [done|done|..].
  - destruct W as [W1 W2 W3 W4 W5]. split; [by split|]. split; [done|]. apply map_Forall_insert_2; [|done].
    apply map_Forall_insert_2; [done|exact (D _ _ Hg)].
  - done.
Qed.

Lemma level_range b : 0 <= FromLevelToBytes b <= 1200000.
Proof.
  unfold FromLevelToBytes. destruct (30 <? b); [lia|].
  assert (Forall (fun x => 0 <= x <= 1200000) lookupVector) as F by (repeat (constructor; [lia|]); constructor).
  destruct (decide (Z.to_nat b < length lookupVector)%nat) as [L|L]; [|rewrite nth_overflow by lia; lia].
  rewrite Forall_forall in F. apply F, list_elem_of_In, nth_In. exact L.
Qed.

(** The report of a UE about its groups *)
Lemma bsr_ok bsr s :
  mac_inv conf s -> is_Some (s.(m_ueMap) !! ue_key bsr.(ce_rnti)) -> (4 <= length bsr.(m_bufferStatus))%nat ->
  exists s', BSRReceivedFromUe bsr s = Ok s' /\ mac_inv conf s' /\
    forall k, is_Some (s.(m_ueMap) !! k) -> is_Some (s'.(m_ueMap) !! k).
Proof.
  intros I [ue E] L. unfold BSRReceivedFromUe. rewrite (find_ue_ok _ _ _ E). cbn [res_bind].
  pose proof (sound_at _ _ _ I E) as S. pose proof S as (W & C & D).
  assert (forall l (m : gmap Z NrMacSchedulerLCG), Forall (fun g => 0 <= g < 4) l -> map_Forall (fun _ => lcg_wf) m ->
    exists m' : gmap Z NrMacSchedulerLCG, res_fold (fun lcg (m : gmap Z NrMacSchedulerLCG) =>
      let* bsrId := vec_at bsr.(m_bufferStatus) lcg in
      let bufSize := FromLevelToBytes bsrId in
      match m !! lcg with
      | None => Ok m
      | Some g => let* g := LcgUpdateQueue bufSize g in Ok (<[lcg := g]> m)
      end) l m = Ok m' /\ map_Forall (fun _ => lcg_wf) m') as G.
  { induction l as [|g l IH]; intros m Fl Wm; cbn [res_fold]; [by exists m|]. apply Forall_cons in Fl as [Hg Fl].
    unfold vec_at. destruct (lookup_lt_is_Some_2 (m_bufferStatus bsr) (Z.to_nat g) ltac:(lia)) as [b ->]. cbn [res_bind].
    destruct (m !! g) as [lcg|] eqn:Em; [|cbn [res_bind]; by apply IH].
    pose proof (level_range b). destruct (LcgUpdateQueue_ok (FromLevelToBytes b) lcg (Wm _ _ Em) ltac:(lia)) as (lcg' & -> & Wl). cbn [res_bind].
    apply IH; [done|]. by apply map_Forall_insert_2. }
  destruct (G (seqZ 0 4) ue.(m_ulLCG)) as (m' & Em & Wm); [apply Forall_forall; intros x Hx%elem_of_seqZ; lia|exact (uw_lcgs _ _ _ W)|].
  match goal with |- context [res_bind ?x _] => assert (x = Ok m') as -> by exact Em end.
  cbn [res_bind]. eexists. split; [done|]. split.
  - apply (mac_inv_sound s _ ue); [done|done| |done]. destruct W as [W1 W2 W3 W4 W5]. split; [by split|done].
  - intros k [u Eu]. destruct (decide (k = ue_key (ce_rnti bsr))) as [->|Ne]; [eexists; apply lookup_insert_eq|].
    exists u. etrans; [by apply lookup_insert_ne|done].
Qed.

Definition ce_ok (m : gmap nat SchedUe) (ce : MacCeElement) : Prop :=
  ce.(m_macCeType) = BSR -> is_Some (m !! ue_key ce.(ce_rnti)) /\ (4 <= length ce.(m_bufferStatus))%nat.

Lemma ctrl_info_ok elements s :
  mac_inv conf s -> Forall (ce_ok s.(m_ueMap)) elements ->
  exists s', DoSchedUlMacCtrlInfoReq elements s = Ok s' /\ mac_inv conf s'.
Proof.
  unfold DoSchedUlMacCtrlInfoReq. revert s. induction elements as [|e l IH]; intros s I F; cbn [res_fold]; [by exists s|].
  apply Forall_cons in F as [Fe Fl]. destruct (m_macCeType e) eqn:T; cbn [res_bind]; [|by apply IH..].
  destruct (Fe T) as [K L]. destruct (bsr_ok e s I K L) as (s' & -> & I' & M). cbn [res_bind]. apply IH; [done|].
  eapply Forall_impl; [exact Fl|]. intros x Hx T'. destruct (Hx T') as [? ?]. auto.
Qed.

(** Scheduling requests: each UE is listed once. *)
Lemma merge_sr_ok (l known : list Z) :
  let l' := foldl (fun l ue => if bool_decide (ue ∈ l) then l else l ++ [ue]) known l in
  forall r, r ∈ l' <-> r ∈ known \/ r ∈ l.
Proof.
  cbn. revert known. induction l as [|a l IH]; intros known r; cbn [foldl]; [set_solver|].
  rewrite IH. case_bool_decide as Ha; [|set_solver]. split; [set_solver|]. intros [?|[->|?]%elem_of_cons]; auto.
Qed.

Lemma sr_info_ok srList s :
  mac_inv conf s -> Forall (fun r => is_Some (s.(m_ueMap) !! ue_key r)) srList -> NoDup srList ->
  exists s', DoSchedUlSrInfoReq srList s = Ok s' /\ mac_inv conf s' /\ forall r, r ∈ s'.(m_srList) <-> r ∈ s.(m_srList) \/ r ∈ srList.
Proof.
  intros I F N. unfold DoSchedUlSrInfoReq. pose proof (merge_sr_ok srList s.(m_srList)) as M. cbn in M. set (l := foldl _ _ _) in *.
  assert (length srList <= length l)%nat as L.
  { apply submseteq_length, NoDup_submseteq; [done|]. intros r Hr. apply M. by right. }
  rewrite (proj2 (Nat.ltb_ge _ _)) by done. cbn [abort_if res_bind]. eexists. split; [done|]. split; [|done].
  apply (mac_inv_other conf s); [done|done|done|]. destruct (mi_wf _ _ I) as [W1 W2 W3 W4 W5 W6 W7]. split; try done.
  apply Forall_forall. intros r Hr. apply M in Hr as [Hr|Hr]; [rewrite Forall_forall in W5; auto|rewrite Forall_forall in F; auto].
Qed.

Lemma rach_ok rachList s :
  mac_inv conf s -> Forall (fun r => 0 < r.(m_estimatedSize)) rachList -> mac_inv conf (DoSchedDlRachInfoReq rachList s).
Proof. intros I F. apply (mac_inv_other conf s); [done|done|done|]. destruct (mi_wf _ _ I) as [W1 W2 W3 W4 W5 W6 W7]. by split. Qed.

Lemma targets_ok targets s :
  mac_inv conf s -> map_Forall (fun _ t => 0 <= t) targets -> mac_inv conf (SetUlTargets targets s).
Proof. intros I F. apply (mac_inv_other conf s); [done|done|done|]. destruct (mi_wf _ _ I) as [W1 W2 W3 W4 W5 W6 W7]. by split. Qed.

(** The planned shuffle of the free offsets *)
Lemma shuffle_ok `{CppShuffle, !CppShuffleLaws} s :
  mac_inv conf s -> mac_inv conf (s <| m_schedulerSrs ::= ShuffleOffsets |>).
Proof. intros [W [S1 S2] D]. split; [by destruct W|split; [by apply ShuffleOffsets_spec|done]|done]. Qed.
End requests.

(** The channels of the downlink, at most three, whatever they hold *)
Definition few_channels (chans : list (Z * Z)) (lcgs : gmap Z NrMacSchedulerLCG) : Prop :=
  forall g lcg c lc, lcgs !! g = Some lcg -> lcg !! c = Some lc -> (g, c) ∈ chans /\ lc.(lc_id) = c /\ dl_lc_ok lc.

Lemma few_ok chans lcgs : (length chans <= 3)%nat -> few_channels chans lcgs -> dl_groups_ok lcgs.
Proof. intros L F. by exists chans. Qed.

Lemma few_put chans lcgs g (lcg : NrMacSchedulerLCG) :
  few_channels chans lcgs -> (forall c lc, lcg !! c = Some lc -> (g, c) ∈ chans /\ lc.(lc_id) = c /\ dl_lc_ok lc) ->
  few_channels chans (<[g := lcg]> lcgs).
Proof.
  intros F G g' lcg' c lc. destruct (decide (g' = g)) as [->|Ne]; [|rewrite lookup_insert_ne by done; apply F].
  rewrite lookup_insert_eq. intros [= <-]. apply G.
Qed.

(** A channel that is new has nothing to send. *)
Lemma CreateLC_dl c : dl_lc_ok (CreateLC c).
Proof. split; cbn; (split; [unfold fits; lia|by left]). Qed.

Lemma config_dl_few chans c m m' :
  config_dl c m = Ok m' -> few_channels chans m -> (m_logicalChannelGroup c, m_logicalChannelIdentity c) ∈ chans -> few_channels chans m'.
Proof.
  unfold config_dl, LcgInsert. destruct (Contains _ _); [done|]. cbn [abort_if res_bind]. intros [= <-] F I.
  apply few_put; [done|]. intros id lc. destruct (decide (id = m_logicalChannelIdentity c)) as [->|Ne].
  - intros E. assert (lc = CreateLC (m_logicalChannelIdentity c)) as ->; [|by split; [|split; [|apply CreateLC_dl]]].
    enough (Some lc = Some (CreateLC (m_logicalChannelIdentity c))) as Q by (by injection Q). rewrite <- E. apply lookup_insert_eq.
  - intros E. unfold get_lcg in E. destruct (m !! m_logicalChannelGroup c) as [x|] eqn:Ex; cbn [default from_option] in E.
    + apply (F _ x); [done|]. rewrite <- E. symmetry. by apply lookup_insert_ne.
    + exfalso. assert ((∅ : NrMacSchedulerLCG) !! id = Some lc) as Q by (rewrite <- E; symmetry; by apply lookup_insert_ne).
      assert ((∅ : NrMacSchedulerLCG) !! id = None) as N by apply lookup_empty. by rewrite N in Q.
Qed.

(** Only the groups of a UE change. *)
Definition groups_only (u v : SchedUe) : Prop := exists dl ul, v = u <| m_dlLCG := dl |> <| m_ulLCG := ul |>.

Lemma config_lcs_few chans channels ue ue' :
  res_fold config_lc channels ue = Ok ue' -> few_channels chans ue.(m_dlLCG) ->
  Forall (fun c => in_dl c -> (m_logicalChannelGroup c, m_logicalChannelIdentity c) ∈ chans) channels ->
  few_channels chans ue'.(m_dlLCG) /\ groups_only ue ue'.
Proof.
  revert ue. induction channels as [|c l IH]; intros ue; cbn [res_fold].
  { intros [= <-] F _. split; [done|]. exists (m_dlLCG ue), (m_ulLCG ue). by destruct ue. }
  intros E F [Fc Fl]%Forall_cons. unfold config_lc at 1 in E.
  destruct (match m_direction c with DIR_DL | DIR_BOTH => config_dl c (m_dlLCG ue) | _ => Ok (m_dlLCG ue) end) as [dl|] eqn:Ed; [|done].
  cbn [res_bind] in E. destruct (match m_direction c with DIR_UL | DIR_BOTH => config_ul c (m_ulLCG ue) | _ => Ok (m_ulLCG ue) end) as [ul|]; [|done]. cbn [res_bind] in E.
  destruct (IH _ E) as (F' & dl' & ul' & ->); [|done|].
  - change (few_channels chans dl). destruct (m_direction c) eqn:D; try (injection Ed as <-; done);
      (eapply config_dl_few; [exact Ed|done|apply Fc; unfold in_dl; rewrite D; auto]).
  - split; [exact F'|]. exists dl', ul'. by destruct ue.
Qed.

Lemma release_few chans lcid m : few_channels chans m -> few_channels chans (release_lcg lcid m).
Proof.
  intros F g lcg c lc [E _]%map_lookup_filter_Some. rewrite lookup_fmap in E. apply fmap_Some in E as (x & Ex & ->).
  unfold LcgReleaseLC. intros [_ El]%(lookup_delete_Some (M := gmap Z)). by apply (F g x).
Qed.

(** A report about a queue: it is empty or holds more than the header of a sub-PDU. *)
Definition report_sizes (params : RlcBufferReq) : Prop :=
  (0 <= params.(req_txQueueSize) < 2 ^ 31 /\ queue_ok params.(req_txQueueSize)) /\
  (0 <= params.(req_retxQueueSize) < 2 ^ 30 /\ queue_ok params.(req_retxQueueSize)) /\
  (fits 16 params.(req_statusPduSize) /\ queue_ok params.(req_statusPduSize)).

Section down.
Context `{CppHash, !CppHashLaws} `{LibM} (conf : SchedConf) (Ok_conf : conf_ok conf) (amc : Amc) (em : NrErrorModel) `{!ErrorModelLaws em} (nsb : Z).
Context (Ok_dl : dl_conf_ok conf amc em).
Abbreviation uwf := (dl_ue_wf conf em nsb).

Definition dl_sound (k : nat) (ue : SchedUe) : Prop := uwf k ue /\ dl_clear ue.

Record dl_inv (s : MacSched) : Prop := {
  di_ues : map_Forall dl_sound s.(m_ueMap);
  di_kept : Forall (known DL s.(m_ueMap)) s.(m_dlHarqToRetransmit)
}.

(** The UEs stay, with as many processes. *)
Definition keeps_dl (m m' : gmap nat SchedUe) : Prop :=
  forall k ue, m !! k = Some ue -> exists ue', m' !! k = Some ue' /\ ue'.(m_dlHarq).(m_maxSize) = ue.(m_dlHarq).(m_maxSize).

Lemma keeps_dl_refl m : keeps_dl m m.
Proof. intros k ue E. by exists ue. Qed.
Lemma keeps_dl_trans m m' m'' : keeps_dl m m' -> keeps_dl m' m'' -> keeps_dl m m''.
Proof. intros A B k ue E. destruct (A k ue E) as (u & Eu & Q). destruct (B k u Eu) as (v & Ev & Q'). exists v. split; [done|congruence]. Qed.

Lemma dl_inv_ues s s' :
  dl_inv s -> map_Forall dl_sound s'.(m_ueMap) -> keeps_dl s.(m_ueMap) s'.(m_ueMap) ->
  s'.(m_dlHarqToRetransmit) = s.(m_dlHarqToRetransmit) -> dl_inv s'.
Proof.
  intros [U K] U' Kp E. split; [done|]. rewrite E. eapply Forall_impl; [exact K|]. intros fb (R0 & ue & Eu & I).
  split; [done|]. destruct (Kp _ _ Eu) as (ue' & Eu' & M). exists ue'. split; [done|]. cbn [harq_of] in *. by rewrite M.
Qed.

Lemma dl_inv_put s rnti ue ue' :
  dl_inv s -> s.(m_ueMap) !! ue_key rnti = Some ue -> dl_sound (ue_key rnti) ue' ->
  ue'.(m_dlHarq).(m_maxSize) = ue.(m_dlHarq).(m_maxSize) -> dl_inv (s <| m_ueMap ::= put_ue rnti ue' |>).
Proof.
  intros I E S M. eapply dl_inv_ues; [exact I|..|done]; cbn.
  - apply map_Forall_insert_2; [done|apply (di_ues _ I)].
  - intros k u Eu. unfold put_ue. destruct (decide (k = ue_key rnti)) as [->|Ne].
    + rewrite lookup_insert_eq. exists ue'. split; [done|]. congruence.
    + rewrite lookup_insert_ne by done. by exists u.
Qed.

(** The downlink of a UE is the same. *)
Lemma dl_sound_same k u v :
  dl_sound k u -> v.(ue_dl) = u.(ue_dl) -> v.(m_dlLCG) = u.(m_dlLCG) -> v.(m_dlHarq) = u.(m_dlHarq) -> has_rnti k v -> dl_sound k v.
Proof.
  intros [[X1 X2 [X3 X3'] X4 X5 X6 X7] C] E1 E2 E3 R. unfold dl_sound, dl_clear. rewrite E1. split; [|done].
  split; rewrite ?E1, ?E2; try done. split; cbn [harq_of] in *; by rewrite E3.
Qed.

Lemma dl_sound_groups k u v :
  dl_sound k u -> groups_only u v -> dl_groups_ok v.(m_dlLCG) -> dl_sound k v.
Proof. intros [[X1 X2 [X3 X3'] X4 X5 X6 X7] C] (dl & ul & ->) G. split; [|exact C]. by split. Qed.

(** ** UEs *)

Lemma dl_sound_srs k ue v : dl_sound k ue -> dl_sound k (set_srs v ue) /\ m_dlHarq (set_srs v ue) = m_dlHarq ue.
Proof. intros S. split; [|done]. eapply dl_sound_same; [exact S|done|done|done|]. exact (dw_ul _ _ _ _ _ (proj1 S)). Qed.

Lemma set_values_dl (vs : list (nat * SrsValue)) (m : gmap nat SchedUe) :
  map_Forall dl_sound m ->
  let m' := foldl (fun (m : gmap nat SchedUe) kv => alter (set_srs kv.2) kv.1 m) m vs in map_Forall dl_sound m' /\ keeps_dl m m'.
Proof.
  revert m. induction vs as [|[j v] vs IH]; intros m S; cbn [foldl]; [split; [done|apply keeps_dl_refl]|].
  destruct (IH (alter (set_srs v) j m)) as [S' K'].
  - intros k ue. destruct (decide (k = j)) as [->|Ne]; [rewrite lookup_alter_eq|rewrite lookup_alter_ne by done; apply S].
    intros (u & Eu & ->)%fmap_Some. by apply dl_sound_srs, S.
  - split; [done|]. eapply keeps_dl_trans; [|exact K']. intros k ue E. destruct (decide (k = j)) as [->|Ne].
    + rewrite lookup_alter_eq, E. by eexists.
    + rewrite lookup_alter_ne by done. by exists ue.
Qed.

Lemma new_ue_dl rnti beam : 0 <= rnti -> dl_sound (ue_key rnti) (new_ue conf rnti beam).
Proof.
  intros R0. pose proof (dc_start _ _ _ Ok_dl) as St. pose proof (co_harq _ Ok_conf) as Hq. split; [|done].
  assert (Z.of_nat (ue_key rnti) = rnti) as Ek by (unfold ue_key; lia). split; cbn; try done; [| |apply (dc_source _ _ _ Ok_dl)|].
  - split; cbn [harq_of]; change (m_dlHarq (new_ue conf rnti beam)) with (SetMaxSize (u8 conf.(GetNumHarqProcess)) empty_harq).
    + apply SetMaxSize_wf. rewrite wrap_small; unfold fits; lia.
    + intros id p d Hp. rewrite SetMaxSize_lookup in Hp by (rewrite wrap_small; unfold fits; lia). case_decide; [|done]. by injection Hp as <-.
  - split; [exact St|]. split; [done|]. split; [by left|]. split; constructor.
  - exists []. split; [cbn; lia|]. intros g lcg c lc E. by rewrite lookup_empty in E.
Qed.

Lemma dl_config rnti beam s s' : dl_inv s -> 0 <= rnti -> DoCschedUeConfigReq conf rnti beam s = Ok s' -> dl_inv s'.
Proof.
  intros I R0. unfold DoCschedUeConfigReq. destruct (m_ueMap s !! ue_key rnti) as [ue|] eqn:E.
  - intros [= <-]. pose proof (di_ues _ I _ _ E) as S. eapply dl_inv_put; [exact I|exact E| |done].
    eapply dl_sound_same; [exact S|done|done|done|]. exact (dw_ul _ _ _ _ _ (proj1 S)).
  - set (m := put_ue rnti (new_ue conf rnti beam) _).
    assert (map_Forall dl_sound m) as S by (apply map_Forall_insert_2; [by apply new_ue_dl|apply (di_ues _ I)]).
    assert (keeps_dl s.(m_ueMap) m) as K.
    { intros k u Eu. exists u. split; [|done]. unfold m, put_ue. rewrite lookup_insert_ne; [done|]. intros <-. congruence. }
    assert (forall vs, let m' := foldl (fun (m : gmap nat SchedUe) kv => alter (set_srs kv.2) kv.1 m) m vs in
      forall x, x.(m_ueMap) = m' -> x.(m_dlHarqToRetransmit) = s.(m_dlHarqToRetransmit) -> dl_inv x) as G.
    { intros vs m' x Ex Kx. destruct (set_values_dl vs m S) as [S' K']. eapply dl_inv_ues; [exact I|by rewrite Ex| |done].
      rewrite Ex. by eapply keeps_dl_trans. }
    destruct (AddUe _) as [[v|] srs].
    + intros [= <-]. by apply (G [(ue_key rnti, v)]).
    + destruct (IncreasePeriodicity _ srs) as [[[vs|] srs']|]; cbn [res_bind fst snd]; [|done|done]. intros [= <-]. by apply (G vs).
Qed.

Lemma dl_release rnti s s' :
  dl_inv s -> Forall (fun fb => ue_key fb.(fb_rnti) <> ue_key rnti) s.(m_dlHarqToRetransmit) ->
  DoCschedUeReleaseReq rnti s = Ok s' -> dl_inv s'.
Proof.
  intros [U K] F. unfold DoCschedUeReleaseReq, find_ue. destruct (m_ueMap s !! ue_key rnti) as [ue|]; [|done]. cbn [res_bind]. intros [= <-].
  split; cbn; [by apply map_Forall_delete|]. rewrite Forall_forall in K, F. apply Forall_forall. intros fb Hfb.
  destruct (K fb Hfb) as (R0 & u & Eu & Iu). split; [done|]. exists u. split; [|done]. rewrite lookup_delete_ne; [done|]. intros Q. by apply (F fb Hfb).
Qed.

(** ** Channels *)

(** At most three channels with those that are to be added *)
Definition room_for (ue : SchedUe) (channels : list LcConfig) : Prop :=
  exists chans : list (Z * Z), (length chans <= 3)%nat /\
    (forall g (lcg : NrMacSchedulerLCG) c, ue.(m_dlLCG) !! g = Some lcg -> is_Some (lcg !! c) -> (g, c) ∈ chans) /\
    Forall (fun c => in_dl c -> (m_logicalChannelGroup c, m_logicalChannelIdentity c) ∈ chans) channels.

Lemma dl_channels rnti channels s s' ue :
  dl_inv s -> s.(m_ueMap) !! ue_key rnti = Some ue -> room_for ue channels -> DoCschedLcConfigReq rnti channels s = Ok s' -> dl_inv s'.
Proof.
  intros I E (chans & L & Old & New). unfold DoCschedLcConfigReq. rewrite (find_ue_ok _ _ _ E). cbn [res_bind].
  destruct (res_fold config_lc channels ue) as [ue'|] eqn:Ec; [|done]. cbn [res_bind]. intros [= <-].
  pose proof (di_ues _ I _ _ E) as S. destruct (dw_groups _ _ _ _ _ (proj1 S)) as (chans0 & _ & C0).
  destruct (config_lcs_few chans channels ue ue' Ec) as [F G]; [|done|].
  { intros g lcg c lc E1 E2. split; [apply (Old g lcg c E1); by exists lc|]. apply (C0 g lcg c lc E1 E2). }
  eapply dl_inv_put; [exact I|exact E| |by destruct G as (? & ? & ->)].
  eapply dl_sound_groups; [exact S|exact G|]. by eapply few_ok.
Qed.

Lemma dl_release_channels rnti lcIds s s' : dl_inv s -> DoCschedLcReleaseReq rnti lcIds s = Ok s' -> dl_inv s'.
Proof.
  unfold DoCschedLcReleaseReq. revert s. induction lcIds as [|c l IH]; intros s I; cbn [res_fold]; [by intros [= <-]|].
  unfold find_ue at 1. destruct (m_ueMap s !! ue_key rnti) as [ue|] eqn:E; [|done]. cbn [res_bind]. apply IH.
  pose proof (di_ues _ I _ _ E) as S. eapply dl_inv_put; [exact I|exact E| |done].
  eapply dl_sound_groups; [exact S|by do 2 eexists|]. destruct (dw_groups _ _ _ _ _ (proj1 S)) as (chans & L & C). exists chans. split; [done|].
  exact (release_few chans c _ C).
Qed.

(** ** Reports *)

Lemma dl_report params s s' : dl_inv s -> report_sizes params -> DoSchedDlRlcBufferReq params s = Ok s' -> dl_inv s'.
Proof.
  intros I (T & Rt & St). unfold DoSchedDlRlcBufferReq, find_ue. destruct (m_ueMap s !! ue_key (req_rnti params)) as [ue|] eqn:E; [|done]. cbn [res_bind].
  destruct (filter _ (hashed _)) as [|[g lcg] l] eqn:Ef; [by intros [= <-]|].
  assert ((g, lcg) ∈ filter (fun g => Contains (req_lcId params) g.2 = true) (hashed (map_to_list ue.(m_dlLCG)))) as Hg by (rewrite Ef; by left).
  apply list_elem_of_filter in Hg as [_ Hg]. rewrite hashed_perm, elem_of_map_to_list in Hg.
  unfold LcgUpdateInfo, lc_at. destruct (lcg !! req_lcId params) as [lc|] eqn:El; [|done]. cbn [res_bind]. unfold LcUpdate.
  destruct (negb _) eqn:Id; [done|]. apply negb_false_iff, Z.eqb_eq in Id. cbn [abort_if res_bind]. intros [= <-].
  pose proof (di_ues _ I _ _ E) as S. destruct (dw_groups _ _ _ _ _ (proj1 S)) as (chans & L & C).
  set (lc' := mkLC _ _ _ _ _ _). set (lcgs' := <[g := <[req_lcId params := lc']> lcg]> (m_dlLCG ue)).
  match goal with |- dl_inv (s <| m_ueMap ::= put_ue _ ?u |>) => assert (u = ue <| m_dlLCG := lcgs' |>) as -> by done end.
  eapply dl_inv_put; [exact I|exact E| |done]. eapply dl_sound_groups; [exact S|exists lcgs', (m_ulLCG ue); by destruct ue|].
  exists chans. split; [done|]. apply few_put; [exact C|]. intros c x. rewrite lcg_put.
  destruct (decide (c = req_lcId params)) as [->|Ne]; [|by apply C]. intros [= <-].
  destruct (C g lcg _ lc Hg El) as (In & Ei & _). split; [done|]. split; [exact Ei|]. by split.
Qed.

Lemma dl_ctrl_info elements s s' : dl_inv s -> DoSchedUlMacCtrlInfoReq elements s = Ok s' -> dl_inv s'.
Proof.
  unfold DoSchedUlMacCtrlInfoReq. revert s. induction elements as [|e l IH]; intros s I; cbn [res_fold]; [by intros [= <-]|].
  destruct (m_macCeType e); cbn [res_bind]; [|by apply IH..]. unfold BSRReceivedFromUe, find_ue.
  destruct (m_ueMap s !! ue_key (ce_rnti e)) as [ue|] eqn:E; [|done]. cbn [res_bind].
  destruct (res_fold _ (seqZ 0 4) (m_ulLCG ue)) as [lcgs|]; [|done]. cbn [res_bind]. apply IH.
  pose proof (di_ues _ I _ _ E) as S. eapply dl_inv_put; [exact I|exact E| |done].
  eapply dl_sound_same; [exact S|done|done|done|]. exact (dw_ul _ _ _ _ _ (proj1 S)).
Qed.

(** ** The slots *)

(** An uplink slot changes nothing of the downlink. *)
Lemma dl_ul_slot s s' :
  dl_inv s -> mac_wf conf s' -> ues_rel same_ue s.(m_ueMap) s'.(m_ueMap) -> s'.(m_dlHarqToRetransmit) = s.(m_dlHarqToRetransmit) -> dl_inv s'.
Proof.
  intros I W S E. eapply dl_inv_ues; [exact I|..|exact E].
  - intros k ue' E'. destruct (ues_rel_lookup_r _ _ _ _ _ S E') as (ue & Eu & _ & _ & _ & (L & D & Q) & _).
    eapply dl_sound_same; [exact (di_ues _ I _ _ Eu)|exact D|exact L|exact Q|]. apply (uw_rnti _ _ _ (mw_ues _ _ W _ _ E')).
  - intros k ue Eu. destruct (ues_rel_lookup _ _ _ _ _ S Eu) as (ue' & E' & _ & _ & _ & (_ & _ & Q) & _). exists ue'. by rewrite Q.
Qed.

(** A downlink slot changes nothing of the uplink. *)
Lemma ul_dl_slot b s s' :
  mac_inv conf s -> dl_mac_wf conf em nsb b s' -> ues_rel dl_only s.(m_ueMap) s'.(m_ueMap) -> ul_kept s s' -> mac_inv conf s' /\ dl_inv s'.
Proof.
  intros [W [S1 S2] D] [U C K _ _] S (E1 & E2 & E3 & E4 & E5). split.
  - split.
    + eapply mac_wf_ues; [exact W|..|done|done|done|done].
      * eapply ues_rel_forall; [exact S|exact (mw_ues _ _ W)|]. intros k u v (d & l & h & -> & _) [W1 W2 W3 W4 W5]. by split.
      * eapply ues_rel_forall; [exact S|exact (mw_clear _ _ W)|]. by intros k u v (d & l & h & -> & _).
      * intros k ue E. destruct (ues_rel_lookup _ _ _ _ _ S E) as (ue' & E' & d & l & h & -> & _). by eexists.
    + split; rewrite ?E5.
      * assert (offsets s'.(m_ueMap) = offsets s.(m_ueMap)) as ->; [|done]. unfold offsets. do 2 f_equal. apply map_eq. intros k.
        rewrite !lookup_fmap. specialize (S k). by destruct S as [u v (d & l & h & -> & _)|].
      * eapply ues_rel_forall; [exact S|exact S2|]. by intros k u v (d & l & h & -> & _).
    + intros k ue E g lcg Eg c lc Ec. destruct (dw_groups _ _ _ _ _ (U k ue E)) as (chans & _ & G). by apply (G g lcg c lc Eg Ec).
  - split; [|done]. intros k ue E. split; [exact (U k ue E)|exact (C k ue E)].
Qed.
End down.
