(* ===== verification/CqiRequests.v ===== *)
(** The CQI requests of the MAC scheduler: DoSchedDlCqiInfoReq and DoSchedUlCqiInfoReq of
    src/nr/model/nr-mac-scheduler-ns3.cc, over the CQI management of CqiManagement.v; that they keep the
    invariant of the scheduler in both directions, and are not refused when their precondition holds.

    The AMC of the downlink is an argument and a result, because it caches the MCS of a CQI; the
    trace of the received CSI is left out. *)
From Stdlib Require Import ZArith Lia Lists.List.
From stdpp Require Import base list gmap strings list_numbers.
From coqutil Require Import Datatypes.RecordSettersUsingExistingGetters.
From S2P Require Import Prelude OrdMap Messages UlScheduler UlFacts UlProps Amc AmcProps DlUe CqiManagement CqiProps.
From S2P Require Import DlScheduler DlFacts Dci DlProps DciProps LogicalChannels LcProps Harq Srs SfnSf MacScheduler.
From S2P Require Import ResourceMatrix UlSlot DlSlot SlotLayout UlTiling HarqFacts MacFacts UlGrant UlSlotFacts UlData.
From S2P Require Import UlSlotProps DlGrant DlSlotFacts DlHarq DlData DlSlotProps MacInvariant MacRequests.
Open Scope Z_scope.

(** The attributes and members that only these requests read; the times are in nanoseconds, the
    spectrum model is its number of bands. *)
Record CqiConf := mkCqiConf {
  m_fixedMcsDl : bool;
  m_fixedMcsUl : bool;
  m_cqiTimersThreshold : Z;
  GetSlotPeriod : Z;
  m_maxDlMcs : Z;
  GetSpectrumModel : nat;
  m_ulAmc : Amc
}.

(** struct UlCqiInfo and SchedUlCqiInfoReqParameters *)
Inductive UlCqiType := SRS_CQI | PUSCH | PUCCH_1 | PUCCH_2 | PRACH.
Record UlCqiInfoReq := mkUlCqiReq { cqi_sfnSf : SfnSf; cqi_symStart : Z; cqi_type : UlCqiType; cqi_sinr : list double }.

Section requests.
Context `{LibM} (conf : SchedConf) (cc : CqiConf).

(** The time a CQI is valid, in slots *)
Definition expirationTime : Z := u32 (Z.quot cc.(m_cqiTimersThreshold) cc.(GetSlotPeriod)).

(** The body of the loop over the reports, each with the RNTI it is of *)
Definition dl_cqi (cqi : Z * DlCqiInfo) (st : Amc * gmap nat SchedUe) : res (Amc * gmap nat SchedUe) :=
  match st.2 !! ue_key cqi.1 with
  | None => Abort "NS_ASSERT(m_ueMap.find(cqi.m_rnti) != m_ueMap.end())"
  | Some ue =>
      let* r := DlCqiReported cqi.2 expirationTime cc.(m_maxDlMcs) (Z.of_nat conf.(GetBandwidthInRbg)) (st.1, ue.(ue_dl)) in
      Ok (r.1, put_ue cqi.1 (ue <| ue_dl := r.2 |>) st.2)
  end.

(** NrMacSchedulerNs3::DoSchedDlCqiInfoReq *)
Definition DoSchedDlCqiInfoReq (m_cqiList : list (Z * DlCqiInfo)) (st : Amc * MacSched) : res (Amc * MacSched) :=
  if cc.(m_fixedMcsDl) then Ok st else
  let* _ := abort_if (cc.(m_cqiTimersThreshold) <? cc.(GetSlotPeriod)) "NS_ASSERT(m_cqiTimersThreshold >= GetSlotPeriod())" in
  let* r := res_fold dl_cqi m_cqiList (st.1, st.2.(m_ueMap)) in
  Ok (r.1, st.2 <| m_ueMap := r.2 |>).

(** The uplink CQI of a UE, and back *)
Definition ul_cqi_of (ue : SchedUe) : UlCqiState := mkUlCqi ue.(ue_ulCqi) ue.(ue_ul).(m_ulMcs).
Definition put_ul_cqi (c : UlCqiState) (ue : SchedUe) : SchedUe :=
  ue <| ue_ulCqi := c.(m_ulCqi) |> <| ue_ul ::= fun u => u <| m_ulMcs := c.(uc_ulMcs) |> |>.

(** What the loop over the recorded allocations keeps: found, those that stay, the UEs *)
Record CqiLoop := mkCqiLoop { cl_found : bool; cl_left : list AllocElem; cl_ues : gmap nat SchedUe }.

Definition ul_cqi (params : UlCqiInfoReq) (allocation : AllocElem) (st : CqiLoop) : res CqiLoop :=
  if allocation.(al_symStart) =? params.(cqi_symStart) then
    match st.(cl_ues) !! ue_key allocation.(al_rnti) with
    | None => Abort "NS_ASSERT(itUe != m_ueMap.end())"
    | Some ue =>
        let* _ := abort_if (allocation.(al_numSym) <=? 0) "NS_ASSERT(allocation.m_numSym > 0)" in
        let* _ := abort_if (allocation.(al_tbs) <=? 0) "NS_ASSERT(allocation.m_tbs > 0)" in
        let* c := UlSBCQIReported expirationTime params.(cqi_sinr) allocation.(al_rbgMask) conf.(GetNumRbPerRbg)
                    cc.(GetSpectrumModel) cc.(m_ulAmc) (ul_cqi_of ue) in
        Ok (mkCqiLoop true st.(cl_left) (put_ue allocation.(al_rnti) (put_ul_cqi c ue) st.(cl_ues)))
    end
  else Ok (mkCqiLoop st.(cl_found) (st.(cl_left) ++ [allocation]) st.(cl_ues)).

(** NrMacSchedulerNs3::DoSchedUlCqiInfoReq *)
Definition DoSchedUlCqiInfoReq (params : UlCqiInfoReq) (s : MacSched) : res MacSched :=
  if cc.(m_fixedMcsUl) then Ok s else
  match params.(cqi_type) with
  | PUSCH =>
      let* ulSfn := GetEncoding params.(cqi_sfnSf) in
      match s.(m_ulAllocationMap) !! ulSfn with
      | None => Abort "Can't find allocation"
      | Some e =>
          let* r := res_fold (ul_cqi params) e.(m_ulAllocations) (mkCqiLoop false [] s.(m_ueMap)) in
          let* _ := abort_if (negb r.(cl_found)) "NS_ASSERT(found)" in
          Ok (s <| m_ueMap := r.(cl_ues) |>
                <| m_ulAllocationMap ::= match r.(cl_left) with
                                         | [] => delete ulSfn
                                         | kept => <[ulSfn := mkSlotElem e.(m_totUlSym) kept]>
                                         end |>)
      end
  | _ => Abort "Unknown type of UL-CQI"
  end.
End requests.

(** ** The AMC *)

(** Two AMCs that differ in what they have cached *)
Definition same_amc (a b : Amc) : Prop := b <| m_cachedCqiToMcsMap := ∅ |> = a <| m_cachedCqiToMcsMap := ∅ |>.

Lemma same_amc_refl a : same_amc a a.
Proof. done. Qed.
Lemma same_amc_trans a b c : same_amc a b -> same_amc b c -> same_amc a c.
Proof. unfold same_amc. congruence. Qed.
Lemma same_amc_model a b : same_amc a b -> b.(m_errorModel) = a.(m_errorModel).
Proof. intros E. exact (f_equal m_errorModel E). Qed.
#[export] Hint Resolve same_amc_refl : oran.

Lemma CalculateTbSize_same a b mcs rank nprb : same_amc a b -> CalculateTbSize mcs rank nprb b = CalculateTbSize mcs rank nprb a.
Proof. intros E. exact (f_equal (CalculateTbSize mcs rank nprb) E). Qed.

Lemma GetMcsFromCqi_same cqi a b m : GetMcsFromCqi cqi a = Ok (b, m) -> same_amc a b.
Proof.
  unfold GetMcsFromCqi. intros E. inv_res. destruct (m_cachedCqiToMcsMap a !! cqi); [by inv_res|].
  inv_res. by destruct a.
Qed.

Section cqis.
Context `{LibM}.

Lemma sb_loop_same bw size ri sb sbCqis a infos rbgToSb b infos' rbgToSb' :
  sb_loop bw size ri sb sbCqis (a, infos, rbgToSb) = Ok (b, infos', rbgToSb') -> same_amc a b.
Proof.
  revert sb a infos rbgToSb. induction sbCqis as [|c l IH]; intros sb a infos rbgToSb; cbn [sb_loop]; [by intros [= <- _ _]|].
  destruct (GetMcsFromCqi c a) as [[a1 m]|] eqn:E; [|done]. cbn [res_bind].
  destruct (GetSpectralEfficiencyForCqi _ c); [|done]. cbn [res_bind]. intros E'.
  eapply same_amc_trans; [by eapply GetMcsFromCqi_same|by eapply IH].
Qed.

(** What a report leaves alone *)
Lemma DlCqiReported_frame info exp maxMcs bw a ue b ue' :
  DlCqiReported info exp maxMcs bw (a, ue) = Ok (b, ue') ->
  same_amc a b /\ ue'.(dl_rnti) = ue.(dl_rnti) /\ ue'.(ue_mcsCsiSource) = ue.(ue_mcsCsiSource) /\
  (ue'.(m_dlRank) = ue.(m_dlRank) \/ ue'.(m_dlRank) = info.(info_ri)).
Proof.
  unfold DlCqiReported. destruct (GetMcsFromCqi (info_wbCqi info) a) as [[a1 m]|] eqn:E1; [|done]. cbn [res_bind].
  pose proof (GetMcsFromCqi_same _ _ _ _ E1) as S1. match goal with |- res_bind ?x _ = _ -> _ => destruct x as [[[a2 i] r]|] eqn:E2; [|done] end.
  assert (same_amc a a2) as S2.
  { destruct (info_sbCqis info); [by injection E2 as <- _ _|]. eapply same_amc_trans; [exact S1|by eapply sb_loop_same]. }
  cbn [res_bind]. destruct (info_optPrecMat info) as [pm|]; [destruct (abort_if _ _); [|done]; cbn [res_bind]|]; intros [= <- <-];
    (split; [exact S2|split; [done|split; [done|]]]); [by right|by left].
Qed.
End cqis.

(** ** The requests keep the invariant *)


(** What the CQI requests need of the attributes: a threshold of at least a slot, an MCS limit in the
    tables, and the transport blocks of the uplink *)
Record cqi_conf_ok (conf : SchedConf) (cc : CqiConf) : Prop := {
  cq_period : 0 < cc.(GetSlotPeriod) <= cc.(m_cqiTimersThreshold);
  cq_max : 0 <= cc.(m_maxDlMcs) < 128;
  cq_bw : Z.of_nat conf.(GetBandwidthInRbg) < 2 ^ 16;
  cq_model : cc.(m_ulAmc).(m_amcModel) = ErrorModel;
  cq_blocks : forall k n, 0 <= k <= cc.(m_ulAmc).(m_errorModel).(GetMaxMcs) -> (n <= cc.(GetSpectrumModel))%nat ->
    exists tbs, CalculateTbSize k 1 (Z.of_nat n) cc.(m_ulAmc) = Ok tbs
}.

Section cqi.
Context `{LibM} `{CppReduce} `{CppStableSort} `{StdSort} `{!StdSortLaws} `{CppHash, !CppHashLaws} `{SymbolPolicy, !SymbolPolicyLaws}.
Context `{NrAmc, !NrAmcLaws}.
Context (conf : SchedConf) (Ok_conf : conf_ok conf) (cc : CqiConf) (Ok_cqi : cqi_conf_ok conf cc).
Context `{!ErrorModelLaws cc.(m_ulAmc).(m_errorModel)}.

(** ** The uplink *)

(** The SINR of a report covers the resource blocks. *)
Definition sinr_ok (params : UlCqiInfoReq) : Prop :=
  Z.of_nat conf.(GetBandwidthInRbg) * conf.(GetNumRbPerRbg) <= Z.of_nat (length params.(cqi_sinr)) /\
  (cc.(GetSpectrumModel) <= length params.(cqi_sinr))%nat.

(** A recorded allocation that can be reported, in a store with its UE *)
Definition reportable (m : gmap nat SchedUe) (a : AllocElem) : Prop :=
  is_Some (m !! ue_key a.(al_rnti)) /\ 0 < a.(al_numSym) /\ 0 < a.(al_tbs) /\
  (0 < length a.(al_rbgMask) <= conf.(GetBandwidthInRbg))%nat.

Lemma rb_assignment_ok (mask : list bool) rpr size :
  Z.of_nat (length mask) * rpr <= Z.of_nat size -> exists l, rb_assignment mask rpr size = Ok l /\ length l = size.
Proof.
  intros Le. unfold rb_assignment. apply res_fold_keeps; [by rewrite length_replicate|].
  intros i l Hi%elem_of_seq L. case_bool_decide; [|by exists l]. apply res_fold_keeps; [done|].
  intros k l' Hk%elem_of_seqZ L'. rewrite (proj2 (Z.ltb_lt _ _)) by nia. cbn [negb abort_if res_bind].
  eexists. split; [done|]. by rewrite length_insert.
Qed.

(** A report is turned into a CQI and an MCS of the tables. *)
Lemma UlSBCQIReported_ok params mask c :
  sinr_ok params -> (0 < length mask <= conf.(GetBandwidthInRbg))%nat -> 0 <= conf.(GetNumRbPerRbg) ->
  exists c', UlSBCQIReported (expirationTime cc) params.(cqi_sinr) mask conf.(GetNumRbPerRbg) cc.(GetSpectrumModel) cc.(m_ulAmc) c = Ok c' /\
    c'.(m_ulCqi).(m_timer) = expirationTime cc /\ c'.(m_ulCqi).(m_sinr) = params.(cqi_sinr) /\ 0 <= c'.(uc_ulMcs) <= cc.(m_ulAmc).(m_errorModel).(GetMaxMcs).
Proof.
  intros [S1 S2] Lm Rp. unfold UlSBCQIReported. rewrite bool_decide_false by (intros ->; cbn in Lm; lia). cbn [abort_if res_bind].
  destruct (rb_assignment_ok mask conf.(GetNumRbPerRbg) (length params.(cqi_sinr))) as (rbs & -> & Lr); [nia|]. cbn [res_bind].
  destruct (res_map_ok (fun ichunk : nat => let* assigned := vec_at rbs (Z.of_nat ichunk) in
      if assigned : bool then vec_at params.(cqi_sinr) (Z.of_nat ichunk) else Ok d_zero) (fun _ => True) (seq 0 cc.(GetSpectrumModel)))
    as (vals & -> & Lv & _).
  { intros i Hi%elem_of_seq. unfold vec_at. rewrite Nat2Z.id.
    destruct (lookup_lt_is_Some_2 rbs i ltac:(lia)) as [b ->]. cbn [res_bind].
    destruct b; [|by eexists]. destruct (lookup_lt_is_Some_2 params.(cqi_sinr) i ltac:(lia)) as [x ->]. by eexists. }
  cbn [res_bind]. destruct (siso_answers vals cc.(m_ulAmc) (cq_model _ _ Ok_cqi)) as (cqi & m & -> & Rm).
  - intros k Hk. apply (cq_blocks _ _ Ok_cqi); [done|]. rewrite length_seq in Lv. unfold rb_map. rewrite length_fmap.
    etrans; [apply length_filter|]. rewrite length_seq. lia.
  - cbn [res_bind]. by eexists.
Qed.
(** The allocations that a report is about *)
Abbreviation reported params := (fun a : AllocElem => a.(al_symStart) = params.(cqi_symStart)).

(** The UEs [m'] are those of [m] with a report for each of the allocations in [l] that it is about. *)
Definition cqi_given (params : UlCqiInfoReq) (l : list AllocElem) (m m' : gmap nat SchedUe) : Prop :=
  forall k, m' !! k = m !! k /\ Forall (fun a => reported params a -> ue_key a.(al_rnti) <> k) l \/
    exists a c c' ue, a ∈ l /\ reported params a /\ ue_key a.(al_rnti) = k /\ m !! k = Some ue /\ m' !! k = Some (put_ul_cqi c' ue) /\
      UlSBCQIReported (expirationTime cc) params.(cqi_sinr) a.(al_rbgMask) conf.(GetNumRbPerRbg) cc.(GetSpectrumModel) cc.(m_ulAmc) c = Ok c'.

Lemma put_ul_cqi_twice c c' ue : put_ul_cqi c' (put_ul_cqi c ue) = put_ul_cqi c' ue.
Proof. done. Qed.

Lemma cqi_given_step params a l m m1 m' c c' ue :
  reported params a -> m !! ue_key a.(al_rnti) = Some ue ->
  UlSBCQIReported (expirationTime cc) params.(cqi_sinr) a.(al_rbgMask) conf.(GetNumRbPerRbg) cc.(GetSpectrumModel) cc.(m_ulAmc) c = Ok c' ->
  m1 = put_ue a.(al_rnti) (put_ul_cqi c' ue) m -> cqi_given params l m1 m' -> cqi_given params (a :: l) m m'.
Proof.
  intros Ra E Ec -> G k. destruct (G k) as [[Em F]|(b & d & d' & u & Hb & Rb & Kb & Eu & Eu' & Ed)].
  - destruct (decide (ue_key a.(al_rnti) = k)) as [<-|Ne].
    + right. exists a, c, c', ue. unfold put_ue in Em. rewrite lookup_insert_eq in Em. split; [by left|]. by split_and!.
    + left. unfold put_ue in Em. rewrite lookup_insert_ne in Em by done. split; [done|]. by constructor.
  - right. unfold put_ue in Eu. destruct (decide (ue_key a.(al_rnti) = k)) as [<-|Ne].
    + rewrite lookup_insert_eq in Eu. injection Eu as <-. rewrite put_ul_cqi_twice in Eu'.
      exists b, d, d', ue. split; [by right|]. by split_and!.
    + rewrite lookup_insert_ne in Eu by done. exists b, d, d', u. split; [by right|]. by split_and!.
Qed.

Lemma cqi_given_skip params a l m m' : ~ reported params a -> cqi_given params l m m' -> cqi_given params (a :: l) m m'.
Proof.
  intros N G k. destruct (G k) as [[Em F]|(b & d & d' & u & Hb & Q)]; [left|right].
  - split; [done|]. by constructor.
  - exists b, d, d', u. split; [by right|done].
Qed.

Lemma reportable_put m rnti ue ue' a : m !! ue_key rnti = Some ue -> reportable m a -> reportable (put_ue rnti ue' m) a.
Proof. intros E [I R]. split; [|done]. unfold put_ue. apply lookup_insert_is_Some'. by right. Qed.

(** The loop over the recorded allocations *)
Lemma ul_cqi_fold params l left found m :
  sinr_ok params -> 0 <= conf.(GetNumRbPerRbg) -> Forall (fun a => reported params a -> reportable m a) l ->
  exists m', res_fold (ul_cqi conf cc params) l (mkCqiLoop found left m) =
      Ok (mkCqiLoop (found || existsb (fun a => al_symStart a =? cqi_symStart params) l)
            (left ++ filter (fun a => ~ reported params a) l) m') /\ cqi_given params l m m'.
Proof.
  intros S Rp. revert left found m. induction l as [|a l IH]; intros left found m F; cbn [res_fold existsb].
  { exists m. rewrite orb_false_r, app_nil_r. split; [done|]. intros k. by left. }
  apply Forall_cons in F as [Fa F]. destruct (Z.eqb_spec a.(al_symStart) params.(cqi_symStart)) as [Ra|Na].
  - destruct (Fa Ra) as ([ue E] & N & T & Lm).
    destruct (UlSBCQIReported_ok params a.(al_rbgMask) (ul_cqi_of ue) S Lm Rp) as (c' & Ec & _).
    assert (ul_cqi conf cc params a (mkCqiLoop found left m) = Ok (mkCqiLoop true left (put_ue a.(al_rnti) (put_ul_cqi c' ue) m))) as ->.
    { unfold ul_cqi. cbn [cl_ues cl_left]. by rewrite Ra, Z.eqb_refl, E, (proj2 (Z.leb_gt _ _) N), (proj2 (Z.leb_gt _ _) T), Ec. }
    cbn [res_bind]. destruct (IH left true (put_ue a.(al_rnti) (put_ul_cqi c' ue) m)) as (m' & -> & G).
    { eapply Forall_impl; [exact F|]. intros b Hb Rb. eapply reportable_put; [exact E|by apply Hb]. }
    exists m'. split; [|by eapply cqi_given_step]. rewrite filter_cons_False by (intros Q; by apply Q).
    by rewrite orb_true_r.
  - assert (ul_cqi conf cc params a (mkCqiLoop found left m) = Ok (mkCqiLoop found (left ++ [a]) m)) as ->.
    { unfold ul_cqi. by rewrite (proj2 (Z.eqb_neq _ _) Na). }
    cbn [res_bind]. destruct (IH (left ++ [a]) found m F) as (m' & -> & G). exists m'.
    split; [|by apply cqi_given_skip]. by rewrite filter_cons_True, <- app_assoc by done.
Qed.

Lemma cqi_given_same params l m m' : cqi_given params l m m' -> ues_rel same_ue m m'.
Proof.
  intros G k. destruct (G k) as [[-> _]|(a & c & c' & ue & _ & _ & _ & -> & -> & _)].
  - destruct (m !! k); constructor. apply same_ue_refl.
  - constructor. by repeat split.
Qed.

(** ** What a slot records *)

Definition alloc_elem (v : VarTti) : AllocElem :=
  let d := v.(m_dci) in
  mkAllocElem (dci_rnti d) (m_tbSize d) (m_symStart d) (m_numSym d) (dci_mcs d) (dci_rank d) (m_rbgBitmask d).

Lemma data_allocs_elem l v :
  v ∈ l -> dci_format (m_dci v) = UL -> dci_type (m_dci v) = DATA \/ dci_type (m_dci v) = MSG3 -> alloc_elem v ∈ data_allocs l.
Proof. intros Hv U T. apply list_elem_of_fmap. exists v. split; [done|]. by apply list_elem_of_filter. Qed.

Lemma data_allocs_inv l a :
  a ∈ data_allocs l -> exists w, w ∈ l /\ (dci_type (m_dci w) = DATA \/ dci_type (m_dci w) = MSG3) /\ a = alloc_elem w.
Proof. intros (w & -> & [[_ T] Hw]%list_elem_of_filter)%list_elem_of_fmap. by exists w. Qed.

(** Everything recorded of an uplink slot can be reported. *)
Lemma slot_reportable beam targets st l :
  tiling beam (GetUlBitmask conf) (within_grant targets) st l ->
  forall w, w ∈ l -> dci_type (m_dci w) = DATA \/ dci_type (m_dci w) = MSG3 ->
  0 < (alloc_elem w).(al_numSym) /\ 0 < (alloc_elem w).(al_tbs) /\ (0 < length (alloc_elem w).(al_rbgMask) <= conf.(GetBandwidthInRbg))%nat.
Proof.
  intros T w Hw Ty. pose proof (tiling_each _ _ _ _ _ T) as F. pose proof (tiling_entries _ _ _ _ _ T) as C.
  rewrite Forall_forall in F, C. destruct (F w Hw) as [N L]. destruct (C w Hw) as [_ Cw]. cbn. split; [lia|]. split; [by apply Cw|].
  rewrite L, (co_length _ Ok_conf). split; [|done]. rewrite <- (co_length _ Ok_conf). pose proof (co_some _ Ok_conf).
  destruct (GetUlBitmask conf); [done|cbn; lia].
Qed.

Lemma cqi_given_forall (P : nat -> SchedUe -> Prop) params l m m' :
  (forall k u c, P k u -> P k (put_ul_cqi c u)) -> cqi_given params l m m' -> map_Forall P m -> map_Forall P m'.
Proof.
  intros Pc G F k u' E. destruct (G k) as [[Em _]|(a & c & c' & ue & _ & _ & _ & Eu & Eu' & _)]; [apply F; congruence|].
  assert (u' = put_ul_cqi c' ue) as -> by congruence. by apply Pc, F.
Qed.

Lemma cqi_given_wf params l s s' :
  mac_wf conf s -> cqi_given params l s.(m_ueMap) s'.(m_ueMap) -> s'.(m_ulHarqToRetransmit) = s.(m_ulHarqToRetransmit) ->
  s'.(m_srList) = s.(m_srList) -> s'.(m_rachList) = s.(m_rachList) -> s'.(m_ulTargets) = s.(m_ulTargets) -> mac_wf conf s'.
Proof.
  intros W G E1 E2 E3 E4. eapply mac_wf_ues; [exact W|..|done|done|done|done].
  - eapply (cqi_given_forall (ue_wf conf)); [|exact G|apply (mw_ues _ _ W)]. intros k u c [W1 W2 W3 W4 W5]. by split.
  - eapply (cqi_given_forall (fun _ => ul_clear)); [|exact G|apply (mw_clear _ _ W)]. by intros k u c.
  - intros k ue E. destruct (ues_rel_lookup _ _ _ _ _ (cqi_given_same _ _ _ _ G) E) as (ue' & E' & (_ & _ & _ & _ & M)). by exists ue'.
Qed.

(** What a UE with a reported allocation has afterwards *)
Lemma cqi_given_at params l m m' a :
  0 <= conf.(GetNumRbPerRbg) -> sinr_ok params -> cqi_given params l m m' -> a ∈ l -> reported params a ->
  (forall b, b ∈ l -> 0 < b.(al_numSym) /\ 0 < b.(al_tbs) /\ (0 < length b.(al_rbgMask) <= conf.(GetBandwidthInRbg))%nat) ->
  exists ue, m' !! ue_key a.(al_rnti) = Some ue /\ ue.(ue_ulCqi).(m_timer) = expirationTime cc /\
    ue.(ue_ulCqi).(m_sinr) = params.(cqi_sinr) /\ 0 <= ue.(ue_ul).(m_ulMcs) <= cc.(m_ulAmc).(m_errorModel).(GetMaxMcs).
Proof.
  intros Rp Sn G Ha Ra Rep. destruct (G (ue_key a.(al_rnti))) as [[_ F]|(b & c & c' & ue & Hb & _ & _ & _ & E' & Ec)].
  - rewrite Forall_forall in F. by destruct (F a Ha Ra).
  - destruct (Rep b Hb) as (_ & _ & Lm). destruct (UlSBCQIReported_ok params b.(al_rbgMask) c Sn Lm Rp) as (d & Ed & D).
    rewrite Ec in Ed. injection Ed as <-. exists (put_ul_cqi c' ue). split; [done|]. by destruct c'.
Qed.

(** A report for recorded allocations whose UEs are there is answered: they are given a CQI each and
    are taken off the record. *)
Lemma DoSchedUlCqiInfoReq_ok params ulSfn e s :
  cc.(m_fixedMcsUl) = false -> params.(cqi_type) = PUSCH -> sinr_ok params -> 0 <= conf.(GetNumRbPerRbg) ->
  GetEncoding params.(cqi_sfnSf) = Ok ulSfn -> s.(m_ulAllocationMap) !! ulSfn = Some e ->
  Exists (reported params) e.(m_ulAllocations) ->
  Forall (fun a => reported params a -> reportable s.(m_ueMap) a) e.(m_ulAllocations) ->
  let left := filter (fun a => ~ reported params a) e.(m_ulAllocations) in
  exists m', DoSchedUlCqiInfoReq conf cc params s = Ok (s <| m_ueMap := m' |>
      <| m_ulAllocationMap ::= match left with [] => delete ulSfn | kept => <[ulSfn := mkSlotElem e.(m_totUlSym) kept]> end |>) /\
    cqi_given params e.(m_ulAllocations) s.(m_ueMap) m'.
Proof.
  intros Fx Ty S Rp En Ee Ex F left. unfold DoSchedUlCqiInfoReq. rewrite Fx, Ty, En. cbn [res_bind]. rewrite Ee.
  destruct (ul_cqi_fold params e.(m_ulAllocations) [] false s.(m_ueMap) S Rp F) as (m' & -> & G). cbn [res_bind cl_found cl_left cl_ues app orb].
  rewrite (proj2 (existsb_exists _ _)).
  - cbn [negb abort_if res_bind]. exists m'. split; [|exact G]. unfold left. by destruct (filter _ _).
  - apply Exists_exists in Ex as (a & Ha & Ra). exists a. split; [by apply list_elem_of_In|by apply Z.eqb_eq].
Qed.
End cqi.

(** ** The downlink *)

Lemma dl_conf_same `{LibM} conf a b em : dl_conf_ok conf a em -> same_amc a b -> dl_conf_ok conf b em.
Proof.
  intros [D1 D2 D3 D4 D5 D6 D7 D8] S. split; try done; [by rewrite (same_amc_model _ _ S)|].
  intros mcs rank nprb Hm Hr Hn. rewrite (CalculateTbSize_same _ _ _ _ _ S). by apply D8.
Qed.

Section dl_cqi.
Context `{LibM} (conf : SchedConf) (cc : CqiConf) (Ok_cqi : cqi_conf_ok conf cc).
Context (em : NrErrorModel) `{!ErrorModelLaws em} (nsb : Z) (Nsb : 0 < nsb <= 256).

(** A report of a UE that is there, within the tables *)
Definition dl_report_ok (m : gmap nat SchedUe) (cqi : Z * DlCqiInfo) : Prop :=
  is_Some (m !! ue_key cqi.1) /\ report_ok nsb cqi.2 /\ cqi.2.(info_ri) <= 4.

Lemma reported_sound k ue a info b u :
  dl_sound conf em nsb k ue -> a.(m_errorModel) = em -> cache_ok a -> report_ok nsb info -> info.(info_ri) <= 4 ->
  DlCqiReported info (expirationTime cc) cc.(m_maxDlMcs) (Z.of_nat conf.(GetBandwidthInRbg)) (a, ue.(ue_dl)) = Ok (b, u) ->
  dl_sound conf em nsb k (ue <| ue_dl := u |>) /\ cache_ok b.
Proof.
  intros [[X1 X2 [X3 X3'] X4 X5 X6 X7] (C1 & C2 & C3)] Ea Ca R Ri E.
  destruct (DlCqiReported_frame _ _ _ _ _ _ _ _ E) as (_ & F1 & F2 & F3).
  destruct (cqi_report_wf em (Z.of_nat conf.(GetBandwidthInRbg)) nsb info (expirationTime cc) cc.(m_maxDlMcs) a ue.(ue_dl)
    ltac:(pose proof (cq_bw _ _ Ok_cqi); lia) Nsb (cq_max _ _ Ok_cqi) R Ea Ca X4) as (b' & u' & E' & _ & Cb & W & _ & _ & G & _).
  rewrite E in E'. injection E' as <- <-. injection G as G1 G2 G3 G4. split; [|done]. destruct R as (_ & _ & _ & R0). split.
  - split; try done; cbn; unfold const; [congruence|by rewrite F2|]. destruct F3 as [->| ->]; lia.
  - unfold dl_clear, unassigned. cbn. unfold const. split_and!; congruence.
Qed.

Lemma dl_cqi_ok cqi a s :
  mac_inv conf s -> dl_inv conf em nsb s -> a.(m_errorModel) = em -> cache_ok a -> dl_report_ok s.(m_ueMap) cqi ->
  exists b m', dl_cqi conf cc cqi (a, s.(m_ueMap)) = Ok (b, m') /\ same_amc a b /\ cache_ok b /\
    (mac_inv conf (s <| m_ueMap := m' |>) /\ dl_inv conf em nsb (s <| m_ueMap := m' |>)) /\
    forall k, is_Some (s.(m_ueMap) !! k) -> is_Some (m' !! k).
Proof.
  intros I D Ea Ca ([ue E] & R & Ri). unfold dl_cqi. cbn [fst snd]. rewrite E. pose proof (di_ues _ _ _ _ D _ _ E) as S.
  destruct (cqi_report_wf em (Z.of_nat conf.(GetBandwidthInRbg)) nsb cqi.2 (expirationTime cc) cc.(m_maxDlMcs) a ue.(ue_dl)
    ltac:(pose proof (cq_bw _ _ Ok_cqi); lia) Nsb (cq_max _ _ Ok_cqi) R Ea Ca (dw_cqi _ _ _ _ _ (proj1 S))) as (b & u & Er & _).
  destruct (reported_sound _ ue a cqi.2 b u S Ea Ca R Ri Er) as (Su & Cb). destruct (DlCqiReported_frame _ _ _ _ _ _ _ _ Er) as (Sab & _).
  rewrite Er. cbn [res_bind fst snd]. eexists b, _. split; [done|]. split; [done|]. split; [done|]. split; [split|].
  - destruct (sound_at _ _ _ _ I E) as ([W1 W2 W3 W4 W5] & C & Di).
    exact (mac_inv_put conf s cqi.1 ue (ue <| ue_dl := u |>) I E ltac:(by split) C Di eq_refl eq_refl eq_refl).
  - exact (dl_inv_put conf em nsb s cqi.1 ue (ue <| ue_dl := u |>) D E Su eq_refl).
  - intros k Hk. unfold put_ue. apply lookup_insert_is_Some'. by right.
Qed.

(** Reports of UEs that are there are answered. *)
Lemma DoSchedDlCqiInfoReq_ok cqiList a s :
  mac_inv conf s -> dl_inv conf em nsb s -> a.(m_errorModel) = em -> cache_ok a -> Forall (dl_report_ok s.(m_ueMap)) cqiList ->
  exists b s', DoSchedDlCqiInfoReq conf cc cqiList (a, s) = Ok (b, s') /\ same_amc a b /\ cache_ok b /\ mac_inv conf s' /\ dl_inv conf em nsb s'.
Proof.
  intros I D Ea Ca F. unfold DoSchedDlCqiInfoReq. destruct (m_fixedMcsDl cc); [exists a, s; auto with oran|].
  rewrite (proj2 (Z.ltb_ge _ _)) by apply (cq_period _ _ Ok_cqi). cbn [abort_if res_bind fst snd].
  destruct (res_fold_keeps (fun st => same_amc a st.1 /\ cache_ok st.1 /\
      (mac_inv conf (s <| m_ueMap := st.2 |>) /\ dl_inv conf em nsb (s <| m_ueMap := st.2 |>)) /\
      forall k, is_Some (s.(m_ueMap) !! k) -> is_Some (st.2 !! k)) (dl_cqi conf cc) cqiList (a, s.(m_ueMap)))
    as ([b m'] & -> & Sb & Cb & [Ib Db] & _).
  - cbn [fst snd]. assert (s <| m_ueMap := s.(m_ueMap) |> = s) as -> by (by destruct s). auto with oran.
  - intros cqi [b m] Hc (Sb & Cb & [Ib Db] & K). cbn [fst snd] in *. rewrite Forall_forall in F. destruct (F cqi Hc) as (Iu & R & Ri).
    destruct (dl_cqi_ok cqi b (s <| m_ueMap := m |>) Ib Db) as (b' & m' & E & Sb' & Cb' & Is & K').
    + by rewrite (same_amc_model _ _ Sb).
    + done.
    + split; [by apply K|done].
    + exists (b', m'). split; [exact E|]. split; [by eapply same_amc_trans|]. split; [done|]. split; [exact Is|].
      intros k Hk. by apply K', K.
  - cbn [res_bind fst snd] in *. by exists b, (s <| m_ueMap := m' |>).
Qed.
End dl_cqi.
