(* ===== verification/MacReach.v ===== *)
(** The MAC scheduler as a machine that answers requests: what a request needs to be sound, the schedulers
    that sound requests reach from the empty one, and what holds of all of them. *)
From Stdlib Require Import ZArith Lia Lists.List.
From stdpp Require Import base list gmap strings list_numbers.
From coqutil Require Import Datatypes.RecordSettersUsingExistingGetters.
From S2P Require Import Prelude OrdMap UlScheduler UlProps Amc DlUe CqiManagement Dci LogicalChannels LcProps Harq Srs.
From S2P Require Import SfnSf MacScheduler AmcProps CqiProps DlScheduler DlFacts DlProps ResourceMatrix UlSlot DlSlot.
From S2P Require Import HarqFacts MacFacts UlGrant UlSlotFacts UlData UlSlotProps DlHarq DlData DlSlotProps.
From S2P Require Import MacInvariant MacRequests CqiRequests.
Open Scope Z_scope.
(** The requests the scheduler is given, those of the two service access points, the targets of the
    xApp, the planned shuffle of the offsets and the start of a slot in either direction *)
Inductive mac_req :=
  | UeConfigReq (rnti : Z) (beam : BeamId)
  | UeReleaseReq (rnti : Z)
  | LcConfigReq (rnti : Z) (channels : list LcConfig)
  | LcReleaseReq (rnti : Z) (lcIds : list Z)
  | DlRlcBufferReq (params : RlcBufferReq)
  | UlMacCtrlInfoReq (elements : list MacCeElement)
  | UlSrInfoReq (srList : list Z)
  | DlRachInfoReq (rachList : list RachReq)
  | TargetsReq (targets : gmap Z Z)
  | ShuffleReq
  | UlTriggerReq (snfSf : SfnSf) (type : SlotType) (received : list HarqInfo)
  | DlTriggerReq (snfSf : SfnSf) (type : SlotType) (received : list HarqInfo)
  | DlCqiReq (cqiList : list (Z * DlCqiInfo))
  | UlCqiReq (params : UlCqiInfoReq).

Section machine.
Context `{CppHash} `{CppShuffle} `{NrAmc} `{SymbolPolicy} `{LibM} `{CppReduce} `{CppStableSort} `{StdSort}.
Context (conf : SchedConf) (cc : CqiConf).

(** The handler of each request, with the AMC of the downlink, which caches; a slot also gives an
    allocation. *)
Definition mac_handle (r : mac_req) (amc : Amc) (s : MacSched) : res (Amc * MacSched * option SlotAllocInfo) :=
  let silent (x : res MacSched) := let* s := x in Ok (amc, s, None) in
  match r with
  | UeConfigReq rnti beam => silent (DoCschedUeConfigReq conf rnti beam s)
  | UeReleaseReq rnti => silent (DoCschedUeReleaseReq rnti s)
  | LcConfigReq rnti channels => silent (DoCschedLcConfigReq rnti channels s)
  | LcReleaseReq rnti lcIds => silent (DoCschedLcReleaseReq rnti lcIds s)
  | DlRlcBufferReq params => silent (DoSchedDlRlcBufferReq params s)
  | UlMacCtrlInfoReq elements => silent (DoSchedUlMacCtrlInfoReq elements s)
  | UlSrInfoReq srList => silent (DoSchedUlSrInfoReq srList s)
  | DlRachInfoReq rachList => Ok (amc, DoSchedDlRachInfoReq rachList s, None)
  | TargetsReq targets => Ok (amc, SetUlTargets targets s, None)
  | ShuffleReq => Ok (amc, s <| m_schedulerSrs ::= ShuffleOffsets |>, None)
  | UlTriggerReq snfSf type received =>
      let* r := DoSchedUlTriggerReq conf snfSf type received s in Ok (amc, r.1, Some r.2)
  | DlTriggerReq snfSf type received =>
      let* r := DoSchedDlTriggerReq conf amc snfSf type received s in Ok (amc, r.1, Some r.2)
  | DlCqiReq cqiList => let* r := DoSchedDlCqiInfoReq conf cc cqiList (amc, s) in Ok (r.1, r.2, None)
  | UlCqiReq params => silent (DoSchedUlCqiInfoReq conf cc params s)
  end.

(** A UE that is there *)
Definition ue_there (s : MacSched) (rnti : Z) : Prop := is_Some (s.(m_ueMap) !! ue_key rnti).

(** What each request needs; the reports of the downlink have [nsb] sub-bands or none. *)
Definition req_ok (nsb : Z) (s : MacSched) (r : mac_req) : Prop :=
  match r with
  | UeConfigReq rnti _ => 0 <= rnti /\ (ue_there s rnti \/ (size s.(m_ueMap) < 2560)%nat)
  | UeReleaseReq rnti =>
      ue_there s rnti /\ Forall (fun r => ue_key r <> ue_key rnti) s.(m_srList) /\
      Forall (fun fb => ue_key fb.(fb_rnti) <> ue_key rnti) (s.(m_ulHarqToRetransmit) ++ s.(m_dlHarqToRetransmit))
  | LcConfigReq rnti channels =>
      exists ue, s.(m_ueMap) !! ue_key rnti = Some ue /\
        Forall (fun c => in_dl c -> ~ has_dl ue c.(m_logicalChannelIdentity)) channels /\
        NoDup (m_logicalChannelIdentity <$> filter in_dl channels) /\ room_for ue channels
  | LcReleaseReq rnti _ => ue_there s rnti
  | DlRlcBufferReq params => ue_there s params.(req_rnti) /\ report_sizes params
  | UlMacCtrlInfoReq elements => Forall (ce_ok s.(m_ueMap)) elements
  | UlSrInfoReq srList => Forall (ue_there s) srList /\ NoDup srList
  | DlRachInfoReq rachList => Forall (fun r => 0 < r.(m_estimatedSize)) rachList
  | TargetsReq targets => map_Forall (fun _ t => 0 <= t) targets
  | ShuffleReq => True
  | UlTriggerReq snfSf type received =>
      (type = SlotUL \/ type = SlotF) /\
      (exists ulSfn, GetEncoding snfSf = Ok ulSfn /\ s.(m_ulAllocationMap) !! ulSfn = None) /\
      Forall (fb_known s.(m_ueMap)) received /\ NoDup (fb_key <$> s.(m_ulHarqToRetransmit) ++ received)
  | DlTriggerReq snfSf type received =>
      type <> SlotUL /\
      (exists dlSfn, GetEncoding snfSf = Ok dlSfn /\ 0 <= (taken s dlSfn).(m_totUlSym) /\
         conf.(m_dlCtrlSymbols) + ul_part conf type (taken s dlSfn) <= 14) /\
      Forall (known DL s.(m_ueMap)) received /\
      exists b, Forall (fun fb => in_beam s.(m_ueMap) b (fb_key fb)) (s.(m_dlHarqToRetransmit) ++ received) /\
        (s.(m_harqRrBeams) = [] \/ s.(m_harqRrBeams) = [b])
  | DlCqiReq cqiList => Forall (dl_report_ok nsb s.(m_ueMap)) cqiList
  | UlCqiReq params =>
      cc.(m_fixedMcsUl) = true \/
      params.(cqi_type) = PUSCH /\ sinr_ok conf cc params /\
      exists ulSfn e, GetEncoding params.(cqi_sfnSf) = Ok ulSfn /\ s.(m_ulAllocationMap) !! ulSfn = Some e /\
        Exists (fun a => a.(al_symStart) = params.(cqi_symStart)) e.(m_ulAllocations) /\
        Forall (fun a => a.(al_symStart) = params.(cqi_symStart) -> reportable conf s.(m_ueMap) a) e.(m_ulAllocations)
  end.

(** The scheduler before the first request: its sounding has a starting periodicity, the rest is empty. *)
Definition empty_mac (srs : SrsDefault) : MacSched := mkMac ∅ ∅ [] [] [] [] 0 srs [] ∅ [] ∅ [].

(** The AMC of the downlink starts as [amc], with nothing cached. *)
Context (amc : Amc) (nsb : Z).

Inductive mac_reach : Amc -> MacSched -> Prop :=
  | reach_start start srs :
      SetStartingPeriodicity start (mkSrs 0 [] false) = Ok srs ->
      mac_reach (amc <| m_cachedCqiToMcsMap := ∅ |>) (empty_mac srs)
  | reach_step a s r a' s' out :
      mac_reach a s -> req_ok nsb s r -> mac_handle r a s = Ok (a', s', out) -> mac_reach a' s'.

Context `{!CppHashLaws} `{!CppShuffleLaws} `{!NrAmcLaws} `{!SymbolPolicyLaws} `{!StdSortLaws} (Ok_conf : conf_ok conf).
Context (em : NrErrorModel) `{!ErrorModelLaws em} (Nsb : 0 < nsb <= 256) (Ok_dl : dl_conf_ok conf amc em).
Context (Ok_cqi : cqi_conf_ok conf cc) `{!ErrorModelLaws cc.(m_ulAmc).(m_errorModel)}.

(** What is true of the scheduler in both directions *)
Definition both_inv (s : MacSched) : Prop := mac_inv conf s /\ dl_inv conf em nsb s.

(** ... and of it with its AMC *)
Definition amc_inv (a : Amc) : Prop := same_amc amc a /\ cache_ok a.

(** A change that leaves every UE as the uplink leaves it *)
Lemma both_same s s' :
  both_inv s -> mac_wf conf s' -> ues_rel same_ue s.(m_ueMap) s'.(m_ueMap) -> s'.(m_schedulerSrs) = s.(m_schedulerSrs) ->
  s'.(m_dlHarqToRetransmit) = s.(m_dlHarqToRetransmit) -> both_inv s'.
Proof.
  intros [[_ [S1 S2] Di] D] W Sm Srs Kp. split; [|by eapply dl_ul_slot]. split; [done|split|]; rewrite ?Srs.
  - by rewrite (offsets_same _ _ Sm).
  - eapply ues_rel_forall; [exact Sm|exact S2|]. intros k u v (_ & P & _) Q. cbn in *. congruence.
  - eapply ues_rel_forall; [exact Sm|exact Di|]. intros k u v (_ & _ & _ & (L & _) & _) Q. unfold dl_ids in *. by rewrite L.
Qed.

Lemma empty_mac_inv start srs :
  SetStartingPeriodicity start (mkSrs 0 [] false) = Ok srs -> both_inv (empty_mac srs).
Proof.
  unfold SetStartingPeriodicity. cbn [m_availableOffsetValues]. rewrite bool_decide_true by done. cbn [negb abort_if res_bind].
  case_bool_decide as Hs; [|done]. cbn [negb abort_if res_bind]. intros [= <-].
  split; [|split; [by apply map_Forall_empty|constructor]]. split; [split| |]; try (by apply map_Forall_empty); try constructor; try done.
  split; [done|]. change (seqZ 0 start ++ [] ≡ₚ seqZ 0 start). by rewrite app_nil_r.
Qed.

(** A slot of the downlink *)
Lemma dl_slot_request s snfSf type received :
  both_inv s -> req_ok nsb s (DlTriggerReq snfSf type received) ->
  exists b dlSfn, GetEncoding snfSf = Ok dlSfn /\ dl_request conf em nsb b snfSf type dlSfn received s.
Proof.
  intros [_ [U K]] (Ty & (dlSfn & En & T0 & Rm) & Kn & b & Ib & Hq). exists b, dlSfn. split; [done|].
  apply Forall_app in Ib as [Ik Ir]. split; try done. split; try done; intros k ue E; apply (U k ue E).
Qed.

(** A sound request is answered, and the invariant holds afterwards. *)
Lemma mac_handle_ok r a s :
  amc_inv a -> both_inv s -> req_ok nsb s r ->
  exists a' s' out, mac_handle r a s = Ok (a', s', out) /\ amc_inv a' /\ both_inv s'.
Proof.
  intros [Sa Ca] [I D] R. destruct r; cbn [mac_handle req_ok] in *.
  - destruct R as [R0 R].
    assert (exists s', DoCschedUeConfigReq conf rnti beam s = Ok s' /\ mac_inv conf s') as (s' & E' & I').
    { destruct (s.(m_ueMap) !! ue_key rnti) as [ue|] eqn:E; [by apply (config_old_ok conf rnti beam s ue)|].
      destruct R as [[? Q]|R]; [by rewrite E in Q|].
      destruct (config_new_ok conf Ok_conf rnti beam s I R0 E R) as (s' & E' & I' & _). by exists s'. }
    rewrite E'. exists a, s', None. split; [done|]. split; [done|]. split; [done|]. by eapply dl_config.
  - destruct R as ([ue E] & F1 & [F2 F3]%Forall_app). destruct (release_ok conf rnti s ue I E F1 F2) as (s' & E' & I' & _). rewrite E'.
    exists a, s', None. split; [done|]. split; [done|]. split; [done|]. by eapply dl_release.
  - destruct R as (ue & E & F & N & Rm). destruct (config_channels_ok conf rnti channels s ue I E F N) as (s' & E' & I'). rewrite E'.
    exists a, s', None. split; [done|]. split; [done|]. split; [done|]. by eapply dl_channels.
  - destruct (release_channels_ok conf rnti lcIds s I R) as (s' & E' & I'). rewrite E'. exists a, s', None. split; [done|]. split; [done|]. split; [done|].
    by eapply dl_release_channels.
  - destruct R as [R Sz]. destruct (buffer_report_ok conf params s I R) as (s' & E' & I'). rewrite E'. exists a, s', None. split; [done|]. split; [done|]. split; [done|].
    by eapply dl_report.
  - destruct (ctrl_info_ok conf elements s I R) as (s' & E' & I'). rewrite E'. exists a, s', None. split; [done|]. split; [done|]. split; [done|].
    by eapply dl_ctrl_info.
  - destruct R as [F N]. destruct (sr_info_ok conf Ok_conf srList s I F N) as (s' & E' & I' & _). rewrite E'. exists a, s', None. split; [done|]. split; [done|]. split; [done|].
    unfold DoSchedUlSrInfoReq in E'. destruct (_ <? _)%nat; [done|]. cbn [abort_if res_bind] in E'. injection E' as <-. by destruct D.
  - eexists a, _, None. split; [done|]. split; [done|]. split; [by apply rach_ok|by destruct D].
  - eexists a, _, None. split; [done|]. split; [done|]. split; [by apply targets_ok|by destruct D].
  - eexists a, _, None. split; [done|]. split; [done|]. split; [by apply shuffle_ok|by destruct D].
  - destruct R as (Ty & (ulSfn & En & New) & Kn & Nd).
    destruct (DoSchedUlTriggerReq_ok conf Ok_conf snfSf type ulSfn received s) as (st & s' & alloc & -> & W & _ & Sm & [Srs Kp] & _).
    { by split; [apply (mi_wf _ _ I)|..]. }
    cbn [res_bind fst snd]. exists a, s', (Some alloc). split; [done|]. split; [done|]. by apply (both_same s).
  - destruct (dl_slot_request s snfSf type received (conj I D) R) as (b & dlSfn & _ & Rq).
    destruct (DoSchedDlTriggerReq_ok conf Ok_conf a em nsb (dl_conf_same _ _ _ _ Ok_dl Sa) b snfSf type dlSfn received s Rq)
      as (last & s' & alloc & -> & W & _ & Sm & _ & [_ Uk] & _). cbn [res_bind fst snd].
    exists a, s', (Some alloc). split; [done|]. split; [done|]. by eapply ul_dl_slot.
  - destruct (DoSchedDlCqiInfoReq_ok conf cc Ok_cqi em nsb Nsb cqiList a s I D) as (a' & s' & -> & Sa' & Ca' & Is);
      [by rewrite (same_amc_model _ _ Sa), (dc_model _ _ _ Ok_dl)|done|done|].
    cbn [res_bind fst snd]. exists a', s', None. split; [done|]. split; [|done]. split; [by eapply same_amc_trans|done].
  - destruct R as [Fx|(Ty & Sn & ulSfn & e & En & Ee & Ex & F)].
    { unfold DoSchedUlCqiInfoReq. rewrite Fx. by exists a, s, None. }
    destruct (m_fixedMcsUl cc) eqn:Fx.
    { unfold DoSchedUlCqiInfoReq. rewrite Fx. by exists a, s, None. }
    destruct (DoSchedUlCqiInfoReq_ok conf cc Ok_cqi params ulSfn e s Fx Ty Sn (proj1 (dc_rb _ _ _ Ok_dl)) En Ee Ex F) as (m' & -> & G).
    cbn [res_bind]. eexists a, _, None. split; [done|]. split; [done|].
    apply (both_same s); [done| |exact (cqi_given_same _ _ _ _ _ _ G)|done|done]. by eapply (cqi_given_wf _ _ _ _ s); [apply (mi_wf _ _ I)|exact G|..].
Qed.


(** The scheduler after a request; one that is refused changes nothing. *)
Definition after (a : Amc) (r : mac_req) (s : MacSched) : MacSched :=
  match mac_handle r a s with Ok (_, s', _) => s' | Abort _ => s end.

Lemma mac_reach_inv a s : mac_reach a s -> amc_inv a /\ both_inv s.
Proof.
  induction 1 as [start srs E|a s r a' s' out _ [Ia I] R E].
  - split; [|by eapply empty_mac_inv]. split; [by destruct amc|]. by apply map_Forall_empty.
  - destruct (mac_handle_ok r a s Ia I R) as (a'' & s'' & out' & E' & I'). rewrite E in E'. by injection E' as <- <- _.
Qed.

(** Only the CQIs of the downlink touch its AMC. *)
Definition quiet (r : mac_req) : Prop := match r with DlCqiReq _ => False | _ => True end.

Lemma mac_handle_quiet r a s a' s' out : quiet r -> mac_handle r a s = Ok (a', s', out) -> a' = a.
Proof. intros Q. destruct r; try done; cbn [mac_handle]; intros E; inv_res; congruence. Qed.

Lemma reach_after a r s : quiet r -> mac_reach a s -> req_ok nsb s r -> mac_reach a (after a r s).
Proof.
  intros Q R Rq. unfold after. destruct (mac_handle r a s) as [[[a' s'] out]|msg] eqn:E; [|done].
  rewrite <- (mac_handle_quiet r a s a' s' out Q E) at 1. by eapply reach_step.
Qed.

(** A sound request for an uplink slot has what the slot needs. *)
Lemma reach_slot a s snfSf type ulSfn received :
  mac_reach a s -> req_ok nsb s (UlTriggerReq snfSf type received) -> GetEncoding snfSf = Ok ulSfn ->
  slot_request conf snfSf type ulSfn received s.
Proof.
  intros R (Ty & (n & En & New) & Kn & Nd) E. rewrite E in En. injection En as <-.
  split; try done. apply (mi_wf _ _ (proj1 (proj2 (mac_reach_inv a s R)))).
Qed.

Lemma slot_after a s snfSf type received :
  mac_reach a s -> req_ok nsb s (UlTriggerReq snfSf type received) ->
  exists alloc, DoSchedUlTriggerReq conf snfSf type received s = Ok (after a (UlTriggerReq snfSf type received) s, alloc).
Proof.
  intros R Rq. destruct (mac_reach_inv a s R) as [Ia I]. destruct (mac_handle_ok _ a s Ia I Rq) as (a' & s' & out & E & _). unfold after. rewrite E.
  cbn [mac_handle] in E. destruct (DoSchedUlTriggerReq conf snfSf type received s) as [[s1 alloc]|msg]; [|done].
  cbn [res_bind fst snd] in E. injection E as _ <- <-. by exists alloc.
Qed.
End machine.
