(* ===== verification/MacProps.v ===== *)
(** What the MAC scheduler guarantees: the uplink slot, the uplink targets, the HARQ processes, the
    sounding offsets, and that no sequence of sound requests makes it abort. *)
From Stdlib Require Import ZArith Lia Lists.List.
From stdpp Require Import base list gmap strings list_numbers.
From coqutil Require Import Datatypes.RecordSettersUsingExistingGetters.
From S2P Require Import Prelude OrdMap Messages UlScheduler UlProps Amc DlUe CqiManagement Dci LogicalChannels LcProps.
From S2P Require Import Harq Srs SfnSf AmcProps CqiProps DlScheduler DlFacts DlProps MacScheduler ResourceMatrix.
From S2P Require Import UlSlot DlSlot SlotLayout UlTiling HarqFacts MacFacts UlGrant UlSlotFacts UlData UlSlotProps.
From S2P Require Import DlSlotFacts DlData MacInvariant MacRequests CqiRequests MacReach.
Open Scope Z_scope.
(** ** The uplink slot *)

Section slot.
Context `{CppHash, !CppHashLaws} `{NrAmc, !NrAmcLaws} `{SymbolPolicy, !SymbolPolicyLaws}.
Context (conf : SchedConf) (Ok_conf : conf_ok conf).


(** C3: The uplink targets hold at the level of the slot: whatever the beams, the buffers, the retransmissions
    and the policy for the symbols, the grant of new data to a UE with a target has at most that many RBGs,
    all of them in the uplink mask. *)
Theorem uplink_targets_kept snfSf type ulSfn received s s' alloc v t :
  slot_request conf snfSf type ulSfn received s -> DoSchedUlTriggerReq conf snfSf type received s = Ok (s', alloc) ->
  v ∈ alloc.(m_varTtiAllocInfo) -> dci_type (m_dci v) = DATA -> m_rv (m_dci v) = 0 ->
  s.(m_ulTargets) !! dci_rnti (m_dci v) = Some t ->
  Z.of_nat (length (remaining_rbgs (m_rbgBitmask (m_dci v)))) <= t /\
  forall i, m_rbgBitmask (m_dci v) !! i = Some true -> GetUlBitmask conf !! i = Some true.
Proof.
  intros R E Hv D Rv Ht. destruct (DoSchedUlTriggerReq_ok conf Ok_conf snfSf type ulSfn received s R) as (st & s1 & alloc1 & E1 & _ & [_ T _ _ _] & _).
  rewrite E in E1. injection E1 as <- <-. clear -T Hv D Rv Ht. induction T as [|st n b g rest S N Ne F A T IH]; [by apply elem_of_nil in Hv|].
  apply elem_of_app in Hv as [Hv|Hv]; [|auto]. rewrite Forall_forall in F. destruct (F v Hv) as [_ _ _ _ _ _ [M|M] W]; [congruence|].
  split; [by apply (proj1 W)|done].
Qed.

(** C19: Every grant of data waits for feedback in the HARQ process it names, whose only DCI it is, and no UE is
    granted new data twice, or new data on top of a retransmission or a sounding signal. *)
Theorem uplink_grants_wait snfSf type ulSfn received s s' alloc :
  slot_request conf snfSf type ulSfn received s -> DoSchedUlTriggerReq conf snfSf type received s = Ok (s', alloc) ->
  (forall v, v ∈ alloc.(m_varTtiAllocInfo) -> dci_type (m_dci v) = DATA ->
     exists p, proc_at s'.(m_ueMap) (ue_key (dci_rnti (m_dci v))) (m_harqProcess (m_dci v)) = Some p /\ hp_active p = true /\
       hp_status p = WAITING_FEEDBACK /\ hp_timer p = 0 /\ m_dciElement p = Some (m_dci v)) /\
  ForallOrdPairs (fun v w => dci_type (m_dci v) = DATA -> m_rv (m_dci v) = 0 -> dci_rnti (m_dci v) <> dci_rnti (m_dci w))
    alloc.(m_varTtiAllocInfo).
Proof.
  intros R E. destruct (DoSchedUlTriggerReq_ok conf Ok_conf snfSf type ulSfn received s R) as (st & s1 & alloc1 & E1 & _ & [_ _ _ G O] & _).
  rewrite E in E1. injection E1 as <- <-. split; [|exact O]. intros v Hv. rewrite Forall_forall in G. exact (G v Hv).
Qed.

(** C20: Negative feedback for a process that may be sent again is not forgotten while the slot has room: the
    process is sent again in this slot, or its feedback is kept for the next one, or no symbol is left. *)
Theorem feedback_answered snfSf type ulSfn received s fb :
  slot_request conf snfSf type ulSfn received s -> fb ∈ s.(m_ulHarqToRetransmit) ++ received ->
  IsReceivedOk fb = false -> may_resend conf s.(m_ueMap) fb ->
  exists s' alloc, DoSchedUlTriggerReq conf snfSf type received s = Ok (s', alloc) /\
    ((exists v, v ∈ alloc.(m_varTtiAllocInfo) /\ dci_type (m_dci v) = DATA /\ dci_rnti (m_dci v) = fb.(fb_rnti) /\
        m_harqProcess (m_dci v) = fb.(fb_process) /\ 0 < m_rv (m_dci v)) \/
     fb ∈ s'.(m_ulHarqToRetransmit) \/ alloc.(m_numSymAlloc) = 14 - dl_symbols conf type).
Proof.
  intros R Hfb Nok May. destruct (DoSchedUlTriggerReq_ok conf Ok_conf snfSf type ulSfn received s R) as (st & s' & alloc & E & _ & [_ _ N _ _] & _ & _ & _ & _ & _ & F).
  exists s', alloc. split; [done|]. destruct (F fb Hfb Nok May) as [(v & Hv & Rs)|[K|K]]; [left; by exists v|by right; left|right; right].
  by rewrite N, K.
Qed.

(** ** Processes without an answer *)

(** Uplink slots one after another, none of which has feedback for the process [id] of the UE [k] *)
Inductive silent_slots (k : nat) (id : Z) : nat -> MacSched -> MacSched -> Prop :=
  | no_slot s : silent_slots k id 0 s s
  | next_slot n snfSf type ulSfn received s s1 alloc s' :
      slot_request conf snfSf type ulSfn received s -> (Z.of_nat k, id) ∉ fb_key <$> s.(m_ulHarqToRetransmit) ++ received ->
      DoSchedUlTriggerReq conf snfSf type received s = Ok (s1, alloc) -> silent_slots k id n s1 s' ->
      silent_slots k id (S n) s s'.

Lemma silent_ages k id n s s' :
  silent_slots k id n s s' -> forall p, proc_at s.(m_ueMap) k id = Some p -> hp_active p = true -> hp_status p = WAITING_FEEDBACK ->
  0 <= hp_timer p -> hp_timer p + Z.of_nat n <= conf.(GetNumHarqProcess) ->
  proc_at s'.(m_ueMap) k id = Some (p <| hp_timer := hp_timer p + Z.of_nat n |>).
Proof.
  induction 1 as [s|n snfSf type ulSfn received s s1 alloc s' R Nk E Sl IH]; intros p Ep A St T0 T.
  { rewrite Ep. rewrite Z.add_0_r. by destruct p. }
  destruct (DoSchedUlTriggerReq_ok conf Ok_conf snfSf type ulSfn received s R) as (st & s2 & alloc2 & E2 & _ & _ & _ & _ & Ag & _).
  rewrite E in E2. injection E2 as <- <-. pose proof (co_harq _ Ok_conf) as Hq.
  assert (aged conf.(GetNumHarqProcess) p = p <| hp_timer := hp_timer p + 1 |>) as Ea.
  { unfold aged. rewrite decide_False by (by rewrite St). rewrite (proj2 (Z.ltb_lt _ _)) by lia. destruct p as [a x t d l]. cbn in *.
    transitivity (mkHarq a x (u8 (t + 1)) d l); [done|]. by rewrite wrap_small by (unfold fits; lia). }
  rewrite (IH (p <| hp_timer := hp_timer p + 1 |>)).
  - f_equal. destruct p as [a x t d l]. cbn. transitivity (mkHarq a x (t + 1 + Z.of_nat n) d l); [done|].
    transitivity (mkHarq a x (t + Z.of_nat (S n)) d l); [f_equal; lia|done].
  - rewrite <- Ea. apply (Ag k id p Ep A St Nk). lia.
  - by destruct p.
  - by destruct p.
  - destruct p. cbn in *. unfold const. lia.
  - destruct p. cbn in *. unfold const. lia.
Qed.

(** C25: A UE is not blocked by feedback that never comes: a process that waits is kept through
    [GetNumHarqProcess] slots, ageing by one in each, and the slot after them gives it up first. *)
Theorem unanswered_process_expires k id s s' p kept received :
  proc_at s.(m_ueMap) k id = Some p -> hp_active p = true -> hp_status p = WAITING_FEEDBACK -> hp_timer p = 0 ->
  silent_slots k id (Z.to_nat conf.(GetNumHarqProcess)) s s' ->
  proc_at s'.(m_ueMap) k id = Some (p <| hp_timer := conf.(GetNumHarqProcess) |>) /\
  (map_Forall (ue_wf conf) s'.(m_ueMap) -> Forall (fb_known s'.(m_ueMap)) (kept ++ received) -> NoDup (fb_key <$> kept ++ received) ->
   (Z.of_nat k, id) ∉ fb_key <$> kept ++ received ->
   exists l m', process_feedback conf UL kept received s'.(m_ueMap) = Ok (l, m') /\ proc_at m' k id = Some idle_process).
Proof.
  intros Ep A St T Sl. pose proof (co_harq _ Ok_conf) as Hq.
  pose proof (silent_ages k id _ s s' Sl p Ep A St ltac:(lia) ltac:(lia)) as E. rewrite T, Z2Nat.id in E by lia. cbn [Z.add] in E.
  split; [exact E|]. intros W F Nd Nk.
  destruct (process_feedback_ok conf s'.(m_ueMap) kept received Hq W F Nd) as (l & m' & Ef & _ & _ & _ & _ & _ & Ag & _).
  exists l, m'. split; [done|]. rewrite (Ag k id Nk), E. set (q := p <| hp_timer := _ |>).
  assert (hp_status q = WAITING_FEEDBACK /\ hp_timer q = conf.(GetNumHarqProcess)) as [Sq Tq] by (by destruct p).
  cbn. unfold aged. rewrite Tq, Z.ltb_irrefl, decide_False by (by rewrite Sq). done.
Qed.
End slot.

(** ** The scheduler under its requests *)

Section machine.
Context `{CppHash, !CppHashLaws} `{CppShuffle, !CppShuffleLaws} `{NrAmc, !NrAmcLaws} `{SymbolPolicy, !SymbolPolicyLaws}.
Context `{LibM} `{CppReduce} `{CppStableSort} `{StdSort, !StdSortLaws} (conf : SchedConf) (Ok_conf : conf_ok conf).
Context (amc : Amc) (em : NrErrorModel) `{!ErrorModelLaws em} (nsb : Z) (Nsb : 0 < nsb <= 256) (Ok_dl : dl_conf_ok conf amc em).
Context (cc : CqiConf) (Ok_cqi : cqi_conf_ok conf cc) `{!ErrorModelLaws cc.(m_ulAmc).(m_errorModel)}.

Lemma reached_inv a s : mac_reach conf cc amc nsb a s -> amc_inv amc a /\ both_inv conf nsb em s.
Proof. by apply (mac_reach_inv conf cc amc nsb Ok_conf em Nsb Ok_dl Ok_cqi). Qed.

(** C6: Whatever sound requests the scheduler has answered, slots and CQI reports of both directions among them,
    the next sound one is answered too, no assertion fails and no member is missing, and the UEs are well formed in both
    directions afterwards. *)
Theorem mac_requests_served a s r :
  mac_reach conf cc amc nsb a s -> req_ok conf cc nsb s r ->
  exists a' s' out, mac_handle conf cc r a s = Ok (a', s', out) /\ mac_reach conf cc amc nsb a' s' /\
    map_Forall (ue_wf conf) s'.(m_ueMap) /\ map_Forall (dl_ue_wf conf em nsb) s'.(m_ueMap).
Proof.
  intros R Rq. destruct (reached_inv a s R) as [Ia Is].
  destruct (mac_handle_ok conf cc amc nsb Ok_conf em Nsb Ok_dl Ok_cqi r a s Ia Is Rq) as (a' & s' & out & E & _ & I & D).
  exists a', s', out. split; [done|]. split; [by eapply reach_step|]. split; [apply (mw_ues _ _ (mi_wf _ _ I))|].
  intros k ue Eu. apply (di_ues _ _ _ _ D k ue Eu).
Qed.

(** C26: In every scheduler that sound requests reach, UEs may have come, gone, and been given other periods: all
    UEs have the period of the scheduler and an offset within it that is not free, and no two of them sound
    in the same slot. *)
Theorem sounding_never_collides a s k j u v :
  mac_reach conf cc amc nsb a s -> s.(m_ueMap) !! k = Some u -> s.(m_ueMap) !! j = Some v ->
  u.(m_srsPeriodicity) = s.(m_schedulerSrs).(m_periodicity) /\ 0 <= u.(m_srsOffset) < u.(m_srsPeriodicity) /\
  u.(m_srsOffset) ∉ s.(m_schedulerSrs).(m_availableOffsetValues) /\
  forall counter, counter mod u.(m_srsPeriodicity) = u.(m_srsOffset) -> counter mod v.(m_srsPeriodicity) = v.(m_srsOffset) -> k = j.
Proof.
  intros R Eu Ev. destruct (mi_srs _ _ (proj1 (proj2 (reached_inv a s R)))) as [[_ P] Per].
  pose proof (Per k u Eu) as Pu. pose proof (Per j v Ev) as Pv. cbn in Pu, Pv.
  assert (m_srsOffset u ∈ offsets s.(m_ueMap)) as Ho.
  { rewrite (offsets_delete k u _ Eu). by left. }
  assert (m_srsOffset u ∈ seqZ 0 (m_periodicity (m_schedulerSrs s))) as Hs by (rewrite <- P; apply elem_of_app; by right).
  assert (NoDup (m_availableOffsetValues (m_schedulerSrs s) ++ offsets (m_ueMap s))) as N by (rewrite P; apply NoDup_seqZ).
  apply NoDup_app in N as (_ & Nf & No). apply elem_of_seqZ in Hs. split; [done|]. split; [lia|]. split; [intros Hf; by apply (Nf _ Hf)|].
  intros counter Cu Cv. destruct (decide (k = j)) as [|Ne]; [done|exfalso]. rewrite Pu in Cu. rewrite Pv in Cv.
  rewrite (offsets_delete k u _ Eu) in No. apply NoDup_cons in No as [No _]. apply No.
  rewrite (offsets_delete j v); [rewrite <- Cu, Cv; by left|]. by rewrite lookup_delete_ne.
Qed.

(** C21: A CQI report for a data allocation of an uplink slot is always answered, whatever came between, as long
    as the record of the slot and the UEs of the symbol are still there: the UE gets the SINR, a timer and an
    MCS of the tables, UEs that did not send on that symbol are left alone, and exactly the allocations that
    start there leave the record, which goes with the last of them. *)
Theorem uplink_reports_answered snfSf type ulSfn received s s' alloc params s1 v :
  slot_request conf snfSf type ulSfn received s -> DoSchedUlTriggerReq conf snfSf type received s = Ok (s', alloc) ->
  s1.(m_ulAllocationMap) !! ulSfn = s'.(m_ulAllocationMap) !! ulSfn ->
  v ∈ alloc.(m_varTtiAllocInfo) -> dci_type (m_dci v) = DATA ->
  cc.(m_fixedMcsUl) = false -> params.(cqi_type) = PUSCH -> sinr_ok conf cc params ->
  GetEncoding params.(cqi_sfnSf) = Ok ulSfn -> params.(cqi_symStart) = m_symStart (m_dci v) ->
  (forall w, w ∈ alloc.(m_varTtiAllocInfo) -> m_symStart (m_dci w) = m_symStart (m_dci v) -> ue_there s1 (dci_rnti (m_dci w))) ->
  exists s2 ue, DoSchedUlCqiInfoReq conf cc params s1 = Ok s2 /\
    (s2.(m_ueMap) !! ue_key (dci_rnti (m_dci v)) = Some ue /\ ue.(ue_ulCqi).(m_timer) = expirationTime cc /\
     ue.(ue_ulCqi).(m_sinr) = params.(cqi_sinr) /\ 0 <= ue.(ue_ul).(m_ulMcs) <= cc.(m_ulAmc).(m_errorModel).(GetMaxMcs)) /\
    (forall k, (forall w, w ∈ alloc.(m_varTtiAllocInfo) -> m_symStart (m_dci w) = m_symStart (m_dci v) -> ue_key (dci_rnti (m_dci w)) <> k) ->
       s2.(m_ueMap) !! k = s1.(m_ueMap) !! k) /\
    s2.(m_ulAllocationMap) !! ulSfn =
      match filter (fun a => a.(al_symStart) <> m_symStart (m_dci v)) (data_allocs alloc.(m_varTtiAllocInfo)) with
      | [] => None
      | kept => Some (mkSlotElem alloc.(m_numSymAlloc) kept)
      end.
Proof.
  intros Q E Em Hv Dv Fx Ty Sn En Sy There.
  destruct (DoSchedUlTriggerReq_ok conf Ok_conf snfSf type ulSfn received s Q) as (st & s0 & al0 & E0 & _ & [_ T Ns _ _] & _ & _ & _ & M & _).
  rewrite E in E0. injection E0 as <- <-. rewrite M, lookup_insert_eq in Em.
  pose proof (slot_reportable conf Ok_conf _ _ _ _ T) as Rep.
  destruct (DoSchedUlCqiInfoReq_ok conf cc Ok_cqi params ulSfn _ s1 Fx Ty Sn (proj1 (dc_rb _ _ _ Ok_dl)) En Em) as (m' & -> & G).
  { apply Exists_exists. exists (alloc_elem v). split; [|by rewrite Sy]. apply data_allocs_elem; [done| |by left].
    exact (proj1 (Forall_forall _ _) (tiling_ul _ _ _ _ _ T) v Hv). }
  { apply Forall_forall. intros a (w & Hw & Hc & ->)%data_allocs_inv Ra. cbn in Ra. split; [apply There; [done|by rewrite Ra, Sy]|by apply Rep]. }
  cbn [m_ulAllocations m_totUlSym] in *. eexists.
  destruct (cqi_given_at conf cc Ok_cqi params _ _ _ (alloc_elem v) (proj1 (dc_rb _ _ _ Ok_dl)) Sn G) as (ue & Eu & Gu).
  { apply data_allocs_elem; [done| |by left]. exact (proj1 (Forall_forall _ _) (tiling_ul _ _ _ _ _ T) v Hv). }
  { by rewrite Sy. }
  { intros a (w & Hw & Hc & ->)%data_allocs_inv. by apply Rep. }
  exists ue. split; [reflexivity|]. split; [by split|]. split.
  - intros k Nk. cbn. destruct (G k) as [[Ek _]|(a & c & c' & u & (w & Hw & _ & ->)%data_allocs_inv & Ra & Ka & _)]; [done|].
    exfalso. cbn in Ra, Ka. apply (Nk w Hw); [by rewrite Ra, Sy|done].
  - cbn. rewrite Sy, Ns. destruct (filter _ _) eqn:Ef; [by rewrite lookup_delete_eq|by rewrite lookup_insert_eq].
Qed.

(** ** What releasing a UE leaves behind *)

Lemma sr_unknown_aborts rnti rntis m :
  rnti ∈ rntis -> m !! ue_key rnti = None -> exists msg, DoScheduleUlSr rntis m = Abort msg.
Proof.
  unfold DoScheduleUlSr. revert m. induction rntis as [|r l IH]; intros m Hr E; [by apply elem_of_nil in Hr|]. cbn [res_fold].
  destruct (decide (r = rnti)) as [->|Ne].
  { unfold find_ue at 1. rewrite E. cbn [res_bind]. by eexists. }
  apply elem_of_cons in Hr as [?|Hr]; [by subst|].
  destruct (find_ue r m) as [ue|msg] eqn:Ef; cbn [res_bind]; [|by eexists].
  match goal with |- context [res_bind (res_bind ?x _) _] => destruct x as [lcgs|msg]; cbn [res_bind]; [|by eexists] end.
  apply IH; [done|]. unfold put_ue. destruct (decide (ue_key r = ue_key rnti)) as [Ek|Nk]; [|by rewrite lookup_insert_ne].
  unfold find_ue in Ef. by rewrite Ek, E in Ef.
Qed.

(** C39: A UE that is released while a scheduling request of it is pending brings the scheduler down: the
    release leaves the request in m_srList, and the next uplink slot with a symbol left dereferences it. *)
Theorem release_with_pending_request_aborts snfSf rnti s s1 ulSfn :
  mac_wf conf s -> rnti ∈ s.(m_srList) -> DoCschedUeReleaseReq rnti s = Ok s1 ->
  s.(m_ulHarqToRetransmit) = [] -> s.(m_rachList) = [] -> conf.(m_srsCtrlSymbols) < 13 ->
  GetEncoding snfSf = Ok ulSfn -> s.(m_ulAllocationMap) !! ulSfn = None ->
  exists msg, DoSchedUlTriggerReq conf snfSf SlotUL [] s1 = Abort msg.
Proof.
  intros W Hr Rel Kept Rach Srs En New. unfold DoCschedUeReleaseReq in Rel.
  destruct (find_ue rnti (m_ueMap s)) as [ue|]; [|done]. cbn [res_bind] in Rel. injection Rel as <-.
  unfold DoSchedUlTriggerReq. cbn [m_ueMap m_ulHarqToRetransmit]. set (m := delete (ue_key rnti) (m_ueMap s)).
  destruct (refresh_ues conf m) as (W1 & C1 & S1 & P1); [by apply map_Forall_delete, (mw_ues _ _ W)|by apply map_Forall_delete, (mw_clear _ _ W)|].
  set (m1 := refresh_ul_ue conf <$> m) in *. change (m_ulHarqToRetransmit (_ <| m_ueMap ::= _ |>)) with (m_ulHarqToRetransmit s). rewrite Kept.
  destruct (process_feedback_ok conf m1 [] [] (co_harq _ Ok_conf) W1 ltac:(constructor) ltac:(constructor)) as (l & m2 & Ef & W2 & C2 & S2 & Sl & _).
  apply sublist_nil_r in Sl as ->.
  match goal with |- context [process_feedback conf UL [] [] ?x] => change x with m1 end. rewrite Ef. cbn [res_bind fst snd].
  unfold ScheduleUl. rewrite (co_symbols _ Ok_conf), (co_ulCtrl _ Ok_conf).
  change (AppendCtrlSym conf (u8 (14 - 1)) 1 UL []) with (Ok [slot_info (ctrl_dci conf UL 13)] : res (list VarTti)). cbn [res_bind].
  rewrite En. cbn [res_bind]. change (u32 1) with 1.
  unfold DoScheduleUl. cbn [length Nat.eqb m_varTtiAllocInfo negb abort_if res_bind].
  rewrite (co_symbols _ Ok_conf), (co_ulCtrl _ Ok_conf). change (u8 (14 - 1)) with 13. rewrite bool_decide_false by done.
  change (ComputeActiveHarq [] _) with (Ok [] : res (list (BeamId * list (Z * Z)))). cbn [res_bind].
  match goal with |- context [mkSlot (mkPoint 0 13) ?x _] => change x with m2 end.
  match goal with |- context [ul_srs conf SlotUL ?c 13 ?x] =>
    destruct (srs_step conf Ok_conf m2 SlotUL c x (slot_wf_start conf Ok_conf m2 W2 (C2 C1)) ltac:(by left)) as ([[counter sym1] s2] & E2 & [B1 B2] & W3 & U1) end.
  change (13 - dl_symbols conf SlotUL) with 13 in *. rewrite E2. cbn [res_bind fst snd] in *.
  match goal with |- context [ul_msg3 conf SlotUL ?x sym1 s2] => change x with (m_rachList s) end. rewrite Rach. cbn [ul_msg3].
  unfold ul_msg3. rewrite bool_decide_true by done. cbn [negb andb]. unfold ul_harq. rewrite bool_decide_true by done. cbn [negb res_bind].
  rewrite (sw_point _ _ _ _ _ W3). cbn [spoint_rbg Z.eqb negb abort_if res_bind]. unfold ul_sr. rewrite (proj2 (Z.ltb_lt _ _)) by lia.
  match goal with |- context [DoScheduleUlSr ?x _] => change x with (m_srList s) end.
  rewrite bool_decide_false by (intros E; rewrite E in Hr; by apply elem_of_nil in Hr). cbn [negb andb].
  destruct (sr_unknown_aborts rnti (m_srList s) (sl_ues s2) Hr) as (msg & ->); [|by exists msg].
  rewrite U1. cbn [sl_ues]. assert (m !! ue_key rnti = None) as Em by apply lookup_delete_eq.
  assert (ues_rel same_ue m m2) as S12 by (by eapply same_ues_trans). specialize (S12 (ue_key rnti)). rewrite Em in S12. by inversion S12.
Qed.
End machine.
