(* ===== verification/MacExamples.v ===== *)
(** A cell with three UEs in two beams, built by the requests of the MAC, on which the properties of
    MacProps.v are instances. *)
From Stdlib Require Import ZArith Lia Lists.List.
From stdpp Require Import base list gmap strings list_numbers.
From coqutil Require Import Datatypes.RecordSettersUsingExistingGetters.
From S2P Require Import Prelude OrdMap Messages UlScheduler UlProps Amc DlUe CqiManagement Dci LogicalChannels LcProps.
From S2P Require Import Harq Srs SfnSf AmcProps CqiProps DlScheduler DlFacts DlProps MacScheduler ResourceMatrix.
From S2P Require Import UlSlot DlSlot SlotLayout UlTiling HarqFacts MacFacts UlGrant UlSlotFacts UlData UlSlotProps.
From S2P Require Import DlSlotFacts DlGrant DlData MacInvariant MacRequests CqiRequests MacReach MacProps.
Open Scope Z_scope.
(** Maps are iterated in the order of their keys, and the shuffle reverses. *)
Definition in_order : CppHash := {| hashed := fun _ l => l |}.
Definition reversing : CppShuffle := {| Shuffle := @rev Z |}.
#[local] Existing Instance in_order.
#[local] Existing Instance reversing.
#[local] Existing Instance rr_policy.
#[local] Existing Instance rr_policy_laws.
(** A transport block of 30 bytes per resource block, and at most 4000 *)
Definition slot_amc : NrAmc := {| UlScheduler.CalculateTbSize := fun _ _ nprb => Z.max 0 (Z.min (30 * nprb) 4000) |}.
#[local] Existing Instance slot_amc.

#[local] Instance in_order_laws : CppHashLaws.
Proof. by split. Qed.
#[local] Instance reversing_laws : CppShuffleLaws.
Proof. split. intros l. symmetry. apply Permutation_rev. Qed.
#[local] Instance slot_amc_laws : NrAmcLaws.
Proof. split. intros mcs rank nprb. unfold fits. cbn. lia. Qed.

#[local] Existing Instance some_libm.
#[local] Existing Instance some_reduce.
#[local] Existing Instance toy_sort.
#[local] Existing Instance toy_stable.
(** The downlink has the LTE tables. *)
Definition toy_lte : Amc := mkAmc ErrorModel (lte_error_model toy_tbler) NrLteMiErrorModel 1 DL ∅.
Abbreviation toy_em := (lte_error_model toy_tbler).

(** A slot of 14 symbols with one for control on each side, one for sounding in uplink slots, 3 RBGs and
    2 HARQ processes *)
Definition toy_conf : SchedConf := mkConf 14 1 1 1 true false true 2 3 1 0 [] [] 0 20 0 WIDEBAND_MCS.

Lemma toy_conf_ok : conf_ok toy_conf.
Proof. by split. Qed.

(** The blocks of up to 42 resource blocks *)
Lemma toy_blocks :
  forallb (fun mcs => forallb (fun rank => forallb (fun n =>
      match CalculateTbSize mcs rank n toy_lte with Ok tbs => tbs <? 2 ^ 32 | Abort _ => false end)
    (seqZ 0 43)) (seqZ 1 4)) (seqZ 0 29) = true.
Proof. vm_compute. reflexivity. Qed.

Lemma toy_dl_ok : dl_conf_ok toy_conf toy_lte toy_em.
Proof.
  split; try done; [by right|]. intros mcs rank n Hm Hr Hn. pose proof toy_blocks as F. rewrite forallb_forall in F.
  specialize (F mcs). rewrite forallb_forall in F. specialize (F ltac:(apply list_elem_of_In, elem_of_seqZ; cbn in Hm; unfold lte_GetMaxMcs in Hm; lia) rank).
  rewrite forallb_forall in F. specialize (F ltac:(apply list_elem_of_In, elem_of_seqZ; lia) n ltac:(apply list_elem_of_In, elem_of_seqZ; cbn in Hn; lia)).
  destruct (CalculateTbSize mcs rank n toy_lte) as [tbs|]; [|done]. exists tbs. split; [done|]. by apply Z.ltb_lt.
Qed.

(** CQIs are valid for ten slots of a millisecond; the spectrum has 9 bands, and the uplink the same tables. *)
Definition toy_cqi : CqiConf := mkCqiConf false false 10000000 1000000 20 9 toy_lte.

#[export] Instance toy_cqi_laws : ErrorModelLaws toy_cqi.(m_ulAmc).(m_errorModel).
Proof. apply lte_laws. Qed.

Lemma toy_cqi_ok : cqi_conf_ok toy_conf toy_cqi.
Proof.
  split; try done. intros k n Hk Hn. pose proof toy_blocks as F. rewrite forallb_forall in F.
  specialize (F k). rewrite forallb_forall in F. specialize (F ltac:(apply list_elem_of_In, elem_of_seqZ; cbn in Hk; unfold lte_GetMaxMcs in Hk; lia) 1).
  rewrite forallb_forall in F. specialize (F ltac:(apply list_elem_of_In, elem_of_seqZ; lia) (Z.of_nat n) ltac:(apply list_elem_of_In, elem_of_seqZ; cbn in Hn; lia)).
  cbn [m_ulAmc toy_cqi]. destruct (CalculateTbSize k 1 (Z.of_nat n) toy_lte) as [tbs|]; [|done]. by exists tbs.
Qed.

(** The schedulers of the cell: no CQI has been cached. *)
Abbreviation toy_reachable := (mac_reach toy_conf toy_cqi toy_lte 1 toy_lte).
Abbreviation toy_ok := (req_ok toy_conf toy_cqi 1).

Lemma toy_step s r s' out :
  toy_reachable s -> toy_ok s r -> mac_handle toy_conf toy_cqi r toy_lte s = Ok (toy_lte, s', out) -> toy_reachable s'.
Proof. apply (reach_step toy_conf toy_cqi toy_lte 1). Qed.

Lemma toy_ul_step s snfSf type received s' alloc :
  toy_reachable s -> toy_ok s (UlTriggerReq snfSf type received) ->
  DoSchedUlTriggerReq toy_conf snfSf type received s = Ok (s', alloc) -> toy_reachable s'.
Proof. intros R Q E. apply (toy_step s _ s' (Some alloc) R Q). cbn [mac_handle]. by rewrite E. Qed.

Lemma toy_dl_step s snfSf type received r :
  toy_reachable s -> toy_ok s (DlTriggerReq snfSf type received) ->
  DoSchedDlTriggerReq toy_conf toy_lte snfSf type received s = r -> is_ok r = true ->
  toy_reachable (match r with Ok x => x.1 | Abort _ => s end).
Proof.
  intros R Q E O. destruct r as [[s' alloc]|]; [|done]. apply (toy_step s _ s' (Some alloc) R Q). cbn [mac_handle]. by rewrite E.
Qed.

Lemma toy_inv s : toy_reachable s -> both_inv toy_conf 1 toy_em s.
Proof. intros R. by apply (mac_reach_inv toy_conf toy_cqi toy_lte 1 toy_conf_ok toy_em ltac:(lia) toy_dl_ok toy_cqi_ok toy_lte s). Qed.

Lemma toy_slot_request s snfSf type ulSfn received :
  toy_reachable s -> toy_ok s (UlTriggerReq snfSf type received) -> GetEncoding snfSf = Ok ulSfn ->
  slot_request toy_conf snfSf type ulSfn received s.
Proof. apply (reach_slot toy_conf toy_cqi toy_lte 1 toy_conf_ok toy_em ltac:(lia) toy_dl_ok toy_cqi_ok). Qed.

Definition sector (n : Z) : BeamId := mkBeam n (d_of_Z 90).

(** The requests that set up three UEs with a channel each, data for each of them,
    their requests for scheduling, and two targets *)
Definition toy_requests : list mac_req :=
  [UeConfigReq 1 (sector 0); UeConfigReq 2 (sector 1); UeConfigReq 3 (sector 1);
   LcConfigReq 1 [mkLcConfig 4 1 DIR_BOTH]; LcConfigReq 2 [mkLcConfig 4 1 DIR_BOTH]; LcConfigReq 3 [mkLcConfig 4 1 DIR_BOTH];
   DlRlcBufferReq (mkBufferReq 1 4 200 0 0 0 0); DlRlcBufferReq (mkBufferReq 2 4 300 0 0 0 0); DlRlcBufferReq (mkBufferReq 3 4 3000 0 0 0 0);
   UlSrInfoReq [1; 2; 3]; TargetsReq (<[1 := 1]> {[2 := 2]})].

Definition toy_start : MacSched := empty_mac (mkSrs 2 [0; 1] true).
Definition toy_mac : MacSched := Eval vm_compute in foldl (fun s r => after toy_conf toy_cqi toy_lte r s) toy_start toy_requests.

Definition toy_slot (n : Z) : mac_req := UlTriggerReq (mkSfn 0 0 n 0) SlotUL [].

(** The proof that a request is sound, on a concrete scheduler *)
Ltac sound :=
  match goal with
  | |- req_ok _ _ _ _ (UeConfigReq _ _) => split; [lia|right; apply Nat.ltb_lt; vm_compute; reflexivity]
  | |- req_ok _ _ _ _ (LcConfigReq _ _) =>
      eexists; split; [vm_compute; reflexivity|]; split;
      [constructor; [intros _ (g & lcg & E & _); discriminate E|constructor]|split; [apply (bool_decide_unpack _); vm_compute; reflexivity|]];
      exists [(1, 4)]; split; [cbn; lia|]; split; [intros g lcg c E; vm_compute in E; discriminate E|repeat constructor]
  | |- req_ok _ _ _ _ (DlRlcBufferReq _) =>
      split; [eexists; vm_compute; reflexivity|]; unfold report_sizes, queue_ok, fits; cbn; lia
  | |- req_ok _ _ _ _ (UlSrInfoReq _) =>
      split; [repeat (apply Forall_cons; split; [eexists; vm_compute; reflexivity|]); constructor|apply (bool_decide_unpack _); vm_compute; reflexivity]
  | |- req_ok _ _ _ _ (TargetsReq _) => apply (bool_decide_unpack _); vm_compute; reflexivity
  | |- req_ok _ _ _ _ (UlTriggerReq _ _ []) =>
      split; [by left|]; split; [eexists; split; vm_compute; reflexivity|]; split;
      [constructor|apply (bool_decide_unpack _); vm_compute; reflexivity]
  end.

Lemma toy_reach : toy_reachable toy_mac.
Proof.
  assert (toy_reachable toy_start) as R by (exact (reach_start toy_conf toy_cqi toy_lte 1 2 (mkSrs 2 [0; 1] true) eq_refl)).
  change toy_mac with (foldl (fun s r => after toy_conf toy_cqi toy_lte r s) toy_start toy_requests).
  unfold toy_requests. cbn [foldl]. repeat (apply (reach_after toy_conf toy_cqi toy_lte); [exact I| |sound]). exact R.
Qed.

(** ** The uplink slot *)

Lemma toy_slot_ok : toy_ok toy_mac (toy_slot 0).
Proof. unfold toy_slot. sound. Qed.

Lemma toy_request : slot_request toy_conf (mkSfn 0 0 0 0) SlotUL 0 [] toy_mac.
Proof. apply toy_slot_request; [apply toy_reach|apply toy_slot_ok|by vm_compute]. Qed.


(** What the slot 0 allocates, and the scheduler after it *)
Definition slot0 : res (MacSched * SlotAllocInfo) := Eval vm_compute in DoSchedUlTriggerReq toy_conf (mkSfn 0 0 0 0) SlotUL [] toy_mac.
Definition sent_mac : MacSched := Eval vm_compute in match slot0 with Ok x => x.1 | Abort _ => toy_mac end.
Definition sent_alloc : SlotAllocInfo := Eval vm_compute in match slot0 with Ok x => x.2 | Abort _ => mkSlotAlloc 0 [] end.

Lemma slot0_eq : DoSchedUlTriggerReq toy_conf (mkSfn 0 0 0 0) SlotUL [] toy_mac = Ok (sent_mac, sent_alloc).
Proof. vm_compute. reflexivity. Qed.

Lemma sent_reach : toy_reachable sent_mac.
Proof. exact (toy_ul_step toy_mac _ _ _ sent_mac sent_alloc toy_reach toy_slot_ok slot0_eq). Qed.

(** The grant of the UE 2 *)
Definition grant2 : VarTti := Eval vm_compute in
  match list_find (fun v => dci_rnti (m_dci v) = 2) sent_alloc.(m_varTtiAllocInfo) with Some (_, v) => v | None => slot_info (ctrl_dci toy_conf UL 0) end.

Theorem uplink_targets_kept_witness :
  grant2 ∈ sent_alloc.(m_varTtiAllocInfo) /\ toy_mac.(m_ulTargets) !! dci_rnti (m_dci grant2) = Some 2 /\
  (Z.of_nat (length (remaining_rbgs (m_rbgBitmask (m_dci grant2)))) <= 2 /\
   forall i, m_rbgBitmask (m_dci grant2) !! i = Some true -> GetUlBitmask toy_conf !! i = Some true).
Proof.
  assert (grant2 ∈ sent_alloc.(m_varTtiAllocInfo)) as Hv.
  { apply list_elem_of_In. vm_compute. tauto. }
  split; [exact Hv|]. split; [by vm_compute|].
  apply (uplink_targets_kept toy_conf toy_conf_ok (mkSfn 0 0 0 0) SlotUL 0 [] toy_mac sent_mac sent_alloc grant2 2 toy_request slot0_eq Hv);
    by vm_compute.
Defined.

Theorem uplink_grants_wait_witness :
  (forall v, v ∈ sent_alloc.(m_varTtiAllocInfo) -> dci_type (m_dci v) = DATA ->
     exists p, proc_at sent_mac.(m_ueMap) (ue_key (dci_rnti (m_dci v))) (m_harqProcess (m_dci v)) = Some p /\ hp_active p = true /\
       hp_status p = WAITING_FEEDBACK /\ hp_timer p = 0 /\ m_dciElement p = Some (m_dci v)) /\
  ForallOrdPairs (fun v w => dci_type (m_dci v) = DATA -> m_rv (m_dci v) = 0 -> dci_rnti (m_dci v) <> dci_rnti (m_dci w))
    sent_alloc.(m_varTtiAllocInfo).
Proof. apply (uplink_grants_wait toy_conf toy_conf_ok (mkSfn 0 0 0 0) SlotUL 0 [] toy_mac sent_mac sent_alloc toy_request slot0_eq). Defined.

(** ** Feedback *)

(** UE 2 could not be decoded. *)
Definition nack : HarqInfo := Eval vm_compute in mkHarqInfo 2 (m_harqProcess (m_dci grant2)) false.

Lemma nack_ok : toy_ok sent_mac (UlTriggerReq (mkSfn 0 0 1 0) SlotUL [nack]).
Proof.
  split; [by left|]. split; [eexists; split; vm_compute; reflexivity|]. split; [|apply (bool_decide_unpack _); vm_compute; reflexivity].
  constructor; [|constructor]. split; [cbn; lia|]. eexists. split; [vm_compute; reflexivity|]. by vm_compute.
Qed.

Theorem feedback_answered_witness :
  exists s' alloc, DoSchedUlTriggerReq toy_conf (mkSfn 0 0 1 0) SlotUL [nack] sent_mac = Ok (s', alloc) /\
    ((exists v, v ∈ alloc.(m_varTtiAllocInfo) /\ dci_type (m_dci v) = DATA /\ dci_rnti (m_dci v) = nack.(fb_rnti) /\
        m_harqProcess (m_dci v) = nack.(fb_process) /\ 0 < m_rv (m_dci v)) \/
     nack ∈ s'.(m_ulHarqToRetransmit) \/ alloc.(m_numSymAlloc) = 14 - dl_symbols toy_conf SlotUL).
Proof.
  apply (feedback_answered toy_conf toy_conf_ok (mkSfn 0 0 1 0) SlotUL 256 [nack] sent_mac nack).
  - apply toy_slot_request; [apply sent_reach|apply nack_ok|by vm_compute].
  - by left.
  - done.
  - eexists _, _. split; [vm_compute; reflexivity|]. by vm_compute.
Defined.

(** Nobody answers UE 2 for two slots. *)
Definition slot1 : res (MacSched * SlotAllocInfo) := Eval vm_compute in DoSchedUlTriggerReq toy_conf (mkSfn 0 0 1 0) SlotUL [] sent_mac.
Definition mac1 : MacSched := Eval vm_compute in match slot1 with Ok x => x.1 | Abort _ => toy_mac end.
Definition slot2 : res (MacSched * SlotAllocInfo) := Eval vm_compute in DoSchedUlTriggerReq toy_conf (mkSfn 0 0 2 0) SlotUL [] mac1.
Definition mac2 : MacSched := Eval vm_compute in match slot2 with Ok x => x.1 | Abort _ => toy_mac end.

Lemma slot1_eq : exists alloc, DoSchedUlTriggerReq toy_conf (mkSfn 0 0 1 0) SlotUL [] sent_mac = Ok (mac1, alloc).
Proof. eexists. vm_compute. reflexivity. Qed.
Lemma slot2_eq : exists alloc, DoSchedUlTriggerReq toy_conf (mkSfn 0 0 2 0) SlotUL [] mac1 = Ok (mac2, alloc).
Proof. eexists. vm_compute. reflexivity. Qed.

Lemma silent_sound s n : s.(m_ulHarqToRetransmit) = [] ->
  (exists ulSfn, GetEncoding (mkSfn 0 0 n 0) = Ok ulSfn /\ s.(m_ulAllocationMap) !! ulSfn = None) -> toy_ok s (toy_slot n).
Proof. intros E M. split; [by left|]. split; [done|]. rewrite E. by repeat constructor. Qed.

Lemma silent1 : toy_ok sent_mac (toy_slot 1).
Proof. apply silent_sound; [done|]. exists 256. split; vm_compute; reflexivity. Qed.
Lemma silent2 : toy_ok mac1 (toy_slot 2).
Proof. apply silent_sound; [done|]. exists 512. split; vm_compute; reflexivity. Qed.

Lemma slot1_request : slot_request toy_conf (mkSfn 0 0 1 0) SlotUL 256 [] sent_mac.
Proof. apply toy_slot_request; [apply sent_reach|apply silent1|by vm_compute]. Qed.

Lemma mac1_reach : toy_reachable mac1.
Proof.
  destruct slot1_eq as [alloc E]. exact (toy_ul_step sent_mac _ _ _ mac1 alloc sent_reach silent1 E).
Qed.

Lemma slot2_request : slot_request toy_conf (mkSfn 0 0 2 0) SlotUL 512 [] mac1.
Proof. apply toy_slot_request; [apply mac1_reach|apply silent2|by vm_compute]. Qed.

Lemma two_silent_slots id : silent_slots toy_conf 2 id 2 sent_mac mac2.
Proof.
  destruct slot1_eq as [a1 E1], slot2_eq as [a2 E2].
  apply (next_slot toy_conf 2 id 1 (mkSfn 0 0 1 0) SlotUL 256 [] sent_mac mac1 a1 mac2 slot1_request); [by apply not_elem_of_nil|exact E1|].
  apply (next_slot toy_conf 2 id 0 (mkSfn 0 0 2 0) SlotUL 512 [] mac1 mac2 a2 mac2 slot2_request); [by apply not_elem_of_nil|exact E2|constructor].
Qed.

(** The process of that grant *)
Definition process2 : HarqProcess := Eval vm_compute in
  default idle_process (proc_at sent_mac.(m_ueMap) 2 nack.(fb_process)).

Theorem unanswered_process_expires_witness :
  proc_at mac2.(m_ueMap) 2 nack.(fb_process) = Some (process2 <| hp_timer := 2 |>) /\
  (map_Forall (ue_wf toy_conf) mac2.(m_ueMap) -> Forall (fb_known mac2.(m_ueMap)) ([] ++ []) -> NoDup (fb_key <$> [] ++ []) ->
   (Z.of_nat 2, nack.(fb_process)) ∉ fb_key <$> [] ++ [] ->
   exists l m', process_feedback toy_conf UL [] [] mac2.(m_ueMap) = Ok (l, m') /\ proc_at m' 2 nack.(fb_process) = Some idle_process).
Proof.
  apply (unanswered_process_expires toy_conf toy_conf_ok 2 nack.(fb_process) sent_mac mac2 process2 [] []);
    [by vm_compute|by vm_compute|by vm_compute|by vm_compute|apply two_silent_slots].
Defined.

(** ** The machine *)

Theorem mac_requests_served_witness :
  exists a' s' out, mac_handle toy_conf toy_cqi (UeReleaseReq 2) toy_lte sent_mac = Ok (a', s', out) /\ mac_reach toy_conf toy_cqi toy_lte 1 a' s' /\
    map_Forall (ue_wf toy_conf) s'.(m_ueMap) /\ map_Forall (dl_ue_wf toy_conf toy_em 1) s'.(m_ueMap).
Proof.
  apply (mac_requests_served toy_conf toy_conf_ok toy_lte toy_em 1 ltac:(lia) toy_dl_ok toy_cqi toy_cqi_ok toy_lte sent_mac (UeReleaseReq 2) sent_reach).
  split; [eexists; vm_compute; reflexivity|]. split; constructor.
Defined.

(** The third UE made the period grow from 2 to 4. *)
Theorem sounding_never_collides_witness :
  exists u v, toy_mac.(m_ueMap) !! 1%nat = Some u /\ toy_mac.(m_ueMap) !! 3%nat = Some v /\ u.(m_srsPeriodicity) = 4 /\
    (u.(m_srsPeriodicity) = toy_mac.(m_schedulerSrs).(m_periodicity) /\ 0 <= u.(m_srsOffset) < u.(m_srsPeriodicity) /\
     u.(m_srsOffset) ∉ toy_mac.(m_schedulerSrs).(m_availableOffsetValues) /\
     forall counter, counter mod u.(m_srsPeriodicity) = u.(m_srsOffset) -> counter mod v.(m_srsPeriodicity) = v.(m_srsOffset) -> 1%nat = 3%nat).
Proof.
  eexists _, _. split; [vm_compute; reflexivity|]. split; [vm_compute; reflexivity|]. split; [done|].
  apply (sounding_never_collides toy_conf toy_conf_ok toy_lte toy_em 1 ltac:(lia) toy_dl_ok toy_cqi toy_cqi_ok toy_lte toy_mac 1 3 _ _ toy_reach); vm_compute; reflexivity.
Defined.

(** UE 2 is released before its request for scheduling has been served. *)
Definition released_mac : MacSched := Eval vm_compute in
  match DoCschedUeReleaseReq 2 toy_mac with Ok s => s | Abort _ => toy_mac end.

Theorem release_with_pending_request_aborts_witness :
  2 ∈ toy_mac.(m_srList) /\ exists msg, DoSchedUlTriggerReq toy_conf (mkSfn 0 0 0 0) SlotUL [] released_mac = Abort msg.
Proof.
  assert (2 ∈ toy_mac.(m_srList)) as Hr by (apply (bool_decide_unpack _); vm_compute; reflexivity). split; [exact Hr|].
  apply (release_with_pending_request_aborts toy_conf toy_conf_ok (mkSfn 0 0 0 0) 2 toy_mac released_mac 0);
    [apply (mi_wf _ _ (proj1 (toy_inv _ toy_reach)))|exact Hr|vm_compute; reflexivity|done..].
Defined.

(** The report of what UE 2 sent *)
Definition toy_report2 : UlCqiInfoReq :=
  mkUlCqiReq (mkSfn 0 0 0 0) (m_symStart (m_dci grant2)) PUSCH (replicate 9 (d_of_Z 4)).

(** The UEs that sent on its symbol are there. *)
Lemma grant2_ues :
  forallb (fun w => negb (m_symStart (m_dci w) =? m_symStart (m_dci grant2)) ||
                    bool_decide (is_Some (sent_mac.(m_ueMap) !! ue_key (dci_rnti (m_dci w))))) sent_alloc.(m_varTtiAllocInfo) = true.
Proof. vm_compute. reflexivity. Qed.

Theorem uplink_reports_answered_witness :
  grant2 ∈ sent_alloc.(m_varTtiAllocInfo) /\ dci_type (m_dci grant2) = DATA /\
  exists s2 ue, DoSchedUlCqiInfoReq toy_conf toy_cqi toy_report2 sent_mac = Ok s2 /\
    (s2.(m_ueMap) !! ue_key (dci_rnti (m_dci grant2)) = Some ue /\ ue.(ue_ulCqi).(m_timer) = expirationTime toy_cqi /\
     ue.(ue_ulCqi).(m_sinr) = toy_report2.(cqi_sinr) /\ 0 <= ue.(ue_ul).(m_ulMcs) <= toy_cqi.(m_ulAmc).(m_errorModel).(GetMaxMcs)) /\
    (forall k, (forall w, w ∈ sent_alloc.(m_varTtiAllocInfo) -> m_symStart (m_dci w) = m_symStart (m_dci grant2) -> ue_key (dci_rnti (m_dci w)) <> k) ->
       s2.(m_ueMap) !! k = sent_mac.(m_ueMap) !! k) /\
    s2.(m_ulAllocationMap) !! 0 =
      match filter (fun a => a.(al_symStart) <> m_symStart (m_dci grant2)) (data_allocs sent_alloc.(m_varTtiAllocInfo)) with
      | [] => None
      | kept => Some (mkSlotElem sent_alloc.(m_numSymAlloc) kept)
      end.
Proof.
  assert (grant2 ∈ sent_alloc.(m_varTtiAllocInfo)) as Hv.
  { apply list_elem_of_In. vm_compute. tauto. }
  split; [exact Hv|]. split; [by vm_compute|].
  apply (uplink_reports_answered toy_conf toy_conf_ok toy_lte toy_em toy_dl_ok toy_cqi toy_cqi_ok (mkSfn 0 0 0 0) SlotUL 0 [] toy_mac sent_mac sent_alloc
    toy_report2 sent_mac grant2 toy_request slot0_eq eq_refl Hv).
  - by vm_compute.
  - done.
  - done.
  - split; vm_compute; [by intros|lia].
  - by vm_compute.
  - done.
  - intros w Hw%list_elem_of_In Hs. pose proof grant2_ues as F. rewrite forallb_forall in F. specialize (F w Hw).
    rewrite Hs, Z.eqb_refl in F. cbn [negb orb] in F. by apply bool_decide_eq_true in F.
Defined.
