(* ===== verification/DlMacExamples.v ===== *)
(** Downlink slots of the cell of MacExamples.v: the properties of DlMacProps.v are instances, and a scheduler
    that sound requests reach in which the blocks of two beams cannot be sent again. *)
From Stdlib Require Import ZArith Lia Lists.List SpecFloat.
From stdpp Require Import base list gmap strings list_numbers.
From coqutil Require Import Datatypes.RecordSettersUsingExistingGetters.
From S2P Require Import Prelude OrdMap Messages UlScheduler UlFacts UlProps Amc AmcProps DlUe CqiManagement CqiProps.
From S2P Require Import DlScheduler DlFacts Dci DlProps DciProps LogicalChannels LcProps Harq Srs SfnSf MacScheduler.
From S2P Require Import ResourceMatrix UlSlot DlSlot SlotLayout UlTiling HarqFacts MacFacts UlGrant UlSlotFacts UlData.
From S2P Require Import UlSlotProps DlGrant DlSlotFacts DlHarq DlData DlSlotProps DlMacProps MacInvariant MacRequests.
From S2P Require Import CqiRequests MacReach MacProps MacExamples.
Open Scope Z_scope.
#[local] Existing Instance in_order.
#[local] Existing Instance in_order_laws.
#[local] Existing Instance reversing.
#[local] Existing Instance reversing_laws.
#[local] Existing Instance slot_amc.
#[local] Existing Instance slot_amc_laws.
#[local] Existing Instance rr_policy.
#[local] Existing Instance rr_policy_laws.
#[local] Existing Instance some_libm.
#[local] Existing Instance some_reduce.
#[local] Existing Instance toy_sort.
#[local] Existing Instance toy_stable.

(** A downlink slot *)
Definition dl_slot_of (n : Z) (type : SlotType) (received : list HarqInfo) (s : MacSched) : res (MacSched * SlotAllocInfo) :=
  DoSchedDlTriggerReq toy_conf toy_lte (mkSfn 0 0 n 0) type received s.
Definition slot_mac (r : res (MacSched * SlotAllocInfo)) : MacSched := match r with Ok x => x.1 | Abort _ => toy_mac end.
Definition slot_allocs (r : res (MacSched * SlotAllocInfo)) : list VarTti := match r with Ok x => x.2.(m_varTtiAllocInfo) | Abort _ => [] end.

Definition dl_first : res (MacSched * SlotAllocInfo) := Eval vm_compute in dl_slot_of 0 SlotDL [] toy_mac.
Definition dl_mac1 : MacSched := Eval vm_compute in slot_mac dl_first.

(** ** One slot *)

Abbreviation dl_sfn n := (mkSfn 0 0 n 0).

Lemma dl_first_eq : DoSchedDlTriggerReq toy_conf toy_lte (dl_sfn 0) SlotDL [] toy_mac = dl_first.
Proof. vm_compute. reflexivity. Qed.

(** A downlink trigger that is sound, with feedback of one beam *)
Lemma dl_trigger_sound s n dlSfn type received b :
  type <> SlotUL -> GetEncoding (dl_sfn n) = Ok dlSfn -> 0 <= (taken s dlSfn).(m_totUlSym) ->
  1 + ul_part toy_conf type (taken s dlSfn) <= 14 -> Forall (known DL s.(m_ueMap)) received ->
  Forall (fun fb => in_beam s.(m_ueMap) b (fb_key fb)) (s.(m_dlHarqToRetransmit) ++ received) ->
  s.(m_harqRrBeams) = [] \/ s.(m_harqRrBeams) = [b] -> toy_ok s (DlTriggerReq (dl_sfn n) type received).
Proof. intros Ty E T R K B Q. split; [done|]. split; [by exists dlSfn|]. split; [done|]. by exists b. Qed.

(** The request of a slot from a scheduler that can be reached *)
Lemma dl_toy_request s n dlSfn type received b :
  toy_reachable s -> type <> SlotUL -> GetEncoding (dl_sfn n) = Ok dlSfn -> 0 <= (taken s dlSfn).(m_totUlSym) ->
  1 + ul_part toy_conf type (taken s dlSfn) <= 14 -> Forall (known DL s.(m_ueMap)) received ->
  Forall (fun fb => in_beam s.(m_ueMap) b (fb_key fb)) (s.(m_dlHarqToRetransmit) ++ received) ->
  s.(m_harqRrBeams) = [] \/ s.(m_harqRrBeams) = [b] -> dl_request toy_conf toy_em 1 b (dl_sfn n) type dlSfn received s.
Proof.
  intros Re Ty E T R K B Q. destruct (toy_inv s Re) as [_ [U Kp]].
  apply Forall_app in B as [B1 B2]. split; try done. split; try done; intros k ue Ek; apply (U k ue Ek).
Qed.

Lemma first_request : dl_request toy_conf toy_em 1 (sector 0) (dl_sfn 0) SlotDL 0 [] toy_mac.
Proof.
  apply dl_toy_request; [apply toy_reach|done|vm_compute; reflexivity|vm_compute; done|vm_compute; done|constructor|constructor|by left].
Qed.

Theorem downlink_slot_laid_out_witness :
  exists last s' alloc, DoSchedDlTriggerReq toy_conf toy_lte (dl_sfn 0) SlotDL [] toy_mac = Ok (s', alloc) /\
    toy_conf.(m_dlCtrlSymbols) <= last <= 14 - ul_part toy_conf SlotDL (taken toy_mac 0) /\
    Forall (placed (DlBitmask toy_conf)) alloc.(m_varTtiAllocInfo) /\
    ForallOrdPairs (compatible (beam_of toy_mac.(m_ueMap))) alloc.(m_varTtiAllocInfo) /\
    Forall (fun v => m_symStart (m_dci v) + m_numSym (m_dci v) <= last \/
                     dci_type (m_dci v) = CTRL /\ 14 - ul_part toy_conf SlotDL (taken toy_mac 0) <= m_symStart (m_dci v)) alloc.(m_varTtiAllocInfo) /\
    alloc.(m_numSymAlloc) = last + if bool_decide (SlotDL = SlotS) then 1 else 0.
Proof. apply (downlink_slot_laid_out toy_conf toy_conf_ok toy_lte toy_em 1 toy_dl_ok (sector 0) (dl_sfn 0) SlotDL 0 [] toy_mac first_request). Defined.

Definition dl_alloc1 : SlotAllocInfo := Eval vm_compute in match dl_first with Ok x => x.2 | Abort _ => mkSlotAlloc 0 [] end.

Lemma dl_first_ok : DoSchedDlTriggerReq toy_conf toy_lte (dl_sfn 0) SlotDL [] toy_mac = Ok (dl_mac1, dl_alloc1).
Proof. rewrite dl_first_eq. vm_compute. reflexivity. Qed.

Theorem downlink_grants_wait_witness :
  length dl_alloc1.(m_varTtiAllocInfo) = 4%nat /\
  (forall v, v ∈ dl_alloc1.(m_varTtiAllocInfo) -> dci_type (m_dci v) = DATA ->
     (exists p, proc_of DL dl_mac1.(m_ueMap) (ue_key (dci_rnti (m_dci v))) (m_harqProcess (m_dci v)) = Some p /\ hp_active p = true /\
        hp_status p = WAITING_FEEDBACK /\ hp_timer p = 0 /\ m_dciElement p = Some (m_dci v)) /\
     (m_rv (m_dci v) = 0 -> tti_rlcPduInfo v <> [] /\ pdu_bytes (tti_rlcPduInfo v) = m_tbSize (m_dci v))) /\
  ForallOrdPairs (fun v w => dci_type (m_dci v) = DATA -> dci_type (m_dci w) = DATA -> dci_rnti (m_dci v) <> dci_rnti (m_dci w))
    dl_alloc1.(m_varTtiAllocInfo).
Proof.
  split; [done|].
  apply (downlink_grants_wait toy_conf toy_conf_ok toy_lte toy_em 1 toy_dl_ok (sector 0) (dl_sfn 0) SlotDL 0 [] toy_mac dl_mac1 dl_alloc1 first_request dl_first_ok).
Defined.

(** ** Feedback *)

Lemma dl_mac1_reach : toy_reachable dl_mac1.
Proof.
  apply (toy_dl_step toy_mac (dl_sfn 0) SlotDL [] (Ok (dl_mac1, dl_alloc1)) toy_reach); [|apply dl_first_ok|done].
  apply (dl_trigger_sound _ _ 0 _ _ (sector 0)); [done|vm_compute; reflexivity|vm_compute; done|vm_compute; done|constructor|constructor|by left].
Qed.

(** UE 2, of the second beam, could not decode its block. *)
Definition dl_nack2 : HarqInfo := mkHarqInfo 2 1 false.

Lemma nack2_known : known DL dl_mac1.(m_ueMap) dl_nack2.
Proof. split; [done|]. eexists. split; [vm_compute; reflexivity|]. by vm_compute. Qed.
Lemma nack2_beam : in_beam dl_mac1.(m_ueMap) (sector 1) (fb_key dl_nack2).
Proof. eexists. split; vm_compute; reflexivity. Qed.


(** ** A flexible slot *)

(** The first UE is not to send in the uplink, which leaves symbols to the downlink. *)
Definition flex_start : MacSched := Eval vm_compute in after toy_conf toy_cqi toy_lte (TargetsReq {[1 := 0]}) toy_mac.
Definition flex_ul : res (MacSched * SlotAllocInfo) := Eval vm_compute in DoSchedUlTriggerReq toy_conf (dl_sfn 5) SlotF [] flex_start.
Definition flex_mac : MacSched := Eval vm_compute in slot_mac flex_ul.
Definition flex_ul_alloc : SlotAllocInfo := Eval vm_compute in match flex_ul with Ok x => x.2 | Abort _ => mkSlotAlloc 0 [] end.
Definition flex_dl : res (MacSched * SlotAllocInfo) := Eval vm_compute in dl_slot_of 5 SlotF [] flex_mac.
Definition flex_mac' : MacSched := Eval vm_compute in slot_mac flex_dl.
Definition flex_dl_alloc : SlotAllocInfo := Eval vm_compute in match flex_dl with Ok x => x.2 | Abort _ => mkSlotAlloc 0 [] end.

Lemma flex_start_reach : toy_reachable flex_start.
Proof.
  assert (flex_start = after toy_conf toy_cqi toy_lte (TargetsReq {[1 := 0]}) toy_mac) as -> by (vm_compute; reflexivity).
  apply (reach_after toy_conf toy_cqi toy_lte 1 toy_lte (TargetsReq {[1 := 0]}) toy_mac I toy_reach).
  apply (bool_decide_unpack _). vm_compute. reflexivity.
Qed.

Lemma flex_ul_sound : toy_ok flex_start (UlTriggerReq (dl_sfn 5) SlotF []).
Proof. split; [by right|]. split; [exists 1280; split; vm_compute; reflexivity|]. split; [constructor|vm_compute; constructor]. Qed.

Lemma flex_ul_ok : DoSchedUlTriggerReq toy_conf (dl_sfn 5) SlotF [] flex_start = Ok (flex_mac, flex_ul_alloc).
Proof. vm_compute. reflexivity. Qed.
Lemma flex_dl_ok : DoSchedDlTriggerReq toy_conf toy_lte (dl_sfn 5) SlotF [] flex_mac = Ok (flex_mac', flex_dl_alloc).
Proof. vm_compute. reflexivity. Qed.

Lemma flex_reach : toy_reachable flex_mac.
Proof. exact (toy_ul_step flex_start _ _ _ flex_mac flex_ul_alloc flex_start_reach flex_ul_sound flex_ul_ok). Qed.

(** The last downlink grant and the first uplink one *)
Definition flex_v : VarTti := Eval vm_compute in List.last flex_dl_alloc.(m_varTtiAllocInfo) (slot_info (ctrl_dci toy_conf DL 0)).
Definition flex_w : VarTti := Eval vm_compute in hd (slot_info (ctrl_dci toy_conf UL 0)) flex_ul_alloc.(m_varTtiAllocInfo).

Theorem flexible_slot_shared_witness :
  dci_type (m_dci flex_v) = DATA /\ dci_type (m_dci flex_w) = DATA /\
  (before flex_v flex_w /\ toy_conf.(m_dlCtrlSymbols) <= m_symStart (m_dci flex_w)).
Proof.
  split; [done|]. split; [done|].
  apply (flexible_slot_shared toy_conf toy_conf_ok toy_lte toy_em 1 toy_dl_ok (sector 0) (dl_sfn 5) (dl_sfn 5) 1280 [] []
    flex_start flex_mac flex_ul_alloc flex_mac flex_mac' flex_dl_alloc flex_v flex_w).
  - apply (toy_slot_request); [apply flex_start_reach|apply flex_ul_sound|vm_compute; reflexivity].
  - apply flex_ul_ok.
  - done.
  - apply dl_toy_request; [apply flex_reach|done|vm_compute; reflexivity|vm_compute; done|vm_compute; done|constructor|constructor|by left].
  - apply flex_dl_ok.
  - apply list_elem_of_In. vm_compute. tauto.
  - done.
  - apply list_elem_of_In. vm_compute. tauto.
Defined.

(** ** Two beams *)

(** UE 2 is sent its block again, and then UE 1, of the first beam, asks for its own. *)
Definition again2 : MacSched := Eval vm_compute in slot_mac (dl_slot_of 1 SlotDL [dl_nack2] dl_mac1).
Definition dl_nack1 : HarqInfo := mkHarqInfo 1 1 false.

Lemma again2_eq : again2 = match dl_slot_of 1 SlotDL [dl_nack2] dl_mac1 with Ok x => x.1 | Abort _ => dl_mac1 end.
Proof. vm_compute. reflexivity. Qed.

Lemma again2_reach : toy_reachable again2.
Proof.
  rewrite again2_eq.
  apply (toy_dl_step dl_mac1 (dl_sfn 1) SlotDL [dl_nack2] (dl_slot_of 1 SlotDL [dl_nack2] dl_mac1) dl_mac1_reach); [|done|vm_compute; reflexivity].
  apply (dl_trigger_sound _ _ 256 _ _ (sector 1)); [done|vm_compute; reflexivity|vm_compute; done|vm_compute; done| | |by left].
  - constructor; [apply nack2_known|constructor].
  - constructor; [apply nack2_beam|constructor].
Qed.

Theorem second_beam_resends_out_of_range_witness :
  DoSchedDlTriggerReq toy_conf toy_lte (dl_sfn 2) SlotDL [dl_nack1] again2 = Abort "ret[i] out of range".
Proof.
  destruct (toy_inv again2 again2_reach) as [_ [U _]].
  apply (second_beam_resends_out_of_range toy_conf toy_conf_ok toy_lte toy_em 1 toy_dl_ok (sector 1) (sector 0) (dl_sfn 2) SlotDL 512 [dl_nack1] again2 dl_nack1).
  - intros k ue E. apply (U k ue E).
  - intros k ue E. apply (U k ue E).
  - done.
  - vm_compute. reflexivity.
  - vm_compute. done.
  - vm_compute. done.
  - constructor; [|constructor]. split; [done|]. eexists. split; [vm_compute; reflexivity|]. by vm_compute.
  - repeat constructor. by intros ?%elem_of_nil.
  - constructor; [|constructor]. eexists. split; vm_compute; reflexivity.
  - vm_compute. reflexivity.
  - done.
  - by left.
  - done.
  - eexists _, _. split; [vm_compute; reflexivity|]. by vm_compute.
Defined.

(** After two slots UE 1 has a block of seven symbols from the first, and UE 2 one of seven from the second. *)
Definition dl_mac2 : MacSched := Eval vm_compute in slot_mac (dl_slot_of 1 SlotDL [] dl_mac1).
Definition nack1_second : HarqInfo := mkHarqInfo 1 0 false.

Lemma dl_mac2_eq : dl_mac2 = match dl_slot_of 1 SlotDL [] dl_mac1 with Ok x => x.1 | Abort _ => dl_mac1 end.
Proof. vm_compute. reflexivity. Qed.

Lemma dl_mac2_reach : toy_reachable dl_mac2.
Proof.
  rewrite dl_mac2_eq.
  apply (toy_dl_step dl_mac1 (dl_sfn 1) SlotDL [] (dl_slot_of 1 SlotDL [] dl_mac1) dl_mac1_reach); [|done|vm_compute; reflexivity].
  apply (dl_trigger_sound _ _ 256 _ _ (sector 0)); [done|vm_compute; reflexivity|vm_compute; done|vm_compute; done|constructor|constructor|by left].
Qed.

(** Two beams that retransmit in one slot can bring the scheduler down: sound requests lead to a scheduler in
    which two blocks of seven symbols wait for feedback, in a slot with thirteen symbols for data.  Either of
    them is sent again when it alone is asked for; when both are, the symbols of the first beam are taken off
    twice, the count wraps around, the second block is laid beyond the end of the slot and an assertion fails. *)
Example two_beams_overrun :
  exists s fb1 fb2, toy_reachable s /\ Forall (known DL s.(m_ueMap)) [fb1; fb2] /\
    s.(m_harqRrBeams) = [] /\ s.(m_dlHarqToRetransmit) = [] /\ s.(m_ulAllocationMap) = ∅ /\
    (exists s1 alloc, DoSchedDlTriggerReq toy_conf toy_lte (dl_sfn 2) SlotDL [fb1] s = Ok (s1, alloc) /\ dl_sent_in alloc fb1) /\
    (exists s1 alloc, DoSchedDlTriggerReq toy_conf toy_lte (dl_sfn 2) SlotDL [fb2] s = Ok (s1, alloc) /\ dl_sent_in alloc fb2) /\
    DoSchedDlTriggerReq toy_conf toy_lte (dl_sfn 2) SlotDL [fb1; fb2] s = Abort "NS_ASSERT(dlSymAvail >= usedHarq)".
Proof.
  exists dl_mac2, nack1_second, dl_nack2. split; [apply dl_mac2_reach|]. split.
  { repeat constructor; try done; (eexists; split; [vm_compute; reflexivity|]; by vm_compute). }
  split; [vm_compute; reflexivity|]. split; [vm_compute; reflexivity|]. split; [vm_compute; reflexivity|].
  split; [|split].
  - eexists _, _. split; [vm_compute; reflexivity|]. apply Exists_cons_tl, Exists_cons_hd. by vm_compute.
  - eexists _, _. split; [vm_compute; reflexivity|]. apply Exists_cons_tl, Exists_cons_hd. by vm_compute.
  - vm_compute. reflexivity.
Qed.
