(* ===== verification/EndToEnd.v ===== *)
(** From the agent's shares to the RBGs of the UEs: the command of a reinforcement-learning
    module, its execution by the gNB, and the uplink scheduler that follows it. *)
From Stdlib Require Import ZArith Lia SpecFloat.
From stdpp Require Import base list gmap strings sets.
From S2P Require Import Prelude OrdMap EventQueue Simulator Messages Repository RepositoryFacts World RlLm RlLmProps.
From S2P Require Import RicE2Term Reporters E2Node MoniLm LogicModule NearRtRic WorldExamples System SystemProps.
From S2P Require Import UlScheduler UlFacts UlProps.
Open Scope Z_scope.
(** ** Commands at the gNB *)

Lemma GetNrNetDeviceGnb_inv {Q} (t : Term.E2NodeTerminator) (w : World Q) g :
  GetNrNetDeviceGnb t w = Ok g ->
  exists np n, t.(Term.m_node) = Some np /\ w.(nodes) !! np = Some n /\
    n.(devices) !! Z.to_nat t.(Term.m_netDeviceIndex) = Some (GnbDevice g).
Proof.
  unfold GetNrNetDeviceGnb, deref_ptr, deref, GetDevice. intros E.
  destruct (Term.m_node t) as [np|]; [|done]. destruct (nodes w !! np) as [n|] eqn:En; [|done]. cbn in E.
  destruct (devices n !! _) as [d|] eqn:Ed; [|done]. cbn in E. destruct d as [|g'|]; try done.
  injection E as ->. by exists np, n.
Qed.

(** A handover or target command changes the device of the terminator and nothing else. *)
Lemma ReceiveCommand_gnb {Q} (w : World Q) p t g command :
  w.(terminators) !! p = Some t -> t.(Term.m_active) = true -> t.(Term.type) = NRGNB ->
  command.(cmd_body) <> OranCommandOther -> GetNrNetDeviceGnb t w = Ok g ->
  exists nodes', ReceiveCommand p command w = Ok (w <| nodes := nodes' |>) /\
    GetNrNetDeviceGnb t (w <| nodes := nodes' |>) = Ok (gnb_command command g) /\
    (forall q, Some q <> t.(Term.m_node) -> nodes' !! q = w.(nodes) !! q) /\
    (forall q n i, w.(nodes) !! q = Some n -> i <> Z.to_nat t.(Term.m_netDeviceIndex) ->
       exists n', nodes' !! q = Some n' /\ n'.(devices) !! i = n.(devices) !! i /\ n'.(mobility) = n.(mobility)).
Proof.
  intros Et Ea Ty Nb G. destruct (GetNrNetDeviceGnb_inv _ _ _ G) as (np & n & En & Hn & Hd).
  unfold ReceiveCommand, deref at 1. rewrite Et. cbn [res_bind]. rewrite Ea, Ty.
  set (l := <[Z.to_nat (Term.m_netDeviceIndex t) := GnbDevice (gnb_command command g)]> (devices n)).
  set (nd := <[np := mkNode l n.(mobility)]> w.(nodes)). exists nd. split.
  { destruct (cmd_body command); [| |done]; rewrite G; cbn [res_bind]; rewrite En; unfold deref;
      rewrite Hn; done. }
  split; [|split].
  - unfold GetNrNetDeviceGnb. rewrite En. unfold deref_ptr, deref.
    change (nodes (w <| nodes := nd |>)) with nd. unfold nd. rewrite lookup_insert_eq.
    cbn [res_bind]. unfold GetDevice. cbn [devices]. unfold l.
    rewrite list_lookup_insert_eq; [done|]. by eapply lookup_lt_Some.
  - intros q Nq. apply lookup_insert_ne. congruence.
  - intros q m i Hq Ni. destruct (decide (np = q)) as [<-|Ne].
    + rewrite Hn in Hq. injection Hq as <-. unfold nd. rewrite lookup_insert_eq. eexists. split; [done|].
      split; [|done]. unfold l. cbn. by rewrite list_lookup_insert_ne.
    + unfold nd. rewrite lookup_insert_ne by done. by exists m.
Qed.

(** a command planned for an active gNB terminator is executed when its time comes: a
    handover request reaches the RRC and uplink targets reach the scheduler of its device,
    and the rest of the plan is left as it was. *)
Theorem planned_command_executed {Q} `{EventQueueLaws Q} `{Platform} `{Sqlite} `{RlAgent} `{CppImpl}
    `{StdSort} `{QueryTriggers} (w : World Q) time p t g command pl :
  plan w ((time, ev_ReceiveCommand (Some p) command) :: pl) ->
  w.(terminators) !! p = Some t -> t.(Term.m_active) = true -> t.(Term.type) = NRGNB ->
  command.(cmd_body) <> OranCommandOther -> GetNrNetDeviceGnb t w = Ok g ->
  exists n w', steps (S n) w = Ok w' /\ now w' = time /\ plan w' pl /\
    GetNrNetDeviceGnb t w' = Ok (gnb_command command g) /\ w'.(terminators) = w.(terminators).
Proof.
  intros P Et Ea Ty Nb G. destruct (next_event w time _ pl P) as (n & s1 & T & _ & P1 & E).
  set (w1 := w <| sim := s1 |>) in *.
  destruct (ReceiveCommand_gnb w1 p t g command Et Ea Ty Nb G) as (nd & Rc & Gc & _).
  exists n. rewrite E. unfold handle. rewrite Rc. cbn [res_bind].
  destruct P1 as (l & I & L). change (sim (w1 <| nodes := nd |>)) with s1.
  rewrite (process_ewc_nil _ _ I). cbn [res_bind]. eexists. split; [reflexivity|].
  split; [exact T|]. split; [by exists l|]. split; [exact Gc|done].
Qed.

(** The example with a handover planned *)
Definition handover_world : World (list Event) :=
  match schedule 4 (ev_ReceiveCommand (Some 0%nat) (mkCommand 1 (OranCommandNr2NrHandover 2 17))) example_world with
  | Ok (_, w) => w | Abort _ => example_world end.

Theorem planned_command_executed_witness :
  let sq := engine true in let cpp := some_cpp in
  exists n w', steps (S n) handover_world = Ok w' /\ now w' = 4 /\ plan w' [] /\
    GetNrNetDeviceGnb gnb_terminator w' = Ok (mkGnbDev 1 [(17, 2)] (Some ∅)) /\
    w'.(terminators) = example_world.(terminators).
Proof.
  intros sq cpp.
  apply (planned_command_executed handover_world 4 0%nat gnb_terminator (mkGnbDev 1 [] (Some ∅))
    (mkCommand 1 (OranCommandNr2NrHandover 2 17)) []); [|done|done|done|done|reflexivity].
  destruct (schedule_plan example_world [] 9 0 4
    (ev_ReceiveCommand (Some 0%nat) (mkCommand 1 (OranCommandNr2NrHandover 2 17))) example_plan)
    as (id & s' & E & _ & P & _); [split; [done|cbn; unfold UID_VALID; lia]|lia|].
  unfold handover_world. rewrite E. exact P.
Defined.

(** ** The sum of the targets *)







